(* ===== verification/_CoqProject ===== *)
-Q . S2P
Prelude.v
Mem.v
Alloc.v
Arith.v
Range.v
KStdlib.v
LibMemory.v
Buffers.v
Bits.v
Bitmap.v
Lists.v
Hashmap.v
AvlTree.v
AvlDelete.v
AvlSet.v
Time.v
Refcount.v
Spinlock.v
Ctype.v
Convert.v
Printf.v
PrintfSafe.v
PrintfText.v
PrintfIso.v
Printk.v
Uart8250.v
AddrSpace.v
Hhdm.v
PageAlloc.v
Slab.v
Kmalloc.v
Mm.v
Paging.v
Walker.v
PageTable.v
WalkerFacts.v
Pgmap.v
TableFill.v
PgmapLevels.v
PgmapFacts.v
PgmapDemo.v
Unmap.v
UnmapFacts.v
UnmapDemo.v
Strftime.v
StrftimeText.v
StrftimeDemo.v
