(* ===== verification/Prelude.v ===== *)
(** * Aphrodite: a verification library for the kernel and its support library

    Aphrodite is an operating system kernel in C for x86_64, AArch64, RISC-V and
    LoongArch.  lib/ has the data structures and helpers, kernel/src/ the kernel.  This
    library translates parts of both into functions on explicit states and proves what
    they promise.

    ** How the code is read

    A call is a value of [outcome] (this file): it returned, an assertion fired, it did
    something C leaves undefined, or its fuel ran out.  Fixed-width integers are [Z] with
    their wrap-around written out ([wrap], [to_signed]).  Where the code works on raw
    memory (Mem.v) the memory is a function from addresses to bytes with little endian
    loads and stores; where it works on linked objects (Lists.v, Hashmap.v, AvlTree.v)
    the heap maps addresses to structures and an access to a released object is
    undefined.  Architecture variants are a parameter [arch] (KStdlib.v).  Callbacks,
    firmware and build constants are parameters or section variables.

    ** Files

    - Prelude.v: outcomes, machine integers, tactics.
    - Mem.v: memory, and the shapes of copy and fill loops.
    - Alloc.v: the interfaces [Allocator] (what lib/ uses of kmalloc) and
      [PageAllocator] (what the slab allocator uses of the page allocator).
    - Arith.v, Range.v, Bits.v: lib/overflow.h, align, math, util, macros.h; adt/range.c;
      bits.c.
    - KStdlib.v: kernel/src/sys/stdlib.c, the memory and string routines.
    - LibMemory.v: lib/memory.c.
    - Buffers.v: adt/string_view.c, mutable_buffer.c, growable_buffer.c, array.c,
      string.c, one Module each, over [Allocator].
    - Bitmap.v: adt/bitmap.c, over the growable buffer.
    - Lists.v: list.h.
    - Hashmap.v: adt/hashmap.c, over Lists.v and an allocator parameter.
    - AvlTree.v, AvlDelete.v, AvlSet.v: adt/avltree.c.
    - Time.v: time.c and time.h.
    - Refcount.v, Spinlock.v: refcount.c; kernel/src/cpu/spinlock.c with interrupt flag
      and preemption counter.
    - Ctype.v, Convert.v: ctype.c, convert.c.
    - Printf.v: parse_printf.c and its clients in format.c and string.c; PrintfSafe.v,
      PrintfText.v, PrintfIso.v: its theorems, for every output with the laws [SinkSafe]
      and [SinkText].
    - Printk.v: kernel/src/dev/printk.c, over terminals with the laws [TerminalText].
    - Uart8250.v: kernel/src/dev/uart/8250.c, a terminal.
    - AddrSpace.v: adt/addrspace.c, over the AVL tree and the lists.
    - Hhdm.v: kernel/src/mm/hhdm.c, the direct map.
    - PageAlloc.v: kernel/src/mm/page_alloc.c, page.c, section.c and [free_all_pages] of
      early.c.
    - Slab.v, Kmalloc.v: kernel/src/mm/slab.c, kmalloc.c, phalloc.c, over
      [PageAllocator].
    - Mm.v: page allocator, slab allocator and kmalloc put together.
    - Paging.v: mm/types.h and types.c of the architectures, the formats of page tables.
    - Walker.v: kernel/src/mm/walker.c; PageTable.v: what the memory management unit
      reads in page tables, and which tables there are; WalkerFacts.v: its theorems.
    - Pgmap.v: kernel/src/mm/pgmap.c and pageop.c; TableFill.v: the interface
      [TableSource] to the allocators of tables and the allocation of missing tables;
      PgmapLevels.v, PgmapFacts.v: the theorems on mapping; PgmapDemo.v: runs on a small
      machine.  Unmap.v, UnmapFacts.v, UnmapDemo.v: the same for unmapping.
    - Strftime.v: lib/parse_strftime.c, lib/strftime.c and kernel/src/time/kstrftime.c;
      StrftimeText.v: the text of a time format, for every callback with the laws
      [TimeSinkText]; StrftimeDemo.v: runs on a small memory.

    The interfaces are discharged: PageAlloc.v has an instance [buddy_pages] of
    [PageAllocator], Kmalloc.v an instance [kmalloc_allocator] of [Allocator] for every
    page allocator.  So the theorems on buffers, strings and arrays hold of the kernel's
    heap, and Mm.v runs the three allocators as one machine.

    ** What is proved

    - Refinement: [machine_serves] (Mm.v) takes the machine from boot through any
      sequence of requests; [page_alloc_refines] reads the buddy allocator as sets of
      pages, [kmalloc_refines_blocks] the heap as a map of disjoint blocks that keep
      their bytes, [hashmap_ops_refine] and [avl_ops_refine] the hash map and the AVL
      tree as finite maps, [spin_refines_fifo] the spinlock under every interleaving as
      a queue, Lists.v the lists as sequences, Buffers.v arrays as lists of items.
    - Invariants: the tree of avltree.c, reference counts, mutual exclusion, the lists
      of the page allocator from [free_all_pages] on.
    - Functional correctness: copies and comparisons for every overlap and architecture,
      bit searches, ranges, alignment, dates of all timestamps; printf writes what ISO C
      asks for ([vformat_to_buffer_iso]), on every terminal of the log
      ([vprintk_prints]), but for the directives of [departures]; times are printed directive
      by directive as [strftime_text] says ([strftime_formats]), and timestamps as the
      Gregorian date they are of ([strftime_of_stamp]).
    - Page tables: [pgmap_at_maps] (PgmapFacts.v) shows that mapping a range gives every
      page its translation and no other address a new one, for every format that has the
      laws [paging_ok]; [pgunmap_at_unmaps] that unmapping small pages takes away just
      these and releases the tables left empty; [pagemap_virt_get_phys_translates] that the code reads page
      tables as the memory management unit does.
    - Round trips and equivalence: numbers printed are read back; the two parsers agree.
    - Types: the fields of [struct tm] are in their ranges ([tm_from_stamp_typed]).
    - Errors: exactly when kmalloc returns NULL, when a zone has no block, when a number
      is refused, when a reference count overflows.
    - Termination: printf on every format and argument list; [putk], which never returns.
    - Liveness: a waiting thread gets the spinlock under a fair schedule.  Every theorem
      that a call is [Ok] is a proof of its termination too.

    Lemmas named after a defect ([freed_block_lost], the counterexamples of AvlSet.v,
    and others) evaluate the code where it does not do what it is meant to.

    ** Fuel and bounds

    Loops that are not structural take fuel computed from their arguments by the
    definition itself (a length, a distance, the number of zones), never by the caller of
    a theorem; the theorems show that it is enough.  String scans and printf take fuel as
    an argument, at least the length of the strings; mapping takes fuel, more than the
    pages of the range.  Regions of memory do not wrap around
    the end of the address space.  The page allocator has at most [2 ^ 52] pages.

    ** Not modelled

    Drivers, interrupt controllers, ACPI and device trees, boot protocol, assembly and
    register access: their behaviour is that of hardware or firmware.  Scheduler
    and processes.  Of page tables, the flush of the TLB.  Of the
    page allocator, allocation at an alignment and of large pages; of sections' locks, a try
    that fails.  Printing of trees and address spaces.  Constants of one line, and parts of
    a function that is mapped as a whole, are definitions here without an entry of their
    own in the manifest's map. *)

From Stdlib Require Export ZArith Lia.
From stdpp Require Export base tactics numbers list option.

#[global] Open Scope Z_scope.

(** ** Outcomes of C code

    [Ok a]: the call returned [a].  [Panic]: an [assert], [assert_msg],
    [panic] or [verify_not_reached] fired (lib/assert.h).  [Undef]: the C code
    has no defined behaviour (a shift by the width of its operand or more, a
    NULL dereference).  [Diverge]: the fuel given to a loop ran out.  A theorem
    that a call is [Ok _] therefore shows that it terminates, that no assertion
    fires and that none of the modelled undefined operations is reached. *)

Inductive outcome (A : Type) : Type :=
| Ok (a : A)
| Panic
| Undef
| Diverge.
Arguments Ok {A} a.
Arguments Panic {A}.
Arguments Undef {A}.
Arguments Diverge {A}.

#[global] Instance outcome_ret : MRet outcome := fun A a => Ok a.
#[global] Instance outcome_bind : MBind outcome := fun A B f m =>
  match m with
  | Ok a => f a
  | Panic => Panic
  | Undef => Undef
  | Diverge => Diverge
  end.

(** [assert(cond)] of lib/assert.h. *)
Definition c_assert (cond : bool) : outcome unit :=
  if cond then Ok tt else Panic.

(** ** Machine integers: values of [uintN_t] are the [z] with [0 <= z < 2^N] *)

Definition wrap (w z : Z) : Z := z mod 2 ^ w.
Abbreviation u8 := (wrap 8).
Abbreviation u16 := (wrap 16).
Abbreviation u32 := (wrap 32).
Abbreviation u64 := (wrap 64).

(** Two's complement reading of a [w]-bit pattern ([int32_t], [int64_t]). *)
Definition to_signed (w z : Z) : Z :=
  let r := wrap w z in if r <? 2 ^ (w - 1) then r else r - 2 ^ w.
Abbreviation i8 := (to_signed 8).
Abbreviation i32 := (to_signed 32).
Abbreviation i64 := (to_signed 64).

Definition UINT8_MAX : Z := 2 ^ 8 - 1.
Definition UINT32_MAX : Z := 2 ^ 32 - 1.
Definition UINT64_MAX : Z := 2 ^ 64 - 1.
Definition INT32_MAX : Z := 2 ^ 31 - 1.
Definition INT64_MAX : Z := 2 ^ 63 - 1.

Definition is_u (w z : Z) : Prop := 0 <= z < 2 ^ w.
Abbreviation is_u8 := (is_u 8).
Abbreviation is_u32 := (is_u 32).
Abbreviation is_u64 := (is_u 64).

(** ** Tactics *)

(** Linear arithmetic with division and modulo by constants. *)
Ltac dlia := Z.to_euclidean_division_equations; lia.

(** Case analysis on every boolean comparison in the goal or a hypothesis. *)
Ltac zcase :=
  repeat match goal with
  | |- context [?a <? ?b] => destruct (Z.ltb_spec a b)
  | |- context [?a <=? ?b] => destruct (Z.leb_spec a b)
  | |- context [?a =? ?b] => destruct (Z.eqb_spec a b)
  | H : context [?a <? ?b] |- _ => destruct (Z.ltb_spec a b)
  | H : context [?a <=? ?b] |- _ => destruct (Z.leb_spec a b)
  | H : context [?a =? ?b] |- _ => destruct (Z.eqb_spec a b)
  end; cbn [andb orb negb] in *.

(** Equality of returned tuples, component by component. *)
Ltac tuple_eq :=
  repeat match goal with
  | |- Ok _ = Ok _ => apply (f_equal Ok)
  | |- Some _ = Some _ => apply (f_equal Some)
  | |- (_, _) = (_, _) => apply (f_equal2 pair)
  | |- _ => reflexivity || lia
  end.

Create HintDb aph.

(** ** Lemmas on wrap-around *)

Lemma wrap_small w z : is_u w z -> wrap w z = z.
Proof. intros H. unfold wrap. apply Z.mod_small. exact H. Qed.

Lemma wrap_bound w z : 0 <= w -> is_u w (wrap w z).
Proof.
  intros H. unfold wrap, is_u. apply Z.mod_pos_bound. apply Z.pow_pos_nonneg; lia.
Qed.

Lemma i32_id x : - 2 ^ 31 <= x < 2 ^ 31 -> i32 x = x.
Proof.
  intros H. unfold to_signed, wrap. change (2 ^ (32 - 1)) with (2 ^ 31).
  destruct (Z.ltb_spec (x mod 2 ^ 32) (2 ^ 31)); dlia.
Qed.
Lemma wrap_testbit w z i : 0 <= w -> 0 <= i ->
  Z.testbit (wrap w z) i = (i <? w) && Z.testbit z i.
Proof.
  intros Hw Hi. unfold wrap. destruct (Z.ltb_spec i w); cbn.
  - apply Z.mod_pow2_bits_low; lia.
  - apply Z.mod_pow2_bits_high; lia.
Qed.

(** [~z] of C at width [w]. *)
Definition bnot (w z : Z) : Z := wrap w (Z.lnot z).

Lemma bnot_testbit w z i : 0 <= w -> 0 <= i ->
  Z.testbit (bnot w z) i = (i <? w) && negb (Z.testbit z i).
Proof.
  intros Hw Hi. unfold bnot. rewrite wrap_testbit by lia.
  rewrite Z.lnot_spec by lia. reflexivity.
Qed.

Lemma is_u_testbit_high w z i : is_u w z -> w <= i -> Z.testbit z i = false.
Proof.
  intros [Hl Hh] Hi. destruct (Z.eq_dec z 0) as [->|]; [apply Z.testbit_0_l|].
  destruct (Z.lt_ge_cases w 0).
  - rewrite Z.pow_neg_r in Hh by lia. lia.
  - apply Z.bits_above_log2; [lia|]. apply Z.log2_lt_pow2 in Hh; lia.
Qed.

Lemma testbit_ext w a b : is_u w a -> is_u w b ->
  (forall i, 0 <= i < w -> Z.testbit a i = Z.testbit b i) -> a = b.
Proof.
  intros Ha Hb H. apply Z.bits_inj'. intros i Hi.
  destruct (Z.lt_ge_cases i w).
  - apply H; lia.
  - rewrite !(is_u_testbit_high w) by auto. reflexivity.
Qed.

Lemma is_u_of_bits w z : 0 <= w -> (forall i, w <= i -> Z.testbit z i = false) -> is_u w z.
Proof.
  intros Hw H. replace z with (wrap w z); [apply wrap_bound, Hw|].
  apply Z.bits_inj'. intros i Hi. rewrite wrap_testbit by lia.
  destruct (Z.ltb_spec i w); [reflexivity|]. rewrite H by lia. reflexivity.
Qed.

Lemma is_u_land_l w a b : 0 <= w -> is_u w a -> is_u w (Z.land a b).
Proof.
  intros Hw Ha. apply is_u_of_bits; [auto|]. intros i Hi.
  rewrite Z.land_spec, (is_u_testbit_high w a) by auto. reflexivity.
Qed.

Lemma is_u_lor w a b : 0 <= w -> is_u w a -> is_u w b -> is_u w (Z.lor a b).
Proof.
  intros Hw Ha Hb. apply is_u_of_bits; [auto|]. intros i Hi.
  rewrite Z.lor_spec, !(is_u_testbit_high w) by auto. reflexivity.
Qed.

#[export] Hint Resolve wrap_bound is_u_land_l is_u_lor : aph.
