(* ===== verification/Mem.v ===== *)
(** * Byte-addressed memory

    The memory of the machine as a function from addresses to bytes, little
    endian loads and stores of 1, 2, 4 and 8 bytes (all four architectures of
    the kernel run little endian), and the shapes of copy and fill loops. *)

From S2P Require Import Prelude.

Definition mem := Z -> Z.

Definition upd (m : mem) (a v : Z) : mem := fun x => if x =? a then v else m x.

(** Reading and writing through a pointer to an unsigned type of [n] bytes. *)
Fixpoint load (n : nat) (m : mem) (a : Z) : Z :=
  match n with
  | O => 0
  | S n => m a + 256 * load n m (a + 1)
  end.
Fixpoint store (n : nat) (m : mem) (a v : Z) : mem :=
  match n with
  | O => m
  | S n => store n (upd m a (v mod 256)) (a + 1) (v / 256)
  end.

(** Every cell holds a byte. *)
Definition mem_ok (m : mem) : Prop := forall a, is_u8 (m a).

(** [a] is one of the [n] addresses from [base]. *)
Definition within (base n a : Z) : bool := (base <=? a) && (a <? base + n).

(** The memory that holds the bytes [l] from address [base] and 0 elsewhere. *)
Fixpoint mem_of (base : Z) (l : list Z) : mem :=
  match l with
  | [] => fun _ => 0
  | b :: l => upd (mem_of (base + 1) l) base b
  end.
(** The [n] bytes from [base]. *)
Fixpoint bytes_at (m : mem) (base : Z) (n : nat) : list Z :=
  match n with
  | O => []
  | S n => m base :: bytes_at m (base + 1) n
  end.

Lemma mem_of_ok base l : Forall is_u8 l -> mem_ok (mem_of base l).
Proof.
  intros H. revert base. induction H as [|b l Hb _ IH]; intros base x.
  - cbn. unfold is_u. lia.
  - cbn [mem_of]. unfold upd. destruct (x =? base); [exact Hb|apply IH].
Qed.

Lemma within_spec base n a : within base n a = true <-> base <= a < base + n.
Proof. unfold within. rewrite andb_true_iff, Z.leb_le, Z.ltb_lt. lia. Qed.

(** Case analysis on [within] with its arithmetic meaning. *)
Lemma within_reflect base n a : Bool.reflect (base <= a < base + n) (within base n a).
Proof. apply iff_reflect. symmetry. apply within_spec. Qed.

Ltac wcase :=
  repeat match goal with
  | |- context [within ?b ?n ?a] => destruct (within_reflect b n a)
  | H : context [within ?b ?n ?a] |- _ => destruct (within_reflect b n a)
  end.

Lemma load_bound n m a : mem_ok m -> 0 <= load n m a < 256 ^ Z.of_nat n.
Proof.
  intros Hm. revert a. induction n as [|n IH]; intros a.
  - cbn. lia.
  - cbn [load]. rewrite Nat2Z.inj_succ, Z.pow_succ_r by lia.
    specialize (IH (a + 1)). pose proof (Hm a). unfold is_u in *. lia.
Qed.

(** Byte [i] of a loaded word is the byte at [a + i]. *)
Lemma load_byte n m a i : mem_ok m -> 0 <= i < Z.of_nat n ->
  (load n m a / 256 ^ i) mod 256 = m (a + i).
Proof.
  intros Hm. revert a i. induction n as [|n IH]; intros a i Hi; [lia|].
  cbn [load]. pose proof (Hm a) as Ha. unfold is_u in Ha.
  destruct (Z.eq_dec i 0) as [->|Hi0].
  - rewrite Z.pow_0_r, Z.div_1_r, Z.add_0_r. dlia.
  - replace i with (Z.succ (i - 1)) at 1 by lia.
    rewrite Z.pow_succ_r, <- Z.div_div by (try apply Z.pow_nonzero; lia).
    replace ((m a + 256 * load n m (a + 1)) / 256) with (load n m (a + 1)) by dlia.
    rewrite IH by lia. f_equal. lia.
Qed.

Lemma store_spec n m a v x :
  store n m a v x =
  if within a (Z.of_nat n) x then (v / 256 ^ (x - a)) mod 256 else m x.
Proof.
  revert m a v. induction n as [|n IH]; intros m a v.
  - cbn [store]. wcase; [lia|reflexivity].
  - cbn [store]. rewrite IH, Nat2Z.inj_succ. unfold upd. wcase; try lia.
    + destruct (Z.eqb_spec x a); [lia|].
      replace (x - a) with (Z.succ (x - (a + 1))) by lia.
      rewrite Z.pow_succ_r by lia.
      rewrite <- Z.div_div by (try apply Z.pow_nonzero; lia). reflexivity.
    + destruct (Z.eqb_spec x a) as [->|]; [|lia].
      rewrite Z.sub_diag, Z.pow_0_r, Z.div_1_r. reflexivity.
    + destruct (Z.eqb_spec x a); [lia|reflexivity].
Qed.

Lemma store_ok n m a v : mem_ok m -> mem_ok (store n m a v).
Proof.
  intros Hm x. rewrite store_spec. wcase; [|apply Hm].
  unfold is_u. change (2 ^ 8) with 256. apply Z.mod_pos_bound. lia.
Qed.
#[export] Hint Resolve store_ok : aph.

(** A load reads only the bytes it covers. *)
Lemma load_ext n m m' a : (forall i, 0 <= i < Z.of_nat n -> m (a + i) = m' (a + i)) ->
  load n m a = load n m' a.
Proof.
  revert a. induction n as [|n IH]; intros a H; [reflexivity|].
  cbn [load]. pose proof (H 0 ltac:(lia)) as H0. rewrite Z.add_0_r in H0. rewrite H0.
  rewrite (IH (a + 1)); [reflexivity|]. intros i Hi.
  replace (a + 1 + i) with (a + (i + 1)) by lia. apply H. lia.
Qed.

Lemma load_inj n m m' a b : mem_ok m -> mem_ok m' -> load n m a = load n m' b ->
  forall i, 0 <= i < Z.of_nat n -> m (a + i) = m' (b + i).
Proof.
  intros Hm Hm' E i Hi.
  rewrite <- (load_byte n m a i), <- (load_byte n m' b i) by auto.
  rewrite E. reflexivity.
Qed.

Lemma load_digits n m a v : (forall i, 0 <= i < Z.of_nat n -> m (a + i) = (v / 256 ^ i) mod 256) ->
  load n m a = v mod 256 ^ Z.of_nat n.
Proof.
  revert a v. induction n as [|n IH]; intros a v H; [cbn; rewrite Z.mod_1_r; reflexivity|].
  cbn [load]. rewrite (IH (a + 1) (v / 256)).
  - pose proof (H 0 ltac:(lia)) as H0. rewrite Z.add_0_r, Z.pow_0_r, Z.div_1_r in H0. rewrite H0.
    rewrite Nat2Z.inj_succ, Z.pow_succ_r by lia. rewrite Z.rem_mul_r by (try apply Z.pow_nonzero; lia). lia.
  - intros i Hi. replace (a + 1 + i) with (a + Z.succ i) by lia. rewrite H by lia.
    rewrite Z.pow_succ_r, <- Z.div_div by (try apply Z.pow_pos_nonneg; lia). reflexivity.
Qed.
(** What was stored is loaded back, and a store elsewhere does not matter. *)
Lemma load_store n m a v : load n (store n m a v) a = v mod 256 ^ Z.of_nat n.
Proof.
  apply load_digits. intros i Hi. rewrite store_spec. wcase; [|lia]. do 3 f_equal. lia.
Qed.
Lemma load_store_ne n k m a b v : a + Z.of_nat n <= b \/ b + Z.of_nat k <= a ->
  load n (store k m b v) a = load n m a.
Proof. intros H. apply load_ext. intros i Hi. rewrite store_spec. wcase; [lia|reflexivity]. Qed.

(** Bit [i] of a loaded word is bit [i mod 8] of byte [i / 8]. *)
Lemma load_testbit n m a i : mem_ok m -> 0 <= i < 8 * Z.of_nat n ->
  Z.testbit (load n m a) i = Z.testbit (m (a + i / 8)) (i mod 8).
Proof.
  intros Hm Hi.
  rewrite <- (load_byte n m a (i / 8)) by (auto || dlia).
  replace (256 ^ (i / 8)) with (2 ^ (8 * (i / 8)))
    by (rewrite Z.pow_mul_r by dlia; reflexivity).
  change 256 with (2 ^ 8).
  rewrite Z.mod_pow2_bits_low, Z.div_pow2_bits by dlia. f_equal. dlia.
Qed.

Lemma store_testbit n m a v x i : 0 <= i < 8 ->
  Z.testbit (store n m a v x) i =
  if within a (Z.of_nat n) x then Z.testbit v (8 * (x - a) + i)
  else Z.testbit (m x) i.
Proof.
  intros Hi. rewrite store_spec. wcase; [|reflexivity].
  change 256 with (2 ^ 8) at 2. rewrite Z.mod_pow2_bits_low by lia.
  change 256 with (2 ^ 8). rewrite <- Z.pow_mul_r, Z.div_pow2_bits by lia.
  f_equal. lia.
Qed.

(** ** Copies and fills *)

(** [m'] is [m] with [n] bytes from [src] copied to [dst]. *)
Definition copied (m m' : mem) (dst src n : Z) : Prop :=
  forall x, m' x = if within dst n x then m (src + (x - dst)) else m x.

(** [m'] is [m] with [n] bytes from [dst] set to [v]. *)
Definition filled (m m' : mem) (dst n v : Z) : Prop :=
  forall x, m' x = if within dst n x then v else m x.

Lemma copied_ok m m' dst src n : mem_ok m -> copied m m' dst src n -> mem_ok m'.
Proof. intros Hm H x. rewrite H. destruct (within dst n x); apply Hm. Qed.

Lemma copied_nil m dst src : copied m m dst src 0.
Proof. intros x. wcase; [lia|reflexivity]. Qed.

(** Ascending copy: the second part reads nothing the first part wrote. *)
Lemma copied_app m m1 m2 dst src a b : 0 <= a -> 0 <= b ->
  dst <= src \/ src + a + b <= dst ->
  copied m m1 dst src a -> copied m1 m2 (dst + a) (src + a) b ->
  copied m m2 dst src (a + b).
Proof.
  intros Ha Hb Ho H1 H2 x. rewrite H2, !H1.
  wcase; try lia; try reflexivity. f_equal. lia.
Qed.

(** Descending copy: the high part first. *)
Lemma copied_app_down m m1 m2 dst src a b : 0 <= a -> 0 <= b -> src <= dst ->
  copied m m1 (dst + a) (src + a) b -> copied m1 m2 dst src a ->
  copied m m2 dst src (a + b).
Proof.
  intros Ha Hb Ho H1 H2 x. rewrite H2, !H1.
  wcase; try lia; try reflexivity. f_equal. lia.
Qed.

Lemma filled_nil m dst v : filled m m dst 0 v.
Proof. intros x. wcase; [lia|reflexivity]. Qed.

Lemma filled_app m m1 m2 dst a b v : 0 <= a -> 0 <= b ->
  filled m m1 dst a v -> filled m1 m2 (dst + a) b v -> filled m m2 dst (a + b) v.
Proof. intros Ha Hb H1 H2 x. rewrite H2, !H1. wcase; try lia; reflexivity. Qed.

Lemma filled_ok m m' dst n v : mem_ok m -> is_u8 v -> filled m m' dst n v -> mem_ok m'.
Proof. intros Hm Hv H x. rewrite H. destruct (within dst n x); auto. Qed.

(** One word moved through a register. *)
Lemma store_load_copied n m dst src : mem_ok m ->
  copied m (store n m dst (load n m src)) dst src (Z.of_nat n).
Proof.
  intros Hm x. rewrite store_spec. wcase; [|reflexivity]. apply load_byte; [auto|lia].
Qed.

(** ** Regions read as lists of bytes *)

Lemma length_bytes_at m base n : length (bytes_at m base n) = n.
Proof. revert base. induction n as [|n IH]; intros base; cbn; [reflexivity|]. rewrite IH. reflexivity. Qed.

Lemma lookup_bytes_at m base n i : (i < n)%nat ->
  bytes_at m base n !! i = Some (m (base + Z.of_nat i)).
Proof.
  revert base i. induction n as [|n IH]; intros base i Hi; [lia|].
  destruct i as [|i]; cbn [bytes_at lookup list_lookup].
  - rewrite Z.add_0_r. reflexivity.
  - rewrite IH by lia. do 2 f_equal. lia.
Qed.

Lemma bytes_at_app m base a b :
  bytes_at m base (a + b) = bytes_at m base a ++ bytes_at m (base + Z.of_nat a) b.
Proof.
  revert base. induction a as [|a IH]; intros base; cbn [bytes_at app Nat.add].
  - rewrite Z.add_0_r. reflexivity.
  - rewrite IH. do 3 f_equal. lia.
Qed.

(** Two regions hold the same bytes when they agree cell by cell. *)
Lemma bytes_at_ext m m' base base' n :
  (forall i, 0 <= i < Z.of_nat n -> m (base + i) = m' (base' + i)) ->
  bytes_at m base n = bytes_at m' base' n.
Proof.
  intros H. apply list_eq. intros i. destruct (decide (i < n)%nat).
  - rewrite !lookup_bytes_at by auto. f_equal. apply H. lia.
  - rewrite !lookup_ge_None_2 by (rewrite length_bytes_at; lia). reflexivity.
Qed.

Lemma copied_bytes m m' dst src n : 0 <= n -> copied m m' dst src n ->
  bytes_at m' dst (Z.to_nat n) = bytes_at m src (Z.to_nat n).
Proof.
  intros Hn H. apply bytes_at_ext. intros i Hi. rewrite H.
  wcase; [|lia]. f_equal. lia.
Qed.

Lemma filled_bytes m m' dst n v : 0 <= n -> filled m m' dst n v ->
  bytes_at m' dst (Z.to_nat n) = replicate (Z.to_nat n) v.
Proof.
  intros Hn H. apply list_eq. intros i. destruct (decide (i < Z.to_nat n)%nat).
  - rewrite lookup_bytes_at, lookup_replicate_2 by auto. f_equal. rewrite H. wcase; [reflexivity|lia].
  - rewrite !lookup_ge_None_2 by (rewrite ?length_bytes_at, ?length_replicate; lia). reflexivity.
Qed.

(** Disjoint regions. *)
Definition disjoint_regions (a n b k : Z) : Prop := a + n <= b \/ b + k <= a.

Lemma copied_frame m m' dst src n base k : copied m m' dst src n ->
  disjoint_regions dst n base (Z.of_nat k) -> bytes_at m' base k = bytes_at m base k.
Proof.
  intros H D. apply bytes_at_ext. intros i Hi. rewrite H.
  unfold disjoint_regions in D. wcase; [lia|reflexivity].
Qed.

Lemma filled_frame m m' dst n v base k : filled m m' dst n v ->
  disjoint_regions dst n base (Z.of_nat k) -> bytes_at m' base k = bytes_at m base k.
Proof.
  intros H D. apply bytes_at_ext. intros i Hi. rewrite H.
  unfold disjoint_regions in D. wcase; [lia|reflexivity].
Qed.
