(* ===== verification/Alloc.v ===== *)
(** * The allocator interfaces

    What lib/ relies on of [malloc_size] and [free] (lib/alloc.h maps them to
    kernel/src/mm/kmalloc.c): a class of operations with their laws.  [avail]
    are the addresses the allocator may hand out or write to, [block] the
    blocks that are handed out, and [heap_ok] is the allocator's invariant, which
    writes outside [avail] keep.  Kmalloc.v shows the laws for the kernel's
    allocator; a bump allocator is a small instance of them.  In the same way
    [PageAllocator] is what the slab allocator relies on of [alloc_pages] and
    [free_pages] (kernel/src/mm/page_alloc.c). *)

From S2P Require Import Prelude Mem.

Class Allocator := {
  heap : Type;
  (** The block and its size, if any, the new state and the new memory. *)
  malloc_size : heap -> mem -> Z -> outcome (option (Z * Z) * heap * mem);
  free : heap -> mem -> Z -> outcome (heap * mem);
  avail : heap -> Z -> Prop;
  block : heap -> Z -> Z -> Prop;
  heap_ok : heap -> mem -> Prop;
  heap_frame : forall h m m', heap_ok h m -> (forall a, avail h a -> m' a = m a) -> heap_ok h m';
  malloc_ok : forall h m n, heap_ok h m -> mem_ok m -> 0 <= n < 2 ^ 32 ->
    exists r h' m', malloc_size h m n = Ok (r, h', m') /\ heap_ok h' m' /\ mem_ok m' /\
      (forall a, ~ avail h a -> m' a = m a) /\
      match r with
      | Some (p, n') =>
          n <= n' < 2 ^ 31 /\ 0 < p /\ p + n' < 2 ^ 64 /\
          (forall a, p <= a < p + n' -> avail h a) /\
          (forall a, avail h' a -> avail h a /\ ~ (p <= a < p + n')) /\
          block h' p n' /\ (forall q k, block h q k -> q <> p /\ block h' q k)
      | None =>
          (forall a, avail h' a -> avail h a) /\ (forall q k, block h q k -> block h' q k)
      end;
  free_ok : forall h m p n, heap_ok h m -> mem_ok m -> block h p n ->
    exists h' m', free h m p = Ok (h', m') /\ heap_ok h' m' /\ mem_ok m' /\
      (forall a, avail h' a -> avail h a \/ p <= a < p + n) /\
      (forall q k, block h q k -> q <> p -> block h' q k) /\
      (forall a, ~ avail h' a -> m' a = m a)
}.

(** ** The page allocator interface *)

Definition pages_size (shift order : Z) : Z := 2 ^ (shift + order).

Class PageAllocator := {
  pheap : Type;
  page_shift : Z;
  (** [alloc_pages(PAGE_STATE_SLAB_HEAD, __ALLOC_ZERO, order)]: the address of the pages. *)
  alloc_pages : pheap -> mem -> Z -> outcome (option Z * pheap * mem);
  free_pages : pheap -> mem -> Z -> Z -> outcome (pheap * mem);
  pavail : pheap -> Z -> Prop;
  pblock : pheap -> Z -> Z -> Prop;
  pheap_ok : pheap -> mem -> Prop;
  page_shift_ok : 12 <= page_shift <= 16;
  pheap_frame : forall h m m', pheap_ok h m -> (forall a, pavail h a -> m' a = m a) -> pheap_ok h m';
  pblock_ok : forall h m p o, pheap_ok h m -> pblock h p o ->
    0 < p /\ p mod 2 ^ page_shift = 0 /\ p + pages_size page_shift o < 2 ^ 64 /\
    (forall a, p <= a < p + pages_size page_shift o -> ~ pavail h a);
  pblock_disjoint : forall h m p o q o', pheap_ok h m -> pblock h p o -> pblock h q o' -> p <> q ->
    p + pages_size page_shift o <= q \/ q + pages_size page_shift o' <= p;
  alloc_pages_ok : forall h m o, pheap_ok h m -> mem_ok m -> 0 <= o <= 8 ->
    exists r h' m', alloc_pages h m o = Ok (r, h', m') /\ pheap_ok h' m' /\ mem_ok m' /\
      (forall a, ~ pavail h a -> m' a = m a) /\ (forall a, pavail h' a -> pavail h a) /\
      (forall q k, pblock h q k -> pblock h' q k) /\
      match r with
      | Some p => pblock h' p o /\ (forall q k, pblock h q k -> q <> p) /\
                  (forall a, p <= a < p + pages_size page_shift o -> pavail h a /\ m' a = 0)
      | None => True
      end;
  free_pages_ok : forall h m p o, pheap_ok h m -> mem_ok m -> pblock h p o ->
    exists h' m', free_pages h m p o = Ok (h', m') /\ pheap_ok h' m' /\ mem_ok m' /\
      (forall a, pavail h' a <-> pavail h a \/ p <= a < p + pages_size page_shift o) /\
      (forall q k, pblock h q k -> q <> p -> pblock h' q k) /\
      (forall a, ~ pavail h' a -> m' a = m a)
}.

(** ** A bump allocator over [[lo, hi)] *)

Module Bump.

Record bump := { next : Z; limit : Z; blocks : list (Z * Z) }.

(** Blocks lie below the next free address. *)
Definition bump_block (h : bump) (p n : Z) : Prop := In (p, n) (blocks h) /\ p < next h.

Definition bump_malloc (h : bump) (m : mem) (n : Z) : outcome (option (Z * Z) * bump * mem) :=
  Ok (if (0 <? next h) && (0 <? n) && (n <? 2 ^ 31) && (next h + n <=? limit h)
       && (limit h <? 2 ^ 64)
  then (Some (next h, n),
        {| next := next h + n; limit := limit h; blocks := (next h, n) :: blocks h |}, m)
  else (None, h, m)).

(** Blocks are never reused. *)
Definition bump_free (h : bump) (m : mem) (p : Z) : outcome (bump * mem) := Ok (h, m).

#[export] Program Instance bump_allocator : Allocator := {|
  heap := bump;
  malloc_size := bump_malloc;
  free := bump_free;
  avail h a := next h <= a < limit h;
  block := bump_block;
  heap_ok h m := True
|}.
Next Obligation. auto. Qed.
Next Obligation.
  intros h m n _ Hm Hn. unfold bump_malloc. destruct (_ && _) eqn:E.
  - apply andb_prop in E as [E E5]. apply andb_prop in E as [E E4]. apply andb_prop in E as [E E3].
    apply andb_prop in E as [E1 E2]. apply Z.ltb_lt in E1, E2, E3, E5. apply Z.leb_le in E4.
    eexists _, _, _. split; [reflexivity|]. unfold bump_block. cbn. intuition lia.
  - eexists _, _, _. split; [reflexivity|]. cbn. auto.
Qed.
Next Obligation. intros h m p n _ Hm _. exists h, m. cbn. auto 10. Qed.

End Bump.
