(* ===== verification/Arith.v ===== *)
(** * Arithmetic helpers: lib/overflow.h, lib/align.[ch], lib/math.c, lib/util.c, lib/macros.h

    Checked arithmetic, alignment and rounding on [uint64_t], with the
    specification of each in terms of integer division. *)

From S2P Require Import Prelude.

(** ** lib/overflow.h

    [__builtin_*_overflow] computes in unbounded integers and reports whether
    the result fits the type of the out parameter.  The out parameter of a
    failed check is never read by the callers, so failure is [None]. *)

Definition fits (w r : Z) : option Z :=
  if (0 <=? r) && (r <? 2 ^ w) then Some r else None.
Definition check_add_w (w lhs rhs : Z) : option Z := fits w (lhs + rhs).
Definition check_sub_w (w lhs rhs : Z) : option Z := fits w (lhs - rhs).
Definition check_mul_w (w lhs rhs : Z) : option Z := fits w (lhs * rhs).
Abbreviation check_add := (check_add_w 64).
Abbreviation check_sub := (check_sub_w 64).
Abbreviation check_mul := (check_mul_w 64).

(** [assert(check_op(..., &r)); r] *)
Definition assert_some {A} (o : option A) : outcome A :=
  match o with Some a => Ok a | None => Panic end.
Definition check_add_assert_w (w lhs rhs : Z) : outcome Z := assert_some (check_add_w w lhs rhs).
Definition check_sub_assert_w (w lhs rhs : Z) : outcome Z := assert_some (check_sub_w w lhs rhs).
Definition check_mul_assert_w (w lhs rhs : Z) : outcome Z := assert_some (check_mul_w w lhs rhs).

(** ** lib/align.h and lib/align.c *)

Definition offset_from_boundary (number boundary : Z) : outcome Z :=
  _ ← c_assert (negb (boundary =? 0));
  Ok (Z.land number (u64 (boundary - 1))).

Definition amount_to_boundary (number boundary : Z) : outcome Z :=
  _ ← c_assert (negb (boundary =? 0));
  off ← offset_from_boundary number boundary;
  Ok (u64 (boundary - off)).

Definition has_align (number boundary : Z) : outcome bool :=
  _ ← c_assert (negb (boundary =? 0));
  off ← offset_from_boundary number boundary;
  Ok (off =? 0).

Definition align_down (number boundary : Z) : outcome Z :=
  _ ← c_assert (negb (boundary =? 0));
  let mask := bnot 64 (u64 (boundary - 1)) in
  Ok (Z.land number mask).

Definition align_up (number boundary : Z) : outcome (option Z) :=
  if boundary =? 0 then Ok None
  else match check_add number (u64 (boundary - 1)) with
       | None => Ok None
       | Some result => r ← align_down result boundary; Ok (Some r)
       end.

Definition align_up_assert (number boundary : Z) : outcome Z :=
  r ← align_up number boundary; assert_some r.

(** ** lib/math.c *)

Definition round_up (number multiple : Z) : outcome (option Z) :=
  _ ← c_assert (negb (multiple =? 0));
  if number =? 0 then Ok (Some multiple)
  else match check_add number (u64 (multiple - 1)) with
       | None => Ok None
       | Some r => Ok (check_mul (r / multiple) multiple)
       end.

(** The loop of [math_pow], one iteration per unit of [exp]. *)
Fixpoint math_pow_loop (base : Z) (exp : nat) (result : Z) : option Z :=
  match exp with
  | O => Some result
  | S exp => match check_mul result base with
             | None => None
             | Some result => math_pow_loop base exp result
             end
  end.
Definition math_pow (base exp : Z) : option Z :=
  math_pow_loop base (Z.to_nat exp) base.

(** ** lib/util.c and lib/macros.h *)

Definition index_in_bounds (index bounds : Z) : bool := index <? bounds.
Definition ordinal_in_bounds (ordinal bounds : Z) : bool :=
  negb (ordinal =? 0) && (ordinal <=? bounds).
Definition twovar_cmp (a b : Z) : Z :=
  if a <? b then -1 else if b <? a then 1 else 0.
Definition distance (begin end_ : Z) : Z := u64 (end_ - begin).
Definition div_round_up (a b : Z) : Z :=
  if negb (a mod b =? 0) then u64 (a / b + 1) else a / b.
Definition bits_to_bytes_noround (bits : Z) : Z := bits / 8.
Definition bits_to_bytes_roundup (bits : Z) : Z :=
  if negb (bits mod 8 =? 0) then bits_to_bytes_noround bits + 1
  else bits_to_bytes_noround bits.
Definition bytes_to_bits (bytes : Z) : Z := u64 (bytes * 8).
(** A shift by 64 or more is undefined. *)
Definition mask_for_n_bits (n : Z) : outcome Z :=
  if n =? 64 then Ok UINT64_MAX
  else if (0 <? n) && (n <? 64) then Ok (Z.shiftr UINT64_MAX (64 - n)) else Undef.
Definition has_mask (num mask : Z) : bool := Z.land num mask =? mask.
(** [w] is the width of the object the macros are applied to. *)
Definition rm_mask (w num mask : Z) : Z := Z.land num (bnot w mask).
(** [set_bits_for_mask], as the new value of the object. *)
Definition set_bits_for_mask (w v mask : Z) (value : bool) : Z :=
  if value then wrap w (Z.lor v mask) else rm_mask w v mask.
Definition sign_extend_from_index (num index : Z) : outcome Z :=
  ones ← mask_for_n_bits (64 - index);
  let mask := u64 (Z.shiftl ones index) in
  Ok (set_bits_for_mask 64 num mask (negb (Z.land num (Z.shiftl 1 index) =? 0))).

(** ** Specifications *)

(** The boundaries the kernel passes: page and object sizes, powers of two. *)
Definition pow2_64 (b : Z) : Prop := exists k, 0 <= k < 64 /\ b = 2 ^ k.

Lemma pow2_64_bound b : pow2_64 b -> 0 < b < 2 ^ 64.
Proof.
  intros [k [Hk ->]]. split; [apply Z.pow_pos_nonneg; lia|].
  apply Z.pow_lt_mono_r; lia.
Qed.

Lemma fits_Some w r x : fits w r = Some x <-> x = r /\ is_u w r.
Proof.
  unfold fits, is_u. zcase; split; intros H'; simplify_eq; try lia;
    destruct H'; subst; try reflexivity; lia.
Qed.
Lemma fits_None w r : fits w r = None <-> ~ is_u w r.
Proof. unfold fits, is_u. zcase; split; intros; try discriminate; try lia; reflexivity. Qed.

Lemma fits_ok w r : is_u w r -> fits w r = Some r.
Proof. intros. apply fits_Some. auto. Qed.

Lemma land_pow2_pred n k : 0 <= k -> Z.land n (2 ^ k - 1) = n mod 2 ^ k.
Proof.
  intros. replace (2 ^ k - 1) with (Z.ones k).
  - apply Z.land_ones; lia.
  - rewrite Z.ones_equiv. lia.
Qed.

Lemma u64_pow2_pred k : 0 <= k < 64 -> u64 (2 ^ k - 1) = 2 ^ k - 1.
Proof.
  intros Hk. apply wrap_small. unfold is_u.
  pose proof (pow2_64_bound (2 ^ k) (ex_intro _ k (conj Hk eq_refl))). lia.
Qed.

Lemma land_not_pow2_pred n k : 0 <= k < 64 -> is_u64 n ->
  Z.land n (bnot 64 (2 ^ k - 1)) = n - n mod 2 ^ k.
Proof.
  intros Hk Hn.
  assert (E : Z.land n (bnot 64 (2 ^ k - 1)) = Z.ldiff n (Z.ones k)).
  { apply Z.bits_inj'. intros i Hi.
    rewrite Z.land_spec, bnot_testbit, Z.ldiff_spec by lia.
    replace (2 ^ k - 1) with (Z.ones k) by (rewrite Z.ones_equiv; lia).
    destruct (Z.ltb_spec i 64); [reflexivity|].
    rewrite (is_u_testbit_high 64) by (auto || lia). reflexivity. }
  rewrite E, Z.ldiff_ones_r, Z.shiftr_div_pow2, Z.shiftl_mul_pow2 by lia.
  assert (0 < 2 ^ k) by (apply Z.pow_pos_nonneg; lia).
  pose proof (Z.div_mod n (2 ^ k)). lia.
Qed.

Lemma offset_from_boundary_pow2 n b : pow2_64 b ->
  offset_from_boundary n b = Ok (n mod b).
Proof.
  intros Hb. pose proof (pow2_64_bound _ Hb). destruct Hb as [k [Hk ->]].
  unfold offset_from_boundary, c_assert. destruct (Z.eqb_spec (2 ^ k) 0); [lia|].
  cbn. rewrite u64_pow2_pred, land_pow2_pred by lia. reflexivity.
Qed.

Lemma has_align_pow2 n b : pow2_64 b -> has_align n b = Ok (n mod b =? 0).
Proof.
  intros Hb. pose proof (pow2_64_bound _ Hb). unfold has_align, c_assert.
  destruct (Z.eqb_spec b 0); [lia|]. cbn.
  rewrite offset_from_boundary_pow2 by auto. reflexivity.
Qed.

Lemma align_down_pow2 n b : is_u64 n -> pow2_64 b ->
  align_down n b = Ok (n - n mod b).
Proof.
  intros Hn Hb. pose proof (pow2_64_bound _ Hb). destruct Hb as [k [Hk ->]].
  unfold align_down, c_assert. destruct (Z.eqb_spec (2 ^ k) 0); [lia|]. cbn.
  rewrite u64_pow2_pred, land_not_pow2_pred by auto. reflexivity.
Qed.

Lemma align_up_pow2 n b : is_u64 n -> pow2_64 b ->
  align_up n b = Ok (if n + (b - 1) <? 2 ^ 64
                     then Some ((n + (b - 1)) - (n + (b - 1)) mod b) else None).
Proof.
  intros Hn Hb. pose proof (pow2_64_bound _ Hb). unfold align_up.
  destruct (Z.eqb_spec b 0); [lia|].
  rewrite (wrap_small 64 (b - 1)) by (unfold is_u; lia).
  unfold check_add_w, fits, is_u in *.
  destruct (Z.leb_spec 0 (n + (b - 1))); [|lia].
  destruct (Z.ltb_spec (n + (b - 1)) (2 ^ 64)); cbn [andb]; [|reflexivity].
  rewrite align_down_pow2 by (unfold is_u; auto). reflexivity.
Qed.

(** The least multiple of [b] that is at least [n]. *)
Definition least_multiple (b n r : Z) : Prop :=
  (b | r) /\ n <= r /\ forall m, (b | m) -> n <= m -> r <= m.

Lemma least_multiple_mod b n : 0 < b ->
  least_multiple b n ((n + (b - 1)) - (n + (b - 1)) mod b).
Proof.
  intros Hb. pose proof (Z.div_mod (n + (b - 1)) b ltac:(lia)) as E.
  pose proof (Z.mod_pos_bound (n + (b - 1)) b Hb).
  split; [|split].
  - exists ((n + (b - 1)) / b). lia.
  - lia.
  - intros m [q ->] Hm. destruct (Z.le_gt_cases ((n + (b - 1)) / b) q); nia.
Qed.

(** C37: [align_up] of lib/align.c never fires an assertion; for a power-of-two
    boundary it returns the least multiple of the boundary that is not below
    the number, and it fails exactly when that multiple does not fit 64 bits. *)
Theorem align_up_least n b : is_u64 n -> pow2_64 b ->
  exists r, least_multiple b n r /\
    align_up n b = Ok (if r <? 2 ^ 64 then Some r else None).
Proof.
  intros Hn Hb. pose proof (pow2_64_bound _ Hb) as Bb.
  exists ((n + (b - 1)) - (n + (b - 1)) mod b).
  split; [apply least_multiple_mod; lia|].
  rewrite align_up_pow2 by auto. f_equal.
  pose proof (Z.mod_pos_bound (n + (b - 1)) b ltac:(lia)).
  destruct (Z.ltb_spec (n + (b - 1)) (2 ^ 64)) as [?|Hge].
  { destruct (Z.ltb_spec (n + (b - 1) - (n + (b - 1)) mod b) (2 ^ 64)); [reflexivity|lia]. }
  assert (2 ^ 64 <= n + (b - 1) - (n + (b - 1)) mod b) as Hr.
  { destruct Hb as [k [Hk ->]].
    assert (E : 2 ^ 64 = 2 ^ (64 - k) * 2 ^ k) by (rewrite <- Z.pow_add_r; f_equal; lia).
    pose proof (Z.div_mod (n + (2 ^ k - 1)) (2 ^ k) ltac:(lia)).
    rewrite E in Hge |- *.
    assert (2 ^ (64 - k) <= (n + (2 ^ k - 1)) / 2 ^ k)
      by (apply Z.div_le_lower_bound; lia).
    nia. }
  destruct (Z.ltb_spec (n + (b - 1) - (n + (b - 1)) mod b) (2 ^ 64)); [lia|reflexivity].
Qed.

Lemma align_up_least_witness :
  exists r, least_multiple 4096 4097 r /\
    align_up 4097 4096 = Ok (if r <? 2 ^ 64 then Some r else None).
Proof.
  apply (align_up_least 4097 4096); [unfold is_u; lia|exists 12; lia].
Defined.

Lemma div_round_up_spec a b : 0 <= a < 2 ^ 64 -> 0 < b ->
  div_round_up a b = (a + b - 1) / b.
Proof.
  intros Ha Hb. unfold div_round_up.
  pose proof (Z.div_mod a b ltac:(lia)) as E. pose proof (Z.mod_pos_bound a b Hb).
  pose proof (Z.div_le_upper_bound a b a Hb ltac:(nia)).
  destruct (Z.eqb_spec (a mod b) 0) as [E0|E0]; cbn [negb].
  - apply Z.div_unique with (r := b - 1); lia.
  - assert (Hd : a / b + 1 = (a + b - 1) / b)
      by (apply Z.div_unique with (r := a mod b - 1); lia).
    rewrite wrap_small; [exact Hd|].
    split; [pose proof (Z.div_pos a b ltac:(lia) Hb); lia|].
    destruct (Z.eq_dec b 1); [subst; rewrite Z.mod_1_r in E0; lia|].
    assert (a / b <= a / 2) by (apply Z.div_le_compat_l; lia). dlia.
Qed.

Lemma math_pow_loop_spec base e acc :
  0 <= base < 2 ^ 64 -> 0 < acc < 2 ^ 64 -> 0 < base ->
  math_pow_loop base e acc =
  if acc * base ^ Z.of_nat e <? 2 ^ 64 then Some (acc * base ^ Z.of_nat e) else None.
Proof.
  intros Hb Ha Hp. revert acc Ha. induction e as [|e IH]; intros acc Ha.
  - cbn [math_pow_loop]. rewrite Z.pow_0_r, Z.mul_1_r.
    destruct (Z.ltb_spec acc (2 ^ 64)); [reflexivity|lia].
  - cbn [math_pow_loop]. rewrite Nat2Z.inj_succ, Z.pow_succ_r by lia.
    rewrite Z.mul_assoc. unfold check_mul_w, fits.
    destruct (Z.leb_spec 0 (acc * base)); [|nia].
    destruct (Z.ltb_spec (acc * base) (2 ^ 64)); cbn [andb].
    + apply IH. nia.
    + assert (1 <= base ^ Z.of_nat e).
      { pose proof (Z.pow_pos_nonneg base (Z.of_nat e)). lia. }
      destruct (Z.ltb_spec (acc * base * base ^ Z.of_nat e) (2 ^ 64)); [nia|reflexivity].
Qed.

Lemma mask_for_n_bits_ones n : 0 < n <= 64 -> mask_for_n_bits n = Ok (Z.ones n).
Proof.
  intros Hn. unfold mask_for_n_bits. destruct (Z.eqb_spec n 64) as [->|]; [reflexivity|].
  destruct (Z.ltb_spec 0 n), (Z.ltb_spec n 64); try lia. cbn [andb]. f_equal.
  change UINT64_MAX with (Z.ones 64). rewrite Z.shiftr_div_pow2 by lia.
  replace n with (64 - (64 - n)) at 2 by lia. apply Z.ones_div_pow2. lia.
Qed.

Lemma set_bits_for_mask_testbit w v mask value i : 0 <= i < w ->
  Z.testbit (set_bits_for_mask w v mask value) i =
  if Z.testbit mask i then value else Z.testbit v i.
Proof.
  intros Hi. unfold set_bits_for_mask, rm_mask. destruct value.
  - rewrite wrap_testbit, Z.lor_spec by lia. destruct (Z.ltb_spec i w); [|lia]. cbn [andb].
    destruct (Z.testbit mask i); [apply orb_true_r|apply orb_false_r].
  - rewrite Z.land_spec, bnot_testbit by lia. destruct (Z.ltb_spec i w); [|lia]. cbn [andb].
    destruct (Z.testbit mask i); [apply andb_false_r|apply andb_true_r].
Qed.

Lemma set_bits_for_mask_bound w v mask value : 0 <= w -> is_u w v ->
  is_u w (set_bits_for_mask w v mask value).
Proof.
  intros Hw Hv. unfold set_bits_for_mask, rm_mask. destruct value; auto with aph.
Qed.
