(* ===== verification/Range.v ===== *)
(** * Address ranges: lib/adt/range.[ch] and [index_range_in_bounds] of lib/util.c

    A [struct range] is a front and a size.  The operations are specified by
    the set of locations a range stands for. *)

From S2P Require Import Prelude Arith.

Record range := Range { front : Z; size : Z }.

#[global] Instance range_eq_dec : EqDecision range.
Proof. solve_decision. Defined.

Definition RANGE_EMPTY : range := Range 0 0.
Definition RANGE_MAX : range := Range 0 UINT64_MAX.

Definition range_create_and_verify (base size : Z) : option range :=
  match check_add base size with
  | None => None
  | Some _ => Some (Range base size)
  end.

Definition range_create_upto (size : Z) : range := Range 0 size.

Definition range_create_end (front end_ : Z) : outcome range :=
  _ ← c_assert (front <=? end_);
  Ok (Range front (u64 (end_ - front))).

Definition range_multiply (r : range) (mult : Z) : option range :=
  f ← check_mul (front r) mult;
  s ← check_mul (size r) mult;
  Some (Range f s).

Definition range_divide (r : range) (div : Z) : outcome range :=
  _ ← c_assert (negb (div =? 0));
  Ok (Range (front r / div) (size r / div)).

Definition range_divide_out (r : range) (div : Z) : outcome range :=
  _ ← c_assert (negb (div =? 0));
  Ok (Range (front r / div) (div_round_up (size r) div)).

Definition range_has_index (r : range) (index : Z) : bool :=
  index_in_bounds index (size r).

Definition range_has_loc (r : range) (loc : Z) : bool :=
  (front r <=? loc) && (u64 (loc - front r) <? size r).

Definition range_has_end (r : range) (end_ : Z) : bool :=
  (front r <? end_) && (u64 (end_ - front r) <=? size r).

Definition range_from_index (r : range) (index : Z) : outcome range :=
  _ ← c_assert (range_has_index r index);
  Ok (Range (u64 (front r + index)) (u64 (size r - index))).

Definition range_from_loc (r : range) (loc : Z) : outcome range :=
  _ ← c_assert (range_has_loc r loc);
  Ok (Range loc (u64 (size r - u64 (loc - front r)))).

Definition range_align_in (r : range) (boundary : Z) : outcome (option range) :=
  up ← align_up (front r) boundary;
  match up with
  | None => Ok None
  | Some front' =>
      if size r <=? u64 (front' - front r) then Ok None
      else size' ← align_down (size r) boundary;
           if size' =? 0 then Ok None else Ok (Some (Range front' size'))
  end.

Definition range_align_out (r : range) (boundary : Z) : outcome (option range) :=
  up ← align_up (size r) boundary;
  match up with
  | None => Ok None
  | Some size' => front' ← align_down (front r) boundary;
                  Ok (Some (Range front' size'))
  end.

Definition range_round_up (r : range) (mult : Z) : outcome (option range) :=
  f ← round_up (front r) mult;
  match f with
  | None => Ok None
  | Some f => s ← round_up (size r) mult;
              match s with
              | None => Ok None
              | Some s => Ok (Some (Range f s))
              end
  end.

Definition range_round_up_subrange (r : range) (mult : Z) : outcome (option range) :=
  f ← round_up (front r) mult;
  match f with
  | None => Ok None
  | Some f =>
      let diff := u64 (f - front r) in
      if size r <=? diff then Ok None
      else Ok (Some (Range f (u64 (size r - diff))))
  end.

Definition range_get_end (r : range) : option Z := check_add (front r) (size r).

Definition range_overflows (r : range) : bool :=
  match check_add (front r) (size r) with Some _ => false | None => true end.

Definition range_is_loc_above (r : range) (loc : Z) : bool :=
  (front r <=? loc) && (size r <=? u64 (loc - front r)).

Definition range_is_loc_below (r : range) (loc : Z) : bool := loc <? front r.

Definition range_above (r above : range) : bool := range_is_loc_above r (front above).

Definition range_below (r below : range) : bool := range_is_loc_below r (front below).

Definition range_empty (r : range) : bool := size r =? 0.

Definition range_has_align (r : range) (align : Z) : outcome bool :=
  f ← has_align (front r) align;
  if f : bool then has_align (size r) align else Ok false.

Definition range_get_end_assert (r : range) : outcome Z := assert_some (range_get_end r).

Definition subrange_from_index (r : range) (index : Z) : outcome range :=
  _ ← c_assert (range_has_index r index);
  Ok (Range index (u64 (size r - index))).

Definition range_has_index_range (r other : range) : bool :=
  if negb (range_has_index r (front other)) then false
  else size other <=? u64 (size r - front other).

Definition subrange_to_full (r index : range) : outcome range :=
  _ ← c_assert (range_has_index_range r index);
  Ok (Range (u64 (front r + front index)) (size index)).

Definition range_loc_for_index (r : range) (index : Z) : outcome Z :=
  _ ← c_assert (range_has_index r index);
  Ok (u64 (front r + index)).

Definition range_index_for_loc (r : range) (loc : Z) : outcome Z :=
  _ ← c_assert (range_has_loc r loc);
  Ok (u64 (loc - front r)).

Definition range_has (r other : range) : outcome bool :=
  if negb (range_has_loc r (front other)) then Ok false
  else index ← range_index_for_loc r (front other);
       if negb (range_has_index r index) then Ok false
       else Ok (size other <=? u64 (size r - index)).

Definition range_overlaps (r other : range) : bool :=
  range_has_loc r (front other) || range_has_loc other (front r).

(** lib/util.c *)
Definition index_range_in_bounds (r : range) (bounds : Z) : bool :=
  match range_get_end r with
  | None => false
  | Some end_ => end_ <=? bounds
  end.

(** ** Locations of a range *)

(** The fields are 64-bit, and the range does not run past the last address. *)
Definition range_wf (r : range) : Prop :=
  0 <= front r /\ 0 <= size r /\ front r + size r < 2 ^ 64.

Definition in_range (r : range) (loc : Z) : Prop :=
  front r <= loc < front r + size r.

#[global] Instance range_wf_dec r : Decision (range_wf r).
Proof. unfold range_wf. apply _. Defined.
#[global] Instance in_range_dec r loc : Decision (in_range r loc).
Proof. unfold in_range. apply _. Defined.

(** Unfold range operations on well-formed ranges to linear arithmetic: a
    subtraction the code guards does not wrap. *)
Ltac range_unfold :=
  unfold range_has, range_index_for_loc, range_loc_for_index, range_overlaps,
    range_above, range_below, range_is_loc_above, range_is_loc_below,
    range_has_index_range, subrange_to_full, range_from_loc, range_from_index,
    range_has_loc, range_has_end, range_has_index, index_in_bounds, c_assert,
    in_range, range_wf, is_u in *.

Lemma u64_sub_small a b : 0 <= b <= a -> a < 2 ^ 64 -> u64 (a - b) = a - b.
Proof. intros. apply wrap_small. unfold is_u. lia. Qed.

Lemma range_has_loc_spec r loc : range_wf r -> is_u64 loc ->
  range_has_loc r loc = true <-> in_range r loc.
Proof.
  intros Hr Hl. range_unfold. destruct (Z.leb_spec (front r) loc); cbn [andb].
  - rewrite u64_sub_small by lia. rewrite Z.ltb_lt. lia.
  - split; [discriminate|lia].
Qed.

Lemma range_has_spec r o : range_wf r -> range_wf o ->
  range_has r o = Ok true <->
  in_range r (front o) /\ front o + size o <= front r + size r.
Proof.
  intros Hr Ho. unfold range_has, range_index_for_loc.
  pose proof (range_has_loc_spec r (front o) Hr) as S.
  destruct (range_has_loc r (front o)); cbn [negb c_assert mbind outcome_bind].
  - assert (in_range r (front o)) as I by (apply S; [range_unfold; lia|reflexivity]).
    range_unfold. rewrite (u64_sub_small (front o)) by lia.
    destruct (Z.ltb_spec (front o - front r) (size r)); [cbn [negb]|lia].
    rewrite u64_sub_small by lia.
    destruct (Z.leb_spec (size o) (size r - (front o - front r)));
      split; intros; try discriminate; try lia; reflexivity.
  - split; [discriminate|]. intros [I _].
    assert (false = true) by (apply S; [range_unfold; lia|exact I]). discriminate.
Qed.

(** For a non-empty [other], [range_has] holds exactly when every location of
    [other] is one of [range], and it never fires the assertion inside
    [range_index_for_loc]. *)
Theorem range_has_subset r o : range_wf r -> range_wf o -> 0 < size o ->
  exists b, range_has r o = Ok b /\
    (b = true <-> forall loc, in_range o loc -> in_range r loc).
Proof.
  intros Hr Ho Hs. pose proof (range_has_spec r o Hr Ho) as S.
  assert (exists b, range_has r o = Ok b) as [b E].
  { unfold range_has, range_index_for_loc.
    destruct (range_has_loc r (front o)); cbn [negb c_assert mbind outcome_bind]; [|eauto].
    destruct (range_has_index _ _); cbn [negb]; eauto. }
  exists b. split; [exact E|]. rewrite E in S.
  transitivity (Ok b = Ok true); [split; congruence|]. rewrite S.
  range_unfold. split.
  - intros [? ?] loc ?. lia.
  - intros H. pose proof (H (front o)). pose proof (H (front o + size o - 1)). lia.
Qed.

Lemma range_has_subset_witness :
  exists b, range_has (Range 0 10) (Range 2 3) = Ok b /\
    (b = true <-> forall loc, in_range (Range 2 3) loc -> in_range (Range 0 10) loc).
Proof.
  apply (range_has_subset (Range 0 10) (Range 2 3)); cbn; unfold range_wf; cbn; lia.
Defined.

Lemma range_overlaps_inter r o : range_wf r -> range_wf o -> 0 < size r -> 0 < size o ->
  range_overlaps r o = true <-> exists loc, in_range r loc /\ in_range o loc.
Proof.
  intros Hr Ho Hsr Hso. unfold range_overlaps. rewrite orb_true_iff.
  rewrite !range_has_loc_spec by (auto || (range_unfold; lia)).
  range_unfold. split.
  - intros [H|H]; [exists (front o)|exists (front r)]; lia.
  - intros [loc H]. destruct (Z.le_gt_cases (front r) (front o)); [left|right]; lia.
Qed.

(** Two non-empty ranges are in exactly one of three positions: they share a
    location and [range_overlaps] holds; or all of [o] lies at or past the end
    of [r] and [range_above] holds; or [range_below] holds and all of [o] lies
    before [r].  This is the case split of the address-space comparators. *)
Theorem range_position r o : range_wf r -> range_wf o -> 0 < size r -> 0 < size o ->
  (range_overlaps r o = true <-> exists loc, in_range r loc /\ in_range o loc) /\
  (range_overlaps r o = false ->
     (range_above r o = true /\ range_below r o = false /\
        (forall l l', in_range r l -> in_range o l' -> l < l')) \/
     (range_above r o = false /\ range_below r o = true /\
        (forall l l', in_range r l -> in_range o l' -> l' < l))).
Proof.
  intros Hr Ho Hsr Hso. split; [apply range_overlaps_inter; auto|].
  intros E.
  assert (N : ~ (exists loc, in_range r loc /\ in_range o loc)).
  { rewrite <- range_overlaps_inter by auto. rewrite E. discriminate. }
  assert (D : front r + size r <= front o \/ front o + size o <= front r).
  { destruct (Z.le_gt_cases (front r + size r) (front o)); [auto|].
    destruct (Z.le_gt_cases (front o + size o) (front r)); [auto|].
    destruct N. exists (Z.max (front r) (front o)). range_unfold. lia. }
  clear N E. range_unfold. destruct D as [D|D]; [left|right].
  - rewrite u64_sub_small by lia. rewrite andb_true_iff, !Z.leb_le, Z.ltb_ge.
    repeat split; intros; lia.
  - rewrite Z.ltb_lt. destruct (Z.leb_spec (front r) (front o)); [lia|].
    repeat split; intros; lia.
Qed.

Lemma range_position_witness :
  range_overlaps (Range 0 4) (Range 4 4) = false /\
  (range_overlaps (Range 0 4) (Range 3 4) = true <->
     exists loc, in_range (Range 0 4) loc /\ in_range (Range 3 4) loc).
Proof.
  split; [reflexivity|].
  apply (range_position (Range 0 4) (Range 3 4)); unfold range_wf; cbn; lia.
Defined.

(** The index and location views of a well-formed range are inverse to each
    other on its indices and locations, and no assertion fires there. *)
Theorem range_index_loc_roundtrip r i : range_wf r -> range_has_index r i = true -> 0 <= i ->
  (l ← range_loc_for_index r i; range_index_for_loc r l) = Ok i /\
  in_range r (front r + i) /\ range_loc_for_index r i = Ok (front r + i).
Proof.
  intros Hr Hi H0. unfold range_loc_for_index. rewrite Hi.
  cbn [c_assert mbind outcome_bind].
  range_unfold. rewrite Z.ltb_lt in Hi.
  rewrite (wrap_small 64 (front r + i)) by (unfold is_u; lia).
  split; [|split; [lia|reflexivity]].
  destruct (Z.leb_spec (front r) (front r + i)); [|lia].
  replace (front r + i - front r) with i by lia.
  rewrite wrap_small by (unfold is_u; lia). cbn [andb].
  apply Z.ltb_lt in Hi. rewrite Hi. reflexivity.
Qed.

Lemma range_index_loc_roundtrip_witness :
  (l ← range_loc_for_index (Range 100 8) 7; range_index_for_loc (Range 100 8) l) = Ok 7.
Proof.
  apply (range_index_loc_roundtrip (Range 100 8) 7); [|reflexivity|lia].
  unfold range_wf. cbn. lia.
Defined.

Lemma range_get_end_wf r : range_wf r -> range_get_end r = Some (front r + size r).
Proof. intros [? [? ?]]. apply fits_ok. unfold is_u. lia. Qed.

Lemma range_from_loc_spec r loc : range_wf r -> in_range r loc ->
  range_from_loc r loc = Ok (Range loc (front r + size r - loc)).
Proof.
  intros Hr Hl. unfold range_from_loc.
  assert (range_has_loc r loc = true) as ->
    by (apply range_has_loc_spec; auto; range_unfold; lia).
  cbn. range_unfold. do 2 f_equal. rewrite (u64_sub_small loc) by lia.
  rewrite u64_sub_small by lia. lia.
Qed.

(** [range_align_in] rounds the size of the range without subtracting what the
    front moved up by, so the result can leave the range it was asked to
    shrink. *)
Lemma range_align_in_escapes :
  range_align_in (Range 1 8192) 4096 = Ok (Some (Range 4096 8192)) /\
  ~ in_range (Range 1 8192) (4096 + 8192 - 1).
Proof. split; [reflexivity|]. unfold in_range. cbn. lia. Qed.

(** [range_align_out] rounds front and size independently, so the result can
    miss the end of the range it was asked to cover. *)
Lemma range_align_out_misses :
  range_align_out (Range 1 4096) 4096 = Ok (Some (Range 0 4096)) /\
  in_range (Range 1 4096) 4096 /\ ~ in_range (Range 0 4096) 4096.
Proof. split; [reflexivity|]. unfold in_range. cbn. lia. Qed.
