(* ===== verification/KStdlib.v ===== *)
(** * The kernel's memory and string routines: kernel/src/sys/stdlib.c

    [memcpy], [memmove], [memset], [bzero], [memcmp] and the string scans, for
    each architecture the kernel builds for, on the memory of [Mem].  Regions
    do not wrap around the end of the address space.  The [ldp]/[stp] pairs of
    AArch64 load both words before either is stored; the [rep] instructions of
    x86 are their byte loops, in the direction the direction flag selects. *)

From S2P Require Import Prelude Mem Arith.

Inductive arch := x86_64 | aarch64 | riscv64 | loongarch64.
#[global] Instance arch_eq_dec : EqDecision arch.
Proof. solve_decision. Defined.

Definition is_x86 (a : arch) : bool := bool_decide (a = x86_64).
Definition is_aarch64 (a : arch) : bool := bool_decide (a = aarch64).
Definition is_riscv64 (a : arch) : bool := bool_decide (a = riscv64).

(** ** Copying *)

(** One assignment between pointers to a type of [sz] bytes. *)
Definition move (sz : nat) (m : mem) (dst src : Z) : mem :=
  store sz m dst (load sz m src).
(** [ldp] from [src], then [stp] to [dst]. *)
Definition move_pair (m : mem) (dst src : Z) : mem :=
  let left_ch := load 8 m src in
  let right_ch := load 8 m (src + 8) in
  store 8 (store 8 m dst left_ch) (dst + 8) right_ch.

(** [do { move; dst += sz; src += sz; n -= sz; } while (n >= sz)] behind the
    test [n >= sz]: memory, pointers and count when the loop ends. *)
Fixpoint fw_loop (fuel : nat) (sz : Z) (mv : mem -> Z -> Z -> mem)
    (m : mem) (dst src n : Z) : outcome (mem * Z * Z * Z) :=
  if n <? sz then Ok (m, dst, src, n)
  else match fuel with
       | O => Diverge
       | S fuel => fw_loop fuel sz mv (mv m dst src) (dst + sz) (src + sz) (n - sz)
       end.

Definition memcpy_type (sz : nat) (m : mem) (dst src n : Z) :=
  fw_loop (Z.to_nat n) (Z.of_nat sz) (move sz) m dst src n.
Definition _memcpy_uint8_t := memcpy_type 1.
Definition _memcpy_uint16_t := memcpy_type 2.
Definition _memcpy_uint32_t := memcpy_type 4.

Definition _memcpy_uint64_t (a : arch) (m : mem) (dst src n : Z)
    : outcome (mem * Z * Z * Z) :=
  if n <? 8 then Ok (m, dst, src, n)
  else if is_aarch64 a && (16 <=? n) then
    '(m, dst, src, n) ← fw_loop (Z.to_nat n) 16 move_pair m dst src n;
    if n <? 8 then Ok (m, dst, src, n) else memcpy_type 8 m dst src n
  else memcpy_type 8 m dst src n.

(** [rep movsb] with the direction flag clear ([d = 1]) or set ([d = -1]). *)
Fixpoint rep_movsb (d : Z) (n : nat) (m : mem) (dst src : Z) : mem :=
  match n with
  | O => m
  | S n => rep_movsb d n (upd m dst (m src)) (dst + d) (src + d)
  end.
Definition REP_MOVSB_MIN : Z := 16.

(** The copies by 4, 2 and 1 bytes that follow each other in [memcpy] and
    [memmove]. *)
Definition memcpy_421 (m : mem) (dst src n : Z) : outcome mem :=
  '(m, dst, src, n) ← _memcpy_uint32_t m dst src n;
  '(m, dst, src, n) ← _memcpy_uint16_t m dst src n;
  '(m, dst, src, n) ← _memcpy_uint8_t m dst src n;
  Ok m.

(** The memory after the call and the pointer it returns. *)
Definition memcpy (a : arch) (m : mem) (dst src n : Z) : outcome (mem * Z) :=
  let ret := dst in
  if is_x86 a && (REP_MOVSB_MIN <=? n) then
    Ok (rep_movsb 1 (Z.to_nat n) m dst src, ret)
  else if 8 <=? n then
    '(m, dst, src, n) ← _memcpy_uint64_t a m dst src n;
    m ← memcpy_421 m dst src n;
    Ok (m, ret)
  else if 4 <=? n then
    m ← memcpy_421 m dst src n;
    Ok (m, ret)
  else if 2 <=? n then
    '(m, dst, src, n) ← _memcpy_uint16_t m dst src n;
    if n =? 0 then Ok (m, dst)
    else '(m, dst, src, n) ← _memcpy_uint8_t m dst src n;
         Ok (m, ret)
  else
    '(m, dst, src, n) ← _memcpy_uint8_t m dst src n;
    Ok (m, ret).

(** [do { move at off; if (off < sz) return off; off -= sz; } while (true)] *)
Fixpoint bw_loop (fuel : nat) (sz : Z) (mv : mem -> Z -> Z -> mem)
    (m : mem) (dst src off : Z) : outcome (mem * Z) :=
  match fuel with
  | O => Diverge
  | S fuel =>
      let m := mv m (dst + off) (src + off) in
      if off <? sz then Ok (m, off)
      else bw_loop fuel sz mv m dst src (off - sz)
  end.

Definition memcpy_bw_type (sz : nat) (m : mem) (dst src n : Z) : outcome (mem * Z) :=
  if n <? Z.of_nat sz then Ok (m, n)
  else bw_loop (S (Z.to_nat n)) (Z.of_nat sz) (move sz) m dst src (n - Z.of_nat sz).
Definition _memcpy_bw_uint8_t := memcpy_bw_type 1.
Definition _memcpy_bw_uint16_t := memcpy_bw_type 2.
Definition _memcpy_bw_uint32_t := memcpy_bw_type 4.

Definition _memcpy_bw_uint64_t (a : arch) (m : mem) (dst src n : Z) : outcome (mem * Z) :=
  if n <? 8 then Ok (m, n)
  else
    let off := n - 8 in
    if is_aarch64 a && (16 <=? n) then
      '(m, off) ← bw_loop (S (Z.to_nat n)) 16 move_pair m dst src (off - 8);
      if off <? 8 then Ok (m, off)
      else bw_loop (S (Z.to_nat n)) 8 (move 8) m dst src off
    else bw_loop (S (Z.to_nat n)) 8 (move 8) m dst src off.

Definition memmove (a : arch) (m : mem) (dst src n : Z) : outcome (mem * Z) :=
  let ret := dst in
  if dst <? src then
    if is_x86 a && (REP_MOVSB_MIN <=? n) then
      Ok (rep_movsb 1 (Z.to_nat n) m dst src, ret)
    else
      let diff := distance dst src in
      if 8 <=? diff then
        '(m, _) ← memcpy a m dst src n; Ok (m, ret)
      else if 4 <=? diff then
        m ← memcpy_421 m dst src n; Ok (m, ret)
      else if 2 <=? diff then
        '(m, dst, src, n) ← _memcpy_uint16_t m dst src n;
        '(m, dst, src, n) ← _memcpy_uint8_t m dst src n;
        Ok (m, ret)
      else if 1 <=? diff then
        '(m, dst, src, n) ← _memcpy_uint8_t m dst src n;
        Ok (m, ret)
      else Ok (m, ret)
  else
    if is_x86 a && (REP_MOVSB_MIN <=? n) then
      Ok (rep_movsb (-1) (Z.to_nat n) m (dst + (n - 1)) (src + (n - 1)), ret)
    else
      let diff := distance src dst in
      if 8 <=? diff then
        '(m, n) ← _memcpy_bw_uint64_t a m dst src n;
        '(m, n) ← _memcpy_bw_uint32_t m dst src n;
        '(m, n) ← _memcpy_bw_uint16_t m dst src n;
        '(m, n) ← _memcpy_bw_uint8_t m dst src n;
        Ok (m, ret)
      else if 4 <=? diff then
        '(m, n) ← _memcpy_bw_uint32_t m dst src n;
        '(m, n) ← _memcpy_bw_uint16_t m dst src n;
        '(m, n) ← _memcpy_bw_uint8_t m dst src n;
        Ok (m, ret)
      else if 2 <=? diff then
        '(m, n) ← _memcpy_bw_uint16_t m dst src n;
        '(m, n) ← _memcpy_bw_uint8_t m dst src n;
        Ok (m, ret)
      else if 1 <=? diff then
        '(m, n) ← _memcpy_bw_uint8_t m dst src n;
        Ok (m, ret)
      else Ok (m, ret).

(** ** Filling *)

(** [while (n >= sz) { store; dst += sz; n -= sz; }] *)
Fixpoint fill_loop (fuel : nat) (sz : nat) (v : Z) (m : mem) (dst n : Z)
    : outcome (mem * Z * Z) :=
  if n <? Z.of_nat sz then Ok (m, dst, n)
  else match fuel with
       | O => Diverge
       | S fuel => fill_loop fuel sz v (store sz m dst v) (dst + Z.of_nat sz) (n - Z.of_nat sz)
       end.
Definition fill_type (sz : nat) (v : Z) (m : mem) (dst n : Z) :=
  fill_loop (Z.to_nat n) sz v m dst n.
(** [stp v, v] in a loop: 16 bytes a turn. *)
Fixpoint fill_pair_loop (fuel : nat) (v : Z) (m : mem) (dst n : Z)
    : outcome (mem * Z * Z) :=
  if n <? 16 then Ok (m, dst, n)
  else match fuel with
       | O => Diverge
       | S fuel => fill_pair_loop fuel v (store 8 (store 8 m dst v) (dst + 8) v)
                     (dst + 16) (n - 16)
       end.
(** [rep stosb], and the byte loop at the end of [memset]. *)
Fixpoint rep_stosb (v : Z) (n : nat) (m : mem) (dst : Z) : mem :=
  match n with
  | O => m
  | S n => rep_stosb v n (upd m dst (u8 v)) (dst + 1)
  end.
Definition REP_MIN : Z := 48.

Definition value64_of (val : Z) : Z :=
  let v := u64 val in
  Z.lor (u64 (Z.shiftl v 56)) (Z.lor (u64 (Z.shiftl v 48)) (Z.lor (u64 (Z.shiftl v 40))
  (Z.lor (u64 (Z.shiftl v 32)) (Z.lor (u64 (Z.shiftl v 24)) (Z.lor (u64 (Z.shiftl v 16))
  (Z.lor (u64 (Z.shiftl v 8)) v)))))).

Definition memset (a : arch) (m : mem) (dst val n : Z) : outcome (mem * Z) :=
  let ret := dst in
  if is_x86 a then
    if REP_MIN <=? n then Ok (rep_stosb val (Z.to_nat n) m dst, ret)
    else Ok (rep_stosb val (Z.to_nat n) m dst, ret)
  else
    '(m, dst, n) ←
      (if 8 <=? n then
         let value64 := value64_of val in
         '(m, dst, n) ← (if is_aarch64 a then fill_pair_loop (Z.to_nat n) value64 m dst n
                         else Ok (m, dst, n));
         '(m, dst, n) ← fill_type 8 value64 m dst n;
         '(m, dst, n) ← fill_type 4 value64 m dst n;
         fill_type 2 value64 m dst n
       else Ok (m, dst, n));
    Ok (rep_stosb val (Z.to_nat n) m dst, ret).

(** [cbo_size] is the cache block size the CPU reports, read on RISC-V only;
    [cbo.zero] clears the block that starts at the aligned [dst]. *)
Fixpoint cbo_loop (fuel : nat) (cbo_size : Z) (m : mem) (dst n : Z)
    : outcome (mem * Z * Z) :=
  if n <? cbo_size then Ok (m, dst, n)
  else match fuel with
       | O => Diverge
       | S fuel => cbo_loop fuel cbo_size (rep_stosb 0 (Z.to_nat cbo_size) m dst)
                     (dst + cbo_size) (n - cbo_size)
       end.

Definition bzero_tail (m : mem) (dst n : Z) : outcome mem :=
  '(m, dst, n) ← fill_type 8 0 m dst n;
  if n =? 0 then Ok m else
  '(m, dst, n) ← fill_type 4 0 m dst n;
  if n =? 0 then Ok m else
  '(m, dst, n) ← fill_type 2 0 m dst n;
  if n =? 0 then Ok m else
  '(m, dst, n) ← fill_type 1 0 m dst n;
  Ok m.

Definition bzero (a : arch) (cbo_size : Z) (m : mem) (dst n : Z) : outcome mem :=
  if is_x86 a then
    if REP_MIN <=? n then Ok (rep_stosb 0 (Z.to_nat n) m dst) else bzero_tail m dst n
  else if is_aarch64 a then
    '(m, dst, n) ← fill_pair_loop (Z.to_nat n) 0 m dst n;
    if n =? 0 then Ok m else bzero_tail m dst n
  else if is_riscv64 a then
    '(m, dst, n) ←
      (if negb (cbo_size =? 0) then
         al ← has_align dst cbo_size;
         if al : bool then cbo_loop (Z.to_nat n) cbo_size m dst n else Ok (m, dst, n)
       else Ok (m, dst, n));
    bzero_tail m dst n
  else bzero_tail m dst n.

(** [memset_ones] of lib/string.c. *)
Definition ONES_REP_MIN : Z := 128.
Definition memset_ones (a : arch) (m : mem) (dst n : Z) : outcome (mem * Z) :=
  let ret := dst in
  if is_x86 a && (ONES_REP_MIN <=? n) then Ok (rep_stosb 255 (Z.to_nat n) m dst, ret)
  else
    '(m, dst, n) ← (if is_aarch64 a then fill_pair_loop (Z.to_nat n) UINT64_MAX m dst n
                    else Ok (m, dst, n));
    '(m, dst, n) ← fill_type 8 UINT64_MAX m dst n;
    if n =? 0 then Ok (m, ret) else
    '(m, dst, n) ← fill_type 4 UINT32_MAX m dst n;
    if n =? 0 then Ok (m, ret) else
    '(m, dst, n) ← fill_type 2 (2 ^ 16 - 1) m dst n;
    '(m, dst, n) ← fill_type 1 UINT8_MAX m dst n;
    Ok (m, ret).

(** ** Comparing *)

(** [_memcmp_T]: the result and the pointers and length left in the out
    parameters.  A mismatch returns the truncated difference and leaves the
    out parameters, hence the caller's variables, as they were; so the loop
    carries the values at entry. *)
Fixpoint cmp_loop (fuel : nat) (sz : nat) (m : mem) (l0 r0 n0 left right len : Z)
    : outcome (Z * Z * Z * Z) :=
  if len <? Z.of_nat sz then Ok (0, left, right, len)
  else match fuel with
       | O => Diverge
       | S fuel =>
           let left_ch := load sz m left in
           let right_ch := load sz m right in
           if negb (left_ch =? right_ch) then Ok (i32 (left_ch - right_ch), l0, r0, n0)
           else cmp_loop fuel sz m l0 r0 n0 (left + Z.of_nat sz) (right + Z.of_nat sz)
                  (len - Z.of_nat sz)
       end.
Definition memcmp_type (sz : nat) (m : mem) (left right len : Z) :=
  cmp_loop (Z.to_nat len) sz m left right len left right len.

(** The [ldp] loop of AArch64: [inl] is an early return. *)
Fixpoint cmp_pair_loop (fuel : nat) (m : mem) (left right len : Z)
    : outcome (Z + Z * Z * Z) :=
  if len <? 16 then Ok (inr (left, right, len))
  else match fuel with
       | O => Diverge
       | S fuel =>
           let left_ch := load 8 m left in
           let left_ch_2 := load 8 m (left + 8) in
           let right_ch := load 8 m right in
           let right_ch_2 := load 8 m (right + 8) in
           if negb (left_ch =? right_ch) then Ok (inl (i32 (left_ch - right_ch)))
           else if negb (left_ch_2 =? right_ch_2) then Ok (inl (i32 (left_ch_2 - right_ch_2)))
           else cmp_pair_loop fuel m (left + 16) (right + 16) (len - 16)
       end.

Definition _memcmp_uint64_t (a : arch) (m : mem) (left right len : Z)
    : outcome (Z * Z * Z * Z) :=
  if is_aarch64 a && (16 <=? len) then
    r ← cmp_pair_loop (Z.to_nat len) m left right len;
    match r with
    | inl res => Ok (res, left, right, len)
    | inr (left', right', len') =>
        if len' <? 8 then Ok (0, left', right', len')
        else cmp_loop (Z.to_nat len) 8 m left right len left' right' len'
    end
  else memcmp_type 8 m left right len.

Definition memcmp (a : arch) (m : mem) (left right len : Z) : outcome Z :=
  '(res, left, right, len) ← _memcmp_uint64_t a m left right len;
  if negb (res =? 0) then Ok res else
  '(res, left, right, len) ← memcmp_type 4 m left right len;
  if negb (res =? 0) then Ok res else
  '(res, left, right, len) ← memcmp_type 2 m left right len;
  if negb (res =? 0) then Ok res else
  '(res, left, right, len) ← memcmp_type 1 m left right len;
  Ok res.

(** ** String scans

    [char] is signed on x86-64 and LoongArch, unsigned on AArch64 and RISC-V.
    A scan runs to a terminator, so its loop takes fuel. *)

Definition as_char (a : arch) (b : Z) : Z :=
  match a with x86_64 | loongarch64 => i8 b | aarch64 | riscv64 => b end.

Fixpoint strlen_loop (fuel : nat) (m : mem) (iter result : Z) : outcome Z :=
  if m iter =? 0 then Ok result
  else match fuel with
       | O => Diverge
       | S fuel => strlen_loop fuel m (iter + 1) (result + 1)
       end.
Definition strlen (fuel : nat) (m : mem) (str : Z) : outcome Z := strlen_loop fuel m str 0.

Fixpoint strnlen_loop (m : mem) (limit : nat) (iter result : Z) : Z :=
  match limit with
  | O => result
  | S limit => if m iter =? 0 then result else strnlen_loop m limit (iter + 1) (result + 1)
  end.
Definition strnlen (m : mem) (str limit : Z) : Z := strnlen_loop m (Z.to_nat limit) str 0.

Fixpoint strcmp_loop (fuel : nat) (a : arch) (m : mem) (iter jter : Z) : outcome Z :=
  if negb (m iter =? 0) && negb (m jter =? 0) then
    match fuel with
    | O => Diverge
    | S fuel => strcmp_loop fuel a m (iter + 1) (jter + 1)
    end
  else Ok (as_char a (m iter) - as_char a (m jter)).
Definition strcmp (fuel : nat) (a : arch) (m : mem) (str1 str2 : Z) : outcome Z :=
  strcmp_loop fuel a m str1 str2.

Fixpoint strncmp_loop (a : arch) (m : mem) (length : nat) (iter jter : Z) : Z :=
  match length with
  | O => 0
  | S length =>
      if negb (m iter =? m jter) then as_char a (m iter) - as_char a (m jter)
      else strncmp_loop a m length (iter + 1) (jter + 1)
  end.
Definition strncmp (a : arch) (m : mem) (str1 str2 length : Z) : Z :=
  strncmp_loop a m (Z.to_nat length) str1 str2.

(** [NULL] is [None]. *)
Fixpoint strchr (fuel : nat) (a : arch) (m : mem) (str ch : Z) : outcome (option Z) :=
  if m str =? 0 then Ok None
  else if as_char a (m str) =? ch then Ok (Some str)
  else match fuel with
       | O => Diverge
       | S fuel => strchr fuel a m (str + 1) ch
       end.

Fixpoint strrchr_loop (fuel : nat) (a : arch) (m : mem) (iter ch : Z) (result : option Z)
    : outcome (option Z) :=
  if m iter =? 0 then Ok result
  else match fuel with
       | O => Diverge
       | S fuel => strrchr_loop fuel a m (iter + 1) ch
                     (if as_char a (m iter) =? ch then Some iter else result)
       end.
Definition strrchr (fuel : nat) (a : arch) (m : mem) (str ch : Z) : outcome (option Z) :=
  strrchr_loop fuel a m str ch None.

Fixpoint memchr_loop (m : mem) (count : nat) (iter ch : Z) : option Z :=
  match count with
  | O => None
  | S count => if m iter =? ch then Some iter else memchr_loop m count (iter + 1) ch
  end.
Definition memchr (m : mem) (ptr ch count : Z) : option Z :=
  memchr_loop m (Z.to_nat count) ptr ch.

(** ** Correctness of the copies *)

(** What the loops need of one assignment. *)
Definition moves (sz : Z) (mv : mem -> Z -> Z -> mem) : Prop :=
  forall m dst src, mem_ok m -> copied m (mv m dst src) dst src sz.

Lemma moves_type sz : moves (Z.of_nat sz) (move sz).
Proof. intros m dst src Hm. apply store_load_copied. exact Hm. Qed.

Lemma moves_pair : moves 16 move_pair.
Proof.
  intros m dst src Hm x. unfold move_pair. rewrite !store_spec.
  change (Z.of_nat 8) with 8. wcase; try lia; try reflexivity.
  - rewrite load_byte by (auto || lia). f_equal. lia.
  - rewrite load_byte by (auto || lia). reflexivity.
Qed.
#[export] Hint Resolve moves_type moves_pair : aph.

(** The regions allow an ascending copy. *)
Definition fw_safe (dst src n : Z) : Prop := dst <= src \/ src + n <= dst.

Lemma fw_loop_spec fuel sz mv m dst src n :
  0 < sz -> moves sz mv -> mem_ok m -> 0 <= n -> fw_safe dst src n ->
  (Z.to_nat n <= fuel)%nat ->
  exists m' k, fw_loop fuel sz mv m dst src n = Ok (m', dst + k, src + k, n - k) /\
    copied m m' dst src k /\ 0 <= k <= n /\ n - k < sz.
Proof.
  intros Hsz Hmv. revert m dst src n.
  induction fuel as [|fuel IH]; intros m dst src n Hm Hn Hs Hf; cbn [fw_loop];
    destruct (Z.ltb_spec n sz); try lia.
  1,2: exists m, 0; rewrite !Z.add_0_r, Z.sub_0_r; auto using copied_nil with lia.
  pose proof (Hmv m dst src Hm) as Hc.
  destruct (IH (mv m dst src) (dst + sz) (src + sz) (n - sz)) as (m' & k & E & C & K & L).
  - eapply copied_ok; eauto.
  - lia.
  - unfold fw_safe in *. lia.
  - lia.
  - exists m', (sz + k). rewrite E. split; [tuple_eq|].
    split; [|lia]. eapply copied_app; eauto; unfold fw_safe in *; lia.
Qed.

Lemma memcpy_type_spec sz m dst src n : (0 < sz)%nat ->
  mem_ok m -> 0 <= n -> fw_safe dst src n ->
  exists m' k, memcpy_type sz m dst src n = Ok (m', dst + k, src + k, n - k) /\
    copied m m' dst src k /\ 0 <= k <= n /\ n - k < Z.of_nat sz.
Proof. intros. apply fw_loop_spec; auto with aph lia. Qed.

(** Run one forward copy from [(m, dst, src, n)] and compose it with the copy so
    far: the goal keeps the form [copied m0 _ dst0 src0 _]. *)
Lemma copied_step m m1 m2 dst src a b : fw_safe dst src (a + b) -> 0 <= a -> 0 <= b ->
  copied m m1 dst src a -> copied m1 m2 (dst + a) (src + a) b ->
  copied m m2 dst src (a + b).
Proof. intros. eapply copied_app; eauto. unfold fw_safe in *. lia. Qed.

Lemma memcpy_421_spec m dst src n : mem_ok m -> 0 <= n -> fw_safe dst src n ->
  exists m', memcpy_421 m dst src n = Ok m' /\ copied m m' dst src n.
Proof.
  intros Hm Hn Hs. unfold memcpy_421, _memcpy_uint32_t, _memcpy_uint16_t, _memcpy_uint8_t.
  destruct (memcpy_type_spec 4 m dst src n) as (m1 & a & -> & Ca & Ka & _); auto with lia.
  cbn [mbind outcome_bind].
  destruct (memcpy_type_spec 2 m1 (dst + a) (src + a) (n - a)) as (m2 & b & -> & Cb & Kb & _);
    eauto using copied_ok with lia. { unfold fw_safe in *; lia. }
  cbn [mbind outcome_bind].
  assert (copied m m2 dst src (a + b)) by (eapply copied_step; eauto; unfold fw_safe in *; lia).
  destruct (memcpy_type_spec 1 m2 (dst + a + b) (src + a + b) (n - a - b))
    as (m3 & c & -> & Cc & Kc & L); eauto using copied_ok with lia. { unfold fw_safe in *; lia. }
  cbn [mbind outcome_bind]. exists m3. split; [reflexivity|].
  replace n with (a + b + c) by lia.
  eapply copied_step; eauto; rewrite ?Z.add_assoc; auto; unfold fw_safe in *; lia.
Qed.

Lemma memcpy_uint64_spec a m dst src n : mem_ok m -> 0 <= n -> fw_safe dst src n ->
  exists m' k, _memcpy_uint64_t a m dst src n = Ok (m', dst + k, src + k, n - k) /\
    copied m m' dst src k /\ 0 <= k <= n.
Proof.
  intros Hm Hn Hs. unfold _memcpy_uint64_t. destruct (Z.ltb_spec n 8).
  { exists m, 0. rewrite !Z.add_0_r, Z.sub_0_r. auto using copied_nil with lia. }
  assert (G : forall m dst src n, mem_ok m -> 0 <= n -> fw_safe dst src n ->
    exists m' k, memcpy_type 8 m dst src n = Ok (m', dst + k, src + k, n - k) /\
      copied m m' dst src k /\ 0 <= k <= n).
  { intros. edestruct (memcpy_type_spec 8) as (m' & k & ? & ? & ? & ?); eauto with lia. }
  destruct (is_aarch64 a && (16 <=? n)); [|auto].
  edestruct (fw_loop_spec (Z.to_nat n) 16 move_pair m dst src n)
    as (m1 & k1 & -> & C1 & K1 & _); auto with aph lia.
  cbn [mbind outcome_bind]. destruct (Z.ltb_spec (n - k1) 8); [eauto 6|].
  edestruct (G m1 (dst + k1) (src + k1) (n - k1)) as (m2 & k2 & -> & C2 & K2);
    eauto using copied_ok with lia. { unfold fw_safe in *; lia. }
  exists m2, (k1 + k2). split; [tuple_eq|].
  split; [|lia]. eapply copied_step; eauto; unfold fw_safe in *; lia.
Qed.

Lemma rep_movsb_up n m dst src : fw_safe dst src (Z.of_nat n) ->
  copied m (rep_movsb 1 n m dst src) dst src (Z.of_nat n).
Proof.
  revert m dst src. induction n as [|n IH]; intros m dst src Hs; [apply copied_nil|].
  cbn [rep_movsb]. rewrite Nat2Z.inj_succ. replace (Z.succ (Z.of_nat n)) with (1 + Z.of_nat n) by lia.
  eapply copied_step; [unfold fw_safe in *; lia|lia|lia| |apply IH; unfold fw_safe in *; lia].
  intros x. unfold upd. wcase; destruct (Z.eqb_spec x dst); try lia; try reflexivity.
  f_equal. lia.
Qed.

Lemma rep_movsb_down n m dst src : src <= dst ->
  copied m (rep_movsb (-1) n m (dst + (Z.of_nat n - 1)) (src + (Z.of_nat n - 1)))
    dst src (Z.of_nat n).
Proof.
  intros Hs. revert m. induction n as [|n IH]; intros m; [apply copied_nil|].
  cbn [rep_movsb]. rewrite Nat2Z.inj_succ.
  replace (dst + (Z.succ (Z.of_nat n) - 1) + -1) with (dst + (Z.of_nat n - 1)) by lia.
  replace (src + (Z.succ (Z.of_nat n) - 1) + -1) with (src + (Z.of_nat n - 1)) by lia.
  replace (Z.succ (Z.of_nat n)) with (Z.of_nat n + 1) by lia.
  eapply copied_app_down; [lia|lia|lia| |apply IH].
  intros x. unfold upd. wcase; destruct (Z.eqb_spec x (dst + (Z.of_nat n + 1 - 1))); try lia;
    try reflexivity. f_equal. lia.
Qed.

Lemma memcpy_small a m dst src n : mem_ok m -> 0 <= n < 4 -> fw_safe dst src n ->
  exists m', memcpy a m dst src n = Ok (m', if n =? 2 then dst + 2 else dst) /\
    copied m m' dst src n.
Proof.
  intros Hm Hn Hs. unfold memcpy, REP_MOVSB_MIN, _memcpy_uint16_t, _memcpy_uint8_t.
  replace (is_x86 a && (16 <=? n)) with false
    by (destruct (Z.leb_spec 16 n); [lia|destruct (is_x86 a); reflexivity]).
  destruct (Z.leb_spec 8 n), (Z.leb_spec 4 n); try lia.
  destruct (Z.leb_spec 2 n).
  - destruct (memcpy_type_spec 2 m dst src n) as (m1 & k & E & C & K & L); auto with lia.
    rewrite E. cbn [mbind outcome_bind].
    assert (k = 2) as ->.
    { revert E. unfold memcpy_type.
      assert (n = 2 \/ n = 3) as [->| ->] by lia; cbn; intros [=]; lia. }
    destruct (Z.eqb_spec (n - 2) 0), (Z.eqb_spec n 2); try lia.
    { subst n. eauto. }
    destruct (memcpy_type_spec 1 m1 (dst + 2) (src + 2) (n - 2))
      as (m2 & k2 & -> & C2 & K2 & L2); eauto using copied_ok with lia.
    { unfold fw_safe in *; lia. }
    cbn [mbind outcome_bind]. exists m2. split; [reflexivity|].
    replace n with (2 + k2) by lia. eapply copied_step; eauto; unfold fw_safe in *; lia.
  - destruct (Z.eqb_spec n 2); [lia|].
    destruct (memcpy_type_spec 1 m dst src n) as (m1 & k & -> & C & K & L); auto with lia.
    cbn [mbind outcome_bind]. replace k with n in * by lia. eauto.
Qed.

(** [memcpy] copies [n] bytes and changes nothing else, for disjoint regions and
    for a destination below the source; it returns the destination, except
    that a copy of exactly two bytes returns the advanced pointer. *)
Lemma memcpy_spec a m dst src n : mem_ok m -> 0 <= n -> fw_safe dst src n ->
  exists m', memcpy a m dst src n = Ok (m', if n =? 2 then dst + 2 else dst) /\
    copied m m' dst src n.
Proof.
  intros Hm Hn Hs. destruct (Z.lt_ge_cases n 4); [apply memcpy_small; auto|].
  unfold memcpy. destruct (Z.eqb_spec n 2); [lia|].
  destruct (is_x86 a && (REP_MOVSB_MIN <=? n)).
  { eexists; split; [reflexivity|].
    rewrite <- (Z2Nat.id n) at 2 by lia. apply rep_movsb_up. rewrite Z2Nat.id; auto. }
  destruct (Z.leb_spec 8 n).
  - destruct (memcpy_uint64_spec a m dst src n) as (m1 & k & -> & C & K); auto.
    cbn [mbind outcome_bind].
    destruct (memcpy_421_spec m1 (dst + k) (src + k) (n - k)) as (m2 & -> & C2);
      eauto using copied_ok with lia. { unfold fw_safe in *; lia. }
    cbn [mbind outcome_bind]. exists m2. split; [reflexivity|].
    replace n with (k + (n - k)) by lia.
    eapply copied_step; eauto; unfold fw_safe in *; lia.
  - destruct (Z.leb_spec 4 n); [|lia].
    destruct (memcpy_421_spec m dst src n) as (m1 & -> & C); auto.
    cbn [mbind outcome_bind]. eauto.
Qed.

Lemma bw_loop_spec fuel sz mv m dst src off :
  0 < sz -> moves sz mv -> mem_ok m -> 0 <= off -> src <= dst ->
  (Z.to_nat off < fuel)%nat ->
  exists m' k, bw_loop fuel sz mv m dst src off = Ok (m', k) /\
    copied m m' (dst + k) (src + k) (off + sz - k) /\ 0 <= k < sz /\ k <= off.
Proof.
  intros Hsz Hmv. revert m off.
  induction fuel as [|fuel IH]; intros m off Hm Ho Hs Hf; [lia|]. cbn [bw_loop].
  pose proof (Hmv m (dst + off) (src + off) Hm) as Hc.
  destruct (Z.ltb_spec off sz).
  - exists (mv m (dst + off) (src + off)), off. split; [reflexivity|].
    split; [|lia]. replace (off + sz - off) with sz by lia. exact Hc.
  - destruct (IH (mv m (dst + off) (src + off)) (off - sz)) as (m' & k & -> & C & K & L);
      eauto using copied_ok with lia.
    exists m', k. split; [reflexivity|]. split; [|lia].
    replace (off + sz - k) with ((off - k) + sz) by lia.
    apply copied_app_down with (m1 := mv m (dst + off) (src + off)); try lia.
    + replace (dst + k + (off - k)) with (dst + off) by lia.
      replace (src + k + (off - k)) with (src + off) by lia. exact Hc.
    + replace (off - k) with (off - sz + sz - k) by lia. exact C.
Qed.

Lemma memcpy_bw_type_spec sz m dst src n : (0 < sz)%nat ->
  mem_ok m -> 0 <= n -> src <= dst ->
  exists m' k, memcpy_bw_type sz m dst src n = Ok (m', k) /\
    copied m m' (dst + k) (src + k) (n - k) /\ 0 <= k < Z.of_nat sz /\ k <= n.
Proof.
  intros Hsz Hm Hn Hs. unfold memcpy_bw_type. destruct (Z.ltb_spec n (Z.of_nat sz)).
  - exists m, n. rewrite Z.sub_diag. auto using copied_nil with lia.
  - destruct (bw_loop_spec (S (Z.to_nat n)) (Z.of_nat sz) (move sz) m dst src (n - Z.of_nat sz))
      as (m' & k & -> & C & K & L); auto with aph lia.
    exists m', k. replace (n - Z.of_nat sz + Z.of_nat sz - k) with (n - k) in C by lia.
    auto with lia.
Qed.

Lemma memcpy_bw_uint64_spec a m dst src n : mem_ok m -> 0 <= n -> src + 8 <= dst ->
  exists m' k, _memcpy_bw_uint64_t a m dst src n = Ok (m', k) /\
    copied m m' (dst + k) (src + k) (n - k) /\ 0 <= k <= n.
Proof.
  intros Hm Hn Hs. unfold _memcpy_bw_uint64_t. destruct (Z.ltb_spec n 8).
  { exists m, n. rewrite Z.sub_diag. auto using copied_nil with lia. }
  destruct (is_aarch64 a && (16 <=? n)) eqn:Ea.
  - apply andb_prop in Ea as [_ Ea]. apply Z.leb_le in Ea.
    destruct (bw_loop_spec (S (Z.to_nat n)) 16 move_pair m dst src (n - 8 - 8))
      as (m1 & k & -> & C & K & L); auto with aph lia.
    replace (n - 8 - 8 + 16 - k) with (n - k) in C by lia.
    cbn [mbind outcome_bind]. destruct (Z.ltb_spec k 8); [eauto with lia|].
    destruct (bw_loop_spec (S (Z.to_nat n)) 8 (move 8) m1 dst src k)
      as (m2 & j & -> & C2 & K2 & L2); eauto using copied_ok with lia.
    { exact (moves_type 8). }
    exists m2, j. split; [reflexivity|]. split; [|lia]. intros x. rewrite C2, !C.
    wcase; try lia; try reflexivity; f_equal; lia.
  - destruct (bw_loop_spec (S (Z.to_nat n)) 8 (move 8) m dst src (n - 8))
      as (m' & k & -> & C & K & L); auto with lia. { exact (moves_type 8). }
    replace (n - 8 + 8 - k) with (n - k) in C by lia. eauto with lia.
Qed.

(** Going down: what is copied above [k] and then below it. *)
Lemma copied_step_down m m1 m2 dst src k n : src <= dst -> 0 <= k <= n ->
  copied m m1 (dst + k) (src + k) (n - k) -> copied m1 m2 dst src k ->
  copied m m2 dst src n.
Proof.
  intros. replace n with (k + (n - k)) by lia. eapply copied_app_down; eauto; lia.
Qed.

Definition bw_1 (m : mem) (dst src n ret : Z) : outcome (mem * Z) :=
  '(m, n) ← _memcpy_bw_uint8_t m dst src n; Ok (m, ret).
Definition bw_21 (m : mem) (dst src n ret : Z) : outcome (mem * Z) :=
  '(m, n) ← _memcpy_bw_uint16_t m dst src n; bw_1 m dst src n ret.
Definition bw_421 (m : mem) (dst src n ret : Z) : outcome (mem * Z) :=
  '(m, n) ← _memcpy_bw_uint32_t m dst src n; bw_21 m dst src n ret.

Lemma bw_1_spec m dst src n ret : mem_ok m -> 0 <= n -> src <= dst ->
  exists m', bw_1 m dst src n ret = Ok (m', ret) /\ copied m m' dst src n.
Proof.
  intros. unfold bw_1, _memcpy_bw_uint8_t.
  destruct (memcpy_bw_type_spec 1 m dst src n) as (m' & k & -> & C & K & L); auto with lia.
  exists m'. split; [reflexivity|]. assert (k = 0) as -> by lia.
  rewrite !Z.add_0_r, Z.sub_0_r in C. exact C.
Qed.

Lemma bw_21_spec m dst src n ret : mem_ok m -> 0 <= n -> src <= dst ->
  exists m', bw_21 m dst src n ret = Ok (m', ret) /\ copied m m' dst src n.
Proof.
  intros. unfold bw_21, _memcpy_bw_uint16_t.
  destruct (memcpy_bw_type_spec 2 m dst src n) as (m1 & k & -> & C & K & L); auto with lia.
  cbn [mbind outcome_bind].
  destruct (bw_1_spec m1 dst src k ret) as (m2 & -> & C2); eauto using copied_ok with lia.
  exists m2. split; [reflexivity|]. eapply copied_step_down; eauto; lia.
Qed.

Lemma bw_421_spec m dst src n ret : mem_ok m -> 0 <= n -> src <= dst ->
  exists m', bw_421 m dst src n ret = Ok (m', ret) /\ copied m m' dst src n.
Proof.
  intros. unfold bw_421, _memcpy_bw_uint32_t.
  destruct (memcpy_bw_type_spec 4 m dst src n) as (m1 & k & -> & C & K & L); auto with lia.
  cbn [mbind outcome_bind].
  destruct (bw_21_spec m1 dst src k ret) as (m2 & -> & C2); eauto using copied_ok with lia.
  exists m2. split; [reflexivity|]. eapply copied_step_down; eauto; lia.
Qed.

Lemma fw_1_spec m dst src n : mem_ok m -> 0 <= n -> fw_safe dst src n ->
  exists m' d s, _memcpy_uint8_t m dst src n = Ok (m', d, s, 0) /\ copied m m' dst src n.
Proof.
  intros. destruct (memcpy_type_spec 1 m dst src n) as (m' & k & E & C & K & L); auto with lia.
  assert (k = n) as -> by lia. exists m', (dst + n), (src + n).
  unfold _memcpy_uint8_t. rewrite E, Z.sub_diag. auto.
Qed.

Lemma memmove_up a m dst src n : mem_ok m -> 0 <= n -> 0 <= dst < src -> src < 2 ^ 64 ->
  exists m', memmove a m dst src n = Ok (m', dst) /\ copied m m' dst src n.
Proof.
  intros Hm Hn Hd Hs. assert (Hf : fw_safe dst src n) by (unfold fw_safe; lia).
  unfold memmove. destruct (Z.ltb_spec dst src); [|lia].
  destruct (is_x86 a && (REP_MOVSB_MIN <=? n)).
  { eexists; split; [reflexivity|].
    rewrite <- (Z2Nat.id n) at 2 by lia. apply rep_movsb_up. rewrite Z2Nat.id; auto. }
  unfold distance. rewrite wrap_small by (unfold is_u; lia).
  destruct (Z.leb_spec 8 (src - dst)).
  { destruct (memcpy_spec a m dst src n) as (m' & -> & C); auto. cbn; eauto. }
  destruct (Z.leb_spec 4 (src - dst)).
  { destruct (memcpy_421_spec m dst src n) as (m' & -> & C); auto. cbn; eauto. }
  destruct (Z.leb_spec 2 (src - dst)).
  { destruct (memcpy_type_spec 2 m dst src n) as (m1 & k & E & C & K & _); auto with lia.
    unfold _memcpy_uint16_t. rewrite E. cbn [mbind outcome_bind].
    destruct (fw_1_spec m1 (dst + k) (src + k) (n - k)) as (m2 & d & s & -> & C2);
      eauto using copied_ok with lia. { unfold fw_safe; lia. }
    cbn. exists m2. split; [reflexivity|]. replace n with (k + (n - k)) by lia.
    eapply copied_step; eauto; unfold fw_safe; lia. }
  destruct (Z.leb_spec 1 (src - dst)); [|lia].
  destruct (fw_1_spec m dst src n) as (m2 & d & s & -> & C2); auto. cbn; eauto.
Qed.

Lemma memmove_down a m dst src n : mem_ok m -> 0 <= n -> 0 <= src <= dst -> dst < 2 ^ 64 ->
  exists m', memmove a m dst src n = Ok (m', dst) /\ copied m m' dst src n.
Proof.
  intros Hm Hn Hd Hs. unfold memmove. destruct (Z.ltb_spec dst src); [lia|].
  destruct (is_x86 a && (REP_MOVSB_MIN <=? n)).
  { eexists; split; [reflexivity|].
    pose proof (rep_movsb_down (Z.to_nat n) m dst src ltac:(lia)) as R.
    rewrite Z2Nat.id in R by lia. exact R. }
  unfold distance. rewrite wrap_small by (unfold is_u; lia).
  fold (bw_1 m dst src n dst) (bw_21 m dst src n dst) (bw_421 m dst src n dst).
  destruct (Z.leb_spec 8 (dst - src)).
  { destruct (memcpy_bw_uint64_spec a m dst src n) as (m1 & k & -> & C & K); auto with lia.
    cbn [mbind outcome_bind]. fold (bw_1 m1 dst src k dst) (bw_21 m1 dst src k dst).
    destruct (bw_421_spec m1 dst src k dst) as (m2 & E & C2); eauto using copied_ok with lia.
    exists m2. split; [exact E|]. eapply copied_step_down; eauto; lia. }
  destruct (Z.leb_spec 4 (dst - src)); [apply (bw_421_spec m); auto with lia|].
  destruct (Z.leb_spec 2 (dst - src)); [apply (bw_21_spec m); auto with lia|].
  destruct (Z.leb_spec 1 (dst - src)); [apply (bw_1_spec m); auto with lia|].
  exists m. split; [reflexivity|]. intros x. wcase; [|reflexivity]. f_equal. lia.
Qed.

Lemma memmove_spec a m dst src n : mem_ok m -> 0 <= n -> is_u64 dst -> is_u64 src ->
  exists m', memmove a m dst src n = Ok (m', dst) /\ copied m m' dst src n.
Proof.
  intros Hm Hn [Hd Hd'] [Hs Hs']. destruct (Z.lt_ge_cases dst src).
  - apply memmove_up; lia || auto.
  - apply memmove_down; lia || auto.
Qed.

(** C23: [memmove] leaves in the [n] bytes at [dst] what the [n] bytes at [src]
    held before the call, whatever the overlap of the two regions, changes no
    other byte and returns [dst]; on every architecture, with the word size
    chosen by the distance, the [ldp]/[stp] loops and the [rep movsb] paths
    with either direction flag. *)
Theorem memmove_copies a m dst src n :
  mem_ok m -> 0 <= n -> is_u64 dst -> is_u64 src ->
  exists m', memmove a m dst src n = Ok (m', dst) /\
    bytes_at m' dst (Z.to_nat n) = bytes_at m src (Z.to_nat n) /\
    (forall x, ~ (dst <= x < dst + n) -> m' x = m x).
Proof.
  intros Hm Hn Hd Hs. destruct (memmove_spec a m dst src n) as (m' & E & C); auto.
  exists m'. split; [exact E|]. split; [apply copied_bytes; auto|].
  intros x Hx. rewrite C. wcase; [lia|reflexivity].
Qed.

Lemma memmove_copies_witness :
  exists m', memmove aarch64 (mem_of 100 (seqZ 1 40)) 109 100 27 = Ok (m', 109) /\
    bytes_at m' 109 27 = bytes_at (mem_of 100 (seqZ 1 40)) 100 27 /\
    (forall x, ~ (109 <= x < 109 + 27) -> m' x = mem_of 100 (seqZ 1 40) x).
Proof.
  apply (memmove_copies aarch64 (mem_of 100 (seqZ 1 40)) 109 100 27); try (unfold is_u; lia).
  apply mem_of_ok. apply Forall_seqZ. unfold is_u. lia.
Defined.

(** ** Correctness of the fills *)

(** Each of the [sz] low bytes of [v] is [b]. *)
Definition bytes_eq (sz : Z) (v b : Z) : Prop :=
  forall i, 0 <= i < sz -> (v / 256 ^ i) mod 256 = b.

Lemma bytes_eq_le sz sz' v b : sz' <= sz -> bytes_eq sz v b -> bytes_eq sz' v b.
Proof. intros H B i Hi. apply B. lia. Qed.

Lemma bytes_eq_dec (f : Z -> Z) (g : Z -> Z) lo hi :
  forallb (fun v => forallb (fun i => (f v / 256 ^ i) mod 256 =? g v) (seqZ 0 8))
    (seqZ lo (hi - lo)) = true ->
  forall v, lo <= v < hi -> bytes_eq 8 (f v) (g v).
Proof.
  intros H v Hv i Hi. rewrite forallb_forall in H.
  specialize (H v). rewrite forallb_forall in H.
  apply Z.eqb_eq. apply H; rewrite <- list_elem_of_In, elem_of_seqZ; lia.
Qed.

Lemma bytes_eq_value64 val : 0 <= val < 256 -> bytes_eq 8 (value64_of val) val.
Proof. revert val. apply (bytes_eq_dec value64_of (fun v => v) 0 256). vm_compute. reflexivity. Qed.
Lemma bytes_eq_0 : bytes_eq 8 0 0.
Proof. apply (bytes_eq_dec (fun v => v) (fun v => v) 0 1); [reflexivity|lia]. Qed.
Lemma bytes_eq_ones sz v : 0 <= sz <= 8 -> v = 256 ^ sz - 1 -> bytes_eq sz v 255.
Proof.
  intros Hs -> i Hi.
  assert (i = 0 \/ i = 1 \/ i = 2 \/ i = 3 \/ i = 4 \/ i = 5 \/ i = 6 \/ i = 7) by lia.
  assert (sz = 1 \/ sz = 2 \/ sz = 3 \/ sz = 4 \/ sz = 5 \/ sz = 6 \/ sz = 7 \/ sz = 8) by lia.
  repeat match goal with H : _ \/ _ |- _ => destruct H end; subst; try lia; reflexivity.
Qed.

Lemma store_filled sz m dst v b : bytes_eq (Z.of_nat sz) v b ->
  filled m (store sz m dst v) dst (Z.of_nat sz) b.
Proof. intros B x. rewrite store_spec. wcase; [|reflexivity]. apply B. lia. Qed.

Lemma fill_loop_spec fuel sz v b m dst n : (0 < sz)%nat -> bytes_eq (Z.of_nat sz) v b ->
  0 <= n -> (Z.to_nat n <= fuel)%nat ->
  exists m' k, fill_loop fuel sz v m dst n = Ok (m', dst + k, n - k) /\
    filled m m' dst k b /\ 0 <= k <= n /\ n - k < Z.of_nat sz.
Proof.
  intros Hsz B. revert m dst n.
  induction fuel as [|fuel IH]; intros m dst n Hn Hf; cbn [fill_loop];
    destruct (Z.ltb_spec n (Z.of_nat sz)); try lia.
  1,2: exists m, 0; rewrite Z.add_0_r, Z.sub_0_r; auto using filled_nil with lia.
  destruct (IH (store sz m dst v) (dst + Z.of_nat sz) (n - Z.of_nat sz))
    as (m' & k & -> & F & K & L); try lia.
  exists m', (Z.of_nat sz + k). split; [tuple_eq|]. split; [|lia].
  eapply filled_app; [lia|lia|apply store_filled, B|exact F].
Qed.

Lemma fill_pair_loop_spec fuel v b m dst n : bytes_eq 8 v b ->
  0 <= n -> (Z.to_nat n <= fuel)%nat ->
  exists m' k, fill_pair_loop fuel v m dst n = Ok (m', dst + k, n - k) /\
    filled m m' dst k b /\ 0 <= k <= n.
Proof.
  intros B. revert m dst n.
  induction fuel as [|fuel IH]; intros m dst n Hn Hf; cbn [fill_pair_loop];
    destruct (Z.ltb_spec n 16); try lia.
  1,2: exists m, 0; rewrite Z.add_0_r, Z.sub_0_r; auto using filled_nil with lia.
  destruct (IH (store 8 (store 8 m dst v) (dst + 8) v) (dst + 16) (n - 16))
    as (m' & k & -> & F & K); try lia.
  exists m', (8 + (8 + k)). split; [tuple_eq|]. split; [|lia].
  eapply filled_app; [lia|lia|apply (store_filled 8), B|].
  eapply filled_app; [lia|lia|apply (store_filled 8), B|].
  replace (dst + 8 + 8) with (dst + 16) by lia. exact F.
Qed.

Lemma rep_stosb_spec v n m dst : is_u8 v ->
  filled m (rep_stosb v n m dst) dst (Z.of_nat n) v.
Proof.
  intros Hv. revert m dst. induction n as [|n IH]; intros m dst; [apply filled_nil|].
  cbn [rep_stosb]. rewrite Nat2Z.inj_succ. replace (Z.succ (Z.of_nat n)) with (1 + Z.of_nat n) by lia.
  eapply filled_app; [lia|lia| |apply IH].
  intros x. unfold upd. rewrite wrap_small by exact Hv.
  wcase; destruct (Z.eqb_spec x dst); try lia; reflexivity.
Qed.

Lemma rep_stosb_Z v n m dst : is_u8 v -> 0 <= n ->
  filled m (rep_stosb v (Z.to_nat n) m dst) dst n v.
Proof.
  intros Hv Hn. rewrite <- (Z2Nat.id n) at 2 by lia. apply rep_stosb_spec, Hv.
Qed.

(** A fill run after a fill: what the chains of loops below compose. *)
Definition fill_rest (m0 : mem) (dst0 n0 b : Z) (s : mem * Z * Z) : Prop :=
  let '(m, dst, n) := s in
  exists k, 0 <= k <= n0 /\ dst = dst0 + k /\ n = n0 - k /\ filled m0 m dst0 k b.

Lemma fill_rest_nil m dst n b : 0 <= n -> fill_rest m dst n b (m, dst, n).
Proof. exists 0. auto using filled_nil with lia. Qed.

Lemma fill_rest_type sz v m0 dst0 n0 b m dst n : (0 < sz)%nat ->
  bytes_eq (Z.of_nat sz) v b -> fill_rest m0 dst0 n0 b (m, dst, n) ->
  exists m' dst' n', fill_type sz v m dst n = Ok (m', dst', n') /\
    fill_rest m0 dst0 n0 b (m', dst', n') /\ n' < Z.of_nat sz /\ 0 <= n'.
Proof.
  intros Hsz B (k & K & -> & -> & F).
  destruct (fill_loop_spec (Z.to_nat (n0 - k)) sz v b m (dst0 + k) (n0 - k))
    as (m' & j & E & F' & J & L); auto with lia.
  exists m', (dst0 + k + j), (n0 - k - j). split; [exact E|]. split; [|lia].
  exists (k + j). split; [lia|]. split; [lia|]. split; [lia|].
  eapply filled_app; eauto; lia.
Qed.

Lemma fill_rest_pair v m0 dst0 n0 b m dst n : bytes_eq 8 v b ->
  fill_rest m0 dst0 n0 b (m, dst, n) ->
  exists m' dst' n', fill_pair_loop (Z.to_nat n) v m dst n = Ok (m', dst', n') /\
    fill_rest m0 dst0 n0 b (m', dst', n').
Proof.
  intros B (k & K & -> & -> & F).
  destruct (fill_pair_loop_spec (Z.to_nat (n0 - k)) v b m (dst0 + k) (n0 - k))
    as (m' & j & E & F' & J); auto with lia.
  exists m', (dst0 + k + j), (n0 - k - j). split; [exact E|].
  exists (k + j). split; [lia|]. split; [lia|]. split; [lia|].
  eapply filled_app; eauto; lia.
Qed.

Lemma fill_rest_done m0 dst0 n0 b m dst : fill_rest m0 dst0 n0 b (m, dst, 0) ->
  filled m0 m dst0 n0 b.
Proof. intros (k & K & _ & E & F). replace n0 with k by lia. exact F. Qed.

Lemma fill_rest_stosb m0 dst0 n0 b m dst n : is_u8 b -> fill_rest m0 dst0 n0 b (m, dst, n) ->
  filled m0 (rep_stosb b (Z.to_nat n) m dst) dst0 n0 b.
Proof.
  intros Hb (k & K & -> & -> & F). replace n0 with (k + (n0 - k)) at 2 by lia.
  eapply filled_app; [lia|lia|exact F|]. apply rep_stosb_Z; auto with lia.
Qed.

(** Run the next fill loop of a chain. *)
Ltac fill_step sz :=
  lazymatch goal with
  | R : fill_rest ?m0 ?d0 ?n0 ?b (?m, ?d, ?n) |- context [fill_type sz ?v ?m ?d ?n] =>
      let m' := fresh "m" in let d' := fresh "d" in let n' := fresh "n" in
      let E := fresh "E" in
      destruct (fill_rest_type sz v m0 d0 n0 b m d n) as (m' & d' & n' & E & ? & ? & ?);
      [lia|eauto with aph|exact R|];
      rewrite E; cbn [mbind outcome_bind]; clear R E
  end.

Lemma bytes_eq_0_le sz : sz <= 8 -> bytes_eq sz 0 0.
Proof. intros. eapply bytes_eq_le; [|exact bytes_eq_0]. lia. Qed.
#[export] Hint Extern 1 (bytes_eq _ 0 0) => (apply bytes_eq_0_le; lia) : aph.
#[export] Hint Extern 1 (bytes_eq _ (value64_of _) _) =>
  (eapply bytes_eq_le; [|apply bytes_eq_value64]; lia) : aph.
#[export] Hint Extern 1 (bytes_eq _ _ 255) => (apply bytes_eq_ones; [lia|reflexivity]) : aph.

(** The count has reached 0: the whole region is filled. *)
Ltac fill_done :=
  lazymatch goal with
  | R : fill_rest ?m0 ?d0 ?n0 ?b (?m, ?d, ?n) |- _ =>
      eexists; split; [reflexivity|]; replace n with 0 in R by lia;
      exact (fill_rest_done m0 d0 n0 b m d R)
  end.
(** [if (n == 0) return;] between two loops. *)
Ltac fill_test :=
  lazymatch goal with |- context [?n =? 0] => destruct (Z.eqb_spec n 0); [fill_done|] end.

Lemma bzero_tail_spec m0 dst0 n0 m dst n : fill_rest m0 dst0 n0 0 (m, dst, n) ->
  exists m', bzero_tail m dst n = Ok m' /\ filled m0 m' dst0 n0 0.
Proof.
  intros R. unfold bzero_tail.
  fill_step 8%nat. fill_test. fill_step 4%nat. fill_test.
  fill_step 2%nat. fill_test. fill_step 1%nat. fill_done.
Qed.

Lemma cbo_loop_spec fuel cbo m0 dst0 n0 m dst n : 0 < cbo ->
  fill_rest m0 dst0 n0 0 (m, dst, n) -> (Z.to_nat n <= fuel)%nat ->
  exists m' d' n', cbo_loop fuel cbo m dst n = Ok (m', d', n') /\
    fill_rest m0 dst0 n0 0 (m', d', n').
Proof.
  intros Hc. revert m dst n. induction fuel as [|fuel IH]; intros m dst n R Hf;
    cbn [cbo_loop]; destruct (Z.ltb_spec n cbo); eauto 6.
  { destruct R as (k & ? & ? & ? & ?). lia. }
  destruct R as (k & K & -> & -> & F). apply IH; [|lia].
  exists (k + cbo). split; [lia|]. split; [lia|]. split; [lia|].
  eapply filled_app; [lia|lia|exact F|apply rep_stosb_Z; unfold is_u; lia].
Qed.

Lemma bzero_spec a cbo_size m dst n : 0 <= n -> cbo_size = 0 \/ pow2_64 cbo_size ->
  exists m', bzero a cbo_size m dst n = Ok m' /\ filled m m' dst n 0.
Proof.
  intros Hn Hc. pose proof (fill_rest_nil m dst n 0 Hn) as R. unfold bzero.
  destruct (is_x86 a).
  { destruct (REP_MIN <=? n); [|apply bzero_tail_spec, R].
    eexists; split; [reflexivity|]. apply rep_stosb_Z; unfold is_u; lia. }
  destruct (is_aarch64 a).
  { destruct (fill_rest_pair 0 m dst n 0 m dst n bytes_eq_0 R) as (m' & d' & n' & -> & R').
    cbn [mbind outcome_bind]. clear R. fill_test. apply bzero_tail_spec, R'. }
  destruct (is_riscv64 a); [|apply bzero_tail_spec, R].
  destruct (Z.eqb_spec cbo_size 0) as [E0|E0]; cbn [negb].
  { cbn [mbind outcome_bind]. apply bzero_tail_spec, R. }
  destruct Hc as [?|Hc]; [lia|]. rewrite has_align_pow2 by exact Hc.
  cbn [mbind outcome_bind]. destruct (dst mod cbo_size =? 0);
    cbn [mbind outcome_bind]; [|apply bzero_tail_spec, R].
  pose proof (pow2_64_bound _ Hc).
  destruct (cbo_loop_spec (Z.to_nat n) cbo_size m dst n m dst n)
    as (m' & d' & n' & -> & R'); auto with lia.
  cbn [mbind outcome_bind]. apply bzero_tail_spec, R'.
Qed.

(** [bzero] clears exactly the [n] bytes at [dst], on every architecture; on
    RISC-V for any power-of-two cache block size, aligned or not, and when the
    CPU reports no block size. *)
Theorem bzero_clears a cbo_size m dst n : 0 <= n -> cbo_size = 0 \/ pow2_64 cbo_size ->
  exists m', bzero a cbo_size m dst n = Ok m' /\
    bytes_at m' dst (Z.to_nat n) = replicate (Z.to_nat n) 0 /\
    (forall x, ~ (dst <= x < dst + n) -> m' x = m x).
Proof.
  intros Hn Hc. destruct (bzero_spec a cbo_size m dst n) as (m' & E & F); auto.
  exists m'. split; [exact E|]. split; [eapply filled_bytes; eauto|].
  intros x Hx. rewrite F. wcase; [lia|reflexivity].
Qed.

Lemma bzero_clears_witness :
  exists m', bzero riscv64 64 (fun _ => 7) 128 131 = Ok m' /\
    bytes_at m' 128 131 = replicate 131 0 /\ (forall x, ~ (128 <= x < 128 + 131) -> m' x = 7).
Proof. apply (bzero_clears riscv64 64 (fun _ => 7) 128 131); [lia|right; exists 6; lia]. Defined.

Lemma memset_spec a m dst val n : 0 <= n -> 0 <= val < 256 ->
  exists m', memset a m dst val n = Ok (m', dst) /\ filled m m' dst n val.
Proof.
  intros Hn Hv. pose proof (fill_rest_nil m dst n val Hn) as R. unfold memset.
  assert (is_u8 val) as Hv8 by (unfold is_u; lia).
  destruct (is_x86 a).
  { destruct (REP_MIN <=? n); eexists; (split; [reflexivity|]); apply rep_stosb_Z; auto. }
  destruct (8 <=? n); cbn [mbind outcome_bind].
  2:{ eexists; split; [reflexivity|]. eapply fill_rest_stosb; eauto. }
  assert (exists m1 d1 n1, (if is_aarch64 a then fill_pair_loop (Z.to_nat n) (value64_of val) m dst n
      else Ok (m, dst, n)) = Ok (m1, d1, n1) /\ fill_rest m dst n val (m1, d1, n1))
    as (m1 & d1 & n1 & -> & R1).
  { destruct (is_aarch64 a); [|eauto 6]. apply fill_rest_pair; auto with aph. }
  clear R. cbn [mbind outcome_bind]. fill_step 8%nat. fill_step 4%nat. fill_step 2%nat.
  eexists; split; [reflexivity|]. eapply fill_rest_stosb; eauto.
Qed.

(** [memset] sets exactly the [n] bytes at [dst] to [val] and returns [dst],
    on every architecture, for a [val] in the range of a byte. *)
Theorem memset_fills a m dst val n : 0 <= n -> 0 <= val < 256 ->
  exists m', memset a m dst val n = Ok (m', dst) /\
    bytes_at m' dst (Z.to_nat n) = replicate (Z.to_nat n) val /\
    (forall x, ~ (dst <= x < dst + n) -> m' x = m x).
Proof.
  intros Hn Hv. destruct (memset_spec a m dst val n) as (m' & E & F); auto.
  exists m'. split; [exact E|]. split; [eapply filled_bytes; eauto|].
  intros x Hx. rewrite F. wcase; [lia|reflexivity].
Qed.

Lemma memset_fills_witness :
  exists m', memset loongarch64 (fun _ => 0) 1000 171 23 = Ok (m', 1000) /\
    bytes_at m' 1000 23 = replicate 23 171 /\ (forall x, ~ (1000 <= x < 1000 + 23) -> m' x = 0).
Proof. apply (memset_fills loongarch64 (fun _ => 0) 1000 171 23); lia. Defined.

Lemma memset_ones_spec a m dst n : 0 <= n ->
  exists m', memset_ones a m dst n = Ok (m', dst) /\ filled m m' dst n 255.
Proof.
  intros Hn. pose proof (fill_rest_nil m dst n 255 Hn) as R. unfold memset_ones.
  destruct (is_x86 a && (ONES_REP_MIN <=? n)).
  { eexists; split; [reflexivity|]. apply rep_stosb_Z; unfold is_u; lia. }
  assert (exists m1 d1 n1, (if is_aarch64 a then fill_pair_loop (Z.to_nat n) UINT64_MAX m dst n
      else Ok (m, dst, n)) = Ok (m1, d1, n1) /\ fill_rest m dst n 255 (m1, d1, n1))
    as (m1 & d1 & n1 & -> & R1).
  { destruct (is_aarch64 a); [|eauto 6]. apply fill_rest_pair; auto with aph. }
  clear R. cbn [mbind outcome_bind].
  fill_step 8%nat. fill_test. fill_step 4%nat. fill_test.
  fill_step 2%nat. fill_step 1%nat. fill_done.
Qed.

(** ** Correctness of [memcmp] *)

Definition same_bytes (m : mem) (l r n : Z) : Prop :=
  forall i, 0 <= i < n -> m (l + i) = m (r + i).

Lemma same_bytes_app m l r a b : 0 <= a -> 0 <= b ->
  same_bytes m l r (a + b) <-> same_bytes m l r a /\ same_bytes m (l + a) (r + a) b.
Proof.
  intros Ha Hb. split.
  - intros H. split; intros i Hi; [apply H; lia|].
    rewrite <- !Z.add_assoc. apply H. lia.
  - intros [H1 H2] i Hi. destruct (Z.lt_ge_cases i a); [apply H1; lia|].
    replace (l + i) with (l + a + (i - a)) by lia.
    replace (r + i) with (r + a + (i - a)) by lia. apply H2. lia.
Qed.

Lemma same_bytes_load sz m l r : mem_ok m ->
  load sz m l = load sz m r <-> same_bytes m l r (Z.of_nat sz).
Proof.
  intros Hm. split.
  - intros E i Hi. eapply load_inj; eauto.
  - intros H. induction sz as [|sz IH] in l, r, H |- *; [reflexivity|].
    cbn [load]. pose proof (H 0 ltac:(lia)) as H0. rewrite !Z.add_0_r in H0. rewrite H0.
    rewrite (IH (l + 1) (r + 1)); [reflexivity|]. intros i Hi.
    rewrite <- !Z.add_assoc. apply H. lia.
Qed.

(** What a comparison stage guarantees: a non-zero result is a mismatch; a zero
    result leaves a suffix to compare after an equal prefix. *)
Definition cmp_stage (m : mem) (l r n : Z) (s : Z * Z * Z * Z) : Prop :=
  let '(res, l', r', n') := s in
  if res =? 0 then
    exists k, 0 <= k <= n /\ l' = l + k /\ r' = r + k /\ n' = n - k /\ same_bytes m l r k
  else ~ same_bytes m l r n.

Lemma same_bytes_not sz m l r n : mem_ok m -> Z.of_nat sz <= n ->
  load sz m l <> load sz m r -> ~ same_bytes m l r n.
Proof.
  intros Hm Hn Hne H. apply Hne, same_bytes_load; auto. intros i Hi. apply H. lia.
Qed.

Lemma cmp_loop_spec fuel sz m l r n : (0 < sz)%nat -> mem_ok m ->
  forall k, 0 <= k <= n -> same_bytes m l r k -> (Z.to_nat (n - k) <= fuel)%nat ->
  exists s, cmp_loop fuel sz m l r n (l + k) (r + k) (n - k) = Ok s /\ cmp_stage m l r n s /\
    ((sz <= 4)%nat -> s.1.1.1 = 0 -> s.2 < Z.of_nat sz).
Proof.
  intros Hsz Hm. induction fuel as [|fuel IH]; intros k Hk Hs Hf; cbn [cmp_loop];
    destruct (Z.ltb_spec (n - k) (Z.of_nat sz)); try lia.
  1,2: eexists; split; [reflexivity|]; split; [exists k; auto with lia|auto].
  destruct (Z.eqb_spec (load sz m (l + k)) (load sz m (r + k))) as [E|E]; cbn [negb].
  - replace (l + k + Z.of_nat sz) with (l + (k + Z.of_nat sz)) by lia.
    replace (r + k + Z.of_nat sz) with (r + (k + Z.of_nat sz)) by lia.
    replace (n - k - Z.of_nat sz) with (n - (k + Z.of_nat sz)) by lia.
    apply IH; [lia| |lia]. apply same_bytes_app; [lia|lia|].
    split; [exact Hs|]. apply same_bytes_load; auto.
  - eexists; split; [reflexivity|]. split.
    + cbn. destruct (Z.eqb_spec (i32 (load sz m (l + k) - load sz m (r + k))) 0).
      * exists 0. rewrite !Z.add_0_r, Z.sub_0_r. repeat split; try lia. intros i Hi. lia.
      * intros H'. replace n with (k + (n - k)) in H' by lia.
        apply same_bytes_app in H' as [_ H']; [|lia|lia]. revert H'.
        eapply same_bytes_not; eauto.
    + cbn. intros Hsz4 Hz. exfalso. apply E.
      pose proof (load_bound sz m (l + k) Hm). pose proof (load_bound sz m (r + k) Hm).
      assert (256 ^ Z.of_nat sz <= 256 ^ 4) by (apply Z.pow_le_mono_r; lia).
      change (256 ^ 4) with (2 ^ 32) in *. revert Hz. unfold to_signed, wrap.
      destruct (Z.ltb_spec ((load sz m (l + k) - load sz m (r + k)) mod 2 ^ 32) (2 ^ (32 - 1)));
        change (2 ^ 32) with 4294967296 in *; change (2 ^ (32 - 1)) with 2147483648 in *; dlia.
Qed.

Lemma memcmp_type_spec sz m l r n : (0 < sz)%nat -> mem_ok m -> 0 <= n ->
  exists s, memcmp_type sz m l r n = Ok s /\ cmp_stage m l r n s /\
    ((sz <= 4)%nat -> s.1.1.1 = 0 -> s.2 < Z.of_nat sz).
Proof.
  intros Hsz Hm Hn. unfold memcmp_type.
  pose proof (cmp_loop_spec (Z.to_nat n) sz m l r n Hsz Hm 0 ltac:(lia)) as H.
  rewrite !Z.add_0_r, Z.sub_0_r in H. apply H; [|lia]. intros i Hi. lia.
Qed.

Lemma cmp_pair_loop_spec fuel m l r n : mem_ok m ->
  forall k, 0 <= k <= n -> same_bytes m l r k -> (Z.to_nat (n - k) <= fuel)%nat ->
  exists s, cmp_pair_loop fuel m (l + k) (r + k) (n - k) = Ok s /\
    match s with
    | inl res => ~ same_bytes m l r n
    | inr (l', r', n') => exists k, 0 <= k <= n /\ l' = l + k /\ r' = r + k /\ n' = n - k /\
                            same_bytes m l r k
    end.
Proof.
  intros Hm. induction fuel as [|fuel IH]; intros k Hk Hs Hf; cbn [cmp_pair_loop];
    destruct (Z.ltb_spec (n - k) 16); try lia.
  1,2: eexists; split; [reflexivity|]; exists k; auto with lia.
  assert (N : forall j, 0 <= j <= 8 -> load 8 m (l + k + j) <> load 8 m (r + k + j) ->
              ~ same_bytes m l r n).
  { intros j Hj E H'. replace n with (k + j + (n - k - j)) in H' by lia.
    apply same_bytes_app in H' as [_ H']; [|lia|lia]. revert H'.
    rewrite !Z.add_assoc. apply (same_bytes_not 8); [auto|lia|auto]. }
  destruct (Z.eqb_spec (load 8 m (l + k)) (load 8 m (r + k))) as [E|E]; cbn [negb].
  2:{ eexists; split; [reflexivity|]. apply (N 0); [lia|]. rewrite !Z.add_0_r. exact E. }
  destruct (Z.eqb_spec (load 8 m (l + k + 8)) (load 8 m (r + k + 8))) as [E2|E2]; cbn [negb].
  2:{ eexists; split; [reflexivity|]. apply (N 8); [lia|]. exact E2. }
  replace (l + k + 16) with (l + (k + 16)) by lia.
  replace (r + k + 16) with (r + (k + 16)) by lia.
  replace (n - k - 16) with (n - (k + 16)) by lia.
  apply IH; [lia| |lia]. replace (k + 16) with (k + 8 + 8) by lia.
  apply (same_bytes_load 8) in E, E2; auto.
  apply same_bytes_app; [lia|lia|]. rewrite !Z.add_assoc. split; [|exact E2].
  apply same_bytes_app; [lia|lia|]. auto.
Qed.

Lemma cmp_stage_restart m l r n res : ~ same_bytes m l r n -> 0 <= n ->
  cmp_stage m l r n (res, l, r, n).
Proof.
  intros H Hn. cbn. destruct (res =? 0); [|exact H].
  exists 0. rewrite !Z.add_0_r, Z.sub_0_r. repeat split; try lia. intros i Hi. lia.
Qed.

Lemma memcmp_uint64_spec a m l r n : mem_ok m -> 0 <= n ->
  exists s, _memcmp_uint64_t a m l r n = Ok s /\ cmp_stage m l r n s.
Proof.
  intros Hm Hn. unfold _memcmp_uint64_t. destruct (is_aarch64 a && (16 <=? n)).
  2:{ destruct (memcmp_type_spec 8 m l r n) as (s & E & S & _); eauto with lia. }
  pose proof (cmp_pair_loop_spec (Z.to_nat n) m l r n Hm 0 ltac:(lia)) as H.
  rewrite !Z.add_0_r, Z.sub_0_r in H.
  destruct H as (s & -> & S); [intros i Hi; lia|lia|]. cbn [mbind outcome_bind].
  destruct s as [res|[[l' r'] n']].
  - eexists; split; [reflexivity|]. apply cmp_stage_restart; auto.
  - destruct S as (k & K & -> & -> & -> & Sk). destruct (Z.ltb_spec (n - k) 8).
    + eexists; split; [reflexivity|]. cbn. exists k. auto with lia.
    + destruct (cmp_loop_spec (Z.to_nat n) 8 m l r n ltac:(lia) Hm k K Sk ltac:(lia))
        as (s & E & S & _). eauto.
Qed.

(** Combine a stage with the verdict of the stages after it. *)
Lemma cmp_stage_bind m l r n s (g : Z -> Z -> Z -> outcome Z) :
  cmp_stage m l r n s ->
  (forall l' r' n', 0 <= n' ->
     exists res, g l' r' n' = Ok res /\ (res = 0 <-> same_bytes m l' r' n')) ->
  exists res,
    ('(res, l', r', n') ← Ok s; if negb (res =? 0) then Ok res else g l' r' n') = Ok res /\
    (res = 0 <-> same_bytes m l r n).
Proof.
  intros S H0. destruct s as [[[res l'] r'] n']. cbn in S |- *.
  destruct (Z.eqb_spec res 0) as [->|Hr]; cbn [negb].
  - destruct S as (k & K & -> & -> & -> & Sk).
    destruct (H0 (l + k) (r + k) (n - k) ltac:(lia)) as (v & E & V). exists v. split; [exact E|].
    rewrite V. replace n with (k + (n - k)) at 2 by lia.
    rewrite same_bytes_app by lia. tauto.
  - exists res. tauto.
Qed.

(** [memcmp] returns 0 exactly when the two blocks hold the same bytes, on
    every architecture.  The truncation of a 64-bit difference to [int] can
    lose a mismatch; the narrower stages then restart from the same place and
    find it, so the verdict is right (its sign is not the order of the first
    differing bytes, which the code marks as to be fixed). *)
Theorem memcmp_zero_iff a m left right len : mem_ok m -> 0 <= len ->
  exists res, memcmp a m left right len = Ok res /\
    (res = 0 <-> same_bytes m left right len).
Proof.
  intros Hm Hn. unfold memcmp.
  destruct (memcmp_uint64_spec a m left right len) as (s1 & -> & S1); auto.
  apply cmp_stage_bind; [exact S1|]. intros l1 r1 n1 Hn1.
  destruct (memcmp_type_spec 4 m l1 r1 n1) as (s2 & -> & S2 & _); auto with lia.
  apply cmp_stage_bind; [exact S2|]. intros l2 r2 n2 Hn2.
  destruct (memcmp_type_spec 2 m l2 r2 n2) as (s3 & -> & S3 & _); auto with lia.
  apply cmp_stage_bind; [exact S3|]. intros l3 r3 n3 Hn3.
  destruct (memcmp_type_spec 1 m l3 r3 n3) as (s4 & -> & S4 & L); auto with lia.
  destruct s4 as [[[res l4] r4] n4]. cbn in S4, L |- *. exists res. split; [reflexivity|].
  destruct (Z.eqb_spec res 0); [|tauto].
  destruct S4 as (k & K & -> & -> & -> & Sk).
  replace k with n3 in Sk by lia. tauto.
Qed.

Lemma memcmp_zero_iff_witness :
  exists res, memcmp x86_64 (mem_of 0 (replicate 16 0 ++ [0;0;0;0;1;0;0;0])) 0 16 8 = Ok res /\
    (res = 0 <-> same_bytes (mem_of 0 (replicate 16 0 ++ [0;0;0;0;1;0;0;0])) 0 16 8).
Proof.
  apply (memcmp_zero_iff x86_64 (mem_of 0 (replicate 16 0 ++ [0;0;0;0;1;0;0;0])) 0 16 8); [|lia].
  apply mem_of_ok. unfold is_u. repeat constructor; lia.
Defined.

(** ** The string scans *)

(** [strlen] stops at the first terminator. *)
Lemma strlen_spec fuel m str k : 0 <= k -> (Z.to_nat k <= fuel)%nat ->
  (forall i, 0 <= i < k -> m (str + i) <> 0) -> m (str + k) = 0 ->
  strlen fuel m str = Ok k.
Proof.
  intros Hk Hf Hnz Hz. unfold strlen.
  assert (G : forall fuel j, 0 <= j <= k -> (Z.to_nat (k - j) <= fuel)%nat ->
    strlen_loop fuel m (str + j) j = Ok k).
  { clear fuel Hf. induction fuel as [|fuel IH]; intros j Hj Hf; cbn [strlen_loop].
    - replace j with k in * by lia. rewrite Hz. reflexivity.
    - destruct (Z.eqb_spec (m (str + j)) 0) as [E|E].
      + destruct (Z.eq_dec j k) as [->|]; [reflexivity|]. exfalso. apply (Hnz j); [lia|auto].
      + rewrite <- Z.add_assoc. apply IH; [|lia].
        destruct (Z.eq_dec j k) as [->|]; [congruence|lia]. }
  specialize (G fuel 0). rewrite Z.add_0_r in G. apply G; lia.
Qed.

(** [strcmp] walks both strings to the end of the shorter one without comparing
    characters on the way: strings of the same length compare equal. *)
Lemma strcmp_ignores_contents :
  strcmp 5 x86_64 (mem_of 0 [97; 98; 0; 120; 121; 0]) 0 3 = Ok 0.
Proof. reflexivity. Qed.
