(* ===== verification/LibMemory.v ===== *)
(** * Word fills and tests: lib/memory.c

    [memset16], [memset32], [memset64] and the [membuf*_is_all] tests, per
    architecture. *)

From S2P Require Import Prelude Mem Arith KStdlib.

Definition LIB_REP_MIN : Z := 32.

(** [for (iter = buf; iter != end; iter++) *iter = c], and [rep stos]. *)
Fixpoint word_fill (sz : nat) (count : nat) (m : mem) (buf c : Z) : mem :=
  match count with
  | O => m
  | S count => word_fill sz count (store sz m buf c) (buf + Z.of_nat sz) c
  end.

Definition memset16 (a : arch) (m : mem) (buf count c : Z) : mem * Z :=
  (word_fill 2 (Z.to_nat count) m buf c, buf).

(** The [stp] loop of AArch64: pairs, then a last single word. *)
Fixpoint pair_fill (fuel : nat) (sz : nat) (m : mem) (buf count c : Z) : outcome mem :=
  match fuel with
  | O => Diverge
  | S fuel =>
      let m := store sz (store sz m buf c) (buf + Z.of_nat sz) c in
      let count := count - 2 in
      if 2 <=? count then pair_fill fuel sz m (buf + 2 * Z.of_nat sz) count c
      else if negb (count =? 0) then Ok (store sz m (buf + 2 * Z.of_nat sz) c)
      else Ok m
  end.

(** On x86-64 the word loop is compiled out: up to 32 words nothing is stored. *)
Definition memset_words (sz : nat) (a : arch) (m : mem) (buf count c : Z) : outcome (mem * Z) :=
  match a with
  | x86_64 =>
      if LIB_REP_MIN <? count then Ok (word_fill sz (Z.to_nat count) m buf c, buf)
      else Ok (m, buf)
  | aarch64 =>
      if 2 <=? count then m ← pair_fill (Z.to_nat count) sz m buf count c; Ok (m, buf)
      else if count =? 1 then Ok (store sz m buf c, buf)
      else Ok (m, buf)
  | _ => Ok (word_fill sz (Z.to_nat count) m buf c, buf)
  end.
Definition memset32 := memset_words 4.
Definition memset64 := memset_words 8.

Fixpoint word_is_all (sz : nat) (count : nat) (m : mem) (buf c : Z) : bool :=
  match count with
  | O => true
  | S count => if negb (load sz m buf =? c) then false
               else word_is_all sz count m (buf + Z.of_nat sz) c
  end.
Definition membuf8_is_all (m : mem) (buf count c : Z) : bool :=
  word_is_all 1 (Z.to_nat count) m buf c.
Definition membuf16_is_all (m : mem) (buf count c : Z) : bool :=
  word_is_all 2 (Z.to_nat count) m buf c.

(** On AArch64 the count is tested before it is reduced, so one pair past the
    buffer is compared too. *)
Fixpoint pair_is_all32 (fuel : nat) (m : mem) (buf count c : Z) : outcome bool :=
  match fuel with
  | O => Diverge
  | S fuel =>
      if negb (load 4 m buf =? c) || negb (load 4 m (buf + 4) =? c) then Ok false
      else
        let buf := buf + 8 in
        if 2 <=? count then pair_is_all32 fuel m buf (count - 2) c
        else if negb (count =? 0) then Ok (load 4 m buf =? c)
        else Ok true
  end.
Definition membuf32_is_all (a : arch) (m : mem) (buf count c : Z) : outcome bool :=
  if is_aarch64 a && (2 <=? count) then pair_is_all32 (Z.to_nat count) m buf count c
  else Ok (word_is_all 4 (Z.to_nat count) m buf c).

Fixpoint pair_is_all64 (fuel : nat) (m : mem) (buf count c : Z) : outcome bool :=
  match fuel with
  | O => Diverge
  | S fuel =>
      if negb (load 8 m buf =? c) || negb (load 8 m (buf + 8) =? c) then Ok false
      else
        let count := count - 2 in
        if 2 <=? count then pair_is_all64 fuel m (buf + 16) count c
        else if negb (count =? 0) then Ok (load 8 m (buf + 16) =? c)
        else Ok true
  end.
Definition membuf64_is_all (a : arch) (m : mem) (buf count c : Z) : outcome bool :=
  if is_aarch64 a && (2 <=? count) then pair_is_all64 (Z.to_nat count) m buf count c
  else Ok (word_is_all 8 (Z.to_nat count) m buf c).

(** ** Correctness *)

(** Word [i] of the buffer. *)
Definition word_at (sz : nat) (m : mem) (buf i : Z) : Z := load sz m (buf + i * Z.of_nat sz).

Lemma word_is_all_spec sz count m buf c :
  word_is_all sz count m buf c = true <->
  forall i, 0 <= i < Z.of_nat count -> word_at sz m buf i = c.
Proof.
  revert buf. induction count as [|count IH]; intros buf; cbn [word_is_all].
  - split; [intros _ i Hi; lia|reflexivity].
  - destruct (Z.eqb_spec (load sz m buf) c) as [E|E]; cbn [negb].
    + rewrite IH. unfold word_at. split.
      * intros H i Hi. destruct (Z.eq_dec i 0) as [->|]; [rewrite Z.mul_0_l, Z.add_0_r; exact E|].
        rewrite <- (H (i - 1)) by lia. f_equal. lia.
      * intros H i Hi. rewrite <- (H (i + 1)) by lia. f_equal. lia.
    + split; [discriminate|]. intros H. exfalso. apply E.
      specialize (H 0 ltac:(lia)). unfold word_at in H. rewrite Z.mul_0_l, Z.add_0_r in H. exact H.
Qed.

Lemma word_is_all_SS sz n m buf c :
  word_is_all sz (S (S n)) m buf c =
  if negb (load sz m buf =? c) || negb (load sz m (buf + Z.of_nat sz) =? c) then false
  else word_is_all sz n m (buf + 2 * Z.of_nat sz) c.
Proof.
  cbn [word_is_all]. destruct (load sz m buf =? c), (load sz m (buf + Z.of_nat sz) =? c); cbn; auto.
  f_equal. lia.
Qed.

(** The AArch64 pair loop is the word loop. *)
Lemma pair_is_all64_word fuel m buf count c : 2 <= count -> (Z.to_nat count <= fuel)%nat ->
  pair_is_all64 fuel m buf count c = Ok (word_is_all 8 (Z.to_nat count) m buf c).
Proof.
  revert buf count. induction fuel as [|fuel IH]; intros buf count Hc Hf; [lia|].
  replace (Z.to_nat count) with (S (S (Z.to_nat (count - 2)))) by lia.
  rewrite word_is_all_SS. cbn [pair_is_all64]. change (2 * Z.of_nat 8) with 16.
  change (Z.of_nat 8) with 8.
  destruct (negb (load 8 m buf =? c) || negb (load 8 m (buf + 8) =? c)); [reflexivity|].
  destruct (Z.leb_spec 2 (count - 2)); [apply IH; lia|].
  destruct (Z.eqb_spec (count - 2) 0) as [E|E]; cbn [negb].
  - rewrite E. reflexivity.
  - replace (Z.to_nat (count - 2)) with 1%nat by lia. cbn [word_is_all].
    destruct (load 8 m (buf + 16) =? c); reflexivity.
Qed.

(** [membuf64_is_all] decides whether every one of the [count] words equals
    [c], on every architecture; the paired loads of AArch64 agree with the
    word loop. *)
Theorem membuf64_is_all_correct a m buf count c : 0 <= count ->
  exists b, membuf64_is_all a m buf count c = Ok b /\
    (b = true <-> forall i, 0 <= i < count -> word_at 8 m buf i = c).
Proof.
  intros Hc. exists (word_is_all 8 (Z.to_nat count) m buf c). split.
  - unfold membuf64_is_all. destruct (is_aarch64 a); cbn [andb]; [|reflexivity].
    destruct (Z.leb_spec 2 count); [apply pair_is_all64_word; lia|reflexivity].
  - rewrite word_is_all_spec, Z2Nat.id by lia. reflexivity.
Qed.

Lemma membuf64_is_all_correct_witness :
  exists b, membuf64_is_all aarch64 (fun _ => 255) 64 5 UINT64_MAX = Ok b /\
    (b = true <-> forall i, 0 <= i < 5 -> word_at 8 (fun _ => 255) 64 i = UINT64_MAX).
Proof. apply (membuf64_is_all_correct aarch64 (fun _ => 255) 64 5 UINT64_MAX). lia. Defined.

(** On AArch64 a buffer of two matching words is reported as not matching when
    the word after it differs: the loop reads past the end. *)
Lemma membuf32_is_all_reads_past_end :
  membuf32_is_all aarch64 (mem_of 0 [1; 0; 0; 0; 1; 0; 0; 0; 2; 0; 0; 0]) 0 2 1 = Ok false /\
  membuf32_is_all riscv64 (mem_of 0 [1; 0; 0; 0; 1; 0; 0; 0; 2; 0; 0; 0]) 0 2 1 = Ok true.
Proof. split; reflexivity. Qed.

(** On x86-64 a short [memset64] stores nothing. *)
Lemma memset64_x86_short : memset64 x86_64 (fun _ => 0) 0 32 1 = Ok ((fun _ => 0), 0).
Proof. reflexivity. Qed.
