(* ===== verification/Buffers.v ===== *)
(** * Buffers: lib/adt/mutable_buffer.c, growable_buffer.c, array.c, string.c and string_view.c

    Buffers are structures that point into the memory of [Mem]; the theorems
    read their contents back as lists of bytes.  The growable buffer and its
    clients run against the [Allocator] interface. *)

From S2P Require Import Prelude Mem Alloc Arith Range KStdlib.

(** ** lib/adt/string_view.c *)

Module StringView.

Record string_view := SV { sv_begin : Z; sv_length : Z }.

Definition sv_create_nocheck (c_str length : Z) : string_view := SV c_str (u32 length).
Definition sv_create_end (c_str end_ : Z) : outcome string_view :=
  _ ← c_assert (c_str <=? end_);
  Ok (sv_create_nocheck c_str (distance c_str end_)).
Definition sv_create_length (c_str length : Z) : outcome string_view :=
  _ ← check_add_assert_w 64 c_str length;
  Ok (sv_create_nocheck c_str length).
Definition sv_has_index (sv : string_view) (index : Z) : bool :=
  index_in_bounds index (sv_length sv).
Definition sv_has_index_range (sv : string_view) (r : range) : bool :=
  index_range_in_bounds r (sv_length sv).
Definition sv_substring_length (sv : string_view) (index length : Z) : outcome string_view :=
  _ ← c_assert (sv_has_index_range sv (Range index length));
  sv_create_length (sv_begin sv + index) length.
Definition sv_substring_from (sv : string_view) (index : Z) : outcome string_view :=
  _ ← c_assert ((index =? sv_length sv) || sv_has_index sv index);
  sv_create_length (sv_begin sv + index) (u32 (sv_length sv - index)).
Definition sv_substring_upto (sv : string_view) (index : Z) : outcome string_view :=
  _ ← c_assert ((index =? sv_length sv) || sv_has_index sv index);
  sv_create_length (sv_begin sv) index.
(** [empty] is the address of the literal that [SV_EMPTY] points to. *)
Definition sv_drop_front (empty : Z) (sv : string_view) : string_view :=
  if negb (sv_length sv =? 0)
  then sv_create_nocheck (sv_begin sv + 1) (sv_length sv - 1)
  else SV empty 0.
Definition sv_end (sv : string_view) : Z := sv_begin sv + sv_length sv.
Definition sv_front (m : mem) (sv : string_view) : outcome Z :=
  _ ← c_assert (negb (sv_length sv =? 0)); Ok (m (sv_begin sv)).
Definition sv_back (m : mem) (sv : string_view) : outcome Z :=
  _ ← c_assert (negb (sv_length sv =? 0)); Ok (m (sv_begin sv + (sv_length sv - 1))).
Definition sv_compare (a : arch) (m : mem) (sv sv2 : string_view) : Z :=
  if sv_length sv2 <? sv_length sv then
    if sv_length sv2 =? 0 then as_char a (m (sv_begin sv))
    else strncmp a m (sv_begin sv) (sv_begin sv2) (sv_length sv2)
  else if sv_length sv <? sv_length sv2 then
    if sv_length sv =? 0 then - as_char a (m (sv_begin sv2))
    else strncmp a m (sv_begin sv) (sv_begin sv2) (sv_length sv)
  else if sv_length sv =? 0 then 0
  else strncmp a m (sv_begin sv) (sv_begin sv2) (sv_length sv).
Definition sv_equals (a : arch) (m : mem) (sv sv2 : string_view) : bool :=
  if negb (sv_length sv =? sv_length sv2) then false
  else if sv_length sv =? 0 then true
  else strncmp a m (sv_begin sv) (sv_begin sv2) (sv_length sv) =? 0.
Definition sv_has_prefix (a : arch) (m : mem) (sv prefix : string_view) : bool :=
  if sv_length sv <? sv_length prefix then false
  else strncmp a m (sv_begin sv) (sv_begin prefix) (sv_length prefix) =? 0.
Definition sv_has_suffix (a : arch) (m : mem) (sv suffix : string_view) : bool :=
  if sv_length sv <? sv_length suffix then false
  else let index := u32 (sv_length sv - sv_length suffix) in
       strncmp a m (sv_begin sv + index) (sv_begin suffix) (sv_length suffix) =? 0.

(** The characters of a view. *)
Definition sv_chars (m : mem) (sv : string_view) : list Z :=
  bytes_at m (sv_begin sv) (Z.to_nat (sv_length sv)).

Lemma as_char_inj a x y : is_u8 x -> is_u8 y -> as_char a x = as_char a y -> x = y.
Proof.
  unfold as_char, to_signed, is_u. intros Hx Hy.
  rewrite !wrap_small by (unfold is_u; lia).
  destruct a; auto; destruct (Z.ltb_spec x (2 ^ (8 - 1))), (Z.ltb_spec y (2 ^ (8 - 1))); lia.
Qed.

(** The kernel's [strncmp] returns 0 exactly when the first [n] characters agree. *)
Lemma strncmp_zero_iff a m p q n : mem_ok m -> 0 <= n ->
  strncmp a m p q n = 0 <->
  bytes_at m p (Z.to_nat n) = bytes_at m q (Z.to_nat n).
Proof.
  intros Hm _. unfold strncmp. generalize (Z.to_nat n). intros k. revert p q.
  induction k as [|k IH]; intros p q; cbn [strncmp_loop bytes_at]; [tauto|].
  destruct (Z.eqb_spec (m p) (m q)) as [E|E]; cbn [negb].
  - rewrite IH, E. split; [intros ->; reflexivity|intros [=]; auto].
  - split; [|intros [=]; congruence]. intros H. exfalso. apply E.
    apply (as_char_inj a); [apply Hm|apply Hm|lia].
Qed.

(** [sv_equals], [sv_has_prefix] and [sv_has_suffix] decide equality, prefix
    and suffix of the characters of the views. *)
Theorem sv_tests_correct a m sv sv2 : mem_ok m ->
  is_u32 (sv_length sv) -> is_u32 (sv_length sv2) ->
  (sv_equals a m sv sv2 = true <-> sv_chars m sv = sv_chars m sv2) /\
  (sv_has_prefix a m sv sv2 = true <-> sv_chars m sv2 `prefix_of` sv_chars m sv) /\
  (sv_has_suffix a m sv sv2 = true <-> sv_chars m sv2 `suffix_of` sv_chars m sv).
Proof.
  intros Hm [H1 H1'] [H2 H2']. unfold sv_equals, sv_has_prefix, sv_has_suffix, sv_chars.
  assert (LE : forall k1 k2 p q, bytes_at m p k1 = bytes_at m q k2 -> k1 = k2).
  { intros k1 k2 p q E. apply (f_equal length) in E. rewrite !length_bytes_at in E. exact E. }
  split; [|split].
  - destruct (Z.eqb_spec (sv_length sv) (sv_length sv2)) as [E|E]; cbn [negb].
    + rewrite <- E. destruct (Z.eqb_spec (sv_length sv) 0) as [->|]; [cbn; tauto|].
      rewrite Z.eqb_eq. apply strncmp_zero_iff; auto.
    + split; [discriminate|]. intros H. apply LE in H. lia.
  - destruct (Z.ltb_spec (sv_length sv) (sv_length sv2)) as [E|E].
    + split; [discriminate|]. intros H. apply prefix_length in H.
      rewrite !length_bytes_at in H. lia.
    + rewrite Z.eqb_eq, strncmp_zero_iff by auto.
      replace (Z.to_nat (sv_length sv))
        with (Z.to_nat (sv_length sv2) + Z.to_nat (sv_length sv - sv_length sv2))%nat by lia.
      rewrite bytes_at_app. split; [intros <-; apply prefix_app_r; reflexivity|].
      intros [l E']. apply app_inj_1 in E' as [E' _]; [auto|]. rewrite !length_bytes_at; auto.
  - destruct (Z.ltb_spec (sv_length sv) (sv_length sv2)) as [E|E].
    + split; [discriminate|]. intros H. apply suffix_length in H.
      rewrite !length_bytes_at in H. lia.
    + rewrite Z.eqb_eq, strncmp_zero_iff, wrap_small by (auto || unfold is_u in *; lia).
      replace (Z.to_nat (sv_length sv))
        with (Z.to_nat (sv_length sv - sv_length sv2) + Z.to_nat (sv_length sv2))%nat by lia.
      rewrite bytes_at_app, Z2Nat.id by lia.
      split; [intros <-; apply suffix_app_r; reflexivity|].
      intros [l E']. apply app_inj_2 in E' as [_ E']; [auto|]. rewrite !length_bytes_at; auto.
Qed.

Lemma sv_tests_correct_witness :
  let m := mem_of 16 [97; 98; 99; 98; 99] in
  (sv_equals x86_64 m (SV 16 3) (SV 19 2) = true <->
     sv_chars m (SV 16 3) = sv_chars m (SV 19 2)) /\
  (sv_has_prefix x86_64 m (SV 16 3) (SV 19 2) = true <->
     sv_chars m (SV 19 2) `prefix_of` sv_chars m (SV 16 3)) /\
  (sv_has_suffix x86_64 m (SV 16 3) (SV 19 2) = true <->
     sv_chars m (SV 19 2) `suffix_of` sv_chars m (SV 16 3)).
Proof.
  apply (sv_tests_correct x86_64 (mem_of 16 [97; 98; 99; 98; 99]) (SV 16 3) (SV 19 2));
    [|unfold is_u; cbn; lia|unfold is_u; cbn; lia].
  apply mem_of_ok. unfold is_u. repeat constructor; lia.
Defined.

End StringView.

(** ** lib/adt/mutable_buffer.c *)

Module MBuffer.
Import StringView.

Record mutable_buffer := MB { mb_begin : Z; mb_end : Z; mb_index : Z }.

Definition mbuffer_open_static (buffer used capacity : Z) : mutable_buffer :=
  MB buffer (buffer + capacity) used.
Definition mbuffer_open (buffer used capacity : Z) : outcome mutable_buffer :=
  _ ← c_assert (used <=? capacity);
  _ ← check_add_assert_w 64 buffer used;
  Ok (mbuffer_open_static buffer used capacity).
Definition mbuffer_current_ptr (mb : mutable_buffer) : Z := mb_begin mb + mb_index mb.
Definition mbuffer_free_space (mb : mutable_buffer) : Z :=
  u32 (distance (mbuffer_current_ptr mb) (mb_end mb)).
Definition mbuffer_used_size (mb : mutable_buffer) : Z := mb_index mb.
Definition mbuffer_capacity (mb : mutable_buffer) : Z :=
  u32 (distance (mb_begin mb) (mb_end mb)).
Definition mbuffer_can_add_size (mb : mutable_buffer) (size : Z) : bool :=
  size <=? mbuffer_free_space mb.
Definition mbuffer_empty (mb : mutable_buffer) : bool := mbuffer_used_size mb =? 0.
Definition mbuffer_full (mb : mutable_buffer) : bool :=
  mbuffer_used_size mb =? mbuffer_capacity mb.
(** Returns the amount it could advance by; the index is left alone. *)
Definition mbuffer_increment_ptr (mb : mutable_buffer) (bad_amt : Z) : Z * mutable_buffer :=
  (Z.min (mbuffer_free_space mb) bad_amt, mb).
Definition mbuffer_decrement_ptr (mb : mutable_buffer) (bad_amt : Z) : Z * mutable_buffer :=
  let decrement_amt := Z.min (mbuffer_used_size mb) bad_amt in
  (decrement_amt, MB (mb_begin mb) (mb_end mb) (u32 (mb_index mb - decrement_amt))).
(** The pointer to write to, the clipped length, and the advanced buffer. *)
Definition preprocess_for_append (mb : mutable_buffer) (length : Z)
    : Z * Z * mutable_buffer :=
  let free_space := mbuffer_free_space mb in
  let length := if free_space <=? length then free_space else length in
  let ptr := mbuffer_current_ptr mb in
  (ptr, length, MB (mb_begin mb) (mb_end mb) (u32 (mb_index mb + length))).
Definition mbuffer_append_byte (a : arch) (m : mem) (mb : mutable_buffer) (byte count : Z)
    : outcome (Z * mem * mutable_buffer) :=
  let '(ptr, count, mb) := preprocess_for_append mb count in
  '(m, _) ← memset a m ptr byte count;
  Ok (count, m, mb).
Definition mbuffer_append_data (a : arch) (m : mem) (mb : mutable_buffer) (data length : Z)
    : outcome (Z * mem * mutable_buffer) :=
  let '(ptr, length, mb) := preprocess_for_append mb length in
  '(m, _) ← memcpy a m ptr data length;
  Ok (length, m, mb).
Definition mbuffer_append_sv (a : arch) (m : mem) (mb : mutable_buffer) (sv : string_view) :=
  mbuffer_append_data a m mb (sv_begin sv) (sv_length sv).
Definition mbuffer_truncate (mb : mutable_buffer) (new_used_size : Z) : bool * mutable_buffer :=
  if mbuffer_used_size mb <? new_used_size then (false, mb)
  else (true, MB (mb_begin mb) (mb_end mb) new_used_size).

(** The index stays within the storage, and the capacity is 32-bit. *)
Definition mb_wf (mb : mutable_buffer) : Prop :=
  0 <= mb_begin mb /\ 0 <= mb_index mb /\ mb_begin mb + mb_index mb <= mb_end mb /\
  mb_end mb < 2 ^ 64 /\ mb_end mb - mb_begin mb < 2 ^ 32.
Definition mb_contents (m : mem) (mb : mutable_buffer) : list Z :=
  bytes_at m (mb_begin mb) (Z.to_nat (mb_index mb)).

Lemma mbuffer_free_space_wf mb : mb_wf mb ->
  mbuffer_free_space mb = mb_end mb - (mb_begin mb + mb_index mb).
Proof.
  intros (? & ? & ? & ? & ?). unfold mbuffer_free_space, distance, mbuffer_current_ptr.
  rewrite !wrap_small; unfold is_u; rewrite ?wrap_small; unfold is_u; lia.
Qed.

Lemma preprocess_for_append_spec mb length : mb_wf mb -> 0 <= length ->
  let k := Z.min length (mb_end mb - (mb_begin mb + mb_index mb)) in
  preprocess_for_append mb length =
    (mb_begin mb + mb_index mb, k, MB (mb_begin mb) (mb_end mb) (mb_index mb + k)) /\
  mb_wf (MB (mb_begin mb) (mb_end mb) (mb_index mb + k)) /\ 0 <= k.
Proof.
  intros W Hl k. unfold preprocess_for_append. rewrite mbuffer_free_space_wf by exact W.
  destruct W as (? & ? & ? & ? & ?).
  replace (if _ <=? length then _ else length) with k
    by (unfold k; destruct (Z.leb_spec (mb_end mb - (mb_begin mb + mb_index mb)) length); lia).
  rewrite wrap_small by (unfold is_u; lia).
  split; [reflexivity|]. unfold mb_wf; cbn. lia.
Qed.

(** [mbuffer_append_data] appends the prefix of the data that fits and
    returns its length: the contents grow by exactly those bytes, the buffer
    stays well formed, and no byte outside its storage changes. *)
Theorem mbuffer_append_data_spec a m mb data length :
  mem_ok m -> mb_wf mb -> 0 <= length ->
  disjoint_regions (mb_begin mb) (mb_end mb - mb_begin mb) data length ->
  exists k m' mb', mbuffer_append_data a m mb data length = Ok (k, m', mb') /\
    k = Z.min length (mb_end mb - (mb_begin mb + mb_index mb)) /\ mb_wf mb' /\
    mb_contents m' mb' = mb_contents m mb ++ take (Z.to_nat k) (bytes_at m data (Z.to_nat length)) /\
    (forall x, ~ (mb_begin mb <= x < mb_end mb) -> m' x = m x).
Proof.
  intros Hm W Hl D. unfold mbuffer_append_data.
  destruct (preprocess_for_append_spec mb length W Hl) as (E & W' & K).
  set (k := Z.min length _) in *. rewrite E. clear E.
  destruct W as (? & ? & ? & ? & ?). unfold disjoint_regions in D.
  destruct (memcpy_spec a m (mb_begin mb + mb_index mb) data k) as (m' & -> & C);
    [auto|lia|unfold fw_safe; lia|].
  cbn [mbind outcome_bind]. eexists k, m', _. split; [reflexivity|].
  split; [reflexivity|]. split; [exact W'|]. split.
  - unfold mb_contents. cbn [mb_begin mb_index].
    replace (Z.to_nat (mb_index mb + k)) with (Z.to_nat (mb_index mb) + Z.to_nat k)%nat by lia.
    rewrite bytes_at_app, Z2Nat.id by lia. f_equal.
    + eapply copied_frame; [exact C|]. unfold disjoint_regions. lia.
    + rewrite (copied_bytes _ _ _ _ _ K C).
      replace (Z.to_nat length) with (Z.to_nat k + Z.to_nat (length - k))%nat by lia.
      rewrite bytes_at_app, take_app_le, take_ge by (rewrite length_bytes_at; lia). reflexivity.
  - intros x Hx. rewrite C. wcase; [lia|reflexivity].
Qed.

Lemma mbuffer_append_data_spec_witness :
  exists k m' mb',
    mbuffer_append_data x86_64 (mem_of 100 [7; 8; 9]) (MB 16 20 2) 100 3 = Ok (k, m', mb') /\ k = 2.
Proof.
  destruct (mbuffer_append_data_spec x86_64 (mem_of 100 [7; 8; 9]) (MB 16 20 2) 100 3)
    as (k & m' & mb' & E & K & _).
  - apply mem_of_ok. unfold is_u. repeat constructor; lia.
  - unfold mb_wf; cbn; lia.
  - lia.
  - unfold disjoint_regions; cbn; lia.
  - exists k, m', mb'. split; [exact E|]. rewrite K. reflexivity.
Defined.

End MBuffer.

(** ** lib/adt/growable_buffer.c *)

Module GBuffer.
Import StringView MBuffer.

(** [index] and [capacity] are 31-bit fields. *)
Record growable_buffer := GB {
  gb_begin : Z; gb_index : Z; gb_capacity : Z; gb_is_alloc : bool
}.

Definition GBUFFER_INIT : growable_buffer := GB 0 0 0 false.
Definition GBUFFER_MAX_CAP : Z := Z.shiftr UINT32_MAX 1.
Definition set_index (gb : growable_buffer) (i : Z) : growable_buffer :=
  GB (gb_begin gb) (wrap 31 i) (gb_capacity gb) (gb_is_alloc gb).

Definition gbuffer_free_space (gb : growable_buffer) : Z := u32 (gb_capacity gb - gb_index gb).
Definition gbuffer_used_size (gb : growable_buffer) : Z := gb_index gb.
Definition gbuffer_empty (gb : growable_buffer) : bool := gb_index gb =? 0.
Definition gbuffer_current_ptr (gb : growable_buffer) : Z := gb_begin gb + gb_index gb.
Definition gbuffer_end (gb : growable_buffer) : Z := gb_begin gb + gb_capacity gb.
Definition gbuffer_at (gb : growable_buffer) (byte_index : Z) : outcome Z :=
  _ ← c_assert (index_in_bounds byte_index (gb_capacity gb));
  Ok (gb_begin gb + byte_index).
Definition gbuffer_open (buffer used capacity : Z) (is_alloc : bool) : growable_buffer :=
  GB buffer (wrap 31 used) (wrap 31 capacity) is_alloc.
Definition gbuffer_open_mbuffer (mb : mutable_buffer) (is_alloc : bool) : growable_buffer :=
  gbuffer_open (mb_begin mb) (mbuffer_used_size mb) (mbuffer_capacity mb) is_alloc.
Definition gbuffer_get_mutable_buffer (gb : growable_buffer) : outcome mutable_buffer :=
  mbuffer_open (gb_begin gb) (gb_index gb) (gb_capacity gb).
Definition gbuffer_increment_ptr (gb : growable_buffer) (amount : Z) : Z * growable_buffer :=
  let gb := set_index gb (Z.min (gbuffer_free_space gb) amount) in (gb_index gb, gb).
Definition gbuffer_decrement_ptr (gb : growable_buffer) (amt : Z) : Z * growable_buffer :=
  let delta := Z.min (gb_index gb) amt in (delta, set_index gb (gb_index gb - delta)).
Definition gbuffer_truncate (gb : growable_buffer) (byte_index : Z) : growable_buffer :=
  set_index gb (Z.min (gb_index gb) byte_index).
Definition gbuffer_clear (gb : growable_buffer) : growable_buffer := set_index gb 0.
Definition gbuffer_take_data (gb : growable_buffer) : Z * growable_buffer :=
  (gb_begin gb, GBUFFER_INIT).

Definition gbuffer_remove_index (a : arch) (m : mem) (gb : growable_buffer) (index : Z)
    : outcome (mem * growable_buffer) :=
  let used := gb_index gb in
  _ ← c_assert (index_in_bounds index used);
  m ← (if negb (index =? used - 1) then
         let dst := gb_begin gb + index in
         '(m, _) ← memmove a m dst (dst + 1) (used - index); Ok m
       else Ok m);
  Ok (m, set_index gb (used - 1)).

Definition gbuffer_remove_range (a : arch) (m : mem) (gb : growable_buffer) (r : range)
    : outcome (mem * growable_buffer) :=
  let used := gb_index gb in
  _ ← c_assert (index_range_in_bounds r used);
  end_ ← range_get_end_assert r;
  let end_ := u32 end_ in
  m ← (if negb (end_ =? used) then
         '(m, _) ← memmove a m (gb_begin gb + front r) (gb_begin gb + end_) (u32 (used - end_));
         Ok m
       else Ok m);
  Ok (m, set_index gb (used - size r)).

Section WithAllocator.
Context `{AL : Allocator} (a : arch) (cbo_size : Z).

(** [NULL] is address 0; on failure [malloc_size] leaves the size at 0. *)
Definition gbuffer_alloc (h : heap) (m : mem) (capacity : Z)
    : outcome (growable_buffer * heap * mem) :=
  _ ← c_assert (capacity <=? GBUFFER_MAX_CAP);
  '(r, h, m) ← malloc_size h m capacity;
  match r with
  | None => Ok (GB 0 0 0 true, h, m)
  | Some (p, size) => Ok (GB p 0 (wrap 31 size) true, h, m)
  end.

Definition gbuffer_alloc_copy (h : heap) (m : mem) (data size : Z)
    : outcome (growable_buffer * heap * mem) :=
  '(gb, h, m) ← gbuffer_alloc h m size;
  if negb (gb_begin gb =? 0)
  then '(m, _) ← memcpy a m (gb_begin gb) data size; Ok (gb, h, m)
  else Ok (gb, h, m).

Definition gbuffer_copy (h : heap) (m : mem) (gb : growable_buffer)
    : outcome (growable_buffer * heap * mem) :=
  let used_size := gbuffer_used_size gb in
  if used_size =? 0 then Ok (GBUFFER_INIT, h, m)
  else
    '(result, h, m) ← gbuffer_alloc h m used_size;
    if negb (gb_begin result =? 0)
    then '(m, _) ← memcpy a m (gb_begin result) (gb_begin gb) used_size;
         Ok (set_index result (gb_index gb), h, m)
    else Ok (result, h, m).

Definition gbuffer_ensure_can_add_capacity (h : heap) (m : mem) (gb : growable_buffer) (add : Z)
    : outcome (bool * heap * mem * growable_buffer) :=
  if add <=? gbuffer_free_space gb then Ok (true, h, m, gb)
  else
    new_size ← check_add_assert_w 32 (gb_capacity gb) add;
    '(r, h, m) ← malloc_size h m new_size;
    match r with
    | None => Ok (false, h, m, gb)
    | Some (new_alloc, new_size) =>
        let used_size := gbuffer_used_size gb in
        m ← (if negb (used_size =? 0)
             then '(m, _) ← memcpy a m new_alloc (gb_begin gb) used_size; Ok m
             else Ok m);
        '(h, m) ← (if gb_is_alloc gb then free h m (gb_begin gb) else Ok (h, m));
        Ok (true, h, m, GB new_alloc (gb_index gb) (wrap 31 new_size) true)
    end.

Definition gbuffer_append_data (h : heap) (m : mem) (gb : growable_buffer) (data length : Z)
    : outcome (bool * heap * mem * growable_buffer) :=
  '(ok, h, m, gb) ← gbuffer_ensure_can_add_capacity h m gb length;
  if negb ok then Ok (false, h, m, gb)
  else '(m, _) ← memcpy a m (gbuffer_current_ptr gb) data length;
       Ok (true, h, m, set_index gb (gb_index gb + length)).

Definition gbuffer_append_byte (h : heap) (m : mem) (gb : growable_buffer) (byte count : Z)
    : outcome (bool * heap * mem * growable_buffer) :=
  '(ok, h, m, gb) ← gbuffer_ensure_can_add_capacity h m gb count;
  if negb ok then Ok (false, h, m, gb)
  else '(m, _) ← memset a m (gbuffer_current_ptr gb) byte count;
       Ok (true, h, m, set_index gb (gb_index gb + count)).

Definition gbuffer_append_gbuffer_data (h : heap) (m : mem) (gb append : growable_buffer) :=
  gbuffer_append_data h m gb (gb_begin append) (gb_index append).

Definition gbuffer_append_sv (h : heap) (m : mem) (gb : growable_buffer) (sv : string_view) :=
  gbuffer_append_data h m gb (sv_begin sv) (sv_length sv).

Definition gbuffer_destroy (h : heap) (m : mem) (gb : growable_buffer)
    : outcome (heap * mem * growable_buffer) :=
  if gb_is_alloc gb then '(h, m) ← free h m (gb_begin gb); Ok (h, m, GBUFFER_INIT)
  else m ← bzero a cbo_size m (gb_begin gb) (gb_capacity gb); Ok (h, m, GBUFFER_INIT).

(** *** Contents and invariant *)

Definition in_buffer (gb : growable_buffer) (x : Z) : Prop :=
  gb_begin gb <= x < gb_begin gb + gb_capacity gb.

Definition contents (m : mem) (gb : growable_buffer) : list Z :=
  bytes_at m (gb_begin gb) (Z.to_nat (gb_index gb)).

(** The used part is within the storage, the storage is not the allocator's to
    hand out, and storage marked as allocated is a block of the allocator. *)
Record gb_inv (h : heap) (gb : growable_buffer) : Prop := {
  inv_index : 0 <= gb_index gb <= gb_capacity gb;
  inv_capacity : gb_capacity gb < 2 ^ 31;
  inv_begin : 0 <= gb_begin gb;
  inv_end : gb_begin gb + gb_capacity gb < 2 ^ 64;
  inv_avail : forall x, in_buffer gb x -> ~ avail h x;
  inv_block : gb_is_alloc gb = true -> block h (gb_begin gb) (gb_capacity gb)
}.

(** Memory that is neither the allocator's nor the buffer's. *)
Definition foreign (h : heap) (gb : growable_buffer) (x : Z) : Prop :=
  ~ avail h x /\ ~ in_buffer gb x.

(** What growing and appending may change: foreign memory stays as it is, and
    stays foreign. *)
Definition frame (h : heap) (m : mem) (gb : growable_buffer)
    (h' : heap) (m' : mem) (gb' : growable_buffer) : Prop :=
  forall x, foreign h gb x -> m' x = m x /\ foreign h' gb' x.

Lemma fw_safe_pointwise dst src n : 0 <= n ->
  (forall i, 0 <= i < n -> ~ (dst <= src + i < dst + n)) -> fw_safe dst src n.
Proof.
  intros Hn H. unfold fw_safe.
  destruct (Z.le_gt_cases dst src); [auto|].
  destruct (Z.le_gt_cases (src + n) dst); [auto|].
  exfalso. apply (H (dst - src)); lia.
Qed.

Lemma free_space_inv h gb : gb_inv h gb -> gbuffer_free_space gb = gb_capacity gb - gb_index gb.
Proof. intros [? ? ? ? _ _]. apply wrap_small. unfold is_u. lia. Qed.

(** The used bytes moved into a fresh block. *)
Lemma grow_copy m p gb n : mem_ok m -> 0 <= gb_index gb <= gb_capacity gb ->
  gb_index gb <= n -> (forall x, p <= x < p + n -> ~ in_buffer gb x) ->
  exists m', (if negb (gb_index gb =? 0)
       then '(m, _) ← memcpy a m p (gb_begin gb) (gb_index gb); Ok m else Ok m) = Ok m' /\
    mem_ok m' /\ bytes_at m' p (Z.to_nat (gb_index gb)) = contents m gb /\
    (forall x, ~ (p <= x < p + n) -> m' x = m x).
Proof.
  intros Hm Hi Hn D. destruct (Z.eqb_spec (gb_index gb) 0) as [E|E]; cbn [negb].
  - exists m. unfold contents. rewrite E. auto.
  - destruct (memcpy_spec a m p (gb_begin gb) (gb_index gb)) as (m' & -> & C); [auto|lia| |].
    { apply fw_safe_pointwise; [lia|]. intros i Hi' Hx.
      apply (D (gb_begin gb + i)); unfold in_buffer; lia. }
    exists m'. split; [reflexivity|]. split; [eapply copied_ok; eauto|].
    split; [apply (copied_bytes m m' p (gb_begin gb) (gb_index gb)); [lia|exact C]|].
    intros x Hx. rewrite C. wcase; [lia|reflexivity].
Qed.

(** Growth succeeded in the allocator: the block [p] of [n] bytes holds the used
    bytes and the old storage is released. *)
Lemma grow_spec h m gb add p n h1 m1 : gb_inv h gb ->
  heap_ok h1 m1 -> mem_ok m1 -> (forall x, ~ avail h x -> m1 x = m x) ->
  gb_capacity gb + add <= n < 2 ^ 31 /\ 0 < p /\ p + n < 2 ^ 64 /\
  (forall x, p <= x < p + n -> avail h x) /\
  (forall x, avail h1 x -> avail h x /\ ~ (p <= x < p + n)) /\
  block h1 p n /\ (forall q k, block h q k -> q <> p /\ block h1 q k) -> 0 <= add ->
  exists m2 h3 m3, (if negb (gb_index gb =? 0)
       then '(m, _) ← memcpy a m1 p (gb_begin gb) (gb_index gb); Ok m else Ok m1) = Ok m2 /\
    (if gb_is_alloc gb then free h1 m2 (gb_begin gb) else Ok (h1, m2)) = Ok (h3, m3) /\
    let gb' := GB p (gb_index gb) n true in
    heap_ok h3 m3 /\ mem_ok m3 /\ gb_inv h3 gb' /\ contents m3 gb' = contents m gb /\ frame h m gb h3 m3 gb' /\
    gb_index gb + add <= n.
Proof.
  intros [I1 I2 I3 I4 I5 I6] Ho1 Hm1 M1 (N & P & PN & A1 & A2 & B1 & B2) Ha.
  assert (D : forall x, p <= x < p + n -> ~ in_buffer gb x).
  { intros x Hx Hb. apply (I5 x Hb). apply A1. lia. }
  assert (C1 : contents m1 gb = contents m gb).
  { apply bytes_at_ext. intros i Hi. apply M1, I5. unfold in_buffer. lia. }
  destruct (grow_copy m1 p gb n) as (m2 & E2 & Hm2 & C2 & F2); auto; try lia.
  assert (Ho2 : heap_ok h1 m2).
  { eapply heap_frame; [exact Ho1|]. intros x Hx. apply F2. destruct (A2 x Hx). auto. }
  assert (K : exists h3 m3, (if gb_is_alloc gb then free h1 m2 (gb_begin gb) else Ok (h1, m2)) = Ok (h3, m3) /\
    heap_ok h3 m3 /\ (forall x, avail h3 x -> avail h1 x \/ in_buffer gb x) /\
    (forall x, ~ avail h3 x -> m3 x = m2 x) /\ mem_ok m3 /\ block h3 p n).
  { destruct (gb_is_alloc gb).
    - destruct (B2 _ _ (I6 eq_refl)) as [Hne Hb].
      destruct (free_ok _ _ _ _ Ho2 Hm2 Hb) as (h3 & m3 & EF & FH & FO & FA & FB & FM). exists h3, m3.
      split; [exact EF|]. split; [exact FH|]. split; [exact FA|]. split; [exact FM|]. split; [auto|]. apply FB; auto.
    - exists h1, m2. split; [reflexivity|]. auto. }
  destruct K as (h3 & m3 & EF & KH & KA & KM & KO & KB).
  exists m2, h3, m3. split; [exact E2|]. split; [exact EF|]. intros gb'.
  assert (NA : forall x, p <= x < p + n -> ~ avail h3 x).
  { intros x Hx Hav. destruct (KA x Hav) as [H'|H']; [destruct (A2 x H'); lia|].
    apply (D x); auto. }
  split; [exact KH|]. split; [exact KO|]. split; [split; cbn; auto; lia|]. split; [|split; [|lia]].
  - rewrite <- C1, <- C2. apply bytes_at_ext. cbn. intros i Hi. apply KM, NA. lia.
  - intros x [Fa Fb].
    assert (Np : ~ (p <= x < p + n)) by (intros Hx; apply Fa, A1; lia).
    assert (Na : ~ avail h3 x).
    { intros Hav. destruct (KA x Hav) as [H'|H']; [|auto]. destruct (A2 x H'). auto. }
    split; [|split; [exact Na|exact Np]]. rewrite KM by exact Na.
    rewrite F2 by exact Np. apply M1, Fa.
Qed.

Lemma ensure_spec h m gb add : heap_ok h m -> mem_ok m -> gb_inv h gb -> 0 <= add ->
  gb_capacity gb + add < 2 ^ 32 ->
  exists b h' m' gb', gbuffer_ensure_can_add_capacity h m gb add = Ok (b, h', m', gb') /\
    heap_ok h' m' /\ mem_ok m' /\ gb_inv h' gb' /\ gb_index gb' = gb_index gb /\
    contents m' gb' = contents m gb /\ frame h m gb h' m' gb' /\
    (b = true -> gb_index gb' + add <= gb_capacity gb').
Proof.
  intros Ho Hm I Ha Hc. pose proof I as [I1 I2 I3 I4 I5 I6].
  unfold gbuffer_ensure_can_add_capacity.
  rewrite (free_space_inv h gb I). destruct (Z.leb_spec add (gb_capacity gb - gb_index gb)).
  { exists true, h, m, gb. split; [reflexivity|]. split; [auto|]. split; [auto|]. split; [auto|].
    split; [auto|]. split; [auto|]. split; [intros x Hx; auto|lia]. }
  unfold check_add_assert_w, check_add_w. rewrite fits_ok by (unfold is_u; lia).
  cbn [assert_some mbind outcome_bind].
  destruct (malloc_ok h m (gb_capacity gb + add)) as ([[p n]|] & h1 & m1 & -> & Ho1 & Hm1 & M & L); auto; try lia;
    cbn [mbind outcome_bind].
  - destruct (grow_spec h m gb add p n h1 m1) as (m2 & h3 & m3 & E2 & E3 & G1 & G2 & G3 & G4 & G5 & G6); auto; try lia.
    unfold gbuffer_used_size. rewrite E2. cbn [mbind outcome_bind]. rewrite E3. cbn [mbind outcome_bind].
    rewrite (wrap_small 31 n) by (unfold is_u; lia).
    exists true, h3, m3, (GB p (gb_index gb) n true). auto 10.
  - destruct L as [A B].
    exists false, h1, m1, gb. split; [reflexivity|]. split; [auto|]. split; [auto|].
    split; [split; auto; intros x Hx Hav; apply (I5 x Hx), A, Hav|].
    split; [auto|]. split; [|split; [|discriminate]].
    + apply bytes_at_ext. intros i Hi. apply M, I5. unfold in_buffer. lia.
    + intros x [Fa Fb]. split; [apply M, Fa|]. split; auto.
Qed.

(** Writing [n] bytes at the end of the used part, as a copy or a fill. *)
Lemma append_tail h m m' gb n l : gb_inv h gb -> 0 <= n -> gb_index gb + n <= gb_capacity gb ->
  bytes_at m' (gbuffer_current_ptr gb) (Z.to_nat n) = l ->
  (forall x, ~ (gbuffer_current_ptr gb <= x < gbuffer_current_ptr gb + n) -> m' x = m x) ->
  let gb' := set_index gb (gb_index gb + n) in
  gb_inv h gb' /\ contents m' gb' = contents m gb ++ l /\
  gb_index gb' = gb_index gb + n /\ frame h m gb h m' gb'.
Proof.
  intros [I1 I2 I3 I4 I5 I6] Hn Hc L F gb'. unfold gbuffer_current_ptr in *.
  assert (E : gb_index gb' = gb_index gb + n) by (apply wrap_small; unfold is_u; lia).
  split; [split; unfold in_buffer in *; rewrite ?E; cbn; auto; lia|].
  split; [|split; [exact E|]].
  - unfold contents. rewrite E. cbn [gb_begin gb' set_index].
    replace (Z.to_nat (gb_index gb + n)) with (Z.to_nat (gb_index gb) + Z.to_nat n)%nat by lia.
    rewrite bytes_at_app, Z2Nat.id, L by lia. f_equal.
    apply bytes_at_ext. intros i Hi. apply F. lia.
  - intros x [Fa Fb]. split; [|split; [exact Fa|exact Fb]]. apply F.
    intros Hx. apply Fb. unfold in_buffer. lia.
Qed.

Lemma append_data_spec h m gb data length : heap_ok h m -> mem_ok m -> gb_inv h gb -> 0 <= length ->
  gb_capacity gb + length < 2 ^ 32 ->
  (forall i, 0 <= i < length -> foreign h gb (data + i)) ->
  exists b h' m' gb', gbuffer_append_data h m gb data length = Ok (b, h', m', gb') /\
    heap_ok h' m' /\ mem_ok m' /\ gb_inv h' gb' /\ frame h m gb h' m' gb' /\
    gb_index gb' = gb_index gb + (if b then length else 0) /\
    contents m' gb' =
      contents m gb ++ (if b then bytes_at m data (Z.to_nat length) else []).
Proof.
  intros Ho Hm I Hl Hc Hd. unfold gbuffer_append_data.
  destruct (ensure_spec h m gb length) as (b & h1 & m1 & gb1 & -> & O1 & M1 & I1 & X1 & C1 & F1 & R1); auto.
  cbn [mbind outcome_bind]. destruct b; cbn [negb].
  2:{ exists false, h1, m1, gb1. rewrite app_nil_r, Z.add_0_r. auto 10. }
  specialize (R1 eq_refl).
  destruct (memcpy_spec a m1 (gbuffer_current_ptr gb1) data length) as (m2 & -> & C); [auto|auto| |].
  { apply fw_safe_pointwise; [lia|]. intros i Hi Hx.
    destruct (F1 _ (Hd i Hi)) as [_ [_ Nb]]. apply Nb.
    unfold in_buffer, gbuffer_current_ptr in *. destruct I1. lia. }
  cbn [mbind outcome_bind].
  destruct (append_tail h1 m1 m2 gb1 length (bytes_at m1 data (Z.to_nat length))) as (I2 & C2 & X2 & F2);
    auto. { apply copied_bytes; auto. } { intros x Hx. rewrite C. wcase; [lia|reflexivity]. }
  eexists true, h1, m2, _. split; [reflexivity|]. split; [|split; [eapply copied_ok; eauto|]].
  { eapply heap_frame; [exact O1|]. intros x Hx. rewrite C. wcase; [|reflexivity].
    exfalso. apply (inv_avail h1 gb1 I1 x); [|exact Hx].
    unfold in_buffer, gbuffer_current_ptr in *. destruct I1. lia. }
  split; [exact I2|]. split; [|split; [rewrite X2, X1; reflexivity|]].
  - intros x Hx. destruct (F1 x Hx) as [E1 Fx]. destruct (F2 x Fx) as [E2 Fx2].
    rewrite E2, E1. auto.
  - rewrite C2, C1. f_equal. apply bytes_at_ext. intros i Hi. apply F1, Hd. lia.
Qed.

(** Closing the gap of [r] by moving the bytes after it down. *)
Lemma remove_tail h m m' gb r : gb_inv h gb ->
  0 <= front r -> 0 <= size r -> front r + size r <= gb_index gb -> mem_ok m' ->
  copied m m' (gb_begin gb + front r) (gb_begin gb + (front r + size r))
    (gb_index gb - (front r + size r)) ->
  let gb' := set_index gb (gb_index gb - size r) in
  mem_ok m' /\ gb_inv h gb' /\ gb_index gb' = gb_index gb - size r /\
  contents m' gb' = take (Z.to_nat (front r)) (contents m gb) ++
                    drop (Z.to_nat (front r + size r)) (contents m gb) /\
  (forall x, ~ in_buffer gb x -> m' x = m x).
Proof.
  intros [I1 I2 I3 I4 I5 I6] Hf Hs Hr Hm' C gb'.
  assert (IX : gb_index gb' = gb_index gb - size r) by (apply wrap_small; unfold is_u; lia).
  split; [exact Hm'|].
  split; [split; unfold in_buffer in *; rewrite ?IX; cbn; auto; lia|].
  split; [exact IX|]. split.
  - unfold contents. rewrite IX. cbn [gb_begin gb' set_index].
    replace (Z.to_nat (gb_index gb - size r))
      with (Z.to_nat (front r) + Z.to_nat (gb_index gb - (front r + size r)))%nat by lia.
    replace (Z.to_nat (gb_index gb))
      with (Z.to_nat (front r + size r) + Z.to_nat (gb_index gb - (front r + size r)))%nat by lia.
    rewrite (bytes_at_app m), drop_app_le, drop_ge by (rewrite length_bytes_at; lia).
    rewrite take_app_le by (rewrite length_bytes_at; lia).
    replace (Z.to_nat (front r + size r))
      with (Z.to_nat (front r) + Z.to_nat (size r))%nat at 1 by lia.
    rewrite (bytes_at_app m), take_app_le, take_ge by (rewrite length_bytes_at; lia).
    rewrite bytes_at_app, !Z2Nat.id by lia. rewrite app_nil_l. f_equal.
    + eapply copied_frame; [exact C|]. unfold disjoint_regions. lia.
    + apply copied_bytes in C; [exact C|lia].
  - intros x Hx. rewrite C. wcase; [|reflexivity]. exfalso. apply Hx. unfold in_buffer. lia.
Qed.

Lemma remove_range_spec h m gb r : mem_ok m -> gb_inv h gb ->
  0 <= front r -> 0 <= size r -> front r + size r <= gb_index gb ->
  exists m' gb', gbuffer_remove_range a m gb r = Ok (m', gb') /\ mem_ok m' /\ gb_inv h gb' /\
    gb_index gb' = gb_index gb - size r /\
    contents m' gb' = take (Z.to_nat (front r)) (contents m gb) ++
                      drop (Z.to_nat (front r + size r)) (contents m gb) /\
    (forall x, ~ in_buffer gb x -> m' x = m x).
Proof.
  intros Hm I Hf Hs Hr. pose proof I as [I1 I2 I3 I4 I5 I6].
  assert (W : range_wf r) by (unfold range_wf; lia).
  unfold gbuffer_remove_range, index_range_in_bounds, range_get_end_assert.
  rewrite range_get_end_wf by exact W.
  destruct (Z.leb_spec (front r + size r) (gb_index gb)); [|lia].
  cbn [c_assert assert_some mbind outcome_bind].
  rewrite (wrap_small 32 (front r + size r)) by (unfold is_u; lia).
  rewrite (wrap_small 32 (gb_index gb - (front r + size r))) by (unfold is_u; lia).
  destruct (Z.eqb_spec (front r + size r) (gb_index gb)) as [E|E]; cbn [negb].
  - eexists m, _. split; [reflexivity|]. apply remove_tail; auto.
    rewrite E, Z.sub_diag. apply copied_nil.
  - destruct (memmove_spec a m (gb_begin gb + front r) (gb_begin gb + (front r + size r))
                (gb_index gb - (front r + size r))) as (m' & -> & C);
      [auto|lia|unfold is_u; lia|unfold is_u; lia|].
    cbn [mbind outcome_bind]. eexists m', _. split; [reflexivity|].
    apply remove_tail; auto. eapply copied_ok; eauto.
Qed.

End WithAllocator.
End GBuffer.

(** ** lib/adt/string.c *)

Module KString.
Import StringView GBuffer.

Section WithAllocator.
Context `{AL : Allocator} (a : arch) (cbo_size : Z).

(** A [struct string] is its growable buffer. *)
Definition set_null_terminator (m : mem) (gb : growable_buffer) : mem :=
  upd m (gb_begin gb + gb_index gb) 0.
Definition prepare_append (h : heap) (m : mem) (gb : growable_buffer) (length : Z) :=
  gbuffer_ensure_can_add_capacity a h m gb (u32 (length + 1)).
Definition string_length (gb : growable_buffer) : Z := gbuffer_used_size gb.

(** The first component is the returned pointer: [false] for [NULL]. *)
Definition string_append_char (h : heap) (m : mem) (gb : growable_buffer) (ch amount : Z)
    : outcome (bool * heap * mem * growable_buffer) :=
  '(ok, h, m, gb) ← prepare_append h m gb amount;
  if negb ok then Ok (false, h, m, gb) else
  '(ok, h, m, gb) ← gbuffer_append_byte a h m gb ch amount;
  if negb ok then Ok (false, h, m, gb) else
  Ok (true, h, set_null_terminator m gb, gb).

Definition string_append_sv (h : heap) (m : mem) (gb : growable_buffer) (sv : string_view)
    : outcome (bool * heap * mem * growable_buffer) :=
  '(ok, h, m, gb) ← prepare_append h m gb (sv_length sv);
  if negb ok then '(h, m, gb) ← gbuffer_destroy a cbo_size h m gb; Ok (false, h, m, gb) else
  '(ok, h, m, gb) ← gbuffer_append_sv a h m gb sv;
  if negb ok then '(h, m, gb) ← gbuffer_destroy a cbo_size h m gb; Ok (false, h, m, gb) else
  Ok (true, h, set_null_terminator m gb, gb).

Definition string_alloc (h : heap) (m : mem) (sv : string_view)
    : outcome (heap * mem * growable_buffer) :=
  '(_, h, m, gb) ← string_append_sv h m GBUFFER_INIT sv;
  Ok (h, m, gb).

(** Reserves for its own length, and reports a successful append as [NULL]. *)
Definition string_append (h : heap) (m : mem) (gb append : growable_buffer)
    : outcome (bool * heap * mem * growable_buffer) :=
  '(ok, h, m, gb) ← prepare_append h m gb (string_length gb);
  if negb ok then Ok (false, h, m, gb) else
  '(ok, h, m, gb) ← gbuffer_append_gbuffer_data a h m gb append;
  if ok : bool then Ok (false, h, m, gb) else
  Ok (true, h, set_null_terminator m gb, gb).

Definition string_front (m : mem) (gb : growable_buffer) : outcome Z :=
  if negb (gbuffer_empty gb) then Ok (m (gb_begin gb)) else Panic.
Definition string_back (m : mem) (gb : growable_buffer) : outcome Z :=
  let length := string_length gb in
  if negb (length =? 0) then Ok (m (gb_begin gb + (length - 1))) else Panic.
Definition string_reserve (h : heap) (m : mem) (gb : growable_buffer) (capacity : Z) :=
  '(_, h, m, gb) ← gbuffer_ensure_can_add_capacity a h m gb capacity;
  Ok (h, m, gb).
Definition string_remove_index (m : mem) (gb : growable_buffer) (index : Z) :=
  gbuffer_remove_index a m gb index.
Definition string_remove_range (m : mem) (gb : growable_buffer) (r : range) :=
  gbuffer_remove_range a m gb r.
Definition string_to_sv (empty : Z) (gb : growable_buffer) : string_view :=
  let length := string_length gb in
  if length =? 0 then SV empty 0 else sv_create_nocheck (gb_begin gb) length.

(** [for (i = 0; i <= string_len - sv.length; i++, ptr++)] *)
Fixpoint find_sv_loop (m : mem) (sv : string_view) (todo : nat) (i ptr : Z) : Z :=
  match todo with
  | O => -1
  | S todo => if strncmp a m ptr (sv_begin sv) (sv_length sv) =? 0 then i
              else find_sv_loop m sv todo (i + 1) (ptr + 1)
  end.
Definition string_find_sv (m : mem) (gb : growable_buffer) (sv : string_view) : Z :=
  let string_len := string_length gb in
  if (string_len =? 0) || (sv_length sv =? 0) then -1
  else if string_len <? sv_length sv then -1
  else find_sv_loop m sv (Z.to_nat (string_len - sv_length sv + 1)) 0 (gb_begin gb).

Lemma destroy_null h m gb : heap_ok h m -> mem_ok m -> gb_inv h gb -> cbo_size = 0 \/ pow2_64 cbo_size ->
  exists h' m', ('(h, m, gb) ← gbuffer_destroy a cbo_size h m gb; Ok (false, h, m, gb))
    = Ok (false, h', m', GBUFFER_INIT).
Proof.
  intros Ho Hm I Hc. unfold gbuffer_destroy. destruct (gb_is_alloc gb) eqn:Ea.
  - destruct (free_ok h m _ _ Ho Hm (inv_block h gb I Ea)) as (h1 & m1 & -> & _). cbn. eauto.
  - destruct (bzero_spec a cbo_size m (gb_begin gb) (gb_capacity gb)) as (m' & -> & _); auto.
    { destruct I. lia. } cbn. eauto.
Qed.

(** C31: [string_append_sv] either appends the view and leaves a terminator after
    the last character, with the buffer invariant kept and memory outside the
    buffer and the allocator unchanged, or returns [NULL] with the string
    emptied; it never fires an assertion. *)
Theorem string_append_sv_spec h m gb sv : heap_ok h m -> mem_ok m -> gb_inv h gb ->
  0 <= sv_length sv -> gb_capacity gb + sv_length sv + 1 < 2 ^ 31 ->
  (forall i, 0 <= i < sv_length sv -> foreign h gb (sv_begin sv + i)) ->
  cbo_size = 0 \/ pow2_64 cbo_size ->
  exists ok h' m' gb', string_append_sv h m gb sv = Ok (ok, h', m', gb') /\
    if ok : bool then
      contents m' gb' = contents m gb ++ sv_chars m sv /\
      m' (gb_begin gb' + gb_index gb') = 0 /\ gb_index gb' < gb_capacity gb' /\
      heap_ok h' m' /\ gb_inv h' gb' /\ frame h m gb h' m' gb'
    else gb' = GBUFFER_INIT.
Proof.
  intros Ho Hm I Hl Hc Hd Hcbo. unfold string_append_sv, prepare_append.
  pose proof (inv_index h gb I). rewrite wrap_small by (unfold is_u; lia).
  destruct (ensure_spec a h m gb (sv_length sv + 1))
    as (b & h1 & m1 & gb1 & -> & O1 & M1 & I1 & X1 & C1 & F1 & R1); auto; try lia.
  cbn [mbind outcome_bind]. destruct b; cbn [negb].
  2:{ destruct (destroy_null h1 m1 gb1 O1 M1 I1 Hcbo) as (h' & m' & ->).
      exists false, h', m', GBUFFER_INIT. auto. }
  specialize (R1 eq_refl). pose proof (inv_capacity h1 gb1 I1).
  unfold gbuffer_append_sv.
  destruct (append_data_spec a h1 m1 gb1 (sv_begin sv) (sv_length sv))
    as (b & h2 & m2 & gb2 & E2 & O2 & M2 & I2 & F2 & X2 & C2); auto; try lia.
  { intros i Hi. apply F1, Hd. lia. }
  assert (EB : b = true /\ gb_capacity gb2 = gb_capacity gb1).
  { revert E2. unfold gbuffer_append_data, gbuffer_ensure_can_add_capacity.
    rewrite (free_space_inv h1 gb1 I1).
    destruct (Z.leb_spec (sv_length sv) (gb_capacity gb1 - gb_index gb1)); [|lia].
    cbn [mbind outcome_bind negb].
    destruct (memcpy a m1 _ _ _) as [[? ?]| | |]; cbn; intros [=]; subst; auto. }
  destruct EB as [-> EC]. rewrite E2. cbn [mbind outcome_bind negb]. clear E2.
  eexists true, h2, _, gb2. split; [reflexivity|].
  unfold set_null_terminator, upd. split; [|split; [|split; [|split; [|split]]]].
  - transitivity (contents m2 gb2).
    + apply bytes_at_ext. intros i Hi. destruct (Z.eqb_spec (gb_begin gb2 + i) (gb_begin gb2 + gb_index gb2));
        [pose proof (inv_index h2 gb2 I2); lia|reflexivity].
    + rewrite C2, C1. f_equal. apply bytes_at_ext. intros i Hi. apply F1, Hd. lia.
  - rewrite Z.eqb_refl. reflexivity.
  - lia.
  - eapply heap_frame; [exact O2|]. intros x Hx.
    destruct (Z.eqb_spec x (gb_begin gb2 + gb_index gb2)) as [->|]; [|reflexivity]. exfalso.
    apply (inv_avail h2 gb2 I2 (gb_begin gb2 + gb_index gb2)); [|exact Hx].
    unfold in_buffer. pose proof (inv_index h2 gb2 I2). lia.
  - exact I2.
  - intros x Hx. destruct (F1 x Hx) as [E1 Fx]. destruct (F2 x Fx) as [E3 [Fa Fb]].
    split; [|split; auto]. rewrite <- E1, <- E3.
    destruct (Z.eqb_spec x (gb_begin gb2 + gb_index gb2)); [|reflexivity].
    exfalso. apply Fb. unfold in_buffer. pose proof (inv_index h2 gb2 I2). lia.
Qed.

End WithAllocator.

Lemma string_append_sv_spec_witness :
  let h : @heap Bump.bump_allocator := Bump.Build_bump 1000 2000 [] in
  exists ok h' m' gb',
    string_append_sv x86_64 0 h (mem_of 16 [104; 105]) GBUFFER_INIT (SV 16 2) = Ok (ok, h', m', gb') /\
    if ok : bool then
      contents m' gb' = contents (mem_of 16 [104; 105]) GBUFFER_INIT ++ sv_chars (mem_of 16 [104; 105]) (SV 16 2) /\
      m' (gb_begin gb' + gb_index gb') = 0 /\ gb_index gb' < gb_capacity gb' /\
      heap_ok h' m' /\ gb_inv h' gb' /\ frame h (mem_of 16 [104; 105]) GBUFFER_INIT h' m' gb'
    else gb' = GBUFFER_INIT.
Proof.
  apply (string_append_sv_spec (AL := Bump.bump_allocator) x86_64 0
           (Bump.Build_bump 1000 2000 []) (mem_of 16 [104; 105])
           GBUFFER_INIT (SV 16 2)); try (cbn; lia).
  - apply mem_of_ok. unfold is_u. repeat constructor; lia.
  - split; cbn; try lia; try discriminate. intros x Hx. unfold in_buffer in Hx. cbn in Hx. lia.
  - intros i Hi. cbn in Hi. split; unfold in_buffer; cbn; lia.
Defined.

End KString.

(** ** lib/adt/array.c *)

Module Array.
Import GBuffer.

Record array := Arr { gbuffer : growable_buffer; object_size : Z }.

Definition ARRAY_INIT (size : Z) : array := Arr GBUFFER_INIT size.
Definition array_begin (arr : array) : Z := gb_begin (gbuffer arr).
Definition array_end (arr : array) : Z := gb_begin (gbuffer arr) + gb_index (gbuffer arr).
Definition array_item_count (arr : array) : Z := gbuffer_used_size (gbuffer arr) / object_size arr.
Definition array_free_count (arr : array) : Z := gbuffer_free_space (gbuffer arr) / object_size arr.
Definition array_empty (arr : array) : bool := gbuffer_empty (gbuffer arr).
Definition array_at (arr : array) (index : Z) : outcome Z :=
  _ ← c_assert (index_in_bounds index (array_item_count arr));
  byte_index ← check_mul_assert_w 32 index (object_size arr);
  Ok (gb_begin (gbuffer arr) + byte_index).
Definition array_front (arr : array) : outcome Z :=
  _ ← c_assert (negb (array_empty arr)); Ok (array_begin arr).
Definition array_back (arr : array) : outcome Z :=
  _ ← c_assert (negb (array_empty arr));
  Ok (gbuffer_current_ptr (gbuffer arr) - object_size arr).
Definition array_take_data (arr : array) : Z * array :=
  let '(p, gb) := gbuffer_take_data (gbuffer arr) in (p, Arr gb (object_size arr)).

Section Ops.
Context `{AL : Allocator} (a : arch).

Definition array_append (h : heap) (m : mem) (arr : array) (item : Z)
    : outcome (bool * heap * mem * array) :=
  '(ok, h, m, gb) ← gbuffer_append_data a h m (gbuffer arr) item (object_size arr);
  Ok (ok, h, m, Arr gb (object_size arr)).

Definition array_remove_index (m : mem) (arr : array) (index : Z) : outcome (mem * array) :=
  byte_index ← check_mul_assert_w 32 index (object_size arr);
  '(m, gb) ← gbuffer_remove_range a m (gbuffer arr) (Range byte_index (object_size arr));
  Ok (m, Arr gb (object_size arr)).

Definition array_remove_range (m : mem) (arr : array) (r : range) : outcome (bool * mem * array) :=
  match range_multiply r (object_size arr) with
  | None => Ok (false, m, arr)
  | Some byte_range =>
      '(m, gb) ← gbuffer_remove_range a m (gbuffer arr) byte_range;
      Ok (true, m, Arr gb (object_size arr))
  end.

Definition array_take_item (m : mem) (arr : array) (index item : Z) : outcome (mem * array) :=
  _ ← c_assert (index_in_bounds index (array_item_count arr));
  byte_index ← check_mul_assert_w 32 (object_size arr) index;
  src ← gbuffer_at (gbuffer arr) byte_index;
  '(m, _) ← memcpy a m item src (object_size arr);
  '(m, gb) ← gbuffer_remove_range a m (gbuffer arr) (Range byte_index (object_size arr));
  Ok (m, Arr gb (object_size arr)).

Definition array_take_range (m : mem) (arr : array) (r : range) (item : Z)
    : outcome (mem * array) :=
  _ ← c_assert (index_range_in_bounds r (array_item_count arr));
  byte_index ← check_mul_assert_w 32 (object_size arr) (front r);
  range_size ← check_mul_assert_w 32 (object_size arr) (size r);
  src ← gbuffer_at (gbuffer arr) byte_index;
  '(m, _) ← memcpy a m item src range_size;
  '(m, gb) ← gbuffer_remove_range a m (gbuffer arr) (Range byte_index range_size);
  Ok (m, Arr gb (object_size arr)).

Definition array_reserve (h : heap) (m : mem) (arr : array) (amount : Z)
    : outcome (heap * mem * array) :=
  byte_count ← check_mul_assert_w 32 amount (object_size arr);
  '(_, h, m, gb) ← gbuffer_ensure_can_add_capacity a h m (gbuffer arr) byte_count;
  Ok (h, m, Arr gb (object_size arr)).

(** *** The list of items an array stands for *)

Fixpoint chunks (sz count : nat) (l : list Z) : list (list Z) :=
  match count with
  | O => []
  | S count => take sz l :: chunks sz count (drop sz l)
  end.
Definition items (m : mem) (arr : array) : list (list Z) :=
  chunks (Z.to_nat (object_size arr)) (Z.to_nat (array_item_count arr)) (contents m (gbuffer arr)).

(** The buffer holds a whole number of items. *)
Definition arr_inv (h : heap) (arr : array) : Prop :=
  gb_inv h (gbuffer arr) /\ 0 < object_size arr < 2 ^ 32 /\
  gb_index (gbuffer arr) mod object_size arr = 0.

Lemma chunks_S sz c l : chunks sz (S c) l = take sz l :: chunks sz c (drop sz l).
Proof. reflexivity. Qed.

Lemma chunks_app sz c1 c2 l1 l2 : length l1 = (c1 * sz)%nat ->
  chunks sz (c1 + c2) (l1 ++ l2) = chunks sz c1 l1 ++ chunks sz c2 l2.
Proof.
  revert l1. induction c1 as [|c1 IH]; intros l1 H; cbn [chunks Nat.add app].
  - destruct l1; [reflexivity|discriminate].
  - rewrite take_app_le, drop_app_le by lia. rewrite IH by (rewrite length_drop; lia). reflexivity.
Qed.

Lemma chunks_delete sz c l i : length l = (c * sz)%nat -> (i < c)%nat ->
  chunks sz (c - 1) (take (i * sz) l ++ drop (S i * sz) l) = delete i (chunks sz c l).
Proof.
  revert l i. induction c as [|c IH]; intros l i H Hi; [lia|].
  rewrite Nat.sub_succ, Nat.sub_0_r. destruct i as [|i].
  - rewrite chunks_S, Nat.mul_0_l, Nat.mul_1_l. reflexivity.
  - destruct c as [|c]; [lia|]. rewrite (chunks_S sz (S c) l), chunks_S.
    change (delete (S i) (?x :: ?y)) with (x :: delete i y). f_equal.
    + rewrite take_app_le by (rewrite length_take; lia). rewrite take_take. f_equal. lia.
    + rewrite <- (IH (drop sz l) i) by (rewrite ?length_drop; lia).
      rewrite Nat.sub_succ, Nat.sub_0_r. f_equal.
      rewrite drop_app_le by (rewrite length_take; lia).
      rewrite !skipn_firstn_comm, !drop_drop. f_equal; f_equal; lia.
Qed.

Lemma arr_count h arr : arr_inv h arr ->
  gb_index (gbuffer arr) = array_item_count arr * object_size arr /\ 0 <= array_item_count arr.
Proof.
  intros (I & O & E). unfold array_item_count, gbuffer_used_size.
  pose proof (Z.div_mod (gb_index (gbuffer arr)) (object_size arr) ltac:(lia)).
  pose proof (inv_index h _ I). split; [lia|]. apply Z.div_pos; lia.
Qed.

(** [array_append] refines appending to the list of items: on success the
    array holds its former items followed by the [object_size] bytes at
    [item]; on failure its items are unchanged.  The invariant is kept. *)
Theorem array_append_items h m arr item : heap_ok h m -> mem_ok m -> arr_inv h arr ->
  gb_capacity (gbuffer arr) + object_size arr < 2 ^ 32 ->
  (forall i, 0 <= i < object_size arr -> foreign h (gbuffer arr) (item + i)) ->
  exists ok h' m' arr', array_append h m arr item = Ok (ok, h', m', arr') /\
    heap_ok h' m' /\ arr_inv h' arr' /\
    items m' arr' =
      items m arr ++ (if ok then [bytes_at m item (Z.to_nat (object_size arr))] else []).
Proof.
  intros Ho Hm A Hc Hf. destruct (arr_count h arr A) as [EC EN]. destruct A as (I & O & E).
  unfold array_append.
  destruct (append_data_spec a h m (gbuffer arr) item (object_size arr))
    as (ok & h' & m' & gb' & -> & O' & M & I' & F & X & C); auto; try lia.
  cbn [mbind outcome_bind]. exists ok, h', m', (Arr gb' (object_size arr)).
  split; [reflexivity|]. split; [exact O'|]. split.
  - split; [exact I'|]. split; [exact O|]. cbn. rewrite X.
    destruct ok; [|rewrite Z.add_0_r; exact E].
    rewrite Z.add_mod, Z.mod_same, E, Z.mod_0_l by lia. reflexivity.
  - unfold items. cbn [gbuffer object_size]. rewrite C.
    assert (L : length (contents m (gbuffer arr)) =
                (Z.to_nat (array_item_count arr) * Z.to_nat (object_size arr))%nat).
    { unfold contents. rewrite length_bytes_at. lia. }
    unfold array_item_count at 1, gbuffer_used_size. cbn [gbuffer object_size]. rewrite X, EC.
    destruct ok.
    + replace ((array_item_count arr * object_size arr + object_size arr) / object_size arr)
        with (array_item_count arr + 1)
        by (apply Z.div_unique with (r := 0); lia).
      rewrite Z2Nat.inj_add, chunks_app by (auto || lia). f_equal.
      change (Z.to_nat 1) with 1%nat. rewrite chunks_S, take_ge by (rewrite length_bytes_at; lia). reflexivity.
    + rewrite !app_nil_r, Z.add_0_r, Z.div_mul by lia. reflexivity.
Qed.

(** [array_remove_index] refines deletion from the list of items, with the
    items after the removed one moved down in order, and keeps the
    invariant; no assertion fires for an index below the item count. *)
Theorem array_remove_index_items h m arr index : mem_ok m -> arr_inv h arr ->
  0 <= index < array_item_count arr ->
  exists m' arr', array_remove_index m arr index = Ok (m', arr') /\ arr_inv h arr' /\
    items m' arr' = delete (Z.to_nat index) (items m arr).
Proof.
  intros Hm A Hi. destruct (arr_count h arr A) as [EC EN]. destruct A as (I & O & E).
  pose proof (inv_index h _ I). pose proof (inv_capacity h _ I).
  unfold array_remove_index, check_mul_assert_w, check_mul_w.
  rewrite fits_ok by (unfold is_u; nia). cbn [assert_some mbind outcome_bind].
  destruct (remove_range_spec a h m (gbuffer arr) (Range (index * object_size arr) (object_size arr)))
    as (m' & gb' & -> & M & I' & X & C & _); auto; cbn [front size]; try nia.
  cbn [mbind outcome_bind]. exists m', (Arr gb' (object_size arr)).
  split; [reflexivity|]. cbn [front size] in *. split.
  - split; [exact I'|]. split; [exact O|]. cbn. rewrite X, EC.
    replace (array_item_count arr * object_size arr - object_size arr)
      with ((array_item_count arr - 1) * object_size arr) by lia.
    apply Z.mod_mul. lia.
  - unfold items. cbn [gbuffer object_size]. rewrite C.
    unfold array_item_count at 1, gbuffer_used_size. cbn [gbuffer object_size]. rewrite X, EC.
    replace (array_item_count arr * object_size arr - object_size arr)
      with ((array_item_count arr - 1) * object_size arr) by lia.
    rewrite Z.div_mul by lia.
    replace (Z.to_nat (array_item_count arr - 1)) with (Z.to_nat (array_item_count arr) - 1)%nat by lia.
    rewrite <- chunks_delete.
    + do 2 f_equal; f_equal; nia.
    + unfold contents. rewrite length_bytes_at. nia.
    + lia.
Qed.

End Ops.

(** Three 4-byte items in a stack buffer of 12 bytes: an append must grow. *)
Definition demo_heap : @heap Bump.bump_allocator := Bump.Build_bump 1000 2000 [].
Definition demo_mem : mem := mem_of 16 (seqZ 1 12 ++ [9; 9; 9; 9]).
Definition demo_array : array := Arr (GB 16 12 12 false) 4.

Lemma demo_mem_ok : mem_ok demo_mem.
Proof. apply mem_of_ok. unfold is_u. repeat constructor; lia. Defined.
Lemma demo_arr_inv : arr_inv demo_heap demo_array.
Proof.
  split; [|split; [cbn; lia|reflexivity]].
  split; cbn; try lia; try discriminate. unfold in_buffer. cbn. lia.
Defined.

Lemma array_append_items_witness :
  exists ok h' m' arr', array_append x86_64 demo_heap demo_mem demo_array 28 = Ok (ok, h', m', arr') /\
    heap_ok h' m' /\ arr_inv h' arr' /\
    items m' arr' = items demo_mem demo_array ++ (if ok then [bytes_at demo_mem 28 4] else []).
Proof.
  apply (array_append_items x86_64 demo_heap demo_mem demo_array 28);
    [exact Logic.I|exact demo_mem_ok|exact demo_arr_inv|cbn; lia|].
  intros i Hi. cbn in Hi. split; unfold in_buffer; cbn; lia.
Defined.

Lemma array_remove_index_items_witness :
  exists m' arr', array_remove_index x86_64 demo_mem demo_array 1 = Ok (m', arr') /\
    arr_inv demo_heap arr' /\ items m' arr' = delete 1%nat (items demo_mem demo_array).
Proof.
  apply (array_remove_index_items x86_64 demo_heap demo_mem demo_array 1);
    [exact demo_mem_ok|exact demo_arr_inv|].
  change (array_item_count demo_array) with 3. lia.
Defined.

End Array.
