(* ===== verification/Bits.v ===== *)
(** * Bit scans: lib/bits.[ch]

    Counting and finding the lowest bits of a word, and the runs of ones or
    zeros in it. *)

From S2P Require Import Prelude Arith Range.

(** [__builtin_ctzll] and [__builtin_clzll] on a non-zero argument. *)
Fixpoint pos_ctz (p : positive) : Z :=
  match p with
  | xO p => 1 + pos_ctz p
  | _ => 0
  end.
Definition ctz (n : Z) : Z := match n with Zpos p => pos_ctz p | _ => 0 end.
Definition clz64 (n : Z) : Z := 63 - Z.log2 n.

(** [w] is the width of the type of the argument. *)
Definition count_lsb_zero_bits (w number start_index : Z) : Z :=
  let n := Z.shiftr number start_index in
  u8 (if negb (n =? 0) then ctz n else w - start_index).
Definition count_lsb_one_bits (w number start_index : Z) : Z :=
  count_lsb_zero_bits w (bnot w number) start_index.
Definition count_msb_zero_bits (number start_index : Z) : Z :=
  let n := u64 (Z.shiftl number start_index) in
  u8 (if negb (n =? 0) then clz64 n else 64 - start_index).
Definition count_msb_one_bits (number start_index : Z) : Z :=
  count_msb_zero_bits (bnot 64 number) start_index.

Definition find_lsb_one_bit (number start_index : Z) : Z :=
  u8 (count_lsb_zero_bits 64 number start_index + start_index).
Definition find_lsb_zero_bit (number start_index : Z) : Z :=
  u8 (count_lsb_one_bits 64 number start_index + start_index).
Definition find_msb_zero_bit (number start_index : Z) : Z :=
  u8 (count_msb_zero_bits number start_index + start_index).
Definition find_msb_one_bit (number start_index : Z) : Z :=
  u8 (count_msb_one_bits number start_index + start_index).

(** The first test compares a bit index with [sizeof(number)], 8. *)
Definition get_range_of_lsb_one_bits (number start_index end_index : Z) : range :=
  let first_bit_index := find_lsb_one_bit number (u8 start_index) in
  if negb (index_in_bounds first_bit_index 8) || negb (index_in_bounds first_bit_index end_index)
  then RANGE_EMPTY
  else
    let one_count := count_lsb_one_bits 64 number first_bit_index in
    let result := Range first_bit_index one_count in
    match range_get_end result with
    | Some result_end =>
        if end_index <? result_end then Range first_bit_index (u64 (end_index - first_bit_index))
        else result
    | None => Range first_bit_index (u64 (end_index - first_bit_index))
    end.
Definition get_range_of_lsb_zero_bits (number start_index end_index : Z) : range :=
  get_range_of_lsb_one_bits (bnot 64 number) start_index end_index.
Definition get_next_range_of_lsb_zero_bits (number : Z) (prev : range) (end_index : Z)
    : outcome range :=
  prev_end ← range_get_end_assert prev;
  if negb (index_in_bounds prev_end 64) then Ok RANGE_EMPTY
  else Ok (get_range_of_lsb_zero_bits number prev_end end_index).
Definition get_next_range_of_lsb_one_bits (number : Z) (prev : range) (end_index : Z)
    : outcome range :=
  prev_end ← range_get_end_assert prev;
  if negb (index_in_bounds prev_end 64) then Ok RANGE_EMPTY
  else Ok (get_range_of_lsb_one_bits number prev_end end_index).

(** ** Specifications *)

Lemma pos_ctz_spec p : 0 <= pos_ctz p /\
  Z.testbit (Zpos p) (pos_ctz p) = true /\
  (forall i, 0 <= i < pos_ctz p -> Z.testbit (Zpos p) i = false).
Proof.
  induction p as [p IH|p IH|]; cbn [pos_ctz].
  1,3: split; [lia|split; [reflexivity|lia]].
  destruct IH as (H0 & H1 & H2).
  change (Zpos (xO p)) with (2 * Zpos p). split; [lia|]. split.
  - replace (1 + pos_ctz p) with (Z.succ (pos_ctz p)) by lia.
    rewrite Z.double_bits_succ. exact H1.
  - intros i Hi. destruct (Z.eq_dec i 0) as [->|]; [apply Z.testbit_even_0|].
    replace i with (Z.succ (i - 1)) by lia. rewrite Z.double_bits_succ. apply H2. lia.
Qed.

Lemma count_lsb_zero_bits_spec w n s : 0 < w <= 64 -> is_u w n -> 0 <= s < w ->
  let c := count_lsb_zero_bits w n s in
  0 <= c /\ s + c <= w /\ (forall i, s <= i < s + c -> Z.testbit n i = false) /\
  (s + c < w -> Z.testbit n (s + c) = true).
Proof.
  intros Hw Hn Hs. unfold count_lsb_zero_bits. cbn zeta.
  destruct (Z.eqb_spec (Z.shiftr n s) 0) as [E|E]; cbn [negb].
  - rewrite wrap_small by (unfold is_u; lia). split; [lia|]. split; [lia|]. split; [|lia].
    intros i Hi. replace i with ((i - s) + s) by lia.
    rewrite <- Z.shiftr_spec, E by lia. apply Z.bits_0.
  - assert (0 < Z.shiftr n s) as Hp.
    { assert (0 <= Z.shiftr n s) by (apply Z.shiftr_nonneg; destruct Hn; lia). lia. }
    destruct (Z.shiftr n s) as [|p|p] eqn:Ep; try lia. cbn [ctz].
    destruct (pos_ctz_spec p) as (H0 & H1 & H2).
    rewrite <- Ep, Z.shiftr_spec in H1 by lia.
    assert (pos_ctz p + s < w).
    { destruct (Z.lt_ge_cases (pos_ctz p + s) w); [auto|].
      rewrite (is_u_testbit_high w) in H1 by auto. discriminate. }
    rewrite wrap_small by (unfold is_u; lia).
    split; [lia|]. split; [lia|]. split.
    + intros i Hi. specialize (H2 (i - s) ltac:(lia)).
      rewrite <- Ep, Z.shiftr_spec in H2 by lia. rewrite <- H2. f_equal. lia.
    + intros _. rewrite <- H1. f_equal. lia.
Qed.

Lemma bnot_bound w n : 0 <= w -> is_u w (bnot w n).
Proof. intros. apply wrap_bound. auto. Qed.

(** The lowest bit of value [v] at or above [s]: [find_lsb_one_bit] for [true],
    [find_lsb_zero_bit] for [false]. *)
Definition find_lsb_bit (v : bool) : Z -> Z -> Z :=
  if v then find_lsb_one_bit else find_lsb_zero_bit.

Lemma find_lsb_bit_spec v n s : is_u64 n -> 0 <= s < 64 ->
  let b := find_lsb_bit v n s in
  s <= b <= 64 /\ (forall i, s <= i < b -> Z.testbit n i = negb v) /\
  (b < 64 -> Z.testbit n b = v).
Proof.
  intros Hn Hs. destruct v; cbn [find_lsb_bit negb]; cbn zeta.
  - destruct (count_lsb_zero_bits_spec 64 n s) as (C0 & C1 & C2 & C3); auto with lia.
    unfold find_lsb_one_bit. set (c := count_lsb_zero_bits 64 n s) in *.
    rewrite wrap_small by (unfold is_u; lia).
    split; [lia|]. split; [intros; apply C2; lia|]. intros. rewrite Z.add_comm. apply C3. lia.
  - destruct (count_lsb_zero_bits_spec 64 (bnot 64 n) s) as (C0 & C1 & C2 & C3);
      auto using bnot_bound with lia.
    unfold find_lsb_zero_bit, count_lsb_one_bits.
    set (c := count_lsb_zero_bits 64 (bnot 64 n) s) in *.
    rewrite wrap_small by (unfold is_u; lia).
    assert (N : forall i, 0 <= i < 64 -> Z.testbit (bnot 64 n) i = negb (Z.testbit n i)).
    { intros i Hi. rewrite bnot_testbit by lia. destruct (Z.ltb_spec i 64); [reflexivity|lia]. }
    split; [lia|]. split.
    + intros i Hi. rewrite <- (negb_involutive (Z.testbit n i)), <- N, C2 by lia. reflexivity.
    + intros Hb. apply negb_true_iff. rewrite <- N, Z.add_comm by lia. apply C3. lia.
Qed.

(** [find_lsb_one_bit] and [find_lsb_zero_bit] return the least index at or
    above the start whose bit is one (zero), and 64 when there is none. *)
Theorem find_lsb_bit_least v n s : is_u64 n -> 0 <= s < 64 ->
  let b := find_lsb_bit v n s in
  (b = 64 /\ forall i, s <= i < 64 -> Z.testbit n i = negb v) \/
  (s <= b < 64 /\ Z.testbit n b = v /\ forall i, s <= i < b -> Z.testbit n i = negb v).
Proof.
  intros Hn Hs b. destruct (find_lsb_bit_spec v n s Hn Hs) as (B1 & B2 & B3). fold b in B1, B2, B3.
  destruct (Z.eq_dec b 64) as [E|E]; [left|right].
  - split; [exact E|]. intros. apply B2. lia.
  - split; [lia|]. split; [apply B3; lia|exact B2].
Qed.

Lemma find_lsb_bit_least_witness :
  let b := find_lsb_bit false 0xff07 4 in
  (b = 64 /\ forall i, 4 <= i < 64 -> Z.testbit 0xff07 i = negb false) \/
  (4 <= b < 64 /\ Z.testbit 0xff07 b = false /\
     forall i, 4 <= i < b -> Z.testbit 0xff07 i = negb false).
Proof. apply (find_lsb_bit_least false 0xff07 4); unfold is_u; lia. Defined.

(** A run returned by [get_range_of_lsb_one_bits] consists of ones and lies in
    [[start_index, end_index)]; the next scan starts past it. *)
Lemma get_range_of_lsb_one_bits_sound n s e : is_u64 n -> 0 <= s < 64 -> 0 <= e <= 64 ->
  let r := get_range_of_lsb_one_bits n s e in
  range_wf r /\
  (0 < size r -> s <= front r /\ front r + size r <= e /\
     forall i, in_range r i -> Z.testbit n i = true).
Proof.
  intros Hn Hs He. unfold get_range_of_lsb_one_bits. rewrite (wrap_small 8 s) by (unfold is_u; lia).
  destruct (find_lsb_bit_spec true n s Hn Hs) as (F1 & F2 & F3). cbn [find_lsb_bit] in *.
  set (f := find_lsb_one_bit n s) in *. cbn zeta.
  destruct (index_in_bounds f 8) eqn:E8; cbn [negb orb]; [|split; [vm_compute; intuition congruence|cbn; lia]].
  destruct (index_in_bounds f e) eqn:Ee; cbn [negb orb]; [|split; [vm_compute; intuition congruence|cbn; lia]].
  unfold index_in_bounds in *. apply Z.ltb_lt in E8, Ee.
  destruct (count_lsb_zero_bits_spec 64 (bnot 64 n) f) as (C0 & C1 & C2 & C3);
    auto using bnot_bound with lia.
  fold (count_lsb_one_bits 64 n f) in C0, C1, C2, C3. set (c := count_lsb_one_bits 64 n f) in *.
  assert (B : forall i, f <= i < f + c -> Z.testbit n i = true).
  { intros i Hi. specialize (C2 i Hi). rewrite bnot_testbit in C2 by lia.
    destruct (Z.ltb_spec i 64); [|lia]. cbn in C2. apply negb_false_iff. exact C2. }
  rewrite range_get_end_wf by (unfold range_wf; cbn; lia). cbn [front size].
  destruct (Z.ltb_spec e (f + c)).
  - rewrite wrap_small by (unfold is_u; lia). unfold range_wf, in_range; cbn [front size].
    split; [lia|]. intros _. split; [lia|]. split; [lia|]. intros i Hi. apply B. lia.
  - unfold range_wf, in_range; cbn [front size].
    split; [lia|]. intros _. split; [lia|]. split; [lia|]. intros i Hi. apply B. lia.
Qed.

Lemma get_range_of_lsb_zero_bits_sound n s e : is_u64 n -> 0 <= s < 64 -> 0 <= e <= 64 ->
  let r := get_range_of_lsb_zero_bits n s e in
  range_wf r /\
  (0 < size r -> s <= front r /\ front r + size r <= e /\
     forall i, in_range r i -> Z.testbit n i = false).
Proof.
  intros Hn Hs He. unfold get_range_of_lsb_zero_bits.
  destruct (get_range_of_lsb_one_bits_sound (bnot 64 n) s e) as [W S]; auto using bnot_bound with lia.
  split; [exact W|]. intros Hp. destruct (S Hp) as (S1 & S2 & S3).
  split; [exact S1|]. split; [exact S2|]. intros i Hi. specialize (S3 i Hi).
  unfold in_range in Hi. rewrite bnot_testbit in S3 by lia.
  apply andb_prop in S3 as [_ S3]. apply negb_true_iff. exact S3.
Qed.

(** The scan gives up when the first one is at bit 8 or above. *)
Lemma get_range_misses_high_run : get_range_of_lsb_one_bits 0x100 0 64 = RANGE_EMPTY.
Proof. reflexivity. Qed.
