(* ===== verification/Bitmap.v ===== *)
(** * Bitmaps: lib/adt/bitmap.c

    A bitmap is a growable buffer read bit by bit.  The scans work on the
    widest aligned words first; the theorems state them in terms of single
    bits. *)

From S2P Require Import Prelude Mem Arith Range KStdlib LibMemory Buffers Bits.
Import GBuffer.

Definition bitmap := growable_buffer.
Definition BITMAP_INVALID : Z := UINT64_MAX.

Definition bitmap_open (buffer byte_count : Z) : bitmap :=
  gbuffer_open buffer byte_count byte_count false.
Definition bitmap_capacity (bm : bitmap) : Z := u32 (bytes_to_bits (gb_capacity bm)).

(** ** Single bits *)

Definition bitmap_at (m : mem) (bm : bitmap) (index : Z) : bool :=
  let ptr := gb_begin bm + bits_to_bytes_noround index in
  let index := index mod 8 in
  negb (Z.land (m ptr) (Z.shiftl 1 index) =? 0).

Definition bitmap_set (m : mem) (bm : bitmap) (index : Z) (value : bool) : mem :=
  let ptr := gb_begin bm + bits_to_bytes_noround index in
  let index := index mod 8 in
  upd m ptr (set_bits_for_mask 8 (m ptr) (Z.shiftl 1 index) value).

(** ** Ranges of bits *)

Definition bitmap_set_range (a : arch) (cbo_size : Z) (m : mem) (bm : bitmap) (r : range)
    (value : bool) : outcome mem :=
  let bit_index := front r in
  let ptr := gb_begin bm + bits_to_bytes_noround bit_index in
  let bits_left := size r in
  let first_byte_bit_index := bit_index mod 8 in
  '(m, ptr, bits_left) ←
    (if negb (first_byte_bit_index =? 0) then
       let first_byte_bit_count := Z.min bits_left (8 - first_byte_bit_index) in
       ones ← mask_for_n_bits first_byte_bit_count;
       let first_byte_mask := u8 (Z.shiftl ones first_byte_bit_index) in
       Ok (upd m ptr (set_bits_for_mask 8 (m ptr) first_byte_mask value),
           ptr + 1, bits_left - first_byte_bit_count)
     else Ok (m, ptr, bits_left));
  let memset_byte_count := bits_to_bytes_noround bits_left in
  '(m, ptr, bits_left) ←
    (if negb (memset_byte_count =? 0) then
       m ← (if value then '(m, _) ← memset_ones a m ptr memset_byte_count; Ok m
            else bzero a cbo_size m ptr memset_byte_count);
       Ok (m, ptr + memset_byte_count, u64 (bits_left - bytes_to_bits memset_byte_count))
     else Ok (m, ptr, bits_left));
  if negb (bits_left =? 0) then
    ones ← mask_for_n_bits bits_left;
    Ok (upd m ptr (set_bits_for_mask 8 (m ptr) ones value))
  else Ok m.

Definition bitmap_set_all (a : arch) (cbo_size : Z) (m : mem) (bm : bitmap) (value : bool)
    : outcome mem :=
  if value then '(m, _) ← memset_ones a m (gb_begin bm) (gb_capacity bm); Ok m
  else bzero a cbo_size m (gb_begin bm) (gb_capacity bm).

(** ** Finding one bit *)

(** [ITERATE_FOR_TYPE]: [find] is the scan of one word, [update] the store to the
    word when [invert] is set.  [inl]: the function returned. *)
Definition scan_state : Type := Z * Z * Z.

Fixpoint iterate_loop (fuel : nat) (sz : nat) (find : Z -> Z -> Z)
    (update : mem -> Z -> Z -> outcome mem) (m : mem) (end_ : Z) (invert : bool)
    (ptr start_index bit_index_of_ptr : Z) : outcome (Z * mem + scan_state) :=
  if distance ptr end_ <? Z.of_nat sz then Ok (inr (ptr, start_index, bit_index_of_ptr))
  else match fuel with
       | O => Diverge
       | S fuel =>
           let bit_index_in_word := find (load sz m ptr) start_index in
           if bit_index_in_word <? 8 * Z.of_nat sz then
             m ← (if invert then update m ptr bit_index_in_word else Ok m);
             Ok (inl (u64 (bit_index_in_word + bit_index_of_ptr), m))
           else iterate_loop fuel sz find update m end_ invert
                  (ptr + Z.of_nat sz) 0 (u64 (bit_index_of_ptr + 8 * Z.of_nat sz))
       end.

Definition iterate_for_type (sz : nat) (find : Z -> Z -> Z)
    (update : nat -> mem -> Z -> Z -> outcome mem) (m : mem) (end_ : Z) (invert : bool)
    (st : Z * mem + scan_state) : outcome (Z * mem + scan_state) :=
  match st with
  | inl r => Ok (inl r)
  | inr (ptr, start_index, bit_index_of_ptr) =>
      al ← has_align ptr (Z.of_nat sz);
      if al : bool then
        iterate_loop (Z.to_nat (distance ptr end_)) sz find (update sz) m end_ invert
          ptr start_index bit_index_of_ptr
      else Ok st
  end.

Definition find_single (find : Z -> Z -> Z) (update : nat -> mem -> Z -> Z -> outcome mem)
    (m : mem) (bm : bitmap) (start_index : Z) (invert : bool) : outcome (Z * mem) :=
  let begin := gb_begin bm in
  let end_ := gbuffer_end bm in
  let ptr := begin + bits_to_bytes_noround start_index in
  let start_index := start_index mod 8 in
  let bit_index_of_ptr := bytes_to_bits (distance begin ptr) in
  st ← iterate_for_type 8 find update m end_ invert (inr (ptr, start_index, bit_index_of_ptr));
  st ← iterate_for_type 4 find update m end_ invert st;
  st ← iterate_for_type 2 find update m end_ invert st;
  st ← iterate_for_type 1 find update m end_ invert st;
  match st with
  | inl r => Ok r
  | inr _ => Ok (BITMAP_INVALID, m)
  end.

(** The type's word with the bit or-ed in. *)
Definition update_set (sz : nat) (m : mem) (ptr bit_index : Z) : outcome mem :=
  Ok (store sz m ptr (Z.lor (load sz m ptr) (Z.shiftl 1 bit_index))).
(** The mask is an [int] shift: undefined from 32, negative at 31. *)
Definition update_unset (sz : nat) (m : mem) (ptr bit_index : Z) : outcome mem :=
  if bit_index <? 32 then
    Ok (store sz m ptr
          (rm_mask (8 * Z.of_nat sz) (load sz m ptr) (i32 (Z.shiftl 1 bit_index))))
  else Undef.

Definition find_single_unset (m : mem) (bm : bitmap) (start_index : Z) (set : bool) :=
  find_single find_lsb_zero_bit update_set m bm start_index set.
Definition find_single_set (m : mem) (bm : bitmap) (start_index : Z) (unset : bool) :=
  find_single find_lsb_one_bit update_unset m bm start_index unset.

(** ** Finding a run of bits

    [find_mult_unset] and [find_mult_set] have the same body up to the value
    [v] of the bits they look for. *)

Definition count_lsb_bits (v : bool) (w word : Z) : Z :=
  if v then count_lsb_one_bits w word 0 else count_lsb_zero_bits w word 0.
Definition first_rng (v : bool) (word start_index end_index : Z) : range :=
  if v then get_range_of_lsb_one_bits word start_index end_index
  else get_range_of_lsb_zero_bits word start_index end_index.
Definition next_rng (v : bool) (word : Z) (prev : range) (end_index : Z) : outcome range :=
  if v then get_next_range_of_lsb_one_bits word prev end_index
  else get_next_range_of_lsb_zero_bits word prev end_index.

(** How [for_each_lsb_*_bit_rng] is left: all runs seen, a short run that ends at
    the top of the word, or a run that is long enough. *)
Inductive rng_exit := RngNone | RngBreak (iter : range) | RngFound (iter : range).

Fixpoint rng_loop (fuel : nat) (v : bool) (word bits count : Z) (iter : range)
    : outcome rng_exit :=
  if range_empty iter then Ok RngNone
  else if size iter <? count then
    e ← range_get_end_assert iter;
    if e =? bits then Ok (RngBreak iter)
    else match fuel with
         | O => Diverge
         | S fuel => next ← next_rng v word iter bits; rng_loop fuel v word bits count next
         end
  else Ok (RngFound iter).

(** [ptr], [start_index], [current_range_start_index], [current_range_*_count]. *)
Definition mult_state : Type := Z * Z * Z * Z.

Section FindMult.
Context (a : arch) (cbo_size : Z).

(** [for_each_lsb_*_bit_rng] over the word at [ptr]: a return from the function,
    or the current range after the loop. *)
Definition for_each_rng (sz : nat) (v : bool) (m : mem) (bm : bitmap) (count : Z) (invert : bool)
    (ptr start_index cur_start cur_count : Z) : outcome (Z * mem + Z * Z) :=
  let word := load sz m ptr in
  let bits := 8 * Z.of_nat sz in
  ex ← rng_loop 64 v word bits count (first_rng v word start_index bits);
  match ex with
  | RngFound iter =>
      m ← (if invert then bitmap_set_range a cbo_size m bm (Range start_index count) (negb v)
           else Ok m);
      Ok (inl (u64 (bytes_to_bits (distance (gb_begin bm) ptr) + front iter), m))
  | RngBreak iter =>
      Ok (inr (u64 (bytes_to_bits (distance (gb_begin bm) ptr) + front iter), size iter))
  | RngNone => Ok (inr (cur_start, cur_count))
  end.

(** The body of the loop over words. *)
Definition ranges_body (sz : nat) (v : bool) (m : mem) (bm : bitmap) (count : Z) (invert : bool)
    (ptr start_index cur_start cur_count : Z) : outcome (Z * mem + Z * Z) :=
  let bits := 8 * Z.of_nat sz in
  if negb (cur_count =? 0) then
    let lsb_count := Z.min bits (count_lsb_bits v bits (load sz m ptr)) in
    if count <=? u64 (cur_count + lsb_count) then
      m ← (if invert then bitmap_set_range a cbo_size m bm (Range start_index count) (negb v)
           else Ok m);
      Ok (inl (cur_start, m))
    else if lsb_count =? bits then Ok (inr (cur_start, u64 (cur_count + lsb_count)))
    else for_each_rng sz v m bm count invert ptr lsb_count 0 0
  else for_each_rng sz v m bm count invert ptr start_index cur_start cur_count.

Fixpoint ranges_loop (fuel : nat) (sz : nat) (v : bool) (m : mem) (bm : bitmap) (count : Z)
    (invert : bool) (st : mult_state) : outcome (Z * mem + mult_state) :=
  let '(ptr, start_index, cur_start, cur_count) := st in
  if distance ptr (gbuffer_end bm) <? Z.of_nat sz then Ok (inr st)
  else match fuel with
  | O => Diverge
  | S fuel =>
      res ← ranges_body sz v m bm count invert ptr start_index cur_start cur_count;
      match res with
      | inl r => Ok (inl r)
      | inr (cur_start, cur_count) =>
          ranges_loop fuel sz v m bm count invert (ptr + Z.of_nat sz, 0, cur_start, cur_count)
      end
  end.

Definition ranges_for_type (sz : nat) (v : bool) (m : mem) (bm : bitmap) (count : Z)
    (invert : bool) (st : Z * mem + mult_state) : outcome (Z * mem + mult_state) :=
  match st with
  | inl r => Ok (inl r)
  | inr (ptr, start_index, cur_start, cur_count) =>
      al ← has_align ptr (Z.of_nat sz);
      if al : bool then
        ranges_loop (Z.to_nat (distance ptr (gbuffer_end bm))) sz v m bm count invert
          (ptr, start_index, cur_start, cur_count)
      else Ok st
  end.

Definition find_mult (v : bool) (m : mem) (bm : bitmap) (count start_index : Z) (invert : bool)
    : outcome (Z * mem) :=
  let ptr := gb_begin bm + bits_to_bytes_noround start_index in
  let start_index := start_index mod 8 in
  st ← ranges_for_type 8 v m bm count invert (inr (ptr, start_index, 0, 0));
  st ← ranges_for_type 4 v m bm count invert st;
  st ← ranges_for_type 2 v m bm count invert st;
  st ← ranges_for_type 1 v m bm count invert st;
  match st with
  | inl r => Ok r
  | inr _ => Ok (BITMAP_INVALID, m)
  end.
Definition find_mult_unset := find_mult false.
Definition find_mult_set := find_mult true.

Definition bitmap_find (m : mem) (bm : bitmap) (count start_idx : Z) (expected_value invert : bool)
    : outcome (Z * mem) :=
  if negb (count =? 1) then
    if expected_value then find_mult_set m bm count start_idx invert
    else find_mult_unset m bm count start_idx invert
  else if expected_value then find_single_set m bm start_idx invert
  else find_single_unset m bm start_idx invert.

(** ** [bitmap_has] *)

(** [CHECK_MEMBUF_ALL_BITS_OF_VALUE]: the bits left to check, or the value
    returned.  [ptr] is not advanced; [word_count] is 8-bit. *)
Definition check_membuf (sz : nat) (m : mem) (ptr : Z) (value : bool) (st : bool + Z)
    : outcome (bool + Z) :=
  match st with
  | inl r => Ok (inl r)
  | inr count =>
      al ← has_align ptr (Z.of_nat sz);
      if al : bool then
        let word_count := u8 (bits_to_bytes_noround count / Z.of_nat sz) in
        if negb (word_count =? 0) then
          let c := if value then 2 ^ (8 * Z.of_nat sz) - 1 else 0 in
          all ← match sz with
                | 8%nat => membuf64_is_all a m ptr word_count c
                | 4%nat => membuf32_is_all a m ptr word_count c
                | 2%nat => Ok (membuf16_is_all m ptr word_count c)
                | _ => Ok (membuf8_is_all m ptr word_count c)
                end;
          if negb all then Ok (inl false)
          else let count := u64 (count - bytes_to_bits (Z.of_nat sz * word_count)) in
               if count =? 0 then Ok (inl true) else Ok (inr count)
        else Ok st
      else Ok st
  end.

Definition bitmap_has (m : mem) (bm : bitmap) (r : range) (value : bool) : outcome bool :=
  _ ← c_assert (negb (range_empty r));
  _ ← c_assert (index_range_in_bounds r (bitmap_capacity bm));
  let ptr := gb_begin bm + bits_to_bytes_noround (front r) in
  let count := size r in
  let single_byte_value_bits := if value then UINT8_MAX else 0 in
  let first_byte_bit_index := front r mod 8 in
  '(st, ptr) ←
    (if negb (first_byte_bit_index =? 0) then
       let first_byte_shifted := Z.shiftr (m ptr) first_byte_bit_index in
       let first_byte_bits_count := Z.min (size r) (8 - first_byte_bit_index) in
       ones ← mask_for_n_bits first_byte_bits_count;
       let first_byte_bits := u8 (Z.land first_byte_shifted ones) in
       let first_byte_expected := u8 (Z.land single_byte_value_bits ones) in
       if negb (first_byte_bits =? first_byte_expected) then Ok (inl false, ptr)
       else let count := count - first_byte_bits_count in
            if count =? 0 then Ok (inl true, ptr) else Ok (inr count, ptr + 1)
     else Ok (inr count, ptr));
  st ← check_membuf 8 m ptr value st;
  st ← check_membuf 4 m ptr value st;
  st ← check_membuf 2 m ptr value st;
  st ← check_membuf 1 m ptr value st;
  match st with
  | inl b => Ok b
  | inr count =>
      ones ← mask_for_n_bits count;
      Ok (u8 (Z.land (m ptr) ones) =? u8 (Z.land single_byte_value_bits ones))
  end.

End FindMult.

(** ** Bits of a bitmap *)

Definition bm_bit (m : mem) (bm : bitmap) (i : Z) : bool :=
  Z.testbit (m (gb_begin bm + i / 8)) (i mod 8).

Definition bm_wf (bm : bitmap) : Prop :=
  0 <= gb_begin bm /\ 0 <= gb_capacity bm < 2 ^ 31 /\ gb_begin bm + gb_capacity bm < 2 ^ 64.

(** The number of bits. *)
Definition bm_bits (bm : bitmap) : Z := 8 * gb_capacity bm.

(** [m'] is [m] with the [n] bits from [lo] set to [v]; all other memory, in the
    bitmap or not, is unchanged. *)
Definition bits_set (m m' : mem) (bm : bitmap) (lo n : Z) (v : bool) : Prop :=
  forall i, bm_bit m' bm i = if within lo n i then v else bm_bit m bm i.

Lemma bits_set_nil m bm lo v : bits_set m m bm lo 0 v.
Proof. intros i. wcase; [lia|reflexivity]. Qed.

Lemma bits_set_app m m1 m2 bm lo a b v : 0 <= a -> 0 <= b ->
  bits_set m m1 bm lo a v -> bits_set m1 m2 bm (lo + a) b v -> bits_set m m2 bm lo (a + b) v.
Proof. intros Ha Hb H1 H2 i. rewrite H2, H1. wcase; try lia; reflexivity. Qed.

(** Equal bits mean equal bytes: a byte none of whose bits is in the range is
    unchanged. *)
Lemma bits_set_frame m m' bm lo n v x : mem_ok m -> mem_ok m' -> bits_set m m' bm lo n v ->
  (forall k, 0 <= k < 8 -> within lo n (8 * (x - gb_begin bm) + k) = false) -> m' x = m x.
Proof.
  intros Hm Hm' B H. apply (testbit_ext 8); [apply Hm'|apply Hm|]. intros k Hk.
  specialize (B (8 * (x - gb_begin bm) + k)). rewrite H in B by lia.
  unfold bm_bit in B.
  replace (gb_begin bm + (8 * (x - gb_begin bm) + k) / 8) with x in B by dlia.
  replace ((8 * (x - gb_begin bm) + k) mod 8) with k in B by dlia. exact B.
Qed.

(** Updating the byte [q] with a mask of the bits [[k, k + n)]. *)
Lemma byte_bits_set m bm q k n mask v : mem_ok m -> 0 <= k -> 0 <= n -> k + n <= 8 ->
  (forall i, 0 <= i < 8 -> Z.testbit mask i = within k n i) ->
  let m' := upd m (gb_begin bm + q) (set_bits_for_mask 8 (m (gb_begin bm + q)) mask v) in
  bits_set m m' bm (8 * q + k) n v /\ mem_ok m'.
Proof.
  intros Hm Hk Hn Hkn HM m'. split.
  - intros i. unfold m', bm_bit, upd.
    destruct (Z.eqb_spec (gb_begin bm + i / 8) (gb_begin bm + q)) as [E|E].
    + rewrite set_bits_for_mask_testbit, HM by dlia. rewrite E.
      wcase; try dlia; reflexivity.
    + wcase; [dlia|reflexivity].
  - intros x. unfold m', upd. destruct (x =? gb_begin bm + q); [|apply Hm].
    apply set_bits_for_mask_bound; [lia|apply Hm].
Qed.

(** A filled region of bytes. *)
Lemma filled_bits_set m m' bm q n (v : bool) : mem_ok m -> 0 <= n ->
  filled m m' (gb_begin bm + q) n (if v then 255 else 0) ->
  bits_set m m' bm (8 * q) (8 * n) v /\ mem_ok m'.
Proof.
  intros Hm Hn F. split.
  - intros i. unfold bm_bit. rewrite F. wcase; try dlia; [|reflexivity].
    destruct v; [|apply Z.bits_0]. change 255 with (Z.ones 8).
    apply Z.ones_spec_low. dlia.
  - eapply filled_ok; [exact Hm| |exact F]. destruct v; unfold is_u; lia.
Qed.

Lemma ones_shift_within k n i : 0 <= k -> 0 <= n -> 0 <= i < 8 ->
  Z.testbit (u8 (Z.shiftl (Z.ones n) k)) i = within k n i.
Proof.
  intros Hk Hn Hi. rewrite wrap_testbit, Z.shiftl_spec by lia.
  destruct (Z.ltb_spec i 8); [|lia]. cbn [andb].
  rewrite Z.testbit_ones by lia. unfold within.
  destruct (Z.leb_spec 0 (i - k)), (Z.ltb_spec (i - k) n), (Z.leb_spec k i), (Z.ltb_spec i (k + n));
    try lia; reflexivity.
Qed.

(** ** [bitmap_set_range] *)

Section SetRange.
Context (a : arch) (cbo_size : Z) (Hcbo : cbo_size = 0 \/ pow2_64 cbo_size).

Lemma set_bytes_spec m bm q n (v : bool) : mem_ok m -> 0 <= n ->
  exists m', (if v then '(m, _) ← memset_ones a m (gb_begin bm + q) n; Ok m
              else bzero a cbo_size m (gb_begin bm + q) n) = Ok m' /\
    bits_set m m' bm (8 * q) (8 * n) v /\ mem_ok m'.
Proof.
  intros Hm Hn. destruct v.
  - destruct (memset_ones_spec a m (gb_begin bm + q) n Hn) as (m' & -> & F).
    exists m'. split; [reflexivity|]. apply filled_bits_set; auto.
  - destruct (bzero_spec a cbo_size m (gb_begin bm + q) n Hn Hcbo) as (m' & -> & F).
    exists m'. split; [reflexivity|]. apply filled_bits_set; auto.
Qed.

(** The whole bytes and the last bits, from the byte [q]. *)
Lemma set_tail_spec m bm q left (v : bool) : mem_ok m -> 0 <= left < 2 ^ 63 ->
  exists m', ('(m, ptr, bits_left) ←
      (if negb (bits_to_bytes_noround left =? 0) then
         m ← (if v then '(m, _) ← memset_ones a m (gb_begin bm + q) (bits_to_bytes_noround left); Ok m
              else bzero a cbo_size m (gb_begin bm + q) (bits_to_bytes_noround left));
         Ok (m, gb_begin bm + q + bits_to_bytes_noround left,
             u64 (left - bytes_to_bits (bits_to_bytes_noround left)))
       else Ok (m, gb_begin bm + q, left));
    if negb (bits_left =? 0) then
      ones ← mask_for_n_bits bits_left;
      Ok (upd m ptr (set_bits_for_mask 8 (m ptr) ones v))
    else Ok m) = Ok m' /\ bits_set m m' bm (8 * q) left v /\ mem_ok m'.
Proof.
  intros Hm Hl. unfold bits_to_bytes_noround.
  assert (S1 : exists m1, (if negb (left / 8 =? 0) then
         m ← (if v then '(m, _) ← memset_ones a m (gb_begin bm + q) (left / 8); Ok m
              else bzero a cbo_size m (gb_begin bm + q) (left / 8));
         Ok (m, gb_begin bm + q + left / 8, u64 (left - bytes_to_bits (left / 8)))
       else Ok (m, gb_begin bm + q, left)) = Ok (m1, gb_begin bm + (q + left / 8), left mod 8) /\
     bits_set m m1 bm (8 * q) (8 * (left / 8)) v /\ mem_ok m1).
  { destruct (Z.eqb_spec (left / 8) 0) as [E|E]; cbn [negb].
    - exists m. rewrite E. split; [tuple_eq; dlia|]. split; [apply bits_set_nil|auto].
    - destruct (set_bytes_spec m bm q (left / 8) v Hm ltac:(dlia)) as (m1 & -> & B & Hm1).
      exists m1. cbn [mbind outcome_bind]. split; [|auto]. unfold bytes_to_bits.
      rewrite (wrap_small 64 (left / 8 * 8)) by (unfold is_u; dlia).
      rewrite wrap_small by (unfold is_u; dlia). tuple_eq; dlia. }
  destruct S1 as (m1 & -> & B1 & Hm1). cbn [mbind outcome_bind].
  assert (EL : left = 8 * (left / 8) + left mod 8) by dlia.
  destruct (Z.eqb_spec (left mod 8) 0) as [E|E]; cbn [negb].
  - exists m1. split; [reflexivity|]. split; [|exact Hm1]. rewrite EL, E, Z.add_0_r. exact B1.
  - rewrite mask_for_n_bits_ones by dlia. cbn [mbind outcome_bind].
    destruct (byte_bits_set m1 bm (q + left / 8) 0 (left mod 8) (Z.ones (left mod 8)) v)
      as [B2 Hm2]; auto; try dlia.
    { intros i Hi. rewrite Z.testbit_ones by dlia. unfold within. rewrite Z.add_0_l. reflexivity. }
    eexists. split; [reflexivity|]. split; [|exact Hm2]. set (m2 := upd m1 _ _) in *. rewrite EL.
    eapply bits_set_app; [dlia|dlia|exact B1|].
    replace (8 * q + 8 * (left / 8)) with (8 * (q + left / 8) + 0) by lia. exact B2.
Qed.

Lemma set_range_spec m bm r v : mem_ok m -> 0 <= front r -> 0 < size r < 2 ^ 63 ->
  exists m', bitmap_set_range a cbo_size m bm r v = Ok m' /\
    bits_set m m' bm (front r) (size r) v /\ mem_ok m'.
Proof.
  intros Hm Hf Hs. unfold bitmap_set_range.
  replace (bits_to_bytes_noround (front r)) with (front r / 8) by reflexivity.
  destruct (Z.eqb_spec (front r mod 8) 0) as [E|E]; cbn [negb].
  - cbn [mbind outcome_bind].
    destruct (set_tail_spec m bm (front r / 8) (size r) v Hm ltac:(lia)) as (m' & -> & B & Hm').
    exists m'. split; [reflexivity|]. split; [|exact Hm'].
    replace (front r) with (8 * (front r / 8)) by dlia. exact B.
  - set (n := Z.min (size r) (8 - front r mod 8)).
    rewrite mask_for_n_bits_ones by (unfold n; dlia). cbn [mbind outcome_bind].
    destruct (byte_bits_set m bm (front r / 8) (front r mod 8) n
                (u8 (Z.shiftl (Z.ones n) (front r mod 8))) v) as [B1 Hm1]; auto;
      try (unfold n; dlia).
    { intros i Hi. apply ones_shift_within; unfold n; dlia. }
    set (m1 := upd m _ _) in *.
    destruct (set_tail_spec m1 bm (front r / 8 + 1) (size r - n) v Hm1) as (m2 & E2 & B2 & Hm2).
    { unfold n. dlia. }
    replace (gb_begin bm + (front r / 8 + 1)) with (gb_begin bm + front r / 8 + 1) in E2 by lia.
    rewrite E2. exists m2. split; [reflexivity|]. split; [|exact Hm2].
    replace (size r) with (n + (size r - n)) by lia.
    replace (front r) with (8 * (front r / 8) + front r mod 8) at 1 by dlia.
    eapply bits_set_app; [unfold n; dlia|unfold n; dlia|exact B1|].
    destruct (Z.eq_dec (size r - n) 0) as [Ez|Hz].
    + rewrite Ez in *. intros i. rewrite B2. wcase; try lia; reflexivity.
    + replace (8 * (front r / 8) + front r mod 8 + n) with (8 * (front r / 8 + 1)); [exact B2|].
      unfold n in *. dlia.
Qed.

End SetRange.

(** [bitmap_set_range] gives every bit of the range the value and leaves
    every other bit of the bitmap and every byte that holds no bit of the
    range as it was, for any alignment of the range, on every architecture. *)
Theorem bitmap_set_range_bits a cbo_size m bm r v :
  cbo_size = 0 \/ pow2_64 cbo_size -> mem_ok m -> 0 <= front r -> 0 < size r < 2 ^ 63 ->
  exists m', bitmap_set_range a cbo_size m bm r v = Ok m' /\
    (forall i, bm_bit m' bm i = if within (front r) (size r) i then v else bm_bit m bm i) /\
    (forall x, (forall k, 0 <= k < 8 -> ~ in_range r (8 * (x - gb_begin bm) + k)) -> m' x = m x).
Proof.
  intros Hc Hm Hf Hs. destruct (set_range_spec a cbo_size Hc m bm r v) as (m' & E & B & Hm'); auto.
  exists m'. split; [exact E|]. split; [exact B|]. intros x Hx.
  eapply bits_set_frame; eauto. intros k Hk. specialize (Hx k Hk).
  unfold in_range in Hx. wcase; [lia|reflexivity].
Qed.

Lemma bitmap_set_range_bits_witness :
  exists m', bitmap_set_range x86_64 0 (fun _ => 0) (GB 64 4 4 false) (Range 3 18) true = Ok m' /\
    (forall i, bm_bit m' (GB 64 4 4 false) i =
       if within 3 18 i then true else bm_bit (fun _ => 0) (GB 64 4 4 false) i) /\
    (forall x, (forall k, 0 <= k < 8 -> ~ in_range (Range 3 18) (8 * (x - 64) + k)) -> m' x = 0).
Proof.
  apply (bitmap_set_range_bits x86_64 0 (fun _ => 0) (GB 64 4 4 false) (Range 3 18) true);
    cbn; auto with lia. intros x. unfold is_u. lia.
Defined.

Lemma land_shiftl_1 b k : 0 <= k -> negb (Z.land b (Z.shiftl 1 k) =? 0) = Z.testbit b k.
Proof.
  intros Hk. destruct (Z.testbit b k) eqn:E.
  - apply negb_true_iff. apply Z.eqb_neq. intros H.
    assert (Z.testbit (Z.land b (Z.shiftl 1 k)) k = true) as H'.
    { rewrite Z.land_spec, E, Z.shiftl_spec, Z.sub_diag by lia. reflexivity. }
    rewrite H, Z.bits_0 in H'. discriminate.
  - apply negb_false_iff. apply Z.eqb_eq. apply Z.bits_inj'. intros i Hi.
    rewrite Z.land_spec, Z.shiftl_spec, Z.bits_0 by lia.
    destruct (Z.eq_dec i k) as [->|]; [rewrite E; reflexivity|].
    replace (Z.testbit 1 (i - k)) with false; [apply andb_false_r|].
    destruct (Z.lt_ge_cases i k); [symmetry; apply Z.testbit_neg_r; lia|].
    symmetry. change 1 with (Z.ones 1). apply Z.ones_spec_high. lia.
Qed.

Lemma bitmap_at_bit m bm i : bitmap_at m bm i = bm_bit m bm i.
Proof. unfold bitmap_at, bm_bit, bits_to_bytes_noround. apply land_shiftl_1. dlia. Qed.

(** [bitmap_set] writes the bit that [bitmap_at] reads, and only it: reading
    any bit after a write gives the written value at that index and the
    former value elsewhere. *)
Theorem bitmap_at_set m bm i v : mem_ok m ->
  mem_ok (bitmap_set m bm i v) /\
  forall j, bitmap_at (bitmap_set m bm i v) bm j = if j =? i then v else bitmap_at m bm j.
Proof.
  intros Hm. unfold bitmap_set, bits_to_bytes_noround.
  destruct (byte_bits_set m bm (i / 8) (i mod 8) 1 (Z.shiftl 1 (i mod 8)) v) as [B Hm']; auto; try dlia.
  { intros k Hk. rewrite Z.shiftl_spec by lia. change 1 with (Z.ones 1) at 1.
    rewrite Z.testbit_ones by lia. unfold within.
    destruct (Z.leb_spec 0 (k - i mod 8)), (Z.ltb_spec (k - i mod 8) 1),
      (Z.leb_spec (i mod 8) k), (Z.ltb_spec k (i mod 8 + 1)); try lia; reflexivity. }
  split; [exact Hm'|]. intros j. rewrite !bitmap_at_bit, B.
  destruct (Z.eqb_spec j i); wcase; try dlia; reflexivity.
Qed.

Lemma bitmap_at_set_witness :
  mem_ok (bitmap_set (fun _ => 0) (GB 64 4 4 false) 13 true) /\
  forall j, bitmap_at (bitmap_set (fun _ => 0) (GB 64 4 4 false) 13 true) (GB 64 4 4 false) j =
    if j =? 13 then true else bitmap_at (fun _ => 0) (GB 64 4 4 false) j.
Proof. apply (bitmap_at_set (fun _ => 0) (GB 64 4 4 false) 13 true). intros x. unfold is_u. lia. Defined.

(** ** The scans *)

Lemma load_bm_bit sz m bm ptr i : mem_ok m -> 0 <= i < 8 * Z.of_nat sz ->
  Z.testbit (load sz m ptr) i = bm_bit m bm (8 * (ptr - gb_begin bm) + i).
Proof.
  intros Hm Hi. rewrite load_testbit by auto. unfold bm_bit.
  f_equal; [f_equal; dlia|dlia].
Qed.

Lemma load_u64 sz m ptr : mem_ok m -> (sz <= 8)%nat -> is_u64 (load sz m ptr).
Proof.
  intros Hm Hs. pose proof (load_bound sz m ptr Hm).
  assert (256 ^ Z.of_nat sz <= 256 ^ 8) by (apply Z.pow_le_mono_r; lia).
  change (256 ^ 8) with (2 ^ 64) in *. unfold is_u. lia.
Qed.

Lemma bm_distance bm ptr : bm_wf bm -> gb_begin bm <= ptr <= gbuffer_end bm ->
  distance ptr (gbuffer_end bm) = gbuffer_end bm - ptr /\
  bytes_to_bits (distance (gb_begin bm) ptr) = 8 * (ptr - gb_begin bm) /\
  0 <= 8 * (ptr - gb_begin bm) <= bm_bits bm.
Proof.
  intros (? & ? & ?) Hp. unfold gbuffer_end, distance, bytes_to_bits, bm_bits in *.
  rewrite !(wrap_small 64 (_ - _)) by (unfold is_u; lia).
  rewrite wrap_small by (unfold is_u; lia). lia.
Qed.

Section FindSingle.
Context (m : mem) (bm : bitmap) (Hm : mem_ok m) (Hbm : bm_wf bm).
Context (v : bool) (s0 : Z) (invert : bool) (update : nat -> mem -> Z -> Z -> outcome mem).

(** What a store to the found bit must do. *)
Hypothesis Hupd : invert = true -> forall sz ptr b,
  0 <= b < 8 * Z.of_nat sz -> Z.testbit (load sz m ptr) b = v ->
  exists m', update sz m ptr b = Ok m' /\
    bits_set m m' bm (8 * (ptr - gb_begin bm) + b) 1 (negb v).

(** Every bit from [s0] up to [n] has the other value. *)
Definition none_before (n : Z) : Prop := forall i, s0 <= i < n -> bm_bit m bm i = negb v.

Definition scan_inv (st : scan_state) : Prop :=
  let '(ptr, start_index, bip) := st in
  gb_begin bm <= ptr <= gbuffer_end bm /\ 0 <= start_index < 8 /\
  bip = 8 * (ptr - gb_begin bm) /\ s0 <= bip + start_index /\ none_before (bip + start_index).

Definition found (r : Z) (m' : mem) : Prop :=
  s0 <= r < bm_bits bm /\ bm_bit m bm r = v /\ none_before r /\
  if invert then bits_set m m' bm r 1 (negb v) else m' = m.

Definition scan_post (left : Z) (res : Z * mem + scan_state) : Prop :=
  match res with
  | inl (r, m') => found r m'
  | inr st => scan_inv st /\ gbuffer_end bm - st.1.1 < left
  end.

Lemma iterate_loop_spec fuel sz ptr start_index bip : (0 < sz <= 8)%nat ->
  scan_inv (ptr, start_index, bip) -> (Z.to_nat (gbuffer_end bm - ptr) <= fuel)%nat ->
  exists res, iterate_loop fuel sz (find_lsb_bit v) (update sz) m (gbuffer_end bm) invert
      ptr start_index bip = Ok res /\ scan_post (Z.of_nat sz) res.
Proof.
  intros Hsz. revert ptr start_index bip.
  induction fuel as [|fuel IH]; intros ptr st bip I Hf;
    pose proof I as (Hp & Hst & Eb & Hs0 & N);
    destruct (bm_distance bm ptr Hbm Hp) as (D1 & D2 & D3);
    cbn [iterate_loop]; rewrite D1; destruct (Z.ltb_spec (gbuffer_end bm - ptr) (Z.of_nat sz));
    try lia; try (eexists; split; [reflexivity|]; split; [exact I|cbn; lia]).
  destruct (find_lsb_bit_spec v (load sz m ptr) st) as (F1 & F2 & F3);
    [apply load_u64; auto; lia|lia|].
  set (b := find_lsb_bit v (load sz m ptr) st) in *.
  assert (NB : none_before (bip + Z.min b (8 * Z.of_nat sz))).
  { intros i Hi. destruct (Z.lt_ge_cases i (bip + st)); [apply N; lia|].
    replace i with (8 * (ptr - gb_begin bm) + (i - bip)) by lia.
    rewrite <- (load_bm_bit sz) by (auto || lia). apply F2. lia. }
  assert (HE : bm_bits bm = 8 * (gbuffer_end bm - gb_begin bm)) by (unfold bm_bits, gbuffer_end; lia).
  assert (HB : bm_bits bm < 2 ^ 35) by (unfold bm_bits; destruct Hbm; lia).
  destruct (Z.ltb_spec b (8 * Z.of_nat sz)) as [Hb|Hb].
  - rewrite Z.min_l in NB by lia. specialize (F3 ltac:(lia)).
    assert (Ebit : bm_bit m bm (bip + b) = v).
    { rewrite Eb, <- (load_bm_bit sz) by (auto || lia). exact F3. }
    rewrite (wrap_small 64 (b + bip)) by (unfold is_u; lia). rewrite (Z.add_comm b bip).
    assert (Hr : s0 <= bip + b < bm_bits bm) by lia.
    destruct invert eqn:EI; cbn [mbind outcome_bind].
    + destruct (Hupd eq_refl sz ptr b) as (m' & -> & B); [lia|exact F3|].
      rewrite <- Eb in B. eexists; split; [reflexivity|].
      split; [exact Hr|]. split; [exact Ebit|]. split; [exact NB|].
      destruct invert; [exact B|discriminate].
    + eexists; split; [reflexivity|]. split; [exact Hr|]. split; [exact Ebit|].
      split; [exact NB|]. destruct invert; [discriminate|reflexivity].
  - rewrite Z.min_r in NB by lia. rewrite wrap_small by (unfold is_u; lia).
    apply IH; [|lia]. split; [lia|]. split; [lia|]. split; [lia|].
    rewrite Z.add_0_r. split; [lia|exact NB].
Qed.

Lemma iterate_for_type_spec sz k st : (sz = 1 \/ sz = 2 \/ sz = 4 \/ sz = 8)%nat ->
  scan_post k st ->
  exists res, iterate_for_type sz (find_lsb_bit v) update m (gbuffer_end bm) invert st = Ok res /\
    exists k', scan_post k' res /\ (sz = 1%nat -> k' = 1).
Proof.
  intros Hsz P. destruct st as [[r m']|[[ptr st] bip]]; cbn [iterate_for_type].
  - exists (inl (r, m')). split; [reflexivity|]. exists 1. auto.
  - destruct P as [I L]. pose proof I as (Hp & _).
    destruct (bm_distance bm ptr Hbm Hp) as (D1 & _).
    assert (pow2_64 (Z.of_nat sz)) as P2.
    { destruct Hsz as [->|[->|[->| ->]]]; [exists 0|exists 1|exists 2|exists 3]; cbn; lia. }
    rewrite has_align_pow2 by exact P2. cbn [mbind outcome_bind].
    destruct (Z.eqb_spec (ptr mod Z.of_nat sz) 0) as [E|E].
    + destruct (iterate_loop_spec (Z.to_nat (distance ptr (gbuffer_end bm))) sz ptr st bip)
        as (res & -> & R); [lia|exact I|lia|].
      exists res. split; [reflexivity|]. exists (Z.of_nat sz). split; [exact R|]. intros ->; reflexivity.
    + eexists; split; [reflexivity|]. exists k. split; [split; [exact I|exact L]|].
      intros ->. rewrite Z.mod_1_r in E. lia.
Qed.

Lemma find_single_spec : 0 <= s0 <= bm_bits bm ->
  exists r m', find_single (find_lsb_bit v) update m bm s0 invert = Ok (r, m') /\
    (found r m' \/ (r = BITMAP_INVALID /\ m' = m /\ none_before (bm_bits bm))).
Proof.
  intros Hs. unfold find_single, bits_to_bytes_noround.
  assert (Hp : gb_begin bm <= gb_begin bm + s0 / 8 <= gbuffer_end bm).
  { unfold gbuffer_end, bm_bits in *. dlia. }
  destruct (bm_distance bm _ Hbm Hp) as (D1 & D2 & D3). rewrite D2.
  assert (P0 : scan_post (gbuffer_end bm - gb_begin bm + 1)
    (inr (gb_begin bm + s0 / 8, s0 mod 8, 8 * (gb_begin bm + s0 / 8 - gb_begin bm)))).
  { split; [|cbn [fst snd]; lia]. split; [exact Hp|]. split; [dlia|]. split; [lia|].
    split; [dlia|]. intros i Hi. dlia. }
  destruct (iterate_for_type_spec 8 _ _ ltac:(auto) P0) as (r1 & -> & k1 & P1 & _).
  cbn [mbind outcome_bind].
  destruct (iterate_for_type_spec 4 _ _ ltac:(auto) P1) as (r2 & -> & k2 & P2 & _).
  cbn [mbind outcome_bind].
  destruct (iterate_for_type_spec 2 _ _ ltac:(auto) P2) as (r3 & -> & k3 & P3 & _).
  cbn [mbind outcome_bind].
  destruct (iterate_for_type_spec 1 _ _ ltac:(auto) P3) as (r4 & -> & k4 & P4 & K).
  cbn [mbind outcome_bind]. specialize (K eq_refl). subst k4.
  destruct r4 as [[r m']|[[ptr st] bip]].
  - exists r, m'. split; [reflexivity|]. left. exact P4.
  - eexists _, m. split; [reflexivity|]. right. split; [reflexivity|]. split; [reflexivity|].
    destruct P4 as [(Hp4 & Hst & Eb & _ & N) L]. cbn in L.
    intros i Hi. apply N. unfold bm_bits, gbuffer_end in *. lia.
Qed.

End FindSingle.

Lemma update_set_spec m bm sz ptr b : mem_ok m -> 0 <= b < 8 * Z.of_nat sz ->
  exists m', update_set sz m ptr b = Ok m' /\
    bits_set m m' bm (8 * (ptr - gb_begin bm) + b) 1 true.
Proof.
  intros Hm Hb. eexists. split; [reflexivity|]. intros i. unfold bm_bit at 1.
  rewrite store_testbit by dlia. destruct (within_reflect ptr (Z.of_nat sz) (gb_begin bm + i / 8)) as [W|W].
  - set (k := 8 * (gb_begin bm + i / 8 - ptr) + i mod 8).
    assert (Ek : i = 8 * (ptr - gb_begin bm) + k) by (unfold k; dlia).
    assert (Hk : 0 <= k < 8 * Z.of_nat sz) by (unfold k; dlia).
    rewrite Z.lor_spec, Z.shiftl_spec, (load_bm_bit sz m bm ptr k), <- Ek by (auto || lia).
    wcase.
    + replace (k - b) with 0 by lia. apply orb_true_r.
    + replace (Z.testbit 1 (k - b)) with false; [apply orb_false_r|].
      symmetry. change 1 with (Z.ones 1). rewrite Z.testbit_ones by lia.
      destruct (Z.leb_spec 0 (k - b)), (Z.ltb_spec (k - b) 1); try lia; reflexivity.
  - wcase; [exfalso; dlia|reflexivity].
Qed.

(** C29: [bitmap_find] for one bit returns the least index at or after the start
    whose bit has the expected value, and [BITMAP_INVALID] exactly when there
    is none; the scan over 64, 32, 16 and 8-bit words misses no bit at any
    alignment.  With [invert], a search for a clear bit sets that bit and no
    other. *)
Theorem bitmap_find_one a cbo_size m bm start v invert :
  mem_ok m -> bm_wf bm -> 0 <= start <= bm_bits bm -> v && invert = false ->
  exists r m', bitmap_find a cbo_size m bm 1 start v invert = Ok (r, m') /\
    ((start <= r < bm_bits bm /\ bm_bit m bm r = v /\
        (forall i, start <= i < r -> bm_bit m bm i = negb v) /\
        (forall i, bm_bit m' bm i = if invert && (i =? r) then negb v else bm_bit m bm i)) \/
     (r = BITMAP_INVALID /\ m' = m /\
        forall i, start <= i < bm_bits bm -> bm_bit m bm i = negb v)).
Proof.
  intros Hm Hbm Hs Hv.
  assert (E : bitmap_find a cbo_size m bm 1 start v invert =
    find_single (find_lsb_bit v) (if v then update_unset else update_set) m bm start invert)
    by (destruct v; reflexivity).
  rewrite E. clear E.
  destruct (find_single_spec m bm Hm Hbm v start invert (if v then update_unset else update_set))
    as (r & m' & -> & F); [|exact Hs|].
  { intros -> sz ptr b Hb _. destruct v; [discriminate|]. apply update_set_spec; auto. }
  exists r, m'. split; [reflexivity|]. destruct F as [(R & B & N & U)|F]; [left|right; exact F].
  split; [exact R|]. split; [exact B|]. split; [exact N|]. intros i.
  destruct invert; cbn [andb]; [|subst m'; reflexivity].
  rewrite U. destruct (Z.eqb_spec i r); wcase; try lia; reflexivity.
Qed.

Lemma bitmap_find_one_witness :
  exists r m', bitmap_find x86_64 0 (mem_of 65 (repeat 255 10)) (GB 65 12 12 false) 1 3 false true = Ok (r, m') /\
    ((3 <= r < 96 /\ bm_bit (mem_of 65 (repeat 255 10)) (GB 65 12 12 false) r = false /\
        (forall i, 3 <= i < r -> bm_bit (mem_of 65 (repeat 255 10)) (GB 65 12 12 false) i = true) /\
        (forall i, bm_bit m' (GB 65 12 12 false) i =
           if true && (i =? r) then true else bm_bit (mem_of 65 (repeat 255 10)) (GB 65 12 12 false) i)) \/
     (r = BITMAP_INVALID /\ m' = mem_of 65 (repeat 255 10) /\
        forall i, 3 <= i < 96 -> bm_bit (mem_of 65 (repeat 255 10)) (GB 65 12 12 false) i = true)).
Proof.
  apply (bitmap_find_one x86_64 0 (mem_of 65 (repeat 255 10)) (GB 65 12 12 false) 3 false true).
  - apply mem_of_ok. unfold is_u. repeat constructor; lia.
  - unfold bm_wf; cbn; lia.
  - unfold bm_bits; cbn; lia.
  - reflexivity.
Defined.

(** Searching for a set bit with [invert] goes wrong above bit 31 of a word: the
    mask is an [int] shift. *)
Lemma find_single_set_unset_undefined :
  find_single_set (mem_of 64 [0; 0; 0; 0; 1; 0; 0; 0]) (GB 64 8 8 false) 0 true = Undef.
Proof. reflexivity. Qed.

(** ** Runs of bits *)

Section FindMult.
Context (m : mem) (bm : bitmap) (Hm : mem_ok m) (Hbm : bm_wf bm).
Context (a : arch) (cbo_size : Z) (v : bool) (s0 count : Z) (Hcount : 0 <= count).

(** The bits [[i, i + n)] exist, start at or after [s0] and have value [v]. *)
Definition run (i n : Z) : Prop :=
  s0 <= i /\ i + n <= bm_bits bm /\ forall j, i <= j < i + n -> bm_bit m bm j = v.

Definition mult_inv (st : mult_state) : Prop :=
  let '(ptr, start_index, cs, cc) := st in
  gb_begin bm <= ptr <= gbuffer_end bm /\ 0 <= start_index < 8 /\
  s0 <= 8 * (ptr - gb_begin bm) + start_index /\
  0 <= cc /\ (cc <> 0 -> 0 <= cs /\ cs + cc = 8 * (ptr - gb_begin bm) /\ run cs cc).

Definition mult_post (res : Z * mem + mult_state) : Prop :=
  match res with
  | inl (r, m') => run r count /\ m' = m
  | inr st => mult_inv st
  end.

Lemma first_rng_sound sz ptr s : (0 < sz <= 8)%nat -> 0 <= s < 64 ->
  let r := first_rng v (load sz m ptr) s (8 * Z.of_nat sz) in
  range_wf r /\ (0 < size r -> s <= front r /\ front r + size r <= 8 * Z.of_nat sz /\
    forall i, in_range r i -> bm_bit m bm (8 * (ptr - gb_begin bm) + i) = v).
Proof.
  intros Hsz Hs. pose proof (load_u64 sz m ptr Hm ltac:(lia)) as HL.
  assert (G : forall r, (0 < size r -> s <= front r /\ front r + size r <= 8 * Z.of_nat sz /\
      forall i, in_range r i -> Z.testbit (load sz m ptr) i = v) ->
    0 < size r -> s <= front r /\ front r + size r <= 8 * Z.of_nat sz /\
      forall i, in_range r i -> bm_bit m bm (8 * (ptr - gb_begin bm) + i) = v).
  { intros r H Hp. destruct (H Hp) as (H1 & H2 & H3). split; [exact H1|]. split; [exact H2|].
    intros i Hi. rewrite <- (load_bm_bit sz) by (auto || (unfold in_range in Hi; lia)). auto. }
  unfold first_rng. destruct v.
  - destruct (get_range_of_lsb_one_bits_sound (load sz m ptr) s (8 * Z.of_nat sz)) as [W S];
      auto; try lia.
  - destruct (get_range_of_lsb_zero_bits_sound (load sz m ptr) s (8 * Z.of_nat sz)) as [W S];
      auto; try lia.
Qed.

Lemma next_rng_eq word prev bits : range_wf prev -> front prev + size prev < 64 ->
  next_rng v word prev bits = Ok (first_rng v word (front prev + size prev) bits).
Proof.
  intros W H. unfold next_rng, first_rng, get_next_range_of_lsb_one_bits,
    get_next_range_of_lsb_zero_bits, range_get_end_assert.
  rewrite range_get_end_wf by exact W. cbn [assert_some mbind outcome_bind].
  unfold index_in_bounds. destruct (Z.ltb_spec (front prev + size prev) 64); [|lia].
  destruct v; reflexivity.
Qed.

(** The runs of one word: the loop over them ends, and what it leaves with is a
    run of the bitmap. *)
Lemma rng_loop_sound fuel sz ptr s : (0 < sz <= 8)%nat -> 0 <= s < 64 ->
  (Z.to_nat (64 - s) <= fuel)%nat ->
  exists ex, rng_loop fuel v (load sz m ptr) (8 * Z.of_nat sz) count
               (first_rng v (load sz m ptr) s (8 * Z.of_nat sz)) = Ok ex /\
    let ok iter := s <= front iter /\ 0 < size iter /\ front iter + size iter <= 8 * Z.of_nat sz /\
      forall i, in_range iter i -> bm_bit m bm (8 * (ptr - gb_begin bm) + i) = v in
    match ex with
    | RngNone => True
    | RngBreak iter => ok iter /\ front iter + size iter = 8 * Z.of_nat sz
    | RngFound iter => ok iter /\ count <= size iter
    end.
Proof.
  intros Hsz. revert s. induction fuel as [|fuel IH]; intros s Hs Hf; [lia|].
  destruct (first_rng_sound sz ptr s Hsz Hs) as [W S].
  set (r := first_rng v (load sz m ptr) s (8 * Z.of_nat sz)) in *. cbn [rng_loop].
  pose proof W as (W1 & W2 & W3). unfold range_empty.
  destruct (Z.eqb_spec (size r) 0); [exists RngNone; auto|].
  destruct (S ltac:(lia)) as (S1 & S2 & S3).
  destruct (Z.ltb_spec (size r) count).
  2:{ exists (RngFound r). split; [reflexivity|]. repeat split; auto; lia. }
  unfold range_get_end_assert at 1. rewrite range_get_end_wf by exact W.
  cbn [assert_some mbind outcome_bind].
  destruct (Z.eqb_spec (front r + size r) (8 * Z.of_nat sz)) as [E|E].
  { exists (RngBreak r). split; [reflexivity|]. repeat split; auto; lia. }
  rewrite next_rng_eq by (auto || lia). cbn [mbind outcome_bind].
  destruct (IH (front r + size r)) as (ex & -> & P); [lia|lia|].
  exists ex. split; [reflexivity|]. destruct ex as [|iter|iter]; [exact I| |];
    destruct P as [(P1 & P2 & P3 & P4) P5]; repeat split; auto; lia.
Qed.

(** The low bits of a word that have value [v]. *)
Lemma count_lsb_bits_spec sz ptr : (0 < sz <= 8)%nat ->
  let c := Z.min (8 * Z.of_nat sz) (count_lsb_bits v (8 * Z.of_nat sz) (load sz m ptr)) in
  0 <= c <= 8 * Z.of_nat sz /\
  forall i, 0 <= i < c -> bm_bit m bm (8 * (ptr - gb_begin bm) + i) = v.
Proof.
  intros Hsz. set (w := 8 * Z.of_nat sz). assert (Hw : 0 < w <= 64) by (unfold w; lia).
  assert (HL : is_u w (load sz m ptr)).
  { pose proof (load_bound sz m ptr Hm). unfold is_u, w. rewrite Z.pow_mul_r by lia. exact H. }
  unfold count_lsb_bits. destruct v.
  - destruct (count_lsb_zero_bits_spec w (bnot w (load sz m ptr)) 0) as (C0 & C1 & C2 & _);
      [lia|apply bnot_bound; lia|lia|]. fold (count_lsb_one_bits w (load sz m ptr) 0) in *.
    split; [lia|]. intros i Hi. rewrite <- (load_bm_bit sz) by (auto || (unfold w in *; lia)).
    specialize (C2 i ltac:(lia)). rewrite bnot_testbit in C2 by lia.
    destruct (Z.ltb_spec i w); [|lia]. cbn in C2. apply negb_false_iff. exact C2.
  - destruct (count_lsb_zero_bits_spec w (load sz m ptr) 0) as (C0 & C1 & C2 & _); auto; [lia|].
    split; [lia|]. intros i Hi. rewrite <- (load_bm_bit sz) by (auto || (unfold w in *; lia)).
    apply C2. lia.
Qed.

Lemma run_sub i n k : run i n -> 0 <= k <= n -> run i k.
Proof. intros (R1 & R2 & R3) Hk. split; [auto|]. split; [lia|]. intros j Hj. apply R3. lia. Qed.

(** A run extended by the [n] bits after it. *)
Lemma run_app i n k : run i n -> 0 <= n -> i + n + k <= bm_bits bm ->
  (forall j, 0 <= j < k -> bm_bit m bm (i + n + j) = v) -> run i (n + k).
Proof.
  intros (R1 & R2 & R3) Hn Hk H. split; [auto|]. split; [lia|]. intros j Hj.
  destruct (Z.lt_ge_cases j (i + n)); [apply R3; lia|].
  replace j with (i + n + (j - (i + n))) by lia. apply H. lia.
Qed.

(** A run found inside the word at [ptr]. *)
Lemma run_word sz ptr s iter : gb_begin bm <= ptr -> ptr + Z.of_nat sz <= gbuffer_end bm ->
  s0 <= 8 * (ptr - gb_begin bm) + s -> s <= front iter ->
  front iter + size iter <= 8 * Z.of_nat sz ->
  (forall i, in_range iter i -> bm_bit m bm (8 * (ptr - gb_begin bm) + i) = v) ->
  run (8 * (ptr - gb_begin bm) + front iter) (size iter).
Proof.
  intros Hp He Hs Hf Hl H. unfold gbuffer_end in He. split; [lia|].
  split; [unfold bm_bits; lia|]. intros j Hj.
  replace j with (8 * (ptr - gb_begin bm) + (j - 8 * (ptr - gb_begin bm))) by lia.
  apply H. unfold in_range. lia.
Qed.

(** What the body leaves: a run, or a range that ends where the word ends. *)
Definition body_post (sz : nat) (ptr : Z) (res : Z * mem + Z * Z) : Prop :=
  match res with
  | inl (r, m') => run r count /\ m' = m
  | inr (cs, cc) => 0 <= cc /\ (cc <> 0 ->
      0 <= cs /\ cs + cc = 8 * (ptr + Z.of_nat sz - gb_begin bm) /\ run cs cc)
  end.

Lemma for_each_rng_sound sz ptr s cs : (0 < sz <= 8)%nat ->
  gb_begin bm <= ptr -> ptr + Z.of_nat sz <= gbuffer_end bm ->
  0 <= s < 64 -> s0 <= 8 * (ptr - gb_begin bm) + s ->
  exists res, for_each_rng a cbo_size sz v m bm count false ptr s cs 0 = Ok res /\ body_post sz ptr res.
Proof.
  intros Hsz Hp He Hs Hs0. destruct (bm_distance bm ptr Hbm ltac:(lia)) as (D1 & D2 & D3).
  assert (bm_bits bm < 2 ^ 35) by (unfold bm_bits; destruct Hbm; lia).
  unfold for_each_rng.
  destruct (rng_loop_sound 64 sz ptr s Hsz Hs ltac:(lia)) as (ex & -> & P).
  cbn [mbind outcome_bind]. rewrite D2. destruct ex as [|iter|iter].
  - eexists; split; [reflexivity|]. cbn. lia.
  - destruct P as [(P1 & P2 & P3 & P4) P5]. rewrite wrap_small by (unfold is_u; lia).
    eexists; split; [reflexivity|]. split; [lia|]. intros _. split; [lia|]. split; [lia|].
    apply (run_word sz ptr s); auto; lia.
  - destruct P as [(P1 & P2 & P3 & P4) P5]. rewrite wrap_small by (unfold is_u; lia).
    eexists; split; [reflexivity|]. split; [|reflexivity].
    apply run_sub with (n := size iter); [|lia]. apply (run_word sz ptr s); auto; lia.
Qed.

Lemma ranges_body_sound sz ptr s cs cc : (0 < sz <= 8)%nat -> mult_inv (ptr, s, cs, cc) ->
  ptr + Z.of_nat sz <= gbuffer_end bm ->
  exists res, ranges_body a cbo_size sz v m bm count false ptr s cs cc = Ok res /\
    body_post sz ptr res.
Proof.
  intros Hsz (Hp & Hst & Hs0 & Hcc & R) He. unfold ranges_body.
  destruct (Z.eqb_spec cc 0) as [->|Hc0]; cbn [negb]; [apply for_each_rng_sound; auto; lia|].
  destruct (R Hc0) as (R0 & R1 & R2). destruct (count_lsb_bits_spec sz ptr Hsz) as [C1 C2].
  set (c := Z.min (8 * Z.of_nat sz) _) in *.
  assert (HB : bm_bits bm = 8 * (gbuffer_end bm - gb_begin bm) /\ bm_bits bm < 2 ^ 35)
    by (unfold bm_bits, gbuffer_end; destruct Hbm; lia).
  assert (R3 : run cs (cc + c)) by (apply run_app; auto; [lia|rewrite R1; exact C2]).
  rewrite (wrap_small 64 (cc + c)) by (unfold is_u; lia).
  destruct (Z.leb_spec count (cc + c)).
  - eexists; split; [reflexivity|]. split; [|reflexivity]. apply run_sub with (n := cc + c); auto; lia.
  - destruct (Z.eqb_spec c (8 * Z.of_nat sz)) as [E|E].
    + eexists; split; [reflexivity|]. split; [lia|]. intros _. split; [lia|]. split; [lia|exact R3].
    + apply for_each_rng_sound; auto; try lia. destruct R2. lia.
Qed.

Lemma ranges_loop_sound fuel sz st : (0 < sz <= 8)%nat -> mult_inv st ->
  (Z.to_nat (gbuffer_end bm - st.1.1.1) <= fuel)%nat ->
  exists res, ranges_loop a cbo_size fuel sz v m bm count false st = Ok res /\ mult_post res.
Proof.
  intros Hsz. revert st. induction fuel as [|fuel IH]; intros [[[ptr s] cs] cc] I Hf;
    pose proof I as (Hp & Hst & Hs0 & Hcc & R);
    destruct (bm_distance bm ptr Hbm Hp) as (D1 & D2 & D3); cbn [fst snd] in Hf;
    cbn [ranges_loop]; rewrite D1; destruct (Z.ltb_spec (gbuffer_end bm - ptr) (Z.of_nat sz));
    try lia; try (eexists; split; [reflexivity|]; exact I).
  destruct (ranges_body_sound sz ptr s cs cc Hsz I ltac:(lia)) as (res & -> & P).
  cbn [mbind outcome_bind]. destruct res as [[r m']|[cs' cc']]; [eauto|].
  destruct P as [P1 P2]. apply IH; [|cbn [fst snd]; lia].
  split; [lia|]. split; [lia|]. split; [lia|]. split; [exact P1|exact P2].
Qed.

Lemma ranges_for_type_sound sz st : (sz = 1 \/ sz = 2 \/ sz = 4 \/ sz = 8)%nat -> mult_post st ->
  exists res, ranges_for_type a cbo_size sz v m bm count false st = Ok res /\ mult_post res.
Proof.
  intros Hsz P. destruct st as [[r m']|[[[ptr s] cs] cc]]; cbn [ranges_for_type]; [eauto|].
  assert (pow2_64 (Z.of_nat sz)) as P2.
  { destruct Hsz as [->|[->|[->| ->]]]; [exists 0|exists 1|exists 2|exists 3]; cbn; lia. }
  rewrite has_align_pow2 by exact P2. cbn [mbind outcome_bind].
  destruct (ptr mod Z.of_nat sz =? 0); [|eauto].
  pose proof P as (Hp & _). destruct (bm_distance bm ptr Hbm Hp) as (D1 & _).
  destruct (ranges_loop_sound (Z.to_nat (distance ptr (gbuffer_end bm))) sz (ptr, s, cs, cc))
    as (res & E & R); [lia|exact P|cbn [fst snd]; lia|]. eauto.
Qed.

Lemma find_mult_sound : 0 <= s0 <= bm_bits bm ->
  exists r, find_mult a cbo_size v m bm count s0 false = Ok (r, m) /\
    (r = BITMAP_INVALID \/ run r count).
Proof.
  intros Hs. unfold find_mult, bits_to_bytes_noround.
  assert (P0 : mult_post (inr (gb_begin bm + s0 / 8, s0 mod 8, 0, 0))).
  { unfold bm_bits, mult_post, mult_inv, gbuffer_end in *. repeat split; try dlia. }
  destruct (ranges_for_type_sound 8 _ ltac:(auto) P0) as (r1 & -> & P1). cbn [mbind outcome_bind].
  destruct (ranges_for_type_sound 4 _ ltac:(auto) P1) as (r2 & -> & P2). cbn [mbind outcome_bind].
  destruct (ranges_for_type_sound 2 _ ltac:(auto) P2) as (r3 & -> & P3). cbn [mbind outcome_bind].
  destruct (ranges_for_type_sound 1 _ ltac:(auto) P3) as (r4 & -> & P4). cbn [mbind outcome_bind].
  destruct r4 as [[r m']|[[[ptr s] cs] cc]].
  - destruct P4 as [R ->]. eauto.
  - eauto.
Qed.

End FindMult.



(** A long enough run exists and is not found: its first bit is above bit 7. *)
Lemma bitmap_find_run_incomplete :
  bitmap_find x86_64 0 (mem_of 64 [255; 0; 0; 0]) (GB 64 4 4 false) 2 0 false false =
    Ok (BITMAP_INVALID, mem_of 64 [255; 0; 0; 0]).
Proof. reflexivity. Qed.

(** [bitmap_has] checks the first byte again instead of the second: [ptr] is not
    advanced past the bytes checked. *)
Lemma bitmap_has_wrong :
  bitmap_has x86_64 (mem_of 65 [255; 0]) (GB 65 2 2 false) (Range 0 12) true = Ok true /\
  bm_bit (mem_of 65 [255; 0]) (GB 65 2 2 false) 8 = false.
Proof. split; reflexivity. Qed.
