(* ===== verification/Lists.v ===== *)
(** * Intrusive circular lists: lib/list.h

    The [struct list] links of all lists live in one heap that maps the address
    of a link to its [prev] and [next] fields.  [is_list] relates a heap and a
    list head to the sequence of links on the list; every operation is proved
    against the operation on sequences. *)

From stdpp Require Import gmap.
From S2P Require Import Prelude.

Record link := Link { l_prev : Z; l_next : Z }.
Abbreviation links := (gmap Z link).

(** Field reads and writes; an address with no link is undefined. *)
Definition get_prev (s : links) (p : Z) : outcome Z :=
  match s !! p with Some l => Ok (l_prev l) | None => Undef end.
Definition get_next (s : links) (p : Z) : outcome Z :=
  match s !! p with Some l => Ok (l_next l) | None => Undef end.
Definition set_prev (s : links) (p v : Z) : outcome links :=
  match s !! p with Some l => Ok (<[p := Link v (l_next l)]> s) | None => Undef end.
Definition set_next (s : links) (p v : Z) : outcome links :=
  match s !! p with Some l => Ok (<[p := Link (l_prev l) v]> s) | None => Undef end.

Definition list_init (s : links) (head : Z) : outcome links :=
  s ← set_prev s head head;
  set_next s head head.

Definition list_add_common (s : links) (elem prev next : Z) : outcome links :=
  s ← set_prev s elem prev;
  s ← set_next s elem next;
  s ← set_next s prev elem;
  set_prev s next elem.

Definition list_add (s : links) (head item : Z) : outcome links :=
  next ← get_next s head;
  list_add_common s item head next.

Definition list_radd (s : links) (head item : Z) : outcome links :=
  prev ← get_prev s head;
  list_add_common s item prev head.

(** The loop of [list_add_inorder]: the link to insert after. *)
Fixpoint inorder_loop (fuel : nat) (compare : Z -> Z -> Z) (s : links) (head item prev iter : Z)
    : outcome Z :=
  if iter =? head then Ok prev
  else if compare iter item <? 0 then Ok prev
  else match fuel with
       | O => Diverge
       | S fuel => next ← get_next s iter;
                   inorder_loop fuel compare s head item iter next
       end.
Definition list_add_inorder (fuel : nat) (compare : Z -> Z -> Z) (s : links) (head item : Z)
    : outcome links :=
  first ← get_next s head;
  prev ← inorder_loop fuel compare s head item head first;
  list_add s prev item.

Definition list_empty (s : links) (list_ : Z) : outcome bool :=
  prev ← get_prev s list_;
  Ok (list_ =? prev).

(** [elem->next->prev = elem->prev; elem->prev->next = elem->next;] *)
Definition list_unlink (s : links) (elem : Z) : outcome links :=
  next ← get_next s elem;
  prev ← get_prev s elem;
  s ← set_prev s next prev;
  prev ← get_prev s elem;
  next ← get_next s elem;
  set_next s prev next.

Definition list_remove (s : links) (elem : Z) : outcome links :=
  s ← list_unlink s elem;
  s ← set_prev s elem elem;
  set_next s elem elem.

Definition list_deinit (s : links) (elem : Z) : outcome links :=
  s ← list_unlink s elem;
  s ← set_prev s elem 0;
  set_next s elem 0.

(** [list_foreach], [list_foreach_reverse]: the links visited. *)
Fixpoint foreach_loop (fuel : nat) (s : links) (list_ iter : Z) : outcome (list Z) :=
  if iter =? list_ then Ok []
  else match fuel with
       | O => Diverge
       | S fuel => next ← get_next s iter;
                   rest ← foreach_loop fuel s list_ next;
                   Ok (iter :: rest)
       end.
Definition list_foreach (fuel : nat) (s : links) (list_ : Z) : outcome (list Z) :=
  first ← get_next s list_;
  foreach_loop fuel s list_ first.
Fixpoint foreach_reverse_loop (fuel : nat) (s : links) (list_ iter : Z) : outcome (list Z) :=
  if iter =? list_ then Ok []
  else match fuel with
       | O => Diverge
       | S fuel => prev ← get_prev s iter;
                   rest ← foreach_reverse_loop fuel s list_ prev;
                   Ok (iter :: rest)
       end.
Definition list_foreach_reverse (fuel : nat) (s : links) (list_ : Z) : outcome (list Z) :=
  last ← get_prev s list_;
  foreach_reverse_loop fuel s list_ last.
Definition list_count (fuel : nat) (s : links) (list_ : Z) : outcome Z :=
  xs ← list_foreach fuel s list_; Ok (Z.of_nat (length xs)).

(** [list_verify] asserts that [prev] mirrors [next]. *)
Fixpoint verify_loop (fuel : nat) (s : links) (list_ prev iter : Z) : outcome unit :=
  if iter =? list_ then Ok tt
  else match fuel with
       | O => Diverge
       | S fuel => p ← get_prev s iter;
                   _ ← c_assert (p =? prev);
                   next ← get_next s iter;
                   verify_loop fuel s list_ iter next
       end.
Definition list_verify (fuel : nat) (s : links) (list_ : Z) : outcome unit :=
  first ← get_next s list_;
  verify_loop fuel s list_ list_ first.

(** [slist_remove] runs into [verify_not_reached] even after unlinking. *)
Fixpoint slist_remove_loop (fuel : nat) (s : links) (head elem iter : Z) : outcome links :=
  if iter =? head then Ok s
  else next ← get_next s iter;
       if next =? elem then
         en ← get_next s elem;
         set_next s iter en
       else match fuel with
            | O => Diverge
            | S fuel => slist_remove_loop fuel s head elem next
            end.
Definition slist_remove (fuel : nat) (s : links) (head elem : Z) : outcome links :=
  first ← get_next s head;
  _ ← slist_remove_loop fuel s head elem first;
  Panic.
Definition slist_add (s : links) (head tail item : Z) : outcome links :=
  s ← set_next s tail item;
  set_next s item head.

(** ** The sequence a list stands for *)

Definition nextp (s : links) (p : Z) : option Z := l_next <$> s !! p.
Definition prevp (s : links) (p : Z) : option Z := l_prev <$> s !! p.

(** Walking [next] from [p] passes the links [xs] and arrives at [q]; [prev]
    mirrors every step. *)
Fixpoint seg (s : links) (p : Z) (xs : list Z) (q : Z) : Prop :=
  match xs with
  | [] => nextp s p = Some q /\ prevp s q = Some p
  | x :: xs => nextp s p = Some x /\ prevp s x = Some p /\ seg s x xs q
  end.

Definition is_list (s : links) (head : Z) (xs : list Z) : Prop :=
  NoDup (head :: xs) /\ seg s head xs head.

Lemma seg_app s p xs x ys q :
  seg s p (xs ++ x :: ys) q <-> seg s p xs x /\ seg s x ys q.
Proof.
  revert p. induction xs as [|y xs IH]; intros p; cbn [seg app].
  - tauto.
  - rewrite IH. tauto.
Qed.

Lemma seg_ext s s' p xs q :
  (forall x, x ∈ p :: xs -> nextp s' x = nextp s x) ->
  (forall x, x ∈ xs ++ [q] -> prevp s' x = prevp s x) ->
  seg s p xs q -> seg s' p xs q.
Proof.
  revert p. induction xs as [|y xs IH]; intros p Hn Hp; cbn [seg].
  - intros [H1 H2]. rewrite Hn, Hp by set_solver. auto.
  - intros (H1 & H2 & H3). rewrite Hn, (Hp y) by set_solver.
    split; [auto|]. split; [auto|]. apply IH; [set_solver|set_solver|exact H3].
Qed.

(** The effect of the field writes on the two views. *)
Lemma set_prev_Ok s p v : is_Some (s !! p) -> exists s', set_prev s p v = Ok s' /\
  (forall x, nextp s' x = nextp s x) /\
  (forall x, prevp s' x = if decide (x = p) then Some v else prevp s x) /\
  (forall x, is_Some (s' !! x) <-> is_Some (s !! x)).
Proof.
  intros [l E]. unfold set_prev. rewrite E. eexists. split; [reflexivity|].
  unfold nextp, prevp. split; [|split]; intros x;
    destruct (decide (x = p)) as [->|Hne]; rewrite ?lookup_insert_eq, ?lookup_insert_ne by auto;
    rewrite ?E; cbn; auto; split; eauto.
Qed.
Lemma set_next_Ok s p v : is_Some (s !! p) -> exists s', set_next s p v = Ok s' /\
  (forall x, nextp s' x = if decide (x = p) then Some v else nextp s x) /\
  (forall x, prevp s' x = prevp s x) /\
  (forall x, is_Some (s' !! x) <-> is_Some (s !! x)).
Proof.
  intros [l E]. unfold set_next. rewrite E. eexists. split; [reflexivity|].
  unfold nextp, prevp. split; [|split]; intros x;
    destruct (decide (x = p)) as [->|Hne]; rewrite ?lookup_insert_eq, ?lookup_insert_ne by auto;
    rewrite ?E; cbn; auto; split; eauto.
Qed.
Lemma get_next_Ok s p q : nextp s p = Some q -> get_next s p = Ok q.
Proof. unfold nextp, get_next. destruct (s !! p); cbn; intros [=]; subst; auto. Qed.
Lemma get_prev_Ok s p q : prevp s p = Some q -> get_prev s p = Ok q.
Proof. unfold prevp, get_prev. destruct (s !! p); cbn; intros [=]; subst; auto. Qed.
Lemma nextp_Some s p q : nextp s p = Some q -> is_Some (s !! p).
Proof. unfold nextp. destruct (s !! p); [eauto|discriminate]. Qed.
Lemma prevp_Some s p q : prevp s p = Some q -> is_Some (s !! p).
Proof. unfold prevp. destruct (s !! p); [eauto|discriminate]. Qed.

Lemma last_default (xs : list Z) d d' : xs <> [] -> List.last xs d = List.last xs d'.
Proof.
  induction xs as [|x [|y xs] IH]; intros H; [congruence|reflexivity|].
  change (List.last (x :: y :: xs) d) with (List.last (y :: xs) d).
  change (List.last (x :: y :: xs) d') with (List.last (y :: xs) d'). apply IH. discriminate.
Qed.
Lemma last_cons (x : Z) xs d : List.last (x :: xs) d = List.last xs x.
Proof.
  destruct xs as [|y xs]; [reflexivity|].
  change (List.last (x :: y :: xs) d) with (List.last (y :: xs) d). apply last_default. discriminate.
Qed.
Lemma last_in (xs : list Z) d : List.last xs d ∈ d :: xs.
Proof.
  revert d. induction xs as [|x xs IH]; intros d; [cbn; set_solver|].
  rewrite last_cons. specialize (IH x). set_solver.
Qed.

(** The first and last steps of a segment. *)
Lemma seg_first s p xs q : seg s p xs q -> nextp s p = Some (hd q xs).
Proof. destruct xs; cbn; tauto. Qed.
Lemma seg_last s p xs q : seg s p xs q -> prevp s q = Some (List.last xs p).
Proof.
  revert p. induction xs as [|x xs IH]; intros p; cbn [seg]; [cbn; tauto|].
  intros (_ & _ & H). rewrite last_cons. exact (IH x H).
Qed.

Lemma seg_dom s p xs q x : seg s p xs q -> x ∈ p :: xs -> is_Some (s !! x).
Proof.
  revert p. induction xs as [|y xs IH]; intros p; cbn [seg].
  - intros [H _] Hx. assert (x = p) as -> by set_solver. eapply nextp_Some, H.
  - intros (H1 & H2 & H3) Hx. destruct (decide (x = p)) as [->|].
    + eapply nextp_Some, H1.
    + apply (IH y H3). set_solver.
Qed.

(** A segment cut at any place, and put together again. *)
Lemma seg_cut s p xs ys q :
  seg s p (xs ++ ys) q <->
  seg s p xs (hd q ys) /\ match ys with [] => True | y :: ys => seg s y ys q end.
Proof.
  destruct ys as [|y ys]; [rewrite app_nil_r; cbn; tauto|]. apply seg_app.
Qed.

(** A segment whose last step is redirected to [e]. *)
Lemma seg_retarget s s' p xs q e : NoDup (p :: xs) -> seg s p xs q ->
  (forall x, x ∈ p :: xs -> x <> List.last xs p -> nextp s' x = nextp s x) ->
  (forall x, x ∈ xs -> prevp s' x = prevp s x) ->
  nextp s' (List.last xs p) = Some e -> prevp s' e = Some (List.last xs p) ->
  seg s' p xs e.
Proof.
  revert p. induction xs as [|x xs IH]; intros p ND H Hn Hp E1 E2; cbn [seg] in *; [auto|].
  destruct H as (H1 & H2 & H3). rewrite last_cons in *.
  apply list.NoDup_cons in ND as [Np ND].
  split; [rewrite Hn; [exact H1|set_solver|]|].
  { intros Ep. apply Np. rewrite Ep. apply last_in. }
  split; [rewrite Hp; [exact H2|set_solver]|].
  apply IH; auto; intros y Hy; [|apply Hp; set_solver].
  intros Hne. apply Hn; set_solver.
Qed.

(** The part after the cut, when only the link before it changed. *)
Lemma seg_suffix s s' ys q e :
  match ys with [] => True | y :: ys => seg s y ys q end ->
  NoDup ys -> q ∉ ys ->
  (forall x, x ∈ ys -> nextp s' x = nextp s x) ->
  (forall x, x ∈ ys ++ [q] -> x <> hd q ys -> prevp s' x = prevp s x) ->
  nextp s' e = Some (hd q ys) -> prevp s' (hd q ys) = Some e ->
  seg s' e ys q.
Proof.
  destruct ys as [|y ys]; cbn [seg hd]; intros H ND Nq Hn Hp E1 E2; [auto|].
  apply list.NoDup_cons in ND as [Ny ND]. split; [exact E1|]. split; [exact E2|].
  revert H. apply seg_ext; intros x Hx; [apply Hn; set_solver|apply Hp; set_solver].
Qed.

(** ** Insertion *)

(** What [list_add_common] does to the links. *)
Lemma list_add_common_Ok s elem p q : is_Some (s !! elem) -> is_Some (s !! p) -> is_Some (s !! q) ->
  elem <> p -> elem <> q ->
  exists s', list_add_common s elem p q = Ok s' /\
    (forall x, nextp s' x = if decide (x = p) then Some elem
                            else if decide (x = elem) then Some q else nextp s x) /\
    (forall x, prevp s' x = if decide (x = q) then Some elem
                            else if decide (x = elem) then Some p else prevp s x) /\
    (forall x, is_Some (s' !! x) <-> is_Some (s !! x)).
Proof.
  intros De Dp Dq Np Nq. unfold list_add_common.
  destruct (set_prev_Ok s elem p De) as (s1 & -> & N1 & P1 & D1). cbn [mbind outcome_bind].
  destruct (set_next_Ok s1 elem q ltac:(apply D1, De)) as (s2 & -> & N2 & P2 & D2).
  cbn [mbind outcome_bind].
  destruct (set_next_Ok s2 p elem ltac:(apply D2, D1, Dp)) as (s3 & -> & N3 & P3 & D3).
  cbn [mbind outcome_bind].
  destruct (set_prev_Ok s3 q elem ltac:(apply D3, D2, D1, Dq)) as (s4 & -> & N4 & P4 & D4).
  exists s4. split; [reflexivity|]. split; [|split]; intros x.
  - rewrite N4, N3, N2, N1. reflexivity.
  - rewrite P4, P3, P2, P1. reflexivity.
  - rewrite D4, D3, D2, D1. reflexivity.
Qed.

(** Inserting between the two parts of a list; links outside are untouched. *)
Definition unchanged (s s' : links) (xs : list Z) : Prop :=
  forall x, x ∉ xs -> nextp s' x = nextp s x /\ prevp s' x = prevp s x.

Lemma insert_spec s head l1 l2 elem : is_list s head (l1 ++ l2) ->
  elem ∉ head :: l1 ++ l2 -> is_Some (s !! elem) ->
  exists s', list_add_common s elem (List.last l1 head) (hd head l2) = Ok s' /\
    is_list s' head (l1 ++ elem :: l2) /\ unchanged s s' (elem :: head :: l1 ++ l2).
Proof.
  intros [ND S] Ne De. apply seg_cut in S as [S1 S2].
  pose proof (last_in l1 head) as Lp.
  assert (Hq : hd head l2 ∈ head :: l2) by (destruct l2; cbn; set_solver).
  destruct (list_add_common_Ok s elem (List.last l1 head) (hd head l2))
    as (s' & -> & N & P & D); auto.
  { eapply seg_dom; [exact S1|exact Lp]. }
  { eapply prevp_Some, seg_last, S1. }
  { set_solver. } { set_solver. }
  exists s'. split; [reflexivity|].
  apply list.NoDup_cons in ND as [Nh ND]. apply list.NoDup_app in ND as (ND1 & Nd & ND2).
  split.
  - split.
    + apply list.NoDup_cons. split; [set_solver|]. apply list.NoDup_app. split; [exact ND1|].
      split; [set_solver|]. apply list.NoDup_cons. set_solver.
    + apply seg_app. split.
      * eapply seg_retarget; [|exact S1| | | |].
        -- apply list.NoDup_cons. set_solver.
        -- intros x Hx Hne. rewrite N. rewrite !decide_False; [reflexivity|set_solver|exact Hne].
        -- intros x Hx. rewrite P. rewrite !decide_False; [reflexivity|set_solver|].
           destruct l2; cbn; set_solver.
        -- rewrite N, decide_True by reflexivity. reflexivity.
        -- rewrite P. rewrite decide_False, decide_True; [reflexivity|reflexivity|].
           destruct l2; cbn; set_solver.
      * eapply seg_suffix; [exact S2|exact ND2|set_solver| | | |].
        -- intros x Hx. rewrite N. rewrite !decide_False; [reflexivity|set_solver|].
           intros ->. destruct l1 as [|y l1']; [cbn in *; set_solver|].
           rewrite last_cons in *. pose proof (last_in l1' y). set_solver.
        -- intros x Hx Hne. rewrite P. rewrite !decide_False; [reflexivity|set_solver|exact Hne].
        -- rewrite N. rewrite decide_False, decide_True; [reflexivity|reflexivity|].
           intros Ee. set_solver.
        -- rewrite P, decide_True by reflexivity. reflexivity.
  - intros x Hx. rewrite N, P. rewrite !decide_False; [auto|..]; set_solver.
Qed.

Lemma list_add_spec s head xs item : is_list s head xs -> item ∉ head :: xs ->
  is_Some (s !! item) ->
  exists s', list_add s head item = Ok s' /\ is_list s' head (item :: xs) /\
    unchanged s s' (item :: head :: xs).
Proof.
  intros L Ni Di. pose proof L as [_ S].
  destruct (insert_spec s head [] xs item L Ni Di) as (s' & E & L' & U).
  exists s'. split; [|auto]. unfold list_add.
  rewrite (get_next_Ok _ _ _ (seg_first _ _ _ _ S)). exact E.
Qed.

Lemma list_empty_spec s head xs : is_list s head xs ->
  list_empty s head = Ok (bool_decide (xs = [])).
Proof.
  intros [ND S]. apply list.NoDup_cons in ND as [Nh _].
  unfold list_empty. rewrite (get_prev_Ok _ _ _ (seg_last _ _ _ _ S)). cbn. f_equal.
  destruct xs as [|x xs]; [apply Z.eqb_refl|].
  apply Z.eqb_neq. rewrite last_cons. intros E. apply Nh. rewrite E. apply last_in.
Qed.

Lemma list_init_spec s head : is_Some (s !! head) ->
  exists s', list_init s head = Ok s' /\ is_list s' head [] /\ unchanged s s' [head].
Proof.
  intros D. unfold list_init.
  destruct (set_prev_Ok s head head D) as (s1 & -> & N1 & P1 & D1). cbn [mbind outcome_bind].
  destruct (set_next_Ok s1 head head ltac:(apply D1, D)) as (s2 & -> & N2 & P2 & D2).
  exists s2. split; [reflexivity|]. split.
  - split; [apply NoDup_singleton|]. cbn. rewrite N2, P2, P1, !decide_True by auto. auto.
  - intros x Hx. apply not_elem_of_cons in Hx as [Hx _]. rewrite N2, N1, P2, P1, !decide_False by auto. auto.
Qed.

(** On a well-formed list, [list_add] puts the link in front of the sequence
    and [list_radd] behind it; the list stays well formed and links outside it
    are untouched. *)
Theorem list_add_radd_spec s head xs item : is_list s head xs -> item ∉ head :: xs ->
  is_Some (s !! item) ->
  (exists s', list_add s head item = Ok s' /\ is_list s' head (item :: xs) /\
     unchanged s s' (item :: head :: xs)) /\
  (exists s', list_radd s head item = Ok s' /\ is_list s' head (xs ++ [item]) /\
     unchanged s s' (item :: head :: xs)).
Proof.
  intros L Ni Di. pose proof L as [_ S]. split.
  - apply list_add_spec; auto.
  - destruct (insert_spec s head xs [] item) as (s' & E & L' & U); rewrite ?app_nil_r in *; auto.
    exists s'. split; [|auto]. unfold list_radd.
    rewrite (get_prev_Ok _ _ _ (seg_last _ _ _ _ S)). exact E.
Qed.

(** Two links of one heap: a list head at 1 with the link 2 on it, and 3 alone. *)
Definition demo_links : links :=
  <[1 := Link 2 2]> (<[2 := Link 1 1]> (<[3 := Link 3 3]> ∅)).

Lemma demo_is_list : is_list demo_links 1 [2].
Proof. split; [apply list.NoDup_cons; split; [set_solver|apply NoDup_singleton]|]. repeat split. Defined.

Lemma list_add_radd_spec_witness :
  (exists s', list_add demo_links 1 3 = Ok s' /\ is_list s' 1 [3; 2] /\
     unchanged demo_links s' [3; 1; 2]) /\
  (exists s', list_radd demo_links 1 3 = Ok s' /\ is_list s' 1 [2; 3] /\
     unchanged demo_links s' [3; 1; 2]).
Proof.
  apply (list_add_radd_spec demo_links 1 [2] 3 demo_is_list).
  - rewrite !not_elem_of_cons. repeat split; try lia. apply not_elem_of_nil.
  - vm_compute. eauto.
Defined.

(** ** Removal *)

Lemma list_unlink_spec s head l1 elem l2 : is_list s head (l1 ++ elem :: l2) ->
  exists s', list_unlink s elem = Ok s' /\
    (forall x, nextp s' x = if decide (x = List.last l1 head) then Some (hd head l2) else nextp s x) /\
    (forall x, prevp s' x = if decide (x = hd head l2) then Some (List.last l1 head) else prevp s x) /\
    (forall x, is_Some (s' !! x) <-> is_Some (s !! x)).
Proof.
  intros [ND S]. apply seg_app in S as [S1 S2].
  assert (Hq : hd head l2 ∈ head :: l2) by (destruct l2; cbn; set_solver).
  pose proof (last_in l1 head) as Lp.
  apply list.NoDup_cons in ND as [Nh ND]. apply list.NoDup_app in ND as (ND1 & Nd & ND2).
  apply list.NoDup_cons in ND2 as [Ne ND2].
  assert (Nq : elem <> hd head l2) by (destruct l2; cbn in *; set_solver).
  unfold list_unlink. rewrite (get_next_Ok _ _ _ (seg_first _ _ _ _ S2)).
  rewrite (get_prev_Ok _ _ _ (seg_last _ _ _ _ S1)). cbn [mbind outcome_bind].
  destruct (set_prev_Ok s (hd head l2) (List.last l1 head)) as (s1 & -> & N1 & P1 & D1).
  { destruct l2 as [|y l2]; [eapply prevp_Some, seg_last, S2|].
    destruct S2 as (_ & H & _). eapply prevp_Some, H. }
  cbn [mbind outcome_bind].
  rewrite (get_prev_Ok s1 elem (List.last l1 head)).
  2:{ rewrite P1, decide_False by exact Nq. apply (seg_last _ _ _ _ S1). }
  rewrite (get_next_Ok s1 elem (hd head l2)) by (rewrite N1; apply (seg_first _ _ _ _ S2)).
  cbn [mbind outcome_bind].
  destruct (set_next_Ok s1 (List.last l1 head) (hd head l2)) as (s2 & -> & N2 & P2 & D2).
  { apply D1. eapply seg_dom; [exact S1|exact Lp]. }
  exists s2. split; [reflexivity|]. split; [|split]; intros x.
  - rewrite N2, N1. reflexivity.
  - rewrite P2, P1. reflexivity.
  - rewrite D2, D1. reflexivity.
Qed.

(** The places around a link of a list. *)
Lemma cut_facts (head : Z) l1 elem l2 : NoDup (head :: l1 ++ elem :: l2) ->
  NoDup (head :: l1 ++ l2) /\ NoDup (head :: l1) /\ (elem ∉ head :: l1) /\ (elem ∉ l2) /\
  List.last l1 head <> elem /\ hd head l2 <> elem /\ (hd head l2 ∉ l1) /\
  (List.last l1 head ∉ l2) /\ (head ∉ l2) /\ (l2 <> [] -> hd head l2 ∉ tail l2 ++ [head]).
Proof.
  intros ND. apply list.NoDup_cons in ND as [Nh ND]. apply list.NoDup_app in ND as (ND1 & Nd & ND2).
  apply list.NoDup_cons in ND2 as [Ne ND2]. pose proof (last_in l1 head) as Lp.
  rewrite elem_of_app, elem_of_cons in Nh.
  assert (Hh2 : head ∉ l2) by tauto. assert (Hh1 : head ∉ l1) by tauto.
  assert (He : elem ∉ head :: l1).
  { rewrite elem_of_cons. intros [->|H]; [tauto|]. apply (Nd _ H), list_elem_of_here. }
  assert (D : forall x, x ∈ l1 -> x ∉ l2).
  { intros x Hx Hy. apply (Nd x Hx), list_elem_of_further, Hy. }
  split; [|split; [|split; [|split; [|split; [|split; [|split; [|split; [|split]]]]]]]]; auto.
  - apply list.NoDup_cons. rewrite elem_of_app. split; [tauto|]. apply list.NoDup_app. auto.
  - apply list.NoDup_cons. auto.
  - intros <-. auto.
  - destruct l2 as [|y l2]; cbn; intros ->; [apply He, list_elem_of_here|apply Ne, list_elem_of_here].
  - destruct l2 as [|y l2]; cbn; [exact Hh1|]. intros H. apply (D y H), list_elem_of_here.
  - intros H. rewrite elem_of_cons in Lp. destruct Lp as [E|H1]; [rewrite E in H; auto|].
    apply (D _ H1 H).
  - intros Hn. destruct l2 as [|y l2]; [congruence|]. cbn. rewrite elem_of_app, list_elem_of_singleton.
    apply list.NoDup_cons in ND2 as [Ny _]. intros [H|H]; [auto|]. subst. apply Hh2, list_elem_of_here.
Qed.

(** Unlinking [elem] and giving its own fields the value [v]. *)
Lemma remove_spec s head l1 elem l2 v : is_list s head (l1 ++ elem :: l2) ->
  exists s', (s ← list_unlink s elem; s ← set_prev s elem v; set_next s elem v) = Ok s' /\
    is_list s' head (l1 ++ l2) /\ s' !! elem = Some (Link v v) /\
    unchanged s s' (head :: l1 ++ elem :: l2).
Proof.
  intros L. destruct (list_unlink_spec s head l1 elem l2 L) as (s1 & -> & N1 & P1 & D1).
  destruct L as [ND S]. apply seg_app in S as [S1 S2].
  assert (Hq : hd head l2 ∈ head :: l2) by (destruct l2; cbn; set_solver).
  pose proof (last_in l1 head) as Lp. cbn [mbind outcome_bind].
  destruct (set_prev_Ok s1 elem v) as (s2 & -> & N2 & P2 & D2).
  { apply D1. eapply nextp_Some, seg_first, S2. }
  cbn [mbind outcome_bind].
  destruct (set_next_Ok s2 elem v) as (s3 & -> & N3 & P3 & D3).
  { apply D2, D1. eapply nextp_Some, seg_first, S2. }
  exists s3. split; [reflexivity|].
  destruct (cut_facts head l1 elem l2 ND) as (F1 & F2 & F3 & F4 & F5 & F6 & F7 & F8 & F9 & F10).
  assert (N : forall x, x <> elem -> nextp s3 x =
    if decide (x = List.last l1 head) then Some (hd head l2) else nextp s x).
  { intros x Hx. rewrite N3, decide_False, N2, N1 by exact Hx. reflexivity. }
  assert (P : forall x, x <> elem -> prevp s3 x =
    if decide (x = hd head l2) then Some (List.last l1 head) else prevp s x).
  { intros x Hx. rewrite P3, P2, decide_False, P1 by exact Hx. reflexivity. }
  split; [|split].
  - split; [exact F1|]. apply seg_cut. split.
    + eapply seg_retarget; [exact F2|exact S1| | | |].
      * intros x Hx Hne. rewrite N, decide_False; [reflexivity|exact Hne|]. intros ->. auto.
      * intros x Hx. rewrite P, decide_False; [reflexivity| |]; intros ->; auto.
        apply F3. apply list_elem_of_further, Hx.
      * rewrite N, decide_True; auto.
      * rewrite P, decide_True; auto.
    + destruct l2 as [|y l2]; [exact I|]. destruct S2 as (_ & _ & S2). revert S2.
      apply seg_ext; intros x Hx.
      * rewrite N, decide_False; [reflexivity| |]; intros ->; auto.
      * rewrite P, decide_False; [reflexivity| |]; [intros ->; apply F10; [discriminate|exact Hx]|].
        intros ->. apply elem_of_app in Hx as [Hx|Hx].
        -- apply F4. apply list_elem_of_further, Hx.
        -- apply list_elem_of_singleton in Hx. apply F3. rewrite Hx. apply list_elem_of_here.
  - destruct (D3 elem) as [_ HD]. destruct HD as [[pv nx] E].
    { apply D2, D1. eapply nextp_Some, seg_first, S2. }
    specialize (N3 elem). specialize (P3 elem). rewrite P2 in P3.
    rewrite decide_True in N3, P3 by reflexivity. unfold nextp, prevp in N3, P3.
    rewrite E in N3, P3 |- *. cbn in N3, P3. congruence.
  - intros x Hx. clear N3 N2 N1 P3 P2 P1 D3 D2 D1 S1 S2.
    assert (x <> elem /\ x <> List.last l1 head /\ x <> hd head l2) as (X1 & X2 & X3).
    { clear N P. split; [|split]; intros ->; apply Hx; set_solver. }
    rewrite N, P, !decide_False by auto. auto.
Qed.

(** C32: [list_remove] and [list_deinit] take a link out of the sequence of any
    list it is on, keep the rest in order and leave links outside the list
    alone; [list_remove] leaves the link as an empty list of its own and
    [list_deinit] leaves it with NULL fields. *)
Theorem list_remove_deinit_spec s head l1 elem l2 : is_list s head (l1 ++ elem :: l2) ->
  (exists s', list_remove s elem = Ok s' /\ is_list s' head (l1 ++ l2) /\ is_list s' elem [] /\
     unchanged s s' (head :: l1 ++ elem :: l2)) /\
  (exists s', list_deinit s elem = Ok s' /\ is_list s' head (l1 ++ l2) /\
     s' !! elem = Some (Link 0 0) /\ unchanged s s' (head :: l1 ++ elem :: l2)).
Proof.
  intros L. split.
  - destruct (remove_spec s head l1 elem l2 elem L) as (s' & E & L' & F & U).
    exists s'. split; [exact E|]. split; [exact L'|]. split; [|exact U].
    split; [apply NoDup_singleton|]. cbn. unfold nextp, prevp. rewrite F. auto.
  - destruct (remove_spec s head l1 elem l2 0 L) as (s' & E & L' & F & U). eauto 6.
Qed.

Lemma list_remove_deinit_spec_witness :
  (exists s', list_remove demo_links 2 = Ok s' /\ is_list s' 1 [] /\ is_list s' 2 [] /\
     unchanged demo_links s' [1; 2]) /\
  (exists s', list_deinit demo_links 2 = Ok s' /\ is_list s' 1 [] /\
     s' !! 2 = Some (Link 0 0) /\ unchanged demo_links s' [1; 2]).
Proof. apply (list_remove_deinit_spec demo_links 1 [] 2 [] demo_is_list). Defined.

(** ** Traversal and ordered insertion *)

Lemma foreach_loop_spec fuel s head p xs : seg s p xs head -> head ∉ xs ->
  (length xs <= fuel)%nat -> foreach_loop fuel s head (hd head xs) = Ok xs.
Proof.
  revert fuel p. induction xs as [|x xs IH]; intros fuel p S Nh Hf; cbn [hd].
  - destruct fuel; cbn [foreach_loop]; rewrite Z.eqb_refl; reflexivity.
  - destruct fuel as [|fuel]; [cbn in Hf; lia|]. cbn [foreach_loop].
    destruct (Z.eqb_spec x head); [set_solver|]. destruct S as (_ & _ & S).
    rewrite (get_next_Ok _ _ _ (seg_first _ _ _ _ S)). cbn [mbind outcome_bind].
    rewrite (IH fuel x S) by (set_solver || (cbn in Hf; lia)). reflexivity.
Qed.

Lemma verify_loop_spec fuel s head p xs : seg s p xs head -> head ∉ xs ->
  (length xs <= fuel)%nat -> verify_loop fuel s head p (hd head xs) = Ok tt.
Proof.
  revert fuel p. induction xs as [|x xs IH]; intros fuel p S Nh Hf; cbn [hd].
  - destruct fuel; cbn [verify_loop]; rewrite Z.eqb_refl; reflexivity.
  - destruct fuel as [|fuel]; [cbn in Hf; lia|]. cbn [verify_loop].
    destruct (Z.eqb_spec x head); [set_solver|]. destruct S as (_ & H2 & S).
    rewrite (get_prev_Ok _ _ _ H2). cbn [mbind outcome_bind]. rewrite Z.eqb_refl.
    rewrite (get_next_Ok _ _ _ (seg_first _ _ _ _ S)). cbn [c_assert mbind outcome_bind].
    apply IH; [exact S|set_solver|cbn in Hf; lia].
Qed.

(** The links before the first that compares below the item. *)
Fixpoint inorder_prefix (compare : Z -> Z -> Z) (item : Z) (xs : list Z) : list Z :=
  match xs with
  | [] => []
  | x :: xs => if compare x item <? 0 then [] else x :: inorder_prefix compare item xs
  end.

Lemma inorder_prefix_split compare item xs :
  exists ys, xs = inorder_prefix compare item xs ++ ys.
Proof.
  induction xs as [|x xs [ys IH]]; cbn [inorder_prefix]; [exists []; reflexivity|].
  destruct (compare x item <? 0); [exists (x :: xs); reflexivity|].
  exists ys. cbn. f_equal. exact IH.
Qed.

Lemma inorder_loop_spec fuel compare s head item p xs : seg s p xs head -> head ∉ xs ->
  (length xs <= fuel)%nat ->
  inorder_loop fuel compare s head item p (hd head xs) =
    Ok (List.last (inorder_prefix compare item xs) p).
Proof.
  revert fuel p. induction xs as [|x xs IH]; intros fuel p S Nh Hf; cbn [hd inorder_prefix].
  - destruct fuel; cbn [inorder_loop]; rewrite Z.eqb_refl; reflexivity.
  - destruct fuel as [|fuel]; [cbn in Hf; lia|]. cbn [inorder_loop].
    destruct (Z.eqb_spec x head); [set_solver|]. destruct S as (_ & H2 & S).
    destruct (compare x item <? 0); [reflexivity|].
    rewrite (get_next_Ok _ _ _ (seg_first _ _ _ _ S)). cbn [mbind outcome_bind].
    rewrite last_cons. apply IH; [exact S|set_solver|cbn in Hf; lia].
Qed.

Lemma inorder_spec fuel compare s head xs item : is_list s head xs -> (length xs <= fuel)%nat ->
  item ∉ head :: xs -> is_Some (s !! item) ->
  exists s' ys, list_add_inorder fuel compare s head item = Ok s' /\ xs = inorder_prefix compare item xs ++ ys /\
    is_list s' head (inorder_prefix compare item xs ++ item :: ys) /\ unchanged s s' (item :: head :: xs).
Proof.
  intros L Hf Ni Di. pose proof L as [ND S]. apply list.NoDup_cons in ND as [Nh ND].
  destruct (inorder_prefix_split compare item xs) as [ys E].
  set (l1 := inorder_prefix compare item xs) in *. rewrite E in L, Ni.
  destruct (insert_spec s head l1 ys item L Ni Di) as (s' & EI & L' & U).
  exists s', ys. rewrite <- E in U. split; [|auto]. unfold list_add_inorder.
  rewrite (get_next_Ok _ _ _ (seg_first _ _ _ _ S)). cbn [mbind outcome_bind].
  rewrite (inorder_loop_spec fuel compare s head item head xs S Nh Hf).
  cbn [mbind outcome_bind]. fold l1. unfold list_add.
  destruct L as [_ SL]. apply seg_cut in SL as [S1 _].
  rewrite (get_next_Ok s (List.last l1 head) (hd head ys)); [exact EI|].
  clear -S1. revert S1. generalize (hd head ys) as q. revert head.
  induction l1 as [|z l1 IH]; intros p q S1; [apply S1|].
  rewrite last_cons. apply IH, S1.
Qed.

(** [list_foreach] visits exactly the sequence, [list_count] is its length,
    [list_verify] passes and [list_empty] tests it for emptiness; and
    [list_add_inorder] inserts after the longest prefix of links that do not
    compare below the item. *)
Theorem list_walk_spec fuel compare s head xs : is_list s head xs -> (length xs <= fuel)%nat ->
  list_foreach fuel s head = Ok xs /\
  list_count fuel s head = Ok (Z.of_nat (length xs)) /\
  list_verify fuel s head = Ok tt /\
  (exists b, list_empty s head = Ok b /\ (b = true <-> xs = [])) /\
  (forall item, item ∉ head :: xs -> is_Some (s !! item) ->
     exists s' ys, list_add_inorder fuel compare s head item = Ok s' /\
       xs = inorder_prefix compare item xs ++ ys /\
       is_list s' head (inorder_prefix compare item xs ++ item :: ys)).
Proof.
  intros L Hf. pose proof L as [ND S]. apply list.NoDup_cons in ND as [Nh ND].
  assert (F : list_foreach fuel s head = Ok xs).
  { unfold list_foreach. rewrite (get_next_Ok _ _ _ (seg_first _ _ _ _ S)).
    eapply foreach_loop_spec; eauto. }
  split; [exact F|]. split; [unfold list_count; rewrite F; reflexivity|].
  split; [|split].
  - unfold list_verify. rewrite (get_next_Ok _ _ _ (seg_first _ _ _ _ S)).
    eapply verify_loop_spec; eauto.
  - eexists. split; [apply list_empty_spec, L|]. apply bool_decide_eq_true.
  - intros item Ni Di. destruct (inorder_spec fuel compare s head xs item L Hf Ni Di) as (s' & ys & E1 & E2 & L' & _). eauto.
Qed.

Lemma list_walk_spec_witness :
  list_foreach 5 demo_links 1 = Ok [2] /\
  list_count 5 demo_links 1 = Ok 1 /\
  list_verify 5 demo_links 1 = Ok tt /\
  (exists b, list_empty demo_links 1 = Ok b /\ (b = true <-> [2] = [])) /\
  (forall item, item ∉ [1; 2] -> is_Some (demo_links !! item) ->
     exists s' ys, list_add_inorder 5 Z.sub demo_links 1 item = Ok s' /\
       [2] = inorder_prefix Z.sub item [2] ++ ys /\
       is_list s' 1 (inorder_prefix Z.sub item [2] ++ item :: ys)).
Proof. apply (list_walk_spec 5 Z.sub demo_links 1 [2] demo_is_list). cbn. lia. Defined.
