(* ===== verification/Hashmap.v ===== *)
(** * Hash maps: lib/adt/hashmap.c

    Buckets, nodes and bucket arrays are objects of one heap; the links of the
    node lists are those of [Lists].  A bucket and a node start with their
    [struct list], so an object and its link have the same address.  Released
    objects leave the heap: an access to one is [Undef].  The allocator is a
    parameter, constrained by what kernel/src/mm/kmalloc.c promises. *)

From stdpp Require Import gmap.
From S2P Require Import Prelude Arith Lists.

Record node := Node { n_key : Z; n_data : list Z }.
Record hstore := HStore {
  s_links : gmap Z link; s_nodes : gmap Z node; s_arrays : gmap Z (list Z)
}.

(** [hash] is [None] for NULL; the callbacks of the repository read the key only. *)
Record hashmap := HM {
  buckets : Z; bucket_count : Z; object_size : Z; hash : option (Z -> Z); cb_info : Z
}.

Definition HASHMAP_INIT (obj_size count : Z) (h : option (Z -> Z)) (info : Z) : hashmap :=
  HM 0 count obj_size h info.
Definition hashmap_no_hash (key : Z) : Z := u32 key.

Definition set_buckets (hm : hashmap) (p count : Z) : hashmap :=
  HM p count (object_size hm) (hash hm) (cb_info hm).

Definition with_links (s : hstore) (l : gmap Z link) : hstore :=
  HStore l (s_nodes s) (s_arrays s).

(** Field access through a node pointer. *)
Definition get_node (s : hstore) (p : Z) : outcome node :=
  match s_nodes s !! p with Some n => Ok n | None => Undef end.
(** [hashmap->buckets[i]], read and written. *)
Definition get_bucket (s : hstore) (hm : hashmap) (i : Z) : outcome Z :=
  match s_arrays s !! buckets hm with
  | Some bs => match bs !! Z.to_nat i with Some b => Ok b | None => Undef end
  | None => Undef
  end.
Definition set_bucket (s : hstore) (hm : hashmap) (i v : Z) : outcome hstore :=
  match s_arrays s !! buckets hm with
  | Some bs =>
      match bs !! Z.to_nat i with
      | Some _ => Ok (HStore (s_links s) (s_nodes s)
                        (<[buckets hm := <[Z.to_nat i := v]> bs]> (s_arrays s)))
      | None => Undef
      end
  | None => Undef
  end.

(** [free] of the three kinds of objects; freeing what is not there is undefined. *)
Definition free_array (s : hstore) (p : Z) : outcome hstore :=
  match s_arrays s !! p with
  | Some _ => Ok (HStore (s_links s) (s_nodes s) (delete p (s_arrays s)))
  | None => Undef
  end.
Definition free_bucket (s : hstore) (p : Z) : outcome hstore :=
  match s_links s !! p with
  | Some _ => Ok (HStore (delete p (s_links s)) (s_nodes s) (s_arrays s))
  | None => Undef
  end.
Definition free_node (s : hstore) (p : Z) : outcome hstore :=
  match s_links s !! p, s_nodes s !! p with
  | Some _, Some _ => Ok (HStore (delete p (s_links s)) (delete p (s_nodes s)) (s_arrays s))
  | _, _ => Undef
  end.

Definition hashmap_initialized (hm : hashmap) : bool :=
  negb (bucket_count hm =? 0) && negb (object_size hm =? 0).
Definition hash_of (hm : hashmap) (key : Z) : outcome Z :=
  match hash hm with
  | Some h => Ok (u32 (h key) mod bucket_count hm)
  | None => Undef
  end.

(** Fuel for a walk along one list: it meets each link of the heap once. *)
Definition walk_fuel (s : hstore) : nat := S (size (s_links s)).

(** [hashmap_bucket_foreach_node] up to the node with the key. *)
Fixpoint find_node (fuel : nat) (s : hstore) (head iter key : Z) : outcome (option Z) :=
  if iter =? head then Ok None
  else n ← get_node s iter;
       if n_key n =? key then Ok (Some iter)
       else match fuel with
            | O => Diverge
            | S fuel => next ← get_next (s_links s) iter; find_node fuel s head next key
            end.

Section WithAllocator.
(** The address and the size of a zeroed allocation, or [None]. *)
Context (kmalloc_size : hstore -> Z -> option (Z * Z)).

Definition calloc_size_buckets (s : hstore) (amt : Z) : outcome (option Z * Z * hstore) :=
  n ← check_mul_assert_w 32 (u32 amt) 8;
  match kmalloc_size s n with
  | Some (p, n') =>
      Ok (Some p, n' / 8,
          HStore (s_links s) (s_nodes s) (<[p := replicate (Z.to_nat (n' / 8)) 0]> (s_arrays s)))
  | None => Ok (None, 0 / 8, s)
  end.
Definition calloc_buckets (s : hstore) (amt : Z) : outcome (option Z * hstore) :=
  n ← check_mul_assert_w 32 (u32 amt) 8;
  match kmalloc_size s n with
  | Some (p, _) =>
      Ok (Some p, HStore (s_links s) (s_nodes s) (<[p := replicate (Z.to_nat amt) 0]> (s_arrays s)))
  | None => Ok (None, s)
  end.
(** [calloc(1, sizeof(struct hashmap_bucket))] *)
Definition calloc_bucket (s : hstore) : outcome (option Z * hstore) :=
  n ← check_mul_assert_w 32 1 16;
  match kmalloc_size s n with
  | Some (p, _) =>
      Ok (Some p, HStore (<[p := Link 0 0]> (s_links s)) (s_nodes s) (s_arrays s))
  | None => Ok (None, s)
  end.
(** [calloc(1, sizeof(struct hashmap_node) + object_size)] *)
Definition calloc_node (s : hstore) (object_size : Z) : outcome (option Z * hstore) :=
  n ← check_mul_assert_w 32 1 (24 + object_size);
  match kmalloc_size s n with
  | Some (p, _) =>
      Ok (Some p, HStore (<[p := Link 0 0]> (s_links s))
                    (<[p := Node 0 (replicate (Z.to_nat object_size) 0)]> (s_nodes s))
                    (s_arrays s))
  | None => Ok (None, s)
  end.

(** [memcpy(p->data, object, object_size)] and [p->key = key]. *)
Definition set_node (s : hstore) (p key : Z) (object : list Z) : outcome hstore :=
  _ ← get_node s p;
  Ok (HStore (s_links s) (<[p := Node key object]> (s_nodes s)) (s_arrays s)).

(** The allocation of the node and its insertion at the front, shared by
    [hashmap_add] and [hashmap_update]; a bucket left empty is released. *)
Definition insert_node (s : hstore) (hm : hashmap) (key_hash bucket key : Z) (object : list Z)
    : outcome (bool * hstore) :=
  '(node, s) ← calloc_node s (object_size hm);
  match node with
  | None =>
      e ← list_empty (s_links s) bucket;
      if e : bool then
        s ← set_bucket s hm key_hash 0;
        s ← free_bucket s bucket;
        Ok (false, s)
      else Ok (false, s)
  | Some node =>
      s ← set_node s node key object;
      l ← list_add (s_links s) bucket node;
      Ok (true, with_links s l)
  end.

(** A new bucket in slot [key_hash]. *)
Definition new_bucket (s : hstore) (hm : hashmap) (key_hash : Z) : outcome (option Z * hstore) :=
  '(bucket, s) ← calloc_bucket s;
  match bucket with
  | None => Ok (None, s)
  | Some b =>
      l ← list_init (s_links s) b;
      s ← set_bucket (with_links s l) hm key_hash b;
      Ok (Some b, s)
  end.

(** [if (alloced_buckets) { free(hashmap->buckets); hashmap->buckets = NULL; }] *)
Definition undo_buckets (alloced : bool) (s : hstore) (hm : hashmap)
    : outcome (bool * hstore * hashmap) :=
  if alloced then s ← free_array s (buckets hm); Ok (false, s, set_buckets hm 0 (bucket_count hm))
  else Ok (false, s, hm).

(** [hashmap_add] once there is a bucket array. *)
Definition add_to_buckets (alloced : bool) (s : hstore) (hm : hashmap) (key : Z) (object : list Z)
    : outcome (bool * hstore * hashmap) :=
  key_hash ← hash_of hm key;
  bucket ← get_bucket s hm key_hash;
  if negb (bucket =? 0) then
    first ← get_next (s_links s) bucket;
    found ← find_node (walk_fuel s) s bucket first key;
    match found with
    | Some _ =>
        e ← list_empty (s_links s) bucket;
        s ← (if e : bool then s ← set_bucket s hm key_hash 0; free_bucket s bucket else Ok s);
        undo_buckets alloced s hm
    | None =>
        '(ok, s) ← insert_node s hm key_hash bucket key object;
        if ok : bool then Ok (true, s, hm) else undo_buckets alloced s hm
    end
  else
    '(bucket, s) ← new_bucket s hm key_hash;
    match bucket with
    | None => undo_buckets alloced s hm
    | Some bucket =>
        '(ok, s) ← insert_node s hm key_hash bucket key object;
        if ok : bool then Ok (true, s, hm) else undo_buckets alloced s hm
    end.

Definition hashmap_add (s : hstore) (hm : hashmap) (key : Z) (object : list Z)
    : outcome (bool * hstore * hashmap) :=
  _ ← c_assert (hashmap_initialized hm);
  if buckets hm =? 0 then
    '(p, count, s) ← calloc_size_buckets s (bucket_count hm);
    match p with
    | None => Ok (false, s, set_buckets hm 0 count)
    | Some p => add_to_buckets true s (set_buckets hm p count) key object
    end
  else add_to_buckets false s hm key object.

Definition hashmap_update (s : hstore) (hm : hashmap) (key : Z) (object : list Z)
    (add_if_missing : bool) : outcome (bool * hstore * hashmap) :=
  _ ← c_assert (hashmap_initialized hm);
  if buckets hm =? 0 then
    if add_if_missing then hashmap_add s hm key object else Ok (false, s, hm)
  else
    key_hash ← hash_of hm key;
    bucket ← get_bucket s hm key_hash;
    if bucket =? 0 then
      if negb add_if_missing then Ok (false, s, hm) else
      '(bucket, s) ← new_bucket s hm key_hash;
      match bucket with
      | None => Ok (false, s, hm)
      | Some bucket =>
          '(ok, s) ← insert_node s hm key_hash bucket key object; Ok (ok, s, hm)
      end
    else
      first ← get_next (s_links s) bucket;
      found ← find_node (walk_fuel s) s bucket first key;
      match found with
      | Some p => s ← set_node s p key object; Ok (true, s, hm)
      | None =>
          if negb add_if_missing then Ok (false, s, hm)
          else '(ok, s) ← insert_node s hm key_hash bucket key object; Ok (ok, s, hm)
      end.

(** The node whose data the returned pointer points to. *)
Definition hashmap_get (s : hstore) (hm : hashmap) (key : Z) : outcome (option Z) :=
  _ ← c_assert (hashmap_initialized hm);
  if buckets hm =? 0 then Ok None else
  key_hash ← hash_of hm key;
  bucket ← get_bucket s hm key_hash;
  if bucket =? 0 then Ok None else
  first ← get_next (s_links s) bucket;
  find_node (walk_fuel s) s bucket first key.

(** [list_foreach_mut]: [tmp] is read before the body runs. *)
Fixpoint find_node_mut (fuel : nat) (s : hstore) (head iter tmp key : Z) : outcome (option Z) :=
  if iter =? head then Ok None
  else n ← get_node s iter;
       if n_key n =? key then Ok (Some iter)
       else match fuel with
            | O => Diverge
            | S fuel => next ← get_next (s_links s) tmp; find_node_mut fuel s head tmp next key
            end.

(** What [hashmap_remove] does once it has found the node; the data copied out is returned. *)
Definition remove_found (s : hstore) (hm : hashmap) (i bucket iter : Z)
    : outcome (option (list Z) * hstore) :=
  l ← list_deinit (s_links s) iter;
  let s := with_links s l in
  e ← list_empty (s_links s) bucket;
  s ← (if e : bool then s ← set_bucket s hm i 0; free_bucket s bucket else Ok s);
  n ← get_node s iter;
  s ← free_node s iter;
  Ok (Some (n_data n), s).

Definition hashmap_remove (s : hstore) (hm : hashmap) (key : Z)
    : outcome (option (list Z) * hstore) :=
  _ ← c_assert (hashmap_initialized hm);
  if buckets hm =? 0 then Ok (None, s) else
  key_hash ← hash_of hm key;
  bucket ← get_bucket s hm key_hash;
  if bucket =? 0 then Ok (None, s) else
  iter ← get_next (s_links s) bucket;
  tmp ← get_next (s_links s) iter;
  found ← find_node_mut (walk_fuel s) s bucket iter tmp key;
  match found with
  | None => Ok (None, s)
  | Some iter => remove_found s hm key_hash bucket iter
  end.

(** [list_foreach_mut(node, tmp, ...) free(node);] *)
Fixpoint free_nodes (fuel : nat) (s : hstore) (head iter tmp : Z) : outcome hstore :=
  if iter =? head then Ok s
  else s ← free_node s iter;
       match fuel with
       | O => Diverge
       | S fuel => next ← get_next (s_links s) tmp; free_nodes fuel s head tmp next
       end.

Fixpoint destroy_slots (todo : nat) (s : hstore) (p : Z) (i : nat) : outcome hstore :=
  match todo with
  | O => Ok s
  | S todo =>
      match s_arrays s !! p with
      | Some bs =>
          match bs !! i with
          | Some bucket =>
              if bucket =? 0 then destroy_slots todo s p (S i)
              else
                iter ← get_next (s_links s) bucket;
                tmp ← get_next (s_links s) iter;
                s ← free_nodes (walk_fuel s) s bucket iter tmp;
                s ← free_bucket s bucket;
                destroy_slots todo s p (S i)
          | None => Undef
          end
      | None => Undef
      end
  end.

Definition destroy_hashmap_buckets (s : hstore) (p count : Z) : outcome hstore :=
  s ← destroy_slots (Z.to_nat count) s p 0;
  free_array s p.

Definition hashmap_destroy (s : hstore) (hm : hashmap) : outcome (hstore * hashmap) :=
  s ← destroy_hashmap_buckets s (buckets hm) (bucket_count hm);
  Ok (s, HM 0 0 0 None 0).

(** The inner loop of [hashmap_resize]: every node of an old bucket is added. *)
Fixpoint rehash_nodes (fuel : nat) (s : hstore) (hm : hashmap) (head jter : Z)
    : outcome (bool * hstore * hashmap) :=
  if jter =? head then Ok (true, s, hm)
  else n ← get_node s jter;
       '(ok, s, hm) ← hashmap_add s hm (n_key n) (n_data n);
       if negb ok then Ok (false, s, hm)
       else match fuel with
            | O => Diverge
            | S fuel => next ← get_next (s_links s) jter; rehash_nodes fuel s hm head next
            end.

Fixpoint rehash_slots (todo : nat) (s : hstore) (hm : hashmap) (old : Z) (i : nat)
    : outcome (bool * hstore * hashmap) :=
  match todo with
  | O => Ok (true, s, hm)
  | S todo =>
      match s_arrays s !! old with
      | Some bs =>
          match bs !! i with
          | Some bucket =>
              if bucket =? 0 then rehash_slots todo s hm old (S i)
              else
                first ← get_next (s_links s) bucket;
                '(ok, s, hm) ← rehash_nodes (walk_fuel s) s hm bucket first;
                if negb ok then Ok (false, s, hm) else rehash_slots todo s hm old (S i)
          | None => Undef
          end
      | None => Undef
      end
  end.

Definition hashmap_resize (s : hstore) (hm : hashmap) (count : Z)
    : outcome (bool * hstore * hashmap) :=
  _ ← c_assert (hashmap_initialized hm);
  _ ← c_assert (negb (count =? 0));
  if bucket_count hm =? count then Ok (true, s, hm) else
  '(p, s) ← calloc_buckets s count;
  match p with
  | None => Ok (false, s, hm)
  | Some p =>
      let old_buckets := buckets hm in
      let old_bucket_count := bucket_count hm in
      '(ok, s, hm) ← rehash_slots (Z.to_nat old_bucket_count) s (set_buckets hm p count) old_buckets 0;
      if negb ok then
        '(s, hm) ← hashmap_destroy s hm;
        Ok (false, s, set_buckets hm old_buckets old_bucket_count)
      else
        s ← (if negb (old_buckets =? 0)
             then destroy_hashmap_buckets s old_buckets old_bucket_count else Ok s);
        Ok (true, s, hm)
  end.

End WithAllocator.

(** ** The finite map a hash map stands for *)

Fixpoint assoc (k : Z) (kvs : list (Z * list Z)) : option (list Z) :=
  match kvs with
  | [] => None
  | (k', d) :: kvs => if k' =? k then Some d else assoc k kvs
  end.

(** One entry of the bucket array: the bucket, its nodes and their contents. *)
Record slot := Slot { sl_head : Z; sl_links : list Z; sl_kvs : list (Z * list Z) }.
Definition empty_slot : slot := Slot 0 [] [].

(** The objects of a slot. *)
Definition foot (sl : slot) : list Z :=
  if sl_head sl =? 0 then [] else sl_head sl :: sl_links sl.

Definition nodes_ok (s : hstore) (xs : list Z) (kvs : list (Z * list Z)) : Prop :=
  Forall2 (fun x kv => s_nodes s !! x = Some (Node kv.1 kv.2)) xs kvs.

(** A bucket with its nodes; [slot_ok] adds that no empty bucket is kept. *)
Definition bucket_ok (s : hstore) (sl : slot) : Prop :=
  sl_head sl <> 0 /\ is_list (s_links s) (sl_head sl) (sl_links sl) /\
  nodes_ok s (sl_links sl) (sl_kvs sl).
Definition slot_ok (s : hstore) (sl : slot) : Prop :=
  sl = empty_slot \/ (bucket_ok s sl /\ sl_links sl <> []).

(** The two heaps agree outside [F]. *)
Definition agree (s s' : hstore) (F : list Z) : Prop :=
  forall x, x ∉ F -> s_links s' !! x = s_links s !! x /\ s_nodes s' !! x = s_nodes s !! x.

Definition key_slot (h : Z -> Z) (hm : hashmap) (k : Z) : nat :=
  Z.to_nat (u32 (h k) mod bucket_count hm).

Record hm_rep (h : Z -> Z) (s : hstore) (hm : hashmap) (slots : list slot)
    (M : gmap Z (list Z)) : Prop := {
  rep_hash : hash hm = Some h;
  rep_count : Z.of_nat (length slots) = bucket_count hm;
  rep_count_pos : 0 < bucket_count hm < 2 ^ 32;
  rep_obj : 0 < object_size hm /\ 24 + object_size hm < 2 ^ 32;
  rep_nz : buckets hm <> 0;
  rep_array : s_arrays s !! buckets hm = Some (sl_head <$> slots);
  rep_slot : forall i sl, slots !! i = Some sl ->
    slot_ok s sl /\ NoDup (sl_kvs sl).*1 /\
    Forall (fun kv => key_slot h hm kv.1 = i) (sl_kvs sl);
  rep_disj : forall i j sl sl', i <> j -> slots !! i = Some sl -> slots !! j = Some sl' ->
    foot sl ## foot sl';
  rep_map : forall k, M !! k = slots !! key_slot h hm k ≫= fun sl => assoc k (sl_kvs sl)
}.

Lemma agree_refl s F : agree s s F.
Proof. intros x _. auto. Qed.
Lemma agree_trans s1 s2 s3 F : agree s1 s2 F -> agree s2 s3 F -> agree s1 s3 F.
Proof. intros A B x Hx. destruct (A x Hx), (B x Hx). split; congruence. Qed.
Lemma agree_mono s s' F F' : F ⊆ F' -> agree s s' F -> agree s s' F'.
Proof. intros H A x Hx. apply A. set_solver. Qed.

(** A list operation of [Lists] changes the links it names only. *)
Lemma unchanged_lookup (l l' : gmap Z link) xs x : unchanged l l' xs -> x ∉ xs -> l' !! x = l !! x.
Proof.
  intros U Hx. destruct (U x Hx) as [N P]. unfold nextp, prevp in *.
  destruct (l' !! x) as [[p n]|], (l !! x) as [[p' n']|]; cbn in *; congruence.
Qed.
Lemma lookup_views (l l' : gmap Z link) x : l' !! x = l !! x ->
  nextp l' x = nextp l x /\ prevp l' x = prevp l x.
Proof. unfold nextp, prevp. intros ->. auto. Qed.

Lemma is_list_agree s s' F b xs : agree s s' F -> (b :: xs) ## F ->
  is_list (s_links s) b xs -> is_list (s_links s') b xs.
Proof.
  intros A D [ND S]. split; [exact ND|]. revert S.
  apply seg_ext; intros x Hx; apply lookup_views, A; intros HF; apply (D x); auto.
  rewrite elem_of_app, list_elem_of_singleton in Hx. rewrite elem_of_cons. tauto.
Qed.

Lemma nodes_ok_ext s s' xs kvs : (forall x, x ∈ xs -> s_nodes s' !! x = s_nodes s !! x) ->
  nodes_ok s xs kvs -> nodes_ok s' xs kvs.
Proof.
  intros A H. induction H as [|x kv xs kvs Hx _ IH]; constructor.
  - rewrite <- Hx. apply A, list_elem_of_here.
  - apply IH. intros y Hy. apply A, list_elem_of_further, Hy.
Qed.
Lemma nodes_ok_agree s s' F xs kvs : agree s s' F -> xs ## F -> nodes_ok s xs kvs -> nodes_ok s' xs kvs.
Proof. intros A D. apply nodes_ok_ext. intros x Hx. apply A. intros HF. apply (D x Hx HF). Qed.

Lemma bucket_ok_agree s s' F sl : agree s s' F -> (sl_head sl :: sl_links sl) ## F ->
  bucket_ok s sl -> bucket_ok s' sl.
Proof.
  intros A D (H0 & L & N). split; [exact H0|]. split; [eapply is_list_agree; eauto|].
  eapply nodes_ok_agree; eauto. intros x Hx. apply D, list_elem_of_further, Hx.
Qed.

Lemma foot_bucket sl : sl_head sl <> 0 -> foot sl = sl_head sl :: sl_links sl.
Proof. intros H. unfold foot. destruct (Z.eqb_spec (sl_head sl) 0); [congruence|reflexivity]. Qed.

Lemma slot_ok_agree s s' F sl : agree s s' F -> foot sl ## F -> slot_ok s sl -> slot_ok s' sl.
Proof.
  intros A D [->|[B N]]; [left; reflexivity|right]. split; [|exact N].
  eapply bucket_ok_agree; eauto. rewrite <- foot_bucket; [exact D|apply B].
Qed.

(** Objects of a slot are in the heap. *)
Lemma is_list_dom l b xs x : is_list l b xs -> x ∈ b :: xs -> is_Some (l !! x).
Proof. intros [_ S] Hx. eapply seg_dom; eauto. Qed.
Lemma foot_dom s sl x : slot_ok s sl -> x ∈ foot sl -> is_Some (s_links s !! x).
Proof.
  intros [->|[(H0 & L & N) _]] Hx; [cbn in Hx; set_solver|].
  rewrite foot_bucket in Hx by exact H0. eapply is_list_dom; eauto.
Qed.

(** *** Walking one bucket *)

Lemma walk_length s b xs : is_list (s_links s) b xs -> (length xs < walk_fuel s)%nat.
Proof.
  intros L. pose proof L as [ND _]. apply list.NoDup_cons in ND as [_ ND].
  assert (list_to_set xs ⊆ dom (s_links s)) as H.
  { intros x Hx. apply elem_of_dom. eapply is_list_dom; [exact L|].
    apply list_elem_of_further. set_solver. }
  apply subseteq_size in H. rewrite size_list_to_set, size_dom in H by exact ND.
  unfold walk_fuel. lia.
Qed.

Lemma find_node_spec fuel s b xs kvs p key : seg (s_links s) p xs b -> b ∉ xs ->
  nodes_ok s xs kvs -> (length xs <= fuel)%nat ->
  exists r, find_node fuel s b (hd b xs) key = Ok r /\
    match r with
    | None => assoc key kvs = None
    | Some x => exists l1 l2 k1 k2 d, xs = l1 ++ x :: l2 /\ kvs = k1 ++ (key, d) :: k2 /\
                  length l1 = length k1 /\ assoc key k1 = None
    end.
Proof.
  intros S Nb NO. revert fuel p S. induction NO as [|x [k d] xs kvs Hx NO IH]; intros fuel p S Hf.
  - exists None. destruct fuel; cbn; rewrite Z.eqb_refl; auto.
  - destruct fuel as [|fuel]; [cbn in Hf; lia|]. cbn [find_node hd].
    destruct (Z.eqb_spec x b) as [->|_]; [exfalso; apply Nb, list_elem_of_here|].
    unfold get_node. rewrite Hx. cbn [mbind outcome_bind n_key]. cbn [fst snd].
    destruct (Z.eqb_spec k key) as [->|Hk].
    + exists (Some x). split; [reflexivity|]. exists [], xs, [], kvs, d. auto.
    + destruct S as (_ & _ & S). rewrite (get_next_Ok _ _ _ (seg_first _ _ _ _ S)).
      cbn [mbind outcome_bind].
      destruct (IH ltac:(intros H; apply Nb, list_elem_of_further, H) fuel x S ltac:(cbn in Hf; lia))
        as (r & -> & R).
      exists r. split; [reflexivity|]. destruct r as [y|]; cbn [assoc].
      * destruct R as (l1 & l2 & k1 & k2 & d' & -> & -> & EL & A).
        exists (x :: l1), l2, ((k, d) :: k1), k2, d'. split; [reflexivity|]. split; [reflexivity|].
        split; [cbn; congruence|]. cbn. destruct (Z.eqb_spec k key); [congruence|exact A].
      * destruct (Z.eqb_spec k key); [congruence|exact R].
Qed.

Lemma assoc_app k k1 k2 : assoc k k1 = None -> assoc k (k1 ++ k2) = assoc k k2.
Proof.
  induction k1 as [|[k' d] k1 IH]; cbn; [reflexivity|].
  destruct (k' =? k); [discriminate|exact IH].
Qed.
Lemma assoc_None k kvs : assoc k kvs = None <-> k ∉ kvs.*1.
Proof.
  induction kvs as [|[k' d] kvs IH]; cbn; [split; [intros _; apply not_elem_of_nil|reflexivity]|].
  rewrite not_elem_of_cons, <- IH. destruct (Z.eqb_spec k' k) as [->|Hne].
  - split; [discriminate|]. intros [H _]. congruence.
  - split; [auto|tauto].
Qed.

Lemma assoc_mid k d k1 k2 k' : assoc k k1 = None ->
  assoc k' (k1 ++ (k, d) :: k2) = if k =? k' then Some d else assoc k' (k1 ++ k2).
Proof.
  induction k1 as [|[k0 d0] k1 IH]; cbn; [reflexivity|].
  destruct (Z.eqb_spec k0 k); [discriminate|]. intros N. rewrite (IH N).
  destruct (Z.eqb_spec k0 k'), (Z.eqb_spec k k'); congruence.
Qed.

(** [find_node] on a bucket. *)
Lemma find_bucket s sl key : bucket_ok s sl ->
  exists first r, get_next (s_links s) (sl_head sl) = Ok first /\
    find_node (walk_fuel s) s (sl_head sl) first key = Ok r /\
    match r with
    | None => assoc key (sl_kvs sl) = None
    | Some x => exists l1 l2 k1 k2 d, sl_links sl = l1 ++ x :: l2 /\
                  sl_kvs sl = k1 ++ (key, d) :: k2 /\ length l1 = length k1 /\ assoc key k1 = None
    end.
Proof.
  intros (H0 & L & N). pose proof L as [ND S]. apply list.NoDup_cons in ND as [Nb _].
  exists (hd (sl_head sl) (sl_links sl)).
  destruct (find_node_spec (walk_fuel s) s (sl_head sl) _ _ _ key S Nb N) as (r & E & R).
  { pose proof (walk_length s _ _ L). lia. }
  exists r. split; [apply get_next_Ok, (seg_first _ _ _ _ S)|]. auto.
Qed.

(** The loop of [list_foreach_mut] sees the same nodes; [f] is the first node. *)
Lemma find_node_mut_eq fuel s b xs p key f : seg (s_links s) p xs b -> b ∉ xs ->
  nextp (s_links s) b = Some f ->
  find_node_mut fuel s b (hd b xs) (match xs with [] => f | _ :: xs' => hd b xs' end) key =
  find_node fuel s b (hd b xs) key.
Proof.
  intros S Nb Hf. revert fuel p S. induction xs as [|x xs IH]; intros fuel p S.
  - cbn [hd]. destruct fuel; cbn; rewrite Z.eqb_refl; reflexivity.
  - destruct S as (_ & _ & S). destruct fuel as [|fuel]; cbn [find_node_mut find_node hd].
    + reflexivity.
    + destruct (x =? b); [reflexivity|]. destruct (get_node s x) as [n| | |]; try reflexivity.
      cbn [mbind outcome_bind]. destruct (n_key n =? key); [reflexivity|].
      rewrite (get_next_Ok _ _ _ (seg_first _ _ _ _ S)). cbn [mbind outcome_bind].
      rewrite <- (IH ltac:(intros H; apply Nb, list_elem_of_further, H) fuel x S).
      destruct xs as [|y xs]; cbn [hd].
      * rewrite (get_next_Ok _ _ _ Hf). reflexivity.
      * destruct S as (_ & _ & S). rewrite (get_next_Ok _ _ _ (seg_first _ _ _ _ S)). reflexivity.
Qed.

Lemma find_bucket_mut s sl key : bucket_ok s sl ->
  exists iter tmp, get_next (s_links s) (sl_head sl) = Ok iter /\
    get_next (s_links s) iter = Ok tmp /\
    find_node_mut (walk_fuel s) s (sl_head sl) iter tmp key =
    find_node (walk_fuel s) s (sl_head sl) iter key.
Proof.
  intros (H0 & L & N). destruct L as [ND S]. apply list.NoDup_cons in ND as [Nb _].
  pose proof (seg_first _ _ _ _ S) as F.
  eexists _, _. split; [apply get_next_Ok, F|]. split; [|eapply find_node_mut_eq; eauto].
  destruct (sl_links sl) as [|x xs]; cbn [hd] in *; [apply get_next_Ok, F|].
  destruct S as (_ & _ & S). apply get_next_Ok, (seg_first _ _ _ _ S).
Qed.

(** *** Replacing one slot *)

(** [x] is an object of the map. *)
Definition owned (slots : list slot) (x : Z) : Prop :=
  exists i sl, slots !! i = Some sl /\ x ∈ foot sl.

(** Objects that are not the map's are untouched and stay foreign, as are the
    arrays of other maps. *)
Definition hm_frame (s : hstore) (slots : list slot) (s' : hstore) (slots' : list slot)
    (hm : hashmap) : Prop :=
  (forall x, is_Some (s_links s !! x) -> ~ owned slots x ->
     s_links s' !! x = s_links s !! x /\ s_nodes s' !! x = s_nodes s !! x /\ ~ owned slots' x) /\
  (forall p, p <> buckets hm -> s_arrays s' !! p = s_arrays s !! p).

Lemma hm_frame_refl s slots hm : hm_frame s slots s slots hm.
Proof. split; auto. Qed.
Lemma hm_frame_trans s1 l1 s2 l2 s3 l3 hm : hm_frame s1 l1 s2 l2 hm -> hm_frame s2 l2 s3 l3 hm ->
  hm_frame s1 l1 s3 l3 hm.
Proof.
  intros [A1 B1] [A2 B2]. split.
  - intros x Hx Ho. destruct (A1 x Hx Ho) as (E1 & E2 & E3).
    destruct (A2 x ltac:(rewrite E1; exact Hx) E3) as (E4 & E5 & E6). split; [|split]; congruence || auto.
  - intros p Hp. rewrite B2, B1; auto.
Qed.

(** Slot [i] becomes [sl2]; the change touches its own and fresh objects only. *)
Lemma rep_update h s s' hm slots M i sl sl2 F M' : hm_rep h s hm slots M -> slots !! i = Some sl ->
  agree s s' F -> (forall x, x ∈ F -> x ∈ foot sl \/ s_links s !! x = None) ->
  s_arrays s' = <[buckets hm := <[i := sl_head sl2]> (sl_head <$> slots)]> (s_arrays s) ->
  slot_ok s' sl2 -> foot sl2 ⊆ F -> NoDup (sl_kvs sl2).*1 ->
  Forall (fun kv => key_slot h hm kv.1 = i) (sl_kvs sl2) ->
  (forall k, M' !! k = if decide (key_slot h hm k = i) then assoc k (sl_kvs sl2) else M !! k) ->
  hm_rep h s' hm (<[i := sl2]> slots) M' /\ hm_frame s slots s' (<[i := sl2]> slots) hm.
Proof.
  intros [R1 R2 R3 R4 R5 R6 R7 R8 R9] Hi A HF' HA HS HF ND HK HM.
  assert (Hlt : (i < length slots)%nat) by (apply lookup_lt_Some in Hi; exact Hi).
  assert (D : forall j sl', j <> i -> slots !! j = Some sl' -> foot sl' ## F).
  { intros j sl' Hj Hs x Hx1 Hx2. destruct (HF' x Hx2) as [Hx3|Hx3].
    - apply (R8 j i sl' sl Hj Hs Hi x Hx1 Hx3).
    - destruct (foot_dom s sl' x) as [? E]; [apply (R7 j sl' Hs)|exact Hx1|congruence]. }
  split; [split; auto|].
  - rewrite length_insert. exact R2.
  - rewrite HA, lookup_insert_eq, list_fmap_insert. reflexivity.
  - intros j sl' Hj. destruct (decide (j = i)) as [->|Hne].
    + rewrite list_lookup_insert_eq in Hj by exact Hlt. injection Hj as <-. auto.
    + rewrite list_lookup_insert_ne in Hj by auto. destruct (R7 j sl' Hj) as (S1 & S2 & S3).
      split; [|auto]. eapply slot_ok_agree; eauto.
  - intros j k sj sk Hjk Hj Hk.
    destruct (decide (j = i)) as [->|Hj']; destruct (decide (k = i)) as [->|Hk'];
      rewrite ?list_lookup_insert_eq, ?list_lookup_insert_ne in * by auto; simplify_eq; eauto;
      intros x Hx1 Hx2.
    + apply (D k sk Hk' Hk x Hx2), HF, Hx1.
    + apply (D j sj Hj' Hj x Hx1), HF, Hx2.
  - intros k. rewrite HM, R9. destruct (decide (key_slot h hm k = i)) as [->|Hne].
    + rewrite list_lookup_insert_eq by exact Hlt. reflexivity.
    + rewrite list_lookup_insert_ne by auto. reflexivity.
  - split.
    + intros x [lk Hx] Ho. assert (NF : x ∉ F).
      { intros HxF. destruct (HF' x HxF) as [H'|H']; [|congruence]. apply Ho. exists i, sl. auto. }
      destruct (A x NF) as [E1 E2]. split; [exact E1|]. split; [exact E2|].
      intros (j & sj & Hj & Hxj). destruct (decide (j = i)) as [->|Hne].
      * rewrite list_lookup_insert_eq in Hj by exact Hlt. injection Hj as <-. apply NF, HF, Hxj.
      * rewrite list_lookup_insert_ne in Hj by auto. apply Ho. exists j, sj. auto.
    + intros p Hp. rewrite HA, lookup_insert_ne by auto. reflexivity.
Qed.

Lemma key_slot_lt h s hm slots M k : hm_rep h s hm slots M -> (key_slot h hm k < length slots)%nat.
Proof.
  intros R. unfold key_slot. pose proof (rep_count _ _ _ _ _ R). pose proof (rep_count_pos _ _ _ _ _ R).
  pose proof (Z.mod_pos_bound (u32 (h k)) (bucket_count hm) ltac:(lia)). lia.
Qed.

(** The slot a key belongs to, and what the code reads there. *)
Lemma rep_lookup h s hm slots M k : hm_rep h s hm slots M ->
  exists i sl, hash_of hm k = Ok i /\ Z.to_nat i = key_slot h hm k /\
    slots !! key_slot h hm k = Some sl /\ get_bucket s hm i = Ok (sl_head sl) /\
    M !! k = assoc k (sl_kvs sl).
Proof.
  intros R. pose proof (key_slot_lt _ _ _ _ _ k R) as Hlt.
  apply lookup_lt_is_Some in Hlt as [sl Hsl].
  exists (u32 (h k) mod bucket_count hm), sl.
  unfold hash_of. rewrite (rep_hash _ _ _ _ _ R). split; [reflexivity|]. split; [reflexivity|].
  split; [exact Hsl|]. split.
  - unfold get_bucket. rewrite (rep_array _ _ _ _ _ R).
    fold (key_slot h hm k). rewrite list_lookup_fmap, Hsl. reflexivity.
  - rewrite (rep_map _ _ _ _ _ R), Hsl. reflexivity.
Qed.

Lemma slots_insert_id hm s slots i (sl : slot) : s_arrays s !! buckets hm = Some (sl_head <$> slots) ->
  slots !! i = Some sl ->
  s_arrays s = <[buckets hm := <[i := sl_head sl]> (sl_head <$> slots)]> (s_arrays s).
Proof.
  intros HA Hi. rewrite list_insert_id by (rewrite list_lookup_fmap, Hi; reflexivity).
  symmetry. apply insert_id. exact HA.
Qed.

(** The map after a new entry in front of slot [i]. *)
Lemma map_insert_slot h s hm slots M k d i sl : hm_rep h s hm slots M -> slots !! i = Some sl ->
  key_slot h hm k = i ->
  forall k', <[k := d]> M !! k' =
    if decide (key_slot h hm k' = i) then assoc k' ((k, d) :: sl_kvs sl) else M !! k'.
Proof.
  intros R Hi Hk k'. cbn [assoc]. destruct (Z.eqb_spec k k') as [<-|Hne].
  - rewrite lookup_insert_eq, decide_True by auto. reflexivity.
  - rewrite lookup_insert_ne by auto. destruct (decide (key_slot h hm k' = i)) as [E|E]; [|reflexivity].
    rewrite (rep_map _ _ _ _ _ R), E, Hi. reflexivity.
Qed.

(** The map after the entry of [k] in slot [i] is replaced or removed. *)
Lemma map_change_slot h s hm slots M k d i sl k1 k2 : hm_rep h s hm slots M -> slots !! i = Some sl ->
  key_slot h hm k = i -> sl_kvs sl = k1 ++ (k, d) :: k2 -> assoc k k1 = None ->
  (forall d' k', <[k := d']> M !! k' =
     if decide (key_slot h hm k' = i) then assoc k' (k1 ++ (k, d') :: k2) else M !! k') /\
  (NoDup (sl_kvs sl).*1 -> forall k', delete k M !! k' =
     if decide (key_slot h hm k' = i) then assoc k' (k1 ++ k2) else M !! k').
Proof.
  intros R Hi Hk EK N.
  assert (Old : forall k', k' <> k -> key_slot h hm k' = i -> M !! k' = assoc k' (k1 ++ k2)).
  { intros k' Hne E. rewrite (rep_map _ _ _ _ _ R), E, Hi. cbn. rewrite EK, assoc_mid by exact N.
    destruct (Z.eqb_spec k k'); congruence. }
  split.
  - intros d' k'. rewrite assoc_mid by exact N. destruct (Z.eqb_spec k k') as [<-|Hne].
    + rewrite lookup_insert_eq, decide_True by auto. reflexivity.
    + rewrite lookup_insert_ne by auto. case_decide; auto.
  - intros ND k'. destruct (decide (k = k')) as [<-|Hne].
    + rewrite lookup_delete_eq, decide_True by auto. symmetry. apply assoc_None.
      rewrite EK, fmap_app in ND. rewrite fmap_app. cbn in ND.
      apply list.NoDup_app in ND as (_ & D & ND). apply list.NoDup_cons in ND as [ND _].
      rewrite elem_of_app. intros [H|H]; [|auto]. apply (D k H), list_elem_of_here.
    + rewrite lookup_delete_ne by auto. case_decide; auto.
Qed.

(** Entries of a bucket without one of them. *)
Lemma kvs_drop (P : Z * list Z -> Prop) k d k1 k2 : NoDup (k1 ++ (k, d) :: k2).*1 ->
  Forall P (k1 ++ (k, d) :: k2) -> NoDup (k1 ++ k2).*1 /\ Forall P (k1 ++ k2).
Proof.
  rewrite !fmap_app, !Forall_app. cbn. intros ND [F1 F2].
  apply list.NoDup_app in ND as (N1 & D & N2). apply list.NoDup_cons in N2 as [_ N2].
  inversion F2; subst. split; [|auto]. apply list.NoDup_app. split; [exact N1|]. split; [|exact N2].
  intros x Hx H. apply (D x Hx), list_elem_of_further, H.
Qed.

(** A node in the middle of a bucket. *)
Lemma nodes_split s l1 x l2 k1 k d k2 : nodes_ok s (l1 ++ x :: l2) (k1 ++ (k, d) :: k2) ->
  length l1 = length k1 ->
  s_nodes s !! x = Some (Node k d) /\ nodes_ok s l1 k1 /\ nodes_ok s l2 k2.
Proof.
  intros N E. apply Forall2_app_inv in N as [N1 N2]; [|exact E]. inversion N2; subst. auto.
Qed.

(** ** Operations and their specification on finite maps *)

Inductive hop :=
  | OAdd (k : Z) (d : list Z) | OUpdate (k : Z) (d : list Z) (add_if_missing : bool)
  | OGet (k : Z) | ORemove (k : Z).
Inductive hres := RBool (b : bool) | RData (d : option (list Z)).

(** The data [hashmap_get] and [hashmap_remove] give access to. *)
Definition run_op (kmalloc_size : hstore -> Z -> option (Z * Z)) (s : hstore) (hm : hashmap) (o : hop)
    : outcome (hres * hstore * hashmap) :=
  match o with
  | OAdd k d => '(ok, s, hm) ← hashmap_add kmalloc_size s hm k d; Ok (RBool ok, s, hm)
  | OUpdate k d b => '(ok, s, hm) ← hashmap_update kmalloc_size s hm k d b; Ok (RBool ok, s, hm)
  | OGet k =>
      p ← hashmap_get s hm k;
      match p with
      | None => Ok (RData None, s, hm)
      | Some x => n ← get_node s x; Ok (RData (Some (n_data n)), s, hm)
      end
  | ORemove k => '(d, s) ← hashmap_remove s hm k; Ok (RData d, s, hm)
  end.
Fixpoint run_ops (kmalloc_size : hstore -> Z -> option (Z * Z)) (s : hstore) (hm : hashmap) (os : list hop)
    : outcome (list hres * hstore * hashmap) :=
  match os with
  | [] => Ok ([], s, hm)
  | o :: os =>
      '(r, s, hm) ← run_op kmalloc_size s hm o;
      '(rs, s, hm) ← run_ops kmalloc_size s hm os;
      Ok (r :: rs, s, hm)
  end.

Definition spec_op (M : gmap Z (list Z)) (o : hop) : hres * gmap Z (list Z) :=
  match o with
  | OAdd k d => if M !! k is Some _ then (RBool false, M) else (RBool true, <[k := d]> M)
  | OUpdate k d add =>
      if M !! k is Some _ then (RBool true, <[k := d]> M)
      else if add then (RBool true, <[k := d]> M) else (RBool false, M)
  | OGet k => (RData (M !! k), M)
  | ORemove k => (RData (M !! k), delete k M)
  end.
Fixpoint spec_ops (M : gmap Z (list Z)) (os : list hop) : list hres :=
  match os with
  | [] => []
  | o :: os => (spec_op M o).1 :: spec_ops (spec_op M o).2 os
  end.
(** An insertion that needs memory. *)
Definition inserts (M : gmap Z (list Z)) (o : hop) : Prop :=
  match o with
  | OAdd k _ | OUpdate k _ true => M !! k = None
  | _ => False
  end.

(** An allocation is a new object of at least the requested size. *)
Definition allocates_fresh (kmalloc_size : hstore -> Z -> option (Z * Z)) : Prop :=
  forall s n p n', kmalloc_size s n = Some (p, n') ->
    0 < p /\ n <= n' < 2 ^ 32 /\
    s_links s !! p = None /\ s_nodes s !! p = None /\ s_arrays s !! p = None.

Section Correctness.
Context (kmalloc_size : hstore -> Z -> option (Z * Z)).
Hypothesis kmalloc_fresh : allocates_fresh kmalloc_size.
Context (h : Z -> Z).
(** The allocator refuses some request. *)
Definition oom : Prop := exists s n, is_u 32 n /\ kmalloc_size s n = None.

Lemma set_bucket_Ok s hm i v bs old : s_arrays s !! buckets hm = Some bs ->
  bs !! Z.to_nat i = Some old ->
  set_bucket s hm i v =
    Ok (HStore (s_links s) (s_nodes s) (<[buckets hm := <[Z.to_nat i := v]> bs]> (s_arrays s))).
Proof. intros E1 E2. unfold set_bucket. rewrite E1, E2. reflexivity. Qed.

Lemma insert_node_spec s hm i sl bs key obj : bucket_ok s sl ->
  0 <= object_size hm -> 24 + object_size hm < 2 ^ 32 ->
  s_arrays s !! buckets hm = Some bs -> bs !! Z.to_nat i = Some (sl_head sl) ->
  exists ok s', insert_node kmalloc_size s hm i (sl_head sl) key obj = Ok (ok, s') /\
    (ok = false -> oom) /\
    if ok : bool then
      exists x, s_links s !! x = None /\ s_arrays s' = s_arrays s /\
        agree s s' (x :: sl_head sl :: sl_links sl) /\
        bucket_ok s' (Slot (sl_head sl) (x :: sl_links sl) ((key, obj) :: sl_kvs sl))
    else if bool_decide (sl_links sl = []) then
      agree s s' [sl_head sl] /\ s_arrays s' = <[buckets hm := <[Z.to_nat i := 0]> bs]> (s_arrays s)
    else s' = s.
Proof.
  intros (H0 & L & N) Ho Ho' HA HB. unfold insert_node, calloc_node, check_mul_assert_w, check_mul_w.
  rewrite fits_ok by (unfold is_u; lia). cbn [assert_some mbind outcome_bind].
  destruct (kmalloc_size s (1 * (24 + object_size hm))) as [[x n]|] eqn:EK.
  - destruct (kmalloc_fresh _ _ _ _ EK) as (Hx & _ & Fl & Fn & Fa).
    cbn [mbind outcome_bind]. unfold set_node, get_node. cbn [s_nodes]. rewrite lookup_insert_eq.
    cbn [mbind outcome_bind s_links s_nodes s_arrays].
    assert (Nx : x ∉ sl_head sl :: sl_links sl).
    { intros Hx'. destruct (is_list_dom _ _ _ _ L Hx') as [? E]. congruence. }
    set (l1 := <[x := Link 0 0]> (s_links s)).
    assert (L1 : is_list l1 (sl_head sl) (sl_links sl)).
    { apply (is_list_agree s (HStore l1 (s_nodes s) (s_arrays s)) [x]); [| |exact L].
      - intros y Hy. cbn. unfold l1. rewrite lookup_insert_ne; [auto|set_solver].
      - intros y Hy1 Hy2. apply list_elem_of_singleton in Hy2. subst. auto. }
    destruct (list_add_spec l1 (sl_head sl) (sl_links sl) x L1 Nx) as (l2 & -> & L2 & U).
    { unfold l1. rewrite lookup_insert_eq. eauto. }
    cbn [mbind outcome_bind]. eexists true, _. split; [reflexivity|]. split; [discriminate|].
    exists x. cbn [with_links s_links s_nodes s_arrays]. split; [exact Fl|]. split; [reflexivity|].
    rewrite insert_insert_eq. split.
    + intros y Hy. cbn. rewrite (unchanged_lookup _ _ _ _ U Hy). unfold l1.
      apply not_elem_of_cons in Hy as [Hy _]. rewrite !lookup_insert_ne by auto. auto.
    + split; [exact H0|]. split; [exact L2|]. constructor; [cbn; apply lookup_insert_eq|].
      eapply nodes_ok_ext; [|exact N]. intros y Hy. cbn. apply lookup_insert_ne.
      intros ->. apply Nx, list_elem_of_further, Hy.
  - assert (OOM : oom) by (eexists _, _; split; [|exact EK]; unfold is_u; lia).
    cbn [mbind outcome_bind]. rewrite (list_empty_spec _ _ _ L). cbn [mbind outcome_bind].
    destruct (bool_decide (sl_links sl = [])) eqn:EB; [|exists false, s; auto].
    rewrite (set_bucket_Ok _ _ _ _ _ _ HA HB). cbn [mbind outcome_bind].
    unfold free_bucket. cbn [s_links].
    destruct (is_list_dom _ _ _ (sl_head sl) L) as [lk ->]; [apply list_elem_of_here|].
    cbn [mbind outcome_bind]. eexists false, _. split; [reflexivity|]. split; [auto|]. split; [|reflexivity].
    intros y Hy. cbn. rewrite lookup_delete_ne; [auto|]. intros <-. apply Hy, list_elem_of_here.
Qed.

(** A fresh bucket is an empty list. *)
Lemma new_bucket_spec s hm i bs old : s_arrays s !! buckets hm = Some bs ->
  bs !! Z.to_nat i = Some old ->
  exists ob s', new_bucket kmalloc_size s hm i = Ok (ob, s') /\
    match ob with
    | None => s' = s /\ oom
    | Some b => s_links s !! b = None /\ b <> 0 /\ agree s s' [b] /\ bucket_ok s' (Slot b [] []) /\
        s_arrays s' = <[buckets hm := <[Z.to_nat i := b]> bs]> (s_arrays s)
    end.
Proof.
  intros HA HB. unfold new_bucket, calloc_bucket, check_mul_assert_w, check_mul_w.
  rewrite fits_ok by (unfold is_u; lia). cbn [assert_some mbind outcome_bind].
  destruct (kmalloc_size s (1 * 16)) as [[b n]|] eqn:EK; cbn [mbind outcome_bind];
    [|exists None, s; split; [reflexivity|]; split; [reflexivity|]; eexists _, _; split; [|exact EK];
      unfold is_u; lia].
  destruct (kmalloc_fresh _ _ _ _ EK) as (Hb & _ & Fl & Fn & Fa). cbn [s_links].
  destruct (list_init_spec (<[b := Link 0 0]> (s_links s)) b) as (l & -> & L & U).
  { rewrite lookup_insert_eq. eauto. }
  cbn [mbind outcome_bind].
  rewrite (set_bucket_Ok _ hm i b bs old) by (cbn; auto).
  cbn [mbind outcome_bind with_links s_links s_nodes s_arrays].
  eexists (Some b), _. split; [reflexivity|]. split; [exact Fl|]. split; [lia|]. split; [|split].
  - intros x Hx. cbn. rewrite (unchanged_lookup _ _ _ _ U Hx).
    rewrite lookup_insert_ne; [auto|]. intros ->. apply Hx, list_elem_of_here.
  - split; [cbn; lia|]. split; [exact L|constructor].
  - reflexivity.
Qed.

(** What a successful or failed insertion leaves. *)
Definition add_post (s : hstore) (hm : hashmap) (slots : list slot) (M : gmap Z (list Z))
    (key : Z) (obj : list Z) (ok : bool) (s' : hstore) : Prop :=
  exists slots', hm_rep h s' hm slots' (if ok then <[key := obj]> M else M) /\
    hm_frame s slots s' slots' hm.

(** Insertion into slot [i] through an existing bucket [sl], which may be a fresh
    empty one: [sl0] is the slot before the call that made it. *)
Lemma insert_rep s0 s hm slots M key obj i sl0 sl : hm_rep h s0 hm slots M ->
  Z.to_nat i = key_slot h hm key -> slots !! Z.to_nat i = Some sl0 ->
  bucket_ok s sl -> sl_kvs sl0 = sl_kvs sl -> assoc key (sl_kvs sl) = None ->
  (sl = sl0 /\ s = s0 /\ sl_links sl <> []) \/
  (sl_links sl = [] /\ sl0 = empty_slot /\ s_links s0 !! sl_head sl = None /\ agree s0 s [sl_head sl]) ->
  s_arrays s = <[buckets hm := <[Z.to_nat i := sl_head sl]> (sl_head <$> slots)]> (s_arrays s0) ->
  exists ok s', insert_node kmalloc_size s hm i (sl_head sl) key obj = Ok (ok, s') /\
    (ok = false -> oom) /\ add_post s0 hm slots M key obj ok s'.
Proof.
  intros R Ei Hi B EK NK C HA. pose proof (rep_obj _ _ _ _ _ R) as [Ho Ho'].
  assert (Hlt : (Z.to_nat i < length slots)%nat) by (eapply lookup_lt_Some; eauto).
  destruct (insert_node_spec s hm i sl (<[Z.to_nat i := sl_head sl]> (sl_head <$> slots)) key obj)
    as (ok & s' & E & O & P); auto; try lia.
  { rewrite HA. apply lookup_insert_eq. }
  { apply list_lookup_insert_eq. rewrite length_fmap. exact Hlt. }
  exists ok, s'. split; [exact E|]. split; [exact O|]. clear E.
  destruct (rep_slot _ _ _ _ _ R _ _ Hi) as (S1 & S2 & S3). rewrite EK in S2, S3.
  assert (AG : agree s0 s (sl_head sl :: sl_links sl) /\
    forall x, x ∈ sl_head sl :: sl_links sl -> x ∈ foot sl0 \/ s_links s0 !! x = None).
  { destruct C as [(-> & -> & _)|(EL & -> & Hn & A)].
    - split; [apply agree_refl|]. intros x Hx. left. rewrite foot_bucket; [exact Hx|apply B].
    - rewrite EL. split; [exact A|]. intros x Hx. right. apply list_elem_of_singleton in Hx. congruence. }
  destruct AG as [AG FR]. destruct ok.
  - destruct P as (x & Fx & EA & A & B'). eexists.
    assert (Fx0 : x ∉ sl_head sl :: sl_links sl).
    { intros Hx. destruct B as (_ & L & _). destruct (is_list_dom _ _ _ _ L Hx). congruence. }
    eapply (rep_update h s0 s' hm slots M (Z.to_nat i) sl0
              (Slot (sl_head sl) (x :: sl_links sl) ((key, obj) :: sl_kvs sl))
              (x :: sl_head sl :: sl_links sl)); eauto.
    + eapply agree_trans; [eapply agree_mono; [|exact AG]|exact A]. set_solver.
    + intros y Hy. apply elem_of_cons in Hy as [->|Hy]; [|auto]. right.
      destruct (AG x Fx0) as [E1 _]. congruence.
    + rewrite EA, HA. reflexivity.
    + right. split; [exact B'|discriminate].
    + rewrite foot_bucket by apply B'. cbn. set_solver.
    + cbn. apply list.NoDup_cons. split; [apply assoc_None, NK|exact S2].
    + constructor; [cbn; symmetry; exact Ei|exact S3].
    + pose proof (map_insert_slot h s0 hm slots M key obj _ sl0 R Hi ltac:(symmetry; exact Ei)) as HM.
      rewrite EK in HM. exact HM.
  - destruct C as [(-> & -> & NE)|(EL & -> & Hn & A0)].
    + rewrite bool_decide_eq_false_2 in P by exact NE. subst s'.
      exists slots. split; [exact R|apply hm_frame_refl].
    + rewrite bool_decide_eq_true_2 in P by exact EL. destruct P as [A EA].
      eexists. eapply (rep_update h s0 s' hm slots M (Z.to_nat i) empty_slot empty_slot [sl_head sl]); eauto.
      * eapply agree_trans; eauto.
      * intros x Hx. right. apply list_elem_of_singleton in Hx. congruence.
      * rewrite EA, HA, insert_insert_eq, list_insert_insert_eq. reflexivity.
      * left. reflexivity.
      * cbn. set_solver.
      * constructor.
      * intros k. case_decide as E; [|reflexivity].
        rewrite (rep_map _ _ _ _ _ R), E, Hi. reflexivity.
Qed.

(** The slot of a key, read through the bucket array. *)
Lemma slot_cases s hm slots M i sl : hm_rep h s hm slots M -> slots !! i = Some sl ->
  sl = empty_slot \/ (bucket_ok s sl /\ sl_links sl <> [] /\ sl_head sl <> 0).
Proof.
  intros R Hi. destruct (rep_slot _ _ _ _ _ R _ _ Hi) as ([->|[B N]] & _ & _); [auto|].
  right. split; [exact B|]. split; [exact N|apply B].
Qed.

Lemma add_spec s hm slots M key obj : hm_rep h s hm slots M ->
  exists ok s', add_to_buckets kmalloc_size false s hm key obj = Ok (ok, s', hm) /\
    add_post s hm slots M key obj ok s' /\ (ok = true -> M !! key = None) /\
    (ok = false -> M !! key <> None \/ oom).
Proof.
  intros R. destruct (rep_lookup _ _ _ _ _ key R) as (i & sl & EH & Ei & Hi & EB & EM).
  rewrite <- Ei in Hi. unfold add_to_buckets. rewrite EH. cbn [mbind outcome_bind].
  rewrite EB. cbn [mbind outcome_bind].
  destruct (slot_cases _ _ _ _ _ _ R Hi) as [->|(B & NE & Hh)].
  - cbn [sl_head empty_slot Z.eqb negb].
    destruct (new_bucket_spec s hm i (sl_head <$> slots) 0) as (ob & s1 & -> & P).
    { apply (rep_array _ _ _ _ _ R). } { rewrite list_lookup_fmap, Hi. reflexivity. }
    cbn [mbind outcome_bind]. destruct ob as [b|].
    + destruct P as (Fb & Hb & A & B & EA).
      destruct (insert_rep s s1 hm slots M key obj i empty_slot (Slot b [] []) R Ei Hi B)
        as (ok & s2 & E & O & AP); auto 10.
      cbn [sl_head] in E. rewrite E. cbn [mbind outcome_bind].
      exists ok, s2. split; [destruct ok; reflexivity|]. split; [exact AP|]. split; auto.
    + destruct P as [-> O]. exists false, s. split; [reflexivity|]. split; [|split; [discriminate|auto]].
      exists slots. split; [exact R|apply hm_frame_refl].
  - destruct (Z.eqb_spec (sl_head sl) 0); [congruence|]. cbn [negb].
    destruct (find_bucket s sl key B) as (first & r & -> & E & P). cbn [mbind outcome_bind].
    rewrite E. cbn [mbind outcome_bind]. destruct r as [x|].
    + destruct B as (_ & L & _). rewrite (list_empty_spec _ _ _ L), bool_decide_eq_false_2 by exact NE.
      cbn [mbind outcome_bind]. exists false, s. split; [reflexivity|].
      destruct P as (l1 & l2 & k1 & k2 & d & _ & EK & _ & NA).
      split; [exists slots; split; [exact R|apply hm_frame_refl]|]. split; [discriminate|].
      intros _. left. rewrite EM, EK, assoc_mid, Z.eqb_refl by exact NA. discriminate.
    + destruct (insert_rep s s hm slots M key obj i sl sl R Ei Hi B) as (ok & s2 & E2 & O & AP); auto.
      { apply slots_insert_id; [apply (rep_array _ _ _ _ _ R)|exact Hi]. }
      rewrite E2. cbn [mbind outcome_bind].
      exists ok, s2. split; [destruct ok; reflexivity|]. split; [exact AP|]. split; [congruence|auto].
Qed.

Lemma initialized_rep s hm slots M : hm_rep h s hm slots M -> hashmap_initialized hm = true /\
  (buckets hm =? 0) = false.
Proof.
  intros R. unfold hashmap_initialized. pose proof (rep_count_pos _ _ _ _ _ R).
  pose proof (rep_obj _ _ _ _ _ R). pose proof (rep_nz _ _ _ _ _ R).
  destruct (Z.eqb_spec (bucket_count hm) 0), (Z.eqb_spec (object_size hm) 0), (Z.eqb_spec (buckets hm) 0);
    try lia; auto.
Qed.

Lemma hashmap_add_rep s hm slots M key obj : hm_rep h s hm slots M ->
  exists ok s', hashmap_add kmalloc_size s hm key obj = Ok (ok, s', hm) /\
    add_post s hm slots M key obj ok s' /\ (ok = true -> M !! key = None) /\
    (ok = false -> M !! key <> None \/ oom).
Proof.
  intros R. destruct (initialized_rep _ _ _ _ R) as [E1 E2]. unfold hashmap_add.
  rewrite E1, E2. cbn [c_assert mbind outcome_bind]. apply add_spec, R.
Qed.

Lemma hashmap_get_rep s hm slots M key : hm_rep h s hm slots M ->
  exists r, hashmap_get s hm key = Ok r /\
    match r with
    | None => M !! key = None
    | Some x => exists d, M !! key = Some d /\ s_nodes s !! x = Some (Node key d)
    end.
Proof.
  intros R. destruct (initialized_rep _ _ _ _ R) as [E1 E2]. unfold hashmap_get.
  rewrite E1, E2. cbn [c_assert mbind outcome_bind].
  destruct (rep_lookup _ _ _ _ _ key R) as (i & sl & EH & Ei & Hi & EB & EM).
  rewrite <- Ei in Hi. rewrite EH. cbn [mbind outcome_bind]. rewrite EB. cbn [mbind outcome_bind].
  destruct (slot_cases _ _ _ _ _ _ R Hi) as [->|(B & NE & Hh)].
  - exists None. split; [reflexivity|exact EM].
  - destruct (Z.eqb_spec (sl_head sl) 0); [congruence|].
    destruct (find_bucket s sl key B) as (first & r & -> & E & P). cbn [mbind outcome_bind].
    exists r. split; [exact E|]. destruct r as [x|]; [|congruence].
    destruct P as (l1 & l2 & k1 & k2 & d & EL & EK & Len & NA). exists d.
    rewrite EM, EK, assoc_app by exact NA. cbn. rewrite Z.eqb_refl. split; [reflexivity|].
    destruct B as (_ & _ & N). rewrite EL, EK in N. apply (nodes_split _ _ _ _ _ _ _ _ N Len).
Qed.

(** Overwriting the data of the node found. *)
Lemma set_node_rep s hm slots M key obj d i sl l1 x l2 k1 k2 : hm_rep h s hm slots M ->
  i = key_slot h hm key -> slots !! i = Some sl -> bucket_ok s sl ->
  sl_links sl = l1 ++ x :: l2 -> sl_kvs sl = k1 ++ (key, d) :: k2 -> length l1 = length k1 ->
  assoc key k1 = None ->
  exists s', set_node s x key obj = Ok s' /\ add_post s hm slots M key obj true s'.
Proof.
  intros R Ei Hi B EL EK Len NA. pose proof B as (H0 & L & N). rewrite EL, EK in N.
  destruct (nodes_split _ _ _ _ _ _ _ _ N Len) as (Hx & N1 & N2).
  unfold set_node, get_node. rewrite Hx. cbn [mbind outcome_bind]. eexists. split; [reflexivity|].
  destruct (rep_slot _ _ _ _ _ R _ _ Hi) as (_ & S2 & S3).
  pose proof (map_change_slot h s hm slots M key d i sl k1 k2 R Hi ltac:(auto) EK NA) as [HM _].
  assert (NDl : (x ∉ l1) /\ (x ∉ l2)).
  { destruct L as [ND _]. rewrite EL in ND. apply list.NoDup_cons in ND as [_ ND].
    apply list.NoDup_app in ND as (_ & D & ND). apply list.NoDup_cons in ND as [ND _].
    split; [|exact ND]. intros H. apply (D x H), list_elem_of_here. }
  eexists. eapply (rep_update h s _ hm slots M i sl
    (Slot (sl_head sl) (sl_links sl) (k1 ++ (key, obj) :: k2)) (foot sl)); eauto.
  - intros y Hy. cbn. split; [reflexivity|]. apply lookup_insert_ne. intros <-. apply Hy.
    rewrite foot_bucket, EL by exact H0. apply list_elem_of_further, elem_of_app. right.
    apply list_elem_of_here.
  - cbn. apply slots_insert_id; [apply (rep_array _ _ _ _ _ R)|exact Hi].
  - right. cbn. split; [|rewrite EL; intros E; destruct l1; discriminate E].
    split; [exact H0|]. split; [exact L|]. cbn. rewrite EL. apply Forall2_app.
    + eapply (nodes_ok_ext s); [|exact N1]. intros y Hy. cbn. apply lookup_insert_ne. intros <-. tauto.
    + constructor; [cbn; apply lookup_insert_eq|].
      eapply (nodes_ok_ext s); [|exact N2]. intros y Hy. cbn. apply lookup_insert_ne. intros <-. tauto.
  - cbn [sl_kvs]. rewrite EK in S2. rewrite fmap_app in S2 |- *. exact S2.
  - cbn [sl_kvs]. rewrite EK in S3. rewrite !Forall_app in *. destruct S3 as [F1 F2]. inversion F2; subst. auto.
Qed.

Lemma hashmap_update_rep s hm slots M key obj (add : bool) : hm_rep h s hm slots M ->
  exists ok s', hashmap_update kmalloc_size s hm key obj add = Ok (ok, s', hm) /\
    add_post s hm slots M key obj ok s' /\
    (is_Some (M !! key) -> ok = true) /\ (add = false -> M !! key = None -> ok = false) /\
    (add = true -> ok = false -> oom).
Proof.
  intros R. destruct (initialized_rep _ _ _ _ R) as [E1 E2]. unfold hashmap_update.
  rewrite E1, E2. cbn [c_assert mbind outcome_bind].
  assert (Same : add_post s hm slots M key obj false s).
  { exists slots. split; [exact R|apply hm_frame_refl]. }
  destruct (rep_lookup _ _ _ _ _ key R) as (i & sl & EH & Ei & Hi & EB & EM).
  rewrite <- Ei in Hi. rewrite EH. cbn [mbind outcome_bind]. rewrite EB. cbn [mbind outcome_bind].
  assert (NS : M !! key = None -> ~ is_Some (M !! key)) by (intros -> [? ?]; discriminate).
  destruct (slot_cases _ _ _ _ _ _ R Hi) as [->|(B & NE & Hh)].
  - cbn [sl_head empty_slot Z.eqb] in *. cbn in EM. specialize (NS EM).
    destruct add; cbn [negb]; [|exists false, s; split; [reflexivity|]; repeat split; auto; tauto || discriminate].
    destruct (new_bucket_spec s hm i (sl_head <$> slots) 0) as (ob & s1 & -> & P).
    { apply (rep_array _ _ _ _ _ R). } { rewrite list_lookup_fmap, Hi. reflexivity. }
    cbn [mbind outcome_bind]. destruct ob as [b|].
    + destruct P as (Fb & Hb & A & B & EA).
      destruct (insert_rep s s1 hm slots M key obj i empty_slot (Slot b [] []) R Ei Hi B)
        as (ok & s2 & E & O & AP); auto 10.
      cbn [sl_head] in E. rewrite E. exists ok, s2. split; [reflexivity|]. split; [exact AP|].
      split; [tauto|]. split; [discriminate|auto].
    + destruct P as [-> O]. exists false, s. split; [reflexivity|]. split; [exact Same|]. tauto.
  - destruct (Z.eqb_spec (sl_head sl) 0); [congruence|].
    destruct (find_bucket s sl key B) as (first & r & -> & E & P). cbn [mbind outcome_bind].
    rewrite E. cbn [mbind outcome_bind]. destruct r as [x|].
    + destruct P as (l1 & l2 & k1 & k2 & d & EL & EK & Len & NA).
      destruct (set_node_rep s hm slots M key obj d _ sl l1 x l2 k1 k2 R Ei Hi B EL EK Len NA)
        as (s' & -> & AP).
      exists true, s'. split; [reflexivity|]. split; [exact AP|]. split; [reflexivity|].
      split; [|discriminate]. intros _ H. rewrite EM, EK, assoc_mid, Z.eqb_refl in H by exact NA. discriminate.
    + rewrite P in EM. specialize (NS EM).
      destruct add; cbn [negb]; [|exists false, s; split; [reflexivity|]; repeat split; auto; tauto || discriminate].
      destruct (insert_rep s s hm slots M key obj i sl sl R Ei Hi B) as (ok & s2 & E3 & O & AP); auto.
      { apply slots_insert_id; [apply (rep_array _ _ _ _ _ R)|exact Hi]. }
      rewrite E3. exists ok, s2. split; [reflexivity|]. split; [exact AP|].
      split; [tauto|]. split; [discriminate|auto].
Qed.

Lemma remove_found_spec s hm i sl bs l1 x l2 k1 key d k2 : bucket_ok s sl ->
  s_arrays s !! buckets hm = Some bs -> bs !! Z.to_nat i = Some (sl_head sl) ->
  sl_links sl = l1 ++ x :: l2 -> sl_kvs sl = k1 ++ (key, d) :: k2 -> length l1 = length k1 ->
  let sl2 := if bool_decide (l1 ++ l2 = []) then empty_slot
             else Slot (sl_head sl) (l1 ++ l2) (k1 ++ k2) in
  exists s', remove_found s hm i (sl_head sl) x = Ok (Some d, s') /\
    agree s s' (foot sl) /\ slot_ok s' sl2 /\
    s_arrays s' = <[buckets hm := <[Z.to_nat i := sl_head sl2]> bs]> (s_arrays s).
Proof.
  intros (H0 & L & N) HA HB EL EK Len sl2. rewrite EL in L. rewrite EL, EK in N.
  destruct (nodes_split _ _ _ _ _ _ _ _ N Len) as (Hx & N1 & N2).
  destruct (remove_spec (s_links s) (sl_head sl) l1 x l2 0 L) as (l' & E & L' & Fx & U).
  unfold remove_found. change (list_deinit (s_links s) x) with
    (s ← list_unlink (s_links s) x; s ← set_prev s x 0; set_next s x 0).
  rewrite E. cbn [mbind outcome_bind with_links s_links].
  rewrite (list_empty_spec _ _ _ L'). cbn [mbind outcome_bind].
  pose proof L as [ND _]. destruct (cut_facts _ _ _ _ ND) as (_ & _ & Nx1 & Nx2 & _).
  apply not_elem_of_cons in Nx1 as [Nx0 Nx1].
  assert (FT : foot sl = sl_head sl :: l1 ++ x :: l2) by (rewrite foot_bucket, EL; auto).
  assert (Hxf : x ∈ foot sl).
  { rewrite FT. apply list_elem_of_further, elem_of_app. right. apply list_elem_of_here. }
  assert (Hhf : sl_head sl ∈ foot sl) by (rewrite FT; apply list_elem_of_here).
  assert (Hl : forall y, y ∉ foot sl -> l' !! y = s_links s !! y).
  { intros y Hy. apply (unchanged_lookup _ _ _ _ U). rewrite <- FT. exact Hy. }
  subst sl2. destruct (bool_decide (l1 ++ l2 = [])) eqn:EE.
  - rewrite (set_bucket_Ok _ hm i 0 bs (sl_head sl)) by auto. cbn [mbind outcome_bind].
    unfold free_bucket. cbn [s_links with_links].
    destruct (is_list_dom _ _ _ (sl_head sl) L' ltac:(apply list_elem_of_here)) as [lk ->].
    cbn [mbind outcome_bind]. unfold get_node, free_node. cbn [s_links s_nodes with_links].
    rewrite Hx. cbn [mbind outcome_bind]. rewrite lookup_delete_ne, Fx by auto.
    cbn [mbind outcome_bind]. eexists. split; [reflexivity|]. split; [|split; [left; reflexivity|reflexivity]].
    intros y Hy. cbn. rewrite !lookup_delete_ne, Hl by (auto; intros <-; auto). auto.
  - cbn [mbind outcome_bind]. unfold get_node, free_node. cbn [s_links s_nodes with_links].
    rewrite Hx. cbn [mbind outcome_bind]. rewrite Fx.
    cbn [mbind outcome_bind]. eexists. split; [reflexivity|]. split; [|split].
    + intros y Hy. cbn. rewrite !lookup_delete_ne, Hl by (auto; intros <-; auto). auto.
    + right. apply bool_decide_eq_false in EE. split; [|exact EE]. split; [exact H0|].
      split; [|apply Forall2_app].
      * apply (is_list_agree (with_links s l') _ [x]); [| |exact L'].
        -- intros y Hy. cbn. rewrite !lookup_delete_ne; [auto| |]; intros <-; apply Hy, list_elem_of_here.
        -- intros y Hy1 Hy2. apply list_elem_of_singleton in Hy2. subst y. cbn in Hy1.
           rewrite elem_of_cons, elem_of_app in Hy1. tauto.
      * eapply (nodes_ok_ext s); [|exact N1]. intros y Hy. cbn. apply lookup_delete_ne. intros <-. tauto.
      * eapply (nodes_ok_ext s); [|exact N2]. intros y Hy. cbn. apply lookup_delete_ne. intros <-. tauto.
    + cbn. rewrite list_insert_id, insert_id by auto. reflexivity.
Qed.

Lemma hashmap_remove_rep s hm slots M key : hm_rep h s hm slots M ->
  exists s' slots', hashmap_remove s hm key = Ok (M !! key, s') /\
    hm_rep h s' hm slots' (delete key M) /\ hm_frame s slots s' slots' hm.
Proof.
  intros R. destruct (initialized_rep _ _ _ _ R) as [E1 E2]. unfold hashmap_remove.
  rewrite E1, E2. cbn [c_assert mbind outcome_bind].
  assert (Same : M !! key = None -> exists s' slots', Ok (None, s) = Ok (M !! key, s') /\
    hm_rep h s' hm slots' (delete key M) /\ hm_frame s slots s' slots' hm).
  { intros EM. exists s, slots. rewrite EM, delete_id by exact EM.
    split; [reflexivity|]. split; [exact R|apply hm_frame_refl]. }
  destruct (rep_lookup _ _ _ _ _ key R) as (i & sl & EH & Ei & Hi & EB & EM).
  rewrite <- Ei in Hi. rewrite EH. cbn [mbind outcome_bind]. rewrite EB. cbn [mbind outcome_bind].
  destruct (slot_cases _ _ _ _ _ _ R Hi) as [->|(B & NE & Hh)]; [apply Same, EM|].
  destruct (Z.eqb_spec (sl_head sl) 0); [congruence|].
  destruct (find_bucket_mut s sl key B) as (iter & tmp & E3 & E4 & E5).
  destruct (find_bucket s sl key B) as (first & r & E6 & E & P).
  rewrite E3 in E6. injection E6 as <-. rewrite E3. cbn [mbind outcome_bind].
  rewrite E4. cbn [mbind outcome_bind]. rewrite E5, E. cbn [mbind outcome_bind].
  destruct r as [x|]; [|apply Same; congruence].
  destruct P as (l1 & l2 & k1 & k2 & d & EL & EK & Len & NA).
  destruct (remove_found_spec s hm i sl (sl_head <$> slots) l1 x l2 k1 key d k2 B) as (s' & -> & A & S & EA);
    auto. { apply (rep_array _ _ _ _ _ R). } { rewrite list_lookup_fmap, Hi. reflexivity. }
  destruct (rep_slot _ _ _ _ _ R _ _ Hi) as (_ & S2 & S3).
  destruct (map_change_slot h s hm slots M key d _ sl k1 k2 R Hi ltac:(auto) EK NA) as [_ HM].
  specialize (HM S2). rewrite EK in S2, S3. destruct (kvs_drop _ _ _ _ _ S2 S3) as [S4 S5].
  eexists _, _. rewrite EM, EK, assoc_mid, Z.eqb_refl by exact NA. split; [reflexivity|].
  eapply rep_update; eauto.
  - case_bool_decide; [intros y Hy; inversion Hy|].
    rewrite (foot_bucket (Slot _ _ _)), (foot_bucket sl), EL by exact Hh. cbn.
    intros y. rewrite !elem_of_cons, !elem_of_app, elem_of_cons. tauto.
  - case_bool_decide; [constructor|exact S4].
  - case_bool_decide; [constructor|exact S5].
  - case_bool_decide as EE; [|exact HM]. apply app_eq_nil in EE as [-> ->].
    destruct k1; [|discriminate Len]. destruct B as (_ & _ & N). rewrite EL, EK in N.
    inversion N as [|? ? ? ? _ N2]; subst. inversion N2; subst. exact HM.
Qed.

(** *** Destroying *)

Definition gone (s : hstore) (F : list Z) : Prop := forall x, x ∈ F -> s_links s !! x = None.

(** The forward pointers of a list, which is all that the loop follows. *)
Fixpoint chain (l : gmap Z link) (xs : list Z) (q : Z) : Prop :=
  match xs with
  | [] => True
  | x :: xs => nextp l x = Some (hd q xs) /\ chain l xs q
  end.
Lemma seg_chain l p xs q : seg l p xs q -> chain l xs q.
Proof.
  revert p. induction xs as [|x xs IH]; intros p; cbn; [auto|]. intros (_ & _ & S).
  split; [exact (seg_first _ _ _ _ S)|eauto].
Qed.
Lemma chain_ext l l' xs q : (forall x, x ∈ xs -> nextp l' x = nextp l x) -> chain l xs q -> chain l' xs q.
Proof.
  induction xs as [|x xs IH]; cbn; [auto|]. intros H [N C]. rewrite H by apply list_elem_of_here.
  split; [exact N|]. apply IH; [|exact C]. intros y Hy. apply H, list_elem_of_further, Hy.
Qed.

Lemma free_nodes_spec fuel s b xs kvs f : chain (s_links s) xs b -> NoDup (b :: xs) ->
  nodes_ok s xs kvs -> (length xs <= fuel)%nat -> nextp (s_links s) b = Some f ->
  exists s', free_nodes fuel s b (hd b xs) (match xs with [] => f | _ :: xs' => hd b xs' end) = Ok s' /\
    agree s s' xs /\ gone s' xs /\ s_arrays s' = s_arrays s.
Proof.
  intros C ND NO. revert fuel s C NO ND. induction kvs as [|kv kvs IH] in xs |- *;
    intros fuel s C NO ND Hf Hb; inversion NO as [|x ? xs' ? Hx NO']; subst.
  - exists s. destruct fuel; cbn; rewrite Z.eqb_refl; (split; [reflexivity|]);
      (split; [apply agree_refl|]); (split; [|reflexivity]); intros x Hx; inversion Hx.
  - destruct fuel as [|fuel]; [cbn in Hf; lia|]. cbn [free_nodes hd].
    apply list.NoDup_cons in ND as [Nb ND]. apply list.NoDup_cons in ND as [Nx ND].
    apply not_elem_of_cons in Nb as [Hbx Nb].
    destruct (Z.eqb_spec x b) as [->|_]; [congruence|]. destruct C as [Hn C].
    unfold free_node. rewrite Hx. pose proof (nextp_Some _ _ _ Hn) as [lk ->].
    cbn [mbind outcome_bind].
    set (s1 := HStore (delete x (s_links s)) (delete x (s_nodes s)) (s_arrays s)).
    assert (Hv : forall y, y <> x -> nextp (s_links s1) y = nextp (s_links s) y).
    { intros y Hy. apply lookup_views. cbn. apply lookup_delete_ne. auto. }
    assert (Ht : get_next (s_links s1) (hd b xs') =
                 Ok (match xs' with [] => f | _ :: xs' => hd b xs' end)).
    { apply get_next_Ok. destruct xs' as [|y ys]; cbn [hd]; [rewrite Hv; auto|].
      destruct C as [Cy _]. rewrite Hv; [exact Cy|]. intros ->. apply Nx, list_elem_of_here. }
    rewrite Ht. cbn [mbind outcome_bind].
    destruct (IH xs' fuel s1) as (s' & E & A & G & EA).
    + eapply chain_ext; [|exact C]. intros y Hy. apply Hv. intros ->. auto.
    + eapply nodes_ok_ext; [|exact NO']. intros y Hy. cbn. apply lookup_delete_ne. intros ->. auto.
    + apply list.NoDup_cons. auto.
    + cbn in Hf. lia.
    + rewrite Hv by auto. exact Hb.
    + exists s'. split; [exact E|]. split; [|split; [|exact EA]].
      * intros y Hy. apply not_elem_of_cons in Hy as [Hy1 Hy2]. destruct (A y Hy2) as [-> ->].
        cbn. rewrite !lookup_delete_ne by auto. auto.
      * intros y Hy. destruct (decide (y ∈ xs')) as [Hy'|Hy']; [apply G, Hy'|].
        destruct (A y Hy') as [-> _]. apply elem_of_cons in Hy as [->|Hy]; [|contradiction].
        cbn. apply lookup_delete_eq.
Qed.

(** One non-empty slot. *)
Lemma destroy_bucket_spec s sl : bucket_ok s sl ->
  exists iter tmp s1 s2, get_next (s_links s) (sl_head sl) = Ok iter /\
    get_next (s_links s) iter = Ok tmp /\
    free_nodes (walk_fuel s) s (sl_head sl) iter tmp = Ok s1 /\
    free_bucket s1 (sl_head sl) = Ok s2 /\
    agree s s2 (foot sl) /\ gone s2 (foot sl) /\ s_arrays s2 = s_arrays s.
Proof.
  intros (H0 & L & N). pose proof L as [ND S]. pose proof (seg_first _ _ _ _ S) as F.
  pose proof (walk_length _ _ _ L) as W. rewrite foot_bucket by exact H0.
  destruct (free_nodes_spec (walk_fuel s) s (sl_head sl) _ _ _ (seg_chain _ _ _ _ S) ND N ltac:(lia) F)
    as (s1 & E & A & G & EA).
  pose proof ND as ND'. apply list.NoDup_cons in ND' as [Nb _].
  destruct (A _ Nb) as [Eb _]. destruct (nextp_Some _ _ _ F) as [lk Hlk].
  eexists _, _, s1, _. split; [apply get_next_Ok, F|]. split; [|split; [exact E|]].
  { destruct (sl_links sl) as [|x xs]; cbn [hd] in *; [apply get_next_Ok, F|].
    destruct S as (_ & _ & S). apply get_next_Ok, (seg_first _ _ _ _ S). }
  unfold free_bucket. rewrite Eb, Hlk. split; [reflexivity|]. split; [|split; [|exact EA]].
  - intros y Hy. apply not_elem_of_cons in Hy as [Hy1 Hy2]. cbn. rewrite lookup_delete_ne by auto.
    apply A, Hy2.
  - intros y Hy. cbn. destruct (decide (y = sl_head sl)) as [->|Hne]; [apply lookup_delete_eq|].
    rewrite lookup_delete_ne by auto. apply G. apply elem_of_cons in Hy. tauto.
Qed.

Lemma owned_bind slots x : owned slots x <-> x ∈ slots ≫= foot.
Proof.
  rewrite list_elem_of_bind. unfold owned. split.
  - intros (i & sl & Hi & Hx). exists sl. split; [exact Hx|]. eapply list_elem_of_lookup_2; eauto.
  - intros (sl & Hx & Hs). apply list_elem_of_lookup in Hs as [i Hi]. eauto.
Qed.

Fixpoint disj_slots (slots : list slot) : Prop :=
  match slots with
  | [] => True
  | sl :: slots => foot sl ## (slots ≫= foot) /\ disj_slots slots
  end.
Lemma rep_disj_slots slots : (forall i j sl sl', i <> j -> slots !! i = Some sl ->
  slots !! j = Some sl' -> foot sl ## foot sl') -> disj_slots slots.
Proof.
  induction slots as [|sl slots IH]; cbn [disj_slots]; [auto|]. intros D. split.
  - intros x H1 H2. apply owned_bind in H2 as (i & sl' & Hi & H2).
    refine (D 0%nat (S i) sl sl' _ _ _ x H1 H2); auto.
  - apply IH. intros i j sl1 sl2 Hij H1 H2. apply (D (S i) (S j)); auto.
Qed.

Lemma destroy_slots_spec p slots pre s : s_arrays s !! p = Some (sl_head <$> (pre ++ slots)) ->
  Forall (slot_ok s) slots -> disj_slots slots ->
  exists s', destroy_slots (length slots) s p (length pre) = Ok s' /\
    agree s s' (slots ≫= foot) /\ gone s' (slots ≫= foot) /\ s_arrays s' = s_arrays s.
Proof.
  revert pre s. induction slots as [|sl slots IH]; intros pre s HA HS D; cbn [destroy_slots length].
  { exists s. split; [reflexivity|]. split; [apply agree_refl|]. split; [|reflexivity].
    intros x Hx. inversion Hx. }
  rewrite HA, list_lookup_fmap, lookup_app_r, Nat.sub_diag by lia. cbn [lookup list_lookup fmap option_map option_fmap].
  apply list.Forall_cons in HS as [S0 HS]. destruct D as [D0 D].
  replace (S (length pre)) with (length (pre ++ [sl])) by (rewrite length_app; cbn; lia).
  cbn [mbind list_bind].
  destruct S0 as [->|[B _]].
  { cbn [sl_head empty_slot Z.eqb foot app]. apply IH; auto. rewrite <- app_assoc. exact HA. }
  pose proof B as (H0 & _). destruct (Z.eqb_spec (sl_head sl) 0) as [?|_]; [congruence|].
  destruct (destroy_bucket_spec s sl B) as (iter & tmp & s1 & s2 & -> & E1 & E2 & E3 & A & G & EA).
  cbn [mbind outcome_bind]. rewrite E1. cbn [mbind outcome_bind]. rewrite E2.
  cbn [mbind outcome_bind]. rewrite E3. cbn [mbind outcome_bind].
  destruct (IH (pre ++ [sl]) s2) as (s' & E & A' & G' & EA').
  { rewrite EA, <- app_assoc. exact HA. }
  { rewrite list.Forall_forall in HS |- *. intros sl' Hs. eapply slot_ok_agree; [exact A| |apply HS, Hs].
    intros x H1 H2. apply (D0 x H2), list_elem_of_bind. eauto. }
  { exact D. }
  exists s'. split; [exact E|]. split; [|split; [|congruence]].
  - intros x Hx. apply not_elem_of_app in Hx as [H1 H2]. destruct (A x H1), (A' x H2). split; congruence.
  - intros x Hx. apply elem_of_app in Hx as [Hx|Hx]; [|apply G', Hx].
    destruct (A' x ltac:(intros H; apply (D0 x Hx H))) as [-> _]. apply G, Hx.
Qed.

Lemma destroy_buckets_rep s hm slots M : hm_rep h s hm slots M ->
  exists s', destroy_hashmap_buckets s (buckets hm) (bucket_count hm) = Ok s' /\
    agree s s' (slots ≫= foot) /\ gone s' (slots ≫= foot) /\
    s_arrays s' = delete (buckets hm) (s_arrays s).
Proof.
  intros R. unfold destroy_hashmap_buckets. rewrite <- (rep_count _ _ _ _ _ R), Nat2Z.id.
  destruct (destroy_slots_spec (buckets hm) slots [] s) as (s1 & E & A & G & EA).
  - apply (rep_array _ _ _ _ _ R).
  - apply Forall_lookup. intros i sl Hi. apply (rep_slot _ _ _ _ _ R _ _ Hi).
  - apply rep_disj_slots. exact (rep_disj _ _ _ _ _ R).
  - cbn [length] in E. rewrite E. cbn [mbind outcome_bind]. unfold free_array.
    rewrite EA, (rep_array _ _ _ _ _ R). eexists. split; [reflexivity|]. auto.
Qed.

(** *** A new bucket array *)

Lemma fresh_rep s hm p n : hash hm = Some h -> 0 < object_size hm /\ 24 + object_size hm < 2 ^ 32 ->
  p <> 0 -> 0 < n < 2 ^ 32 ->
  hm_rep h (HStore (s_links s) (s_nodes s) (<[p := replicate (Z.to_nat n) 0]> (s_arrays s)))
    (set_buckets hm p n) (replicate (Z.to_nat n) empty_slot) ∅.
Proof.
  intros H1 H2 H3 H4.
  split; cbn [set_buckets hash bucket_count object_size buckets s_arrays]; auto.
  - rewrite length_replicate. lia.
  - rewrite lookup_insert_eq, fmap_replicate. reflexivity.
  - intros i sl Hi. apply lookup_replicate in Hi as [-> _]. split; [left; reflexivity|].
    split; constructor.
  - intros i j sl sl' _ Hi _ x Hx. apply lookup_replicate in Hi as [-> _]. inversion Hx.
  - intros k. rewrite lookup_empty.
    destruct (replicate _ _ !! _) as [sl|] eqn:E; [|reflexivity].
    apply lookup_replicate in E as [-> _]. reflexivity.
Qed.

Lemma not_owned_fresh n x : ~ owned (replicate n empty_slot) x.
Proof. intros (i & sl & Hi & Hx). apply lookup_replicate in Hi as [-> _]. inversion Hx. Qed.

(** [alloced_buckets] matters on the failure paths only. *)
Lemma add_alloced s hm key obj :
  add_to_buckets kmalloc_size true s hm key obj =
  ('(ok, s', hm') ← add_to_buckets kmalloc_size false s hm key obj;
   if ok : bool then Ok (true, s', hm') else undo_buckets true s' hm').
Proof.
  unfold add_to_buckets. destruct (hash_of hm key) as [i| | |]; try reflexivity. cbn [mbind outcome_bind].
  destruct (get_bucket s hm i) as [b| | |]; try reflexivity. cbn [mbind outcome_bind].
  destruct (b =? 0); cbn [negb].
  - destruct (new_bucket kmalloc_size s hm i) as [[[b'|] s1]| | |]; try reflexivity. cbn [mbind outcome_bind].
    destruct (insert_node kmalloc_size s1 hm i b' key obj) as [[[|] s2]| | |]; reflexivity.
  - destruct (get_next (s_links s) b) as [f| | |]; try reflexivity. cbn [mbind outcome_bind].
    destruct (find_node _ s b f key) as [[x|]| | |]; try reflexivity; cbn [mbind outcome_bind].
    + destruct (list_empty (s_links s) b) as [e| | |]; try reflexivity. cbn [mbind outcome_bind].
      destruct (if e then _ else _) as [s1| | |]; reflexivity.
    + destruct (insert_node kmalloc_size s hm i b key obj) as [[[|] s2]| | |]; reflexivity.
Qed.

(** The states of a map: no bucket array yet, or one.  When the allocation of
    the array fails the map is left with no buckets, which every operation rejects. *)
Definition hm_null (hm : hashmap) : Prop :=
  buckets hm = 0 /\ 0 < bucket_count hm < 2 ^ 29 /\ hash hm = Some h /\
  0 < object_size hm /\ 24 + object_size hm < 2 ^ 32.
Definition hm_state (s : hstore) (hm : hashmap) (M : gmap Z (list Z)) : Prop :=
  (hm_null hm /\ M = ∅) \/ exists slots, hm_rep h s hm slots M.
Definition hm_dead (hm : hashmap) : Prop := bucket_count hm = 0 /\ buckets hm = 0.

Lemma null_initialized hm : hm_null hm -> hashmap_initialized hm = true /\ (buckets hm =? 0) = true.
Proof.
  intros (H1 & H2 & H3 & H4 & H5). unfold hashmap_initialized.
  destruct (Z.eqb_spec (bucket_count hm) 0), (Z.eqb_spec (object_size hm) 0), (Z.eqb_spec (buckets hm) 0);
    try lia; auto.
Qed.

Lemma hashmap_add_null s hm key obj : hm_null hm ->
  exists ok s' hm', hashmap_add kmalloc_size s hm key obj = Ok (ok, s', hm') /\
    (ok = false -> oom) /\
    ((ok = false /\ hm_dead hm') \/ hm_state s' hm' (if ok then <[key := obj]> ∅ else ∅)) /\
    (forall x, is_Some (s_links s !! x) ->
       s_links s' !! x = s_links s !! x /\ s_nodes s' !! x = s_nodes s !! x) /\
    (forall p, is_Some (s_arrays s !! p) -> s_arrays s' !! p = s_arrays s !! p).
Proof.
  intros N. pose proof N as (H1 & H2 & H3 & H4 & H5). destruct (null_initialized _ N) as [E1 E2].
  unfold hashmap_add. rewrite E1, E2. cbn [c_assert mbind outcome_bind].
  unfold calloc_size_buckets, check_mul_assert_w, check_mul_w.
  assert (EU : u32 (bucket_count hm) = bucket_count hm) by (apply Z.mod_small; lia).
  rewrite EU, fits_ok by (unfold is_u; lia). cbn [assert_some mbind outcome_bind].
  destruct (kmalloc_size s (bucket_count hm * 8)) as [[p n']|] eqn:EK; cbn [mbind outcome_bind].
  - destruct (kmalloc_fresh _ _ _ _ EK) as (Hp & Hn & _ & _ & Fa).
    assert (Hc : bucket_count hm <= n' / 8) by (apply Z.div_le_lower_bound; lia).
    assert (Hc' : n' / 8 < 2 ^ 29) by (apply Z.div_lt_upper_bound; lia).
    pose proof (fresh_rep s hm p (n' / 8) H3 ltac:(lia) ltac:(lia) ltac:(lia)) as R.
    rewrite add_alloced. destruct (add_spec _ _ _ _ key obj R) as (ok & s' & -> & AP & _ & O).
    cbn [mbind outcome_bind]. destruct AP as (slots' & R' & Fr).
    assert (O' : ok = false -> oom).
    { intros E. destruct (O E) as [F|F]; [|exact F]. rewrite lookup_empty in F. congruence. }
    destruct Fr as [Fr1 Fr2]. cbn [s_links s_nodes s_arrays buckets set_buckets] in Fr1, Fr2.
    assert (K : forall x, is_Some (s_links s !! x) ->
      s_links s' !! x = s_links s !! x /\ s_nodes s' !! x = s_nodes s !! x).
    { intros x Hx. destruct (Fr1 x Hx (not_owned_fresh _ _)) as (? & ? & _). auto. }
    assert (KA : forall q, is_Some (s_arrays s !! q) -> q <> p /\ s_arrays s' !! q = s_arrays s !! q).
    { intros q [a Hq]. assert (q <> p) by congruence. rewrite Fr2, lookup_insert_ne by auto. auto. }
    destruct ok.
    + eexists true, s', _. split; [reflexivity|]. split; [exact O'|].
      split; [right; right; eauto|]. split; [exact K|]. intros q Hq. apply (KA q Hq).
    + unfold undo_buckets, free_array. rewrite (rep_array _ _ _ _ _ R').
      eexists false, _, _. split; [reflexivity|]. split; [exact O'|]. split; [|split; [exact K|]].
      * right. left. split; [|reflexivity]. repeat split; cbn; auto; lia.
      * intros q Hq. destruct (KA q Hq) as [Hne E]. cbn. rewrite lookup_delete_ne by auto. exact E.
  - eexists false, s, _. split; [reflexivity|].
    split; [intros _; eexists _, _; split; [|exact EK]; unfold is_u; lia|].
    split; [|auto]. left. split; [reflexivity|]. split; reflexivity.
Qed.

(** One operation: the finite map's answer, or a refused allocation. *)
Definition op_post (M : gmap Z (list Z)) (o : hop) (r : hres) (s' : hstore) (hm' : hashmap) : Prop :=
  (r = (spec_op M o).1 /\ hm_state s' hm' (spec_op M o).2) \/
  (oom /\ inserts M o /\ r = RBool false /\ (hm_state s' hm' M \/ hm_dead hm')).

Lemma run_op_null s hm o : hm_null hm ->
  exists r s' hm', run_op kmalloc_size s hm o = Ok (r, s', hm') /\ op_post ∅ o r s' hm'.
Proof.
  intros N. destruct (null_initialized _ N) as [E1 E2]. unfold op_post.
  assert (St : hm_state s hm ∅) by (left; auto).
  assert (Add : forall k d, exists ok s' hm', hashmap_add kmalloc_size s hm k d = Ok (ok, s', hm') /\
    ((RBool ok = RBool true /\ hm_state s' hm' (<[k := d]> ∅)) \/
     (oom /\ (∅ : gmap Z (list Z)) !! k = None /\ RBool ok = RBool false /\
      (hm_state s' hm' ∅ \/ hm_dead hm')))).
  { intros k d. destruct (hashmap_add_null s hm k d N) as ([|] & s' & hm' & -> & O & D & _);
      eexists _, _, _; (split; [reflexivity|]); [left|right].
    - split; [reflexivity|]. destruct D as [[? _]|D]; [discriminate|exact D].
    - split; [auto|]. split; [reflexivity|]. split; [reflexivity|]. destruct D as [[_ D]|D]; auto. }
  destruct o as [k d|k d [|]|k|k]; cbn [run_op spec_op inserts fst snd];
    unfold hashmap_update, hashmap_get, hashmap_remove; rewrite ?E1, ?E2; cbn [c_assert mbind outcome_bind].
  - destruct (Add k d) as (ok & s' & hm' & -> & P). cbn [mbind outcome_bind]. eauto.
  - destruct (Add k d) as (ok & s' & hm' & -> & P). cbn [mbind outcome_bind]. eauto.
  - eexists _, _, _. split; [reflexivity|]. left. auto.
  - eexists _, _, _. split; [reflexivity|]. left. auto.
  - eexists _, _, _. split; [reflexivity|]. left. rewrite delete_empty. auto.
Qed.

Lemma run_op_live s hm slots M o : hm_rep h s hm slots M ->
  exists r s' hm', run_op kmalloc_size s hm o = Ok (r, s', hm') /\ op_post M o r s' hm'.
Proof.
  intros R. unfold op_post. destruct o as [k d|k d add|k|k]; cbn [run_op spec_op inserts].
  - destruct (hashmap_add_rep _ _ _ _ k d R) as (ok & s' & -> & (sl' & R' & _) & T & F).
    cbn [mbind outcome_bind]. eexists _, _, _. split; [reflexivity|].
    assert (St : hm_state s' hm (if ok then <[k := d]> M else M)) by (right; eauto).
    destruct ok; [rewrite (T eq_refl); auto|].
    destruct (M !! k) eqn:EM; [auto|]. destruct (F eq_refl) as [?|?]; [congruence|auto 6].
  - destruct (hashmap_update_rep _ _ _ _ k d add R) as (ok & s' & -> & (sl' & R' & _) & T & F & O).
    cbn [mbind outcome_bind]. eexists _, _, _. split; [reflexivity|].
    assert (St : hm_state s' hm (if ok then <[k := d]> M else M)) by (right; eauto).
    destruct (M !! k) eqn:EM.
    + rewrite (T ltac:(eauto)) in *. auto.
    + destruct add; [destruct ok; auto 6|]. rewrite (F eq_refl eq_refl) in *. auto.
  - destruct (hashmap_get_rep _ _ _ _ k R) as ([x|] & -> & P); cbn [mbind outcome_bind].
    + destruct P as (d & EM & Hx). unfold get_node. rewrite Hx. cbn [mbind outcome_bind].
      eexists _, _, _. split; [reflexivity|]. left. rewrite EM. split; [reflexivity|]. right. eauto.
    + eexists _, _, _. split; [reflexivity|]. left. rewrite P. split; [reflexivity|]. right. eauto.
  - destruct (hashmap_remove_rep _ _ _ _ k R) as (s' & sl' & -> & R' & _). cbn [mbind outcome_bind].
    eexists _, _, _. split; [reflexivity|]. left. split; [reflexivity|]. right. eauto.
Qed.

Lemma run_op_refines s hm M o : hm_state s hm M ->
  exists r s' hm', run_op kmalloc_size s hm o = Ok (r, s', hm') /\ op_post M o r s' hm'.
Proof. intros [[N ->]|[slots R]]; [apply run_op_null, N|apply (run_op_live _ _ _ _ _ R)]. Qed.

Lemma run_ops_refines os : forall s hm M, hm_state s hm M -> ~ oom ->
  exists s' hm', run_ops kmalloc_size s hm os = Ok (spec_ops M os, s', hm').
Proof.
  induction os as [|o os IH]; intros s hm M St NO; cbn [run_ops spec_ops]; [eauto|].
  destruct (run_op_refines s hm M o St) as (r & s1 & hm1 & -> & [[-> St1]|[O _]]); [|contradiction].
  cbn [mbind outcome_bind]. destruct (IH _ _ _ St1 NO) as (s' & hm' & ->). cbn. eauto.
Qed.

(** *** Resizing *)

Definition adds (M : gmap Z (list Z)) (kvs : list (Z * list Z)) : gmap Z (list Z) :=
  foldl (fun m kv => <[kv.1 := kv.2]> m) M kvs.

Lemma adds_lookup kvs : forall M k, NoDup kvs.*1 ->
  adds M kvs !! k = match assoc k kvs with Some d => Some d | None => M !! k end.
Proof.
  induction kvs as [|[k0 d0] kvs IH]; intros M k ND; [reflexivity|].
  cbn in ND. apply list.NoDup_cons in ND as [N ND]. cbn [adds foldl fst snd assoc].
  change (foldl _ ?m kvs) with (adds m kvs). rewrite (IH _ _ ND).
  destruct (Z.eqb_spec k0 k) as [->|Hne].
  - apply assoc_None in N. rewrite N. apply lookup_insert_eq.
  - destruct (assoc k kvs); [reflexivity|]. apply lookup_insert_ne, Hne.
Qed.

(** The entries of all slots, in the order in which they are added again; [f]
    gives the slot a key belongs to. *)
Lemma assoc_slots slots : forall (f : Z -> option nat),
  (forall i sl, slots !! i = Some sl ->
     NoDup (sl_kvs sl).*1 /\ Forall (fun kv => f kv.1 = Some i) (sl_kvs sl)) ->
  NoDup (slots ≫= sl_kvs).*1 /\
  forall k, assoc k (slots ≫= sl_kvs) = f k ≫= fun i => slots !! i ≫= fun sl => assoc k (sl_kvs sl).
Proof.
  induction slots as [|sl slots IH]; intros f H.
  { split; [constructor|]. intros k. cbn. destruct (f k) as [[|i]|]; reflexivity. }
  destruct (H 0%nat sl eq_refl) as [N0 F0].
  destruct (IH (fun k => f k ≫= fun i => match i with O => None | S i => Some i end)) as [N1 A1].
  { intros i sl' Hi. destruct (H (S i) sl' Hi) as [N F]. split; [exact N|].
    eapply list.Forall_impl; [exact F|]. cbn. intros kv ->. reflexivity. }
  assert (F1 : forall k, k ∈ (slots ≫= sl_kvs).*1 -> exists i, f k = Some (S i)).
  { intros k Hk. apply list_elem_of_fmap in Hk as (kv & -> & Hk).
    apply list_elem_of_bind in Hk as (sl' & Hk & Hs). apply list_elem_of_lookup in Hs as [i Hi].
    destruct (H (S i) sl' Hi) as [_ F]. rewrite list.Forall_forall in F. eauto. }
  assert (G0 : forall k, k ∈ (sl_kvs sl).*1 -> f k = Some 0%nat).
  { intros k Hk. apply list_elem_of_fmap in Hk as (kv & -> & Hk). rewrite list.Forall_forall in F0. auto. }
  cbn [mbind list_bind]. rewrite fmap_app. split.
  - apply list.NoDup_app. split; [exact N0|]. split; [|exact N1].
    intros k Hk Hk'. destruct (F1 k Hk') as [i Hi]. rewrite (G0 k Hk) in Hi. discriminate.
  - intros k. destruct (assoc k (sl_kvs sl)) as [d|] eqn:EA.
    + assert (Hk : k ∈ (sl_kvs sl).*1).
      { destruct (decide (k ∈ (sl_kvs sl).*1)) as [|Hn]; [assumption|].
        apply assoc_None in Hn. congruence. }
      rewrite (G0 k Hk). cbn. rewrite EA. clear -EA.
      induction (sl_kvs sl) as [|[k' d'] l IH]; cbn in *; [discriminate|]. destruct (k' =? k); auto.
    + rewrite assoc_app by exact EA. rewrite A1. destruct (f k) as [[|i]|]; cbn; auto.
Qed.

Lemma rep_adds s hm slots M : hm_rep h s hm slots M ->
  NoDup (slots ≫= sl_kvs).*1 /\ adds ∅ (slots ≫= sl_kvs) = M.
Proof.
  intros R. destruct (assoc_slots slots (fun k => Some (key_slot h hm k))) as [ND A].
  { intros i sl Hi. destruct (rep_slot _ _ _ _ _ R _ _ Hi) as (_ & N & F). split; [exact N|].
    eapply list.Forall_impl; [exact F|]. cbn. congruence. }
  split; [exact ND|]. apply map_eq. intros k. rewrite adds_lookup, A by exact ND.
  rewrite (rep_map _ _ _ _ _ R). cbn. destruct (slots !! key_slot h hm k ≫= _); reflexivity.
Qed.

Lemma hm_rep_agree s s' hm slots M F : hm_rep h s hm slots M -> agree s s' F ->
  (forall x, x ∈ F -> ~ owned slots x) -> s_arrays s' !! buckets hm = s_arrays s !! buckets hm ->
  hm_rep h s' hm slots M.
Proof.
  intros [R1 R2 R3 R4 R5 R6 R7 R8 R9] A D EA. split; auto.
  - rewrite EA. exact R6.
  - intros i sl Hi. destruct (R7 i sl Hi) as (S1 & S2 & S3). split; [|auto].
    eapply slot_ok_agree; eauto. intros x Hx1 Hx2. apply (D x Hx2). exists i, sl. auto.
Qed.

(** The new map after the entries [kvs] were added to it, or some of them. *)
Definition rehashed (s : hstore) (hm : hashmap) (nslots : list slot) (M : gmap Z (list Z))
    (kvs : list (Z * list Z)) (ok : bool) (s' : hstore) : Prop :=
  exists nslots' M', hm_rep h s' hm nslots' M' /\ hm_frame s nslots s' nslots' hm /\
    (ok = true -> M' = adds M kvs) /\ (ok = false -> oom).

Lemma rehash_nodes_spec b kvs hm : forall fuel xs s nslots M, hm_rep h s hm nslots M ->
  chain (s_links s) xs b -> b ∉ xs -> nodes_ok s xs kvs -> (length xs <= fuel)%nat ->
  (forall x, x ∈ xs -> ~ owned nslots x) -> NoDup kvs.*1 ->
  (forall k, k ∈ kvs.*1 -> M !! k = None) ->
  exists ok s', rehash_nodes kmalloc_size fuel s hm b (hd b xs) = Ok (ok, s', hm) /\
    rehashed s hm nslots M kvs ok s'.
Proof.
  induction kvs as [|[k d] kvs IH]; intros fuel xs s nslots M R C Nb NO Hf HO ND HK;
    inversion NO as [|x ? xs' ? Hx NO']; subst.
  - exists true, s. split; [destruct fuel; cbn; rewrite Z.eqb_refl; reflexivity|].
    exists nslots, M. split; [exact R|]. split; [apply hm_frame_refl|]. split; [reflexivity|discriminate].
  - destruct fuel as [|fuel]; [cbn in Hf; lia|]. cbn [rehash_nodes hd].
    destruct (Z.eqb_spec x b) as [->|_]; [exfalso; apply Nb, list_elem_of_here|].
    unfold get_node. rewrite Hx. cbn [mbind outcome_bind n_key n_data fst snd].
    destruct (hashmap_add_rep s hm nslots M k d R) as (ok & s1 & -> & (ns1 & R1 & Fr1) & _ & O).
    cbn [mbind outcome_bind]. destruct ok; cbn [negb].
    + destruct C as [Hn C]. cbn in ND. apply list.NoDup_cons in ND as [Nk ND].
      pose proof Fr1 as [Fr1' _].
      assert (K : forall y, y ∈ x :: xs' -> is_Some (s_links s !! y) ->
        s_links s1 !! y = s_links s !! y /\ s_nodes s1 !! y = s_nodes s !! y /\ ~ owned ns1 y).
      { intros y Hy Dy. apply Fr1'; auto. }
      assert (Dx : forall y, y ∈ xs' -> is_Some (s_links s !! y)).
      { intros y Hy. clear -C Hy. induction xs' as [|z zs IH]; [inversion Hy|]. destruct C as [Cz C].
        apply elem_of_cons in Hy as [->|Hy]; [eapply nextp_Some; eauto|auto]. }
      destruct (K x ltac:(apply list_elem_of_here) (nextp_Some _ _ _ Hn)) as (Ex & _ & _).
      rewrite (get_next_Ok _ _ (hd b xs')) by (rewrite (proj1 (lookup_views _ _ _ Ex)); exact Hn).
      cbn [mbind outcome_bind].
      destruct (IH fuel xs' s1 ns1 (<[k := d]> M)) as (ok & s' & E & ns' & M' & R' & Fr' & T & F); auto.
      * eapply chain_ext; [|exact C]. intros y Hy.
        destruct (K y ltac:(apply list_elem_of_further, Hy) (Dx y Hy)) as (E & _). apply lookup_views, E.
      * intros H. apply Nb, list_elem_of_further, H.
      * eapply nodes_ok_ext; [|exact NO']. intros y Hy.
        apply (K y ltac:(apply list_elem_of_further, Hy) (Dx y Hy)).
      * cbn in Hf. lia.
      * intros y Hy. apply (K y ltac:(apply list_elem_of_further, Hy) (Dx y Hy)).
      * intros k' Hk'. rewrite lookup_insert_ne by (intros ->; auto). apply HK. cbn.
        apply list_elem_of_further, Hk'.
      * exists ok, s'. split; [exact E|]. exists ns', M'. split; [exact R'|].
        split; [eapply hm_frame_trans; eauto|]. auto.
    + exists false, s1. split; [reflexivity|]. exists ns1, M. split; [exact R1|]. split; [exact Fr1|].
      split; [discriminate|]. intros _. destruct (O eq_refl) as [H|H]; [|exact H].
      destruct H. apply HK. cbn. apply list_elem_of_here.
Qed.

(** What the frame of the new map keeps of the old slots. *)
Lemma frame_slots s nslots s' nslots' hm slots : hm_frame s nslots s' nslots' hm ->
  Forall (slot_ok s) slots -> (forall x, x ∈ slots ≫= foot -> ~ owned nslots x) ->
  Forall (slot_ok s') slots /\ (forall x, x ∈ slots ≫= foot -> ~ owned nslots' x).
Proof.
  intros [Fr _] HS HO. rewrite list.Forall_forall in HS.
  assert (K : forall sl x, sl ∈ slots -> x ∈ foot sl ->
    s_links s' !! x = s_links s !! x /\ s_nodes s' !! x = s_nodes s !! x /\ ~ owned nslots' x).
  { intros sl x Hs Hx. apply Fr; [eapply foot_dom; eauto|]. apply HO, list_elem_of_bind. eauto. }
  split.
  - apply list.Forall_forall. intros sl Hs. destruct (HS sl Hs) as [->|[B N]]; [left; reflexivity|].
    right. split; [|exact N]. destruct B as (H0 & [ND L] & NO).
    assert (K' : forall x, x ∈ sl_head sl :: sl_links sl ->
      s_links s' !! x = s_links s !! x /\ s_nodes s' !! x = s_nodes s !! x).
    { intros x Hx. rewrite <- foot_bucket in Hx by exact H0. destruct (K sl x Hs Hx) as (? & ? & _). auto. }
    split; [exact H0|]. split; [split; [exact ND|]|].
    + revert L. apply seg_ext; intros x Hx; apply lookup_views, K'; [exact Hx|].
      rewrite elem_of_app, list_elem_of_singleton in Hx. apply elem_of_cons. tauto.
    + eapply nodes_ok_ext; [|exact NO]. intros x Hx. apply K', list_elem_of_further, Hx.
  - intros x Hx. apply list_elem_of_bind in Hx as (sl & Hx & Hs). eapply K; eauto.
Qed.

Lemma rehash_slots_spec hm old slots : forall pre s nslots M, hm_rep h s hm nslots M ->
  old <> buckets hm -> s_arrays s !! old = Some (sl_head <$> (pre ++ slots)) ->
  Forall (slot_ok s) slots -> (forall x, x ∈ slots ≫= foot -> ~ owned nslots x) ->
  NoDup (slots ≫= sl_kvs).*1 -> (forall k, k ∈ (slots ≫= sl_kvs).*1 -> M !! k = None) ->
  exists ok s', rehash_slots kmalloc_size (length slots) s hm old (length pre) = Ok (ok, s', hm) /\
    rehashed s hm nslots M (slots ≫= sl_kvs) ok s'.
Proof.
  induction slots as [|sl slots IH]; intros pre s nslots M R Ho HA HS HO ND HK; cbn [rehash_slots length].
  { exists true, s. split; [reflexivity|]. exists nslots, M. split; [exact R|].
    split; [apply hm_frame_refl|]. split; [reflexivity|discriminate]. }
  rewrite HA, list_lookup_fmap, lookup_app_r, Nat.sub_diag by lia.
  cbn [lookup list_lookup fmap option_map option_fmap].
  replace (S (length pre)) with (length (pre ++ [sl])) by (rewrite length_app; cbn; lia).
  pose proof HS as HS'. apply list.Forall_cons in HS as [S0 HS]. cbn [mbind list_bind] in *.
  rewrite fmap_app in ND, HK. apply list.NoDup_app in ND as (ND0 & ND1 & ND).
  destruct S0 as [->|[B _]].
  { cbn [sl_head empty_slot Z.eqb sl_kvs app]. apply IH; auto. rewrite <- app_assoc. exact HA. }
  pose proof B as (H0 & L & NO). destruct (Z.eqb_spec (sl_head sl) 0) as [?|_]; [congruence|].
  pose proof L as [NDl S]. pose proof NDl as NDl'. apply list.NoDup_cons in NDl' as [Nb _].
  rewrite (get_next_Ok _ _ _ (seg_first _ _ _ _ S)). cbn [mbind outcome_bind].
  destruct (rehash_nodes_spec (sl_head sl) (sl_kvs sl) hm (walk_fuel s) (sl_links sl) s nslots M R
    (seg_chain _ _ _ _ S) Nb NO) as (ok & s1 & -> & ns1 & M1 & R1 & Fr1 & T1 & F1); auto.
  { pose proof (walk_length _ _ _ L). lia. }
  { intros x Hx. apply HO, elem_of_app. left. rewrite foot_bucket by exact H0.
    apply list_elem_of_further, Hx. }
  { intros k Hk. apply HK, elem_of_app. auto. }
  cbn [mbind outcome_bind]. destruct ok; cbn [negb].
  - destruct (frame_slots _ _ _ _ _ (sl :: slots) Fr1 HS' HO) as [HS1 HO1].
    apply list.Forall_cons in HS1 as [_ HS1].
    destruct (IH (pre ++ [sl]) s1 ns1 M1 R1 Ho) as (ok & s' & E & ns' & M' & R' & Fr' & T & F); auto.
    + destruct Fr1 as [_ Fr1]. rewrite Fr1, <- app_assoc by exact Ho. exact HA.
    + intros x Hx. apply HO1, elem_of_app. auto.
    + intros k Hk. rewrite (T1 eq_refl), adds_lookup by exact ND0.
      destruct (assoc k (sl_kvs sl)) eqn:EA; [|apply HK, elem_of_app; auto].
      destruct (decide (k ∈ (sl_kvs sl).*1)) as [Hk'|Hn]; [destruct (ND1 k Hk' Hk)|].
      apply assoc_None in Hn. congruence.
    + exists ok, s'. split; [exact E|]. exists ns', M'. split; [exact R'|].
      split; [eapply hm_frame_trans; eauto|]. split; [|exact F].
      intros Hok. rewrite (T Hok), (T1 eq_refl). unfold adds. rewrite foldl_app. reflexivity.
  - exists false, s1. split; [reflexivity|]. exists ns1, M1. split; [exact R1|]. split; [exact Fr1|].
    split; [discriminate|auto].
Qed.

Lemma rep_frame s hm slots M ns s' ns' hm2 : hm_rep h s hm slots M -> hm_frame s ns s' ns' hm2 ->
  (forall x, owned slots x -> ~ owned ns x) -> buckets hm <> buckets hm2 ->
  hm_rep h s' hm slots M /\ (forall x, owned slots x -> ~ owned ns' x).
Proof.
  intros R Fr HO Hne. destruct (frame_slots _ _ _ _ _ slots Fr) as [HS HO'].
  - apply Forall_lookup. intros i sl Hi. apply (rep_slot _ _ _ _ _ R _ _ Hi).
  - intros x Hx. apply HO, owned_bind, Hx.
  - split; [|intros x Hx; apply HO', owned_bind, Hx].
    destruct Fr as [_ FA]. destruct R as [R1 R2 R3 R4 R5 R6 R7 R8 R9]. split; auto.
    + rewrite FA by exact Hne. exact R6.
    + intros i sl Hi. split; [|apply (R7 i sl Hi)]. eapply Forall_lookup in HS; eauto.
Qed.

Lemma hashmap_resize_rep s hm slots M count : hm_rep h s hm slots M -> 0 < count < 2 ^ 29 ->
  exists ok s' hm', hashmap_resize kmalloc_size s hm count = Ok (ok, s', hm') /\
    if ok : bool then exists slots', hm_rep h s' hm' slots' M /\ bucket_count hm' = count
    else oom /\ hm_rep h s' hm slots M /\
         (hm' = hm \/ hm' = HM (buckets hm) (bucket_count hm) 0 None 0).
Proof.
  intros R Hc. destruct (initialized_rep _ _ _ _ R) as [E1 E2]. unfold hashmap_resize.
  rewrite E1. cbn [c_assert mbind outcome_bind]. destruct (Z.eqb_spec count 0) as [?|_]; [lia|].
  cbn [negb c_assert mbind outcome_bind].
  destruct (Z.eqb_spec (bucket_count hm) count) as [Ec|_]; [exists true, s, hm; eauto|].
  unfold calloc_buckets, check_mul_assert_w, check_mul_w.
  assert (EU : u32 count = count) by (apply Z.mod_small; lia).
  rewrite EU, fits_ok by (unfold is_u; lia). cbn [assert_some mbind outcome_bind].
  destruct (kmalloc_size s (count * 8)) as [[p n']|] eqn:EK; cbn [mbind outcome_bind].
  2: { exists false, s, hm. split; [reflexivity|]. split; [|auto].
       eexists _, _; split; [|exact EK]; unfold is_u; lia. }
  destruct (kmalloc_fresh _ _ _ _ EK) as (Hp & Hn & _ & _ & Fa).
  assert (Hne : buckets hm <> p) by (intros <-; rewrite (rep_array _ _ _ _ _ R) in Fa; discriminate).
  pose proof (fresh_rep s hm p count (rep_hash _ _ _ _ _ R) (rep_obj _ _ _ _ _ R) ltac:(lia) ltac:(lia)) as R0.
  set (s0 := HStore _ _ _) in *. set (hm2 := set_buckets hm p count) in *.
  assert (Ro : hm_rep h s0 hm slots M).
  { apply (hm_rep_agree s s0 hm slots M [] R); [intros x _; cbn; auto|intros x Hx; inversion Hx|].
    cbn. apply lookup_insert_ne. auto. }
  destruct (rep_adds _ _ _ _ Ro) as [ND EM].
  destruct (rehash_slots_spec hm2 (buckets hm) slots [] s0 _ _ R0 Hne (rep_array _ _ _ _ _ Ro))
    as (ok & s1 & E & ns & M' & R1 & Fr & T & F).
  { apply Forall_lookup. intros i sl Hi. apply (rep_slot _ _ _ _ _ Ro _ _ Hi). }
  { intros x _. apply not_owned_fresh. } { exact ND. } { intros k _. apply lookup_empty. }
  rewrite <- (rep_count _ _ _ _ _ R), Nat2Z.id. cbn [length] in E. rewrite E. cbn [mbind outcome_bind].
  destruct (rep_frame _ _ _ _ _ _ _ _ Ro Fr ltac:(intros x _; apply not_owned_fresh) Hne) as [Ro1 HO].
  destruct ok; cbn [negb].
  - rewrite E2. cbn [negb]. rewrite (rep_count _ _ _ _ _ R).
    destruct (destroy_buckets_rep _ _ _ _ Ro1) as (s2 & -> & A & _ & EA). cbn [mbind outcome_bind].
    exists true, s2, hm2. split; [reflexivity|]. exists ns. split; [|reflexivity].
    rewrite (T eq_refl), EM in R1. eapply hm_rep_agree; [exact R1|exact A| |].
    + intros x Hx. apply HO, owned_bind, Hx.
    + rewrite EA. apply lookup_delete_ne. exact Hne.
  - unfold hashmap_destroy.
    destruct (destroy_buckets_rep _ _ _ _ R1) as (s2 & -> & A & _ & EA). cbn [mbind outcome_bind].
    eexists false, s2, _. split; [reflexivity|]. split; [auto|]. split.
    + eapply hm_rep_agree; [exact Ro1|exact A| |].
      * intros x Hx Ho. apply owned_bind in Hx. exact (HO x Ho Hx).
      * rewrite EA. apply lookup_delete_ne. auto.
    + right. unfold set_buckets. cbn. rewrite (rep_count _ _ _ _ _ R). reflexivity.
Qed.
End Correctness.

(** ** An allocator with these properties *)

Definition next_address (s : hstore) : Z :=
  1 + foldr Z.max 0 (elements (dom (s_links s) ∪ dom (s_nodes s) ∪ dom (s_arrays s))).
Definition next_alloc (s : hstore) (n : Z) : option (Z * Z) :=
  if (0 <=? n) && (n <? 2 ^ 32) then Some (next_address s, n) else None.

Lemma foldr_max_le x l : x ∈ l -> x <= foldr Z.max 0 l.
Proof.
  induction l as [|y l IH]; cbn; [intros H; inversion H|].
  intros [->|H]%elem_of_cons; [lia|]. specialize (IH H). lia.
Qed.
Lemma foldr_max_nonneg l : 0 <= foldr Z.max 0 l.
Proof. induction l; cbn; lia. Qed.

Lemma next_alloc_fresh : allocates_fresh next_alloc.
Proof.
  intros s n p n' H. unfold next_alloc in H.
  destruct ((0 <=? n) && (n <? 2 ^ 32)) eqn:E; [|discriminate]. injection H as <- <-.
  apply andb_prop in E as [E1 E2]. apply Z.leb_le in E1. apply Z.ltb_lt in E2.
  unfold next_address. set (l := elements _).
  assert (N : 1 + foldr Z.max 0 l ∉ l).
  { intros H. apply foldr_max_le in H. lia. }
  pose proof (foldr_max_nonneg l). split; [lia|]. split; [lia|].
  unfold l in N. rewrite elem_of_elements, !not_elem_of_union, !not_elem_of_dom in N. tauto.
Qed.
Lemma next_alloc_total : ~ oom next_alloc.
Proof.
  intros (s & n & [H1 H2] & E). unfold next_alloc in E.
  destruct (Z.leb_spec 0 n), (Z.ltb_spec n (2 ^ 32)); cbn in E; discriminate || lia.
Qed.

Definition no_objects : hstore := HStore ∅ ∅ ∅.
(** Keys 5 and 7 share a bucket, 6 has its own. *)
Definition demo_hm : hashmap := HASHMAP_INIT 4 2 (Some hashmap_no_hash) 0.
Definition demo_hops : list hop :=
  [OAdd 5 [1]; OAdd 7 [2]; OAdd 6 [3]; OAdd 5 [9]; OGet 7; OUpdate 7 [4] false; OUpdate 8 [0] false;
   ORemove 5; OGet 5; OGet 7; OUpdate 8 [6] true; ORemove 8; OGet 6].
Lemma demo_state : hm_state hashmap_no_hash no_objects demo_hm ∅.
Proof. left. split; [|reflexivity]. unfold hm_null. cbn. repeat split; lia. Qed.

(** ** The properties of the component *)

(** Every operation on a hash map, empty or not, returns, touches no released
    object, and answers as the finite map it stands for would, whose
    next state the hash map then stands for.  The only other case is an
    insertion for which an allocation was refused: it reports failure and the
    contents are unchanged, unless the bucket array itself was refused, which leaves a
    map with no buckets. *)
Theorem hashmap_op_refines km h s hm M o : allocates_fresh km -> hm_state h s hm M ->
  exists r s' hm', run_op km s hm o = Ok (r, s', hm') /\ op_post km h M o r s' hm'.
Proof. intros F St. apply run_op_refines; assumption. Qed.

Lemma hashmap_op_refines_witness :
  exists r s' hm', run_op next_alloc no_objects demo_hm (OAdd 5 [1]) = Ok (r, s', hm') /\
    op_post next_alloc hashmap_no_hash ∅ (OAdd 5 [1]) r s' hm'.
Proof. exact (hashmap_op_refines _ _ _ _ _ _ next_alloc_fresh demo_state). Defined.

(** C6: any sequence of additions, updates, lookups and removals on a freshly
    initialised hash map gives the answers of a finite map, as long as no
    allocation is refused. *)
Theorem hashmap_ops_refine km h info obj_size count s os :
  allocates_fresh km -> ~ oom km -> 0 < count < 2 ^ 29 -> 0 < obj_size < 2 ^ 32 - 24 ->
  exists s' hm', run_ops km s (HASHMAP_INIT obj_size count (Some h) info) os = Ok (spec_ops ∅ os, s', hm').
Proof.
  intros F NO Hc Ho. apply (run_ops_refines km F h); [|exact NO].
  left. split; [|reflexivity]. unfold hm_null. cbn. repeat split; lia.
Qed.

Lemma hashmap_ops_refine_witness :
  (exists s' hm', run_ops next_alloc no_objects demo_hm demo_hops = Ok (spec_ops ∅ demo_hops, s', hm')) /\
  spec_ops ∅ demo_hops =
    [RBool true; RBool true; RBool true; RBool false; RData (Some [2]); RBool true; RBool false;
     RData (Some [1]); RData None; RData (Some [4]); RBool true; RData (Some [6]); RData (Some [3])].
Proof.
  split; [|vm_compute; reflexivity].
  apply (hashmap_ops_refine next_alloc hashmap_no_hash 0 4 2 no_objects demo_hops next_alloc_fresh
           next_alloc_total); lia.
Defined.

(** A map with two entries in one bucket and one in the other. *)
Definition demo_store : hstore :=
  HStore {[2 := Link 3 4; 3 := Link 4 2; 4 := Link 2 3; 5 := Link 6 6; 6 := Link 5 5]}
    {[3 := Node 5 [1]; 4 := Node 7 [2]; 6 := Node 6 [3]]} {[1 := [5; 2]]}.
Definition demo_full : hashmap := HM 1 2 4 (Some hashmap_no_hash) 0.
Definition demo_slots : list slot := [Slot 5 [6] [(6, [3])]; Slot 2 [4; 3] [(7, [2]); (5, [1])]].
Definition demo_map : gmap Z (list Z) := {[7 := [2]; 5 := [1]; 6 := [3]]}.

Lemma demo_reached :
  match run_ops next_alloc no_objects demo_hm [OAdd 5 [1]; OAdd 7 [2]; OAdd 6 [3]] with
  | Ok (_, s, hm) => s = demo_store /\ buckets hm = 1
  | _ => False
  end.
Proof. vm_compute. split; reflexivity. Qed.

Lemma demo_rep : hm_rep hashmap_no_hash demo_store demo_full demo_slots demo_map.
Proof.
  split; [reflexivity|reflexivity|cbn; lia|cbn; lia|discriminate|reflexivity| | |].
  - intros [|[|i]] sl Hi; [| |discriminate]; injection Hi as <-; (split; [|split]);
      try (apply (bool_decide_unpack _); vm_compute; exact I).
    + right. split; [|discriminate]. split; [discriminate|]. split; [split|].
      * apply (bool_decide_unpack _). vm_compute. exact I.
      * vm_compute. repeat split.
      * repeat constructor.
    + right. split; [|discriminate]. split; [discriminate|]. split; [split|].
      * apply (bool_decide_unpack _). vm_compute. exact I.
      * vm_compute. repeat split.
      * repeat constructor.
  - intros [|[|i]] [|[|j]] sl sl' Hij Hi Hj; try discriminate; try congruence;
      injection Hi as <-; injection Hj as <-; intros x; cbn;
      rewrite !elem_of_cons, !elem_of_nil; lia.
  - intros k. unfold demo_map, demo_slots, key_slot, hashmap_no_hash, demo_full. cbn [bucket_count].
    destruct (decide (k = 7)) as [->|H7]; [reflexivity|].
    destruct (decide (k = 5)) as [->|H5]; [reflexivity|].
    destruct (decide (k = 6)) as [->|H6]; [reflexivity|].
    rewrite !lookup_insert_ne, lookup_singleton_ne by auto.
    assert (E : forall sl, sl ∈ demo_slots -> assoc k (sl_kvs sl) = None).
    { intros sl Hs. apply assoc_None. unfold demo_slots in Hs.
      apply elem_of_cons in Hs as [->|Hs]; [|apply list_elem_of_singleton in Hs as ->]; cbn;
        rewrite ?not_elem_of_cons, ?list_elem_of_singleton; auto using not_elem_of_nil. }
    destruct (_ !! _) as [sl|] eqn:EL; [|reflexivity]. symmetry. apply E.
    eapply list_elem_of_lookup_2; eauto.
Qed.

(** [hashmap_resize] returns; on success the map has the bucket count asked for and
    the same contents.  It fails only when an allocation is refused, and then
    the old buckets still represent the same contents through the original handle, but
    unless the very first allocation failed, the handle has lost its hash
    function and its object size. *)
Theorem hashmap_resize_keeps km h s hm slots M count :
  allocates_fresh km -> hm_rep h s hm slots M -> 0 < count < 2 ^ 29 ->
  exists ok s' hm', hashmap_resize km s hm count = Ok (ok, s', hm') /\
    if ok : bool then exists slots', hm_rep h s' hm' slots' M /\ bucket_count hm' = count
    else oom km /\ hm_rep h s' hm slots M /\
         (hm' = hm \/ hm' = HM (buckets hm) (bucket_count hm) 0 None 0).
Proof. intros F R Hc. apply hashmap_resize_rep; assumption. Qed.

(** An allocator that refuses from address 9 on: the resize fails half way. *)
Definition small_alloc (s : hstore) (n : Z) : option (Z * Z) :=
  if next_address s <? 9 then next_alloc s n else None.

Lemma hashmap_resize_keeps_witness :
  (exists ok s' hm', hashmap_resize next_alloc demo_store demo_full 5 = Ok (ok, s', hm') /\
    if ok : bool then exists slots', hm_rep hashmap_no_hash s' hm' slots' demo_map /\ bucket_count hm' = 5
    else oom next_alloc /\ hm_rep hashmap_no_hash s' demo_full demo_slots demo_map /\
         (hm' = demo_full \/ hm' = HM 1 2 0 None 0)) /\
  (exists s', hashmap_resize small_alloc demo_store demo_full 5 = Ok (false, s', HM 1 2 0 None 0)).
Proof.
  split.
  - apply (hashmap_resize_keeps _ _ _ _ _ _ 5 next_alloc_fresh demo_rep). lia.
  - eexists. vm_compute. reflexivity.
Defined.

(** C36: [hashmap_destroy] on a map with a bucket array releases exactly the buckets,
    nodes and array of the map, each once, and resets the handle; every other
    object is untouched. *)
Theorem hashmap_destroy_releases h s hm slots M : hm_rep h s hm slots M ->
  exists s', hashmap_destroy s hm = Ok (s', HM 0 0 0 None 0) /\
    s_arrays s' = delete (buckets hm) (s_arrays s) /\
    (forall x, owned slots x -> s_links s' !! x = None) /\
    (forall x, ~ owned slots x -> s_links s' !! x = s_links s !! x /\ s_nodes s' !! x = s_nodes s !! x).
Proof.
  intros R. unfold hashmap_destroy. destruct (destroy_buckets_rep h s hm slots M R) as (s' & -> & A & G & EA).
  exists s'. split; [reflexivity|]. split; [exact EA|]. split; intros x Hx.
  - apply G, owned_bind, Hx.
  - apply A. intros H. apply Hx, owned_bind, H.
Qed.

Lemma hashmap_destroy_releases_witness :
  exists s', hashmap_destroy demo_store demo_full = Ok (s', HM 0 0 0 None 0) /\
    s_arrays s' = delete 1 (s_arrays demo_store) /\
    (forall x, owned demo_slots x -> s_links s' !! x = None) /\
    (forall x, ~ owned demo_slots x ->
       s_links s' !! x = s_links demo_store !! x /\ s_nodes s' !! x = s_nodes demo_store !! x).
Proof. exact (hashmap_destroy_releases _ _ _ _ _ demo_rep). Defined.
