(* ===== verification/AvlTree.v ===== *)
(** * AVL trees: lib/adt/avltree.c

    Tree nodes are embedded in their owners; the heap maps the address of a node
    to its four fields.  [struct avlnode **] is the address of a pointer field:
    the root of the tree or a child field of a node.  The comparator and the two
    notification callbacks are parameters: they belong to the owner of the nodes and
    may read the tree and change the owner's state [U], not the tree.
    [rep] relates a heap to a binary tree of addresses, and the operations are
    proved against the in-order sequence of that tree. *)

From stdpp Require Import gmap sorting.
From S2P Require Import Prelude.

Record avlnode := AvlNode { a_parent : Z; a_left : Z; a_right : Z; a_height : Z }.
Definition AVLNODE_INIT : avlnode := AvlNode 0 0 0 0.

(** The address of a field that holds a node pointer. *)
Inductive alink := LRoot | LLeft (p : Z) | LRight (p : Z).

Section Model.
Context {U : Type}.

Record avltree := Avl { a_nodes : gmap Z avlnode; a_root : Z; a_user : U }.

Definition node_at (t : avltree) (p : Z) : outcome avlnode :=
  match a_nodes t !! p with Some n => Ok n | None => Undef end.
Definition set_at (t : avltree) (p : Z) (f : avlnode -> avlnode) : outcome avltree :=
  n ← node_at t p; Ok (Avl (<[p := f n]> (a_nodes t)) (a_root t) (a_user t)).
Definition set_parent (t : avltree) (p v : Z) : outcome avltree :=
  set_at t p (fun n => AvlNode v (a_left n) (a_right n) (a_height n)).
Definition set_left (t : avltree) (p v : Z) : outcome avltree :=
  set_at t p (fun n => AvlNode (a_parent n) v (a_right n) (a_height n)).
Definition set_right (t : avltree) (p v : Z) : outcome avltree :=
  set_at t p (fun n => AvlNode (a_parent n) (a_left n) v (a_height n)).
Definition set_height (t : avltree) (p v : Z) : outcome avltree :=
  set_at t p (fun n => AvlNode (a_parent n) (a_left n) (a_right n) v).
Definition write_link (t : avltree) (l : alink) (v : Z) : outcome avltree :=
  match l with
  | LRoot => Ok (Avl (a_nodes t) v (a_user t))
  | LLeft p => set_left t p v
  | LRight p => set_right t p v
  end.
(** [if (p != NULL) p->parent = v] *)
Definition set_parent_opt (t : avltree) (p v : Z) : outcome avltree :=
  if negb (p =? 0) then set_parent t p v else Ok t.

(** [avlnode_verify] is empty in the kernel build. *)
Definition rotate_left (t : avltree) (node : Z) : outcome (avltree * Z) :=
  n ← node_at t node;
  let new_top := a_right n in
  let new_top_parent := a_parent n in
  r ← node_at t new_top;
  let new_top_left_right := a_left r in
  t ← set_right t node new_top_left_right;
  t ← set_parent t node new_top;
  t ← set_parent_opt t new_top_left_right node;
  t ← set_parent t new_top new_top_parent;
  t ← set_left t new_top node;
  Ok (t, new_top).

Definition rotate_right (t : avltree) (node : Z) : outcome (avltree * Z) :=
  n ← node_at t node;
  let new_top := a_left n in
  let new_top_parent := a_parent n in
  l ← node_at t new_top;
  let new_top_right_left := a_right l in
  t ← set_left t node new_top_right_left;
  t ← set_parent t node new_top;
  t ← set_parent_opt t new_top_right_left node;
  t ← set_parent t new_top new_top_parent;
  t ← set_right t new_top node;
  Ok (t, new_top).

Definition node_height (t : avltree) (node : Z) : outcome Z :=
  if negb (node =? 0) then n ← node_at t node; Ok (a_height n) else Ok 0.
Definition node_balance (t : avltree) (node : Z) : outcome Z :=
  n ← node_at t node;
  r ← node_height t (a_right n);
  l ← node_height t (a_left n);
  Ok (r - l).
Definition reset_node_height (t : avltree) (node : Z) : outcome avltree :=
  n ← node_at t node;
  l ← node_height t (a_left n);
  r ← node_height t (a_right n);
  set_height t node (u32 (1 + Z.max l r)).

Definition get_node_link (t : avltree) (node : Z) : outcome alink :=
  n ← node_at t node;
  if negb (a_parent n =? 0) then
    p ← node_at t (a_parent n);
    Ok (if node =? a_left p then LLeft (a_parent n) else LRight (a_parent n))
  else Ok LRoot.

Section Callbacks.
Context (update added_node : option (avltree -> Z -> U)).

Definition notify (cb : option (avltree -> Z -> U)) (t : avltree) (node : Z) : avltree :=
  match cb with
  | Some f => Avl (a_nodes t) (a_root t) (f t node)
  | None => t
  end.
Definition avlnode_update (t : avltree) (node : Z) : avltree := notify update t node.

(** The two rebalancing branches; the result is the node that took the place of
    [node]. *)
Definition fixup_right_heavy (t : avltree) (node : Z) : outcome (avltree * Z) :=
  n ← node_at t node;
  let new_node := a_right n in
  nn ← node_at t new_node;
  lh ← node_height t (a_left nn);
  rh ← node_height t (a_right nn);
  '(t, new_node) ←
    (if rh <? lh then
       '(t, new_node) ← rotate_right t new_node;
       t ← set_right t node new_node;
       t ← reset_node_height t new_node;
       Ok (avlnode_update t new_node, new_node)
     else Ok (t, new_node));
  link ← get_node_link t node;
  '(t, top) ← rotate_left t node;
  t ← write_link t link top;
  t ← reset_node_height t node;
  Ok (avlnode_update t node, new_node).

Definition fixup_left_heavy (t : avltree) (node : Z) : outcome (avltree * Z) :=
  n ← node_at t node;
  let new_node := a_left n in
  nn ← node_at t new_node;
  lh ← node_height t (a_left nn);
  rh ← node_height t (a_right nn);
  '(t, new_node) ←
    (if lh <? rh then
       '(t, new_node) ← rotate_left t new_node;
       t ← set_left t node new_node;
       t ← reset_node_height t new_node;
       Ok (t, new_node)
     else Ok (t, new_node));
  link ← get_node_link t node;
  '(t, top) ← rotate_right t node;
  t ← write_link t link top;
  t ← reset_node_height t node;
  Ok (avlnode_update t node, new_node).

Definition fixup_step (t : avltree) (node : Z) : outcome (avltree * Z) :=
  balance ← node_balance t node;
  if 1 <? balance then fixup_right_heavy t node
  else if balance <? -1 then fixup_left_heavy t node
  else t ← reset_node_height t node; Ok (t, node).

(** The loop climbs to the root: the fuel bounds the depth. *)
Fixpoint avltree_fixup (fuel : nat) (t : avltree) (node : Z) : outcome avltree :=
  if node =? 0 then Ok t
  else match fuel with
       | O => Diverge
       | S fuel =>
           '(t, node) ← fixup_step t node;
           let t := avlnode_update t node in
           n ← node_at t node;
           avltree_fixup fuel t (a_parent n)
       end.

(** Fuel for a climb or a descent: a path meets each node once. *)
Definition depth_fuel (t : avltree) : nat := S (size (a_nodes t)).

Definition insert_at_loc (t : avltree) (node parent : Z) (link : alink)
    (added : option (avltree -> Z -> U)) : outcome avltree :=
  t ← set_height t node 1;
  t ← set_left t node 0;
  t ← set_right t node 0;
  t ← set_parent t node parent;
  t ← write_link t link node;
  let t := notify added t node in
  let t := avlnode_update t node in
  avltree_fixup (depth_fuel t) t parent.

Fixpoint insert_loop (fuel : nat) (comparator : Z -> Z -> Z) (t : avltree)
    (node parent curr_node : Z) (link : alink) : outcome (bool * avltree) :=
  if curr_node =? 0 then t ← insert_at_loc t node parent link added_node; Ok (true, t)
  else
    let compare := comparator node curr_node in
    if compare =? 0 then Ok (false, t)
    else match fuel with
         | O => Diverge
         | S fuel =>
             n ← node_at t curr_node;
             if compare <? 0
             then insert_loop fuel comparator t node curr_node (a_left n) (LLeft curr_node)
             else insert_loop fuel comparator t node curr_node (a_right n) (LRight curr_node)
         end.
Definition avltree_insert (t : avltree) (node : Z) (comparator : Z -> Z -> Z)
    : outcome (bool * avltree) :=
  insert_loop (depth_fuel t) comparator t node 0 (a_root t) LRoot.
Definition avltree_insert_at_loc (t : avltree) (node parent : Z) (link : alink) : outcome avltree :=
  insert_at_loc t node parent link None.

(** [do { parent = successor; ... successor = successor->left; } while (successor->left != NULL)] *)
Fixpoint successor_loop (fuel : nat) (t : avltree) (successor : Z) : outcome (Z * Z) :=
  s ← node_at t successor;
  let parent := successor in
  let successor := a_left s in
  s ← node_at t successor;
  if negb (a_left s =? 0) then
    match fuel with O => Diverge | S fuel => successor_loop fuel t successor end
  else Ok (parent, successor).

Definition swap_height (t : avltree) (a b : Z) : outcome avltree :=
  na ← node_at t a;
  nb ← node_at t b;
  t ← set_height t a (a_height nb);
  set_height t b (a_height na).
Definition swap_right (t : avltree) (a b : Z) : outcome avltree :=
  na ← node_at t a;
  nb ← node_at t b;
  t ← set_right t a (a_right nb);
  set_right t b (a_right na).

(** The successor further down: its links and those of [node] are exchanged ... *)
Definition delete_far_links (t : avltree) (node left parent successor : Z) : outcome avltree :=
  t ← set_left t successor left;
  t ← set_parent t left successor;
  t ← set_left t node 0;
  t ← swap_right t node successor;
  s ← node_at t successor;
  t ← set_parent t (a_right s) successor;
  n ← node_at t node;
  t ← set_parent_opt t (a_right n) node;
  set_left t parent node.
(** ... and it takes the place of [node]. *)
Definition delete_far (t : avltree) (node left : Z) (node_link : alink) (parent successor : Z)
    : outcome avltree :=
  t ← delete_far_links t node left parent successor;
  t ← write_link t node_link successor;
  n ← node_at t node;
  t ← set_parent t successor (a_parent n);
  t ← set_parent t node parent;
  swap_height t node successor.

(** The right child is the successor. *)
Definition delete_near (t : avltree) (node left : Z) (node_link : alink) (successor : Z)
    : outcome avltree :=
  s ← node_at t successor;
  t ← set_left t node 0;
  t ← set_right t node (a_right s);
  t ← set_left t successor left;
  t ← set_right t successor node;
  t ← set_parent t left successor;
  n ← node_at t node;
  t ← set_parent_opt t (a_right n) node;
  t ← set_right t successor node;
  n ← node_at t node;
  t ← set_parent t successor (a_parent n);
  t ← set_parent t node successor;
  t ← write_link t node_link successor;
  swap_height t node successor.

(** [node] has at most one child when it is cut out. *)
Definition delete_prepare (t : avltree) (node : Z) : outcome (avltree * alink * Z) :=
  node_link ← get_node_link t node;
  n ← node_at t node;
  if negb (a_left n =? 0) && negb (a_right n =? 0) then
    let successor := a_right n in
    s ← node_at t successor;
    if negb (a_left s =? 0) then
      '(parent, successor) ← successor_loop (depth_fuel t) t successor;
      t ← delete_far t node (a_left n) node_link parent successor;
      Ok (t, LLeft parent, parent)
    else
      t ← delete_near t node (a_left n) node_link successor;
      Ok (t, LRight successor, successor)
  else Ok (t, node_link, a_parent n).

Definition avltree_delete_node (t : avltree) (node : Z) : outcome avltree :=
  '(t, node_link, parent) ← delete_prepare t node;
  n ← node_at t node;
  let first_child := if negb (a_left n =? 0) then a_left n else a_right n in
  t ← write_link t node_link first_child;
  t ← set_parent_opt t first_child parent;
  avltree_fixup (depth_fuel t) t parent.

(** [comparator curr key]; the result is the node taken out, or 0 for NULL. *)
Fixpoint delete_loop (fuel : nat) (comparator : Z -> Z -> Z) (t : avltree) (key curr_node : Z)
    : outcome (Z * avltree) :=
  if curr_node =? 0 then Ok (0, t)
  else
    let compare := comparator curr_node key in
    if compare =? 0 then t ← avltree_delete_node t curr_node; Ok (curr_node, t)
    else match fuel with
         | O => Diverge
         | S fuel =>
             n ← node_at t curr_node;
             delete_loop fuel comparator t key (if compare <? 0 then a_left n else a_right n)
         end.
Definition avltree_delete (t : avltree) (key : Z) (comparator : Z -> Z -> Z) : outcome (Z * avltree) :=
  delete_loop (depth_fuel t) comparator t key (a_root t).

End Callbacks.

(** ** Reading the tree *)

Fixpoint leftmost_loop (fuel : nat) (t : avltree) (node : Z) : outcome Z :=
  n ← node_at t node;
  if a_left n =? 0 then Ok node
  else match fuel with O => Diverge | S fuel => leftmost_loop fuel t (a_left n) end.
Fixpoint rightmost_loop (fuel : nat) (t : avltree) (node : Z) : outcome Z :=
  n ← node_at t node;
  if a_right n =? 0 then Ok node
  else match fuel with O => Diverge | S fuel => rightmost_loop fuel t (a_right n) end.
Definition avltree_leftmost (t : avltree) : outcome Z :=
  if a_root t =? 0 then Ok 0 else leftmost_loop (depth_fuel t) t (a_root t).
Definition avltree_rightmost (t : avltree) : outcome Z :=
  if a_root t =? 0 then Ok 0 else rightmost_loop (depth_fuel t) t (a_root t).

(** The second loop returns the first ancestor with a left child. *)
Fixpoint successor_up (fuel : nat) (t : avltree) (node : Z) : outcome Z :=
  if node =? 0 then Ok 0
  else n ← node_at t node;
       if negb (a_left n =? 0) then Ok node
       else match fuel with O => Diverge | S fuel => successor_up fuel t (a_parent n) end.
Definition avlnode_successor (t : avltree) (node : Z) : outcome Z :=
  n ← node_at t node;
  if negb (a_right n =? 0) then leftmost_loop (depth_fuel t) t (a_right n)
  else successor_up (depth_fuel t) t (a_parent n).

End Model.
Arguments avltree U : clear implicits.

(** ** The binary tree a heap stands for *)

Inductive tree := Leaf | Br (l : tree) (p : Z) (r : tree).
Definition root (T : tree) : Z := match T with Leaf => 0 | Br _ p _ => p end.
Fixpoint inorder (T : tree) : list Z :=
  match T with Leaf => [] | Br l p r => inorder l ++ p :: inorder r end.
(** Where a descent along [right] pointers, or [left] pointers, ends. *)
Fixpoint depth (T : tree) : nat :=
  match T with Leaf => O | Br l _ r => S (Nat.max (depth l) (depth r)) end.

(** The pointer fields; heights play no part in the shape. *)
Definition pv (m : gmap Z avlnode) (x : Z) : option Z := a_parent <$> m !! x.
Definition lv (m : gmap Z avlnode) (x : Z) : option Z := a_left <$> m !! x.
Definition rv (m : gmap Z avlnode) (x : Z) : option Z := a_right <$> m !! x.

Definition links_at (m : gmap Z avlnode) (x par l r : Z) : Prop :=
  x <> 0 /\ pv m x = Some par /\ lv m x = Some l /\ rv m x = Some r.
Fixpoint tree_at (m : gmap Z avlnode) (par : Z) (T : tree) : Prop :=
  match T with
  | Leaf => True
  | Br l p r => links_at m p par (root l) (root r) /\ tree_at m p l /\ tree_at m p r
  end.

(** A path to a subtree, innermost step first. *)
Inductive frame := FL (p : Z) (r : tree) | FR (l : tree) (p : Z).
Definition fptr (f : frame) : Z := match f with FL p _ => p | FR _ p => p end.
Definition fplug (f : frame) (T : tree) : tree :=
  match f with FL p r => Br T p r | FR l p => Br l p T end.
Definition plug (c : list frame) (T : tree) : tree := foldl (fun T f => fplug f T) T c.
Definition fnodes (f : frame) : list Z :=
  match f with FL p r => p :: inorder r | FR l p => p :: inorder l end.
Definition nodes (c : list frame) : list Z := c ≫= fnodes.
(** The parent of the hole, when [par] is the parent of the whole. *)
Definition hole_par (c : list frame) (par : Z) : Z :=
  match c with [] => par | f :: _ => fptr f end.
(** The pointer to the whole, when [x] is the pointer to the hole. *)
Definition top (c : list frame) (x : Z) : Z := foldl (fun _ f => fptr f) x c.

Fixpoint seg_at (m : gmap Z avlnode) (c : list frame) (x par : Z) : Prop :=
  match c with
  | [] => True
  | FL p r :: c =>
      links_at m p (hole_par c par) x (root r) /\ tree_at m p r /\ seg_at m c p par
  | FR l p :: c =>
      links_at m p (hole_par c par) (root l) x /\ tree_at m p l /\ seg_at m c p par
  end.

(** The height fields are 32-bit. *)
Definition typed (m : gmap Z avlnode) : Prop :=
  forall x n, m !! x = Some n -> is_u 32 (a_height n).
(** An invariant of the owner's state, which the callbacks keep. *)
Class UserInv (U : Type) := uinv : U -> Prop.
Definition kept {U} {UI : UserInv U} (t t' : avltree U) : Prop :=
  dom (a_nodes t') = dom (a_nodes t) /\ (typed (a_nodes t) -> typed (a_nodes t')) /\
  (uinv (a_user t) -> uinv (a_user t')).

Definition rep {U} (t : avltree U) (T : tree) : Prop :=
  a_root t = root T /\ tree_at (a_nodes t) 0 T /\ NoDup (inorder T) /\ typed (a_nodes t).

Lemma kept_refl {U} {UI : UserInv U} (t : avltree U) : kept t t.
Proof. split; auto. Qed.
Lemma kept_trans {U} {UI : UserInv U} (t1 t2 t3 : avltree U) : kept t1 t2 -> kept t2 t3 -> kept t1 t3.
Proof. intros (D1 & T1 & U1) (D2 & T2 & U2). split; [congruence|auto]. Qed.

(** The callback keeps the invariant when it is called on a node of a tree with the
    in-order sequence [xs]. *)
Definition respects {U} {UI : UserInv U} (cb : option (avltree U -> Z -> U)) (xs : list Z) : Prop :=
  forall t T x, rep t T -> inorder T = xs -> x ∈ xs -> uinv (a_user t) -> uinv (a_user (notify cb t x)).

Lemma root_plug c T : root (plug c T) = top c (root T).
Proof.
  unfold plug, top. revert T. induction c as [|f c IH]; intros T; cbn; [reflexivity|].
  rewrite IH. destruct f; reflexivity.
Qed.
Lemma tree_plug m c : forall T par, tree_at m par (plug c T) <->
  tree_at m (hole_par c par) T /\ seg_at m c (root T) par.
Proof.
  induction c as [|f c IH]; intros T par; cbn [plug foldl hole_par seg_at]; [tauto|].
  change (foldl _ ?x c) with (plug c x). rewrite IH. destruct f; cbn [fplug tree_at root fptr]; tauto.
Qed.
Lemma path_app m c d : forall x par, seg_at m (c ++ d) x par <->
  seg_at m c x (hole_par d par) /\ seg_at m d (top c x) par.
Proof.
  induction c as [|f c IH]; intros x par; cbn [app seg_at top foldl]; [tauto|].
  change (foldl _ ?x c) with (top c x).
  assert (E : hole_par (c ++ d) par = hole_par c (hole_par d par)) by (destruct c; reflexivity).
  destruct f; rewrite IH, E; cbn [fptr]; tauto.
Qed.
Lemma plug_app c d T : plug (c ++ d) T = plug d (plug c T).
Proof. unfold plug. apply foldl_app. Qed.

(** What comes before and after the hole. *)
Fixpoint before (c : list frame) : list Z :=
  match c with
  | [] => []
  | FL _ _ :: c => before c
  | FR l p :: c => before c ++ inorder l ++ [p]
  end.
Fixpoint after (c : list frame) : list Z :=
  match c with
  | [] => []
  | FL p r :: c => p :: inorder r ++ after c
  | FR _ _ :: c => after c
  end.
Lemma inorder_plug c : forall T, inorder (plug c T) = before c ++ inorder T ++ after c.
Proof.
  induction c as [|f c IH]; intros T; [cbn; rewrite app_nil_r; reflexivity|].
  change (plug (f :: c) T) with (plug c (fplug f T)). rewrite IH.
  destruct f; cbn; rewrite <- !app_assoc; reflexivity.
Qed.
Lemma nodes_perm c : before c ++ after c ≡ₚ nodes c.
Proof.
  induction c as [|f c IH]; [reflexivity|]. cbn [nodes mbind list_bind]. change (c ≫= fnodes) with (nodes c).
  rewrite <- IH. destruct f; cbn; solve_Permutation.
Qed.

(** ** Field updates through the views *)

Section Views.
Context {U : Type} {UI : UserInv U}.
Implicit Types t : avltree U.

(** [t'] differs from [t] in one pointer field; heights are free. *)
Record step_views (t t' : avltree U) (P L R : Z -> option Z) : Prop := {
  sv_root : a_root t' = a_root t;
  sv_pv : forall x, pv (a_nodes t') x = P x;
  sv_lv : forall x, lv (a_nodes t') x = L x;
  sv_rv : forall x, rv (a_nodes t') x = R x;
  sv_kept : kept t t';
  sv_user : a_user t' = a_user t
}.
Definition upd1 (f : Z -> option Z) (p v x : Z) : option Z :=
  if decide (x = p) then Some v else f x.

Lemma pv_Some m x v : pv m x = Some v -> is_Some (m !! x).
Proof. unfold pv. destruct (m !! x); [eauto|discriminate]. Qed.
Lemma lv_Some m x v : lv m x = Some v -> is_Some (m !! x).
Proof. unfold lv. destruct (m !! x); [eauto|discriminate]. Qed.

Lemma node_at_views t x a b c : pv (a_nodes t) x = Some a -> lv (a_nodes t) x = Some b ->
  rv (a_nodes t) x = Some c -> exists h, node_at t x = Ok (AvlNode a b c h).
Proof.
  unfold pv, lv, rv, node_at. destruct (a_nodes t !! x) as [[a' b' c' h]|]; [|discriminate].
  cbn. intros [= ->] [= ->] [= ->]. eauto.
Qed.

Lemma set_at_views t p f n : a_nodes t !! p = Some n ->
  (is_u 32 (a_height n) -> is_u 32 (a_height (f n))) ->
  exists t', set_at t p f = Ok t' /\
    step_views t t' (upd1 (pv (a_nodes t)) p (a_parent (f n))) (upd1 (lv (a_nodes t)) p (a_left (f n)))
      (upd1 (rv (a_nodes t)) p (a_right (f n))).
Proof.
  intros E Hh. unfold set_at, node_at. rewrite E. cbn [mbind outcome_bind]. eexists. split; [reflexivity|].
  split; cbn; [reflexivity| | | | |reflexivity].
  1-3: intros x; unfold pv, lv, rv, upd1; case_decide as D; [subst; rewrite lookup_insert_eq; reflexivity|];
    rewrite lookup_insert_ne by auto; reflexivity.
  split; cbn; [rewrite dom_insert_lookup_L; eauto|]. split; [|auto]. intros Ty x n' Hx.
  destruct (decide (x = p)) as [->|Hne].
  - rewrite lookup_insert_eq in Hx. injection Hx as <-. eauto.
  - rewrite lookup_insert_ne in Hx by auto. eauto.
Qed.

Lemma upd1_id (f : Z -> option Z) p v x : f p = Some v -> upd1 f p v x = f x.
Proof. unfold upd1. case_decide; congruence. Qed.

Ltac set_tac E :=
  match goal with |- context[set_at ?t ?p ?f] =>
    let n := fresh "n" in destruct E as [n E];
    let t' := fresh "t'" in let H1 := fresh in let V := fresh in
    destruct (set_at_views t p f n E) as (t' & H1 & V); [cbn [a_height]; auto|];
    exists t'; split; [exact H1|]; destruct V as [V1 V2 V3 V4 V5 V6];
    split; [exact V1| | | |exact V5|exact V6]; intros x; [rewrite V2|rewrite V3|rewrite V4];
    cbn [a_parent a_left a_right]; try reflexivity; apply upd1_id;
    unfold pv, lv, rv; rewrite E; reflexivity
  end.

Lemma set_parent_views t p v : is_Some (a_nodes t !! p) -> exists t', set_parent t p v = Ok t' /\
  step_views t t' (upd1 (pv (a_nodes t)) p v) (lv (a_nodes t)) (rv (a_nodes t)).
Proof. intros E. unfold set_parent. set_tac E. Qed.
Lemma set_left_views t p v : is_Some (a_nodes t !! p) -> exists t', set_left t p v = Ok t' /\
  step_views t t' (pv (a_nodes t)) (upd1 (lv (a_nodes t)) p v) (rv (a_nodes t)).
Proof. intros E. unfold set_left. set_tac E. Qed.
Lemma set_right_views t p v : is_Some (a_nodes t !! p) -> exists t', set_right t p v = Ok t' /\
  step_views t t' (pv (a_nodes t)) (lv (a_nodes t)) (upd1 (rv (a_nodes t)) p v).
Proof. intros E. unfold set_right. set_tac E. Qed.
Lemma set_height_views t p v : is_u 32 v -> is_Some (a_nodes t !! p) -> exists t', set_height t p v = Ok t' /\
  step_views t t' (pv (a_nodes t)) (lv (a_nodes t)) (rv (a_nodes t)).
Proof. intros Hv E. unfold set_height. set_tac E. Qed.

(** [if (p != NULL) p->parent = v] *)
Definition upd_opt (f : Z -> option Z) (p v x : Z) : option Z :=
  if decide (x = p /\ p <> 0) then Some v else f x.
Lemma set_parent_opt_views t p v : (p <> 0 -> is_Some (a_nodes t !! p)) ->
  exists t', set_parent_opt t p v = Ok t' /\
  step_views t t' (upd_opt (pv (a_nodes t)) p v) (lv (a_nodes t)) (rv (a_nodes t)).
Proof.
  intros E. unfold set_parent_opt. destruct (Z.eqb_spec p 0) as [->|Hp]; cbn [negb].
  - exists t. split; [reflexivity|]. split; try reflexivity; [|apply kept_refl].
    intros x. unfold upd_opt. case_decide; [lia|reflexivity].
  - destruct (set_parent_views t p v (E Hp)) as (t' & E' & [V1 V2 V3 V4 V5 V6]). exists t'. split; [exact E'|].
    split; auto. intros x. rewrite V2. unfold upd1, upd_opt. repeat case_decide; tauto.
Qed.

Lemma node_height_Ok t x : (x <> 0 -> is_Some (a_nodes t !! x)) -> exists h, node_height t x = Ok h.
Proof.
  intros E. unfold node_height, node_at. destruct (Z.eqb_spec x 0) as [->|Hx]; cbn [negb]; [eauto|].
  destruct (E Hx) as [n ->]. cbn. eauto.
Qed.

(** Resetting a height leaves the shape alone. *)
Lemma reset_height_views t x a b c : links_at (a_nodes t) x a b c ->
  (b <> 0 -> is_Some (a_nodes t !! b)) -> (c <> 0 -> is_Some (a_nodes t !! c)) ->
  exists t', reset_node_height t x = Ok t' /\
    step_views t t' (pv (a_nodes t)) (lv (a_nodes t)) (rv (a_nodes t)).
Proof.
  intros (Hx & HP & HL & HR) Hb Hc. unfold reset_node_height.
  destruct (node_at_views t x a b c HP HL HR) as [h ->]. cbn [mbind outcome_bind a_left a_right].
  destruct (node_height_Ok t b Hb) as [hl ->]. destruct (node_height_Ok t c Hc) as [hr ->].
  cbn [mbind outcome_bind]. apply set_height_views; [apply wrap_bound; lia|]. eapply pv_Some; eauto.
Qed.
End Views.

(** ** Shapes under updates *)

Lemma root_in T : root T <> 0 -> root T ∈ inorder T.
Proof. destruct T; cbn; [congruence|]. intros _. apply elem_of_app. right. apply list_elem_of_here. Qed.
Lemma tree_dom m par T x : tree_at m par T -> x ∈ inorder T -> x <> 0 /\ is_Some (m !! x).
Proof.
  revert par. induction T as [|l IHl p r IHr]; intros par; cbn; [intros _ H; inversion H|].
  intros ((Hp & HP & _) & Hl & Hr) [H|[->|H]%elem_of_cons]%elem_of_app; eauto.
  split; [exact Hp|eapply pv_Some; eauto].
Qed.
Lemma root_dom m par T : tree_at m par T -> root T <> 0 -> is_Some (m !! root T).
Proof. intros H Hr. eapply tree_dom; eauto using root_in. Qed.

Definition same (m m' : gmap Z avlnode) (x : Z) : Prop :=
  pv m' x = pv m x /\ lv m' x = lv m x /\ rv m' x = rv m x.

Lemma links_same m m' x a b c : same m m' x -> links_at m x a b c -> links_at m' x a b c.
Proof. intros (E1 & E2 & E3) (H0 & H1 & H2 & H3). split; [exact H0|]. rewrite E1, E2, E3. auto. Qed.
Lemma tree_same m m' par T : (forall x, x ∈ inorder T -> same m m' x) -> tree_at m par T -> tree_at m' par T.
Proof.
  revert par. induction T as [|l IHl p r IHr]; intros par H; cbn; [auto|]. intros (Hp & Hl & Hr).
  split; [eapply links_same; [|exact Hp]; apply H; cbn; rewrite elem_of_app, elem_of_cons; auto|].
  split; [apply IHl|apply IHr]; auto; intros x Hx; apply H; cbn; rewrite elem_of_app, elem_of_cons; auto.
Qed.
Lemma tree_reparent m m' par par' T : NoDup (inorder T) ->
  (forall x, x ∈ inorder T -> lv m' x = lv m x /\ rv m' x = rv m x /\ (x <> root T -> pv m' x = pv m x)) ->
  (root T <> 0 -> pv m' (root T) = Some par') -> tree_at m par T -> tree_at m' par' T.
Proof.
  destruct T as [|l p r]; cbn; [auto|]. intros ND H Hp ((H0 & H1 & H2 & H3) & Hl & Hr).
  apply list.NoDup_app in ND as (_ & D & ND). apply list.NoDup_cons in ND as [Np _].
  destruct (H p ltac:(rewrite elem_of_app, elem_of_cons; auto)) as (E2 & E3 & _).
  split; [|split].
  - split; [exact H0|]. rewrite E2, E3. auto.
  - eapply tree_same; [|exact Hl]. intros x Hx.
    destruct (H x ltac:(rewrite elem_of_app; auto)) as (F1 & F2 & F3). split; [apply F3|auto].
    intros ->. apply (D p Hx), list_elem_of_here.
  - eapply tree_same; [|exact Hr]. intros x Hx.
    destruct (H x ltac:(rewrite elem_of_app, elem_of_cons; auto)) as (F1 & F2 & F3). split; [apply F3|auto].
    intros ->. auto.
Qed.
Lemma seg_same m m' c : forall x par, (forall y, y ∈ nodes c -> same m m' y) ->
  seg_at m c x par -> seg_at m' c x par.
Proof.
  induction c as [|f c IH]; intros x par H; cbn; [auto|].
  assert (Hf : forall y, y ∈ fnodes f -> same m m' y) by (intros y Hy; apply H; cbn; apply elem_of_app; auto).
  assert (Hc : forall y, y ∈ nodes c -> same m m' y) by (intros y Hy; apply H; cbn; apply elem_of_app; auto).
  destruct f as [p r|l p]; cbn [fnodes] in Hf; intros (H1 & H2 & H3); (split; [|split; [|apply IH; auto]]).
  1,3: eapply links_same; [|exact H1]; apply Hf, list_elem_of_here.
  all: eapply tree_same; [|exact H2]; intros y Hy; apply Hf, list_elem_of_further, Hy.
Qed.

Lemma sv_some {U} {UI : UserInv U} (t t' : avltree U) P L R x : step_views t t' P L R ->
  is_Some (a_nodes t !! x) -> is_Some (a_nodes t' !! x).
Proof. intros V. rewrite <- !elem_of_dom, (proj1 (sv_kept _ _ _ _ _ V)). auto. Qed.

(** Runs one field update, named by its lemma. *)
Ltac in_heap :=
  intros; repeat match goal with
  | V : step_views ?t ?t' _ _ _ |- is_Some (a_nodes ?t' !! _) => apply (sv_some _ _ _ _ _ _ V)
  end; eauto.
Ltac run lem :=
  let t' := fresh "t" in let V := fresh "V" in
  destruct (lem ltac:(in_heap)) as (t' & -> & V); cbn [mbind outcome_bind].
Ltac roots :=
  repeat match goal with
  | V : step_views _ ?t' _ _ _ |- context[a_root ?t'] => rewrite (sv_root _ _ _ _ _ V)
  end; reflexivity.
Ltac keeps :=
  repeat match goal with
  | V : step_views _ ?t' _ _ _ |- kept _ ?t' => refine (kept_trans _ _ _ _ (sv_kept _ _ _ _ _ V)); clear V
  end; apply kept_refl.
Ltac users :=
  repeat match goal with
  | V : step_views _ ?t' _ _ _ |- context[a_user ?t'] => rewrite (sv_user _ _ _ _ _ V)
  end; reflexivity.
(** Unfolds the views of the last heap down to those of the first one. *)
Ltac views :=
  repeat (match goal with
  | V : step_views _ ?t' _ _ _ |- context[pv (a_nodes ?t') ?x] => rewrite (sv_pv _ _ _ _ _ V x)
  | V : step_views _ ?t' _ _ _ |- context[lv (a_nodes ?t') ?x] => rewrite (sv_lv _ _ _ _ _ V x)
  | V : step_views _ ?t' _ _ _ |- context[rv (a_nodes ?t') ?x] => rewrite (sv_rv _ _ _ _ _ V x)
  end; unfold upd1, upd_opt).
(** Decides the comparisons of the views by the inequalities in the context. *)
Ltac not_both :=
  let E1 := fresh in let E2 := fresh in intros [E1 E2];
  repeat match goal with H : ?p <> 0 -> _, E : ?p <> 0 |- _ => specialize (H E) end;
  repeat match goal with H : _ /\ _ |- _ => destruct H end; congruence.
Ltac decide1 :=
  match goal with
  | |- context[decide (?x = ?x)] => rewrite (decide_True (P := x = x)) by reflexivity
  | |- context[decide (?x = ?x /\ ?q)] =>
      rewrite (decide_True (P := x = x /\ q)) by (split; [reflexivity|assumption])
  | |- context[decide (?p /\ ?q)] => rewrite (decide_False (P := p /\ q)) by not_both
  | |- context[decide (?x = ?y)] =>
      rewrite (decide_False (P := x = y)) by
        first [assumption|congruence|repeat match goal with H : _ /\ _ |- _ => destruct H end; congruence]
  end.
Ltac decides :=
  repeat decide1; repeat (case_decide; try (exfalso; first [congruence|destruct_and?; subst; tauto])).

(** What [NoDup] says of the pieces of a tree. *)
Lemma nodup_mid (xs ys : list Z) p : NoDup (xs ++ p :: ys) ->
  NoDup xs /\ NoDup ys /\ (p ∉ xs) /\ (p ∉ ys) /\ (forall x, x ∈ xs -> x ∉ ys).
Proof.
  intros ND. apply list.NoDup_app in ND as (N1 & D & N2). apply list.NoDup_cons in N2 as [Np N2].
  split; [exact N1|]. split; [exact N2|]. split; [intros H; apply (D p H), list_elem_of_here|].
  split; [exact Np|]. intros x Hx H. apply (D x Hx), list_elem_of_further, H.
Qed.

Section Rotations.
Context {U : Type} {UI : UserInv U}.
Implicit Types t : avltree U.

Lemma rotate_left_spec t par l n rl r rr : tree_at (a_nodes t) par (Br l n (Br rl r rr)) ->
  NoDup (inorder (Br l n (Br rl r rr))) ->
  exists t', rotate_left t n = Ok (t', r) /\ a_root t' = a_root t /\
    kept t t' /\ tree_at (a_nodes t') par (Br (Br l n rl) r rr) /\
    (forall x, x ∉ inorder (Br l n (Br rl r rr)) -> same (a_nodes t) (a_nodes t') x).
Proof.
  cbn [tree_at inorder root]. intros ((n0 & Hn1 & Hn2 & Hn3) & Hl & (r0 & Hr1 & Hr2 & Hr3) & Hrl & Hrr) ND.
  destruct (nodup_mid _ _ _ ND) as (NDl & NDr & Nnl & Nnr & Dl).
  destruct (nodup_mid _ _ _ NDr) as (NDrl & NDrr & Nrl & Nrr & Drl).
  rewrite elem_of_app, elem_of_cons in Nnr.
  unfold rotate_left. destruct (node_at_views t n _ _ _ Hn1 Hn2 Hn3) as [hn ->].
  cbn [mbind outcome_bind a_right a_parent].
  destruct (node_at_views t r _ _ _ Hr1 Hr2 Hr3) as [hr ->]. cbn [mbind outcome_bind a_left].
  pose proof (pv_Some _ _ _ Hn1) as Dn. pose proof (pv_Some _ _ _ Hr1) as Dr.
  pose proof (root_dom _ _ _ Hrl) as Drr.
  run (set_right_views t n (root rl)). run (set_parent_views t0 n r).
  run (set_parent_opt_views t1 (root rl) n). run (set_parent_views t2 r par).
  run (set_left_views t3 r n).
  exists t4. split; [reflexivity|].
  split; [roots|]. split; [keeps|].
  assert (Rl : root rl <> 0 -> root rl ∈ inorder rl) by apply root_in.
  assert (Rn : root rl <> 0 -> root rl <> n /\ root rl <> r).
  { intros H. specialize (Rl H). split; intros <-; tauto. }
  split; [|intros x Hx; rewrite !elem_of_app, !elem_of_cons, elem_of_app, elem_of_cons in Hx].
  - split; [|split; [split; [|split]|]].
    + split; [exact r0|]. views. decides. auto.
    + split; [exact n0|]. views. decides. auto.
    + eapply tree_same; [|exact Hl]. intros x Hx. pose proof (Dl x Hx) as Dx.
      rewrite elem_of_app, elem_of_cons in Dx. assert (x <> n) by (intros ->; tauto).
      unfold same. views. decides. auto.
    + eapply (tree_reparent _ _ r); [exact NDrl| | |exact Hrl].
      * intros x Hx. pose proof (Drl x Hx). assert (x <> n) by (intros ->; tauto).
        assert (x <> r) by (intros ->; tauto). split; [|split; [|intros ?]]; views; decides; auto.
      * intros H. specialize (Rn H). views. decides. reflexivity.
    + eapply tree_same; [|exact Hrr]. intros x Hx. assert (x <> n) by (intros ->; tauto).
      assert (x <> r) by (intros ->; tauto).
      assert (root rl <> 0 -> x <> root rl).
      { intros Hz ->. apply (Drl (root rl)); auto. }
      unfold same. views. decides. auto.
  - unfold same. assert (root rl <> 0 -> x <> root rl) by (intros Hz ->; tauto).
    views. decides. auto.
Qed.

Lemma rotate_right_spec t par ll l lr n r : tree_at (a_nodes t) par (Br (Br ll l lr) n r) ->
  NoDup (inorder (Br (Br ll l lr) n r)) ->
  exists t', rotate_right t n = Ok (t', l) /\ a_root t' = a_root t /\
    kept t t' /\ tree_at (a_nodes t') par (Br ll l (Br lr n r)) /\
    (forall x, x ∉ inorder (Br (Br ll l lr) n r) -> same (a_nodes t) (a_nodes t') x).
Proof.
  cbn [tree_at inorder root]. intros ((n0 & Hn1 & Hn2 & Hn3) & ((l0 & Hl1 & Hl2 & Hl3) & Hll & Hlr) & Hr) ND.
  destruct (nodup_mid _ _ _ ND) as (NDl & NDr & Nnl & Nnr & Dl).
  destruct (nodup_mid _ _ _ NDl) as (NDll & NDlr & Nll & Nlr & Dll).
  rewrite elem_of_app, elem_of_cons in Nnl.
  unfold rotate_right. destruct (node_at_views t n _ _ _ Hn1 Hn2 Hn3) as [hn ->].
  cbn [mbind outcome_bind a_left a_parent].
  destruct (node_at_views t l _ _ _ Hl1 Hl2 Hl3) as [hl ->]. cbn [mbind outcome_bind a_right].
  pose proof (pv_Some _ _ _ Hn1) as Dn. pose proof (pv_Some _ _ _ Hl1) as Dol.
  pose proof (root_dom _ _ _ Hlr) as Drr.
  run (set_left_views t n (root lr)). run (set_parent_views t0 n l).
  run (set_parent_opt_views t1 (root lr) n). run (set_parent_views t2 l par).
  run (set_right_views t3 l n).
  exists t4. split; [reflexivity|]. split; [roots|]. split; [keeps|].
  assert (Rl : root lr <> 0 -> root lr ∈ inorder lr) by apply root_in.
  assert (Rn : root lr <> 0 -> root lr <> n /\ root lr <> l).
  { intros H. specialize (Rl H). split; intros <-; tauto. }
  assert (Hle : forall x, x ∈ inorder ll ++ l :: inorder lr -> x ∉ inorder r) by exact Dl.
  split; [|intros x Hx; rewrite !elem_of_app, !elem_of_cons in Hx].
  - split; [|split; [|split; [|split]]].
    + split; [exact l0|]. views. decides. auto.
    + eapply tree_same; [|exact Hll]. intros x Hx. pose proof (Dll x Hx) as Dx.
      assert (x <> n) by (intros ->; tauto). assert (x <> l) by (intros ->; tauto).
      assert (root lr <> 0 -> x <> root lr) by (intros Hz ->; apply Dx; auto).
      unfold same. views. decides. auto.
    + split; [exact n0|]. views. decides. auto.
    + eapply (tree_reparent _ _ l); [exact NDlr| | |exact Hlr].
      * intros x Hx. assert (x <> n) by (intros ->; tauto).
        assert (x <> l) by (intros ->; tauto). split; [|split; [|intros ?]]; views; decides; auto.
      * intros H. specialize (Rn H). views. decides. reflexivity.
    + eapply tree_same; [|exact Hr]. intros x Hx. assert (x <> n) by (intros ->; tauto).
      assert (x <> l /\ (root lr <> 0 -> x <> root lr)) as [].
      { split; [intros ->|intros Hz ->]; eapply Hle; eauto; rewrite elem_of_app, elem_of_cons; auto. }
      unfold same. views. decides. auto.
  - unfold same. assert (root lr <> 0 -> x <> root lr) by (intros Hz ->; tauto).
    views. decides. auto.
Qed.
End Rotations.

(** ** A subtree in its context *)

Definition flink (c : list frame) : alink :=
  match c with [] => LRoot | FL p _ :: _ => LLeft p | FR _ p :: _ => LRight p end.

Lemma nodup_plug c T : NoDup (inorder (plug c T)) ->
  NoDup (inorder T) /\ NoDup (nodes c) /\ (forall x, x ∈ inorder T -> x ∉ nodes c).
Proof.
  rewrite inorder_plug.
  assert (Q : before c ++ inorder T ++ after c ≡ₚ inorder T ++ nodes c)
    by (rewrite <- nodes_perm; solve_Permutation).
  rewrite Q. intros ND. apply list.NoDup_app in ND as (N1 & D & N2). auto.
Qed.
Lemma inorder_plug_eq c T T' : inorder T' = inorder T -> inorder (plug c T') = inorder (plug c T).
Proof. intros H. rewrite !inorder_plug, H. reflexivity. Qed.
Lemma fptr_in f c : fptr f ∈ nodes (f :: c).
Proof. cbn. apply elem_of_app. left. destruct f; apply list_elem_of_here. Qed.

Section Contexts.
Context {U : Type} {UI : UserInv U}.
Implicit Types t : avltree U.

Lemma rep_plug t c T : rep t (plug c T) <->
  a_root t = top c (root T) /\ tree_at (a_nodes t) (hole_par c 0) T /\
  seg_at (a_nodes t) c (root T) 0 /\ NoDup (inorder (plug c T)) /\ typed (a_nodes t).
Proof. unfold rep. rewrite root_plug, tree_plug. tauto. Qed.

(** The field that points to the hole. *)
Lemma get_node_link_spec t c T : rep t (plug c T) -> root T <> 0 ->
  get_node_link t (root T) = Ok (flink c).
Proof.
  rewrite rep_plug. intros (Hr & HT & HS & ND & _) H0. destruct (nodup_plug _ _ ND) as (_ & _ & D).
  destruct T as [|l n r]; [cbn in H0; congruence|]. cbn [root tree_at] in *.
  destruct HT as ((n0 & H1 & H2 & H3) & _). unfold get_node_link.
  destruct (node_at_views t n _ _ _ H1 H2 H3) as [h ->]. cbn [mbind outcome_bind a_parent].
  destruct c as [|f c]; cbn [hole_par flink]; [reflexivity|].
  assert (Dn : n ∉ nodes (f :: c)) by (apply D; cbn; rewrite elem_of_app, elem_of_cons; auto).
  destruct f as [p s|s p]; cbn [seg_at fptr] in *; destruct HS as ((p0 & P1 & P2 & P3) & HS & _);
    destruct (Z.eqb_spec p 0) as [?|_]; try congruence; cbn [negb];
    destruct (node_at_views t p _ _ _ P1 P2 P3) as [h' ->]; cbn [mbind outcome_bind a_left].
  - rewrite Z.eqb_refl. reflexivity.
  - destruct (Z.eqb_spec n (root s)) as [->|_]; [|reflexivity].
    exfalso. apply Dn. cbn. apply elem_of_cons. right. apply elem_of_app. left. apply root_in, n0.
Qed.

Lemma write_link_spec t c x v : seg_at (a_nodes t) c x 0 -> a_root t = top c x -> NoDup (nodes c) ->
  exists t', write_link t (flink c) v = Ok t' /\ a_root t' = top c v /\
    seg_at (a_nodes t') c v 0 /\ kept t t' /\ a_user t' = a_user t /\
    (forall y, y ∉ nodes c -> same (a_nodes t) (a_nodes t') y).
Proof.
  intros HS Hr ND. destruct c as [|f c]; cbn [flink write_link].
  { eexists. split; [reflexivity|]. cbn. unfold same. split; [reflexivity|]. split; [exact I|]. split; [split; auto|]. split; [reflexivity|auto]. }
  cbn [nodes mbind list_bind] in ND. change (c ≫= fnodes) with (nodes c) in ND.
  apply list.NoDup_app in ND as (Nf & Df & _).
  destruct f as [p s|s p]; cbn [seg_at top foldl fptr fnodes flink write_link] in *;
    apply list.NoDup_cons in Nf as [Np _];
    pose proof (Df p ltac:(apply list_elem_of_here)) as Npc; destruct HS as ((p0 & P1 & P2 & P3) & HT & HS);
    pose proof (pv_Some _ _ _ P1) as Dp.
  - run (set_left_views t p v). exists t0. split; [reflexivity|].
    split; [rewrite (sv_root _ _ _ _ _ V); exact Hr|].
    assert (S : forall y, y <> p -> same (a_nodes t) (a_nodes t0) y) by (intros y Hy; unfold same; views; decides; auto).
    split; [|split; [keeps|split; [users|]]].
    + split; [|split].
      * split; [exact p0|]. views. decides. auto.
      * eapply tree_same; [|exact HT]. intros y Hy. apply S. intros ->. auto.
      * eapply seg_same; [|exact HS]. intros y Hy. apply S. intros ->. auto.
    + intros y Hy. apply S. intros ->. apply Hy, (fptr_in (FL p s)).
  - run (set_right_views t p v). exists t0. split; [reflexivity|].
    split; [rewrite (sv_root _ _ _ _ _ V); exact Hr|].
    assert (S : forall y, y <> p -> same (a_nodes t) (a_nodes t0) y) by (intros y Hy; unfold same; views; decides; auto).
    split; [|split; [keeps|split; [users|]]].
    + split; [|split].
      * split; [exact p0|]. views. decides. auto.
      * eapply tree_same; [|exact HT]. intros y Hy. apply S. intros ->. auto.
      * eapply seg_same; [|exact HS]. intros y Hy. apply S. intros ->. auto.
    + intros y Hy. apply S. intros ->. apply Hy, (fptr_in (FR s p)).
Qed.

(** Replacing the subtree at the hole by one with the same nodes, in two steps:
    the subtree first, then the pointer to it. *)
Lemma replace_hole t c T T' t1 : rep t (plug c T) -> a_root t1 = a_root t ->
  kept t t1 -> tree_at (a_nodes t1) (hole_par c 0) T' ->
  (forall x, x ∉ inorder T -> same (a_nodes t) (a_nodes t1) x) -> inorder T' ≡ₚ inorder T ->
  exists t', write_link t1 (flink c) (root T') = Ok t' /\ rep t' (plug c T') /\
    kept t t'.
Proof.
  rewrite rep_plug. intros (Hr & HT & HS & ND & Ty) Er Ed HT' S EI.
  destruct (nodup_plug _ _ ND) as (N1 & N2 & D).
  destruct (write_link_spec t1 c (root T) (root T')) as (t' & E & R' & S' & Ed' & _ & F'); auto.
  { eapply seg_same; [|exact HS]. intros y Hy. apply S. intros H. apply (D y H Hy). }
  { congruence. }
  exists t'. split; [exact E|]. pose proof (kept_trans _ _ _ Ed Ed') as K.
  split; [|exact K]. rewrite rep_plug.
  split; [exact R'|]. split; [|split; [exact S'|]].
  - eapply tree_same; [|exact HT']. intros y Hy. apply F'. rewrite EI in Hy. apply D, Hy.
  - rewrite inorder_plug in *. split; [rewrite EI; exact ND|]. apply K, Ty.
Qed.

Lemma rep_views t t' T : step_views t t' (pv (a_nodes t)) (lv (a_nodes t)) (rv (a_nodes t)) ->
  rep t T -> rep t' T.
Proof.
  intros V (H1 & H2 & H3 & Ty). split; [rewrite (sv_root _ _ _ _ _ V); exact H1|].
  split; [|split; [exact H3|apply (sv_kept _ _ _ _ _ V), Ty]].
  eapply tree_same; [|exact H2]. intros x _. unfold same. views. auto.
Qed.
Lemma rep_notify cb t x T : rep t T -> rep (notify cb t x) T.
Proof. destruct cb; auto. Qed.

(** A height reset anywhere in the tree. *)
Lemma reset_rep t c l n r : rep t (plug c (Br l n r)) ->
  exists t', reset_node_height t n = Ok t' /\ rep t' (plug c (Br l n r)) /\
    kept t t'.
Proof.
  intros R. pose proof R as R'. rewrite rep_plug in R'. destruct R' as (_ & (Hn & Hl & Hr) & _).
  destruct (reset_height_views t n _ _ _ Hn) as (t' & E & V); [apply (root_dom _ _ _ Hl)|apply (root_dom _ _ _ Hr)|].
  exists t'. split; [exact E|]. split; [eapply rep_views; eauto|]. keeps.
Qed.
End Contexts.

(** ** Rebalancing keeps the in-order sequence, whatever the heights are *)

Section Fixup.
Context {U : Type} {UI : UserInv U} (update : option (avltree U -> Z -> U)).
Implicit Types t : avltree U.

(** A rotation in place: [get_node_link], the rotation, [*link = new_top]. *)
Lemma rotate_left_rep t c l n rl r rr : rep t (plug c (Br l n (Br rl r rr))) ->
  exists t1 t2, get_node_link t n = Ok (flink c) /\ rotate_left t n = Ok (t1, r) /\
    write_link t1 (flink c) r = Ok t2 /\ rep t2 (plug c (Br (Br l n rl) r rr)) /\
    kept t t2.
Proof.
  intros R. pose proof R as R'. rewrite rep_plug in R'. destruct R' as (_ & HT & _ & ND & _).
  destruct (nodup_plug _ _ ND) as (NT & _ & _).
  destruct (rotate_left_spec t _ _ _ _ _ _ HT NT) as (t1 & E & E1 & E2 & HT1 & S).
  destruct (replace_hole t c _ _ t1 R E1 E2 HT1 S) as (t2 & W & R2 & E3).
  { cbn. rewrite <- app_assoc. reflexivity. }
  exists t1, t2. split; [apply (get_node_link_spec t c _ R); destruct HT as ((? & _) & _); assumption|].
  auto.
Qed.
Lemma rotate_right_rep t c ll l lr n r : rep t (plug c (Br (Br ll l lr) n r)) ->
  exists t1 t2, get_node_link t n = Ok (flink c) /\ rotate_right t n = Ok (t1, l) /\
    write_link t1 (flink c) l = Ok t2 /\ rep t2 (plug c (Br ll l (Br lr n r))) /\
    kept t t2.
Proof.
  intros R. pose proof R as R'. rewrite rep_plug in R'. destruct R' as (_ & HT & _ & ND & _).
  destruct (nodup_plug _ _ ND) as (NT & _ & _).
  destruct (rotate_right_spec t _ _ _ _ _ _ HT NT) as (t1 & E & E1 & E2 & HT1 & S).
  destruct (replace_hole t c _ _ t1 R E1 E2 HT1 S) as (t2 & W & R2 & E3).
  { cbn. rewrite <- app_assoc. reflexivity. }
  exists t1, t2. split; [apply (get_node_link_spec t c _ R); destruct HT as ((? & _) & _); assumption|].
  auto.
Qed.

(** Reading a node of the tree. *)
Lemma rep_node t c l n r : rep t (plug c (Br l n r)) -> exists h,
  n <> 0 /\ node_at t n = Ok (AvlNode (hole_par c 0) (root l) (root r) h).
Proof.
  rewrite rep_plug. intros (_ & ((n0 & H1 & H2 & H3) & _) & _).
  destruct (node_at_views t n _ _ _ H1 H2 H3) as [h E]. eauto.
Qed.
Lemma rep_height t c T : rep t (plug c T) -> exists h, node_height t (root T) = Ok h /\ 0 <= h /\
  (h <> 0 -> exists l n r, T = Br l n r).
Proof.
  intros R. destruct T as [|l n r].
  - exists 0. split; [reflexivity|]. split; [lia|congruence].
  - destruct (rep_node t c l n r R) as (h & n0 & E). exists h. split; [|split; [|eauto]].
    + unfold node_height. cbn [root]. destruct (Z.eqb_spec n 0); [congruence|]. cbn [negb]. rewrite E. reflexivity.
    + destruct R as (_ & _ & _ & Ty). unfold node_at in E.
      destruct (a_nodes t !! n) as [nd|] eqn:En; [|discriminate]. injection E as ->. apply (Ty _ _ En).
Qed.

Lemma kept_notify cb t T x : respects cb (inorder T) -> rep t T -> x ∈ inorder T -> kept t (notify cb t x).
Proof. intros H R Hx. destruct cb; (split; [reflexivity|]; split; [auto|]); [|auto]. intros Hu. apply (H t T x); auto. Qed.
Lemma plug_root_in c l n r : n ∈ inorder (plug c (Br l n r)).
Proof. rewrite inorder_plug. cbn. rewrite !elem_of_app, elem_of_cons. auto. Qed.

(** What a step at the hole leaves there. *)
Definition same_order (t : avltree U) (c : list frame) (T : tree) (o : outcome (avltree U * Z)) : Prop :=
  exists t' l' n' r', o = Ok (t', n') /\ rep t' (plug c (Br l' n' r')) /\
    inorder (Br l' n' r') = inorder T /\ kept t t'.

(** The last rotation of both branches. *)
Lemma finish_left t c l n a x b : rep t (plug c (Br l n (Br a x b))) -> respects update (inorder (plug c (Br l n (Br a x b)))) ->
  same_order t c (Br l n (Br a x b))
    (link ← get_node_link t n; '(t, top) ← rotate_left t n; t ← write_link t link top;
     t ← reset_node_height t n; Ok (avlnode_update update t n, x)).
Proof.
  intros R Hu. destruct (rotate_left_rep t c _ _ _ _ _ R) as (t1 & t2 & -> & -> & W & R2 & K2).
  cbn [mbind outcome_bind]. rewrite W. cbn [mbind outcome_bind].
  destruct (reset_rep t2 (FL x b :: c) l n a R2) as (t3 & -> & R3 & K3). cbn [mbind outcome_bind].
  assert (EI : inorder (Br (Br l n a) x b) = inorder (Br l n (Br a x b))) by (cbn; rewrite <- app_assoc; reflexivity).
  eexists _, (Br l n a), x, b. split; [reflexivity|]. split; [apply rep_notify, R3|]. split; [exact EI|].
  refine (kept_trans _ _ _ K2 (kept_trans _ _ _ K3 (kept_notify _ _ _ _ _ R3 (plug_root_in (FL x b :: c) _ _ _)))).
  change (plug (FL x b :: c) (Br l n a)) with (plug c (Br (Br l n a) x b)). rewrite (inorder_plug_eq c _ _ EI). exact Hu.
Qed.
Lemma finish_right t c a x b n r : rep t (plug c (Br (Br a x b) n r)) -> respects update (inorder (plug c (Br (Br a x b) n r))) ->
  same_order t c (Br (Br a x b) n r)
    (link ← get_node_link t n; '(t, top) ← rotate_right t n; t ← write_link t link top;
     t ← reset_node_height t n; Ok (avlnode_update update t n, x)).
Proof.
  intros R Hu. destruct (rotate_right_rep t c _ _ _ _ _ R) as (t1 & t2 & -> & -> & W & R2 & K2).
  cbn [mbind outcome_bind]. rewrite W. cbn [mbind outcome_bind].
  destruct (reset_rep t2 (FR a x :: c) b n r R2) as (t3 & -> & R3 & K3). cbn [mbind outcome_bind].
  assert (EI : inorder (Br a x (Br b n r)) = inorder (Br (Br a x b) n r)) by (cbn; rewrite <- app_assoc; reflexivity).
  eexists _, a, x, (Br b n r). split; [reflexivity|]. split; [apply rep_notify, R3|]. split; [exact EI|].
  refine (kept_trans _ _ _ K2 (kept_trans _ _ _ K3 (kept_notify _ _ _ _ _ R3 (plug_root_in (FR a x :: c) _ _ _)))).
  change (plug (FR a x :: c) (Br b n r)) with (plug c (Br a x (Br b n r))). rewrite (inorder_plug_eq c _ _ EI). exact Hu.
Qed.

Lemma same_order_trans t t1 c T T1 o : kept t t1 -> inorder T1 = inorder T ->
  same_order t1 c T1 o -> same_order t c T o.
Proof.
  intros K E (t' & l & n & r & Eo & R & EI & K'). exists t', l, n, r. split; [exact Eo|].
  split; [exact R|]. split; [congruence|]. eapply kept_trans; eauto.
Qed.

Lemma fixup_right_rep t c l n rl r rr : rep t (plug c (Br l n (Br rl r rr))) -> respects update (inorder (plug c (Br l n (Br rl r rr)))) ->
  same_order t c (Br l n (Br rl r rr)) (fixup_right_heavy update t n).
Proof.
  intros R Hu. unfold fixup_right_heavy. destruct (rep_node _ _ _ _ _ R) as (h & n0 & ->).
  cbn [mbind outcome_bind a_right root].
  destruct (rep_node t (FR l n :: c) _ _ _ R) as (h' & r0 & ->). cbn [mbind outcome_bind a_left a_right].
  destruct (rep_height t (FL r rr :: FR l n :: c) rl R) as (lh & -> & _ & Hl).
  destruct (rep_height t (FR rl r :: FR l n :: c) rr R) as (rh & -> & Hr0 & _).
  cbn [mbind outcome_bind]. destruct (Z.ltb_spec rh lh) as [Hd|_]; [|apply finish_left; auto].
  destruct (Hl ltac:(lia)) as (a & x & b & ->).
  destruct (rotate_right_rep t (FR l n :: c) a x b r rr R) as (t1 & t2 & _ & -> & W & R2 & K2).
  cbn [mbind outcome_bind]. cbn [flink write_link] in W. rewrite W. cbn [mbind outcome_bind].
  destruct (reset_rep t2 (FR l n :: c) a x (Br b r rr) R2) as (t3 & -> & R3 & K3). cbn [mbind outcome_bind].
  assert (EI : inorder (Br l n (Br a x (Br b r rr))) = inorder (Br l n (Br (Br a x b) r rr))) by (cbn; rewrite <- !app_assoc; reflexivity).
  assert (EP : inorder (plug c (Br l n (Br a x (Br b r rr)))) = inorder (plug c (Br l n (Br (Br a x b) r rr)))) by (apply inorder_plug_eq, EI).
  rewrite <- EP in Hu. eapply same_order_trans; [|exact EI|apply finish_left; [apply rep_notify, R3|exact Hu]].
  exact (kept_trans _ _ _ K2 (kept_trans _ _ _ K3 (kept_notify _ _ _ _ Hu R3 (plug_root_in (FR l n :: c) _ _ _)))).
Qed.
Lemma fixup_left_rep t c ll l lr n r : rep t (plug c (Br (Br ll l lr) n r)) -> respects update (inorder (plug c (Br (Br ll l lr) n r))) ->
  same_order t c (Br (Br ll l lr) n r) (fixup_left_heavy update t n).
Proof.
  intros R Hu. unfold fixup_left_heavy. destruct (rep_node _ _ _ _ _ R) as (h & n0 & ->).
  cbn [mbind outcome_bind a_left root].
  destruct (rep_node t (FL n r :: c) _ _ _ R) as (h' & r0 & ->). cbn [mbind outcome_bind a_left a_right].
  destruct (rep_height t (FL l lr :: FL n r :: c) ll R) as (lh & -> & Hl0 & _).
  destruct (rep_height t (FR ll l :: FL n r :: c) lr R) as (rh & -> & _ & Hr).
  cbn [mbind outcome_bind]. destruct (Z.ltb_spec lh rh) as [Hd|_]; [|apply finish_right; auto].
  destruct (Hr ltac:(lia)) as (a & x & b & ->).
  destruct (rotate_left_rep t (FL n r :: c) ll l a x b R) as (t1 & t2 & _ & -> & W & R2 & K2).
  cbn [mbind outcome_bind]. cbn [flink write_link] in W. rewrite W. cbn [mbind outcome_bind].
  destruct (reset_rep t2 (FL n r :: c) (Br ll l a) x b R2) as (t3 & -> & R3 & K3). cbn [mbind outcome_bind].
  assert (EI : inorder (Br (Br (Br ll l a) x b) n r) = inorder (Br (Br ll l (Br a x b)) n r))
    by (cbn; rewrite <- !app_assoc; cbn; rewrite <- !app_assoc; reflexivity).
  assert (EP : inorder (plug c (Br (Br (Br ll l a) x b) n r)) = inorder (plug c (Br (Br ll l (Br a x b)) n r))) by (apply inorder_plug_eq, EI).
  rewrite <- EP in Hu. eapply same_order_trans; [|exact EI|apply finish_right; [exact R3|exact Hu]].
  exact (kept_trans _ _ _ K2 K3).
Qed.

Lemma fixup_step_rep t c l n r : rep t (plug c (Br l n r)) -> respects update (inorder (plug c (Br l n r))) ->
  same_order t c (Br l n r) (fixup_step update t n).
Proof.
  intros R Hu. unfold fixup_step, node_balance. destruct (rep_node _ _ _ _ _ R) as (h & n0 & ->).
  cbn [mbind outcome_bind a_left a_right].
  destruct (rep_height t (FR l n :: c) r R) as (rh & -> & Hr0 & Hr).
  destruct (rep_height t (FL n r :: c) l R) as (lh & -> & Hl0 & Hl).
  cbn [mbind outcome_bind]. destruct (Z.ltb_spec 1 (rh - lh)) as [Hd|_].
  { destruct (Hr ltac:(lia)) as (a & x & b & ->). apply fixup_right_rep; auto. }
  destruct (Z.ltb_spec (rh - lh) (-1)) as [Hd|_].
  { destruct (Hl ltac:(lia)) as (a & x & b & ->). apply fixup_left_rep; auto. }
  destruct (reset_rep t c l n r R) as (t' & -> & R' & K). cbn [mbind outcome_bind].
  exists t', l, n, r. auto.
Qed.

(** The climb ends at the root: the tree has the same in-order sequence. *)
Lemma fixup_rep c : forall fuel t l n r, rep t (plug c (Br l n r)) -> respects update (inorder (plug c (Br l n r))) -> (length c < fuel)%nat ->
  exists t' T', avltree_fixup update fuel t n = Ok t' /\ rep t' T' /\
    inorder T' = inorder (plug c (Br l n r)) /\ kept t t'.
Proof.
  induction c as [|f c IH]; intros fuel t l n r R Hu Hf; (destruct fuel as [|fuel]; [cbn in Hf; lia|]);
    cbn [avltree_fixup]; destruct (rep_node _ _ _ _ _ R) as (h & n0 & _);
    (destruct (Z.eqb_spec n 0) as [?|_]; [congruence|]);
    destruct (fixup_step_rep _ _ _ _ _ R Hu) as (t1 & l1 & n1 & r1 & -> & R1 & EI & K1);
    cbn [mbind outcome_bind]; 
    match type of R1 with rep _ (plug ?d _) => pose proof (inorder_plug_eq d _ _ EI) as EP end; rewrite <- EP in Hu;
    pose proof (kept_trans _ _ _ K1 (kept_notify update t1 _ n1 Hu R1 (plug_root_in _ _ _ _))) as K2;
    apply (rep_notify update t1 n1) in R1;
    change (avlnode_update update t1 n1) with (notify update t1 n1);
    destruct (rep_node _ _ _ _ _ R1) as (h1 & _ & ->); cbn [mbind outcome_bind a_parent hole_par].
  - exists (notify update t1 n1), (Br l1 n1 r1). split; [destruct fuel; reflexivity|]. auto.
  - assert (exists l2 r2, plug (f :: c) (Br l1 n1 r1) = plug c (Br l2 (fptr f) r2)) as (l2 & r2 & Ef)
      by (destruct f; cbn; eauto).
    rewrite Ef in R1, EP, Hu. destruct (IH fuel _ _ _ _ R1 Hu ltac:(cbn in Hf; lia)) as (t' & T' & -> & R' & E' & K').
    exists t', T'. split; [reflexivity|]. split; [exact R'|]. split; [congruence|].
    eapply kept_trans; eauto.
Qed.
End Fixup.

(** ** Insertion *)

Section Insert.
Context {U : Type} {UI : UserInv U} (update added_node : option (avltree U -> Z -> U)).
Implicit Types t : avltree U.

Lemma length_nodes c : (length c <= length (nodes c))%nat.
Proof.
  induction c as [|f c IH]; cbn; [lia|]. rewrite length_app. change (c ≫= fnodes) with (nodes c).
  destruct f; cbn; lia.
Qed.
Lemma depth_inorder T : (depth T <= length (inorder T))%nat.
Proof. induction T as [|l IHl p r IHr]; cbn; [lia|]. rewrite length_app. cbn. lia. Qed.

Lemma path_dom m c x par y : seg_at m c x par -> y ∈ nodes c -> is_Some (m !! y).
Proof.
  revert x. induction c as [|f c IH]; intros x; [intros _ H; inversion H|].
  cbn [seg_at nodes mbind list_bind]. change (c ≫= fnodes) with (nodes c). intros HS Hy.
  apply elem_of_app in Hy as [Hy|Hy]; destruct f; destruct HS as ((_ & P & _) & HT & HS); eauto;
    cbn in Hy; apply elem_of_cons in Hy as [->|Hy]; eauto using pv_Some; eapply tree_dom; eauto.
Qed.

(** The fuel of the loops is enough: a path has at most as many nodes as the heap. *)
Lemma depth_fuel_enough t c T : rep t (plug c T) -> (length c + depth T < depth_fuel t)%nat.
Proof.
  rewrite rep_plug. intros (_ & HT & HS & ND & _). destruct (nodup_plug _ _ ND) as (N1 & N2 & D).
  assert (NA : NoDup (inorder T ++ nodes c)) by (apply list.NoDup_app; auto).
  assert (list_to_set (inorder T ++ nodes c) ⊆ dom (a_nodes t)) as H.
  { intros x Hx. apply elem_of_dom. rewrite elem_of_list_to_set, elem_of_app in Hx.
    destruct Hx as [Hx|Hx]; [eapply tree_dom; eauto|eapply path_dom; eauto]. }
  apply subseteq_size in H. rewrite size_list_to_set, size_dom, length_app in H by exact NA.
  pose proof (length_nodes c). pose proof (depth_inorder T). unfold depth_fuel. lia.
Qed.

Lemma depth_fuel_kept t t' : kept t t' -> depth_fuel t' = depth_fuel t.
Proof. intros (D & _). unfold depth_fuel. rewrite <- !size_dom, D. reflexivity. Qed.

(** Rebalancing from the parent of the hole. *)
Lemma fixup_parent t c T : rep t (plug c T) -> respects update (inorder (plug c T)) ->
  exists t' T', avltree_fixup update (depth_fuel t) t (hole_par c 0) = Ok t' /\ rep t' T' /\
    inorder T' = inorder (plug c T) /\ kept t t'.
Proof.
  intros R Hu. destruct c as [|f c].
  - exists t, T. split; [reflexivity|]. split; [exact R|]. split; [reflexivity|apply kept_refl].
  - pose proof (depth_fuel_enough t (f :: c) T R) as Hf. cbn [hole_par].
    assert (exists l r, plug (f :: c) T = plug c (Br l (fptr f) r)) as (l & r & E) by (destruct f; cbn; eauto).
    rewrite E in *. apply fixup_rep; [exact R|exact Hu|]. cbn in Hf. lia.
Qed.

(** The callback for the new leaf establishes the invariant. *)
Definition welcomes (cb : option (avltree U -> Z -> U)) (t : avltree U) (c : list frame) (node : Z) : Prop :=
  forall t1, rep t1 (plug c (Br Leaf node Leaf)) -> a_user t1 = a_user t -> uinv (a_user (notify cb t1 node)).

Lemma insert_at_rep t c node added : rep t (plug c Leaf) -> node <> 0 -> is_Some (a_nodes t !! node) ->
  node ∉ inorder (plug c Leaf) -> respects update (inorder (plug c (Br Leaf node Leaf))) -> welcomes added t c node ->
  exists t' T', insert_at_loc update t node (hole_par c 0) (flink c) added = Ok t' /\ rep t' T' /\
    inorder T' = inorder (plug c (Br Leaf node Leaf)) /\ kept t t' /\ uinv (a_user t').
Proof.
  intros R n0 Dn Nn Hu Hadd. pose proof R as R'. rewrite rep_plug in R'. destruct R' as (Hr & _ & HS & ND & Ty).
  rewrite inorder_plug in ND, Nn. cbn in ND, Nn. pose proof (nodes_perm c) as P.
  assert (Nc : node ∉ nodes c) by (rewrite <- P; exact Nn).
  unfold insert_at_loc.
  destruct (set_height_views t node 1 ltac:(unfold is_u; lia) Dn) as (t0 & -> & V). cbn [mbind outcome_bind].
  run (set_left_views t0 node 0). run (set_right_views t1 node 0).
  run (set_parent_views t2 node (hole_par c 0)).
  assert (S : forall y, y <> node -> same (a_nodes t) (a_nodes t3) y)
    by (intros y Hy; unfold same; views; decides; auto).
  destruct (write_link_spec t3 c 0 node) as (t4 & -> & Hr4 & HS4 & K4 & U4 & S4).
  { eapply seg_same; [|exact HS]. intros y Hy. apply S. intros ->. auto. }
  { change (top c 0) with (top c (root Leaf)). rewrite <- Hr. roots. }
  { rewrite <- P. exact ND. }
  cbn [mbind outcome_bind].
  assert (K : kept t t4) by (refine (kept_trans _ _ _ _ K4); keeps).
  assert (R4 : rep t4 (plug c (Br Leaf node Leaf))).
  { rewrite rep_plug. split; [exact Hr4|]. split; [|split; [exact HS4|split; [|apply K, Ty]]].
    - split; [|split; exact I]. eapply links_same; [apply S4, Nc|].
      split; [exact n0|]. views. decides. auto.
    - rewrite inorder_plug. cbn. rewrite <- Permutation_middle. apply list.NoDup_cons. auto. }
  assert (Eu : a_user t4 = a_user t) by (rewrite U4; users). pose proof (Hadd t4 R4 Eu) as Ha.
  pose proof (rep_notify added t4 node _ R4) as R5. pose proof (rep_notify update _ node _ R5) as R6.
  pose proof (kept_notify update _ _ node Hu R5 (plug_root_in _ _ _ _)) as K6.
  unfold avlnode_update. destruct (fixup_parent _ c _ R6 Hu) as (t' & T' & -> & R' & EI & K').
  exists t', T'. split; [reflexivity|]. split; [exact R'|]. split; [exact EI|].
  assert (K7 : kept (notify added t4 node) t') by (exact (kept_trans _ _ _ K6 K')). pose proof (proj2 (proj2 K7) Ha) as Hu'.
  split; [|exact Hu']. destruct K as (D1 & T1 & _). destruct K7 as (D2 & T2 & _).
  split; [destruct added; cbn in D2; congruence|]. split; [|intros _; exact Hu'].
  intros Ht. apply T2. destruct added; apply T1, Ht.
Qed.

(** Where the descent puts the node: what comes before it and what comes after. *)
Fixpoint place (cmp : Z -> Z -> Z) (node : Z) (T : tree) : option (list Z * list Z) :=
  match T with
  | Leaf => Some ([], [])
  | Br l p r =>
      if cmp node p =? 0 then None
      else if cmp node p <? 0 then
        '(xs, ys) ← place cmp node l; Some (xs, ys ++ p :: inorder r)
      else '(xs, ys) ← place cmp node r; Some (inorder l ++ p :: xs, ys)
  end.

Lemma place_inorder cmp node T xs ys : place cmp node T = Some (xs, ys) -> inorder T = xs ++ ys.
Proof.
  revert xs ys. induction T as [|l IHl p r IHr]; intros xs ys; cbn; [intros [= <- <-]; reflexivity|].
  destruct (cmp node p =? 0); [discriminate|]. destruct (cmp node p <? 0).
  - destruct (place cmp node l) as [[a b]|]; cbn; [|discriminate]. intros [= <- <-].
    rewrite (IHl a b eq_refl), <- app_assoc. reflexivity.
  - destruct (place cmp node r) as [[a b]|]; cbn; [|discriminate]. intros [= <- <-].
    rewrite (IHr a b eq_refl), <- app_assoc. reflexivity.
Qed.

Lemma insert_loop_rep cmp node : forall T fuel t c, rep t (plug c T) -> node <> 0 ->
  is_Some (a_nodes t !! node) -> node ∉ inorder (plug c T) -> (depth T <= fuel)%nat ->
  match place cmp node T with
  | None => insert_loop update added_node fuel cmp t node (hole_par c 0) (root T) (flink c) = Ok (false, t)
  | Some (xs, ys) =>
      respects update (before c ++ (xs ++ node :: ys) ++ after c) ->
      (forall d, plug d Leaf = plug c T -> before d = before c ++ xs -> after d = ys ++ after c -> welcomes added_node t d node) ->
      exists t' T',
        insert_loop update added_node fuel cmp t node (hole_par c 0) (root T) (flink c) = Ok (true, t') /\
        rep t' T' /\ kept t t' /\ uinv (a_user t') /\ inorder T' = before c ++ (xs ++ node :: ys) ++ after c
  end.
Proof.
  induction T as [|l IHl p r IHr]; intros fuel t c R n0 Dn Nn Hf; cbn [place].
  - intros Hu Hadd. destruct (insert_at_rep t c node added_node R n0 Dn Nn) as (t' & T' & E & R' & EI & K & U').
    { rewrite inorder_plug. exact Hu. } { apply Hadd; rewrite ?app_nil_r; reflexivity. }
    exists t', T'. split; [destruct fuel; cbn; rewrite E; reflexivity|].
    split; [exact R'|]. split; [exact K|]. split; [exact U'|]. rewrite EI, inorder_plug. reflexivity.
  - destruct (rep_node _ _ _ _ _ R) as (h & p0 & Ep).
    destruct fuel as [|fuel]; [cbn in Hf; lia|]. cbn [insert_loop root].
    destruct (Z.eqb_spec p 0) as [?|_]; [congruence|].
    destruct (cmp node p =? 0); [reflexivity|]. rewrite Ep. cbn [mbind outcome_bind a_left a_right].
    cbn in Hf. destruct (cmp node p <? 0).
    + specialize (IHl fuel t (FL p r :: c) R n0 Dn Nn ltac:(lia)). cbn [hole_par fptr flink] in IHl.
      destruct (place cmp node l) as [[xs ys]|]; cbn [mbind option_bind]; [|exact IHl]. cbn [before after] in IHl.
      intros Hu Hadd. assert (EX : before c ++ (xs ++ node :: ys) ++ p :: inorder r ++ after c = before c ++ (xs ++ node :: ys ++ p :: inorder r) ++ after c)
        by (repeat (rewrite <- ?app_assoc; cbn); reflexivity). rewrite <- EX in *. apply IHl; [exact Hu|].
      intros d Ed Eb Ea. apply Hadd; [exact Ed|exact Eb|]. rewrite Ea. repeat (rewrite <- ?app_assoc; cbn). reflexivity.
    + specialize (IHr fuel t (FR l p :: c) R n0 Dn Nn ltac:(lia)). cbn [hole_par fptr flink] in IHr.
      destruct (place cmp node r) as [[xs ys]|]; cbn [mbind option_bind]; [|exact IHr]. cbn [before after] in IHr.
      intros Hu Hadd. assert (EX : (before c ++ inorder l ++ [p]) ++ (xs ++ node :: ys) ++ after c = before c ++ ((inorder l ++ p :: xs) ++ node :: ys) ++ after c)
        by (repeat (rewrite <- ?app_assoc; cbn); reflexivity). rewrite <- EX in *. apply IHr; [exact Hu|].
      intros d Ed Eb Ea. apply Hadd; [exact Ed| |exact Ea]. rewrite Eb. repeat (rewrite <- ?app_assoc; cbn). reflexivity.
Qed.

Lemma avl_insert_rep cmp node t T : rep t T -> node <> 0 -> is_Some (a_nodes t !! node) -> node ∉ inorder T ->
  match place cmp node T with
  | None => avltree_insert update added_node t node cmp = Ok (false, t)
  | Some (xs, ys) => respects update (xs ++ node :: ys) ->
      (forall d, plug d Leaf = T -> before d = xs -> after d = ys -> welcomes added_node t d node) ->
      exists t' T', avltree_insert update added_node t node cmp = Ok (true, t') /\
        rep t' T' /\ kept t t' /\ uinv (a_user t') /\ inorder T' = xs ++ node :: ys
  end.
Proof.
  intros R n0 Dn Nn. unfold avltree_insert. pose proof R as [-> _].
  pose proof (insert_loop_rep cmp node T (depth_fuel t) t [] R n0 Dn Nn) as H.
  pose proof (depth_fuel_enough t [] T R) as Hf. cbn in Hf. specialize (H ltac:(lia)).
  destruct (place cmp node T) as [[xs ys]|]; [|exact H]. cbn [before after app] in H. rewrite app_nil_r in H. intros Hu Hadd.
  apply H; [exact Hu|]. intros d Ed Eb Ea. rewrite app_nil_r in Ea. auto.
Qed.
End Insert.

(** Callbacks keep a trivial invariant. *)
Definition no_inv (U : Type) : UserInv U := fun _ => True.
Lemma respects_no_inv {U} (cb : option (avltree U -> Z -> U)) xs : respects (UI := no_inv U) cb xs.
Proof. intros t T x _ _ _ _. exact I. Qed.
Lemma welcomes_no_inv {U} (cb : option (avltree U -> Z -> U)) t c node : welcomes (UI := no_inv U) cb t c node.
Proof. intros t1 _ _. exact I. Qed.
