(* ===== verification/AvlDelete.v ===== *)
(** * AVL trees: deletion, and the tree as a sorted set

    Deletion swaps a node with its successor when it has two children and cuts it
    out; the in-order sequence loses exactly that node.  The last part combines
    insertion, deletion and the searches into a refinement of sorted lists of
    keys. *)

From stdpp Require Import gmap sorting.
From S2P Require Import Prelude AvlTree.

(** ** Deletion *)

Lemma top_in f c x : top (f :: c) x ∈ nodes (f :: c).
Proof.
  revert f x. induction c as [|g c IH]; intros f x; [apply (fptr_in f [])|].
  change (top (f :: g :: c) x) with (top (g :: c) (fptr f)).
  change (nodes (f :: g :: c)) with (fnodes f ++ nodes (g :: c)). apply elem_of_app. right. apply IH.
Qed.

(** A path below another parent. *)
Lemma seg_outer m m' par par' c : forall x, NoDup (nodes c) -> seg_at m c x par ->
  (forall y, y ∈ nodes c -> lv m' y = lv m y /\ rv m' y = rv m y /\ (y <> top c x -> pv m' y = pv m y)) ->
  (c <> [] -> pv m' (top c x) = Some par') -> seg_at m' c x par'.
Proof.
  induction c as [|f c IH]; intros x ND HS H Ht; [exact I|]. specialize (Ht ltac:(discriminate)).
  change (nodes (f :: c)) with (fnodes f ++ nodes c) in *.
  apply list.NoDup_app in ND as (Nf & Df & Nc).
  assert (HS' : seg_at m c (fptr f) par) by (destruct f; apply HS).
  assert (Hc : seg_at m' c (fptr f) par').
  { apply IH; auto. intros y Hy. apply H. apply elem_of_app. auto. }
  assert (Tf : forall y, y ∈ fnodes f -> c <> [] -> y <> top (f :: c) x).
  { intros y Hy Hne ->. destruct c as [|g c]; [congruence|]. apply (Df _ Hy). apply (top_in g c). }
  assert (Hp : pv m' (fptr f) = Some (hole_par c par')).
  { destruct c as [|g c]; [exact Ht|]. cbn [hole_par].
    destruct (H (fptr f) ltac:(apply elem_of_app; left; destruct f; apply list_elem_of_here)) as (_ & _ & E).
    rewrite E; [|apply Tf; [destruct f; apply list_elem_of_here|discriminate]].
    destruct f; cbn [seg_at] in HS; destruct HS as ((_ & HP & _) & _); exact HP. }
  assert (Ts : forall y T, y ∈ inorder T -> inorder T ⊆ fnodes f -> fptr f ∉ inorder T -> same m m' y).
  { intros y T Hy HT NT. destruct (H y ltac:(apply elem_of_app; auto)) as (E1 & E2 & E3).
    split; [apply E3|auto]. intros ->. destruct c as [|g c]; [exact (NT Hy)|].
    apply (Tf _ (HT _ Hy)); [discriminate|reflexivity]. }
  destruct (H (fptr f) ltac:(apply elem_of_app; left; destruct f; apply list_elem_of_here)) as (E1 & E2 & _).
  destruct f as [p r|l p]; cbn [seg_at fptr fnodes] in *; apply list.NoDup_cons in Nf as [Np _];
    destruct HS as ((p0 & _ & P2 & P3) & HT & _).
  - split; [split; [exact p0|split; [exact Hp|split; congruence]]|]. split; [|exact Hc].
    eapply tree_same; [|exact HT]. intros y Hy. apply (Ts y r Hy); [|exact Np].
    intros z Hz. apply list_elem_of_further, Hz.
  - split; [split; [exact p0|split; [exact Hp|split; congruence]]|]. split; [|exact Hc].
    eapply tree_same; [|exact HT]. intros y Hy. apply (Ts y l Hy); [|exact Np].
    intros z Hz. apply list_elem_of_further, Hz.
Qed.

Section Delete.
Context {U : Type} {UI : UserInv U} (update : option (avltree U -> Z -> U)).
Implicit Types t : avltree U.

(** Cutting out a node with at most one child. *)
Lemma cut_rep t c l n r : rep t (plug c (Br l n r)) -> l = Leaf \/ r = Leaf ->
  let ch := match l with Leaf => r | _ => l end in
  exists t1 t2, write_link t (flink c) (root ch) = Ok t1 /\
    set_parent_opt t1 (root ch) (hole_par c 0) = Ok t2 /\ rep t2 (plug c ch) /\ kept t t2 /\
    inorder ch = inorder l ++ inorder r.
Proof.
  intros R Hc ch. pose proof R as R'. rewrite rep_plug in R'. destruct R' as (Hr & (_ & Hl & Hr') & HS & ND & Ty).
  destruct (nodup_plug _ _ ND) as (NT & Nc & D). cbn in NT.
  destruct (nodup_mid _ _ _ NT) as (Nl & Nr & _).
  assert (EI : inorder ch = inorder l ++ inorder r)
    by (unfold ch; destruct Hc as [-> | ->]; [reflexivity|destruct l; cbn; rewrite ?app_nil_r; reflexivity]).
  assert (HT : tree_at (a_nodes t) n ch) by (unfold ch; destruct l; [exact Hr'|exact Hl]).
  assert (NDch : NoDup (inorder ch)) by (unfold ch; destruct l; [exact Nr|exact Nl]).
  assert (Dch : forall x, x ∈ inorder ch -> x ∉ nodes c).
  { intros x Hx. apply D. cbn. rewrite EI, elem_of_app in Hx. rewrite elem_of_app, elem_of_cons. tauto. }
  destruct (write_link_spec t c n (root ch) HS Hr Nc) as (t1 & E1 & Hr1 & HS1 & K1 & _ & S1).
  exists t1. rewrite E1.
  assert (HT1 : tree_at (a_nodes t1) n ch) by (eapply tree_same; [|exact HT]; intros x Hx; apply S1, Dch, Hx).
  destruct (set_parent_opt_views t1 (root ch) (hole_par c 0) (root_dom _ _ _ HT1)) as (t2 & -> & V).
  exists t2. split; [reflexivity|]. split; [reflexivity|].
  assert (K : kept t t2) by (exact (kept_trans _ _ _ K1 (sv_kept _ _ _ _ _ V))).
  split; [|split; [exact K|exact EI]]. rewrite rep_plug.
  split; [rewrite (sv_root _ _ _ _ _ V); exact Hr1|]. split; [|split; [|split]].
  - eapply (tree_reparent _ _ n); [exact NDch| | |exact HT1].
    + intros x Hx. split; [|split; [|intros ?]]; views; decides; auto.
    + intros H0. views. decides. reflexivity.
  - eapply seg_same; [|exact HS1]. intros y Hy. unfold same.
    assert (root ch <> 0 -> y <> root ch) by (intros H0 ->; apply (Dch _ (root_in _ H0) Hy)).
    views. decides. auto.
  - rewrite inorder_plug in *. rewrite EI. cbn in ND.
    assert (Q : before c ++ (inorder l ++ n :: inorder r) ++ after c ≡ₚ
                n :: before c ++ (inorder l ++ inorder r) ++ after c) by solve_Permutation.
    rewrite Q in ND. apply list.NoDup_cons in ND. apply ND.
  - apply K, Ty.
Qed.

Lemma swap_height_rep t a b T : rep t T -> a ∈ inorder T -> b ∈ inorder T ->
  exists t', swap_height t a b = Ok t' /\ rep t' T /\ kept t t'.
Proof.
  intros R Ha Hb. pose proof R as (_ & HT & _ & Ty).
  destruct (tree_dom _ _ _ _ HT Ha) as (_ & na & Ea). destruct (tree_dom _ _ _ _ HT Hb) as (_ & nb & Eb).
  unfold swap_height, node_at. rewrite Ea, Eb. cbn [mbind outcome_bind].
  destruct (set_height_views t a (a_height nb) (Ty _ _ Eb) ltac:(eauto)) as (t1 & -> & V1).
  cbn [mbind outcome_bind].
  destruct (set_height_views t1 b (a_height na) (Ty _ _ Ea) ltac:(in_heap)) as (t2 & -> & V2).
  exists t2. split; [reflexivity|]. split; [|keeps].
  eapply rep_views; [|eapply rep_views; [exact V1|exact R]]. exact V2.
Qed.

Lemma delete_near_rep t c l n s sr : rep t (plug c (Br l n (Br Leaf s sr))) -> l <> Leaf ->
  exists t', delete_near t n (root l) (flink c) s = Ok t' /\
    rep t' (plug c (Br l s (Br Leaf n sr))) /\ kept t t'.
Proof.
  intros R Hl0. pose proof R as R'. rewrite rep_plug in R'.
  destruct R' as (Hr & ((n0 & Hn1 & Hn2 & Hn3) & Hl & (s0 & Hs1 & Hs2 & Hs3) & _ & Hsr) & HS & ND & Ty).
  destruct (nodup_plug _ _ ND) as (NT & _). cbn in NT, Hn3, Hs2.
  destruct (nodup_mid _ _ _ NT) as (Nl & Nr & Nnl & Nnr & Dl). apply list.NoDup_cons in Nr as [Nsr Nr].
  apply not_elem_of_cons in Nnr as [Hns Nnr].
  assert (Rl0 : root l <> 0) by (destruct l as [|? x ?]; [congruence|]; apply Hl).
  pose proof (root_in _ Rl0) as Rl. pose proof (root_in sr) as Rs.
  assert (Dsl : forall x, x ∈ inorder l -> x <> s /\ x ∉ inorder sr)
    by (intros x Hx; specialize (Dl x Hx); apply not_elem_of_cons in Dl; exact Dl).
  destruct (Dsl _ Rl) as [Hls Hlsr]. assert (Hln : root l <> n) by (intros E; rewrite E in Rl; auto).
  assert (Hsrn : root sr <> 0 -> root sr <> n /\ root sr <> s /\ root sr <> root l /\ root l <> root sr).
  { intros H0. specialize (Rs H0). repeat split; intros E; (rewrite E in Rs || rewrite <- E in Rs); auto. }
  unfold delete_near. destruct (node_at_views t s _ _ _ Hs1 Hs2 Hs3) as [h ->]. cbn [mbind outcome_bind a_right].
  pose proof (pv_Some _ _ _ Hn1) as Dn. pose proof (pv_Some _ _ _ Hs1) as Ds.
  pose proof (root_dom _ _ _ Hl Rl0) as Dlh. pose proof (root_dom _ _ _ Hsr) as Dsr.
  run (set_left_views t n 0). run (set_right_views t0 n (root sr)). run (set_left_views t1 s (root l)).
  run (set_right_views t2 s n). run (set_parent_views t3 (root l) s).
  destruct (node_at_views t4 n (hole_par c 0) 0 (root sr)) as [h1 ->]; [views; decides; auto..|].
  cbn [mbind outcome_bind a_right].
  run (set_parent_opt_views t4 (root sr) n). run (set_right_views t5 s n).
  destruct (node_at_views t6 n (hole_par c 0) 0 (root sr)) as [h2 ->]; [views; decides; auto..|].
  cbn [mbind outcome_bind a_parent].
  run (set_parent_views t6 s (hole_par c 0)). run (set_parent_views t7 n s).
  destruct (replace_hole t c (Br l n (Br Leaf s sr)) (Br l s (Br Leaf n sr)) t8 R) as (t9 & E9 & R9 & K9).
  - roots.
  - keeps.
  - cbn [tree_at root]. split; [|split; [|split; [|split; [exact I|]]]].
    + split; [exact s0|]. views. decides. auto.
    + eapply (tree_reparent _ _ n); [exact Nl| | |exact Hl].
      * intros x Hx. destruct (Dsl x Hx) as [H1 H2]. assert (x <> n) by (intros ->; auto).
        assert (root sr <> 0 -> x <> root sr) by (intros H0 ->; auto).
        split; [|split; [|intros ?]]; views; decides; auto.
      * intros _. views. decides. reflexivity.
    + split; [exact n0|]. views. decides. auto.
    + eapply (tree_reparent _ _ s); [exact Nr| | |exact Hsr].
      * intros x Hx. assert (x <> n) by (intros ->; auto). assert (x <> s) by (intros ->; auto).
        assert (x <> root l) by (intros ->; auto).
        split; [|split; [|intros ?]]; views; decides; auto.
      * intros H0. specialize (Hsrn H0). views. decides. reflexivity.
  - intros x Hx. cbn in Hx. rewrite elem_of_app, !elem_of_cons in Hx. unfold same.
    assert (x <> root l) by (intros ->; tauto).
    assert (root sr <> 0 -> x <> root sr) by (intros H0 ->; tauto). views. decides. auto.
  - cbn. solve_Permutation.
  - cbn [root] in E9. rewrite E9. cbn [mbind outcome_bind].
    destruct (swap_height_rep t9 n s _ R9) as (t10 & -> & R10 & K10);
      [rewrite inorder_plug; cbn; rewrite !elem_of_app, !elem_of_cons; auto 10..|].
    exists t10. split; [reflexivity|]. split; [exact R10|]. eapply kept_trans; eauto.
Qed.

(** The pieces of the tree around a node and its successor further down. *)
Definition far_nodes (c : list frame) (l : tree) (cs : list frame) (sr : tree) (n s : Z) : Prop :=
  NoDup (inorder l) /\ NoDup (nodes cs) /\ NoDup (inorder sr) /\ NoDup (nodes c) /\ n <> s /\
  (forall x, x ∈ inorder l -> x <> n /\ x <> s /\ (x ∉ nodes cs) /\ (x ∉ inorder sr) /\ x ∉ nodes c) /\
  (forall x, x ∈ nodes cs -> x <> n /\ x <> s /\ (x ∉ inorder sr) /\ x ∉ nodes c) /\
  (forall x, x ∈ inorder sr -> x <> n /\ x <> s /\ x ∉ nodes c) /\
  (n ∉ nodes c) /\ (s ∉ nodes c).
Lemma far_pieces c l n cs s sr : NoDup (inorder (plug c (Br l n (plug cs (Br Leaf s sr))))) ->
  far_nodes c l cs sr n s.
Proof.
  intros ND. assert (P : inorder (plug c (Br l n (plug cs (Br Leaf s sr)))) ≡ₚ
    n :: s :: inorder l ++ nodes cs ++ inorder sr ++ nodes c).
  { rewrite inorder_plug. cbn. rewrite inorder_plug. cbn. rewrite <- !nodes_perm. solve_Permutation. }
  rewrite P in ND. apply list.NoDup_cons in ND as [Nn ND]. apply list.NoDup_cons in ND as [Ns ND].
  rewrite elem_of_cons, !elem_of_app in Nn. rewrite !elem_of_app in Ns.
  apply list.NoDup_app in ND as (N1 & D1 & ND). apply list.NoDup_app in ND as (N2 & D2 & ND).
  apply list.NoDup_app in ND as (N3 & D3 & N4).
  unfold far_nodes. split; [exact N1|]. split; [exact N2|]. split; [exact N3|]. split; [exact N4|].
  split; [tauto|]. split; [|split; [|split; [|tauto]]]; intros x Hx.
  - specialize (D1 x Hx). rewrite !elem_of_app in D1. repeat split; try tauto; intros ->; tauto.
  - specialize (D2 x Hx). rewrite !elem_of_app in D2. repeat split; try tauto; intros ->; tauto.
  - specialize (D3 x Hx). repeat split; try tauto; intros ->; tauto.
Qed.

(** The views after [delete_far_links]. *)
Lemma far_links_views t n s l q w sr par :
  links_at (a_nodes t) n par l w -> links_at (a_nodes t) s q 0 sr ->
  is_Some (a_nodes t !! l) -> is_Some (a_nodes t !! w) -> is_Some (a_nodes t !! q) ->
  (sr <> 0 -> is_Some (a_nodes t !! sr)) -> n <> s -> l <> n -> l <> s -> w <> n -> w <> s ->
  exists t', delete_far_links t n l q s = Ok t' /\
    step_views t t' (upd_opt (upd1 (upd1 (pv (a_nodes t)) l s) w s) sr n)
      (upd1 (upd1 (upd1 (lv (a_nodes t)) s l) n 0) q n) (upd1 (upd1 (rv (a_nodes t)) n sr) s w).
Proof.
  intros (n0 & Hn1 & Hn2 & Hn3) (s0 & Hs1 & Hs2 & Hs3) El Ew Eq Esr Hns H1 H2 H3 H4.
  pose proof (pv_Some _ _ _ Hn1) as En. pose proof (pv_Some _ _ _ Hs1) as Es.
  unfold delete_far_links, swap_right.
  run (set_left_views t s l). run (set_parent_views t0 l s). run (set_left_views t1 n 0).
  destruct (node_at_views t2 n par 0 w) as [h1 ->]; [views; decides; auto..|].
  cbn [mbind outcome_bind a_right].
  destruct (node_at_views t2 s q l sr) as [h2 ->]; [views; decides; auto..|].
  cbn [mbind outcome_bind a_right].
  run (set_right_views t2 n sr). run (set_right_views t3 s w).
  destruct (node_at_views t4 s q l w) as [h3 ->]; [views; decides; auto..|].
  cbn [mbind outcome_bind a_right]. run (set_parent_views t4 w s).
  destruct (node_at_views t5 n par 0 sr) as [h4 ->]; [views; decides; auto..|].
  cbn [mbind outcome_bind a_right]. run (set_parent_opt_views t5 sr n). run (set_left_views t6 q n).
  exists t7. split; [reflexivity|]. split; [roots| | | |keeps|users]; intros x; views; reflexivity.
Qed.

(** A tree, a path and two nodes away from the context, under the final views. *)
Lemma far_tree m m' par l n q rr cs s sr c :
  let fs := FL q rr :: cs in let w := top fs s in
  tree_at m par (Br l n (plug fs (Br Leaf s sr))) -> far_nodes c l fs sr n s -> l <> Leaf ->
  (forall y, y ∉ nodes c ->
     pv m' y = upd1 (upd1 (upd_opt (upd1 (upd1 (pv m) (root l) s) w s) (root sr) n) s par) n q y /\
     lv m' y = upd1 (upd1 (upd1 (lv m) s (root l)) n 0) q n y /\
     rv m' y = upd1 (upd1 (rv m) n (root sr)) s w y) ->
  tree_at m' par (Br l s (plug fs (Br Leaf n sr))).
Proof.
  intros fs w HT (Nl & Nfs & Nsr & Nc & Hns & Dl & Dfs & Dsr & Dn & Ds) Hl0 HV.
  destruct HT as ((n0 & Hn1 & Hn2 & Hn3) & Hl & HF).
  apply tree_plug in HF as [((s0 & Hs1 & Hs2 & Hs3) & _ & Hsr) HF]. cbn [root] in *.
  assert (Hw : w ∈ nodes fs) by apply top_in. assert (Hq : q ∈ nodes fs) by apply (fptr_in (FL q rr)).
  assert (Rl0 : root l <> 0) by (destruct l as [|? x ?]; [congruence|]; apply Hl).
  pose proof (root_in _ Rl0) as Rl. pose proof (root_in sr) as Rs.
  destruct (Dl _ Rl) as (L1 & L2 & L3 & L4 & L5). destruct (Dfs _ Hw) as (W1 & W2 & W3 & W4).
  destruct (Dfs _ Hq) as (Q1 & Q2 & Q3 & Q4).
  assert (Ls : root l <> w /\ root l <> q) by (split; intros E; apply L3; rewrite E; assumption).
  assert (Hx : root sr <> 0 -> root sr <> n /\ root sr <> s /\ root sr <> root l /\ root l <> root sr /\
    root sr <> w /\ w <> root sr /\ root sr <> q /\ q <> root sr).
  { intros H0. specialize (Rs H0). destruct (Dsr _ Rs) as (A1 & A2 & A3).
    repeat split; auto; intros E; (rewrite E in Rs || rewrite <- E in Rs); auto. }
  assert (HR : root (plug fs (Br Leaf n sr)) = w) by (rewrite root_plug; reflexivity).
  unfold upd1, upd_opt in HV. cbn [tree_at]. rewrite tree_plug, HR. split; [|split; [|split]].
  - split; [exact s0|]. destruct (HV s Ds) as (-> & -> & ->). decides; auto.
  - eapply (tree_reparent m _ n); [exact Nl| | |exact Hl].
    + intros x Hx0. destruct (Dl x Hx0) as (A1 & A2 & A3 & A4 & A5).
      assert (x <> w) by (intros ->; auto). assert (x <> q) by (intros ->; auto).
      assert (root sr <> 0 -> x <> root sr) by (intros Hz ->; auto).
      destruct (HV x A5) as (-> & -> & ->). split; [|split; [|intros ?]]; decides; auto.
    + intros _. destruct (HV _ L5) as (-> & _ & _). decides; reflexivity.
  - cbn [tree_at root hole_par fptr fs].
    split; [|split; [exact I|]]; [split; [exact n0|]; destruct (HV n Dn) as (-> & -> & ->); decides; repeat split|].
    eapply (tree_reparent m _ s); [exact Nsr| | |exact Hsr].
    + intros x Hx0. destruct (Dsr x Hx0) as (A1 & A2 & A3).
      assert (x <> w) by (intros ->; auto). assert (x <> q) by (intros ->; auto).
      assert (x <> root l) by (intros ->; auto).
      destruct (HV x A3) as (-> & -> & ->). split; [|split; [|intros ?]]; decides; auto.
    + intros H0. specialize (Hx H0). destruct (Dsr _ (Rs H0)) as (A1 & A2 & A3).
      destruct (HV _ A3) as (-> & _ & _). decides; reflexivity.
  - cbn [root]. cbn [seg_at fs] in HF |- *. destruct HF as ((q0 & Hq1 & Hq2 & Hq3) & Hrr & HF').
    change (nodes fs) with ((q :: inorder rr) ++ nodes cs) in *.
    apply list.NoDup_app in Nfs as (Nq & Dq & Ncs). apply list.NoDup_cons in Nq as [Nq _].
    assert (Qc : q ∉ nodes cs) by (apply Dq, list_elem_of_here).
    assert (Hwc : cs <> [] -> w ∈ nodes cs) by (destruct cs as [|f cs]; [congruence|]; intros _; exact (top_in f cs q)).
    assert (Ev : forall y, y ∈ inorder rr ++ nodes cs -> lv m' y = lv m y /\ rv m' y = rv m y /\
      (y <> w -> pv m' y = pv m y)).
    { intros y Hy. assert (Hy' : y ∈ (q :: inorder rr) ++ nodes cs) by (cbn; apply list_elem_of_further, Hy).
      destruct (Dfs y Hy') as (A1 & A2 & A3 & A4).
      assert (y <> q) by (intros ->; apply elem_of_app in Hy; tauto).
      assert (y <> root l) by (intros ->; auto).
      assert (root sr <> 0 -> y <> root sr) by (intros Hz ->; auto).
      destruct (HV y A4) as (-> & -> & ->). split; [|split; [|intros ?]]; decides; auto. }
    split; [|split].
    + split; [exact q0|]. destruct (HV q Q4) as (-> & -> & ->).
      destruct cs as [|f cs]; [change w with q|assert (q <> w) by (intros E; apply Qc; rewrite E; apply Hwc; discriminate)];
        cbn [hole_par] in *; decides; repeat split; auto.
    + eapply tree_same; [|exact Hrr]. intros y Hy. destruct (Ev y ltac:(apply elem_of_app; auto)) as (A1 & A2 & A3).
      split; [apply A3|auto]. intros ->. destruct cs as [|f cs]; [apply Nq, Hy|].
      apply (Dq w); [apply list_elem_of_further, Hy|apply Hwc; discriminate].
    + eapply (seg_outer m m' n s cs q Ncs HF').
      * intros y Hy. apply Ev, elem_of_app. auto.
      * intros Hc. change (top cs q) with w. destruct (HV w W4) as (-> & _ & _). decides; reflexivity.
Qed.

Lemma delete_far_rep t c l n q rr cs s sr :
  rep t (plug c (Br l n (plug (FL q rr :: cs) (Br Leaf s sr)))) -> l <> Leaf ->
  exists t', delete_far t n (root l) (flink c) q s = Ok t' /\
    rep t' (plug c (Br l s (plug (FL q rr :: cs) (Br Leaf n sr)))) /\ kept t t'.
Proof.
  intros R Hl0. pose proof R as (_ & _ & ND & Ty). set (fs := FL q rr :: cs) in *.
  pose proof (far_pieces _ _ _ _ _ _ ND) as FN.
  pose proof FN as (Nl & Nfs & Nsr & Nc & Hns & Dl & Dfs & Dsr & Dn & Ds).
  pose proof R as R'. rewrite rep_plug in R'. destruct R' as (Hr & HT & HS & _ & _).
  pose proof HT as (Hn & Hl & HF). apply tree_plug in HF as [(Hs & _ & Hsr) HF].
  rewrite root_plug in Hn. cbn [root] in *. change (hole_par fs n) with q in Hs. set (w := top fs s) in *.
  assert (Hw : w ∈ nodes fs) by apply top_in. assert (Hq : q ∈ nodes fs) by apply (fptr_in (FL q rr)).
  assert (Rl0 : root l <> 0) by (destruct l as [|? x ?]; [congruence|]; apply Hl).
  pose proof (root_in _ Rl0) as Rl. pose proof (root_in sr) as Rs.
  destruct (Dl _ Rl) as (L1 & L2 & _ & _ & L5). destruct (Dfs _ Hw) as (W1 & W2 & _ & W4).
  destruct (Dfs _ Hq) as (_ & _ & _ & Q4).
  destruct (far_links_views t n s (root l) q w (root sr) (hole_par c 0) Hn Hs) as (t1 & E1 & V1); auto.
  { apply (root_dom _ _ _ Hl Rl0). } { apply (path_dom _ _ _ _ _ HF Hw). }
  { apply (path_dom _ _ _ _ _ HF Hq). } { apply (root_dom _ _ _ Hsr). }
  unfold delete_far. rewrite E1. cbn [mbind outcome_bind].
  destruct (write_link_spec t1 c n s) as (t2 & -> & Hr2 & HS2 & K2 & _ & S2); auto.
  { eapply seg_same; [|exact HS]. intros y Hy. assert (y <> n) by (intros ->; auto).
    assert (y <> s) by (intros ->; auto). assert (y <> root l) by (intros ->; auto).
    assert (y <> w) by (intros ->; auto). assert (y <> q) by (intros ->; auto).
    assert (root sr <> 0 -> y <> root sr) by (intros Hz ->; apply (Dsr _ (Rs Hz)); exact Hy).
    unfold same. views. decides. auto. }
  { rewrite <- Hr. roots. }
  cbn [mbind outcome_bind]. destruct Hn as (n0 & Hn1 & Hn2 & Hn3). destruct Hs as (s0 & Hs1 & Hs2 & Hs3).
  destruct (S2 n Dn) as (A1 & A2 & A3).
  assert (B : pv (a_nodes t1) n = Some (hole_par c 0)).
  { assert (root sr <> 0 -> root sr <> n) by (intros Hz; apply (Dsr _ (Rs Hz))). views. decides. exact Hn1. }
  assert (En : is_Some (a_nodes t2 !! n)) by (eapply pv_Some; rewrite A1; exact B).
  assert (Es : is_Some (a_nodes t2 !! s)).
  { rewrite <- elem_of_dom, (proj1 K2), elem_of_dom. apply (sv_some _ _ _ _ _ _ V1). eapply pv_Some; eauto. }
  assert (EP : exists nd, node_at t2 n = Ok nd /\ a_parent nd = hole_par c 0).
  { unfold node_at. destruct En as [nd E]. rewrite E. exists nd. split; [reflexivity|].
    rewrite B in A1. unfold pv in A1. rewrite E in A1. injection A1 as ->. reflexivity. }
  destruct EP as (nd & -> & EPn). cbn [mbind outcome_bind]. rewrite EPn.
  run (set_parent_views t2 s (hole_par c 0)). run (set_parent_views t0 n q).
  assert (K : kept t t3).
  { refine (kept_trans _ _ _ (sv_kept _ _ _ _ _ V1) (kept_trans _ _ _ K2 _)). clear V1. keeps. }
  assert (R3 : rep t3 (plug c (Br l s (plug fs (Br Leaf n sr))))).
  { rewrite rep_plug. split; [rewrite (sv_root _ _ _ _ _ V0), (sv_root _ _ _ _ _ V); exact Hr2|].
    split; [|split; [|split; [|apply K, Ty]]].
    - eapply far_tree; eauto. intros y Hy. destruct (S2 y Hy) as (C1 & C2 & C3).
      rewrite (sv_pv _ _ _ _ _ V0), (sv_lv _ _ _ _ _ V0), (sv_rv _ _ _ _ _ V0).
      unfold upd1 at 1. rewrite (sv_pv _ _ _ _ _ V), (sv_lv _ _ _ _ _ V), (sv_rv _ _ _ _ _ V), C2, C3.
      unfold upd1 at 1. rewrite C1, (sv_pv _ _ _ _ _ V1), (sv_lv _ _ _ _ _ V1), (sv_rv _ _ _ _ _ V1).
      auto.
    - eapply seg_same; [|exact HS2]. intros y Hy. assert (y <> n) by (intros ->; auto).
      assert (y <> s) by (intros ->; auto). clear V1. unfold same. views. decides. auto.
    - refine (proj1 (list.NoDup_Permutation_proper _ _ _) ND). rewrite !inorder_plug. cbn [inorder].
      rewrite !inorder_plug. cbn [inorder]. solve_Permutation. }
  destruct (swap_height_rep t3 n s _ R3) as (t4 & -> & R4 & K4).
  { rewrite inorder_plug. cbn [inorder]. rewrite inorder_plug. cbn [inorder].
    rewrite !elem_of_app, !elem_of_cons, !elem_of_app, !elem_of_cons. auto 10. }
  { rewrite inorder_plug. cbn [inorder]. rewrite !elem_of_app, !elem_of_cons. auto 10. }
  exists t4. split; [reflexivity|]. split; [exact R4|]. eapply kept_trans; eauto.
Qed.

(** The loop that finds the successor ends at the leftmost node. *)
Lemma successor_loop_rep rr : forall l p t c fuel, rep t (plug c (Br l p rr)) -> l <> Leaf ->
  (depth l <= fuel)%nat ->
  exists q r cs s sr, successor_loop fuel t p = Ok (q, s) /\
    Br l p rr = plug (FL q r :: cs) (Br Leaf s sr) /\ before (FL q r :: cs) = [].
Proof.
  intros l. revert rr. induction l as [|ll IH x lr _]; intros rr p t c fuel R Hl Hf; [congruence|].
  destruct (rep_node _ _ _ _ _ R) as (h & p0 & Ep).
  destruct (rep_node t (FL p rr :: c) _ _ _ R) as (h' & x0 & Ex).
  destruct fuel as [|fuel]; [cbn in Hf; lia|].
  cbn [successor_loop]. rewrite Ep. cbn [mbind outcome_bind a_left root]. rewrite Ex. cbn [mbind outcome_bind a_left].
  destruct ll as [|ll1 y ll2].
  - cbn [root Z.eqb negb]. exists p, rr, [], x, lr. auto.
  - cbn [root]. destruct (rep_node t (FL x lr :: FL p rr :: c) _ _ _ R) as (_ & y0 & _).
    destruct (Z.eqb_spec y 0); [congruence|]. cbn [negb].
    destruct (IH lr x t (FL p rr :: c) fuel R ltac:(discriminate) ltac:(cbn in Hf |- *; lia))
      as (q & r & cs & s & sr & E & EP & EB).
    exists q, r, (cs ++ [FL p rr]), s, sr. split; [exact E|]. split.
    + change (FL q r :: cs ++ [FL p rr]) with ((FL q r :: cs) ++ [FL p rr]). rewrite plug_app, <- EP. reflexivity.
    + change (FL q r :: cs ++ [FL p rr]) with ((FL q r :: cs) ++ [FL p rr]).
      clear -EB. induction (FL q r :: cs) as [|[|] fs IH]; cbn in *; auto.
      destruct (before fs); [|discriminate]. cbn in EB. destruct (inorder l); discriminate.
Qed.

(** After the preparation [node] has at most one child; the other nodes keep
    their order. *)
Lemma delete_prepare_rep t c l n r : rep t (plug c (Br l n r)) ->
  exists t1 c1 l1 r1, delete_prepare t n = Ok (t1, flink c1, hole_par c1 0) /\
    rep t1 (plug c1 (Br l1 n r1)) /\ (l1 = Leaf \/ r1 = Leaf) /\ kept t t1 /\
    before c1 ++ (inorder l1 ++ inorder r1) ++ after c1 = before c ++ (inorder l ++ inorder r) ++ after c.
Proof.
  intros R. unfold delete_prepare. destruct (rep_node _ _ _ _ _ R) as (h & n0 & En).
  pose proof (get_node_link_spec t c _ R n0) as EL. cbn [root] in EL. rewrite EL.
  cbn [mbind outcome_bind]. rewrite En.
  cbn [mbind outcome_bind a_left a_right a_parent].
  assert (Same : l = Leaf \/ r = Leaf -> exists t1 c1 l1 r1, Ok (t, flink c, hole_par c 0) =
      Ok (t1, flink c1, hole_par c1 0) /\ rep t1 (plug c1 (Br l1 n r1)) /\ (l1 = Leaf \/ r1 = Leaf) /\ kept t t1 /\
      before c1 ++ (inorder l1 ++ inorder r1) ++ after c1 = before c ++ (inorder l ++ inorder r) ++ after c).
  { intros H. exists t, c, l, r. split; [reflexivity|]. split; [exact R|]. split; [exact H|].
    split; [apply kept_refl|reflexivity]. }
  destruct l as [|ll lp lr]; [apply Same; auto|].
  destruct (rep_node t (FL n r :: c) _ _ _ R) as (_ & lp0 & _). cbn [root] in *.
  destruct (Z.eqb_spec lp 0) as [?|_]; [congruence|]. cbn [negb andb].
  destruct r as [|rl s rr]; [apply Same; auto|].
  destruct (rep_node t (FR (Br ll lp lr) n :: c) _ _ _ R) as (hs & s0 & Es). cbn [root].
  destruct (Z.eqb_spec s 0) as [?|_]; [congruence|]. cbn [negb]. rewrite Es.
  cbn [mbind outcome_bind a_left]. clear Same. set (l := Br ll lp lr) in *.
  destruct rl as [|rll x rlr].
  - cbn [root Z.eqb negb].
    destruct (delete_near_rep t c l n s rr R ltac:(discriminate)) as (t1 & E1 & R1 & K1).
    cbn [root l] in E1. rewrite E1. cbn [mbind outcome_bind].
    exists t1, (FR l s :: c), Leaf, rr. split; [reflexivity|]. split; [exact R1|]. split; [auto|].
    split; [exact K1|]. cbn [before after inorder app]. rewrite <- !app_assoc. reflexivity.
  - destruct (rep_node t (FL s rr :: FR l n :: c) _ _ _ R) as (_ & x0 & _). cbn [root].
    destruct (Z.eqb_spec x 0) as [?|_]; [congruence|]. cbn [negb].
    pose proof (depth_fuel_enough t (FL s rr :: FR l n :: c) (Br rll x rlr) R) as Hf.
    destruct (successor_loop_rep rr (Br rll x rlr) s t (FR l n :: c) (depth_fuel t) R ltac:(discriminate))
      as (q & r' & cs & y & sr & -> & EP & EB); [cbn in Hf |- *; lia|].
    cbn [mbind outcome_bind]. rewrite EP in R.
    destruct (delete_far_rep t c l n q r' cs y sr R ltac:(discriminate)) as (t1 & E1 & R1 & K1).
    cbn [root l] in E1. rewrite E1. cbn [mbind outcome_bind].
    exists t1, ((FL q r' :: cs) ++ FR l y :: c), Leaf, sr. split; [reflexivity|].
    split; [rewrite plug_app; exact R1|]. split; [auto|]. split; [exact K1|].
    rewrite EP, inorder_plug, EB. clear -EB.
    assert (Bf : forall fs d, before fs = [] -> before (fs ++ d) = before d).
    { induction fs as [|[|l0 p0] fs IH]; cbn; intros d H; auto. destruct (before fs); [|discriminate].
      cbn in H. destruct (inorder l0); discriminate. }
    assert (Af : forall fs d, after (fs ++ d) = after fs ++ after d).
    { induction fs as [|[|] fs IH]; cbn; intros d; rewrite ?IH, <- ?app_assoc; reflexivity. }
    rewrite Bf, Af by exact EB. cbn [before after inorder app]. repeat (rewrite <- ?app_assoc; cbn [app]). reflexivity.
Qed.

Lemma delete_node_rep t c l n r : rep t (plug c (Br l n r)) -> respects update (before c ++ (inorder l ++ inorder r) ++ after c) ->
  exists t' T', avltree_delete_node update t n = Ok t' /\ rep t' T' /\ kept t t' /\
    inorder T' = before c ++ (inorder l ++ inorder r) ++ after c.
Proof.
  intros R Hu. unfold avltree_delete_node.
  destruct (delete_prepare_rep t c l n r R) as (t1 & c1 & l1 & r1 & -> & R1 & Hc & K1 & EI).
  cbn [mbind outcome_bind]. destruct (rep_node _ _ _ _ _ R1) as (h & n0 & ->).
  cbn [mbind outcome_bind a_left a_right].
  destruct (cut_rep t1 c1 l1 n r1 R1 Hc) as (t2 & t3 & E2 & E3 & R3 & K3 & EC).
  set (ch := match l1 with Leaf => r1 | _ => l1 end) in *.
  assert (Ech : (if negb (root l1 =? 0) then root l1 else root r1) = root ch).
  { unfold ch. destruct l1 as [|? x ?]; cbn [root]; [reflexivity|].
    destruct (rep_node t1 (FL n r1 :: c1) _ _ _ R1) as (_ & x0 & _).
    destruct (Z.eqb_spec x 0); [congruence|reflexivity]. }
  rewrite Ech, E2. cbn [mbind outcome_bind]. rewrite E3. cbn [mbind outcome_bind].
  destruct (fixup_parent update t3 c1 ch R3) as (t' & T' & -> & R' & EI' & K').
  { rewrite inorder_plug, EC, EI. exact Hu. }
  exists t', T'. split; [reflexivity|]. split; [exact R'|].
  split; [exact (kept_trans _ _ _ K1 (kept_trans _ _ _ K3 K'))|].
  rewrite EI', inorder_plug, EC. exact EI.
Qed.

(** The descent of [avltree_delete]: the node it stops at, and what is around it. *)
Fixpoint locate (cmp : Z -> Z -> Z) (key : Z) (T : tree) : option (list Z * Z * list Z) :=
  match T with
  | Leaf => None
  | Br l p r =>
      if cmp p key =? 0 then Some (inorder l, p, inorder r)
      else if cmp p key <? 0 then
        '(xs, y, ys) ← locate cmp key l; Some (xs, y, ys ++ p :: inorder r)
      else '(xs, y, ys) ← locate cmp key r; Some (inorder l ++ p :: xs, y, ys)
  end.

Lemma delete_loop_rep cmp key : (forall xs, respects update xs) -> forall T fuel t c, rep t (plug c T) -> (depth T <= fuel)%nat ->
  match locate cmp key T with
  | None => delete_loop update fuel cmp t key (root T) = Ok (0, t)
  | Some (xs, y, ys) => exists t' T', delete_loop update fuel cmp t key (root T) = Ok (y, t') /\
      rep t' T' /\ kept t t' /\ y <> 0 /\ inorder T = xs ++ y :: ys /\
      inorder T' = before c ++ (xs ++ ys) ++ after c
  end.
Proof.
  intros Hu. induction T as [|l IHl p r IHr]; intros fuel t c R Hf; cbn [locate].
  - destruct fuel; reflexivity.
  - destruct (rep_node _ _ _ _ _ R) as (h & p0 & Ep).
    destruct fuel as [|fuel]; [cbn in Hf; lia|]. cbn [delete_loop root].
    destruct (Z.eqb_spec p 0) as [?|_]; [congruence|]. destruct (cmp p key =? 0).
    + destruct (delete_node_rep t c l p r R (Hu _)) as (t' & T' & -> & R' & K & EI). cbn [mbind outcome_bind].
      exists t', T'. auto 6.
    + rewrite Ep. cbn [mbind outcome_bind a_left a_right]. cbn in Hf. destruct (cmp p key <? 0).
      * specialize (IHl fuel t (FL p r :: c) R ltac:(lia)).
        destruct (locate cmp key l) as [[[xs y] ys]|]; cbn [mbind option_bind]; [|exact IHl].
        destruct IHl as (t' & T' & E & R' & K & y0 & E1 & E2). exists t', T'. split; [exact E|].
        split; [exact R'|]. split; [exact K|]. split; [exact y0|]. cbn [inorder]. rewrite E1, E2.
        cbn [before after]. repeat (rewrite <- ?app_assoc; cbn [app]). auto.
      * specialize (IHr fuel t (FR l p :: c) R ltac:(lia)).
        destruct (locate cmp key r) as [[[xs y] ys]|]; cbn [mbind option_bind]; [|exact IHr].
        destruct IHr as (t' & T' & E & R' & K & y0 & E1 & E2). exists t', T'. split; [exact E|].
        split; [exact R'|]. split; [exact K|]. split; [exact y0|]. cbn [inorder]. rewrite E1, E2.
        cbn [before after]. repeat (rewrite <- ?app_assoc; cbn [app]). auto.
Qed.
End Delete.
