(* ===== verification/AvlSet.v ===== *)
(** * AVL trees as ordered maps

    With comparators that compare keys, a tree is an ordered finite map from keys
    to nodes: insertion and deletion refine the operations of the map, and the
    searches read its ends.  The heights are not part of the contract: the
    counterexamples at the end show where they go wrong. *)

From stdpp Require Import gmap sorting.
From S2P Require Import Prelude AvlTree AvlDelete.

(** Nothing is asked of the owner's state. *)
#[local] Existing Instance no_inv.

Section Keys.
(** The key of the owner of a node, which does not change while it is in the tree. *)
Context (key : Z -> Z).

Definition klt (x y : Z) : Prop := key x < key y.

(** [cmp a b] has the sign of [key a - key b], as avltree_insert expects ... *)
Definition compares (cmp : Z -> Z -> Z) : Prop :=
  forall a b, (cmp a b = 0 <-> key a = key b) /\ (cmp a b < 0 <-> key a < key b).
(** ... and [cmp a k] that of [k - key a], as avltree_delete does. *)
Definition identifies (cmp : Z -> Z -> Z) : Prop :=
  forall a k, (cmp a k = 0 <-> key a = k) /\ (cmp a k < 0 <-> k < key a).

Lemma sorted_mid xs p ys : StronglySorted klt (xs ++ p :: ys) <->
  StronglySorted klt xs /\ StronglySorted klt ys /\ (forall x, x ∈ xs -> klt x p) /\
  (forall y, y ∈ ys -> klt p y) /\ (forall x y, x ∈ xs -> y ∈ ys -> klt x y).
Proof.
  rewrite StronglySorted_app, StronglySorted_cons, list.Forall_forall. split.
  - intros (H & S1 & H2 & S2). split; [exact S1|]. split; [exact S2|].
    split; [intros x Hx; apply H; [exact Hx|apply list_elem_of_here]|]. split; [exact H2|].
    intros x y Hx Hy. apply H; [exact Hx|apply list_elem_of_further, Hy].
  - intros (S1 & S2 & H1 & H2 & H3). split; [|auto].
    intros x y Hx [->|Hy]%elem_of_cons; auto.
Qed.

Lemma place_sorted cmp node T : compares cmp -> StronglySorted klt (inorder T) ->
  match place cmp node T with
  | None => exists x, x ∈ inorder T /\ key x = key node
  | Some (xs, ys) => (forall x, x ∈ xs -> klt x node) /\ (forall y, y ∈ ys -> klt node y)
  end.
Proof.
  intros C. induction T as [|l IHl p r IHr]; cbn [place inorder].
  { intros _. split; intros x Hx; inversion Hx. }
  rewrite sorted_mid. intros (S1 & S2 & H1 & H2 & H3). destruct (C node p) as [C1 C2].
  destruct (Z.eqb_spec (cmp node p) 0) as [E|E].
  { exists p. split; [rewrite elem_of_app, elem_of_cons; auto|]. symmetry. apply C1, E. }
  destruct (Z.ltb_spec (cmp node p) 0) as [Hlt|Hge].
  - assert (L : klt node p) by (apply C2, Hlt). specialize (IHl S1).
    destruct (place cmp node l) as [[xs ys]|] eqn:EP; cbn [mbind option_bind].
    + destruct IHl as [I1 I2]. split; [exact I1|].
      intros y [Hy|[->|Hy]%elem_of_cons]%elem_of_app; [auto|exact L|].
      specialize (H2 y Hy). unfold klt in *. lia.
    + destruct IHl as (x & Hx & Ex). exists x. rewrite elem_of_app. auto.
  - assert (L : klt p node).
    { unfold klt. destruct (Z.lt_trichotomy (key p) (key node)) as [?|[?|?]]; [assumption| |].
      - destruct E. apply C1. auto.
      - apply C2 in H. lia. }
    specialize (IHr S2). destruct (place cmp node r) as [[xs ys]|] eqn:EP; cbn [mbind option_bind].
    + destruct IHr as [I1 I2]. split; [|exact I2].
      intros x [Hx|[->|Hx]%elem_of_cons]%elem_of_app; [|exact L|auto].
      specialize (H1 x Hx). unfold klt in *. lia.
    + destruct IHr as (x & Hx & Ex). exists x. rewrite elem_of_app, elem_of_cons. auto.
Qed.

Lemma locate_sorted cmp k T : identifies cmp -> StronglySorted klt (inorder T) ->
  match locate cmp k T with
  | None => forall x, x ∈ inorder T -> key x <> k
  | Some (xs, y, ys) => key y = k
  end.
Proof.
  intros C. induction T as [|l IHl p r IHr]; cbn [locate inorder].
  { intros _ x Hx. inversion Hx. }
  rewrite sorted_mid. intros (S1 & S2 & H1 & H2 & _). destruct (C p k) as [C1 C2].
  destruct (Z.eqb_spec (cmp p k) 0) as [E|E]; [apply C1, E|].
  destruct (Z.ltb_spec (cmp p k) 0) as [Hlt|Hge].
  - assert (L : k < key p) by (apply C2, Hlt). specialize (IHl S1).
    destruct (locate cmp k l) as [[[xs y] ys]|]; cbn [mbind option_bind]; [exact IHl|].
    intros x [Hx|[->|Hx]%elem_of_cons]%elem_of_app; [auto|lia|].
    specialize (H2 x Hx). unfold klt in H2. lia.
  - assert (L : key p < k).
    { destruct (Z.lt_trichotomy (key p) k) as [?|[?|?]]; [assumption| |].
      - destruct E. apply C1. auto.
      - apply C2 in H. lia. }
    specialize (IHr S2). destruct (locate cmp k r) as [[[xs y] ys]|]; cbn [mbind option_bind]; [exact IHr|].
    intros x [Hx|[->|Hx]%elem_of_cons]%elem_of_app; [|lia|auto].
    specialize (H1 x Hx). unfold klt in H1. lia.
Qed.

Context {U : Type} (update added_node : option (avltree U -> Z -> U)).

(** The tree [t] stands for the map [M]. *)
Definition avl_map (t : avltree U) (M : gmap Z Z) : Prop :=
  exists T, rep t T /\ StronglySorted klt (inorder T) /\
    forall k x, M !! k = Some x <-> x ∈ inorder T /\ key x = k.

Lemma avl_map_insert t M node cmp : compares cmp -> avl_map t M -> node <> 0 ->
  is_Some (a_nodes t !! node) -> (forall k, M !! k <> Some node) ->
  exists t', avltree_insert update added_node t node cmp =
      Ok (bool_decide (M !! key node = None), t') /\ kept t t' /\
    avl_map t' (if M !! key node is Some _ then M else <[key node := node]> M).
Proof.
  intros C (T & R & S & HM) n0 Dn Nn.
  assert (NT : node ∉ inorder T) by (intros H; apply (Nn (key node)), HM; auto).
  pose proof (avl_insert_rep update added_node cmp node t T R n0 Dn NT) as HI.
  pose proof (place_sorted cmp node T C S) as HP.
  destruct (place cmp node T) as [[xs ys]|] eqn:EP.
  - apply place_inorder in EP. rewrite EP in *.
    destruct (HI (respects_no_inv _ _) (fun d _ _ _ => welcomes_no_inv _ _ _ _)) as (t' & T' & E & R' & K & _ & EI).
    destruct HP as [P1 P2].
    assert (EM : M !! key node = None).
    { destruct (M !! key node) as [x|] eqn:EM; [|reflexivity]. apply HM in EM as [Hx Ex].
      apply elem_of_app in Hx as [Hx|Hx]; [specialize (P1 x Hx)|specialize (P2 x Hx)]; unfold klt in *; lia. }
    rewrite EM. exists t'. split; [exact E|]. split; [exact K|]. exists T'. split; [exact R'|]. rewrite EI. split.
    + apply StronglySorted_app in S as (S3 & S1 & S2). apply sorted_mid. auto 6.
    + intros k x. destruct (decide (k = key node)) as [->|Hne].
      * rewrite lookup_insert_eq, elem_of_app, elem_of_cons. split; [intros [= <-]; auto|].
        intros [[H|[->|H]] Ex]; [|reflexivity|]; exfalso;
          assert (M !! key node = Some x) by (apply HM; rewrite elem_of_app; auto); congruence.
      * rewrite lookup_insert_ne by auto. rewrite HM, !elem_of_app, elem_of_cons.
        split; [tauto|]. intros [[H|[->|H]] Ex]; [auto|congruence|auto].
  - destruct HP as (x & Hx & Ex). assert (EM : M !! key node = Some x) by (apply HM; auto).
    rewrite EM. exists t. split; [exact HI|]. split; [apply kept_refl|]. exists T. auto.
Qed.

Lemma avl_map_delete t M k cmp : identifies cmp -> avl_map t M ->
  exists t', avltree_delete update t k cmp = Ok (default 0 (M !! k), t') /\ kept t t' /\
    avl_map t' (delete k M) /\ (forall x, M !! k = Some x -> x <> 0).
Proof.
  intros C (T & R & S & HM). unfold avltree_delete. pose proof R as [-> _].
  pose proof (depth_fuel_enough t [] T R) as Hf.
  pose proof (delete_loop_rep update cmp k (respects_no_inv _) T (depth_fuel t) t [] R ltac:(cbn in Hf; lia)) as HD.
  pose proof (locate_sorted cmp k T C S) as HL.
  destruct (locate cmp k T) as [[[xs y] ys]|].
  - destruct HD as (t' & T' & E & R' & K & y0 & E1 & E2). cbn in E2. rewrite app_nil_r in E2.
    assert (EM : M !! k = Some y).
    { apply HM. split; [rewrite E1, elem_of_app, elem_of_cons; auto|exact HL]. }
    rewrite EM. exists t'. split; [exact E|]. split; [exact K|]. split; [|congruence].
    exists T'. split; [exact R'|]. rewrite E1 in S. apply sorted_mid in S as (S1 & S2 & H1 & H2 & H3).
    rewrite E2. split; [apply StronglySorted_app; auto|].
    intros k' x. destruct (decide (k' = k)) as [->|Hne].
    + rewrite lookup_delete_eq, elem_of_app. split; [discriminate|]. intros [[H|H] Ex].
      * specialize (H1 x H). unfold klt in H1. lia.
      * specialize (H2 x H). unfold klt in H2. lia.
    + rewrite lookup_delete_ne by auto. rewrite HM, E1, !elem_of_app, elem_of_cons.
      split; [|tauto]. intros [[H|[->|H]] Ex]; [auto|congruence|auto].
  - assert (EM : M !! k = None).
    { destruct (M !! k) as [x|] eqn:EM; [|reflexivity]. apply HM in EM as [Hx Ex]. destruct (HL x Hx Ex). }
    rewrite EM. exists t. split; [exact HD|]. split; [apply kept_refl|].
    rewrite delete_id by exact EM. split; [|discriminate]. exists T. auto.
Qed.
End Keys.

(** ** Sequences of operations *)

Inductive aop := AInsert (node : Z) | ADelete (k : Z).
Inductive ares := RInserted (b : bool) | RDeleted (node : Z).

Section Runs.
Context {U : Type} (update added_node : option (avltree U -> Z -> U)) (cmp cmpk : Z -> Z -> Z).

Fixpoint run_aops (t : avltree U) (os : list aop) : outcome (list ares * avltree U) :=
  match os with
  | [] => Ok ([], t)
  | AInsert node :: os =>
      '(b, t) ← avltree_insert update added_node t node cmp;
      '(rs, t) ← run_aops t os; Ok (RInserted b :: rs, t)
  | ADelete k :: os =>
      '(x, t) ← avltree_delete update t k cmpk;
      '(rs, t) ← run_aops t os; Ok (RDeleted x :: rs, t)
  end.

(** The same on a finite map. *)
Fixpoint spec_aops (key : Z -> Z) (M : gmap Z Z) (os : list aop) : list ares :=
  match os with
  | [] => []
  | AInsert node :: os =>
      if M !! key node is Some _ then RInserted false :: spec_aops key M os
      else RInserted true :: spec_aops key (<[key node := node]> M) os
  | ADelete k :: os => RDeleted (default 0 (M !! k)) :: spec_aops key (delete k M) os
  end.

(** A node is inserted only while it is not in the tree. *)
Fixpoint aops_ok (key : Z -> Z) (m : gmap Z avlnode) (M : gmap Z Z) (os : list aop) : Prop :=
  match os with
  | [] => True
  | AInsert node :: os =>
      node <> 0 /\ is_Some (m !! node) /\ M !! key node <> Some node /\
      aops_ok key m (if M !! key node is Some _ then M else <[key node := node]> M) os
  | ADelete k :: os => aops_ok key m (delete k M) os
  end.

Lemma aops_ok_kept key m m' os : dom m' = dom m -> forall M, aops_ok key m M os -> aops_ok key m' M os.
Proof.
  intros D. induction os as [|[node|k] os IH]; cbn; auto. intros M (H0 & H1 & H2 & H3).
  split; [exact H0|]. split; [|auto]. apply elem_of_dom. rewrite D. apply elem_of_dom, H1.
Qed.

Lemma run_aops_refine key os : compares key cmp -> identifies key cmpk ->
  forall t M, avl_map key t M -> aops_ok key (a_nodes t) M os ->
  exists t', run_aops t os = Ok (spec_aops key M os, t').
Proof.
  intros C I. induction os as [|[node|k] os IH]; intros t M HM OK; cbn [run_aops spec_aops]; [eauto| |].
  - destruct OK as (n0 & Dn & Nn & OK).
    destruct (avl_map_insert key update added_node t M node cmp C HM n0 Dn) as (t' & -> & K & HM').
    { intros k E. destruct HM as (T & _ & _ & HM). apply Nn. apply HM in E as [E1 E2]. apply HM. auto. }
    cbn [mbind outcome_bind]. apply (aops_ok_kept _ _ (a_nodes t') _ (proj1 K)) in OK.
    destruct (M !! key node) eqn:EM.
    + destruct (IH _ _ HM' OK) as (t2 & ->). cbn. eauto.
    + destruct (IH _ _ HM' OK) as (t2 & ->). cbn. eauto.
  - destruct (avl_map_delete key update t M k cmpk I HM) as (t' & -> & K & HM' & _).
    cbn [mbind outcome_bind]. apply (aops_ok_kept _ _ (a_nodes t') _ (proj1 K)) in OK.
    destruct (IH _ _ HM' OK) as (t2 & ->). cbn. eauto.
Qed.
End Runs.

Lemma empty_tree_map {U} key (m : gmap Z avlnode) (u : U) : typed m -> avl_map key (Avl m 0 u) ∅.
Proof.
  intros Ty. exists Leaf. split; [split; [reflexivity|]; split; [exact I|]; split; [constructor|exact Ty]|].
  split; [constructor|]. intros k x. rewrite lookup_empty. split; [discriminate|]. intros [H _]. inversion H.
Qed.

(** ** The ends of the order *)

Lemma leftmost_loop_rep {U} (t : avltree U) : forall T c fuel, rep t (plug c T) -> T <> Leaf ->
  (depth T <= fuel)%nat -> leftmost_loop fuel t (root T) = Ok (hd 0 (inorder T)).
Proof.
  induction T as [|l IH p r _]; intros c fuel R HT Hf; [congruence|].
  destruct (rep_node _ _ _ _ _ R) as (h & p0 & Ep). destruct fuel as [|fuel]; [cbn in Hf; lia|].
  cbn [leftmost_loop root]. rewrite Ep. cbn [mbind outcome_bind a_left].
  destruct l as [|ll x lr]; [reflexivity|]. destruct (rep_node t (FL p r :: c) _ _ _ R) as (_ & x0 & _).
  cbn [root]. destruct (Z.eqb_spec x 0); [congruence|]. change x with (root (Br ll x lr)).
  rewrite (IH (FL p r :: c) fuel R ltac:(discriminate)) by (cbn in Hf |- *; lia).
  f_equal. cbn [inorder]. destruct (inorder ll); reflexivity.
Qed.
Lemma last_mid (xs ys : list Z) p d : ys <> [] -> List.last (xs ++ p :: ys) d = List.last ys d.
Proof.
  intros H. destruct (exists_last H) as (zs & z & ->).
  rewrite app_comm_cons, app_assoc, !List.last_last. reflexivity.
Qed.
Lemma rightmost_loop_rep {U} (t : avltree U) : forall T c fuel, rep t (plug c T) -> T <> Leaf ->
  (depth T <= fuel)%nat -> rightmost_loop fuel t (root T) = Ok (List.last (inorder T) 0).
Proof.
  induction T as [|l _ p r IH]; intros c fuel R HT Hf; [congruence|].
  destruct (rep_node _ _ _ _ _ R) as (h & p0 & Ep). destruct fuel as [|fuel]; [cbn in Hf; lia|].
  cbn [rightmost_loop root]. rewrite Ep. cbn [mbind outcome_bind a_right].
  destruct r as [|rl x rr]; [cbn; rewrite List.last_last; reflexivity|].
  destruct (rep_node t (FR l p :: c) _ _ _ R) as (_ & x0 & _).
  cbn [root]. destruct (Z.eqb_spec x 0); [congruence|]. change x with (root (Br rl x rr)).
  rewrite (IH (FR l p :: c) fuel R ltac:(discriminate)) by (cbn in Hf |- *; lia).
  f_equal. symmetry. apply (last_mid (inorder l) (inorder (Br rl x rr)) p 0).
  cbn. destruct (inorder rl); discriminate.
Qed.
Lemma ends_rep {U} (t : avltree U) T : rep t T ->
  avltree_leftmost t = Ok (hd 0 (inorder T)) /\ avltree_rightmost t = Ok (List.last (inorder T) 0).
Proof.
  intros R. unfold avltree_leftmost, avltree_rightmost. pose proof R as [-> _].
  destruct T as [|l p r]; [auto|]. destruct (rep_node t [] _ _ _ R) as (_ & p0 & _). cbn [root].
  destruct (Z.eqb_spec p 0); [congruence|]. change p with (root (Br l p r)).
  pose proof (depth_fuel_enough t [] (Br l p r) R) as Hf. cbn [length] in Hf.
  split; [eapply (leftmost_loop_rep t (Br l p r) [])|eapply (rightmost_loop_rep t (Br l p r) [])];
    (exact R || discriminate || lia).
Qed.

(** ** The properties of the component *)

(** Seven nodes whose addresses are their keys. *)
Definition demo_nodes : gmap Z avlnode :=
  list_to_map ((fun i => (i, AVLNODE_INIT)) <$> [1; 2; 3; 4; 5; 6; 7]).
Definition demo_avl : avltree unit := Avl demo_nodes 0 tt.
Definition demo_cmp (a b : Z) : Z := a - b.
Definition demo_cmpk (a k : Z) : Z := k - a.
Definition demo_aops : list aop :=
  [AInsert 4; AInsert 6; AInsert 2; AInsert 1; AInsert 3; AInsert 5; AInsert 7; ADelete 4; ADelete 9;
   ADelete 6; ADelete 1; AInsert 1; ADelete 2].

Lemma demo_typed : typed demo_nodes.
Proof.
  intros x n H. unfold demo_nodes in H. apply elem_of_list_to_map_2 in H.
  apply list_elem_of_fmap in H as (i & [= _ ->] & _). unfold is_u. cbn. lia.
Qed.

(** C7: any sequence of insertions and deletions on an empty tree, with
    comparators that compare keys and whatever the callbacks do to the owner's
    state, terminates without touching a node outside the tree and answers as a
    finite map from keys to nodes: an insertion succeeds exactly when its key is
    new, and a deletion returns the node of its key or NULL. *)
Theorem avl_ops_refine {U} (update added_node : option (avltree U -> Z -> U)) cmp cmpk key m u os :
  compares key cmp -> identifies key cmpk -> typed m -> aops_ok key m ∅ os ->
  exists t', run_aops update added_node cmp cmpk (Avl m 0 u) os = Ok (spec_aops key ∅ os, t').
Proof. intros C I Ty OK. apply run_aops_refine; auto. apply empty_tree_map, Ty. Qed.

Lemma avl_ops_refine_witness :
  (exists t', run_aops None None demo_cmp demo_cmpk demo_avl demo_aops =
     Ok (spec_aops (fun x => x) ∅ demo_aops, t')) /\
  spec_aops (fun x => x) ∅ demo_aops =
    [RInserted true; RInserted true; RInserted true; RInserted true; RInserted true; RInserted true;
     RInserted true; RDeleted 4; RDeleted 0; RDeleted 6; RDeleted 1; RInserted true; RDeleted 2].
Proof.
  split; [|vm_compute; reflexivity].
  apply (avl_ops_refine None None demo_cmp demo_cmpk (fun x => x) demo_nodes tt demo_aops).
  - intros a b. unfold demo_cmp. lia.
  - intros a k. unfold demo_cmpk. lia.
  - apply demo_typed.
  - cbn. repeat (split; [discriminate || (eexists; vm_compute; reflexivity) || (vm_compute; discriminate)|]).
    exact I.
Defined.

(** C24: inserting a node at any comparator keeps the tree well formed (parent and
    child pointers agree, no node twice, heights within 32 bits) and puts the node
    at the place of the in-order sequence the comparator chose, or changes
    nothing when the comparator reports a match. *)
Theorem avl_insert_order {U} (update added_node : option (avltree U -> Z -> U)) cmp t T node :
  rep t T -> node <> 0 -> is_Some (a_nodes t !! node) -> node ∉ inorder T ->
  match place cmp node T with
  | None => avltree_insert update added_node t node cmp = Ok (false, t)
  | Some (xs, ys) => inorder T = xs ++ ys /\
      exists t' T', avltree_insert update added_node t node cmp = Ok (true, t') /\
        rep t' T' /\ inorder T' = xs ++ node :: ys
  end.
Proof.
  intros R n0 Dn Nn. pose proof (avl_insert_rep update added_node cmp node t T R n0 Dn Nn) as H.
  destruct (place cmp node T) as [[xs ys]|] eqn:E; [|exact H]. apply place_inorder in E. split; [exact E|].
  destruct (H (respects_no_inv _ _) (fun d _ _ _ => welcomes_no_inv _ _ _ _)) as (t' & T' & E' & R' & _ & _ & EI). eauto.
Qed.

Lemma demo_empty_rep : rep demo_avl Leaf.
Proof. split; [reflexivity|]. split; [exact I|]. split; [constructor|exact demo_typed]. Qed.
Lemma avl_insert_order_witness :
  exists t' T', avltree_insert None None demo_avl 4 demo_cmp = Ok (true, t') /\ rep t' T' /\ inorder T' = [4].
Proof.
  pose proof (avl_insert_order None None demo_cmp demo_avl Leaf 4 demo_empty_rep ltac:(discriminate)
    ltac:(eexists; vm_compute; reflexivity) ltac:(apply not_elem_of_nil)) as [_ H]. exact H.
Defined.

(** C25: removing a node of the tree, with any number of children and whatever heights
    are stored, keeps the tree well formed and takes exactly that node out of the
    in-order sequence; the ends of the sequence are what avltree_leftmost and
    avltree_rightmost return. *)
Theorem avl_delete_node_order {U} (update : option (avltree U -> Z -> U)) t c l n r :
  rep t (plug c (Br l n r)) ->
  exists t' T', avltree_delete_node update t n = Ok t' /\ rep t' T' /\
    inorder (plug c (Br l n r)) = (before c ++ inorder l) ++ n :: inorder r ++ after c /\
    inorder T' = (before c ++ inorder l) ++ inorder r ++ after c /\
    avltree_leftmost t' = Ok (hd 0 (inorder T')) /\
    avltree_rightmost t' = Ok (List.last (inorder T') 0).
Proof.
  intros R. destruct (delete_node_rep update t c l n r R (respects_no_inv _ _)) as (t' & T' & E & R' & _ & EI).
  destruct (ends_rep t' T' R') as [E1 E2]. exists t', T'. split; [exact E|]. split; [exact R'|].
  split; [rewrite inorder_plug; cbn; repeat (rewrite <- ?app_assoc; cbn); reflexivity|].
  split; [rewrite EI, <- !app_assoc; reflexivity|]. auto.
Qed.

(** 2 with the children 1 and 3. *)
Definition three_nodes : gmap Z avlnode :=
  {[1 := AvlNode 2 0 0 1; 2 := AvlNode 0 1 3 2; 3 := AvlNode 2 0 0 1]}.
Definition three_avl : avltree unit := Avl three_nodes 2 tt.
Lemma three_rep : rep three_avl (Br (Br Leaf 1 Leaf) 2 (Br Leaf 3 Leaf)).
Proof.
  split; [reflexivity|]. split; [|split].
  - vm_compute. repeat split; discriminate.
  - apply (bool_decide_unpack _). vm_compute. exact I.
  - intros x n H. cbn in H. unfold three_nodes in H.
    rewrite !lookup_insert_Some, lookup_singleton_Some in H. unfold is_u.
    destruct H as [[_ <-]|(_ & [[_ <-]|(_ & _ & <-)])]; cbn; lia.
Qed.
Lemma avl_delete_node_order_witness :
  exists t' T', avltree_delete_node None three_avl 2 = Ok t' /\ rep t' T' /\
    [1; 2; 3] = [1] ++ 2 :: [3] /\ inorder T' = [1] ++ [3] /\
    avltree_leftmost t' = Ok (hd 0 (inorder T')) /\ avltree_rightmost t' = Ok (List.last (inorder T') 0).
Proof. exact (avl_delete_node_order None three_avl [] (Br Leaf 1 Leaf) 2 (Br Leaf 3 Leaf) three_rep). Defined.

(** ** What does not hold *)

(** The true height of the tree below [x] and whether it is balanced. *)
Fixpoint shape_of (fuel : nat) (m : gmap Z avlnode) (x : Z) : Z * bool :=
  match fuel with
  | O => (0, true)
  | S fuel =>
      match m !! x with
      | Some n =>
          let '(a, p) := shape_of fuel m (a_left n) in
          let '(b, q) := shape_of fuel m (a_right n) in
          (1 + Z.max a b, p && q && (Z.abs (a - b) <=? 1))
      | None => (0, true)
      end
  end.

(** The first double rotation leaves the height of a leaf at 2. *)
Lemma double_rotation_stale_height :
  match run_aops None None demo_cmp demo_cmpk demo_avl (AInsert <$> [1; 3; 2]) with
  | Ok (_, t) => a_nodes t !! 3 = Some (AvlNode 2 0 0 2)
  | _ => False
  end.
Proof. vm_compute. reflexivity. Qed.

(** Six insertions are enough for a tree that is not balanced. *)
Lemma insertions_unbalanced :
  match run_aops None None demo_cmp demo_cmpk demo_avl (AInsert <$> [1; 2; 3; 6; 5; 4]) with
  | Ok (_, t) => (shape_of 8 (a_nodes t) (a_root t)).2 = false
  | _ => False
  end.
Proof. vm_compute. reflexivity. Qed.

(** The successor of the last node of the order is its parent. *)
Lemma successor_wrong : avlnode_successor three_avl 3 = Ok 2.
Proof. reflexivity. Qed.
