(* ===== verification/Time.v ===== *)
(** * Calendar time: lib/time.c and the inline functions of lib/time.h

    Times are [struct timespec] and [struct tm]; enumerations are their integer
    values, since the code counts with them.  A static string view is its
    characters.  The reference is the proleptic Gregorian calendar by day numbers:
    [year_start y] is the number of the 1st of January of year [y], day 0 being
    the 1st of January 1970. *)

From Stdlib Require Import String.
From stdpp Require Import strings.
From S2P Require Import Prelude Arith.

Definition SECONDS_IN_MINUTE : Z := 60.
Definition MINUTES_IN_HOUR : Z := 60.
Definition SECONDS_IN_DAYS : Z := 60 * 60 * 24.
Definition MIN_DAYS_IN_YEAR : Z := 365.
Definition NANO_IN_SECONDS : Z := 1000 * 1000 * 1000.

Definition WEEKDAY_COUNT : Z := 7.
Definition MONTH_COUNT : Z := 12.
Definition weekday_valid (day : Z) : bool := (0 <=? day) && (day <=? 6).
Definition month_valid (month : Z) : bool := (1 <=? month) && (month <=? 12).

(** [verify_not_reached()] of a debug build. *)
Definition verify_not_reached {A} : outcome A := Panic.

(** ** Hours *)

Definition hour12_to_24hour (hour : Z) (is_pm : bool) : Z :=
  if is_pm then u8 (hour mod 12 + 12) else u8 (hour mod 12).
Definition hour24_to_12hour (hour : Z) : Z :=
  let result := hour mod 12 in if negb (result =? 0) then result else 12.
Definition hour24_is_pm (hour : Z) : bool := 12 <=? hour.

(** ** Days, months and years *)

Definition weekday_to_decimal_monday_one (weekday : Z) : Z :=
  if negb (weekday =? 0) then u8 weekday else WEEKDAY_COUNT.

Definition month_get_day_count (month : Z) (in_leap_year : bool) : outcome Z :=
  match month with
  | 2 => Ok (if in_leap_year then 29 else 28)
  | 1 | 3 | 5 | 7 | 8 | 10 | 12 => Ok 31
  | 4 | 6 | 9 | 11 => Ok 30
  | _ => verify_not_reached
  end.

(** [days_since_jan_1 - (unsigned)weekday] wraps at 32 bits; [delta] has 64. *)
Definition get_week_count_at_day (weekday days_since_jan_1 : Z) (is_monday_first : bool) : Z :=
  let delta := if is_monday_first then (if negb (weekday =? 0) then WEEKDAY_COUNT + 1 else 1)
               else WEEKDAY_COUNT in
  u8 (u64 (u32 (days_since_jan_1 - u32 weekday) + delta) / WEEKDAY_COUNT).

Definition month_to_tm_mon (month : Z) : outcome Z :=
  _ ← c_assert (negb (month =? 0)); Ok (i32 (month - 1)).
Definition tm_mon_to_month (tm_mon : Z) : Z := i32 (tm_mon + 1).

Definition year_is_leap_year (year : Z) : bool :=
  (Z.land year 3 =? 0) && (negb (year mod 100 =? 0) || (year mod 400 =? 0)).
Definition year_get_day_count (year : Z) : Z :=
  MIN_DAYS_IN_YEAR + if year_is_leap_year year then 1 else 0.
Definition year_to_tm_year (year : Z) : outcome Z :=
  _ ← c_assert (year <=? INT32_MAX); Ok (year - 1900).
Definition tm_year_to_year (tm_year : Z) : outcome Z := check_add_assert_w 64 (u64 tm_year) 1900.

Definition weekday_prev (weekday : Z) : Z := if negb (weekday =? 0) then weekday - 1 else 6.
Definition weekday_next (weekday : Z) : Z := (weekday + 1) mod WEEKDAY_COUNT.

(** The characters of the literal [bed=pen+mad.] *)
Definition weekday_table : list Z := [98; 101; 100; 61; 112; 101; 110; 43; 109; 97; 100; 46].
Definition day_of_month_to_weekday (year month day : Z) : outcome Z :=
  let year := if month <? 3 then u64 (year - 1) else year in
  if month =? 0 then Undef else
  match weekday_table !! Z.to_nat (month - 1) with
  | Some c =>
      Ok (u64 (u64 (u64 (u64 (u64 (year + year / 4) - year / 100) + year / 400) + c) + day) mod WEEKDAY_COUNT)
  | None => Undef
  end.

Definition day_table : list Z := [0; 31; 59; 90; 120; 151; 181; 212; 243; 273; 304; 334].
Definition day_of_month_to_day_of_year (day_in_month month : Z) (in_leap_year : bool) : outcome Z :=
  _ ← c_assert (month_valid month);
  match day_table !! Z.to_nat (month - 1) with
  | Some days_preceding_month =>
      Ok (u16 ((if in_leap_year && (2 <? month) then days_preceding_month + 1
                else days_preceding_month) + day_in_month))
  | None => Undef
  end.

(** ** Broken-down time *)

Record tm := Tm {
  tm_sec : Z; tm_min : Z; tm_hour : Z; tm_mday : Z; tm_mon : Z; tm_year : Z;
  tm_wday : Z; tm_yday : Z; tm_isdst : Z
}.

(** The two loops of [tm_from_stamp]; a year takes 365 days at least, a month 28. *)
Fixpoint year_loop (fuel : nat) (day_of_year year : Z) : outcome (Z * Z) :=
  if MIN_DAYS_IN_YEAR <=? day_of_year then
    match fuel with
    | O => Diverge
    | S fuel => year_loop fuel (day_of_year - year_get_day_count year) (u64 (year + 1))
    end
  else Ok (day_of_year, year).
Fixpoint month_loop (fuel : nat) (day_of_month month : Z) (is_leap_year : bool) : outcome (Z * Z) :=
  count ← month_get_day_count month is_leap_year;
  if count <=? day_of_month then
    match fuel with
    | O => Diverge
    | S fuel => month_loop fuel (day_of_month - count) (month + 1) is_leap_year
    end
  else Ok (day_of_month, month).

Definition tm_from_stamp (timestamp : Z) : outcome tm :=
  let seconds_of_day := i32 (timestamp mod SECONDS_IN_DAYS) in
  let minutes_of_day := seconds_of_day / SECONDS_IN_MINUTE in
  let hour_of_day := minutes_of_day / MINUTES_IN_HOUR in
  let seconds_of_minute := seconds_of_day mod SECONDS_IN_MINUTE in
  let minutes_of_hour := minutes_of_day mod MINUTES_IN_HOUR in
  let day_of_year := i32 (timestamp / SECONDS_IN_DAYS) in
  '(day_of_year, year) ← year_loop (S (Z.to_nat (day_of_year / MIN_DAYS_IN_YEAR))) day_of_year 1970;
  let is_leap_year := year_is_leap_year year in
  '(day_of_month, month) ← month_loop 12 day_of_year 1 is_leap_year;
  mon ← month_to_tm_mon month;
  y ← year_to_tm_year year;
  wday ← day_of_month_to_weekday year month (u8 (day_of_month + 1));
  Ok (Tm seconds_of_minute minutes_of_hour hour_of_day (day_of_month + 1) mon y wday day_of_year 0).

(** [verify_not_reached] for an invalid weekday of January 1 cannot be reached; the
    recursive call is for the 31st of December, which does not recurse again. *)
Fixpoint iso_8601_get_week_number (fuel : nat) (weekday month year day_in_month days_since_jan_1 : Z)
    : outcome Z :=
  _ ← c_assert (weekday_valid weekday);
  _ ← c_assert (month_valid month);
  let jan_1_weekday := weekday - days_since_jan_1 mod WEEKDAY_COUNT in
  let jan_1_weekday := if jan_1_weekday <? 0 then jan_1_weekday + WEEKDAY_COUNT else jan_1_weekday in
  let week_number := get_week_count_at_day weekday days_since_jan_1 true in
  week_number ←
    match jan_1_weekday with
    | 1 => Ok week_number
    | 2 | 3 | 4 => Ok (u8 (week_number + 1))
    | 5 | 6 | 0 =>
        if negb (week_number =? 0) then Ok week_number
        else match fuel with
             | O => Diverge
             | S fuel =>
                 iso_8601_get_week_number fuel (weekday_prev weekday) 12 (u64 (year - 1)) 31
                   (year_get_day_count (u64 (year - 1)) - 1)
             end
    | _ => verify_not_reached
    end;
  if month =? 12 then
    match weekday with
    | 1 => Ok (if (29 <=? day_in_month) && (day_in_month <=? 31) then 1 else week_number)
    | 2 => Ok (if (30 <=? day_in_month) && (day_in_month <=? 31) then 1 else week_number)
    | 3 => Ok (if day_in_month =? 31 then 1 else week_number)
    | 4 | 5 | 6 | 0 => Ok week_number
    | _ => verify_not_reached
    end
  else Ok week_number.

(** ** struct timespec *)

Record timespec := Timespec { tv_sec : Z; tv_nsec : Z }.

Definition timespec_add (l r : timespec) : option timespec :=
  let sum := u64 (tv_nsec l + tv_nsec r) in
  nsec ← (if negb (sum / NANO_IN_SECONDS =? 0)
          then _ ← check_add_w 64 (tv_sec l) 1; Some (sum mod NANO_IN_SECONDS)
          else check_add_w 64 (tv_nsec l) (tv_nsec r));
  sec ← check_add_w 64 (tv_sec l) (tv_sec r);
  Some (Timespec sec nsec).

Definition timespec_sub (l r : timespec) : option timespec :=
  if tv_sec l <? tv_sec r then None
  else
    let sec := u64 (tv_sec l - tv_sec r) in
    if tv_nsec l <? tv_nsec r then
      if sec =? 0 then None
      else Some (Timespec (u64 (sec - 1)) (u64 (u64 (NANO_IN_SECONDS - 1) - u64 (tv_nsec r - tv_nsec l))))
    else Some (Timespec sec (u64 (tv_nsec l - tv_nsec r))).

Definition timespec_compare (l r : timespec) : Z :=
  if tv_sec r <? tv_sec l then 1
  else if tv_sec l <? tv_sec r then -1
  else if tv_nsec r <? tv_nsec l then 1
  else if tv_nsec l <? tv_nsec r then -1
  else 0.

(** ** Names: static string views, represented by their characters *)

Open Scope string_scope.

Definition weekday_to_sv (day : Z) : outcome string :=
  match day with
  | 0 => Ok "Sunday" | 1 => Ok "Monday" | 2 => Ok "Tuesday" | 3 => Ok "Wednesday"
  | 4 => Ok "Thursday" | 5 => Ok "Friday" | 6 => Ok "Saturday"
  | _ => verify_not_reached
  end.
Definition weekday_to_sv_upper (day : Z) : outcome string :=
  match day with
  | 0 => Ok "SUNDAY" | 1 => Ok "MONDAY" | 2 => Ok "TUESDAY" | 3 => Ok "WEDNESDAY"
  | 4 => Ok "THURSDAY" | 5 => Ok "FRIDAY" | 6 => Ok "SATURDAY"
  | _ => verify_not_reached
  end.
Definition weekday_to_sv_abbrev (day : Z) : outcome string :=
  match day with
  | 0 => Ok "Sun" | 1 => Ok "Mon" | 2 => Ok "Tue" | 3 => Ok "Wed"
  | 4 => Ok "Thu" | 5 => Ok "Fri" | 6 => Ok "Sat"
  | _ => verify_not_reached
  end.
Definition weekday_to_sv_abbrev_upper (day : Z) : outcome string :=
  match day with
  | 0 => Ok "SUN" | 1 => Ok "MON" | 2 => Ok "TUE" | 3 => Ok "WED"
  | 4 => Ok "THU" | 5 => Ok "FRI" | 6 => Ok "SAT"
  | _ => verify_not_reached
  end.
Definition month_to_sv (month : Z) : outcome string :=
  match month with
  | 1 => Ok "January" | 2 => Ok "February" | 3 => Ok "March" | 4 => Ok "April"
  | 5 => Ok "May" | 6 => Ok "June" | 7 => Ok "July" | 8 => Ok "August"
  | 9 => Ok "September" | 10 => Ok "October" | 11 => Ok "November" | 12 => Ok "December"
  | _ => verify_not_reached
  end.
Definition month_to_sv_upper (month : Z) : outcome string :=
  match month with
  | 1 => Ok "JANUARY" | 2 => Ok "FEBRUARY" | 3 => Ok "MARCH" | 4 => Ok "APRIL"
  | 5 => Ok "MAY" | 6 => Ok "JUNE" | 7 => Ok "JULY" | 8 => Ok "AUGUST"
  | 9 => Ok "SEPTEMBER" | 10 => Ok "OCTOBER" | 11 => Ok "NOVEMBER" | 12 => Ok "DECEMBER"
  | _ => verify_not_reached
  end.
Definition month_to_sv_abbrev (month : Z) : outcome string :=
  match month with
  | 1 => Ok "Jan" | 2 => Ok "Feb" | 3 => Ok "Mar" | 4 => Ok "Apr"
  | 5 => Ok "May" | 6 => Ok "Jun" | 7 => Ok "Jul" | 8 => Ok "Aug"
  | 9 => Ok "Sep" | 10 => Ok "Oct" | 11 => Ok "Nov" | 12 => Ok "Dec"
  | _ => verify_not_reached
  end.
Definition month_to_sv_abbrev_upper (month : Z) : outcome string :=
  match month with
  | 1 => Ok "JAN" | 2 => Ok "FEB" | 3 => Ok "MAR" | 4 => Ok "APR"
  | 5 => Ok "MAY" | 6 => Ok "JUN" | 7 => Ok "JUL" | 8 => Ok "AUG"
  | 9 => Ok "SEP" | 10 => Ok "OCT" | 11 => Ok "NOV" | 12 => Ok "DEC"
  | _ => verify_not_reached
  end.

(** [sv_equals] in turn; the last line is [WEEKDAY_INVALID] or [MONTH_INVALID]. *)
Definition sv_to_weekday (sv : string) : Z :=
  if String.eqb sv "Sunday" then 0
  else if String.eqb sv "Monday" then 1
  else if String.eqb sv "Tuesday" then 2
  else if String.eqb sv "Wednesday" then 3
  else if String.eqb sv "Thursday" then 4
  else if String.eqb sv "Friday" then 5
  else if String.eqb sv "Saturday" then 6
  else -1.
Definition sv_to_month (sv : string) : Z :=
  if String.eqb sv "January" then 1
  else if String.eqb sv "February" then 2
  else if String.eqb sv "March" then 3
  else if String.eqb sv "April" then 4
  else if String.eqb sv "May" then 5
  else if String.eqb sv "June" then 6
  else if String.eqb sv "July" then 7
  else if String.eqb sv "August" then 8
  else if String.eqb sv "September" then 9
  else if String.eqb sv "October" then 10
  else if String.eqb sv "November" then 11
  else if String.eqb sv "December" then 12
  else 0.
Definition sv_abbrev_to_weekday (sv : string) : Z :=
  if String.eqb sv "Sun" then 0
  else if String.eqb sv "Mon" then 1
  else if String.eqb sv "Tue" then 2
  else if String.eqb sv "Wed" then 3
  else if String.eqb sv "Thu" then 4
  else if String.eqb sv "Fri" then 5
  else if String.eqb sv "Sat" then 6
  else -1.
Definition sv_abbrev_to_month (sv : string) : Z :=
  if String.eqb sv "Jan" then 1
  else if String.eqb sv "Feb" then 2
  else if String.eqb sv "Mar" then 3
  else if String.eqb sv "Apr" then 4
  else if String.eqb sv "May" then 5
  else if String.eqb sv "Jun" then 6
  else if String.eqb sv "Jul" then 7
  else if String.eqb sv "Aug" then 8
  else if String.eqb sv "Sep" then 9
  else if String.eqb sv "Oct" then 10
  else if String.eqb sv "Nov" then 11
  else if String.eqb sv "Dec" then 12
  else 0.

Close Scope string_scope.

(** ** The calendar by day numbers *)

Definition leaps (y : Z) : Z := y / 4 - y / 100 + y / 400.
Definition year_start (y : Z) : Z := 365 * (y - 1970) + leaps (y - 1) - leaps 1969.
Definition month_len (leap : bool) (m : Z) : Z :=
  match m with
  | 2 => if leap then 29 else 28
  | 4 | 6 | 9 | 11 => 30
  | _ => 31
  end.
(** The days of the year before month [m]. *)
Definition month_start (leap : bool) (m : Z) : Z :=
  foldr Z.add 0 (month_len leap <$> seqZ 1 (m - 1)).

(** [md]/[m]/[y] is the date of day [d]. *)
Definition date_of_day (d y m md : Z) : Prop :=
  1 <= m <= 12 /\ 1 <= md <= month_len (year_is_leap_year y) m /\
  d = year_start y + month_start (year_is_leap_year y) m + (md - 1).

Lemma leap_year_spec y : 0 <= y ->
  year_is_leap_year y = (y mod 4 =? 0) && (negb (y mod 100 =? 0) || (y mod 400 =? 0)).
Proof.
  intros H. unfold year_is_leap_year. change 3 with (Z.ones 2). rewrite Z.land_ones by lia. reflexivity.
Qed.
Lemma leaps_step y : 1 <= y -> leaps y = leaps (y - 1) + if year_is_leap_year y then 1 else 0.
Proof.
  intros H. rewrite leap_year_spec by lia. unfold leaps.
  destruct (Z.eqb_spec (y mod 4) 0), (Z.eqb_spec (y mod 100) 0), (Z.eqb_spec (y mod 400) 0);
    cbn [andb orb negb]; dlia.
Qed.
Lemma year_start_step y : 1 <= y -> year_start (y + 1) = year_start y + year_get_day_count y.
Proof.
  intros H. unfold year_start, year_get_day_count, MIN_DAYS_IN_YEAR.
  replace (y + 1 - 1) with y by lia. rewrite (leaps_step y) by lia. destruct (year_is_leap_year y); lia.
Qed.
Lemma year_get_day_count_pos y : 365 <= year_get_day_count y <= 366.
Proof. unfold year_get_day_count, MIN_DAYS_IN_YEAR. destruct (year_is_leap_year y); lia. Qed.

Lemma month_get_day_count_len leap m : 1 <= m <= 12 -> month_get_day_count m leap = Ok (month_len leap m).
Proof.
  intros H. assert (E : m = 1 \/ m = 2 \/ m = 3 \/ m = 4 \/ m = 5 \/ m = 6 \/ m = 7 \/ m = 8 \/ m = 9 \/
    m = 10 \/ m = 11 \/ m = 12) by lia.
  destruct leap; repeat destruct E as [->|E]; subst; reflexivity.
Qed.

(** Case analysis on a month. *)
Ltac months m :=
  let E := fresh in
  assert (E : m = 1 \/ m = 2 \/ m = 3 \/ m = 4 \/ m = 5 \/ m = 6 \/ m = 7 \/ m = 8 \/ m = 9 \/
    m = 10 \/ m = 11 \/ m = 12) by lia;
  repeat (destruct E as [->|E]); [..|subst m].

Lemma month_start_step leap m : 1 <= m <= 12 -> month_start leap (m + 1) = month_start leap m + month_len leap m.
Proof. intros H. months m; destruct leap; reflexivity. Qed.
Lemma month_start_13 leap : month_start leap 13 = 365 + if leap then 1 else 0.
Proof. destruct leap; reflexivity. Qed.
Lemma month_len_pos leap m : 28 <= month_len leap m <= 31.
Proof. unfold month_len. repeat (case_match; try lia). Qed.

Lemma year_loop_spec fuel : forall doy year, 1970 <= year -> 0 <= doy < 365 * (Z.of_nat fuel + 1) ->
  year + Z.of_nat fuel < 2 ^ 40 ->
  exists doy' year', year_loop fuel doy year = Ok (doy', year') /\
    year <= year' <= year + Z.of_nat fuel /\ doy' < 365 /\
    year_start year' + doy' = year_start year + doy /\
    (0 <= doy' \/ (doy' = -1 /\ year < year' /\ year_is_leap_year (year' - 1) = true)).
Proof.
  induction fuel as [|fuel IH]; intros doy year Hy Hd Hb; cbn [year_loop]; unfold MIN_DAYS_IN_YEAR;
    (destruct (Z.leb_spec 365 doy) as [Hle|Hlt];
     [|exists doy, year; split; [reflexivity|]; split; [lia|]; split; [lia|]; split; [reflexivity|lia]]); [lia|].
  pose proof (year_get_day_count_pos year) as Hc.
  rewrite (wrap_small 64 (year + 1)) by (unfold is_u; lia).
  destruct (Z.le_gt_cases 0 (doy - year_get_day_count year)) as [Hnn|Hneg].
  - destruct (IH (doy - year_get_day_count year) (year + 1)) as (d' & y' & E & H1 & H2 & H3 & H4); try lia.
    exists d', y'. split; [exact E|]. split; [lia|]. split; [exact H2|].
    split; [rewrite H3, year_start_step by lia; lia|]. destruct H4 as [H4|(H4 & H5 & H6)]; [auto|].
    right. split; [exact H4|]. split; [lia|exact H6].
  - exists (doy - year_get_day_count year), (year + 1).
    assert (El : year_is_leap_year year = true /\ doy - year_get_day_count year = -1).
    { unfold year_get_day_count, MIN_DAYS_IN_YEAR in *. destruct (year_is_leap_year year); split; lia || reflexivity. }
    destruct El as [El Ed]. rewrite Ed. split; [destruct fuel; reflexivity|]. split; [lia|]. split; [lia|].
    rewrite year_start_step by lia. split; [lia|]. right. split; [reflexivity|]. split; [lia|].
    replace (year + 1 - 1) with year by lia. exact El.
Qed.

Lemma month_loop_spec leap fuel : forall dom m, 1 <= m -> m + Z.of_nat fuel = 13 -> 0 <= dom ->
  month_start leap m + dom < month_start leap 13 ->
  exists dom' m', month_loop fuel dom m leap = Ok (dom', m') /\ m <= m' <= 12 /\
    0 <= dom' < month_len leap m' /\ month_start leap m' + dom' = month_start leap m + dom.
Proof.
  induction fuel as [|fuel IH]; intros dom m Hm Hf Hd Hb.
  - replace m with 13 in Hb by lia. lia.
  - cbn [month_loop]. rewrite month_get_day_count_len by lia. cbn [mbind outcome_bind].
    destruct (Z.leb_spec (month_len leap m) dom) as [Hle|Hlt].
    + destruct (IH (dom - month_len leap m) (m + 1)) as (d' & m' & E & H1 & H2 & H3); try lia.
      { rewrite month_start_step by lia. lia. }
      exists d', m'. split; [exact E|]. split; [lia|]. split; [exact H2|].
      rewrite H3, month_start_step by lia. lia.
    + exists dom, m. split; [reflexivity|]. split; [lia|]. split; [lia|reflexivity].
Qed.

(** The congruence agrees with counting days from a Thursday. *)
Lemma weekday_spec y m day : 1 <= y < 2 ^ 40 -> 1 <= m <= 12 -> 0 <= day < 2 ^ 8 ->
  day_of_month_to_weekday y m day =
  Ok ((year_start y + month_start (year_is_leap_year y) m + (day - 1) + 4) mod 7).
Proof.
  intros Hy Hm Hd. pose proof (leaps_step y ltac:(lia)) as HL. unfold year_start.
  assert (E : forall a c, 0 <= a < 2 ^ 40 -> 0 <= c < 2 ^ 8 ->
    u64 (u64 (u64 (u64 (u64 (a + a / 4) - a / 100) + a / 400) + c) + day) = a + leaps a + c + day).
  { intros a c Ha Hc. unfold leaps. clear HL. assert (0 <= a / 4 <= a) by dlia.
    assert (0 <= a / 100 <= a / 4) by dlia. assert (0 <= a / 400 <= a / 100) by dlia.
    generalize dependent (a / 4). intros q4. generalize dependent (a / 100). intros q100.
    generalize dependent (a / 400). intros q400 ? ? ?. unfold wrap.
    rewrite (Z.mod_small (a + q4)), (Z.mod_small (a + q4 - q100)), (Z.mod_small (a + q4 - q100 + q400)),
      (Z.mod_small (a + q4 - q100 + q400 + c)), Z.mod_small; lia. }
  unfold day_of_month_to_weekday, WEEKDAY_COUNT.
  assert (E1 : u64 (y - 1) = y - 1) by (apply wrap_small; unfold is_u; lia).
  assert (H0 : leaps 1969 = 477) by reflexivity.
  months m; cbn [Z.ltb Z.compare Pos.compare Pos.compare_cont Z.eqb Pos.eqb];
    (match goal with |- context[weekday_table !! ?n] =>
       let v := eval vm_compute in (weekday_table !! n) in change (weekday_table !! n) with v end;
     cbv beta iota; rewrite ?E1, E by lia; f_equal);
    destruct (year_is_leap_year y);
    repeat match goal with |- context[month_start ?b ?m] =>
      let v := eval vm_compute in (month_start b m) in change (month_start b m) with v end;
    rewrite ?H0; try rewrite HL; dlia.
Qed.

(** ** Timestamps *)

Definition DAY_LIMIT : Z := 2 ^ 31.

(** The fields of the time of day. *)
Definition clock_of (ts : Z) (t : tm) : Prop :=
  0 <= tm_sec t < 60 /\ 0 <= tm_min t < 60 /\ 0 <= tm_hour t < 24 /\
  tm_hour t * 3600 + tm_min t * 60 + tm_sec t = ts mod 86400 /\ tm_isdst t = 0.

Lemma stamp_date ts : 0 <= ts < DAY_LIMIT * 86400 ->
  exists t y, tm_from_stamp ts = Ok t /\ clock_of ts t /\
    let d := ts / 86400 in
    year_start y <= d < year_start (y + 1) /\ tm_wday t = (d + 4) mod 7 /\
    if year_is_leap_year y && (d - year_start y =? 365)
    then tm_year t + 1900 = y + 1 /\ tm_mon t = 0 /\ tm_mday t = 0 /\ tm_yday t = -1
    else tm_year t + 1900 = y /\ date_of_day d y (tm_mon t + 1) (tm_mday t) /\
         tm_yday t = d - year_start y.
Proof.
  unfold DAY_LIMIT. intros Hts. set (d := ts / 86400). assert (Hd : 0 <= d < 2 ^ 31) by (unfold d; dlia).
  unfold tm_from_stamp. change SECONDS_IN_DAYS with 86400. fold d.
  assert (Hr : 0 <= ts mod 86400 < 86400) by dlia.
  rewrite (i32_id d), (i32_id (ts mod 86400)) by lia. unfold MIN_DAYS_IN_YEAR, SECONDS_IN_MINUTE, MINUTES_IN_HOUR.
  destruct (year_loop_spec (S (Z.to_nat (d / 365))) d 1970) as (doy & y & -> & Hy & Hlt & HS & Hc).
  { lia. } { rewrite Nat2Z.inj_succ, Z2Nat.id by dlia. dlia. }
  { rewrite Nat2Z.inj_succ, Z2Nat.id by dlia. dlia. }
  change (year_start 1970) with 0 in HS. rewrite Nat2Z.inj_succ, Z2Nat.id in Hy by dlia.
  assert (Hy' : 1970 <= y <= 1970 + 5883517) by dlia. clear Hy.
  cbn [mbind outcome_bind].
  assert (Eyt : (y <=? INT32_MAX) = true) by (unfold INT32_MAX; apply Z.leb_le; lia).
  assert (Clock : forall a b c e, clock_of ts (Tm (ts mod 86400 mod 60) (ts mod 86400 / 60 mod 60)
    (ts mod 86400 / 60 / 60) a b c e doy 0)).
  { intros a b c e. unfold clock_of. cbn. clear - Hr. revert Hr. generalize (ts mod 86400). intros x Hr. dlia. }
  destruct Hc as [H0|(-> & H1 & HL)].
  - assert (Hs : year_start (y + 1) = year_start y + year_get_day_count y) by (apply year_start_step; lia).
    pose proof (year_get_day_count_pos y) as Hp.
    destruct (month_loop_spec (year_is_leap_year y) 12 doy 1) as (dom & m & -> & Hm & Hdom & HM); try lia.
    { rewrite month_start_13. change (month_start (year_is_leap_year y) 1) with 0. destruct (year_is_leap_year y); lia. }
    change (month_start (year_is_leap_year y) 1) with 0 in HM. cbn [mbind outcome_bind].
    unfold month_to_tm_mon, year_to_tm_year. destruct (Z.eqb_spec m 0) as [?|_]; [lia|].
    rewrite Eyt. cbn [negb c_assert mbind outcome_bind]. pose proof (month_len_pos (year_is_leap_year y) m) as HLn.
    rewrite (wrap_small 8) by (unfold is_u; lia). rewrite weekday_spec by lia. cbn [mbind outcome_bind].
    rewrite (i32_id (m - 1)) by lia. eexists _, y. split; [reflexivity|]. split; [apply Clock|]. cbv zeta. split; [lia|].
    cbn [tm_wday tm_year tm_mon tm_mday tm_yday]. split; [f_equal; lia|].
    destruct (Z.eqb_spec (d - year_start y) 365) as [?|_]; [lia|]. rewrite andb_false_r.
    split; [lia|]. split; [|lia]. unfold date_of_day. replace (m - 1 + 1) with m by lia. lia.
  - assert (Hs : year_start y = year_start (y - 1) + year_get_day_count (y - 1)).
    { rewrite <- year_start_step by lia. f_equal. lia. }
    unfold year_get_day_count, MIN_DAYS_IN_YEAR in Hs. rewrite HL in Hs.
    cbn [month_loop month_get_day_count mbind outcome_bind Z.leb Z.compare].
    unfold month_to_tm_mon, year_to_tm_year. cbn [Z.eqb negb c_assert mbind outcome_bind].
    rewrite Eyt. cbn [c_assert mbind outcome_bind]. change (u8 (-1 + 1)) with 0.
    rewrite weekday_spec by lia. cbn [mbind outcome_bind]. change (month_start (year_is_leap_year y) 1) with 0.
    eexists _, (y - 1). split; [reflexivity|]. split; [apply Clock|]. cbv zeta.
    replace (y - 1 + 1) with y by lia. split; [lia|]. cbn [tm_wday tm_year tm_mon tm_mday tm_yday].
    split; [f_equal; lia|]. rewrite HL. destruct (Z.eqb_spec (d - year_start (y - 1)) 365) as [_|?]; [|lia].
    cbn [andb]. change (i32 (1 - 1)) with 0. lia.
Qed.

(** C27: for every timestamp whose day number fits an int, [tm_from_stamp] returns the
    time of day, the Gregorian date, the weekday and the day of the year of that
    moment, except on the 31st of December of a leap year, which it reports as day 0 of
    January of the next year with day of the year -1. *)
Theorem tm_from_stamp_date ts : 0 <= ts < DAY_LIMIT * 86400 ->
  exists t y, tm_from_stamp ts = Ok t /\ clock_of ts t /\
    let d := ts / 86400 in
    year_start y <= d < year_start (y + 1) /\ tm_wday t = (d + 4) mod 7 /\
    if year_is_leap_year y && (d - year_start y =? 365)
    then tm_year t + 1900 = y + 1 /\ tm_mon t = 0 /\ tm_mday t = 0 /\ tm_yday t = -1
    else tm_year t + 1900 = y /\ date_of_day d y (tm_mon t + 1) (tm_mday t) /\
         tm_yday t = d - year_start y.
Proof. apply stamp_date. Qed.

Lemma tm_from_stamp_date_witness :
  tm_from_stamp 951782400 = Ok (Tm 0 0 0 29 1 100 2 59 0) /\
  exists t y, tm_from_stamp 951782400 = Ok t /\ clock_of 951782400 t /\
    let d := 951782400 / 86400 in
    year_start y <= d < year_start (y + 1) /\ tm_wday t = (d + 4) mod 7 /\
    if year_is_leap_year y && (d - year_start y =? 365)
    then tm_year t + 1900 = y + 1 /\ tm_mon t = 0 /\ tm_mday t = 0 /\ tm_yday t = -1
    else tm_year t + 1900 = y /\ date_of_day d y (tm_mon t + 1) (tm_mday t) /\
         tm_yday t = d - year_start y.
Proof. split; [vm_compute; reflexivity|apply (tm_from_stamp_date 951782400); unfold DAY_LIMIT; lia]. Defined.

(** ** Week numbers *)

Lemma get_week_count_small wd n monday : 0 <= wd <= 6 -> wd <= n < 366 ->
  get_week_count_at_day wd n monday =
  (n - wd + (if monday then if wd =? 0 then 1 else 8 else 7)) / 7.
Proof.
  intros Hw Hn. unfold get_week_count_at_day, WEEKDAY_COUNT.
  rewrite (wrap_small 32 wd), (wrap_small 32 (n - wd)) by (unfold is_u; lia).
  destruct monday; [destruct (Z.eqb_spec wd 0)|]; cbn [negb];
    rewrite (wrap_small 64) by (unfold is_u; lia); apply wrap_small; unfold is_u; dlia.
Qed.

(** How many of the days 0 to [n] of a year fall on weekday [first], when day [n] falls
    on weekday [wd]: the number of the week of day [n], weeks beginning on [first]. *)
Fixpoint weeks_begun (first wd : Z) (n : nat) : Z :=
  (if wd =? first then 1 else 0) +
  match n with O => 0 | S n => weeks_begun first ((wd - 1) mod 7) n end.

Lemma weeks_begun_spec first n : forall wd, 0 <= first <= 6 -> 0 <= wd <= 6 ->
  weeks_begun first wd n = (Z.of_nat n - (wd - first) mod 7 + 7) / 7.
Proof.
  induction n as [|n IH]; intros wd Hf Hw; cbn [weeks_begun]; [|rewrite IH by dlia];
    destruct (Z.eqb_spec wd first); dlia.
Qed.

(** [get_week_count_at_day] returns the number of the week of a day of the year, for
    weeks that begin on Sunday and for weeks that begin on Monday, whenever the weekday's
    number is at most the day's. *)
Theorem get_week_count_correct wd n monday : 0 <= wd <= 6 -> wd <= n < 366 ->
  get_week_count_at_day wd n monday = weeks_begun (if monday then 1 else 0) wd (Z.to_nat n).
Proof.
  intros Hw Hn. rewrite get_week_count_small, weeks_begun_spec, Z2Nat.id by (destruct monday; lia).
  destruct monday; [destruct (Z.eqb_spec wd 0)|]; dlia.
Qed.
Lemma get_week_count_correct_witness :
  get_week_count_at_day 6 364 true = weeks_begun 1 6 364 /\ get_week_count_at_day 6 364 true = 52.
Proof. split; [apply (get_week_count_correct 6 364 true); lia|reflexivity]. Defined.

(** Below that the 32-bit difference wraps and the 64-bit sum keeps the excess. *)
Lemma get_week_count_wraps :
  get_week_count_at_day 6 0 false = 36 /\ weeks_begun 0 6 0 = 0 /\
  get_week_count_at_day 1 0 true = 37 /\ weeks_begun 1 1 0 = 1.
Proof. vm_compute. auto. Qed.

(** ISO 8601: a week belongs to the year that has its Thursday, and is numbered by the
    Thursdays of that year. *)
Definition iso_thursday (d : Z) : Z := d - (d + 3) mod 7 + 3.
Definition iso_week_of (d week : Z) : Prop :=
  exists y, 1 <= y /\ year_start y <= iso_thursday d < year_start (y + 1) /\
    week = (iso_thursday d - year_start y) / 7 + 1.

(** Case analysis on a weekday. *)
Ltac weekdays w :=
  let E := fresh in
  assert (E : w = 0 \/ w = 1 \/ w = 2 \/ w = 3 \/ w = 4 \/ w = 5 \/ w = 6) by lia;
  repeat (destruct E as [->|E]); [..|subst w].

(** The correction by the weekday of January 1. *)
Lemma iso_jan_1 wd r p n (k : outcome Z) : 0 <= wd <= 6 -> 0 <= r <= 6 -> n = 7 * p + r -> 6 <= n < 366 ->
  let jan_1 := if wd - r <? 0 then wd - r + 7 else wd - r in
  let week := (n - wd + (if wd =? 0 then 1 else 8)) / 7 in
  exists w, match jan_1 with
    | 1 => Ok week
    | 2 | 3 | 4 => Ok (u8 (week + 1))
    | 5 | 6 | 0 => if negb (week =? 0) then Ok week else k
    | _ => verify_not_reached
    end = Ok w /\ w = (n - (wd + 6) mod 7 + 3) / 7 + 1.
Proof.
  intros Hw Hr -> Hn. cbv zeta.
  assert (E : u8 ((7 * p + r - wd + (if wd =? 0 then 1 else 8)) / 7 + 1) =
    (7 * p + r - wd + (if wd =? 0 then 1 else 8)) / 7 + 1) by (apply wrap_small; unfold is_u; zcase; dlia).
  rewrite E. clear E. set (k7 := 7 * p).
  weekdays wd; weekdays r;
    match goal with |- context [if ?a <? 0 then ?b else ?c] =>
      let v := eval vm_compute in (if a <? 0 then b else c) in change (if a <? 0 then b else c) with v end;
    cbn [Z.eqb]; unfold k7;
    repeat match goal with |- context [if negb (?a =? 0) then _ else _] =>
      destruct (Z.eqb_spec a 0) as [?|_]; [exfalso; dlia|]; cbn [negb] end;
    (eexists; split; [reflexivity|dlia]).
Qed.

Lemma iso_8601_code wd m y md n L : 0 <= wd <= 6 -> 1 <= m <= 12 -> 365 <= L <= 366 -> 6 <= n < L ->
  (m = 12 -> md = n - L + 32) -> (m <> 12 -> n < L - 31) ->
  exists w, iso_8601_get_week_number 0 wd m y md n = Ok w /\
    if n - (wd + 6) mod 7 + 3 <? L then w = (n - (wd + 6) mod 7 + 3) / 7 + 1 else w = 1.
Proof.
  intros Hw Hm HL Hn H12 Hn12. cbn [iso_8601_get_week_number].
  rewrite get_week_count_small by lia. unfold weekday_valid, month_valid, WEEKDAY_COUNT.
  destruct (Z.leb_spec 0 wd) as [_|?]; [|lia]. destruct (Z.leb_spec wd 6) as [_|?]; [|lia].
  destruct (Z.leb_spec 1 m) as [_|?]; [|lia]. destruct (Z.leb_spec m 12) as [_|?]; [|lia].
  cbn [andb c_assert mbind outcome_bind].
  assert (Hr : 0 <= n mod 7 <= 6) by dlia. pose proof (Z.div_mod n 7 ltac:(lia)) as En.
  revert Hr En. generalize (n mod 7) (n / 7). intros r p Hr En.
  destruct (iso_jan_1 wd r p n Diverge) as (w & -> & Ew); try lia. cbn [mbind outcome_bind].
  destruct (Z.eqb_spec m 12) as [E12|E12].
  - specialize (H12 E12). weekdays wd; eexists; (split; [reflexivity|]); rewrite Ew; zcase; dlia.
  - specialize (Hn12 E12). exists w. split; [reflexivity|]. rewrite Ew. zcase; dlia.
Qed.

(** From the seventh day of January on, [iso_8601_get_week_number] terminates
    without a recursive call and returns the ISO 8601 number of the date's week. *)
Theorem iso_8601_week_number y m md d : 1 <= y < 2 ^ 40 -> date_of_day d y m md ->
  6 <= d - year_start y ->
  exists w, iso_8601_get_week_number 0 ((d + 4) mod 7) m y md (d - year_start y) = Ok w /\
    iso_week_of d w.
Proof.
  intros Hy Hd Hn. unfold date_of_day in Hd. destruct Hd as (Hm & Hmd & Hdn).
  set (n := d - year_start y) in *. set (L := year_get_day_count y).
  assert (Hl : n < L /\ (m = 12 -> md = n - L + 32) /\ (m <> 12 -> n < L - 31)).
  { unfold n, L, year_get_day_count, MIN_DAYS_IN_YEAR. rewrite Hdn. clear Hn n L Hdn.
    generalize (year_start y). intros s. destruct (year_is_leap_year y); months m; cbn in Hmd;
    match goal with |- context [month_start ?l ?k] =>
      let v := eval vm_compute in (month_start l k) in change (month_start l k) with v end; lia. }
  assert (HL : 365 <= L <= 366) by apply year_get_day_count_pos.
  assert (HT : iso_thursday d - year_start y = n - ((d + 4) mod 7 + 6) mod 7 + 3)
    by (unfold iso_thursday, n; dlia).
  assert (Hw : 0 <= (d + 4) mod 7 <= 6) by dlia. revert HT Hw. generalize ((d + 4) mod 7). intros wd HT Hw.
  destruct (iso_8601_code wd m y md n L) as (w & E & Hres); try lia.
  exists w. split; [exact E|]. unfold iso_week_of. destruct (Z.ltb_spec (n - (wd + 6) mod 7 + 3) L) as [Hlt|Hge].
  - exists y. rewrite year_start_step by lia. fold L. split; [lia|]. split; [dlia|]. rewrite HT. exact Hres.
  - exists (y + 1). rewrite (year_start_step (y + 1)), (year_start_step y) by lia. fold L.
    pose proof (year_get_day_count_pos (y + 1)). split; [lia|]. split; [dlia|]. rewrite Hres.
    replace (iso_thursday d - (year_start y + L)) with (n - (wd + 6) mod 7 + 3 - L) by lia. dlia.
Qed.
Lemma iso_8601_week_number_witness : exists w,
  iso_8601_get_week_number 0 ((20453 + 4) mod 7) 12 2025 31 (20453 - year_start 2025) = Ok w /\
  iso_week_of 20453 w.
Proof. apply (iso_8601_week_number 2025 12 31 20453); [lia|vm_compute; intuition congruence|vm_compute; congruence]. Defined.

(** In the first week the count wraps, and the recursive call is given the weekday
    before the date's, which is the one of the 31st of December only on January 1:
    2005-01-02 is in week 53 of 2004. *)
Lemma iso_8601_first_days :
  iso_8601_get_week_number 1 0 1 2005 2 1 = Ok 52 /\ iso_week_of (year_start 2005 + 1)  53 /\
  (year_start 2005 + 1 + 4) mod 7 = 0.
Proof. split; [reflexivity|]. split; [|reflexivity]. exists 2004. vm_compute. intuition congruence. Qed.

(** ** Time spans *)

Definition ns (t : timespec) : Z := tv_sec t * NANO_IN_SECONDS + tv_nsec t.
Definition timespec_ok (t : timespec) : Prop := 0 <= tv_sec t < 2 ^ 64 /\ 0 <= tv_nsec t < NANO_IN_SECONDS.

Lemma timespec_compare_ns l r : timespec_ok l -> timespec_ok r ->
  timespec_compare l r = Z.sgn (ns l - ns r).
Proof.
  destruct l as [ls ln], r as [rs rn]. unfold timespec_ok, timespec_compare, ns. cbn [tv_sec tv_nsec]. change NANO_IN_SECONDS with 1000000000.
  intros Hl Hr. zcase; symmetry; first [apply Z.sgn_null_iff|apply Z.sgn_pos_iff|apply Z.sgn_neg_iff]; lia.
Qed.

Lemma timespec_sub_ns l r : timespec_ok l -> timespec_ok r ->
  match timespec_sub l r with
  | None => ns l < ns r
  | Some t => ns r <= ns l /\ timespec_ok t /\
              ns t = ns l - ns r - (if tv_nsec l <? tv_nsec r then 1 else 0)
  end.
Proof.
  destruct l as [ls ln], r as [rs rn]. unfold timespec_ok, timespec_sub, ns. cbn [tv_sec tv_nsec]. change NANO_IN_SECONDS with 1000000000.
  intros Hl Hr. destruct (Z.ltb_spec ls rs); [lia|].
  rewrite (wrap_small 64 (ls - rs)) by (unfold is_u; lia).
  destruct (Z.ltb_spec ln rn).
  - destruct (Z.eqb_spec (ls - rs) 0); [lia|]. cbn [tv_sec tv_nsec].
    change (u64 (1000000000 - 1)) with 999999999.
    rewrite (wrap_small 64 (rn - ln)), !wrap_small by (unfold is_u; lia). lia.
  - cbn [tv_sec tv_nsec]. rewrite !wrap_small by (unfold is_u; lia). lia.
Qed.

Lemma timespec_add_ns l r : timespec_ok l -> timespec_ok r ->
  match timespec_add l r with
  | None => 2 ^ 64 <= tv_sec l + tv_sec r \/ tv_sec l = 2 ^ 64 - 1
  | Some t => timespec_ok t /\
              ns t = ns l + ns r - (if NANO_IN_SECONDS <=? tv_nsec l + tv_nsec r then NANO_IN_SECONDS else 0)
  end.
Proof.
  destruct l as [ls ln], r as [rs rn]. unfold timespec_ok, timespec_add, ns. cbn [tv_sec tv_nsec]. change NANO_IN_SECONDS with 1000000000.
  intros Hl Hr. rewrite (wrap_small 64 (ln + rn)) by (unfold is_u; lia).
  unfold check_add_w, fits. destruct (Z.leb_spec 1000000000 (ln + rn)) as [H|H].
  - destruct (Z.eqb_spec ((ln + rn) / 1000000000) 0) as [?|_]; [dlia|].
    cbn. zcase; cbn; dlia.
  - destruct (Z.eqb_spec ((ln + rn) / 1000000000) 0) as [_|?]; [|dlia].
    cbn. zcase; cbn; dlia.
Qed.

(** On valid time spans, [timespec_compare] orders by the span in nanoseconds,
    [timespec_sub] fails exactly when the result would be negative and is otherwise exact
    without a borrow and one nanosecond short with one, and [timespec_add] is exact
    without a carry and a second short with one. *)
Theorem timespec_ops l r : timespec_ok l -> timespec_ok r ->
  timespec_compare l r = Z.sgn (ns l - ns r) /\
  (timespec_sub l r = None <-> ns l < ns r) /\
  (forall t, timespec_sub l r = Some t ->
    timespec_ok t /\ ns t = ns l - ns r - (if tv_nsec l <? tv_nsec r then 1 else 0)) /\
  (forall t, timespec_add l r = Some t ->
    timespec_ok t /\
    ns t = ns l + ns r - (if NANO_IN_SECONDS <=? tv_nsec l + tv_nsec r then NANO_IN_SECONDS else 0)).
Proof.
  intros Hl Hr. pose proof (timespec_sub_ns l r Hl Hr) as Hs. pose proof (timespec_add_ns l r Hl Hr) as Ha.
  split; [auto using timespec_compare_ns|]. split; [|split].
  - destruct (timespec_sub l r); split; intros; (lia || congruence || auto).
  - intros t E. rewrite E in Hs. tauto.
  - intros t E. rewrite E in Ha. exact Ha.
Qed.
Lemma timespec_ops_witness :
  timespec_compare (Timespec 2 1) (Timespec 1 2) = Z.sgn (ns (Timespec 2 1) - ns (Timespec 1 2)) /\
  timespec_sub (Timespec 2 1) (Timespec 1 2) = Some (Timespec 0 999999998).
Proof. split; [apply (timespec_ops (Timespec 2 1) (Timespec 1 2)); vm_compute; intuition congruence|reflexivity]. Defined.

(** ** Names *)

Definition names_inverse (valid : Z -> bool) (print : Z -> outcome string) (parse : string -> Z) : Prop :=
  (forall x, valid x = true -> exists s, print x = Ok s /\ parse s = x) /\
  (forall x, valid x = false -> print x = Panic) /\
  (forall s, valid (parse s) = true -> print (parse s) = Ok s).

Ltac parse_cases :=
  intros s;
  repeat match goal with
  | |- context [String.eqb s ?k] => destruct (String.eqb_spec s k) as [->|]; [reflexivity|]
  end; discriminate.

Lemma weekday_range day : weekday_valid day = true <-> 0 <= day <= 6.
Proof. unfold weekday_valid. zcase; split; (lia || congruence). Qed.
Lemma month_range m : month_valid m = true <-> 1 <= m <= 12.
Proof. unfold month_valid. zcase; split; (lia || congruence). Qed.

(** The names and abbreviations of weekdays and months are parsed back to the day or
    month they were printed from, what parses prints back, and printing an invalid value
    panics. *)
Theorem names_roundtrip :
  names_inverse weekday_valid weekday_to_sv sv_to_weekday /\
  names_inverse weekday_valid weekday_to_sv_abbrev sv_abbrev_to_weekday /\
  names_inverse month_valid month_to_sv sv_to_month /\
  names_inverse month_valid month_to_sv_abbrev sv_abbrev_to_month.
Proof.
  assert (Hw : forall x, weekday_valid x = false -> ~ 0 <= x <= 6)
    by (intros x H H'; apply weekday_range in H'; congruence).
  assert (Hm : forall x, month_valid x = false -> ~ 1 <= x <= 12)
    by (intros x H H'; apply month_range in H'; congruence).
  repeat split;
    try (intros x Hx; apply weekday_range in Hx; weekdays x; eexists; split; reflexivity);
    try (intros x Hx; apply month_range in Hx; months x; eexists; split; reflexivity);
    try (intros x Hx; apply Hw in Hx);  try (intros x Hx; apply Hm in Hx);
    unfold sv_to_weekday, sv_abbrev_to_weekday, sv_to_month, sv_abbrev_to_month; try parse_cases;
    unfold weekday_to_sv, weekday_to_sv_abbrev, month_to_sv, month_to_sv_abbrev, verify_not_reached;
    repeat (case_match; try reflexivity; try lia).
Qed.

(** The table of [day_of_month_to_day_of_year] agrees with the month lengths. *)
Lemma day_of_year_spec md m leap : 1 <= m <= 12 -> 0 <= md < 256 ->
  day_of_month_to_day_of_year md m leap = Ok (month_start leap m + md).
Proof.
  intros Hm Hd. assert (E : day_table !! Z.to_nat (m - 1) = Some (month_start false m) /\
    month_start leap m = (if leap && (2 <? m) then month_start false m + 1 else month_start false m) /\
    0 <= month_start false m <= 334 /\ month_valid m = true)
    by (months m; destruct leap; vm_compute; intuition congruence).
  destruct E as (E1 & E2 & Hb & Hv). unfold day_of_month_to_day_of_year. rewrite Hv, E1, E2. cbn.
  rewrite wrap_small; [reflexivity|]. unfold is_u. destruct (leap && _); lia.
Qed.

(** Conversions between the two clocks. *)
Lemma hour_12_24 h : 0 <= h < 24 -> hour12_to_24hour (hour24_to_12hour h) (hour24_is_pm h) = h.
Proof.
  intros H. unfold hour12_to_24hour, hour24_to_12hour, hour24_is_pm.
  destruct (Z.eqb_spec (h mod 12) 0); destruct (Z.leb_spec 12 h); cbn [negb];
    rewrite wrap_small by (unfold is_u; dlia); dlia.
Qed.
