(* ===== verification/Refcount.v ===== *)
(** * Reference counts: lib/refcount.c

    Each operation is one atomic read-modify-write of a signed 32-bit counter, so the
    executions of concurrent owners are sequences of operations.  The assertions come
    after the update, as in the code. *)

From stdpp Require Import list.
From S2P Require Import Prelude.

Definition REFCOUNT_MAX : Z := 2 ^ 31 - 1.
Definition refcount_init : Z := 1.

Definition refcount_increment (count amount : Z) : outcome Z :=
  let old := count in
  let count := i32 (count + amount) in
  _ ← c_assert (0 <=? old);
  _ ← c_assert (negb (old =? REFCOUNT_MAX));
  Ok count.

Definition refcount_decrement (count amount : Z) : outcome (bool * Z) :=
  let old := count in
  let count := i32 (count - amount) in
  _ ← c_assert (amount <=? old);
  _ ← c_assert (negb (old =? REFCOUNT_MAX));
  Ok (old =? 1, count).

Definition ref_up (count : Z) : outcome Z := refcount_increment count 1.
Definition ref_down (count : Z) : outcome (bool * Z) := refcount_decrement count 1.
Definition ref_get (count : Z) : Z := u32 count.

(** ** Sequences of operations *)

Inductive ref_op := RefUp | RefDown.

(** The results of the [ref_down]s, and the final count. *)
Fixpoint ref_run (ops : list ref_op) (count : Z) : outcome (list bool * Z) :=
  match ops with
  | [] => Ok ([], count)
  | RefUp :: ops => count ← ref_up count; ref_run ops count
  | RefDown :: ops =>
      '(last, count) ← ref_down count; '(rs, count) ← ref_run ops count; Ok (last :: rs, count)
  end.

(** Owners act while they hold a reference: there is one before every operation, and
    never as many as [REFCOUNT_MAX]. *)
Fixpoint owned (ops : list ref_op) (n : Z) : Prop :=
  match ops with
  | [] => 0 <= n < REFCOUNT_MAX
  | RefUp :: ops => 1 <= n < REFCOUNT_MAX /\ owned ops (n + 1)
  | RefDown :: ops => 1 <= n < REFCOUNT_MAX /\ owned ops (n - 1)
  end.
Definition op_delta (o : ref_op) : Z := match o with RefUp => 1 | RefDown => -1 end.
Definition refs_after (ops : list ref_op) (n : Z) : Z := foldr (fun o s => op_delta o + s) n ops.

Lemma ref_up_ok n : 0 <= n < REFCOUNT_MAX -> ref_up n = Ok (n + 1).
Proof.
  unfold ref_up, refcount_increment, REFCOUNT_MAX. intros H. rewrite i32_id by lia.
  destruct (Z.leb_spec 0 n); [|lia]. destruct (Z.eqb_spec n (2 ^ 31 - 1)); [lia|]. reflexivity.
Qed.
Lemma ref_down_ok n : 1 <= n < REFCOUNT_MAX -> ref_down n = Ok (n =? 1, n - 1).
Proof.
  unfold ref_down, refcount_decrement, REFCOUNT_MAX. intros H. rewrite i32_id by lia.
  destruct (Z.leb_spec 1 n); [|lia]. destruct (Z.eqb_spec n (2 ^ 31 - 1)); [lia|]. reflexivity.
Qed.
Lemma refs_after_shift ops n d : refs_after ops (n + d) = refs_after ops n + d.
Proof. induction ops as [|o ops IH]; cbn; [lia|]. unfold refs_after in IH. rewrite IH. lia. Qed.

(** As long as its users hold a reference, a reference count is the number of
    references: no operation panics, the count after any sequence of [ref_up] and
    [ref_down] is the number of references left, and the [ref_down]s report the last
    reference exactly once, by the one that drops it. *)
Theorem refcount_counts ops n : owned ops n ->
  exists rs, ref_run ops n = Ok (rs, refs_after ops n) /\
    (refs_after ops n <> 0 -> true ∉ rs) /\
    (refs_after ops n = 0 -> ops = [] \/ exists rs', rs = rs' ++ [true] /\ true ∉ rs').
Proof.
  revert n. induction ops as [|o ops IH]; intros n H.
  { exists []. split; [reflexivity|]. split; [intros _ Ht; inversion Ht|auto]. }
  destruct o; cbn [owned] in H; destruct H as [Hn Ho]; destruct (IH _ Ho) as (rs & Hr & Hne & He); cbn [ref_run].
  - rewrite ref_up_ok by lia. cbn [mbind outcome_bind]. exists rs. rewrite Hr.
    rewrite refs_after_shift in *. change (refs_after (RefUp :: ops) n) with (1 + refs_after ops n).
    replace (1 + refs_after ops n) with (refs_after ops n + 1) by lia. split; [reflexivity|]. split; [exact Hne|].
    intros E. destruct (He E) as [->|H]; [|auto]. cbn in E. lia.
  - rewrite ref_down_ok by lia. cbn [mbind outcome_bind]. exists ((n =? 1) :: rs). rewrite Hr.
    replace (n - 1) with (n + -1) in * by lia. rewrite refs_after_shift in *.
    change (refs_after (RefDown :: ops) n) with (-1 + refs_after ops n).
    replace (-1 + refs_after ops n) with (refs_after ops n + -1) by lia. split; [reflexivity|].
    destruct (Z.eqb_spec n 1) as [->|Hn1].
    + destruct ops as [|o ops]; [|destruct o; cbn in Ho; lia]. injection Hr as <-. cbn.
      split; [lia|]. intros _. right. exists []. split; [reflexivity|]. intros Ht. inversion Ht.
    + split.
      * intros E [?|Ht]%elem_of_cons; [discriminate|]. exact (Hne E Ht).
      * intros E. right. destruct (He E) as [->|(rs' & -> & Hrs)]; [cbn in E; lia|].
        exists (false :: rs'). split; [reflexivity|]. intros [?|Ht]%elem_of_cons; [discriminate|auto].
Qed.
Lemma refcount_counts_witness : exists rs,
  ref_run [RefUp; RefUp; RefDown; RefDown; RefDown] refcount_init =
    Ok (rs, refs_after [RefUp; RefUp; RefDown; RefDown; RefDown] 1) /\
  (refs_after [RefUp; RefUp; RefDown; RefDown; RefDown] 1 <> 0 -> true ∉ rs) /\
  (refs_after [RefUp; RefUp; RefDown; RefDown; RefDown] 1 = 0 ->
    [RefUp; RefUp; RefDown; RefDown; RefDown] = [] \/ exists rs', rs = rs' ++ [true] /\ true ∉ rs').
Proof. apply (refcount_counts [RefUp; RefUp; RefDown; RefDown; RefDown] 1). cbn. unfold REFCOUNT_MAX. lia. Defined.

(** Misuse is reported: dropping more references than there are, using a count that
    went negative and using one at its maximum panic, and nothing else does. *)
Theorem refcount_errors n amount : - 2 ^ 31 <= n < 2 ^ 31 ->
  (refcount_increment n amount = Panic <-> n < 0 \/ n = REFCOUNT_MAX) /\
  (refcount_decrement n amount = Panic <-> n < amount \/ n = REFCOUNT_MAX).
Proof.
  intros H. unfold refcount_increment, refcount_decrement.
  destruct (Z.leb_spec 0 n), (Z.leb_spec amount n), (Z.eqb_spec n REFCOUNT_MAX); cbn;
    split; split; intros; (lia || congruence || auto).
Qed.
Lemma refcount_errors_witness :
  (refcount_increment 0 1 = Panic <-> 0 < 0 \/ 0 = REFCOUNT_MAX) /\
  (refcount_decrement 0 1 = Panic <-> 0 < 1 \/ 0 = REFCOUNT_MAX).
Proof. apply (refcount_errors 0 1). lia. Defined.

(** [refcount_decrement] compares the old count with 1, not with the amount: dropping
    the last several references at once is not reported. *)
Lemma refcount_decrement_many n amount : 2 <= amount <= n -> n < REFCOUNT_MAX ->
  refcount_decrement n amount = Ok (false, n - amount).
Proof.
  unfold refcount_decrement, REFCOUNT_MAX. intros H Hn. rewrite i32_id by lia.
  destruct (Z.leb_spec amount n); [|lia]. destruct (Z.eqb_spec n (2 ^ 31 - 1)); [lia|].
  destruct (Z.eqb_spec n 1); [lia|]. reflexivity.
Qed.
