(* ===== verification/Spinlock.v ===== *)
(** * Ticket spinlocks: kernel/src/cpu/spinlock.c, the interrupt flag of asm/irqs.h and
    the preemption counter of kernel/src/sched/thread.c

    Threads interleave at their accesses to the lock's two atomic counters.  [pc] is
    where a thread is in an operation: [thread_step] runs it to just after its next
    access, or to the end of what it does without one.  [with_spinlock_acquired] and its
    variants pair each way of acquiring the lock with its release, so the mode a thread
    acquired in is part of its [pc].  The checks of DEBUG_LOCKS builds, which are off by
    default, are left out.  [taken] and [served] count the tickets ever taken and
    released without wrapping, and [since] is [taken] at the load of a
    [spin_try_acquire]; no step reads them. *)

From stdpp Require Import list relations.
From S2P Require Import Prelude KStdlib.

(** ** Interrupts and preemption of one CPU *)

Record cpu := Cpu { intr_enable : bool; preemption_disabled : Z }.

Definition set_intr (b : bool) (t : cpu) : cpu := Cpu b (preemption_disabled t).
Definition are_interrupts_enabled (t : cpu) : bool := intr_enable t.
(** [cli], [msr daifset], [csrci sstatus]; on LoongArch CRMD is written with its
    interrupt enable bit set. *)
Definition disable_interrupts (a : arch) : cpu -> cpu :=
  set_intr (match a with loongarch64 => true | _ => false end).
(** [sti], [msr daifclr], [csrsi sstatus]; on LoongArch the bit is cleared. *)
Definition enable_interrupts (a : arch) : cpu -> cpu :=
  set_intr (match a with loongarch64 => false | _ => true end).
Definition disable_irqs_if_enabled (a : arch) (t : cpu) : bool * cpu :=
  let result := are_interrupts_enabled t in
  (result, match a with
           | x86_64 | loongarch64 => disable_interrupts a t
           | aarch64 | riscv64 => if result then disable_interrupts a t else t
           end).
Definition enable_irqs_if_flag (a : arch) (flag : bool) (t : cpu) : cpu :=
  if flag then enable_interrupts a t else t.

Definition preemption_enabled (t : cpu) : bool := preemption_disabled t =? 0.
Definition preempt_disable (t : cpu) : cpu :=
  Cpu (intr_enable t) (u16 (preemption_disabled t + 1)).
Definition preempt_enable (t : cpu) : outcome cpu :=
  let old := preemption_disabled t in
  let t := Cpu (intr_enable t) (u16 (old - 1)) in
  _ ← c_assert (negb (old =? 0)); Ok t.

(** ** The lock *)

Record spinlock := Spinlock { front : Z; back : Z }.
Definition SPINLOCK_INIT : spinlock := Spinlock 0 0.

Record shared := Shared { lock : spinlock; taken : Z; served : Z }.

(** [atomic_fetch_add(&lock->back, 1)] *)
Definition fetch_add_back (s : shared) : Z * shared :=
  let ticket := back (lock s) in
  (ticket, Shared (Spinlock (front (lock s)) (u32 (ticket + 1))) (taken s + 1) (served s)).
(** [atomic_compare_exchange_strong(&lock->back, &ticket, ticket + 1)] *)
Definition cas_back (ticket : Z) (s : shared) : bool * shared :=
  if back (lock s) =? ticket
  then (true, Shared (Spinlock (front (lock s)) (u32 (ticket + 1))) (taken s + 1) (served s))
  else (false, s).
Definition spin_release (s : shared) : shared :=
  Shared (Spinlock (u32 (front (lock s) + 1)) (back (lock s))) (taken s) (served s + 1).
Definition spinlock_deinit (s : shared) : shared := Shared (Spinlock 0 0) 0 0.

Inductive mode := Plain | SaveIrq (flag : bool) | Preempt.
Inductive op :=
  | Op_spin_acquire | Op_spin_acquire_save_irq | Op_spin_acquire_preempt_disable
  | Op_spin_try_acquire | Op_spin_try_acquire_save_irq.
Inductive pc :=
  | Idle
  | Enter (m : mode)
  | Spin (m : mode) (ticket : Z)
  | TryBack (m : mode)
  | TryFront (m : mode) (ticket since : Z)
  | TryCas (m : mode) (ticket since : Z)
  | TryFail (m : mode)
  | Held (m : mode)
  | Released (m : mode).

Section Steps.
Context (a : arch).

(** What an operation does before it first accesses the lock. *)
Definition begin_op (o : op) (t : cpu) : cpu * pc :=
  match o with
  | Op_spin_acquire => (t, Enter Plain)
  | Op_spin_acquire_save_irq =>
      let irqs_enabled := are_interrupts_enabled t in
      ((if irqs_enabled then disable_interrupts a t else t), Enter (SaveIrq irqs_enabled))
  | Op_spin_acquire_preempt_disable => (preempt_disable t, Enter Preempt)
  | Op_spin_try_acquire => (t, TryBack Plain)
  | Op_spin_try_acquire_save_irq =>
      let '(irqs_enabled, t) := disable_irqs_if_enabled a t in (t, TryBack (SaveIrq irqs_enabled))
  end.

(** The loop of [spin_acquire]. *)
Definition spin_acquire_step (m : mode) (ticket : Z) (s : shared) : pc :=
  if front (lock s) =? ticket then Held m else Spin m ticket.

(** After [spin_release]: [spin_release_restore_irq] and [spin_release_preempt_enable]. *)
Definition end_release (m : mode) (t : cpu) : outcome cpu :=
  match m with
  | Plain => Ok t
  | SaveIrq flag => Ok (if flag then enable_interrupts a t else t)
  | Preempt => preempt_enable t
  end.
(** After [spin_try_acquire] returned false. *)
Definition end_try (m : mode) (t : cpu) : cpu :=
  match m with SaveIrq flag => enable_irqs_if_flag a flag t | _ => t end.

Definition thread_step (o : op) (s : shared) (t : cpu) (p : pc) : outcome (shared * cpu * pc) :=
  match p with
  | Idle => let '(t, p) := begin_op o t in Ok (s, t, p)
  | Enter m => let '(ticket, s) := fetch_add_back s in Ok (s, t, Spin m ticket)
  | Spin m ticket => Ok (s, t, spin_acquire_step m ticket s)
  | TryBack m => Ok (s, t, TryFront m (back (lock s)) (taken s))
  | TryFront m ticket since =>
      Ok (s, t, if front (lock s) =? ticket then TryCas m ticket since else TryFail m)
  | TryCas m ticket since =>
      let '(done, s) := cas_back ticket s in Ok (s, t, if done then Held m else TryFail m)
  | TryFail m => Ok (s, end_try m t, Idle)
  | Held m => Ok (spin_release s, t, Released m)
  | Released m => t ← end_release m t; Ok (s, t, Idle)
  end.

Record config := Config { sh : shared; cpus : list cpu; pcs : list pc }.

Definition init (ts : list cpu) : config :=
  Config (Shared SPINLOCK_INIT 0 0) ts (replicate (length ts) Idle).

(** Thread [i] takes a step, calling [o] if it is idle. *)
Definition config_step (i : nat) (o : op) (c : config) : outcome config :=
  match cpus c !! i, pcs c !! i with
  | Some t, Some p =>
      '(s, t, p) ← thread_step o (sh c) t p; Ok (Config s (<[i:=t]> (cpus c)) (<[i:=p]> (pcs c)))
  | _, _ => Ok c
  end.
End Steps.

(** ** The specification: a first-in first-out lock

    The queue of the threads that hold or wait for the lock, the holder first, and
    whether its head has been granted the lock. *)

Record fifo := Fifo { queue : list nat; granted : bool }.

Inductive fifo_step (i : nat) : fifo -> fifo -> Prop :=
  | fifo_stutter q g : head q <> Some i -> fifo_step i (Fifo q g) (Fifo q g)
  | fifo_enqueue q g : i ∉ q -> fifo_step i (Fifo q g) (Fifo (q ++ [i]) g)
  | fifo_grant q : fifo_step i (Fifo (i :: q) false) (Fifo (i :: q) true)
  | fifo_try : fifo_step i (Fifo [] false) (Fifo [i] true)
  | fifo_release q : fifo_step i (Fifo (i :: q) true) (Fifo q false).

(** ** The invariant *)

Definition queued (p : pc) : bool :=
  match p with Spin _ _ | Held _ => true | _ => false end.
Definition holding (p : pc) : bool := match p with Held _ => true | _ => false end.

(** The program counter of the thread at position [k] of the queue. *)
Definition at_ticket (sv : Z) (g : bool) (k : nat) (p : pc) : Prop :=
  match p with
  | Spin _ t => t = u32 (sv + Z.of_nat k) /\ (k = 0%nat -> g = false)
  | Held _ => k = 0%nat /\ g = true
  | _ => False
  end.

Definition try_ok (s : shared) (p : pc) : Prop :=
  match p with
  | TryFront _ t since => t = u32 since /\ 0 <= since <= taken s
  | TryCas _ t since => t = u32 since /\ 0 <= since <= served s
  | _ => True
  end.

(** A [spin_try_acquire] under way is overtaken by fewer than 2^32 tickets. *)
Definition pc_fresh (s : shared) (p : pc) : Prop :=
  match p with
  | TryFront _ _ since | TryCas _ _ since => taken s - since < 2 ^ 32
  | _ => True
  end.
Definition fresh (c : config) : Prop := forall i p, pcs c !! i = Some p -> pc_fresh (sh c) p.

Record lock_inv (s : shared) (ps : list pc) (q : list nat) (g : bool) : Prop := LockInv {
  inv_served : 0 <= served s;
  inv_taken : taken s = served s + Z.of_nat (length q);
  inv_front : front (lock s) = u32 (served s);
  inv_back : back (lock s) = u32 (taken s);
  inv_empty : q = [] -> g = false;
  inv_nodup : NoDup q;
  inv_queue : forall k i, q !! k = Some i -> exists p, ps !! i = Some p /\ at_ticket (served s) g k p;
  inv_queued : forall i p, ps !! i = Some p -> queued p = true -> i ∈ q;
  inv_try : forall i p, ps !! i = Some p -> try_ok s p }.

Lemma u32_inj x y : u32 x = u32 y -> - 2 ^ 32 < x - y < 2 ^ 32 -> x = y.
Proof. unfold wrap. intros H Hb. dlia. Qed.
Lemma u32_succ x : u32 (u32 x + 1) = u32 (x + 1).
Proof. unfold wrap. dlia. Qed.

Lemma lock_inv_init (ts : list cpu) : lock_inv (Shared SPINLOCK_INIT 0 0) (replicate (length ts) Idle) [] false.
Proof.
  split; cbn; try done; try lia.
  - apply NoDup_nil_2.
  - intros i p [-> _]%lookup_replicate. done.
  - intros i p [-> _]%lookup_replicate. done.
Qed.

Section Invariant.
Context (s : shared) (ps : list pc) (q : list nat) (g : bool) (I : lock_inv s ps q g).

Lemma queue_bound : (length q <= length ps)%nat.
Proof.
  rewrite <- (length_seq (length ps) 0). apply submseteq_length, NoDup_submseteq; [apply I|].
  intros i [k Hk]%list_elem_of_lookup. destruct (inv_queue _ _ _ _ I _ _ Hk) as (p & Hp & _).
  apply elem_of_seq. apply lookup_lt_Some in Hp. lia.
Qed.

(** The position of a queued thread. *)
Lemma queued_position i p : ps !! i = Some p -> queued p = true ->
  exists k, q !! k = Some i /\ at_ticket (served s) g k p.
Proof.
  intros Hp Hq. pose proof (inv_queued _ _ _ _ I _ _ Hp Hq) as [k Hk]%list_elem_of_lookup.
  destruct (inv_queue _ _ _ _ I _ _ Hk) as (p' & Hp' & Ht). exists k. simplify_eq. auto.
Qed.
Lemma unqueued i p : ps !! i = Some p -> queued p = false -> i ∉ q.
Proof.
  intros Hp Hq [k Hk]%list_elem_of_lookup. destruct (inv_queue _ _ _ _ I _ _ Hk) as (p' & Hp' & Ht).
  simplify_eq. destruct p; done.
Qed.

(** A thread that is not queued moves on without touching the lock. *)
Lemma inv_local i p p' : ps !! i = Some p -> queued p = false -> queued p' = false -> try_ok s p' ->
  lock_inv s (<[i:=p']> ps) q g.
Proof.
  intros Hp Hq Hq' Ht. pose proof (unqueued i p Hp Hq) as Hi. destruct I. split; auto.
  - intros k j Hk. destruct (inv_queue0 k j Hk) as (pj & Hj & H). exists pj. split; [|exact H].
    rewrite list_lookup_insert_ne; [exact Hj|]. intros ->. apply Hi. eapply list_elem_of_lookup_2, Hk.
  - intros j pj [(<- & <- & _)|(Hne & Hj)]%list_lookup_insert_Some; [congruence|eauto].
  - intros j pj [(<- & <- & _)|(Hne & Hj)]%list_lookup_insert_Some; [exact Ht|eauto].
Qed.

(** Other threads' entries of an updated list of program counters. *)
Lemma others_lookup i p' k j : q !! k = Some j -> j <> i -> exists p, <[i:=p']> ps !! j = Some p /\
  at_ticket (served s) g k p.
Proof.
  intros Hk Hne. destruct (inv_queue _ _ _ _ I _ _ Hk) as (pj & Hj & H). exists pj.
  rewrite list_lookup_insert_ne by auto. auto.
Qed.

(** Joining the queue. *)
Lemma inv_enqueue i p m : ps !! i = Some p -> queued p = false ->
  lock_inv (snd (fetch_add_back s)) (<[i:=Spin m (fst (fetch_add_back s))]> ps) (q ++ [i]) g.
Proof.
  intros Hp Hq. pose proof (unqueued i p Hp Hq) as Hi. pose proof (lookup_lt_Some _ _ _ Hp) as Hlt.
  pose proof (fun k j p' => others_lookup i p' k j) as Ho. destruct I. split; cbn; auto.
  - rewrite length_app. cbn. lia.
  - rewrite inv_back0. apply u32_succ.
  - intros E. destruct q; discriminate.
  - apply list.NoDup_app. split; [auto|]. split; [|apply NoDup_singleton].
    intros x Hx ->%list_elem_of_singleton. auto.
  - intros k j [Hk|[Hk Hj]]%lookup_app_Some.
    + apply Ho; [exact Hk|]. intros ->. apply Hi. eapply list_elem_of_lookup_2, Hk.
    + apply list_lookup_singleton_Some in Hj as [Hk0 ->]. assert (k = length q) as -> by lia.
      eexists. rewrite list_lookup_insert_eq by lia. split; [reflexivity|]. cbn. rewrite inv_back0, inv_taken0.
      split; [reflexivity|]. intros E. apply inv_empty0. destruct q; [reflexivity|discriminate].
  - intros j pj [(<- & <- & _)|(Hne & Hj)]%list_lookup_insert_Some Hqj; apply elem_of_app.
    + right. apply list_elem_of_singleton. reflexivity.
    + left. eauto.
  - intros j pj [(<- & <- & _)|(Hne & Hj)]%list_lookup_insert_Some; [exact Logic.I|].
    specialize (inv_try0 _ _ Hj). destruct pj; cbn in *; auto. lia.
Qed.

Context (Hn : Z.of_nat (length ps) < 2 ^ 32).

(** The thread whose ticket is served is the head of the queue. *)
Lemma served_is_head i m t : ps !! i = Some (Spin m t) -> front (lock s) = t ->
  head q = Some i /\ g = false.
Proof.
  intros Hp Hf. destruct (queued_position i _ Hp eq_refl) as (k & Hk & Ht & Hg).
  pose proof (lookup_lt_Some _ _ _ Hk). pose proof queue_bound.
  assert (k = 0%nat) as ->.
  { rewrite (inv_front _ _ _ _ I) in Hf. rewrite Ht in Hf. apply u32_inj in Hf; lia. }
  split; [|auto]. destruct q; cbn in *; congruence.
Qed.

Lemma inv_grant i q' m t : q = i :: q' -> ps !! i = Some (Spin m t) ->
  lock_inv s (<[i:=Held m]> ps) (i :: q') true.
Proof.
  intros E Hp. pose proof (lookup_lt_Some _ _ _ Hp) as Hlt. rewrite <- E.
  pose proof (inv_queue _ _ _ _ I) as Hq. destruct I. split; auto.
  - congruence.
  - intros [|k] j Hk.
    + rewrite E in Hk. injection Hk as <-. eexists. rewrite list_lookup_insert_eq by lia. split; [reflexivity|]. cbn. auto.
    + destruct (Hq _ _ Hk) as (pj & Hj & Ht). exists pj. split.
      * rewrite list_lookup_insert_ne; [exact Hj|]. intros ->. rewrite E in Hk, inv_nodup0.
        apply list.NoDup_cons in inv_nodup0 as [Hni _]. apply Hni. eapply list_elem_of_lookup_2, Hk.
      * destruct pj; cbn in *; try done; [|lia]. split; [apply Ht|lia].
  - intros j pj [(<- & <- & _)|(Hne & Hj)]%list_lookup_insert_Some Hqj; [|eauto].
    rewrite E. apply list_elem_of_here.
  - intros j pj [(<- & <- & _)|(Hne & Hj)]%list_lookup_insert_Some; [exact Logic.I|eauto].
Qed.

(** The holder is the head of the queue. *)
Lemma holder_is_head i m : ps !! i = Some (Held m) -> head q = Some i /\ g = true.
Proof.
  intros Hp. destruct (queued_position i _ Hp eq_refl) as (k & Hk & -> & ->).
  destruct q; cbn in *; split; congruence.
Qed.

Lemma inv_release i q' m p' : q = i :: q' -> ps !! i = Some (Held m) -> queued p' = false ->
  (forall s', try_ok s' p') -> lock_inv (spin_release s) (<[i:=p']> ps) q' false.
Proof.
  intros E Hp Hq' Ht'. pose proof (inv_queue _ _ _ _ I) as Hq. pose proof (inv_nodup _ _ _ _ I) as Hnd.
  rewrite E in Hnd. apply list.NoDup_cons in Hnd as [Hni Hnd]. destruct I. subst q.
  cbn [length] in inv_taken0. split; cbn; auto; try lia.
  - rewrite inv_front0. apply u32_succ.
  - intros k j Hk. destruct (Hq (S k) j Hk) as (pj & Hj & Ht). exists pj. split.
    + rewrite list_lookup_insert_ne; [exact Hj|]. intros ->. apply Hni. eapply list_elem_of_lookup_2, Hk.
    + destruct pj; cbn in *; try done; [|lia]. split; [|reflexivity]. rewrite (proj1 Ht). f_equal. lia.
  - intros j pj [(<- & <- & _)|(Hne & Hj)]%list_lookup_insert_Some Hqj; [congruence|].
    pose proof (inv_queued0 _ _ Hj Hqj) as [->|H]%elem_of_cons; [congruence|exact H].
  - intros j pj [(<- & <- & _)|(Hne & Hj)]%list_lookup_insert_Some; [auto|].
    specialize (inv_try0 _ _ Hj). destruct pj; cbn in *; auto; lia.
Qed.

(** A successful compare and exchange finds the lock free. *)
Lemma cas_free i m t since : ps !! i = Some (TryCas m t since) -> taken s - since < 2 ^ 32 ->
  back (lock s) = t -> q = [] /\ g = false.
Proof.
  intros Hp Hf Hb. destruct (inv_try _ _ _ _ I _ _ Hp) as [-> Hs].
  rewrite (inv_back _ _ _ _ I) in Hb. pose proof (inv_taken _ _ _ _ I) as Ht.
  apply u32_inj in Hb; [|lia]. assert (q = []) as -> by (destruct q; [done|cbn in Ht; lia]).
  split; [done|]. apply (inv_empty _ _ _ _ I). done.
Qed.

Lemma inv_cas i m t since : ps !! i = Some (TryCas m t since) -> taken s - since < 2 ^ 32 ->
  back (lock s) = t -> lock_inv (snd (cas_back t s)) (<[i:=Held m]> ps) [i] true.
Proof.
  intros Hp Hf Hb. destruct (cas_free _ _ _ _ Hp Hf Hb) as [E ->].
  pose proof (lookup_lt_Some _ _ _ Hp) as Hlt. destruct I. subst q. cbn [length] in *.
  unfold cas_back. rewrite Hb, Z.eqb_refl. split; cbn; auto; try lia; try congruence.
  - rewrite <- Hb, inv_back0. apply u32_succ.
  - apply NoDup_singleton.
  - intros k j [-> ->]%list_lookup_singleton_Some. eexists. rewrite list_lookup_insert_eq by lia. split; [reflexivity|]. cbn. auto.
  - intros j pj [(<- & <- & _)|(Hne & Hj)]%list_lookup_insert_Some Hqj; [apply list_elem_of_here|].
    apply (inv_queued0 _ _ Hj) in Hqj. inversion Hqj.
  - intros j pj [(<- & <- & _)|(Hne & Hj)]%list_lookup_insert_Some; [exact Logic.I|].
    specialize (inv_try0 _ _ Hj). destruct pj; cbn in *; auto; lia.
Qed.

(** A ticket found at the front was loaded when the lock was free. *)
Lemma inv_front_seen i m t since : ps !! i = Some (TryFront m t since) -> taken s - since < 2 ^ 32 ->
  front (lock s) = t -> 0 <= since <= served s.
Proof.
  intros Hp Hf Hb. destruct (inv_try _ _ _ _ I _ _ Hp) as [-> Hs].
  rewrite (inv_front _ _ _ _ I) in Hb. pose proof (inv_taken _ _ _ _ I) as Ht.
  pose proof queue_bound. pose proof (inv_served _ _ _ _ I). apply u32_inj in Hb; lia.
Qed.
End Invariant.

(** ** Refinement *)

Section Runs.
Context (a : arch).

Inductive run (c : config) : config -> Prop :=
  | run_refl : run c c
  | run_step i o c1 c2 : run c c1 -> fresh c1 -> config_step a i o c1 = Ok c2 -> run c c2.

Definition abs (c : config) (f : fifo) : Prop := lock_inv (sh c) (pcs c) (queue f) (granted f).

(** A step of a thread that is not queued and leaves the lock alone. *)
Lemma local_step s ps q g i p p' : lock_inv s ps q g -> ps !! i = Some p -> queued p = false ->
  queued p' = false -> try_ok s p' ->
  exists f, lock_inv s (<[i:=p']> ps) (queue f) (granted f) /\ fifo_step i (Fifo q g) f.
Proof.
  intros I Hp Hq Hq' Ht. exists (Fifo q g). split; [eapply inv_local; eauto|]. apply fifo_stutter.
  intros Hh. apply (unqueued _ _ _ _ I _ _ Hp Hq). destruct q; [done|]. injection Hh as ->. apply list_elem_of_here.
Qed.
Lemma enqueue_step s ps q g i p m : lock_inv s ps q g -> ps !! i = Some p -> queued p = false ->
  exists f, lock_inv (snd (fetch_add_back s)) (<[i:=Spin m (fst (fetch_add_back s))]> ps) (queue f) (granted f) /\
    fifo_step i (Fifo q g) f.
Proof.
  intros I Hp Hq. exists (Fifo (q ++ [i]) g). split; [eapply inv_enqueue; eauto|].
  apply fifo_enqueue. eapply unqueued; eauto.
Qed.
Lemma spin_step s ps q g i m t : lock_inv s ps q g -> Z.of_nat (length ps) < 2 ^ 32 ->
  ps !! i = Some (Spin m t) ->
  exists f, lock_inv s (<[i:=spin_acquire_step m t s]> ps) (queue f) (granted f) /\ fifo_step i (Fifo q g) f.
Proof.
  intros I Hn Hp. unfold spin_acquire_step. destruct (Z.eqb_spec (front (lock s)) t) as [Ef|Ef].
  - destruct (served_is_head _ _ _ _ I Hn _ _ _ Hp Ef) as [Hh ->]. destruct q as [|j q]; [done|].
    injection Hh as ->. exists (Fifo (i :: q) true). split; [eapply inv_grant; eauto|constructor].
  - exists (Fifo q g). rewrite list_insert_id by exact Hp. split; [exact I|]. apply fifo_stutter.
    intros Hh. destruct q as [|j q]; [done|]. injection Hh as ->.
    destruct (inv_queue _ _ _ _ I 0%nat i eq_refl) as (p & Hp' & Ht). simplify_eq.
    destruct Ht as [-> _]. apply Ef. rewrite (inv_front _ _ _ _ I). f_equal. lia.
Qed.
Lemma release_step s ps q g i m : lock_inv s ps q g -> ps !! i = Some (Held m) ->
  exists f, lock_inv (spin_release s) (<[i:=Released m]> ps) (queue f) (granted f) /\ fifo_step i (Fifo q g) f.
Proof.
  intros I Hp. destruct (holder_is_head _ _ _ _ I _ _ Hp) as [Hh ->]. destruct q as [|j q]; [done|].
  injection Hh as ->. exists (Fifo q false). split; [|constructor]. eapply inv_release; eauto. done.
Qed.
Lemma cas_step s ps q g i m t since : lock_inv s ps q g -> ps !! i = Some (TryCas m t since) ->
  taken s - since < 2 ^ 32 ->
  exists f, lock_inv (snd (cas_back t s)) (<[i:=if fst (cas_back t s) then Held m else TryFail m]> ps)
      (queue f) (granted f) /\ fifo_step i (Fifo q g) f.
Proof.
  intros I Hp Hf. destruct (Z.eqb_spec (back (lock s)) t) as [Eb|Eb].
  - destruct (cas_free _ _ _ _ I _ _ _ _ Hp Hf Eb) as [-> ->]. exists (Fifo [i] true).
    pose proof (inv_cas _ _ _ _ I _ _ _ _ Hp Hf Eb) as H. unfold cas_back in *. rewrite Eb, Z.eqb_refl in *.
    split; [exact H|constructor].
  - unfold cas_back. destruct (Z.eqb_spec (back (lock s)) t) as [?|_]; [done|]. cbn [fst snd].
    eapply local_step; eauto; done.
Qed.

Definition config_ok (c : config) : Prop :=
  length (cpus c) = length (pcs c) /\ Z.of_nat (length (pcs c)) < 2 ^ 32.

(** What a step does, in a configuration that has the thread. *)
Lemma config_step_inv i o c c' : config_ok c -> config_step a i o c = Ok c' ->
  (c' = c /\ pcs c !! i = None) \/
  exists t p s' t' p', cpus c !! i = Some t /\ pcs c !! i = Some p /\
    thread_step a o (sh c) t p = Ok (s', t', p') /\
    c' = Config s' (<[i:=t']> (cpus c)) (<[i:=p']> (pcs c)).
Proof.
  intros [Hl _] H. unfold config_step in H. destruct (pcs c !! i) as [p|] eqn:Hp.
  - destruct (lookup_lt_is_Some_2 (cpus c) i) as [t Ht]; [rewrite Hl; eapply lookup_lt_Some; eauto|].
    rewrite Ht in H. destruct (thread_step a o (sh c) t p) as [[[s' t'] p']| | |] eqn:E; try discriminate.
    injection H as <-. right. exists t, p, s', t', p'. auto.
  - left. destruct (cpus c !! i); split; congruence.
Qed.
Lemma config_step_ok i o c c' : config_ok c -> config_step a i o c = Ok c' -> config_ok c'.
Proof.
  intros Hok H. destruct (config_step_inv _ _ _ _ Hok H) as [[-> _]|(t & p & s' & t' & p' & _ & _ & _ & ->)];
    [exact Hok|]. unfold config_ok in *. cbn. rewrite !length_insert. exact Hok.
Qed.

Lemma thread_step_sim o s t i p ps q g s' t' p' : lock_inv s ps q g -> Z.of_nat (length ps) < 2 ^ 32 ->
  ps !! i = Some p -> pc_fresh s p -> thread_step a o s t p = Ok (s', t', p') ->
  exists f, lock_inv s' (<[i:=p']> ps) (queue f) (granted f) /\ fifo_step i (Fifo q g) f.
Proof.
  intros I Hn Hp Hf H. pose proof (inv_served _ _ _ _ I). pose proof (inv_taken _ _ _ _ I).
  destruct p as [|m|m k|m|m k since|m k since|m|m|m]; cbn [thread_step] in H.
  - destruct o; cbn in H; injection H as <- <- <-; eapply local_step; eauto; done.
  - injection H as <- <- <-. exact (enqueue_step s ps q g i _ m I Hp eq_refl).
  - injection H as <- <- <-. exact (spin_step s ps q g i m k I Hn Hp).
  - injection H as <- <- <-. eapply local_step; eauto; try done. cbn.
    split; [apply (inv_back _ _ _ _ I)|lia].
  - injection H as <- <- <-. destruct (Z.eqb_spec (front (lock s)) k) as [E|E]; eapply local_step; eauto; try done.
    cbn. split; [apply (inv_try _ _ _ _ I _ _ Hp)|]. eapply inv_front_seen; eauto.
  - pose proof (cas_step s ps q g i m k since I Hp Hf) as Hc.
    destruct (cas_back k s) as [d s1]. injection H as <- <- <-. exact Hc.
  - injection H as <- <- <-. eapply local_step; eauto; done.
  - injection H as <- <- <-. exact (release_step s ps q g i m I Hp).
  - destruct (end_release a m t); try discriminate. injection H as <- <- <-. eapply local_step; eauto; done.
Qed.

Lemma config_step_sim i o c c' f : abs c f -> fresh c -> config_ok c ->
  config_step a i o c = Ok c' -> exists f', abs c' f' /\ fifo_step i f f'.
Proof.
  unfold abs. destruct f as [q g]. intros I Hf Hok H.
  destruct (config_step_inv _ _ _ _ Hok H) as [[-> Hp]|(t & p & s' & t' & p' & Ht & Hp & Hs & ->)].
  - exists (Fifo q g). split; [exact I|]. apply fifo_stutter. intros Hh. destruct q as [|j q]; [done|].
    injection Hh as ->. destruct (inv_queue _ _ _ _ I 0%nat i eq_refl) as (p & Hp' & _). congruence.
  - eapply thread_step_sim; eauto; apply Hok.
Qed.

Lemma init_ok (ts : list cpu) : Z.of_nat (length ts) < 2 ^ 32 -> config_ok (init ts).
Proof. intros H. unfold config_ok. cbn. rewrite length_replicate. auto. Qed.

Definition fifo_any (f f' : fifo) : Prop := exists i, fifo_step i f f'.

Lemma run_sim ts c : Z.of_nat (length ts) < 2 ^ 32 -> run (init ts) c ->
  config_ok c /\ exists f, rtc fifo_any (Fifo [] false) f /\ abs c f.
Proof.
  intros Hn H. induction H as [|i o c1 c2 _ (Hok & f & Hr & Ha) Hf Hs].
  - split; [apply init_ok, Hn|]. exists (Fifo [] false). split; [apply rtc_refl|apply lock_inv_init].
  - split; [eapply config_step_ok; eauto|]. destruct (config_step_sim _ _ _ _ _ Ha Hf Hok Hs) as (f' & Ha' & Hs').
    exists f'. split; [|exact Ha']. eapply rtc_r; [exact Hr|]. exists i. exact Hs'.
Qed.

Definition holds (c : config) (i : nat) : Prop := exists m, pcs c !! i = Some (Held m).
Definition waits (c : config) (i : nat) : Prop := exists m t, pcs c !! i = Some (Spin m t).
End Runs.

(** ** Interrupts and preemption *)

Definition mode_of (p : pc) : mode :=
  match p with
  | Idle => Plain
  | Enter m | Spin m _ | TryBack m | TryFront m _ _ | TryCas m _ _ | TryFail m | Held m | Released m => m
  end.
Definition trying (p : pc) : bool :=
  match p with TryBack _ | TryFront _ _ _ | TryCas _ _ _ | TryFail _ => true | _ => false end.

(** The state of a CPU whose state was [t0] when its thread was last idle. *)
Record cpu_inv (a : arch) (t0 t : cpu) (p : pc) : Prop := CpuInv {
  inv_preempt : preemption_disabled t =
    preemption_disabled t0 + match mode_of p with Preempt => 1 | _ => 0 end;
  inv_no_try : trying p = true -> mode_of p <> Preempt;
  inv_intr : a <> loongarch64 ->
    match mode_of p with
    | SaveIrq flag => flag = intr_enable t0 /\ intr_enable t = false
    | _ => intr_enable t = intr_enable t0
    end }.

(** Fewer than 2^16 - 1 nested sections. *)
Definition preempt_room (t : cpu) : Prop := 0 <= preemption_disabled t < 2 ^ 16 - 1.

Lemma begin_op_cpu a o t0 : preempt_room t0 ->
  cpu_inv a t0 (fst (begin_op a o t0)) (snd (begin_op a o t0)).
Proof.
  unfold preempt_room. destruct t0 as [i0 n0]. cbn. intros Hr.
  destruct o; cbn; split; cbn; try congruence; try lia.
  - destruct i0; cbn; lia.
  - destruct i0, a; cbn; intros; split; congruence.
  - apply wrap_small. unfold is_u. lia.
  - destruct a, i0; cbn; lia.
  - destruct i0, a; cbn; intros; split; congruence.
Qed.
Lemma end_release_cpu a t0 t p : preempt_room t0 -> cpu_inv a t0 t p ->
  exists t', end_release a (mode_of p) t = Ok t' /\ cpu_inv a t0 t' Idle.
Proof.
  unfold preempt_room. destruct t0 as [i0 n0], t as [i n]. intros Hr [Hp _ Hi]. cbn in *.
  destruct (mode_of p) as [|flag|]; cbn in *.
  - eexists. split; [reflexivity|]. split; cbn; try done.
  - eexists. split; [reflexivity|]. split; cbn; try done; [destruct flag; cbn; lia|].
    intros Ha. destruct (Hi Ha) as [-> ->]. destruct i0, a; cbn; congruence.
  - unfold preempt_enable. cbn. destruct (Z.eqb_spec n 0); [lia|]. eexists. split; [reflexivity|]. split; cbn; try done.
    rewrite wrap_small by (unfold is_u; lia). lia.
Qed.
Lemma end_try_cpu a t0 t p : cpu_inv a t0 t p -> trying p = true -> cpu_inv a t0 (end_try a (mode_of p) t) Idle.
Proof.
  destruct t0 as [i0 n0], t as [i n]. intros [Hp Ht Hi] Htr. specialize (Ht Htr). cbn in *.
  destruct (mode_of p) as [|flag|]; cbn in *; [|..|congruence]; split; cbn; try done.
  - destruct flag; cbn; lia.
  - intros Ha. destruct (Hi Ha) as [-> ->]. destruct i0, a; cbn; congruence.
Qed.
Lemma cpu_inv_rebase a t0 t t' p : cpu_inv a t0 t Idle -> cpu_inv a t t' p -> cpu_inv a t0 t' p.
Proof.
  intros H0 [H1 H2 H3]. split; auto.
  - rewrite H1, (inv_preempt _ _ _ _ H0). cbn. lia.
  - intros Ha. specialize (H3 Ha). pose proof (inv_intr _ _ _ _ H0 Ha) as E. cbn in E. rewrite <- E. exact H3.
Qed.
Lemma cpu_inv_same_mode a t0 t p p' : cpu_inv a t0 t p -> mode_of p' = mode_of p ->
  (trying p' = true -> trying p = true) -> cpu_inv a t0 t p'.
Proof. intros [H1 H2 H3] Hm Ht. split; rewrite Hm; auto. Qed.

Lemma thread_step_cpu a o s t0 t p : preempt_room t0 -> cpu_inv a t0 t p ->
  exists s' t' p', thread_step a o s t p = Ok (s', t', p') /\ cpu_inv a t0 t' p'.
Proof.
  intros Hr Hi.
  assert (same : forall (s1 : shared) p1, mode_of p1 = mode_of p -> (trying p1 = true -> trying p = true) ->
    exists s' t' p', Ok (s1, t, p1) = Ok (s', t', p') /\ cpu_inv a t0 t' p').
  { intros s1 p1 Hm Ht. exists s1, t, p1. split; [reflexivity|]. eapply cpu_inv_same_mode; eauto. }
  destruct p as [|m|m k|m|m k since|m k since|m|m|m]; cbn [thread_step]; try (apply same; done).
  - assert (Hr' : preempt_room t) by (unfold preempt_room in *; rewrite (inv_preempt _ _ _ _ Hi); cbn; lia).
    pose proof (cpu_inv_rebase _ _ _ _ _ Hi (begin_op_cpu a o t Hr')) as H.
    destruct (begin_op a o t) as [t' p']. do 3 eexists. eauto.
  - apply same; unfold spin_acquire_step; destruct (front _ =? k); done.
  - apply same; destruct (front _ =? k); done.
  - destruct (cas_back k s) as [[] s1]; apply same; done.
  - do 3 eexists. split; [reflexivity|]. exact (end_try_cpu _ _ _ _ Hi eq_refl).
  - destruct (end_release_cpu _ _ _ _ Hr Hi) as (t' & E & H). cbn in E. rewrite E. do 3 eexists. eauto.
Qed.

Section CpuRuns.
Context (a : arch) (ts : list cpu) (Hts : Forall preempt_room ts).

Definition cpus_inv (c : config) : Prop :=
  forall i t0, ts !! i = Some t0 -> exists t p, cpus c !! i = Some t /\ pcs c !! i = Some p /\ cpu_inv a t0 t p.

Lemma cpus_inv_init : cpus_inv (init ts).
Proof.
  intros i t0 Ht. exists t0, Idle. cbn. split; [exact Ht|]. split.
  - apply lookup_replicate. split; [reflexivity|]. eapply lookup_lt_Some; eauto.
  - split; cbn; try done. lia.
Qed.

(** A step never panics and keeps the invariant. *)
Lemma config_step_cpus i o c : length (cpus c) = length ts -> cpus_inv c -> exists c', config_step a i o c = Ok c' /\
  cpus_inv c' /\ length (cpus c') = length ts.
Proof.
  intros Hl Hc. unfold config_step. destruct (cpus c !! i) as [t|] eqn:Et; [|eauto].
  destruct (lookup_lt_is_Some_2 ts i) as [t0 Ht0]; [rewrite <- Hl; eapply lookup_lt_Some; eauto|].
  destruct (Hc i t0 Ht0) as (t1 & p & Et1 & Ep & Hi). simplify_eq. rewrite Ep.
  destruct (thread_step_cpu a o (sh c) t0 t p) as (s' & t' & p' & -> & Hi'); [|exact Hi|].
  { eapply list.Forall_lookup_1; eauto. }
  eexists. split; [reflexivity|]. cbn. split; [|rewrite length_insert; exact Hl].
  intros j tj Hj. destruct (Hc j tj Hj) as (tj' & pj & Ecj & Epj & Hij). cbn.
  destruct (decide (j = i)) as [->|Hne].
  - simplify_eq. exists t', p'. rewrite !list_lookup_insert_eq by (eapply lookup_lt_Some; eauto). auto.
  - exists tj', pj. rewrite !list_lookup_insert_ne by auto. auto.
Qed.

Lemma run_cpus c : run a (init ts) c -> length (cpus c) = length ts /\ cpus_inv c.
Proof.
  intros H. induction H as [|i o c1 c2 _ [Hl IH] _ Hs]; [split; [reflexivity|apply cpus_inv_init]|].
  destruct (config_step_cpus i o c1 Hl IH) as (c' & E & H1 & H2). rewrite Hs in E. injection E as <-. auto.
Qed.
End CpuRuns.

(** ** Progress *)

(** The configuration after [k] steps of a schedule. *)
Fixpoint exec (a : arch) (sched : nat -> nat * op) (c : config) (k : nat) : outcome config :=
  match k with
  | O => Ok c
  | S k => c ← exec a sched c k; config_step a (fst (sched k)) (snd (sched k)) c
  end.

(** Each of [n] threads is scheduled again and again. *)
Definition fair (n : nat) (sched : nat -> nat * op) : Prop :=
  forall i k, (i < n)%nat -> exists k', (k <= k')%nat /\ fst (sched k') = i.

(** How far the thread at position [pos] is from holding the lock. *)
Definition rank (pos : nat) (g : bool) : nat := 2 * pos + if g then 0 else 1.

Lemma rank_step j f f' pos i : fifo_step j f f' -> queue f !! pos = Some i -> rank pos (granted f) <> 0%nat ->
  exists pos', queue f' !! pos' = Some i /\
    ((rank pos' (granted f') < rank pos (granted f))%nat \/
     (rank pos' (granted f') = rank pos (granted f) /\ head (queue f') = head (queue f) /\
      head (queue f) <> Some j)).
Proof.
  unfold rank. intros [q g Hh|q g Hj|q| |q] Hp Hr; cbn [queue granted] in *.
  - exists pos. auto.
  - exists pos. split; [apply lookup_app_l_Some; exact Hp|]. right. split; [reflexivity|].
    destruct q as [|x q]; [done|]. split; [reflexivity|]. cbn. intros [= ->]. apply Hj, list_elem_of_here.
  - exists pos. split; [exact Hp|]. left. lia.
  - done.
  - destruct pos as [|pos]; [lia|]. exists pos. split; [exact Hp|]. left. lia.
Qed.

Section Progress.
Context (a : arch) (ts : list cpu) (Hts : Forall preempt_room ts) (Hn : Z.of_nat (length ts) < 2 ^ 32).
Context (sched : nat -> nat * op) (Hfair : fair (length ts) sched).
Context (Hfresh : forall k c, exec a sched (init ts) k = Ok c -> fresh c).

Lemma exec_run k : exists c, exec a sched (init ts) k = Ok c /\ run a (init ts) c.
Proof.
  induction k as [|k (c & E & Hr)]; [eexists; split; [reflexivity|apply run_refl]|].
  cbn [exec]. rewrite E. cbn. destruct (run_cpus a ts Hts c Hr) as [Hl Hc].
  destruct (config_step_cpus a ts Hts (fst (sched k)) (snd (sched k)) c Hl Hc) as (c' & Ec & _).
  exists c'. split; [exact Ec|]. eapply run_step; eauto.
Qed.
Lemma exec_sim k c f : exec a sched (init ts) k = Ok c -> abs c f ->
  exists c' f', exec a sched (init ts) (S k) = Ok c' /\ abs c' f' /\ fifo_step (fst (sched k)) f f'.
Proof.
  intros E Ha. destruct (exec_run k) as (c0 & E0 & Hr). rewrite E in E0. injection E0 as <-.
  destruct (run_sim a ts c Hn Hr) as [Hok _]. destruct (exec_run (S k)) as (c' & E' & _).
  pose proof E' as Es. cbn [exec] in Es. rewrite E in Es. cbn in Es.
  destruct (config_step_sim _ _ _ _ _ _ Ha (Hfresh _ _ E) Hok Es) as (f' & Ha' & Hs). eauto.
Qed.

Lemma queued_holds i r : forall k c f pos, exec a sched (init ts) k = Ok c -> abs c f ->
  queue f !! pos = Some i -> rank pos (granted f) = r ->
  exists k' c', (k <= k')%nat /\ exec a sched (init ts) k' = Ok c' /\ holds c' i.
Proof.
  induction r as [r IH] using lt_wf_ind. intros k c f pos E Ha Hq Hr.
  destruct (decide (r = 0%nat)) as [->|Hr0].
  - exists k, c. split; [lia|]. split; [exact E|].
    destruct (inv_queue _ _ _ _ Ha _ _ Hq) as (p & Hp & Ht). unfold rank in Hr.
    destruct (granted f); [|lia]. assert (pos = 0%nat) as -> by lia. destruct p; cbn in Ht; try done.
    + destruct Ht as [_ Ht]. discriminate (Ht eq_refl).
    + exists m. exact Hp.
  - destruct (head (queue f)) as [h|] eqn:Hh; [|destruct (queue f); done].
    destruct (Hfair h k) as (k1 & Hk1 & Hs).
    { destruct (exec_run k) as (c0 & E0 & Hrun). rewrite E in E0. injection E0 as <-.
      destruct (run_cpus a ts Hts c Hrun) as [<- _]. destruct (run_sim a ts c Hn Hrun) as [[-> _] _].
      destruct (inv_queue _ _ _ _ Ha 0%nat h) as (p & Hp & _); [|eapply lookup_lt_Some; eauto].
      destruct (queue f); [done|]. exact Hh. }
    assert (exists d, k1 = (k + d)%nat) as [d Hd] by (exists (k1 - k)%nat; lia). clear Hk1.
    revert k c f pos E Ha Hq Hr Hh Hd. induction d as [|d IHd]; intros k c f pos E Ha Hq Hr Hh Hd;
      (destruct (exec_sim k c f E Ha) as (c' & f' & E' & Ha' & Hst));
      (destruct (rank_step _ _ _ _ _ Hst Hq) as (pos' & Hq' & [Hlt|(Heq & Hh' & Hne)]); [congruence|..]).
    1,3: destruct (IH _ ltac:(rewrite <- Hr; exact Hlt) (S k) c' f' pos' E' Ha' Hq' eq_refl) as (k' & c2 & Hle & H);
      exists k', c2; split; [lia|exact H].
    + assert (k1 = k) as -> by lia. rewrite Hs in Hne. congruence.
    + destruct (IHd (S k) c' f' pos') as (k' & c2 & Hle & H); try congruence; auto; try lia.
      exists k', c2. split; [lia|exact H].
Qed.
End Progress.

(** Without [spin_try_acquire] every configuration is fresh. *)
Definition blocking (o : op) : bool :=
  match o with Op_spin_try_acquire | Op_spin_try_acquire_save_irq => false | _ => true end.

Lemma thread_step_no_try a o s t p s' t' p' : blocking o = true -> trying p = false ->
  thread_step a o s t p = Ok (s', t', p') -> trying p' = false.
Proof.
  intros Ho Hp H. destruct p; try discriminate; cbn in H; try (injection H as <- <- <-; reflexivity).
  - destruct o; try discriminate; injection H as <- <- <-; reflexivity.
  - injection H as <- <- <-. unfold spin_acquire_step. destruct (_ =? _); reflexivity.
  - destruct (end_release a m t); try discriminate. injection H as <- <- <-. reflexivity.
Qed.
Lemma exec_no_try a sched ts k c : (forall k, blocking (snd (sched k)) = true) ->
  exec a sched (init ts) k = Ok c -> Forall (fun p => trying p = false) (pcs c).
Proof.
  intros Ho. revert c. induction k as [|k IH]; intros c H; cbn [exec] in H.
  - injection H as <-. cbn. apply Forall_replicate. reflexivity.
  - destruct (exec a sched (init ts) k) as [c1| | |]; try discriminate. cbn in H. specialize (IH c1 eq_refl).
    unfold config_step in H. destruct (cpus c1 !! _) as [t|]; [|injection H as <-; exact IH].
    destruct (pcs c1 !! _) as [p|] eqn:Ep; [|injection H as <-; exact IH].
    destruct (thread_step _ _ _ t p) as [[[s' t'] p']| | |] eqn:E; try discriminate. injection H as <-. cbn.
    apply Forall_insert; [exact IH|]. eapply thread_step_no_try; eauto.
    exact (Forall_lookup_1 _ _ _ _ IH Ep).
Qed.
Lemma no_try_fresh c : Forall (fun p => trying p = false) (pcs c) -> fresh c.
Proof. intros H i p Hp. pose proof (Forall_lookup_1 _ _ _ _ H Hp) as Ht. destruct p; done. Qed.

(** ** A thread alone

    [with_spinlock_irq_disabled] of a thread while no other thread uses the lock: it returns
    when the lock is free, and spins without end when it is held. *)

Section Alone.
Context (a : arch).

(** Steps of the thread until it holds the lock. *)
Fixpoint acquire_alone (fuel : nat) (o : op) (s : shared) (t : cpu) (p : pc) : outcome (shared * cpu * mode) :=
  match p with
  | Held m => Ok (s, t, m)
  | _ => match fuel with
         | O => Diverge
         | S fuel => '(s, t, p) ← thread_step a o s t p; acquire_alone fuel o s t p
         end
  end.
Definition spin_acquire_save_irq (fuel : nat) (s : shared) (t : cpu) : outcome (shared * cpu * mode) :=
  acquire_alone fuel Op_spin_acquire_save_irq s t Idle.
Definition spin_release_restore_irq (s : shared) (t : cpu) (m : mode) : outcome (shared * cpu) :=
  t ← end_release a m t; Ok (spin_release s, t).
Definition with_spinlock_irq_disabled {A} (fuel : nat) (s : shared) (t : cpu)
    (block : shared -> cpu -> outcome (A * shared * cpu)) : outcome (A * shared * cpu) :=
  '(s, t, m) ← spin_acquire_save_irq fuel s t;
  '(x, s, t) ← block s t;
  '(s, t) ← spin_release_restore_irq s t m;
  Ok (x, s, t).

Definition lock_free (s : shared) : Prop := front (lock s) = back (lock s) /\ is_u32 (front (lock s)).
Definition lock_held (s : shared) : Prop := back (lock s) = u32 (front (lock s) + 1) /\ is_u32 (front (lock s)).
(** Interrupts as they are in the critical section. *)
Definition irqs_off (t : cpu) : cpu := if are_interrupts_enabled t then disable_interrupts a t else t.

Lemma acquire_free fuel s t : lock_free s -> (3 <= fuel)%nat -> exists s',
  spin_acquire_save_irq fuel s t = Ok (s', irqs_off t, SaveIrq (are_interrupts_enabled t)) /\ lock_held s'.
Proof.
  intros (E & U) Hf. do 3 (destruct fuel as [|fuel]; [lia|]). unfold spin_acquire_save_irq. cbn.
  unfold spin_acquire_step. cbn. rewrite E, Z.eqb_refl. eexists. split; [destruct fuel; reflexivity|].
  split; cbn; [reflexivity|rewrite <- E; exact U].
Qed.
Lemma release_held s : lock_held s -> lock_free (spin_release s).
Proof. intros (E & U). split; cbn; [symmetry; exact E|apply wrap_bound; lia]. Qed.
(** The section runs with the lock held and interrupts off; the thread leaves it with the
    lock free and its interrupts as before. *)
Lemma with_spinlock_free {A} fuel s t (block : shared -> cpu -> outcome (A * shared * cpu)) (P : A -> Prop) :
  a <> loongarch64 -> lock_free s -> (3 <= fuel)%nat ->
  (forall s', lock_held s' -> exists x s'', block s' (irqs_off t) = Ok (x, s'', irqs_off t) /\ lock_held s'' /\ P x) ->
  exists x s', with_spinlock_irq_disabled fuel s t block = Ok (x, s', t) /\ lock_free s' /\ P x.
Proof.
  intros Ha F Hf B. unfold with_spinlock_irq_disabled. destruct (acquire_free fuel s t F Hf) as (s1 & -> & H1).
  cbn [mbind outcome_bind]. destruct (B s1 H1) as (x & s2 & -> & H2 & Px). cbn. exists x, (spin_release s2).
  split; [|split; [apply release_held, H2|exact Px]]. destruct t as [[] n]; destruct a; try reflexivity; contradiction.
Qed.
(** A thread that holds the lock never gets it a second time. *)
Lemma acquire_held fuel s t : lock_held s -> spin_acquire_save_irq fuel s t = Diverge.
Proof.
  intros (E & U). assert (Hne : (front (lock s) =? back (lock s)) = false).
  { apply Z.eqb_neq. rewrite E. unfold wrap, is_u in *. dlia. }
  assert (L : forall fuel s' t m, front (lock s') = front (lock s) ->
    acquire_alone fuel Op_spin_acquire_save_irq s' t (Spin m (back (lock s))) = Diverge).
  { clear fuel t. induction fuel as [|fuel IH]; intros s' t m Ef; [reflexivity|]. cbn. unfold spin_acquire_step.
    rewrite Ef, Hne. apply IH, Ef. }
  unfold spin_acquire_save_irq. destruct fuel as [|[|fuel]]; try reflexivity. cbn. apply L. reflexivity.
Qed.
Lemma with_spinlock_held {A} fuel s t (block : shared -> cpu -> outcome (A * shared * cpu)) :
  lock_held s -> with_spinlock_irq_disabled fuel s t block = Diverge.
Proof. intros Hh. unfold with_spinlock_irq_disabled. rewrite acquire_held by exact Hh. reflexivity. Qed.
End Alone.

(** ** Properties *)


(** C9: at most one thread holds a spinlock, for fewer than 2^32 threads and as long as
    no [spin_try_acquire] is overtaken by 2^32 tickets between its load and its
    exchange. *)
Theorem spin_mutual_exclusion a ts c i j : Z.of_nat (length ts) < 2 ^ 32 -> run a (init ts) c ->
  holds c i -> holds c j -> i = j.
Proof.
  intros Hn Hr (m & Hi) (m' & Hj). destruct (run_sim a ts c Hn Hr) as (_ & f & _ & Ha).
  destruct (holder_is_head _ _ _ _ Ha _ _ Hi), (holder_is_head _ _ _ _ Ha _ _ Hj). congruence.
Qed.

(** C10: under every fair schedule a thread that waits for a spinlock comes to hold it. *)
Theorem spin_acquire_eventually a ts sched i k c :
  Forall preempt_room ts -> Z.of_nat (length ts) < 2 ^ 32 -> fair (length ts) sched ->
  (forall k c, exec a sched (init ts) k = Ok c -> fresh c) ->
  exec a sched (init ts) k = Ok c -> waits c i ->
  exists k' c', (k <= k')%nat /\ exec a sched (init ts) k' = Ok c' /\ holds c' i.
Proof.
  intros Hts Hn Hfair Hfresh E (m & t & Hp). destruct (exec_run a ts Hts sched Hfresh k) as (c0 & E0 & Hr).
  rewrite E in E0. injection E0 as <-. destruct (run_sim a ts c Hn Hr) as (_ & f & _ & Ha).
  destruct (queued_position _ _ _ _ Ha _ _ Hp eq_refl) as (pos & Hpos & _).
  eapply queued_holds; eauto.
Qed.

(** C38: the operations on a spinlock never panic and leave a CPU as they found it:
    outside them the interrupt flag and the preemption count have their initial values,
    interrupts are off while a thread acquires, holds or releases the lock with
    [spin_acquire_save_irq] or [spin_try_acquire_save_irq], and preemption is disabled
    while it does with [spin_acquire_preempt_disable]; LoongArch excepted. *)
Theorem spin_restores_cpu a ts c : a <> loongarch64 -> Forall preempt_room ts -> run a (init ts) c ->
  (forall i o, exists c', config_step a i o c = Ok c') /\
  forall i t0, ts !! i = Some t0 -> exists t p, cpus c !! i = Some t /\ pcs c !! i = Some p /\
    match mode_of p with
    | Plain => t = t0
    | SaveIrq flag => flag = are_interrupts_enabled t0 /\ are_interrupts_enabled t = false /\
                      preemption_disabled t = preemption_disabled t0
    | Preempt => preemption_enabled t = false /\ are_interrupts_enabled t = are_interrupts_enabled t0
    end.
Proof.
  intros Ha Hts Hr. destruct (run_cpus a ts Hts c Hr) as [Hl Hc]. split.
  - intros i o. destruct (config_step_cpus a ts Hts i o c Hl Hc) as (c' & E & _). eauto.
  - intros i t0 Ht0. destruct (Hc i t0 Ht0) as (t & p & Et & Ep & [Hp _ Hi]). specialize (Hi Ha).
    exists t, p. split; [exact Et|]. split; [exact Ep|].
    pose proof (Forall_lookup_1 _ _ _ _ Hts Ht0) as Hroom. unfold preempt_room in Hroom.
    destruct t as [b n], t0 as [b0 n0]. unfold preemption_enabled, are_interrupts_enabled in *. cbn in *.
    destruct (mode_of p); cbn in *; [subst b; f_equal; lia|repeat split; try tauto; lia|].
    split; [apply Z.eqb_neq; lia|exact Hi].
Qed.

(** ** Two threads taking turns *)

Definition demo_ts : list cpu := [Cpu true 0; Cpu true 0].
Definition demo_sched (k : nat) : nat * op := (Nat.modulo k 2, Op_spin_acquire_save_irq).

Lemma demo_room : Forall preempt_room demo_ts.
Proof. repeat constructor; cbn; lia. Qed.
Lemma demo_few : Z.of_nat (length demo_ts) < 2 ^ 32.
Proof. cbn. lia. Qed.
Lemma demo_fresh k c : exec x86_64 demo_sched (init demo_ts) k = Ok c -> fresh c.
Proof. intros H. eapply no_try_fresh, exec_no_try; [|exact H]. reflexivity. Qed.
Lemma demo_fair : fair (length demo_ts) demo_sched.
Proof.
  intros i k Hi. cbn in Hi. exists (2 * k + i)%nat. split; [lia|]. unfold demo_sched. cbn [fst].
  rewrite Nat.add_comm, Nat.mul_comm, Nat.Div0.mod_add. apply Nat.mod_small. lia.
Qed.
(** After six steps thread 0 holds the lock and thread 1 waits. *)
Definition demo_config : config :=
  Config (Shared (Spinlock 0 2) 2 0) [Cpu false 0; Cpu false 0] [Held (SaveIrq true); Spin (SaveIrq true) 1].
Lemma demo_exec : exec x86_64 demo_sched (init demo_ts) 6 = Ok demo_config.
Proof. reflexivity. Qed.
Lemma demo_run : run x86_64 (init demo_ts) demo_config.
Proof.
  destruct (exec_run x86_64 demo_ts demo_room demo_sched demo_fresh 6) as (c & E & H).
  rewrite demo_exec in E. injection E as <-. exact H.
Qed.

Lemma spin_mutual_exclusion_witness : holds demo_config 0 /\ 0%nat = 0%nat.
Proof.
  assert (H : holds demo_config 0) by (eexists; reflexivity).
  split; [exact H|]. exact (spin_mutual_exclusion x86_64 demo_ts demo_config 0 0 demo_few demo_run H H).
Defined.
Lemma spin_acquire_eventually_witness : waits demo_config 1 /\
  exists k' c', (6 <= k')%nat /\ exec x86_64 demo_sched (init demo_ts) k' = Ok c' /\ holds c' 1.
Proof.
  assert (H : waits demo_config 1) by (do 2 eexists; reflexivity). split; [exact H|].
  exact (spin_acquire_eventually x86_64 demo_ts demo_sched 1 6 demo_config demo_room demo_few demo_fair
    demo_fresh demo_exec H).
Defined.
Lemma spin_restores_cpu_witness : exists t p, cpus demo_config !! 0%nat = Some t /\
  pcs demo_config !! 0%nat = Some p /\
    match mode_of p with
    | Plain => t = Cpu true 0
    | SaveIrq flag => flag = are_interrupts_enabled (Cpu true 0) /\ are_interrupts_enabled t = false /\
                      preemption_disabled t = preemption_disabled (Cpu true 0)
    | Preempt => preemption_enabled t = false /\
                 are_interrupts_enabled t = are_interrupts_enabled (Cpu true 0)
    end.
Proof.
  exact (proj2 (spin_restores_cpu x86_64 demo_ts demo_config ltac:(discriminate) demo_room demo_run)
    0%nat (Cpu true 0) eq_refl).
Defined.

(** ** Limits *)

(** On LoongArch [spin_acquire_save_irq] leaves interrupts on while the lock is held and
    [spin_release_restore_irq] turns them off. *)
Lemma loongarch_irqs_swapped :
  (c ← exec loongarch64 demo_sched (init demo_ts) 6; Ok (cpus c !! 0%nat, pcs c !! 0%nat)) =
    Ok (Some (Cpu true 0), Some (Held (SaveIrq true))) /\
  (c ← exec loongarch64 demo_sched (init demo_ts) 10; Ok (cpus c !! 0%nat, pcs c !! 0%nat)) =
    Ok (Some (Cpu false 0), Some Idle).
Proof. split; reflexivity. Qed.

Definition any_step (c c' : config) : Prop := exists i o, config_step x86_64 i o c = Ok c'.

(** A thread that acquires and releases the lock [n] times moves both counters by [n]. *)
Lemma cycles t0 t1 p0 n : rtc any_step
  (Config (Shared (Spinlock 0 0) 0 0) [t0; t1] [p0; Idle])
  (Config (Shared (Spinlock (u32 (Z.of_nat n)) (u32 (Z.of_nat n))) (Z.of_nat n) (Z.of_nat n)) [t0; t1] [p0; Idle]).
Proof.
  induction n as [|n IH]; [apply rtc_refl|]. etransitivity; [exact IH|].
  rewrite Nat2Z.inj_succ. unfold Z.succ. rewrite <- (u32_succ (Z.of_nat n)).
  generalize (u32 (Z.of_nat n)). intros x.
  do 5 (eapply rtc_l; [exists 1%nat, Op_spin_acquire; cbv -[wrap Z.add Z.eqb Z.of_nat];
    rewrite ?Z.eqb_refl; reflexivity|]).
  apply rtc_refl.
Qed.

(** The counters wrap: a [spin_try_acquire] overtaken by 2^32 tickets takes a lock that
    is held. *)
Lemma try_acquire_wraps : exists c, rtc any_step (init demo_ts) c /\ holds c 0 /\ holds c 1.
Proof.
  set (t := Cpu true 0). eexists. split.
  - do 3 (eapply rtc_l; [exists 0%nat, Op_spin_try_acquire; reflexivity|]).
    etransitivity; [exact (cycles t t (TryCas Plain 0 0) (Z.to_nat (2 ^ 32 - 1)))|].
    rewrite Z2Nat.id by lia. change (u32 (2 ^ 32 - 1)) with (2 ^ 32 - 1).
    do 3 (eapply rtc_l; [exists 1%nat, Op_spin_acquire; cbv; reflexivity|]).
    eapply rtc_l; [exists 0%nat, Op_spin_acquire; cbv; reflexivity|]. apply rtc_refl.
  - split; eexists; reflexivity.
Qed.
