(* ===== verification/Ctype.v ===== *)
(** * Character classes: lib/ctype.c

    The kernel build, whose [is_ascii] is always true: the classes are read from a table
    of 128 entries without a bounds check, so a character of 128 or more, or a negative
    one where [char] is signed, reads outside the table, which is [Undef].  Characters
    are bytes. *)

From stdpp Require Import list.
From S2P Require Import Prelude.

Definition __ALPHA_LOWER : Z := Z.shiftl 1 0.
Definition __ALPHA_UPPER : Z := Z.shiftl 1 1.
Definition __CNTRL : Z := Z.shiftl 1 2.
Definition __DIGIT : Z := Z.shiftl 1 3.
Definition __GRAPH : Z := Z.shiftl 1 4.
Definition __PRINT : Z := Z.shiftl 1 5.
Definition __PUNCT : Z := Z.shiftl 1 6.
Definition __SPACE : Z := Z.shiftl 1 7.
Definition __HEX_DIGIT : Z := Z.shiftl 1 8.

(** Runs of equal entries are written with [replicate]. *)
Definition ctype_array : list Z :=
  replicate 9 (__CNTRL) ++
  replicate 5 (Z.lor __CNTRL __SPACE) ++
  replicate 18 (__CNTRL) ++
  replicate 1 (Z.lor __PRINT __SPACE) ++
  replicate 15 (Z.lor (Z.lor __GRAPH __PRINT) __PUNCT) ++
  replicate 10 (Z.lor (Z.lor (Z.lor __DIGIT __GRAPH) __PRINT) __HEX_DIGIT) ++
  replicate 7 (Z.lor (Z.lor __GRAPH __PRINT) __PUNCT) ++
  replicate 6 (Z.lor (Z.lor (Z.lor __GRAPH __PRINT) __ALPHA_UPPER) __HEX_DIGIT) ++
  replicate 20 (Z.lor (Z.lor __GRAPH __PRINT) __ALPHA_UPPER) ++
  replicate 6 (Z.lor (Z.lor __GRAPH __PRINT) __PUNCT) ++
  replicate 6 (Z.lor (Z.lor (Z.lor __GRAPH __ALPHA_LOWER) __PRINT) __HEX_DIGIT) ++
  replicate 20 (Z.lor (Z.lor __GRAPH __ALPHA_LOWER) __PRINT) ++
  replicate 4 (Z.lor (Z.lor __GRAPH __PRINT) __PUNCT) ++
  replicate 1 (__CNTRL).

(** [(ctype_array[(int)c] & mask) ? 1 : 0] *)
Definition has_class (mask c : Z) : outcome Z :=
  if (0 <=? c) && (c <? 128) then
    match ctype_array !! Z.to_nat c with
    | Some w => Ok (if Z.land w mask =? 0 then 0 else 1)
    | None => Undef
    end
  else Undef.

Definition isalnum : Z -> outcome Z := has_class (Z.lor (Z.lor __ALPHA_LOWER __ALPHA_UPPER) __DIGIT).
Definition isalpha : Z -> outcome Z := has_class (Z.lor __ALPHA_LOWER __ALPHA_UPPER).
Definition iscntrl : Z -> outcome Z := has_class __CNTRL.
Definition isdigit : Z -> outcome Z := has_class __DIGIT.
Definition isgraph : Z -> outcome Z := has_class __GRAPH.
Definition islower : Z -> outcome Z := has_class __ALPHA_LOWER.
Definition isprint : Z -> outcome Z := has_class __PRINT.
Definition ispunct : Z -> outcome Z := has_class __PUNCT.
Definition isspace : Z -> outcome Z := has_class __SPACE.
Definition isupper : Z -> outcome Z := has_class __ALPHA_UPPER.
Definition isxdigit : Z -> outcome Z := has_class __HEX_DIGIT.
Definition tolower (c : Z) : outcome Z := u ← isupper c; Ok (if u =? 0 then c else c + 32).
Definition toupper (c : Z) : outcome Z := l ← islower c; Ok (if l =? 0 then c else c - 32).

(** ** The classes of the C locale *)

Definition between (lo hi c : Z) : bool := (lo <=? c) && (c <=? hi).
Definition c_digit : Z -> bool := between 48 57.
Definition c_upper : Z -> bool := between 65 90.
Definition c_lower : Z -> bool := between 97 122.
Definition c_alpha (c : Z) : bool := c_upper c || c_lower c.
Definition c_alnum (c : Z) : bool := c_alpha c || c_digit c.
Definition c_graph : Z -> bool := between 33 126.
Definition c_print : Z -> bool := between 32 126.
Definition c_punct (c : Z) : bool := c_graph c && negb (c_alnum c).
Definition c_space (c : Z) : bool := (c =? 32) || between 9 13 c.
Definition c_cntrl (c : Z) : bool := negb (c_print c).
Definition c_xdigit (c : Z) : bool := c_digit c || between 65 70 c || between 97 102 c.

Definition decides (f : Z -> outcome Z) (p : Z -> bool) (c : Z) : Prop := f c = Ok (if p c then 1 else 0).
Definition decidesb (f : Z -> outcome Z) (p : Z -> bool) (c : Z) : bool :=
  match f c with Ok r => r =? (if p c then 1 else 0) | _ => false end.

Lemma ascii_cases (P : Z -> bool) : forallb P (seqZ 0 128) = true -> forall c, 0 <= c < 128 -> P c = true.
Proof. intros H c Hc. rewrite List.forallb_forall in H. apply H. apply list_elem_of_In, elem_of_seqZ. lia. Qed.
Lemma decides_ascii f p : forallb (decidesb f p) (seqZ 0 128) = true ->
  forall c, 0 <= c < 128 -> decides f p c.
Proof.
  intros H c Hc. pose proof (ascii_cases _ H c Hc) as E. unfold decidesb in E. unfold decides.
  destruct (f c); try discriminate. apply Z.eqb_eq in E. congruence.
Qed.

Lemma isdigit_ok c : 0 <= c < 128 -> decides isdigit c_digit c.
Proof. apply decides_ascii. vm_compute. reflexivity. Qed.
Lemma isupper_ok c : 0 <= c < 128 -> decides isupper c_upper c.
Proof. apply decides_ascii. vm_compute. reflexivity. Qed.
Lemma islower_ok c : 0 <= c < 128 -> decides islower c_lower c.
Proof. apply decides_ascii. vm_compute. reflexivity. Qed.
Lemma isspace_ok c : 0 <= c < 128 -> decides isspace c_space c.
Proof. apply decides_ascii. vm_compute. reflexivity. Qed.

(** On ASCII characters every function of ctype.c decides its class of the C locale,
    [tolower] and [toupper] map between the letters and fix the others; beyond ASCII the
    table is read out of bounds. *)
Theorem ctype_classes c :
  if (0 <=? c) && (c <? 128) then
    decides isdigit c_digit c /\ decides isupper c_upper c /\ decides islower c_lower c /\
    decides isalpha c_alpha c /\ decides isalnum c_alnum c /\ decides isgraph c_graph c /\
    decides isprint c_print c /\ decides ispunct c_punct c /\ decides isspace c_space c /\
    decides iscntrl c_cntrl c /\ decides isxdigit c_xdigit c /\
    tolower c = Ok (if c_upper c then c + 32 else c) /\ toupper c = Ok (if c_lower c then c - 32 else c)
  else isdigit c = Undef /\ isspace c = Undef /\ isalnum c = Undef /\ tolower c = Undef.
Proof.
  destruct (Z.leb_spec 0 c) as [H0|H0], (Z.ltb_spec c 128) as [H1|H1]; cbn [andb].
  2-4: unfold tolower, isdigit, isspace, isalnum, isupper, has_class;
    destruct (Z.leb_spec 0 c), (Z.ltb_spec c 128); try lia; auto.
  assert (Hc : 0 <= c < 128) by lia. unfold tolower, toupper.
  rewrite (isupper_ok c Hc), (islower_ok c Hc). cbn [mbind outcome_bind].
  repeat split; try (revert c H0 H1 Hc; intros c _ _; apply decides_ascii; vm_compute; reflexivity);
    destruct (c_upper c), (c_lower c); reflexivity.
Qed.
