(* ===== verification/Convert.v ===== *)
(** * Numbers and strings: lib/convert.c

    A string view is the list of its characters; a C string is the list of its
    characters before the terminator, the terminator being what is read at its end.  The
    buffer numbers are printed into is the list of its [MAX_CONVERT_CAP] characters,
    whatever they were, and an access outside it is [Undef]. *)

From Stdlib Require Import String Ascii.
From stdpp Require Import list.
From S2P Require Import Prelude Arith Ctype.

(** The characters of a literal. *)
Definition chars_of (s : string) : list Z := map (fun c => Z.of_N (N_of_ascii c)) (list_ascii_of_string s).

Definition get_alphanumeric_upper_string : list Z := chars_of "0123456789ABCDEFGHIJKLMNOPQRSTUVWXYZ".
Definition get_alphanumeric_lower_string : list Z := chars_of "0123456789abcdefghijklmnopqrstuvwxyz".

(** ** Parsing *)

Record str_to_num_options := StrToNum {
  default_base : Z;
  dont_allow_base_2 : bool; dont_allow_base_8 : bool; dont_allow_base_10 : bool;
  dont_allow_base_16 : bool; dont_allow_base_36 : bool;
  dont_allow_0a_prefix : bool; dont_allow_0A_prefix : bool;
  dont_allow_0b_prefix : bool; dont_allow_0B_prefix : bool;
  dont_allow_0o_prefix : bool; dont_allow_0O_prefix : bool; dont_allow_0_prefix : bool;
  dont_allow_0x_prefix : bool; dont_allow_0X_prefix : bool;
  allow_leading_zeros : bool; dont_allow_pos_sign : bool; skip_leading_whitespace : bool; dont_parse_to_end : bool }.

Inductive str_to_num_result :=
  | E_STR_TO_NUM_OK | E_STR_TO_NUM_NO_DIGITS | E_STR_TO_NUM_INVALID_CHAR | E_STR_TO_NUM_NEG_UNSIGNED
  | E_STR_TO_NUM_UNALLOWED_PREFIX | E_STR_TO_NUM_UNALLOWED_BASE | E_STR_TO_NUM_UNALLOWED_POS_SIGN
  | E_STR_TO_NUM_UNDERFLOW | E_STR_TO_NUM_OVERFLOW.

(** The result, and what was stored through [end_out] and [result_out], if anything. *)
Definition conversion (E : Type) : Type := str_to_num_result * option E * option Z.
Definition fails {E} (r : str_to_num_result) : outcome (conversion E) := Ok (r, None, None).

(** The [switch] on the character after a leading 0: [None] for its default. *)
Definition prefix_base (o : str_to_num_options) (ch : Z) : option (str_to_num_result + Z) :=
  let pick (no_prefix no_base : bool) (base : Z) :=
    Some (if no_prefix then inl E_STR_TO_NUM_UNALLOWED_PREFIX
          else if no_base then inl E_STR_TO_NUM_UNALLOWED_BASE
          else inr base) in
  match ch with
  | 97 => pick (dont_allow_0a_prefix o) (dont_allow_base_36 o) 36
  | 65 => pick (dont_allow_0A_prefix o) (dont_allow_base_36 o) 36
  | 98 => pick (dont_allow_0b_prefix o) (dont_allow_base_2 o) 2
  | 66 => pick (dont_allow_0B_prefix o) (dont_allow_base_2 o) 2
  | 111 => pick (dont_allow_0o_prefix o) (dont_allow_base_8 o) 8
  | 79 => pick (dont_allow_0O_prefix o) (dont_allow_base_8 o) 8
  | 120 => pick (dont_allow_0x_prefix o) (dont_allow_base_16 o) 16
  | 88 => pick (dont_allow_0X_prefix o) (dont_allow_base_16 o) 16
  | _ => None
  end.

Definition char_digit (ch : Z) : outcome Z :=
  d ← isdigit ch;
  if negb (d =? 0) then Ok (u8 (ch - 48))
  else u ← isupper ch;
       if negb (u =? 0) then Ok (u8 (10 + (ch - 65)))
       else l ← islower ch;
            if negb (l =? 0) then Ok (u8 (10 + (ch - 97))) else Ok 255.

(** The loop over digits: an error with the value stored so far, or the value, whether a
    digit was found, and the rest of the string. *)
Fixpoint digit_loop (o : str_to_num_options) (base : Z) (sv : list Z) (result : Z) (found_digit : bool)
    : outcome ((str_to_num_result * Z) + (Z * bool * list Z)) :=
  match sv with
  | [] => Ok (inr (result, found_digit, []))
  | ch :: rest =>
      digit ← char_digit ch;
      if base <=? digit then
        if negb (dont_parse_to_end o) then Ok (inl (E_STR_TO_NUM_INVALID_CHAR, result))
        else Ok (inr (result, found_digit, sv))
      else
        match check_mul_w 64 result base with
        | None => Ok (inl (E_STR_TO_NUM_OVERFLOW, u64 (result * base)))
        | Some product =>
            match check_add_w 64 product digit with
            | None => Ok (inl (E_STR_TO_NUM_OVERFLOW, u64 (product + digit)))
            | Some sum => digit_loop o base rest sum true
            end
        end
  end.

(** What follows the loop.  [check_sub] returns true when the difference fits. *)
Definition finish {E} (is_signed is_neg found_digit : bool) (end_ : E) (result : Z) : conversion E :=
  if negb found_digit then (E_STR_TO_NUM_NO_DIGITS, Some end_, Some result)
  else if is_signed && (2 ^ 63 - 1 <? result) then (E_STR_TO_NUM_OVERFLOW, Some end_, Some result)
  else if is_neg && ((- 2 ^ 63 <=? 0 - result) && (0 - result <=? 2 ^ 63 - 1))
       then (E_STR_TO_NUM_UNDERFLOW, Some end_, Some (u64 (0 - result)))
  else (E_STR_TO_NUM_OK, Some end_, Some (if is_neg then u64 (0 - result) else result)).

Fixpoint skip_space (sv : list Z) : outcome (list Z) :=
  match sv with
  | [] => Ok []
  | ch :: rest => s ← isspace ch; if s =? 0 then Ok sv else skip_space rest
  end.

(** The digits after an optional sign, and the prefix. *)
Definition sv_number (o : str_to_num_options) (is_signed is_neg : bool) (sv : list Z)
    : outcome (conversion (list Z)) :=
  let digits base found sv :=
    r ← digit_loop o base sv 0 found;
    match r with
    | inl (err, result) => Ok (err, None, Some result)
    | inr (result, found_digit, rest) => Ok (finish is_signed is_neg found_digit rest result)
    end in
  if (default 0 (head sv) =? 48) then
    match tail sv with
    | [] => Ok (E_STR_TO_NUM_OK, Some [], Some 0)
    | ch :: rest =>
        match prefix_base o ch with
        | Some (inl err) => fails err
        | Some (inr base) => digits base false rest
        | None => digits 8 true (ch :: rest)
        end
    end
  else digits (default_base o) false sv.

(** [sv_drop_front] past a sign and the test for the end. *)
Definition sv_after_sign (o : str_to_num_options) (is_signed is_neg : bool) (rest : list Z) :=
  match rest with
  | [] => fails E_STR_TO_NUM_NO_DIGITS
  | _ => sv_number o is_signed is_neg rest
  end.

Definition convert_sv_to_64int (sv : list Z) (o : str_to_num_options) (is_signed : bool)
    : outcome (conversion (list Z)) :=
  match sv with
  | [] => fails E_STR_TO_NUM_NO_DIGITS
  | _ =>
      sv ← (if skip_leading_whitespace o then skip_space sv else Ok sv);
      match sv with
      | [] => fails E_STR_TO_NUM_NO_DIGITS
      | ch :: rest =>
          if ch =? 45 then
            if negb is_signed then fails E_STR_TO_NUM_NEG_UNSIGNED else sv_after_sign o is_signed true rest
          else if ch =? 43 then
            if dont_allow_pos_sign o then fails E_STR_TO_NUM_UNALLOWED_POS_SIGN
            else sv_after_sign o is_signed false rest
          else sv_number o is_signed false sv
      end
  end.

Definition sv_to_unsigned (sv : list Z) (o : str_to_num_options) := convert_sv_to_64int sv o false.
Definition sv_to_signed (sv : list Z) (o : str_to_num_options) := convert_sv_to_64int sv o true.

(** *** C strings

    The memory from the string's pointer on, which has a terminator; [end_out] is the
    pointer stored, [None] for NULL. *)

Fixpoint cstr_skip_space (string : list Z) : outcome (option (list Z)) :=
  match string with
  | [] => Undef
  | ch :: rest =>
      s ← isspace ch;
      if s =? 0 then Ok (Some string)
      else match rest with
           | [] => Undef
           | next :: _ => if next =? 0 then Ok None else cstr_skip_space rest
           end
  end.

Fixpoint cstr_digit_loop (o : str_to_num_options) (base : Z) (string : list Z) (result : Z) (found_digit : bool)
    : outcome ((str_to_num_result * Z) + (Z * bool * option (list Z))) :=
  match string with
  | [] => Undef
  | ch :: rest =>
      if ch =? 0 then Ok (inr (result, found_digit, None)) else
      digit ← char_digit ch;
      if base <=? digit then
        if negb (dont_parse_to_end o) then Ok (inl (E_STR_TO_NUM_INVALID_CHAR, result))
        else Ok (inr (result, found_digit, Some string))
      else
        match check_mul_w 64 result base with
        | None => Ok (inl (E_STR_TO_NUM_OVERFLOW, u64 (result * base)))
        | Some product =>
            match check_add_w 64 product digit with
            | None => Ok (inl (E_STR_TO_NUM_OVERFLOW, u64 (product + digit)))
            | Some sum => cstr_digit_loop o base rest sum true
            end
        end
  end.

Definition cstr_number (o : str_to_num_options) (is_signed is_neg : bool) (string : list Z)
    : outcome (conversion (option (list Z))) :=
  let digits base found string :=
    r ← cstr_digit_loop o base string 0 found;
    match r with
    | inl (err, result) => Ok (err, None, Some result)
    | inr (result, found_digit, end_) => Ok (finish is_signed is_neg found_digit end_ result)
    end in
  if (default 0 (head string) =? 48) then
    match tail string with
    | [] => Undef
    | ch :: rest =>
        if ch =? 0 then Ok (E_STR_TO_NUM_OK, Some None, Some 0) else
        match prefix_base o ch with
        | Some (inl err) => fails err
        | Some (inr base) => digits base false rest
        | None => digits 8 true (ch :: rest)
        end
    end
  else digits (default_base o) false string.

(** [ch = *(++string)] and the test for the terminator after a sign. *)
Definition cstr_after_sign (o : str_to_num_options) (is_signed is_neg : bool) (rest : list Z) :=
  match rest with
  | [] => Undef
  | ch :: _ => if ch =? 0 then fails E_STR_TO_NUM_NO_DIGITS else cstr_number o is_signed is_neg rest
  end.

Definition convert_cstr_to_64int (string : list Z) (o : str_to_num_options) (is_signed : bool)
    : outcome (conversion (option (list Z))) :=
  match string with
  | [] => Undef
  | ch :: _ =>
      if ch =? 0 then fails E_STR_TO_NUM_NO_DIGITS else
      skipped ← (if skip_leading_whitespace o then cstr_skip_space string else Ok (Some string));
      match skipped with
      | None => fails E_STR_TO_NUM_NO_DIGITS
      | Some [] => Undef
      | Some (ch :: rest) =>
          if ch =? 45 then
            if negb is_signed then fails E_STR_TO_NUM_NEG_UNSIGNED else cstr_after_sign o is_signed true rest
          else if ch =? 43 then
            if dont_allow_pos_sign o then fails E_STR_TO_NUM_UNALLOWED_POS_SIGN
            else cstr_after_sign o is_signed false rest
          else cstr_number o is_signed false (ch :: rest)
      end
  end.

Definition cstr_to_unsigned (string : list Z) (o : str_to_num_options) := convert_cstr_to_64int string o false.
Definition cstr_to_signed (string : list Z) (o : str_to_num_options) := convert_cstr_to_64int string o true.

(** [strtoul]; storing through a NULL [endptr] is undefined. *)
Definition strtoul_options (base : Z) : str_to_num_options :=
  let mk db b2 b8 b10 b16 xb xB xo := StrToNum db b2 b8 b10 b16 false true true xb xB xo true false
    false false false false false false in
  match base with
  | 0 => mk 10 false false false false true true true
  | 2 => mk 2 false true true true false false true
  | 8 => mk 8 true false true true true true false
  | 10 => mk 10 true true false true true true true
  | 16 => mk 16 true true true false true true true
  | _ => mk base true true true true true true true
  end.
Definition strtoul (string : list Z) (endptr_null : bool) (base : Z) : outcome Z :=
  '(code, end_, result) ← cstr_to_unsigned string (strtoul_options base);
  match end_ with
  | Some _ => if endptr_null then Undef else
              Ok (match code, result with E_STR_TO_NUM_OK, Some r => r | _, _ => 2 ^ 64 - 1 end)
  | None => Ok (2 ^ 64 - 1)
  end.

(** ** Printing *)

Record num_to_str_options := NumToStr {
  include_prefix : bool; include_pos_sign : bool; capitalize : bool; capitalize_prefix : bool;
  use_0_octal_prefix : bool }.

Definition MAX_BINARY_CONVERT_CAP : Z := 68.
Definition MAX_OCTAL_CONVERT_CAP : Z := 26.
Definition MAX_DECIMAL_CONVERT_CAP : Z := 22.
Definition MAX_HEXADECIMAL_CONVERT_CAP : Z := 20.
Definition MAX_ALPHABETIC_CONVERT_CAP : Z := 20.
Definition MAX_CONVERT_CAP : Z := MAX_BINARY_CONVERT_CAP.

(** [buffer[i] = ch] *)
Definition put (i ch : Z) (buffer : list Z) : outcome (list Z) :=
  if (0 <=? i) && (i <? Z.of_nat (length buffer)) then Ok (<[Z.to_nat i:=ch]> buffer) else Undef.
Definition char_at (chars : list Z) (d : Z) : outcome Z :=
  if (0 <=? d) && (d <? 36) then match chars !! Z.to_nat d with Some c => Ok c | None => Undef end else Undef.

Section Print.
Context (base : Z) (o : num_to_str_options).
Definition digit_chars : list Z :=
  if capitalize o then get_alphanumeric_upper_string else get_alphanumeric_lower_string.

(** The digits of [number], the last one at index [i]; the index of the first. *)
Fixpoint positive_loop (fuel : nat) (number i : Z) (buffer : list Z) : outcome (Z * list Z) :=
  ch ← char_at digit_chars (number mod base);
  buffer ← put i ch buffer;
  if number <? base then Ok (i, buffer)
  else match fuel with
       | O => Diverge
       | S fuel => positive_loop fuel (number / base) (u8 (i - 1)) buffer
       end.

(** The block that adds the prefix. *)
Definition add_prefix (i : Z) (buffer : list Z) : outcome (Z * list Z) :=
  if include_prefix o then
    buffer ← put (i - 2) 48 buffer;
    '(i, buffer) ←
      match base with
      | 2 => buffer ← put (i - 1) (if capitalize_prefix o then 66 else 98) buffer; Ok (i, buffer)
      | 8 => if negb (use_0_octal_prefix o)
             then buffer ← put (i - 1) (if capitalize_prefix o then 79 else 111) buffer; Ok (i, buffer)
             else Ok (u8 (i + 1), buffer)
      | 16 => buffer ← put (i - 1) (if capitalize_prefix o then 88 else 120) buffer; Ok (i, buffer)
      | 36 => buffer ← put (i - 1) (if capitalize_prefix o then 65 else 97) buffer; Ok (i, buffer)
      | _ => Ok (i, buffer)
      end;
    Ok (u8 (i - 2), buffer)
  else Ok (i, buffer).

(** [LOOP_OVER_POSITIVE_INT] *)
Definition loop_over_positive_int (number i : Z) (buffer : list Z) : outcome (Z * list Z) :=
  buffer ← put (i + 1) 0 buffer;
  '(i, buffer) ← positive_loop 64 number i buffer;
  '(i, buffer) ← add_prefix i buffer;
  if include_pos_sign o
  then let i := u8 (i - 1) in buffer ← put i 43 buffer; Ok (i, buffer)
  else Ok (i, buffer).

(** The loop of [LOOP_OVER_SIGNED_INT]; division and remainder round towards zero. *)
Fixpoint negative_loop (fuel : nat) (number i : Z) (buffer : list Z) : outcome (Z * list Z) :=
  ch ← char_at digit_chars (0 - Z.rem number base);
  buffer ← put i ch buffer;
  let i := u8 (i - 1) in
  if 0 - base <? number then Ok (i, buffer)
  else
    let number := Z.quot number base in
    if number =? 0 then Ok (i, buffer)
    else match fuel with
         | O => Diverge
         | S fuel => negative_loop fuel number i buffer
         end.

Definition loop_over_signed_int (number i : Z) (buffer : list Z) : outcome (Z * list Z) :=
  if number <? 0 then
    buffer ← put (i + 1) 0 buffer;
    '(i, buffer) ← negative_loop 64 number i buffer;
    '(i, buffer) ← add_prefix i buffer;
    buffer ← put i 45 buffer;
    Ok (i, buffer)
  else loop_over_positive_int number i buffer.

(** The view is from the index of the first character to [final_index]. *)
Definition unsigned_final_index : Z :=
  match base with
  | 2 => MAX_BINARY_CONVERT_CAP - 1
  | 8 => MAX_OCTAL_CONVERT_CAP - 1
  | 10 => MAX_DECIMAL_CONVERT_CAP - 1
  | 16 => MAX_HEXADECIMAL_CONVERT_CAP - 1
  | 36 => MAX_CONVERT_CAP
  | _ => 0
  end.
Definition signed_final_index : Z :=
  match base with
  | 36 => MAX_ALPHABETIC_CONVERT_CAP - 1
  | _ => unsigned_final_index
  end.
Definition unsigned_to_string_view (number : Z) (buffer : list Z) : outcome (Z * Z * list Z) :=
  let final_index := unsigned_final_index in
  '(i, buffer) ← loop_over_positive_int number (u8 (final_index - 1)) buffer;
  Ok (i, final_index, buffer).
Definition signed_to_string_view (number : Z) (buffer : list Z) : outcome (Z * Z * list Z) :=
  let final_index := signed_final_index in
  '(i, buffer) ← loop_over_signed_int number (u8 (final_index - 1)) buffer;
  Ok (i, final_index, buffer).
End Print.

(** The characters of a view into the buffer. *)
Definition view (i final_index : Z) (buffer : list Z) : list Z :=
  take (Z.to_nat (final_index - i)) (drop (Z.to_nat i) buffer).

(** ** Values of numerals *)

Definition char_value (c : Z) : Z :=
  if c_digit c then c - 48 else if c_upper c then c - 55 else if c_lower c then c - 87 else 255.
Definition numeral (base : Z) (l : list Z) : Prop := Forall (fun c => 0 <= c < 128 /\ char_value c < base) l.
Definition value_from (base : Z) : Z -> list Z -> Z := foldl (fun acc c => acc * base + char_value c).
Definition value (base : Z) (l : list Z) : Z := value_from base 0 l.

Lemma char_value_pos c : 0 <= char_value c <= 255.
Proof.
  unfold char_value, c_digit, c_upper, c_lower, between.
  destruct (Z.leb_spec 48 c), (Z.leb_spec c 57), (Z.leb_spec 65 c), (Z.leb_spec c 90), (Z.leb_spec 97 c),
    (Z.leb_spec c 122); cbn; lia.
Qed.
Lemma char_digit_value c : 0 <= c < 128 -> char_digit c = Ok (char_value c).
Proof.
  intros H. unfold char_digit. rewrite (isdigit_ok c H), (isupper_ok c H), (islower_ok c H).
  cbn [mbind outcome_bind]. pose proof (char_value_pos c) as Hv. unfold char_value in *.
  destruct (c_digit c); cbn [Z.eqb negb]; [f_equal; apply wrap_small; unfold is_u; lia|].
  destruct (c_upper c); cbn [Z.eqb negb]; [f_equal; rewrite wrap_small; unfold is_u; lia|].
  destruct (c_lower c); cbn [Z.eqb negb]; [f_equal; rewrite wrap_small; unfold is_u; lia|reflexivity].
Qed.
Lemma value_from_ge base l : forall acc, 1 <= base -> 0 <= acc -> acc <= value_from base acc l.
Proof.
  induction l as [|c l IH]; intros acc Hb Ha; cbn; [lia|]. pose proof (char_value_pos c).
  etransitivity; [|apply IH; nia]. nia.
Qed.
Lemma value_app base l c : value base (l ++ [c]) = value base l * base + char_value c.
Proof. unfold value, value_from. rewrite foldl_app. reflexivity. Qed.

Lemma digit_loop_value o base l : 1 <= base -> forall acc found, 0 <= acc < 2 ^ 64 -> numeral base l ->
  if value_from base acc l <? 2 ^ 64
  then digit_loop o base l acc found = Ok (inr (value_from base acc l, found || negb (bool_decide (l = [])), []))
  else exists r, digit_loop o base l acc found = Ok (inl (E_STR_TO_NUM_OVERFLOW, r)).
Proof.
  intros Hb. induction l as [|c l IH]; intros acc found Ha Hl; cbn [digit_loop value_from foldl].
  - destruct (Z.ltb_spec acc (2 ^ 64)); [|lia]. cbn. rewrite orb_false_r. reflexivity.
  - apply list.Forall_cons in Hl as [[Hc Hv] Hl]. rewrite char_digit_value by exact Hc. cbn [mbind outcome_bind].
    pose proof (char_value_pos c) as Hp. destruct (Z.leb_spec base (char_value c)); [lia|].
    fold (value_from base (acc * base + char_value c) l).
    pose proof (value_from_ge base l (acc * base + char_value c) Hb ltac:(nia)) as Hge.
    unfold check_mul_w, check_add_w, fits.
    destruct (Z.leb_spec 0 (acc * base)), (Z.ltb_spec (acc * base) (2 ^ 64)); cbn [andb]; try nia.
    2:{ destruct (Z.ltb_spec (value_from base (acc * base + char_value c) l) (2 ^ 64)); [lia|eauto]. }
    destruct (Z.leb_spec 0 (acc * base + char_value c)), (Z.ltb_spec (acc * base + char_value c) (2 ^ 64));
      cbn [andb]; try lia.
    2:{ destruct (Z.ltb_spec (value_from base (acc * base + char_value c) l) (2 ^ 64)); [lia|eauto]. }
    specialize (IH (acc * base + char_value c) true ltac:(lia) Hl).
    destruct (value_from base (acc * base + char_value c) l <? 2 ^ 64); [|exact IH].
    rewrite IH. cbn. rewrite orb_true_r. reflexivity.
Qed.

(** ** C strings and string views *)

Definition no_nul (l : list Z) : Prop := Forall (fun c => c <> 0) l.
(** The pointer a C string version stores where the other stores the view [rest]. *)
Definition end_pointer (rest : list Z) : option (list Z) :=
  match rest with [] => None | _ => Some (rest ++ [0]) end.
Definition with_pointer (r : conversion (list Z)) : conversion (option (list Z)) :=
  let '(code, end_, result) := r in (code, end_pointer <$> end_, result).
Definition outcome_map {A B} (f : A -> B) (x : outcome A) : outcome B := a ← x; Ok (f a).

Definition loop_pointer (r : (str_to_num_result * Z) + (Z * bool * list Z)) :=
  match r with
  | inl e => inl e
  | inr (result, found, rest) => inr (result, found, end_pointer rest)
  end.
Lemma digit_loop_agree o base l : forall acc found, no_nul l ->
  cstr_digit_loop o base (l ++ [0]) acc found = outcome_map loop_pointer (digit_loop o base l acc found).
Proof.
  induction l as [|c l IH]; intros acc found Hl; [reflexivity|].
  apply list.Forall_cons in Hl as [Hc Hl]. cbn [cstr_digit_loop app digit_loop]. destruct (Z.eqb_spec c 0) as [?|_]; [done|].
  unfold outcome_map. destruct (char_digit c) as [d| | |]; cbn [mbind outcome_bind]; try reflexivity.
  destruct (base <=? d); [destruct (negb (dont_parse_to_end o)); reflexivity|].
  destruct (check_mul_w 64 acc base) as [p|]; [|reflexivity].
  destruct (check_add_w 64 p d) as [q|]; [|reflexivity]. apply IH, Hl.
Qed.
Lemma skip_space_agree l : l <> [] -> no_nul l ->
  cstr_skip_space (l ++ [0]) = outcome_map (fun r => match r with [] => None | _ => Some (r ++ [0]) end) (skip_space l).
Proof.
  induction l as [|c l IH]; [done|]. intros _ Hl. apply list.Forall_cons in Hl as [Hc Hl].
  cbn [cstr_skip_space app skip_space]. destruct (isspace c) as [s| | |]; try reflexivity. cbn [mbind outcome_bind].
  destruct (s =? 0); [reflexivity|]. destruct l as [|c' l]; [reflexivity|]. cbn [app].
  apply list.Forall_cons in Hl as Hl'. destruct Hl' as [Hc' _]. destruct (Z.eqb_spec c' 0) as [?|_]; [done|].
  apply IH; [done|exact Hl].
Qed.

Lemma skip_space_suffix l r : no_nul l -> skip_space l = Ok r -> no_nul r.
Proof.
  induction l as [|c l IH]; intros Hl H; cbn in H; [injection H as <-; exact Hl|].
  destruct (isspace c) as [s| | |]; try discriminate. cbn in H.
  destruct (s =? 0); [injection H as <-; exact Hl|]. apply IH; [|exact H]. apply list.Forall_cons in Hl. apply Hl.
Qed.

Lemma finish_pointer sg ng fd rest r :
  with_pointer (finish sg ng fd rest r) = finish sg ng fd (end_pointer rest) r.
Proof. unfold finish. repeat case_match; reflexivity. Qed.

Lemma number_agree o sg ng l : no_nul l -> l <> [] ->
  cstr_number o sg ng (l ++ [0]) = outcome_map with_pointer (sv_number o sg ng l).
Proof.
  intros Hl Hne.
  assert (D : forall base found l', no_nul l' ->
    (r ← cstr_digit_loop o base (l' ++ [0]) 0 found;
     match r with
     | inl (err, result) => Ok (err, None, Some result)
     | inr (result, found_digit, end_) => Ok (finish sg ng found_digit end_ result)
     end) =
    outcome_map with_pointer
    (r ← digit_loop o base l' 0 found;
     match r with
     | inl (err, result) => Ok (err, None, Some result)
     | inr (result, found_digit, rest) => Ok (finish sg ng found_digit rest result)
     end)).
  { intros base found l' Hl'. rewrite digit_loop_agree by exact Hl'. unfold outcome_map.
    destruct (digit_loop o base l' 0 found) as [[[err result]|[[result fd] rest]]| | |]; try reflexivity.
    cbn [mbind outcome_bind loop_pointer]. rewrite finish_pointer. reflexivity. }
  unfold cstr_number, sv_number. destruct l as [|c l]; [done|]. cbn [head from_option id app tail].
  destruct (c =? 48); [|apply (D _ _ (c :: l) Hl)].
  apply list.Forall_cons in Hl as [Hc Hl]. destruct l as [|ch l]; [reflexivity|]. cbn [app].
  apply list.Forall_cons in Hl as Hl'. destruct Hl' as [Hch Hl']. destruct (Z.eqb_spec ch 0) as [?|_]; [done|].
  destruct (prefix_base o ch) as [[err|base]|]; [reflexivity|apply D, Hl'|apply (D _ _ (ch :: l) Hl)].
Qed.
Lemma after_sign_agree o sg ng l : no_nul l ->
  cstr_after_sign o sg ng (l ++ [0]) = outcome_map with_pointer (sv_after_sign o sg ng l).
Proof.
  intros Hl. destruct l as [|c l]; [reflexivity|]. unfold cstr_after_sign, sv_after_sign. cbn [app].
  apply list.Forall_cons in Hl as Hl'. destruct Hl' as [Hc _]. destruct (Z.eqb_spec c 0) as [?|_]; [done|].
  apply (number_agree o sg ng (c :: l)); done.
Qed.

(** The two parsers agree: on a C string and on the view of the same characters they
    return the same code and store the same value, and the end they store is the same
    position, NULL standing for the end of the string. *)
Theorem convert_cstr_sv_agree l o sg : no_nul l ->
  convert_cstr_to_64int (l ++ [0]) o sg = outcome_map with_pointer (convert_sv_to_64int l o sg).
Proof.
  intros Hl. unfold convert_cstr_to_64int, convert_sv_to_64int. destruct l as [|c l]; [reflexivity|]. cbn [app].
  apply list.Forall_cons in Hl as Hl'. destruct Hl' as [Hc _]. destruct (Z.eqb_spec c 0) as [?|_]; [done|].
  assert (D : forall r, no_nul r ->
    match (match r with [] => None | _ => Some (r ++ [0]) end) with
    | None => fails E_STR_TO_NUM_NO_DIGITS
    | Some [] => Undef
    | Some (ch :: rest) =>
        if ch =? 45 then
          if negb sg then fails E_STR_TO_NUM_NEG_UNSIGNED else cstr_after_sign o sg true rest
        else if ch =? 43 then
          if dont_allow_pos_sign o then fails E_STR_TO_NUM_UNALLOWED_POS_SIGN
          else cstr_after_sign o sg false rest
        else cstr_number o sg false (ch :: rest)
    end = outcome_map with_pointer
    match r with
    | [] => fails E_STR_TO_NUM_NO_DIGITS
    | ch :: rest =>
        if ch =? 45 then
          if negb sg then fails E_STR_TO_NUM_NEG_UNSIGNED else sv_after_sign o sg true rest
        else if ch =? 43 then
          if dont_allow_pos_sign o then fails E_STR_TO_NUM_UNALLOWED_POS_SIGN
          else sv_after_sign o sg false rest
        else sv_number o sg false r
    end).
  { intros [|ch rest] Hr; [reflexivity|]. cbn [app]. apply list.Forall_cons in Hr as Hr'. destruct Hr' as [_ Hr'].
    destruct (ch =? 45); [destruct (negb sg); [reflexivity|apply after_sign_agree, Hr']|].
    destruct (ch =? 43); [destruct (dont_allow_pos_sign o); [reflexivity|apply after_sign_agree, Hr']|].
    apply (number_agree o sg false (ch :: rest)); done. }
  destruct (skip_leading_whitespace o).
  - pose proof (skip_space_agree (c :: l) ltac:(done) Hl) as E. cbn [app] in E. rewrite E. clear E.
    unfold outcome_map at 1. destruct (skip_space (c :: l)) as [r| | |] eqn:Es; try reflexivity.
    cbn [mbind outcome_bind]. apply D. eapply skip_space_suffix; eauto.
  - cbn [mbind outcome_bind]. apply (D (c :: l) Hl).
Qed.
Lemma convert_cstr_sv_agree_witness :
  convert_cstr_to_64int (chars_of "0x1F" ++ [0]) (strtoul_options 16) false =
  outcome_map with_pointer (convert_sv_to_64int (chars_of "0x1F") (strtoul_options 16) false) /\
  convert_sv_to_64int (chars_of "0x1F") (strtoul_options 16) false = Ok (E_STR_TO_NUM_OK, Some [], Some 31).
Proof.
  split; [apply (convert_cstr_sv_agree (chars_of "0x1F")); repeat constructor; discriminate|reflexivity].
Defined.

(** ** Printed digits *)

Definition digit_check (l : list Z) (d : Z) : bool :=
  match char_at l d with
  | Ok c => (0 <? c) && (c <? 128) && (char_value c =? d) && Bool.eqb (c =? 48) (d =? 0) &&
            negb (c =? 43) && negb (c =? 45) && negb (c_space c)
  | _ => false
  end.
Lemma digit_char_ok o d : 0 <= d < 36 ->
  exists c, char_at (digit_chars o) d = Ok c /\ 0 < c < 128 /\ char_value c = d /\
    (c = 48 <-> d = 0) /\ c <> 43 /\ c <> 45 /\ c_space c = false.
Proof.
  intros Hd. assert (H : digit_check (digit_chars o) d = true).
  { assert (A : forallb (digit_check (digit_chars o)) (seqZ 0 36) = true)
      by (unfold digit_chars; destruct (capitalize o); vm_compute; reflexivity).
    rewrite List.forallb_forall in A. apply A, list_elem_of_In, elem_of_seqZ. lia. }
  unfold digit_check in H. destruct (char_at (digit_chars o) d) as [c| | |]; try discriminate. exists c.
  rewrite !andb_true_iff, !negb_true_iff, !Z.ltb_lt, !Z.eqb_neq, Z.eqb_eq in H.
  destruct H as ((((((H1 & H2) & H3) & H4) & H5) & H6) & H7).
  split; [reflexivity|]. split; [lia|]. split; [exact H3|]. split; [|auto].
  destruct (Z.eqb_spec c 48), (Z.eqb_spec d 0); cbn in H4; try discriminate; tauto.
Qed.

(** A printed numeral: digits of the base, without a leading zero. *)
Definition printed (base n : Z) (ds : list Z) : Prop :=
  numeral base ds /\ value base ds = n /\ ds <> [] /\ Forall (fun c => 0 < c) ds /\
  (head ds = Some 48 -> ds = [48] /\ n = 0) /\
  (forall c, head ds = Some c -> c <> 43 /\ c <> 45 /\ c_space c = false).

(** The digits themselves, of the case the options ask for; 64 steps are enough for every
    64-bit number. *)
Fixpoint digits (base : Z) (o : num_to_str_options) (fuel : nat) (n : Z) : list Z :=
  let c := default 0 (digit_chars o !! Z.to_nat (n mod base)) in
  if n <? base then [c]
  else match fuel with
       | O => [c]
       | S fuel => digits base o fuel (n / base) ++ [c]
       end.
Definition digits_of (base : Z) (o : num_to_str_options) (n : Z) : list Z := digits base o 64 n.

Lemma char_at_lookup l d c : char_at l d = Ok c -> default 0 (l !! Z.to_nat d) = c.
Proof.
  unfold char_at. destruct (_ && _); [|discriminate]. destruct (l !! Z.to_nat d); [|discriminate].
  intros [= ->]. reflexivity.
Qed.

Lemma put_ok i ch buffer : 0 <= i < Z.of_nat (length buffer) -> put i ch buffer = Ok (<[Z.to_nat i:=ch]> buffer).
Proof.
  intros H. unfold put. destruct (Z.leb_spec 0 i), (Z.ltb_spec i (Z.of_nat (length buffer))); try lia. reflexivity.
Qed.

(** [mid] replaces the characters of [buffer] before index [hi], from index [lo] on. *)
Definition spliced (lo hi : nat) (mid buffer buffer' : list Z) : Prop :=
  (lo + length mid = hi)%nat /\ buffer' = take lo buffer ++ mid ++ drop hi buffer.

Lemma put_spliced lo hi mid b b' ch : spliced (S lo) hi mid b b' -> (hi <= length b)%nat ->
  spliced lo hi (ch :: mid) b (<[lo:=ch]> b').
Proof.
  intros [Hl ->] Hh. split; [cbn; lia|]. rewrite insert_app_l by (rewrite length_take; lia).
  rewrite (take_S_r b lo (default 0 (b !! lo))).
  - rewrite insert_app_r_alt by (rewrite length_take; lia). rewrite length_take, Nat.min_l by lia.
    rewrite Nat.sub_diag. cbn. rewrite <- app_assoc. reflexivity.
  - destruct (lookup_lt_is_Some_2 b lo) as [x Hx]; [lia|]. rewrite Hx. reflexivity.
Qed.

Lemma digit_step base o d n ds c : 2 <= base <= 36 -> 0 < n -> printed base n ds -> 0 <= d < base ->
  char_at (digit_chars o) d = Ok c -> 0 < c < 128 -> char_value c = d ->
  printed base (n * base + d) (ds ++ [c]).
Proof.
  intros Hb Hn (H1 & H2 & H3 & H4 & H5 & H6) Hd Hc Hc1 Hc2. split; [|split; [|split; [|split; [|split]]]].
  - apply Forall_app. split; [exact H1|]. constructor; [lia|constructor].
  - rewrite value_app, H2, Hc2. reflexivity.
  - intros E. destruct ds; discriminate.
  - apply Forall_app. split; [exact H4|]. constructor; [lia|constructor].
  - intros E. destruct ds as [|x ds]; [done|]. destruct (H5 E). lia.
  - intros x E. destruct ds as [|y ds]; [done|]. apply H6, E.
Qed.

Lemma printed_one base d c : 0 <= d < base -> 0 < c < 128 -> char_value c = d -> (c = 48 <-> d = 0) ->
  c <> 43 -> c <> 45 -> c_space c = false -> printed base d [c].
Proof.
  intros Hd Hc Hv H0 H1 H2 H3. split; [|split; [|split; [|split; [|split]]]].
  - constructor; [lia|constructor].
  - cbn. lia.
  - done.
  - constructor; [lia|constructor].
  - intros [= ->]. split; [reflexivity|tauto].
  - intros x [= <-]. auto.
Qed.

Lemma positive_loop_spec base o lo : 2 <= base <= 36 -> 0 <= lo -> forall fuel number i mid b b0,
  0 <= number -> number < base ^ (Z.of_nat fuel + 1) -> number < base ^ (i - lo + 1) -> lo <= i < 256 ->
  spliced (Z.to_nat (i + 1)) (Z.to_nat (i + 1) + length mid) mid b0 b ->
  (Z.to_nat (i + 1) + length mid <= length b0)%nat ->
  exists i' ds b', positive_loop base o fuel number i b = Ok (i', b') /\ lo <= i' <= i /\
    printed base number ds /\ ds = digits base o fuel number /\ Z.of_nat (length ds) = i - i' + 1 /\
    spliced (Z.to_nat i') (Z.to_nat (i + 1) + length mid) (ds ++ mid) b0 b'.
Proof.
  intros Hb Hlo. induction fuel as [|fuel IH]; intros number i mid b b0 Hn Hf Hi Hib Hs Hlen;
    cbn [positive_loop digits]; assert (Hd : 0 <= number mod base < base) by (apply Z.mod_pos_bound; lia);
    destruct (digit_char_ok o (number mod base) ltac:(lia)) as (c & Hc & Hc1 & Hc2 & Hc3 & Hc4 & Hc5 & Hc6);
    rewrite Hc; rewrite (char_at_lookup _ _ _ Hc); cbn [mbind outcome_bind];
    assert (Hlb : length b = length b0)
      by (destruct Hs as [_ ->]; rewrite !length_app, length_take, length_drop; lia);
    rewrite put_ok by lia; cbn [mbind outcome_bind];
    replace (Z.to_nat (i + 1)) with (S (Z.to_nat i)) in * by lia;
    apply (put_spliced _ _ _ _ _ c) in Hs; try lia.
  - change (base ^ (Z.of_nat 0 + 1)) with (base ^ 1) in Hf. rewrite Z.pow_1_r in Hf.
    destruct (Z.ltb_spec number base); [|lia]. rewrite Z.mod_small in * by lia.
    exists i, [c], (<[Z.to_nat i:=c]> b). split; [reflexivity|]. split; [lia|]. split; [apply printed_one; auto|].
    split; [reflexivity|]. split; [cbn; lia|exact Hs].
  - destruct (Z.ltb_spec number base).
    { rewrite Z.mod_small in * by lia. exists i, [c], (<[Z.to_nat i:=c]> b).
      split; [reflexivity|]. split; [lia|]. split; [apply printed_one; auto|].
      split; [reflexivity|]. split; [cbn; lia|exact Hs]. }
    assert (Hi1 : lo < i).
    { destruct (Z.eq_dec i lo) as [->|]; [|lia]. rewrite Z.sub_diag, Z.pow_1_r in Hi. lia. }
    rewrite wrap_small by (unfold is_u; lia).
    destruct (IH (number / base) (i - 1) (c :: mid) (<[Z.to_nat i:=c]> b) b0) as (i' & ds & b' & -> & H1 & H2 & Hds & H3 & H4).
    { apply Z.div_pos; lia. }
    { apply Z.div_lt_upper_bound; [lia|]. rewrite <- Z.pow_succ_r by lia. replace (Z.succ (Z.of_nat fuel + 1)) with (Z.of_nat (S fuel) + 1) by lia. exact Hf. }
    { apply Z.div_lt_upper_bound; [lia|]. rewrite <- Z.pow_succ_r by lia. replace (Z.succ (i - 1 - lo + 1)) with (i - lo + 1) by lia. exact Hi. }
    { lia. }
    { replace (Z.to_nat (i - 1 + 1)) with (Z.to_nat i) by lia. cbn [length].
      replace (Z.to_nat i + S (length mid))%nat with (S (Z.to_nat i) + length mid)%nat by lia. exact Hs. }
    { cbn [length]. lia. }
    exists i', (ds ++ [c]), b'.
    split; [reflexivity|]. split; [lia|]. split; [|split; [rewrite Hds; reflexivity|split]].
    + rewrite (Z.div_mod number base) by lia. rewrite (Z.mul_comm base).
      eapply digit_step; eauto. apply Z.div_str_pos. lia.
    + rewrite length_app. cbn. lia.
    + rewrite <- app_assoc. cbn [app length] in *.
      replace (S (Z.to_nat i) + length mid)%nat with (Z.to_nat (i - 1 + 1) + S (length mid))%nat by lia. exact H4.
Qed.

(** The loop over a negative number prints its absolute value and steps once further. *)
Lemma negative_loop_positive base o : 2 <= base <= 36 -> forall fuel n i b, 0 < n ->
  negative_loop base o fuel (- n) i b =
  outcome_map (fun r => (u8 (fst r - 1), snd r)) (positive_loop base o fuel n i b).
Proof.
  intros Hb. induction fuel as [|fuel IH]; intros n i b Hn; cbn [negative_loop positive_loop];
    rewrite Z.rem_opp_l' , Z.rem_mod_nonneg by lia; replace (0 - - (n mod base)) with (n mod base) by lia;
    unfold outcome_map; destruct (char_at (digit_chars o) (n mod base)) as [c| | |]; try reflexivity;
    cbn [mbind outcome_bind]; destruct (put i c b) as [b1| | |]; try reflexivity; cbn [mbind outcome_bind].
  - destruct (Z.ltb_spec (0 - base) (- n)), (Z.ltb_spec n base); try lia; [reflexivity|].
    rewrite Z.quot_opp_l, Z.quot_div_nonneg by lia.
    destruct (Z.eqb_spec (- (n / base)) 0) as [E|_]; [|reflexivity].
    assert (0 < n / base) by (apply Z.div_str_pos; lia). lia.
  - destruct (Z.ltb_spec (0 - base) (- n)), (Z.ltb_spec n base); try lia; [reflexivity|].
    rewrite Z.quot_opp_l, Z.quot_div_nonneg by lia. assert (0 < n / base) by (apply Z.div_str_pos; lia).
    destruct (Z.eqb_spec (- (n / base)) 0) as [E|_]; [lia|]. apply IH. lia.
Qed.

Lemma view_spliced lo hi mid b b' : spliced lo hi mid b b' -> (hi <= length b)%nat ->
  view (Z.of_nat lo) (Z.of_nat hi) b' = mid.
Proof.
  intros [Hl ->] Hh. unfold view. rewrite Nat2Z.id. replace (Z.to_nat (Z.of_nat hi - Z.of_nat lo)) with (length mid) by lia.
  rewrite drop_app_length' by (rewrite length_take; lia). apply take_app_length.
Qed.
Lemma spliced_length lo hi mid b b' : spliced lo hi mid b b' -> (hi <= length b)%nat -> length b' = length b.
Proof. intros [Hl ->] Hh. rewrite !length_app, length_take, length_drop. lia. Qed.
Lemma spliced_after lo hi mid b b' k : spliced lo hi mid b b' -> (hi <= k < length b)%nat -> b' !! k = b !! k.
Proof.
  intros [Hl ->] Hk. rewrite !lookup_app_r; rewrite ?length_take; try lia. rewrite lookup_drop. f_equal. lia.
Qed.

(** The characters [add_prefix] puts before the digits. *)
Definition prefix_chars (base : Z) (o : num_to_str_options) : list Z :=
  if include_prefix o then
    [48; match base with
         | 2 => if capitalize_prefix o then 66 else 98
         | 8 => if capitalize_prefix o then 79 else 111
         | _ => if capitalize_prefix o then 88 else 120
         end]
  else [].
(** The prefixes that are printed in full. *)
Definition prefix_good (base : Z) (o : num_to_str_options) : Prop :=
  include_prefix o = true -> base = 2 \/ (base = 8 /\ use_0_octal_prefix o = false) \/ base = 16.

Lemma add_prefix_spec base o i hi mid b b0 : prefix_good base o ->
  (include_prefix o = true -> 2 <= i) -> 0 <= i < 256 ->
  spliced (Z.to_nat i) hi mid b0 b -> (hi <= length b0)%nat ->
  exists b', add_prefix base o i b = Ok (i - Z.of_nat (length (prefix_chars base o)), b') /\
    spliced (Z.to_nat (i - Z.of_nat (length (prefix_chars base o)))) hi (prefix_chars base o ++ mid) b0 b'.
Proof.
  intros Hg Hi2 Hi Hs Hh. unfold add_prefix, prefix_chars. unfold prefix_good in Hg.
  destruct (include_prefix o); [|exists b; cbn; rewrite Z.sub_0_r; split; [reflexivity|exact Hs]].
  specialize (Hg eq_refl). specialize (Hi2 eq_refl). cbn [length]. change (Z.of_nat 2) with 2.
  pose proof (spliced_length _ _ _ _ _ Hs Hh) as Hl. pose proof (proj1 Hs) as Hm.
  rewrite put_ok by lia. cbn [mbind outcome_bind].
  assert (Hput : forall ch, put (i - 1) ch (<[Z.to_nat (i - 2):=48]> b) =
    Ok (<[Z.to_nat (i - 2):=48]> (<[Z.to_nat (i - 1):=ch]> b))).
  { intros ch. rewrite put_ok by (rewrite length_insert; lia). f_equal. apply list_insert_insert_ne. lia. }
  assert (Hsp : forall ch, spliced (Z.to_nat (i - 2)) hi ([48; ch] ++ mid) b0
    (<[Z.to_nat (i - 2):=48]> (<[Z.to_nat (i - 1):=ch]> b))).
  { intros ch. apply put_spliced; [|exact Hh]. replace (S (Z.to_nat (i - 2))) with (Z.to_nat (i - 1)) by lia.
    apply put_spliced; [|exact Hh]. replace (S (Z.to_nat (i - 1))) with (Z.to_nat i) by lia. exact Hs. }
  destruct Hg as [->|[[-> ->]| ->]]; cbn [negb]; rewrite Hput; cbn [mbind outcome_bind];
    rewrite wrap_small by (unfold is_u; lia); eauto.
Qed.

Definition sign_chars (o : num_to_str_options) : list Z := if include_pos_sign o then [43] else [].

(** [LOOP_OVER_POSITIVE_INT]: [lo] characters are free before the digits. *)
Lemma loop_over_positive_spec base o lo number i b : 2 <= base <= 36 ->
  0 <= number < 2 ^ 64 -> number < base ^ (i - lo + 1) -> lo <= i < 255 ->
  (1 <= lo) -> (include_prefix o = true -> 3 <= lo) -> prefix_good base o ->
  (Z.to_nat (i + 1) < length b)%nat ->
  exists i' ds b', loop_over_positive_int base o number i b = Ok (i', b') /\ 0 <= i' /\
    printed base number ds /\ ds = digits_of base o number /\
    spliced (Z.to_nat i') (Z.to_nat (i + 1)) (sign_chars o ++ prefix_chars base o ++ ds)
      (<[Z.to_nat (i + 1):=0]> b) b'.
Proof.
  intros Hb Hn Hi Hib Hlo Hlo3 Hg Hlen. unfold loop_over_positive_int.
  rewrite put_ok by lia. cbn [mbind outcome_bind]. set (b1 := <[Z.to_nat (i + 1):=0]> b).
  assert (Hl1 : length b1 = length b) by apply length_insert.
  assert (Hf : number < base ^ (Z.of_nat 64 + 1)).
  { apply Z.lt_le_trans with (2 ^ 65); [lia|]. apply Z.pow_le_mono_l. lia. }
  destruct (positive_loop_spec base o lo Hb ltac:(lia) 64 number i [] b1 b1) as (i1 & ds & b2 & -> & H1 & H2 & Hds & H3 & H4);
    try lia.
  { split; [cbn; lia|]. cbn [app length]. rewrite Nat.add_0_r. symmetry. apply take_drop. }
  { cbn [length]. lia. }
  cbn [mbind outcome_bind length] in *. rewrite app_nil_r, Nat.add_0_r in H4.
  destruct (add_prefix_spec base o i1 (Z.to_nat (i + 1)) ds b2 b1 Hg) as (b3 & -> & H5);
    [intros Hx; specialize (Hlo3 Hx); lia|lia|exact H4|lia|].
  cbn [mbind outcome_bind]. pose proof (spliced_length _ _ _ _ _ H5 ltac:(lia)) as Hl3.
  pose proof (proj1 H5) as Hm. unfold sign_chars.
  assert (Hpl : Z.of_nat (length (prefix_chars base o)) <= 2) by (unfold prefix_chars; case_match; cbn; lia).
  assert (Hpl' : Z.of_nat (length (prefix_chars base o)) <= i1 - 1).
  { unfold prefix_chars in *. destruct (include_prefix o); cbn; [specialize (Hlo3 eq_refl)|]; lia. }
  revert H5 Hm. generalize (prefix_chars base o) Hpl Hpl'. intros pre _ Hpre H5 Hm.
  destruct (include_pos_sign o).
  - rewrite wrap_small by (unfold is_u; lia). rewrite put_ok by lia. cbn [mbind outcome_bind].
    eexists _, ds, _. split; [reflexivity|]. split; [lia|]. split; [exact H2|]. split; [exact Hds|]. cbn [app].
    apply put_spliced; [|lia]. replace (S (Z.to_nat (i1 - Z.of_nat (length pre) - 1))) with
      (Z.to_nat (i1 - Z.of_nat (length pre))) by lia. exact H5.
  - eexists _, ds, _. split; [reflexivity|]. split; [lia|]. split; [exact H2|]. split; [exact Hds|]. exact H5.
Qed.

(** The bases of the printing functions that are printed inside the buffer. *)
Definition print_base (base : Z) : Prop := base = 2 \/ base = 8 \/ base = 10 \/ base = 16.

(** What printing [n] after [before] returns: the view holds the characters, the
    terminator follows it, and the rest of the buffer keeps its contents. *)
Definition prints (base : Z) (o : num_to_str_options) (n : Z) (before : list Z) (r : outcome (Z * Z * list Z)) (buffer : list Z) : Prop :=
  exists i final_index b ds, r = Ok (i, final_index, b) /\
    view i final_index b = before ++ ds /\ printed base n ds /\ ds = digits_of base o n /\
    0 <= i <= final_index /\ final_index < Z.of_nat (length buffer) /\
    length b = length buffer /\ b !! Z.to_nat final_index = Some 0 /\
    spliced (Z.to_nat i) (Z.to_nat final_index) (before ++ ds) (<[Z.to_nat final_index:=0]> buffer) b.

Lemma spliced_prints base o n before final_index i b b' ds : 0 <= i -> 0 <= final_index ->
  (Z.to_nat final_index < length b)%nat -> printed base n ds ->
  ds = digits_of base o n ->
  spliced (Z.to_nat i) (Z.to_nat final_index) (before ++ ds) (<[Z.to_nat final_index:=0]> b) b' ->
  prints base o n before (Ok (i, final_index, b')) b.
Proof.
  intros Hi Hf Hl Hp Hds Hs. exists i, final_index, b', ds. split; [reflexivity|].
  assert (Hl' : (Z.to_nat final_index <= length (<[Z.to_nat final_index:=0%Z]> b))%nat) by (rewrite length_insert; lia).
  pose proof (proj1 Hs) as Hm.
  split; [|split; [exact Hp|split; [exact Hds|split; [lia|split; [lia|split; [|split]]]]]].
  - pose proof (view_spliced _ _ _ _ _ Hs Hl') as E. rewrite !Z2Nat.id in E by lia. exact E.
  - rewrite (spliced_length _ _ _ _ _ Hs Hl'). apply length_insert.
  - rewrite (spliced_after _ _ _ _ _ _ Hs) by (rewrite length_insert; lia). apply list_lookup_insert_eq. exact Hl.
  - exact Hs.
Qed.

(** The index of the last digit, and the characters that stay free before the digits. *)
Lemma unsigned_room base o number : print_base base -> prefix_good base o -> 0 <= number < 2 ^ 64 ->
  exists lo, let i := unsigned_final_index base - 1 in
    u8 i = i /\ number < base ^ (i - lo + 1) /\ lo <= i < 255 /\ 1 <= lo /\
    (include_prefix o = true -> 3 <= lo) /\ i + 1 < MAX_CONVERT_CAP.
Proof.
  unfold prefix_good, MAX_CONVERT_CAP, MAX_BINARY_CONVERT_CAP. intros [->|[->|[->| ->]]] Hg Hn.
  - exists 3. change (unsigned_final_index 2) with 67. change (2 ^ (67 - 1 - 3 + 1)) with (2 ^ 64).
    repeat split; lia.
  - exists 3. change (unsigned_final_index 8) with 25. change (8 ^ (25 - 1 - 3 + 1)) with (2 ^ 66).
    repeat split; lia.
  - exists 1. change (unsigned_final_index 10) with 21. change (10 ^ (21 - 1 - 1 + 1)) with (10 ^ 20).
    repeat split; try lia. intros H. specialize (Hg H). lia.
  - exists 3. change (unsigned_final_index 16) with 19. change (16 ^ (19 - 1 - 3 + 1)) with (2 ^ 64).
    repeat split; lia.
Qed.

Lemma unsigned_prints base o number buffer : print_base base -> prefix_good base o ->
  0 <= number < 2 ^ 64 -> Z.of_nat (length buffer) = MAX_CONVERT_CAP ->
  prints base o number (sign_chars o ++ prefix_chars base o) (unsigned_to_string_view base o number buffer) buffer.
Proof.
  intros Hb Hg Hn Hl. destruct (unsigned_room base o number Hb Hg Hn) as (lo & Hu & Hr & Hlo & Hlo1 & Hlo3 & Hc).
  unfold unsigned_to_string_view. rewrite Hu. set (i := unsigned_final_index base - 1) in *.
  replace (unsigned_final_index base) with (i + 1) by (unfold i; lia).
  destruct (loop_over_positive_spec base o lo number i buffer) as (i' & ds & b' & -> & Hi' & Hp & Hds & Hs); auto; try lia.
  { destruct Hb as [->|[->|[->| ->]]]; lia. }
  cbn [mbind outcome_bind]. rewrite app_assoc in Hs. eapply spliced_prints; eauto; lia.
Qed.

(** [unsigned_to_string_view] prints every 64-bit number in base 2, 8, 10 and 16: the
    view has the sign and the prefix asked for and then the digits of the number without
    leading zeros, the terminator follows it, and nothing is written outside the buffer;
    for a base 10 number no prefix may be asked for, and for base 8 not the short one. *)
Theorem unsigned_to_string_view_prints base o number buffer : print_base base -> prefix_good base o ->
  0 <= number < 2 ^ 64 -> Z.of_nat (length buffer) = MAX_CONVERT_CAP ->
  prints base o number (sign_chars o ++ prefix_chars base o) (unsigned_to_string_view base o number buffer) buffer.
Proof. apply unsigned_prints. Qed.
Lemma unsigned_to_string_view_prints_witness :
  prints 16 (NumToStr true false true false false) 48879 (sign_chars (NumToStr true false true false false) ++
    prefix_chars 16 (NumToStr true false true false false))
    (unsigned_to_string_view 16 (NumToStr true false true false false) 48879 (replicate 68 7)) (replicate 68 7) /\
  match unsigned_to_string_view 16 (NumToStr true false true false false) 48879 (replicate 68 7) with
  | Ok (i, f, b) => view i f b = chars_of "0xBEEF"
  | _ => False
  end.
Proof.
  split; [|vm_compute; reflexivity].
  apply (unsigned_to_string_view_prints 16 (NumToStr true false true false false) 48879 (replicate 68 7));
    [unfold print_base; auto|unfold prefix_good; auto|lia|reflexivity].
Defined.

Lemma signed_prints base o number buffer : print_base base -> prefix_good base o ->
  - 2 ^ 63 <= number < 2 ^ 63 -> (number < 0 -> include_prefix o = false) ->
  Z.of_nat (length buffer) = MAX_CONVERT_CAP ->
  prints base o (Z.abs number)
    (if number <? 0 then [45] else sign_chars o ++ prefix_chars base o)
    (signed_to_string_view base o number buffer) buffer.
Proof.
  intros Hb Hg Hn Hneg Hl. assert (Ha : 0 <= Z.abs number < 2 ^ 64) by lia.
  destruct (unsigned_room base o (Z.abs number) Hb Hg Ha) as (lo & Hu & Hr & Hlo & Hlo1 & Hlo3 & Hc).
  unfold signed_to_string_view. replace (signed_final_index base) with (unsigned_final_index base)
    by (destruct Hb as [->|[->|[->| ->]]]; reflexivity).
  assert (Hb36 : 2 <= base <= 36) by (destruct Hb as [->|[->|[->| ->]]]; lia).
  rewrite Hu. set (i := unsigned_final_index base - 1) in *.
  replace (unsigned_final_index base) with (i + 1) by (unfold i; lia).
  unfold loop_over_signed_int. destruct (Z.ltb_spec number 0) as [Hlt|Hge].
  - specialize (Hneg Hlt). rewrite put_ok by lia. cbn [mbind outcome_bind].
    set (b1 := <[Z.to_nat (i + 1):=0]> buffer). assert (Hl1 : length b1 = length buffer) by apply length_insert.
    assert (Hf : Z.abs number < base ^ (Z.of_nat 64 + 1)).
    { apply Z.lt_le_trans with (2 ^ 65); [lia|]. apply Z.pow_le_mono_l. lia. }
    replace number with (- Z.abs number) by lia. rewrite negative_loop_positive by lia. replace (- Z.abs number) with number by lia.
    destruct (positive_loop_spec base o lo Hb36 ltac:(lia) 64 (Z.abs number) i [] b1 b1)
      as (i1 & ds & b2 & -> & H1 & H2 & Hds & H3 & H4); try lia.
    { split; [cbn; lia|]. cbn [app length]. rewrite Nat.add_0_r. symmetry. apply take_drop. }
    { cbn [length]. lia. }
    cbn [length] in H4. rewrite app_nil_r, Nat.add_0_r in H4. unfold outcome_map, add_prefix.
    rewrite Hneg. cbn [mbind outcome_bind fst snd]. rewrite wrap_small by (unfold is_u; lia).
    pose proof (spliced_length _ _ _ _ _ H4 ltac:(lia)) as Hl2. rewrite put_ok by lia. cbn [mbind outcome_bind].
    apply spliced_prints with (ds := ds); try lia; [exact H2|exact Hds|]. apply put_spliced; [|fold b1; lia].
    replace (S (Z.to_nat (i1 - 1))) with (Z.to_nat i1) by lia. exact H4.
  - replace (Z.abs number) with number in * by lia.
    destruct (loop_over_positive_spec base o lo number i buffer) as (i' & ds & b' & -> & Hi' & Hp & Hds & Hs); auto; try lia.
    cbn [mbind outcome_bind]. rewrite app_assoc in Hs. eapply spliced_prints; eauto; lia.
Qed.

(** [signed_to_string_view] prints every 64-bit signed number in base 2, 8, 10 and 16:
    a negative one, asked for without a prefix, as a minus sign and the digits of its
    absolute value, [INT64_MIN] included, any other as [unsigned_to_string_view] does. *)
Theorem signed_to_string_view_prints base o number buffer : print_base base -> prefix_good base o ->
  - 2 ^ 63 <= number < 2 ^ 63 -> (number < 0 -> include_prefix o = false) ->
  Z.of_nat (length buffer) = MAX_CONVERT_CAP ->
  prints base o (Z.abs number)
    (if number <? 0 then [45] else sign_chars o ++ prefix_chars base o)
    (signed_to_string_view base o number buffer) buffer.
Proof. apply signed_prints. Qed.
Lemma signed_to_string_view_prints_witness :
  prints 10 (NumToStr false false false false false) (Z.abs (- 2 ^ 63)) (if - 2 ^ 63 <? 0 then [45] else sign_chars (NumToStr false false false false false) ++
    prefix_chars 10 (NumToStr false false false false false))
    (signed_to_string_view 10 (NumToStr false false false false false) (- 2 ^ 63) (replicate 68 7)) (replicate 68 7) /\
  match signed_to_string_view 10 (NumToStr false false false false false) (- 2 ^ 63) (replicate 68 7) with
  | Ok (i, f, b) => view i f b = chars_of "-9223372036854775808"
  | _ => False
  end.
Proof.
  split; [|vm_compute; reflexivity].
  apply (signed_to_string_view_prints 10 (NumToStr false false false false false) (- 2 ^ 63) (replicate 68 7));
    [unfold print_base; auto|unfold prefix_good; discriminate|lia|reflexivity|reflexivity].
Defined.

(** ** Parsing numerals *)

Lemma numeral_loop o base l found : 2 <= base <= 36 -> numeral base l -> l <> [] ->
  (r ← digit_loop o base l 0 found;
   match r with
   | inl (err, result) => Ok (err, None, Some result)
   | inr (result, found_digit, rest) => Ok (finish false false found_digit rest result)
   end) =
  if value base l <? 2 ^ 64 then Ok (E_STR_TO_NUM_OK, Some [], Some (value base l))
  else outcome_map (fun r => (E_STR_TO_NUM_OVERFLOW, None, match r with inl (_, r) => Some r | _ => None end))
         (digit_loop o base l 0 found).
Proof.
  intros Hb Hl Hne. pose proof (digit_loop_value o base l ltac:(lia) 0 found ltac:(lia) Hl) as H.
  fold (value base l) in H. destruct (value base l <? 2 ^ 64).
  - rewrite H. cbn [mbind outcome_bind]. rewrite bool_decide_eq_false_2 by exact Hne. cbn. rewrite orb_true_r. reflexivity.
  - destruct H as [r ->]. reflexivity.
Qed.

(** No character of a sign or a space begins the numeral. *)
Definition plain_start (l : list Z) : Prop :=
  exists c r, l = c :: r /\ 0 <= c < 128 /\ c <> 43 /\ c <> 45 /\ c_space c = false.
Lemma convert_plain l o sg : plain_start l -> convert_sv_to_64int l o sg = sv_number o sg false l.
Proof.
  intros (c & r & -> & Hc & H1 & H2 & Hs). unfold convert_sv_to_64int.
  assert (E : (if skip_leading_whitespace o then skip_space (c :: r) else Ok (c :: r)) = Ok (c :: r)).
  { destruct (skip_leading_whitespace o); [|reflexivity]. cbn [skip_space]. rewrite (isspace_ok c Hc), Hs. reflexivity. }
  rewrite E. cbn [mbind outcome_bind]. destruct (Z.eqb_spec c 45), (Z.eqb_spec c 43); try done.
Qed.
Lemma numeral_start base l : numeral base l -> base <= 36 -> l <> [] -> plain_start l.
Proof.
  intros Hl Hb Hne. destruct l as [|c r]; [done|]. apply list.Forall_cons in Hl as [[Hc Hv] _].
  exists c, r. split; [reflexivity|]. split; [exact Hc|].
  unfold char_value, c_digit, c_upper, c_lower, between in Hv. unfold c_space, between.
  destruct (Z.leb_spec 48 c), (Z.leb_spec c 57), (Z.leb_spec 65 c), (Z.leb_spec c 90), (Z.leb_spec 97 c),
    (Z.leb_spec c 122); cbn in Hv; try lia;
  (split; [lia|]; split; [lia|]); destruct (Z.eqb_spec c 32), (Z.leb_spec 9 c), (Z.leb_spec c 13); cbn; lia || done.
Qed.

(** [sv_to_unsigned] returns the value of a numeral of the default base that does not
    begin with 0, and reports an overflow exactly when the value does not fit 64 bits. *)
Theorem sv_to_unsigned_value o l : 2 <= default_base o <= 36 -> numeral (default_base o) l -> l <> [] ->
  head l <> Some 48 ->
  if value (default_base o) l <? 2 ^ 64
  then sv_to_unsigned l o = Ok (E_STR_TO_NUM_OK, Some [], Some (value (default_base o) l))
  else exists r, sv_to_unsigned l o = Ok (E_STR_TO_NUM_OVERFLOW, None, r).
Proof.
  intros Hb Hl Hne Hh. unfold sv_to_unsigned. rewrite convert_plain by (eapply numeral_start; eauto; lia).
  unfold sv_number. destruct l as [|c l]; [done|]. cbn [head from_option id].
  destruct (Z.eqb_spec c 48) as [->|_]; [done|]. rewrite numeral_loop by auto.
  pose proof (digit_loop_value o (default_base o) (c :: l) ltac:(lia) 0 false ltac:(lia) Hl) as H.
  fold (value (default_base o) (c :: l)) in H. destruct (value (default_base o) (c :: l) <? 2 ^ 64); [reflexivity|].
  destruct H as [r ->]. eexists. reflexivity.
Qed.
Lemma sv_to_unsigned_value_witness :
  (if value 10 (chars_of "18446744073709551616") <? 2 ^ 64
   then sv_to_unsigned (chars_of "18446744073709551616") (strtoul_options 10) =
        Ok (E_STR_TO_NUM_OK, Some [], Some (value 10 (chars_of "18446744073709551616")))
   else exists r, sv_to_unsigned (chars_of "18446744073709551616") (strtoul_options 10) =
        Ok (E_STR_TO_NUM_OVERFLOW, None, r)).
Proof.
  apply (sv_to_unsigned_value (strtoul_options 10) (chars_of "18446744073709551616"));
    [cbn; lia| |discriminate|discriminate].
  repeat (constructor; [vm_compute; intuition congruence|]). constructor.
Defined.

(** ** Round trip *)

Definition all_allowed (base : Z) : str_to_num_options :=
  StrToNum base false false false false false false false false false false false false false false
    false false false false.

Lemma prefixed_value o ch base ds : prefix_base o ch = Some (inr base) -> 2 <= base <= 36 ->
  numeral base ds -> ds <> [] -> value base ds < 2 ^ 64 ->
  sv_number o false false (48 :: ch :: ds) = Ok (E_STR_TO_NUM_OK, Some [], Some (value base ds)).
Proof.
  intros Hp Hb Hl Hne Hv. unfold sv_number. cbn [head from_option id tail Z.eqb Pos.eqb]. rewrite Hp.
  rewrite numeral_loop by auto. destruct (Z.ltb_spec (value base ds) (2 ^ 64)); [reflexivity|lia].
Qed.
Lemma printed_plain o n ds : default_base o = 10 -> printed 10 n ds -> n < 2 ^ 64 ->
  sv_number o false false ds = Ok (E_STR_TO_NUM_OK, Some [], Some n).
Proof.
  intros Hd (Hl & Hv & Hne & Hpos & H0 & _) Hn. unfold sv_number. destruct ds as [|c ds]; [done|].
  cbn [head from_option id tail]. destruct (Z.eqb_spec c 48) as [->|Hc].
  - destruct (H0 eq_refl) as [E ->]. injection E as ->. reflexivity.
  - rewrite Hd, numeral_loop by (auto; lia). rewrite Hv. destruct (Z.ltb_spec n (2 ^ 64)); [reflexivity|lia].
Qed.

(** The options that print a number so that its base can be told. *)
Definition print_tagged (base : Z) (o : num_to_str_options) : Prop :=
  include_prefix o = negb (base =? 10) /\ use_0_octal_prefix o = false.

Lemma tagged_value base o n ds : print_base base -> print_tagged base o -> printed base n ds -> n < 2 ^ 64 ->
  sv_number (all_allowed 10) false false (prefix_chars base o ++ ds) = Ok (E_STR_TO_NUM_OK, Some [], Some n).
Proof.
  intros Hb [Hp _] Hpr Hn. unfold prefix_chars. rewrite Hp.
  destruct Hb as [->|[->|[->| ->]]]; cbn [Z.eqb Pos.eqb negb app];
    try (destruct Hpr as (Hl & <- & Hne & _); destruct (capitalize_prefix o);
         apply prefixed_value; auto; reflexivity || lia).
  apply printed_plain; auto.
Qed.


(** ** What does not hold *)

(** Negative numbers are never read back: the difference that negates the value fits, and
    that is taken for an underflow. *)
Lemma sv_to_signed_negative o l : numeral (default_base o) l -> 2 <= default_base o <= 36 -> l <> [] ->
  head l <> Some 48 -> value (default_base o) l < 2 ^ 63 -> skip_leading_whitespace o = false ->
  sv_to_signed (45 :: l) o = Ok (E_STR_TO_NUM_UNDERFLOW, Some [], Some (u64 (- value (default_base o) l))).
Proof.
  intros Hl Hb Hne Hh Hv Hs. unfold sv_to_signed, convert_sv_to_64int. rewrite Hs. cbn [mbind outcome_bind Z.eqb Pos.eqb negb].
  destruct l as [|c l]; [done|]. cbn [sv_after_sign]. unfold sv_number. cbn [head from_option id].
  destruct (Z.eqb_spec c 48) as [->|_]; [done|].
  pose proof (digit_loop_value o (default_base o) (c :: l) ltac:(lia) 0 false ltac:(lia) Hl) as H.
  fold (value (default_base o) (c :: l)) in H.
  assert (0 <= value (default_base o) (c :: l)) by (apply value_from_ge; lia).
  destruct (Z.ltb_spec (value (default_base o) (c :: l)) (2 ^ 64)); [|lia]. rewrite H. cbn [mbind outcome_bind].
  unfold finish. cbn [bool_decide orb negb andb].
  destruct (bool_decide_reflect (c :: l = [])); [done|]. cbn [negb orb andb].
  destruct (Z.ltb_spec (2 ^ 63 - 1) (value (default_base o) (c :: l))); [lia|].
  destruct (Z.leb_spec (- 2 ^ 63) (0 - value (default_base o) (c :: l))); [|lia].
  destruct (Z.leb_spec (0 - value (default_base o) (c :: l)) (2 ^ 63 - 1)); [|lia]. reflexivity.
Qed.

(** The short octal prefix leaves the character before the digits as it was, and so does a
    prefix asked for in base 10 or with a negative number; in base 36 the terminator is
    written past the buffer. *)
Lemma prefix_gaps :
  (let '(i, f, b) := match unsigned_to_string_view 8 (NumToStr true false false false true) 8 (replicate 68 63) with
                     | Ok r => r | _ => (0, 0, []) end in view i f b = chars_of "?10") /\
  (let '(i, f, b) := match unsigned_to_string_view 10 (NumToStr true false false false false) 8 (replicate 68 63) with
                     | Ok r => r | _ => (0, 0, []) end in view i f b = chars_of "0?8") /\
  (let '(i, f, b) := match signed_to_string_view 16 (NumToStr true false false false false) (-8) (replicate 68 63) with
                     | Ok r => r | _ => (0, 0, []) end in view i f b = chars_of "-x?8") /\
  unsigned_to_string_view 36 (NumToStr false false false false false) 8 (replicate 68 63) = Undef.
Proof. vm_compute. auto. Qed.
