(* ===== verification/Printf.v ===== *)
(** * The printf engine: lib/parse_printf.c, and its clients in lib/format.c

    The format, the strings among the arguments, the string literals and the buffer that
    numbers are printed into are in one memory with the output, and the engine reads each
    character when the code does.  The callbacks are the class [Sink].  [Directive] and
    [iso_field] are the reference: the directives of a format and the text ISO C gives
    each of them. *)

From Stdlib Require Import String Ascii.
From S2P Require Import Prelude Mem Alloc Arith Range KStdlib Ctype Convert Buffers.
Import StringView MBuffer.

(** ** Arguments and callbacks *)

Record printf_spec_info := SpecInfo {
  add_one_space_for_sign : bool; left_justify : bool; add_pos_sign : bool;
  add_base_prefix : bool; leftpad_zeros : bool;
  spec : Z; width : Z; precision : Z; length_sv : string_view }.

(** An argument as the caller passed it: [int] or [unsigned], a 64-bit integer, a string,
    a pointer [%n] stores through, another pointer. *)
Inductive va_item := VInt (z : Z) | VLong (z : Z) | VStr (p : Z) | VOut (p : Z) | VPtr (p : Z).
Abbreviation va_list := (list va_item).

Definition va_int (args : va_list) : outcome (Z * va_list) :=
  match args with VInt z :: args => Ok (i32 z, args) | _ => Undef end.
Definition va_unsigned (args : va_list) : outcome (Z * va_list) :=
  match args with VInt z :: args => Ok (u32 z, args) | _ => Undef end.
(** [long], [long long], [intmax_t], [size_t] and [ptrdiff_t], read as [uint64_t]. *)
Definition va_long (args : va_list) : outcome (Z * va_list) :=
  match args with VLong z :: args => Ok (u64 z, args) | _ => Undef end.
Definition va_str (args : va_list) : outcome (Z * va_list) :=
  match args with VStr p :: args => Ok (p, args) | _ => Undef end.
Definition va_out (args : va_list) : outcome (Z * va_list) :=
  match args with VOut p :: args => Ok (p, args) | _ => Undef end.
Definition va_ptr (args : va_list) : outcome (Z * va_list) :=
  match args with
  | (VStr p | VOut p | VPtr p) :: args => Ok (p, args)
  | _ => Undef
  end.

(** The callbacks: the amount written, [*should_continue_out] afterwards, the memory and
    the state behind [cb_info]. *)
Class Sink (S : Type) := {
  write_char_cb : option printf_spec_info -> mem -> S -> Z -> Z -> bool -> outcome (Z * bool * mem * S);
  write_sv_cb : option printf_spec_info -> mem -> S -> string_view -> bool -> outcome (Z * bool * mem * S) }.

Definition is_int_specifier (sp : Z) : bool :=
  (sp =? 98) || (sp =? 66) || (sp =? 100) || (sp =? 105) || (sp =? 111) || (sp =? 117) ||
  (sp =? 120) || (sp =? 88).

(** [result] times ten plus [digit], where both fit [int]. *)
Definition next_int (result digit : Z) : option Z :=
  if (result * 10 <=? INT32_MAX) && (result * 10 + digit <=? INT32_MAX)
  then Some (result * 10 + digit) else None.

Section Engine.
(** [lit s] is the address of the literal [s]; [buffer] is the local array. *)
Context (a : arch) (cbo_size : Z) (fuel : nat) (lit : string -> Z) (buffer : Z).

Definition SV_STATIC (s : string) : string_view := SV (lit s) (Z.of_nat (String.length s)).
Definition SV_EMPTY : string_view := SV (lit EmptyString) 0.
Definition PRINTF_SPEC_INFO_INIT : printf_spec_info :=
  SpecInfo false false false false false 0 0 0 SV_EMPTY.

Definition set_width (i : printf_spec_info) (w : Z) : printf_spec_info :=
  SpecInfo (add_one_space_for_sign i) (left_justify i) (add_pos_sign i) (add_base_prefix i)
    (leftpad_zeros i) (spec i) w (precision i) (length_sv i).
Definition set_precision (i : printf_spec_info) (p : Z) : printf_spec_info :=
  SpecInfo (add_one_space_for_sign i) (left_justify i) (add_pos_sign i) (add_base_prefix i)
    (leftpad_zeros i) (spec i) (width i) p (length_sv i).
Definition set_length_sv (i : printf_spec_info) (sv : string_view) : printf_spec_info :=
  SpecInfo (add_one_space_for_sign i) (left_justify i) (add_pos_sign i) (add_base_prefix i)
    (leftpad_zeros i) (spec i) (width i) (precision i) sv.
Definition set_spec (i : printf_spec_info) (sp : Z) : printf_spec_info :=
  SpecInfo (add_one_space_for_sign i) (left_justify i) (add_pos_sign i) (add_base_prefix i)
    (leftpad_zeros i) sp (width i) (precision i) (length_sv i).
(** The flag a character sets. *)
Definition set_flag (i : printf_spec_info) (ch : Z) : option printf_spec_info :=
  let '(SpecInfo sp lj ps bp lz s w p l) := i in
  match ch with
  | 32 => Some (SpecInfo true lj ps bp lz s w p l)
  | 45 => Some (SpecInfo sp true ps bp lz s w p l)
  | 43 => Some (SpecInfo sp lj true bp lz s w p l)
  | 35 => Some (SpecInfo sp lj ps true lz s w p l)
  | 48 => Some (SpecInfo sp lj ps bp true s w p l)
  | _ => None
  end.

(** ** Parsing a directive; [None] is the result [false] *)

Fixpoint parse_flags_loop (n : nat) (m : mem) (i : printf_spec_info) (iter : Z)
    : outcome (option (printf_spec_info * Z)) :=
  match set_flag i (m iter) with
  | None => Ok (Some (i, iter))
  | Some i =>
      if m (iter + 1) =? 0 then Ok None
      else match n with
           | O => Diverge
           | S n => parse_flags_loop n m i (iter + 1)
           end
  end.
Definition parse_flags := parse_flags_loop fuel.

(** The number and [*iter_out], which stays at the start when the string ends first. *)
Fixpoint read_int_loop (n : nat) (m : mem) (c_str iter result : Z) : outcome (Z * Z) :=
  if m iter =? 0 then Ok (result, c_str) else
  let digit := u8 (m iter - 48) in
  if 10 <=? digit then Ok (result, iter) else
  match next_int result digit with
  | None => Ok (-1, iter)
  | Some result =>
      match n with
      | O => Diverge
      | S n => read_int_loop n m c_str (iter + 1) result
      end
  end.
Definition read_int_from_fmt_string (m : mem) (c_str : Z) : outcome (Z * Z) :=
  read_int_loop fuel m c_str c_str 0.

Definition parse_width (m : mem) (i : printf_spec_info) (args : va_list) (iter : Z)
    : outcome (option (printf_spec_info * va_list * Z)) :=
  r ← (if negb (m iter =? 42) then
         '(w, iter) ← read_int_from_fmt_string m iter;
         if w =? -1 then Ok None else Ok (Some (set_width i (u32 w), args, iter))
       else
         '(value, args) ← va_int args;
         Ok (Some (set_width i (if 0 <=? value then u32 value else 0), args, iter + 1)));
  match r with
  | None => Ok None
  | Some (i, args, iter) => if m iter =? 0 then Ok None else Ok (Some (i, args, iter))
  end.

Definition parse_precision (m : mem) (i : printf_spec_info) (args : va_list) (iter : Z)
    : outcome (option (printf_spec_info * va_list * Z)) :=
  if negb (m iter =? 46) then Ok (Some (set_precision i (-1), args, iter)) else
  let iter := iter + 1 in
  if m iter =? 0 then Ok None
  else if m iter =? 42 then
    if m (iter + 1) =? 0 then Ok None else
    '(p, args) ← va_int args;
    Ok (Some (set_precision i p, args, iter + 1))
  else
    '(p, iter) ← read_int_from_fmt_string m iter;
    if p =? -1 then Ok None
    else if m iter =? 0 then Ok None
    else Ok (Some (set_precision i p, args, iter)).

(** The spec, the position, the arguments, [*number_out] and [*is_zero_out]. *)
Definition parse_length (m : mem) (i : printf_spec_info) (args : va_list) (iter : Z)
    : outcome (option (printf_spec_info * Z * va_list * Z * bool)) :=
  let finish sv (number : Z) args iter :=
    sv ← sv; Ok (Some (set_length_sv i sv, iter, args, number, number =? 0)) in
  match m iter with
  | 0 => Ok None
  | 104 =>
      let iter := iter + 1 in
      match m iter with
      | 0 => Ok None
      | 104 => '(n, args) ← va_int args; finish (sv_create_length (iter - 2) 2) (u64 n) args (iter + 1)
      | _ => '(n, args) ← va_int args; finish (sv_create_length (iter - 1) 1) (u64 n) args iter
      end
  | 108 =>
      let iter := iter + 1 in
      match m iter with
      | 0 => Ok None
      | 108 => '(n, args) ← va_long args; finish (sv_create_length (iter - 2) 2) n args (iter + 1)
      | _ => '(n, args) ← va_long args; finish (sv_create_length (iter - 1) 1) n args iter
      end
  | 106 | 122 | 116 => '(n, args) ← va_long args; finish (sv_create_length iter 1) n args (iter + 1)
  | _ => Ok (Some (set_length_sv i SV_EMPTY, iter, args, 0, false))
  end.

(** ** Converting an argument *)

Definition write_bytes (m : mem) (base : Z) (l : list Z) : mem :=
  fun x => if within base (Z.of_nat (length l)) x then default 0 (l !! Z.to_nat (x - base)) else m x.

(** A conversion of lib/convert.c into [buffer], and the view it returns. *)
Definition into_buffer (m : mem) (f : list Z -> outcome (Z * Z * list Z)) : outcome (mem * string_view) :=
  '(i, final_index, b) ← f (bytes_at m buffer (Z.to_nat MAX_CONVERT_CAP));
  sv ← sv_create_end (buffer + i) (buffer + final_index);
  Ok (write_bytes m buffer b, sv).

(** [E_HANDLE_SPEC_OK] with [*parsed_out], [*is_zero_out], [*is_null_out], the arguments and
    the memory; [E_HANDLE_SPEC_REACHED_END]; [E_HANDLE_SPEC_CONTINUE]. *)
Inductive handle_spec_result :=
| SpecOk (parsed : string_view) (is_zero is_null : bool) (args : va_list) (m : mem)
| SpecReachedEnd
| SpecContinue (args : va_list) (m : mem).

Definition plain_options : num_to_str_options := NumToStr false false false false false.
Definition upper_options : num_to_str_options := NumToStr false false true false false.

Definition handle_int (m : mem) (i : printf_spec_info) (number : Z) (is_zero : bool) (args : va_list)
    (read : va_list -> outcome (Z * va_list)) (f : Z -> list Z -> outcome (Z * Z * list Z))
    : outcome handle_spec_result :=
  '(number, is_zero, args) ←
    (if sv_length (length_sv i) =? 0
     then '(n, args) ← read args; Ok (u64 n, u64 n =? 0, args)
     else Ok (number, is_zero, args));
  '(m, parsed) ← into_buffer m (f number);
  Ok (SpecOk parsed is_zero false args m).

(** [%n] *)
Definition handle_n (m : mem) (i : printf_spec_info) (written_out : Z) (is_zero : bool) (args : va_list)
    : outcome handle_spec_result :=
  let put (n : nat) := '(p, args) ← va_out args; Ok (SpecContinue args (store n m p written_out)) in
  let skip := Ok (SpecOk SV_EMPTY is_zero false args m) in
  let sv := length_sv i in
  if sv_length sv =? 0 then put 4%nat else
  let first := m (sv_begin sv) in
  let second := m (sv_begin sv + 1) in
  if first =? 104 then
    if sv_length sv =? 2 then (if second =? 104 then put 1%nat else skip)
    else if sv_length sv =? 1 then put 2%nat else skip
  else if first =? 108 then
    if sv_length sv =? 2 then (if second =? 108 then put 1%nat else skip)
    else if sv_length sv =? 1 then put 8%nat else skip
  else if (first =? 106) || (first =? 122) || (first =? 116) then put 8%nat
  else skip.

Definition handle_s (m : mem) (i : printf_spec_info) (is_zero : bool) (args : va_list)
    : outcome handle_spec_result :=
  '(str, args) ← va_str args;
  if str =? 0 then Ok (SpecOk (SV_STATIC "(null)") is_zero true args m) else
  length ← (if negb (precision i =? -1) then Ok (strnlen m str (u64 (precision i)))
            else strlen fuel m str);
  parsed ← sv_create_length str (u32 length);
  Ok (SpecOk parsed is_zero false args m).

Definition handle_p (m : mem) (is_zero : bool) (args : va_list) : outcome handle_spec_result :=
  '(arg, args) ← va_ptr args;
  if arg =? 0 then Ok (SpecOk (SV_STATIC "(nil)") is_zero true args m) else
  '(m, parsed) ← into_buffer m (unsigned_to_string_view 16 (NumToStr true false true false false) arg);
  Ok (SpecOk parsed is_zero false args m).

Definition handle_spec (m : mem) (i : printf_spec_info) (number written_out : Z) (is_zero : bool)
    (args : va_list) : outcome handle_spec_result :=
  let int read base o :=
    handle_int m i number is_zero args read (unsigned_to_string_view base o) in
  match spec i with
  | 0 => Ok SpecReachedEnd
  | 98 => int va_unsigned 2 plain_options
  | 66 => int va_unsigned 2 upper_options
  | 100 | 105 =>
      handle_int m i number is_zero args va_int
        (fun n => signed_to_string_view 10 (NumToStr false (add_pos_sign i) false false false) (i64 n))
  | 117 => int va_unsigned 10 plain_options
  | 111 => int va_unsigned 8 plain_options
  | 120 => int va_unsigned 16 plain_options
  | 88 => int va_unsigned 16 upper_options
  | 99 =>
      '(ch, args) ← va_int args;
      Ok (SpecOk (sv_create_nocheck buffer 1) is_zero false args (upd m buffer (u8 ch)))
  | 115 => handle_s m i is_zero args
  | 112 => handle_p m is_zero args
  | 110 => handle_n m i written_out is_zero args
  | 37 => Ok (SpecOk (sv_create_nocheck buffer 1) is_zero false args (upd m buffer 37))
  | _ => Ok (SpecContinue args m)
  end.

(** ** Writing a field *)

Section Write.
Context {St : Type} `{Sink St}.
Abbreviation written := (outcome (Z * bool * mem * St)).

Definition write_prefix_for_spec (i : printf_spec_info) (m : mem) (s : St) (cont : bool) : written :=
  if negb (add_base_prefix i) then Ok (0, cont, m, s) else
  match spec i with
  | 98 => write_sv_cb (Some i) m s (SV_STATIC "0b") cont
  | 66 => write_sv_cb (Some i) m s (SV_STATIC "0B") cont
  | 111 => write_char_cb (Some i) m s 48 1 cont
  | 120 => write_sv_cb (Some i) m s (SV_STATIC "0x") cont
  | 88 => write_sv_cb (Some i) m s (SV_STATIC "0X") cont
  | _ => Ok (0, cont, m, s)
  end.

(** Also [*parsed]; [cont_out] itself is never NULL, so no write is skipped. *)
Definition pad_with_lead_zeros (i : printf_spec_info) (parsed : string_view) (zero_count : Z)
    (is_null : bool) (m : mem) (s : St) (cont : bool) : outcome (Z * string_view * bool * mem * St) :=
  '(out, cont, m, s) ← (if negb is_null then write_prefix_for_spec i m s cont else Ok (0, cont, m, s));
  if zero_count =? 0 then Ok (out, parsed, cont, m, s) else
  let front := m (sv_begin parsed) in
  '(out, parsed, cont, m, s) ←
    (if (front =? 43) || (front =? 45) then
       '(n, cont, m, s) ← write_char_cb (Some i) m s front 1 cont;
       Ok (u64 (out + n), sv_drop_front (lit EmptyString) parsed, cont, m, s)
     else Ok (out, parsed, cont, m, s));
  '(n, cont, m, s) ← write_char_cb (Some i) m s 48 zero_count cont;
  Ok (u64 (out + n), parsed, cont, m, s).

Definition call_cb (i : option printf_spec_info) (sv : string_view) (m : mem) (s : St) (cont : bool) : written :=
  if sv_length sv =? 0 then Ok (0, cont, m, s)
  else if sv_length sv =? 1 then write_char_cb i m s (m (sv_begin sv)) 1 cont
  else write_sv_cb i m s sv cont.

(** [padded_zero_count] and [space_pad_count], with [parsed_length] kept to eight bits. *)
Definition padding (i : printf_spec_info) (m : mem) (parsed : string_view) (should_write_parsed : bool)
    : Z * Z :=
  let begins_with ch := m (sv_begin parsed) =? ch in
  let parsed_length :=
    if should_write_parsed then
      let n := u8 (sv_length parsed) in
      if add_base_prefix i then
        match spec i with
        | 98 | 66 | 120 | 88 => u8 (n + 2)
        | 111 => u8 (n + 1)
        | _ => n
        end
      else n
    else 0 in
  let '(padded_zero_count, parsed_length, space_pad_count) :=
    if is_int_specifier (spec i) then
      let '(zeros, parsed_length) :=
        if negb (precision i =? -1) then
          let total := u8 (sv_length parsed) in
          let total := if begins_with 45 || begins_with 43 then u8 (total - 1) else total in
          if total <? precision i
          then (u32 (precision i - total), u8 (parsed_length + u32 (precision i - total)))
          else (0, parsed_length)
        else (0, parsed_length) in
      (zeros, parsed_length,
       if negb (parsed_length =? 0) && add_one_space_for_sign i && negb (begins_with 43) && negb (begins_with 45)
       then 1 else 0)
    else (0, parsed_length, 0) in
  if parsed_length <? width i then
    if leftpad_zeros i && is_int_specifier (spec i) && (precision i =? -1) && negb (left_justify i)
    then (width i - parsed_length, space_pad_count)
    else (padded_zero_count, u32 (space_pad_count + (width i - parsed_length)))
  else (padded_zero_count, space_pad_count).

(** The three writes of a field; a later one only runs when [should_continue] is left set. *)
Definition write_spaces (i : printf_spec_info) (n : Z) (w : Z) (cont : bool) (m : mem) (s : St) : written :=
  if negb cont then Ok (w, cont, m, s)
  else if n =? 0 then Ok (w, cont, m, s)
  else '(out, cont, m, s) ← write_char_cb (Some i) m s 32 n cont; Ok (u32 (w + out), cont, m, s).
Definition write_body (i : printf_spec_info) (parsed : string_view) (zeros : Z) (is_null : bool)
    (should_write_parsed : bool) (w : Z) (cont : bool) (m : mem) (s : St) : written :=
  if negb cont then Ok (w, cont, m, s) else
  '(out, parsed, cont, m, s) ← pad_with_lead_zeros i parsed zeros is_null m s cont;
  let w := u32 (w + out) in
  if negb cont then Ok (w, cont, m, s)
  else if negb should_write_parsed then Ok (w, cont, m, s)
  else '(out, cont, m, s) ← call_cb (Some i) parsed m s cont; Ok (u32 (w + out), cont, m, s).

Definition write_field (i : printf_spec_info) (parsed : string_view) (is_zero is_null : bool)
    (w : Z) (m : mem) (s : St) : written :=
  let should_write_parsed := negb (is_zero && (precision i =? 0)) in
  let '(zeros, spaces) := padding i m parsed should_write_parsed in
  if left_justify i then
    '(w, cont, m, s) ← write_body i parsed zeros is_null should_write_parsed w true m s;
    write_spaces i spaces w cont m s
  else
    '(w, cont, m, s) ← write_spaces i spaces w true m s;
    write_body i parsed zeros is_null should_write_parsed w cont m s.

(** ** The engine *)

(** The flags, the width, the precision and the length; [None]: [parse_printf] returns. *)
Definition parse_spec (m : mem) (args : va_list) (iter : Z)
    : outcome (option (printf_spec_info * Z * va_list * Z * bool)) :=
  r ← parse_flags m PRINTF_SPEC_INFO_INIT iter;
  match r with
  | None => Ok None
  | Some (i, iter) =>
      r ← parse_width m i args iter;
      match r with
      | None => Ok None
      | Some (i, args, iter) =>
          r ← parse_precision m i args iter;
          match r with
          | None => Ok None
          | Some (i, args, iter) => parse_length m i args iter
          end
      end
  end.

(** One round of the loop, from a percent sign: it returns, leaves the loop, or goes on
    with [iter] and [unformatted_start]. *)
Inductive round_result :=
| Returned (written_out : Z) (m : mem) (s : St)
| Left (written_out : Z) (m : mem) (s : St)
| Next (iter unformatted_start written_out : Z) (args : va_list) (m : mem) (s : St).

(** From the character after the percent sign on. *)
Definition format_directive (m : mem) (s : St) (args : va_list) (written_out iter : Z) : outcome round_result :=
  if m iter =? 0 then Ok (Returned written_out m s) else
  r ← parse_spec m args iter;
  match r with
  | None => Ok (Returned written_out m s)
  | Some (i, iter, args, number, is_zero) =>
      let i := set_spec i (m iter) in
      r ← handle_spec m i number written_out is_zero args;
      match r with
      | SpecReachedEnd => Ok (Returned written_out m s)
      | SpecContinue args m => Ok (Next iter (iter + 1) written_out args m s)
      | SpecOk parsed is_zero is_null args m =>
          '(written_out, cont, m, s) ← write_field i parsed is_zero is_null written_out m s;
          if negb cont then Ok (Returned written_out m s)
          else Ok (Next (iter + 1) (iter + 1) written_out args m s)
      end
  end.

Definition printf_round (m : mem) (s : St) (args : va_list) (written_out unformatted_start iter : Z)
    : outcome round_result :=
  unformatted ← sv_create_end unformatted_start iter;
  '(out, cont, m, s) ← call_cb None unformatted m s true;
  let written_out := u32 (written_out + out) in
  if negb cont then Ok (Left written_out m s)
  else format_directive m s args written_out (iter + 1).

(** After the loop. *)
Definition printf_finish (m : mem) (s : St) (written_out unformatted_start : Z) (cont : bool)
    : outcome (Z * mem * St) :=
  if m unformatted_start =? 0 then Ok (written_out, m, s) else
  length ← strlen fuel m unformatted_start;
  unformatted ← sv_create_length unformatted_start (u32 length);
  '(out, _, m, s) ← call_cb None unformatted m s cont;
  Ok (u32 (written_out + out), m, s).

Fixpoint printf_loop (n : nat) (m : mem) (s : St) (args : va_list) (written_out unformatted_start iter : Z)
    : outcome (Z * mem * St) :=
  next ← strchr fuel a m iter 37;
  match next with
  | None => printf_finish m s written_out unformatted_start true
  | Some iter =>
      r ← printf_round m s args written_out unformatted_start iter;
      match r with
      | Returned w m s => Ok (w, m, s)
      | Left w m s => printf_finish m s w unformatted_start false
      | Next iter unformatted_start w args m s =>
          match n with
          | O => Diverge
          | S n => printf_loop n m s args w unformatted_start iter
          end
      end
  end.

Definition parse_printf (m : mem) (s : St) (fmt : Z) (args : va_list) : outcome (Z * mem * St) :=
  m ← bzero a cbo_size m buffer (MAX_CONVERT_CAP + 3);
  printf_loop fuel m s args 0 fmt fmt.
End Write.
End Engine.

(** ** lib/format.c *)

Section Format.
Context (a : arch) (cbo_size : Z) (fuel : nat) (lit : string -> Z) (stack : Z).

(** The struct of the buffer is the state; its storage is in the memory. *)
Definition buffer_char_callback (i : option printf_spec_info) (m : mem) (mb : mutable_buffer) (ch amount : Z)
    (cont : bool) : outcome (Z * bool * mem * mutable_buffer) :=
  '(appended, m, mb) ← mbuffer_append_byte a m mb ch amount;
  Ok (appended, if negb (appended =? amount) then false else cont, m, mb).
Definition buffer_sv_callback (i : option printf_spec_info) (m : mem) (mb : mutable_buffer) (sv : string_view)
    (cont : bool) : outcome (Z * bool * mem * mutable_buffer) :=
  '(appended, m, mb) ← mbuffer_append_sv a m mb sv;
  Ok (appended, if negb (appended =? sv_length sv) then false else cont, m, mb).
#[local] Instance buffer_sink : Sink mutable_buffer :=
  { write_char_cb := buffer_char_callback; write_sv_cb := buffer_sv_callback }.

Definition vformat_to_buffer (m : mem) (buffer buffer_length fmt : Z) (args : va_list)
    : outcome (Z * mem * mutable_buffer) :=
  mb ← mbuffer_open buffer 0 buffer_length;
  parse_printf a cbo_size fuel lit stack m mb fmt args.
Definition format_to_buffer := vformat_to_buffer.
End Format.

(** Formatting to a [struct string] of lib/adt/string.c: the state is the allocator's heap
    and the string. *)
Section FormatString.
Import GBuffer KString.
Context `{AL : Allocator} (a : arch) (cbo_size : Z) (fuel : nat) (lit : string -> Z) (stack : Z).

Definition string_char_callback (i : option printf_spec_info) (m : mem) (s : heap * growable_buffer) (ch amount : Z)
    (cont : bool) : outcome (Z * bool * mem * (heap * growable_buffer)) :=
  '(ok, h, m, gb) ← string_append_char a (fst s) m (snd s) ch amount;
  Ok (if ok : bool then (amount, cont, m, (h, gb)) else (0, false, m, (h, gb))).
Definition string_sv_callback (i : option printf_spec_info) (m : mem) (s : heap * growable_buffer) (sv : string_view)
    (cont : bool) : outcome (Z * bool * mem * (heap * growable_buffer)) :=
  '(ok, h, m, gb) ← string_append_sv a cbo_size (fst s) m (snd s) sv;
  Ok (if ok : bool then (sv_length sv, cont, m, (h, gb)) else (0, false, m, (h, gb))).
#[local] Instance string_sink : Sink (heap * growable_buffer) :=
  { write_char_cb := string_char_callback; write_sv_cb := string_sv_callback }.

Definition vformat_to_string (m : mem) (h : heap) (gb : growable_buffer) (fmt : Z) (args : va_list)
    : outcome (Z * mem * (heap * growable_buffer)) :=
  parse_printf a cbo_size fuel lit stack m (h, gb) fmt args.
Definition format_to_string := vformat_to_string.
Definition string_vformat (m : mem) (h : heap) (fmt : Z) (args : va_list) : outcome (mem * heap * growable_buffer) :=
  '(_, m, (h, gb)) ← vformat_to_string m h GBUFFER_INIT fmt args;
  Ok (m, h, gb).
Definition string_format := string_vformat.
Definition string_append_vformat (m : mem) (h : heap) (gb : growable_buffer) (fmt : Z) (args : va_list)
    : outcome (mem * heap * growable_buffer) :=
  '(_, m, (h, gb)) ← vformat_to_string m h gb fmt args;
  Ok (m, h, gb).
Definition string_append_format := string_append_vformat.
End FormatString.
