(* ===== verification/PrintfSafe.v ===== *)
(** * The printf engine is safe: every format terminates and stays inside its memory

    For any format and any arguments the engine returns or meets an argument of the wrong
    type; it writes only through its callbacks, to its local array and to the targets of
    [%n].  The callbacks are those of any [Sink] with the laws of [SinkSafe]. *)

From Stdlib Require Import String Ascii.
From S2P Require Import Prelude Mem Alloc Arith Range KStdlib Ctype Convert Buffers Printf.
Import StringView MBuffer.

(** ** Characters in memory *)

Definition holds (m : mem) (p : Z) (l : list Z) : Prop := bytes_at m p (length l) = l.

Lemma holds_cons m p c l : holds m p (c :: l) <-> m p = c /\ holds m (p + 1) l.
Proof. unfold holds. cbn [length bytes_at]. split; [intros [= -> ->]; auto|intros [-> ->]; reflexivity]. Qed.
Lemma holds_app m p l k : holds m p (l ++ k) <-> holds m p l /\ holds m (p + Z.of_nat (length l)) k.
Proof.
  revert p. induction l as [|c l IH]; intros p; cbn [app length].
  - rewrite Z.add_0_r. split; [split; [reflexivity|auto]|tauto].
  - rewrite !holds_cons, IH. replace (p + 1 + Z.of_nat (length l)) with (p + Z.of_nat (S (length l))) by lia. tauto.
Qed.
Lemma holds_ext m m' p l : holds m p l -> (forall x, p <= x < p + Z.of_nat (length l) -> m' x = m x) -> holds m' p l.
Proof. unfold holds. intros H E. rewrite <- H at 2. apply bytes_at_ext. intros i Hi. apply E. lia. Qed.
Lemma holds_at m p l i c : holds m p l -> l !! i = Some c -> m (p + Z.of_nat i) = c.
Proof.
  intros H Hi. pose proof (lookup_lt_Some _ _ _ Hi) as Hl. unfold holds in H.
  rewrite <- H, lookup_bytes_at in Hi by exact Hl. congruence.
Qed.

(** A string and its terminator; no address of it is beyond 64 bits. *)
Definition cstr (m : mem) (p : Z) (l : list Z) : Prop :=
  holds m p (l ++ [0]) /\ Forall (fun c => c <> 0) l /\ 0 < p /\ p + Z.of_nat (length l) < 2 ^ 64.

Lemma cstr_char m p l k : cstr m p l -> 0 <= k <= Z.of_nat (length l) ->
  (m (p + k) = 0 <-> k = Z.of_nat (length l)).
Proof.
  intros (H & Hn & _) Hk. rewrite holds_app, holds_cons in H. destruct H as (H & H0 & _). split; [|intros ->; exact H0].
  intros E. destruct (decide (k = Z.of_nat (length l))) as [|Hne]; [auto|]. exfalso.
  destruct (lookup_lt_is_Some_2 l (Z.to_nat k)) as [c Hc]; [lia|].
  pose proof (holds_at _ _ _ _ _ H Hc) as E'. rewrite Z2Nat.id in E' by lia.
  rewrite list.Forall_forall in Hn. apply (Hn c); [eapply list_elem_of_lookup_2; eauto|congruence].
Qed.

Lemma cstr_cons m p c l : cstr m p (c :: l) -> m p = c /\ c <> 0 /\ cstr m (p + 1) l.
Proof.
  unfold cstr. cbn [app length]. rewrite holds_cons, List.Forall_cons_iff. intros ((? & ?) & (? & ?) & ? & ?).
  split_and?; auto; lia.
Qed.
Lemma cstr_nil m p : cstr m p [] -> m p = 0.
Proof. intros (H & _). apply holds_cons in H. tauto. Qed.
Lemma cstr_ext m m' p l : cstr m p l -> (forall x, p <= x <= p + Z.of_nat (length l) -> m' x = m x) -> cstr m' p l.
Proof.
  intros (Hh & Hr) E. split; [|exact Hr]. eapply holds_ext; [exact Hh|]. intros x Hx. apply E.
  rewrite length_app in Hx. cbn in Hx. lia.
Qed.

Lemma strlen_cstr fuel m p l : cstr m p l -> (length l <= fuel)%nat -> strlen fuel m p = Ok (Z.of_nat (length l)).
Proof.
  intros C Hf. apply strlen_spec; [lia|lia| |].
  - intros i Hi E. apply (cstr_char m p l i C) in E; lia.
  - apply (cstr_char m p l _ C); lia.
Qed.
Lemma strnlen_cstr m p l k : cstr m p l -> 0 <= k -> strnlen m p k = Z.min k (Z.of_nat (length l)).
Proof.
  intros C Hk. unfold strnlen. rewrite <- (Z2Nat.id k) at 2 by exact Hk. generalize (Z.to_nat k). clear k Hk.
  assert (G : forall n p l r, cstr m p l ->
    strnlen_loop m n p r = r + Z.min (Z.of_nat n) (Z.of_nat (length l))).
  { induction n as [|n IH]; intros q t r Hq; cbn [strnlen_loop]; [lia|].
    destruct t as [|c t]; [rewrite (cstr_nil _ _ Hq); cbn; lia|]. apply cstr_cons in Hq. destruct Hq as (-> & Hc & Hq).
    destruct (Z.eqb_spec c 0); [contradiction|]. rewrite (IH _ _ _ Hq). cbn [length]. lia. }
  intros n. rewrite (G n p l 0 C). lia.
Qed.

Lemma write_bytes_spec m base l x : write_bytes m base l x =
  if within base (Z.of_nat (length l)) x then default 0 (l !! Z.to_nat (x - base)) else m x.
Proof. reflexivity. Qed.
Lemma write_bytes_holds m base l : holds (write_bytes m base l) base l.
Proof.
  apply list_eq. intros i. destruct (decide (i < length l)%nat) as [Hi|Hi].
  - rewrite lookup_bytes_at, write_bytes_spec by exact Hi. wcase; [|lia].
    replace (Z.to_nat (base + Z.of_nat i - base)) with i by lia.
    destruct (lookup_lt_is_Some_2 l i Hi) as [c ->]. reflexivity.
  - rewrite !lookup_ge_None_2 by (rewrite ?length_bytes_at; lia). reflexivity.
Qed.
Lemma write_bytes_ok m base l : mem_ok m -> Forall is_u8 l -> mem_ok (write_bytes m base l).
Proof.
  intros Hm Hl x. rewrite write_bytes_spec. wcase; [|apply Hm].
  destruct (lookup_lt_is_Some_2 l (Z.to_nat (x - base))) as [c Hc]; [lia|]. rewrite Hc. cbn.
  rewrite list.Forall_forall in Hl. apply Hl. eapply list_elem_of_lookup_2; eauto.
Qed.

(** The characters of a view into the buffer, at their addresses. *)
Lemma view_holds m p b i f : holds m p b -> 0 <= i <= f -> f <= Z.of_nat (length b) ->
  holds m (p + i) (view i f b).
Proof.
  intros H Hi Hf. rewrite <- (take_drop (Z.to_nat i) b), holds_app in H. destruct H as [_ H].
  rewrite length_take, Nat.min_l, Z2Nat.id in H by lia.
  rewrite <- (take_drop (Z.to_nat (f - i)) (drop (Z.to_nat i) b)), holds_app in H. apply H.
Qed.

(** ** Conversions into the local array *)

Definition in_array (buffer x : Z) : Prop := buffer <= x < buffer + (MAX_CONVERT_CAP + 3).

Lemma spliced_u8 lo hi mid b b' : spliced lo hi mid b b' -> Forall is_u8 b -> Forall is_u8 mid -> Forall is_u8 b'.
Proof.
  intros [_ ->] Hb Hm. apply Forall_app. split; [apply Forall_take, Hb|].
  apply Forall_app. split; [exact Hm|apply Forall_drop, Hb].
Qed.
Lemma bytes_at_u8 m p n : mem_ok m -> Forall is_u8 (bytes_at m p n).
Proof. intros Hm. revert p. induction n as [|n IH]; intros p; cbn; [constructor|constructor; [apply Hm|apply IH]]. Qed.

(** A view whose characters are [l]. *)
Definition shows (m : mem) (sv : string_view) (l : list Z) : Prop :=
  holds m (sv_begin sv) l /\ sv_length sv = Z.of_nat (length l) /\ Z.of_nat (length l) < 2 ^ 32.

Lemma into_buffer_spec buffer m f base o n before : mem_ok m -> 0 <= buffer ->
  buffer + (MAX_CONVERT_CAP + 3) < 2 ^ 64 -> Forall is_u8 before ->
  (forall b, Z.of_nat (length b) = MAX_CONVERT_CAP -> prints base o n before (f b) b) ->
  exists m' sv, into_buffer buffer m f = Ok (m', sv) /\ mem_ok m' /\
    (forall x, ~ in_array buffer x -> m' x = m x) /\
    shows m' sv (before ++ digits_of base o n) /\ printed base n (digits_of base o n) /\
    (forall x, sv_begin sv <= x < sv_begin sv + sv_length sv -> in_array buffer x).
Proof.
  unfold in_array, MAX_CONVERT_CAP, MAX_BINARY_CONVERT_CAP. intros Hm Hb0 Hb1 Hbf Hp.
  set (b0 := bytes_at m buffer (Z.to_nat 68)). assert (Hl0 : length b0 = 68%nat) by (unfold b0; rewrite length_bytes_at; lia).
  destruct (Hp b0) as (i & fi & b & ds & E & V & Pr & Hds & Hi & Hf & Hlb & _ & Sp); [unfold MAX_CONVERT_CAP, MAX_BINARY_CONVERT_CAP; lia|].
  unfold into_buffer, MAX_CONVERT_CAP, MAX_BINARY_CONVERT_CAP. fold b0. rewrite E. cbn [mbind outcome_bind].
  unfold sv_create_end, sv_create_nocheck, distance, c_assert. destruct (Z.leb_spec (buffer + i) (buffer + fi)); [|lia].
  cbn [mbind outcome_bind]. replace (buffer + fi - (buffer + i)) with (fi - i) by lia.
  rewrite !wrap_small by (unfold is_u; rewrite ?wrap_small; unfold is_u; lia).
  assert (Hv : holds (write_bytes m buffer b) (buffer + i) (before ++ ds)).
  { rewrite <- V. apply view_holds; [apply write_bytes_holds|lia|lia]. }
  assert (Hlen : fi - i = Z.of_nat (length (before ++ ds))) by (pose proof (proj1 Sp); lia).
  eexists _, _. split; [reflexivity|]. cbn [sv_begin sv_length]. subst ds. split; [|split; [|split; [|split]]].
  - apply write_bytes_ok; [exact Hm|]. eapply spliced_u8; [exact Sp| |].
    + apply Forall_insert; [apply bytes_at_u8, Hm|unfold is_u; lia].
    + apply Forall_app. split; [exact Hbf|]. destruct Pr as (Hn & _). unfold numeral in Hn.
      rewrite list.Forall_forall in Hn |- *. intros c Hc. apply Hn in Hc. unfold is_u. cbn in Hc. lia.
  - intros x Hx. rewrite write_bytes_spec. wcase; [lia|reflexivity].
  - split; [exact Hv|]. split; [exact Hlen|lia].
  - exact Pr.
  - intros x Hx. lia.
Qed.

(** ** What a sink promises *)

(** Memory at the addresses [outside s] is not touched by the callbacks, and the state does
    not depend on it. *)
Class SinkSafe (St : Type) `{Sink St} := {
  outside : St -> Z -> Prop;
  sink_inv : St -> mem -> Prop;
  sink_local : forall s m m', sink_inv s m -> (forall x, ~ outside s x -> m' x = m x) -> sink_inv s m';
  write_char_safe : forall i s m ch n c, sink_inv s m -> mem_ok m -> 0 <= ch < 256 -> 0 <= n < 2 ^ 32 ->
    exists k c' m' s', write_char_cb i m s ch n c = Ok (k, c', m', s') /\ sink_inv s' m' /\ mem_ok m' /\ is_u32 k /\
      (forall x, outside s x -> outside s' x /\ m' x = m x);
  write_sv_safe : forall i s m sv c, sink_inv s m -> mem_ok m -> 0 <= sv_length sv < 2 ^ 32 ->
    (forall x, sv_begin sv <= x < sv_begin sv + sv_length sv -> outside s x) ->
    exists k c' m' s', write_sv_cb i m s sv c = Ok (k, c', m', s') /\ sink_inv s' m' /\ mem_ok m' /\ is_u32 k /\
      (forall x, outside s x -> outside s' x /\ m' x = m x) }.

(** The call returns a result with [P], or uses an argument of the wrong type. *)
Definition fine {A} (P : A -> Prop) (r : outcome A) : Prop :=
  match r with Ok x => P x | Undef => True | Panic | Diverge => False end.

Lemma fine_bind {A B} (P : A -> Prop) (Q : B -> Prop) (r : outcome A) (k : A -> outcome B) :
  fine P r -> (forall x, P x -> fine Q (k x)) -> fine Q (mbind k r).
Proof. destruct r; cbn; auto. Qed.
Lemma fine_impl {A} (P Q : A -> Prop) (r : outcome A) : fine P r -> (forall x, P x -> Q x) -> fine Q r.
Proof. destruct r; cbn; auto. Qed.

Definition is_out (args : va_list) (x : Z) : Prop := exists p, VOut p ∈ args /\ p <= x < p + 8.
Definition literals : list string := ["(null)"; "(nil)"; "0b"; "0B"; "0x"; "0X"]%string.

Lemma length_chars_of t : length (chars_of t) = String.length t.
Proof. unfold chars_of. rewrite length_map. induction t; cbn; congruence. Qed.

Ltac in_literals := unfold literals; repeat first [apply list_elem_of_here|apply list_elem_of_further].

Section Safe.
Context {St : Type} `{SinkSafe St}.
Context (a : arch) (cbo_size : Z) (fuel : nat) (lit : string -> Z) (buffer : Z).
Context (m0 : mem) (s0 : St) (args0 : va_list) (fmt : Z) (l : list Z).

(** Memory that the engine reads and that nothing writes. *)
Definition steady (x : Z) : Prop := outside s0 x /\ ~ in_array buffer x /\ ~ is_out args0 x.

(** Where everything is: the format, the literals and the string arguments in [steady]
    memory, the local array and the targets of [%n] outside the sink. *)
Record placed : Prop := {
  p_buffer : 0 <= buffer /\ buffer + (MAX_CONVERT_CAP + 3) < 2 ^ 64;
  p_array : forall x, in_array buffer x -> outside s0 x;
  p_outs : forall x, is_out args0 x -> outside s0 x /\ ~ in_array buffer x;
  p_fmt : cstr m0 fmt l /\ (length l <= fuel)%nat /\
    forall x, fmt <= x <= fmt + Z.of_nat (length l) -> steady x;
  p_lit : forall t x, t ∈ literals -> lit t <= x < lit t + Z.of_nat (String.length t) -> steady x;
  p_str : forall p, VStr p ∈ args0 -> p = 0 \/ exists t, cstr m0 p t /\ (length t <= fuel)%nat /\
    forall x, p <= x <= p + Z.of_nat (length t) -> steady x }.
Context (PL : placed).

Definition good (m : mem) (s : St) : Prop :=
  mem_ok m /\ sink_inv s m /\ (forall x, steady x -> m x = m0 x) /\ (forall x, outside s0 x -> outside s x).
Definition good_args (args : va_list) : Prop := forall v, v ∈ args -> v ∈ args0.
Definition inside (p : Z) : Prop := fmt <= p <= fmt + Z.of_nat (length l).
Definition seen (sv : string_view) : Prop := 0 <= sv_length sv < 2 ^ 32 /\
  forall x, sv_begin sv <= x < sv_begin sv + sv_length sv -> steady x \/ in_array buffer x.

Lemma steady_outside x : steady x \/ in_array buffer x -> outside s0 x.
Proof. intros [[Hx _]|Hx]; [exact Hx|apply (p_array PL), Hx]. Qed.

(** The format still reads the same. *)
Lemma fmt_char m s p : good m s -> inside p -> (m p = 0 <-> p = fmt + Z.of_nat (length l)).
Proof.
  intros (_ & _ & G & _) Hp. destruct (p_fmt PL) as (C & _ & S). rewrite (G p) by (apply S, Hp).
  unfold inside in Hp. replace p with (fmt + (p - fmt)) at 1 by lia. rewrite (cstr_char _ _ _ _ C) by lia. lia.
Qed.
Lemma inside_next m s p : good m s -> inside p -> m p <> 0 -> inside (p + 1).
Proof. intros G Hp Hz. rewrite (fmt_char m s p G Hp) in Hz. unfold inside in *. lia. Qed.

(** *** Parsing stays inside the format *)

Definition valid_info (i : printf_spec_info) : Prop := 0 <= width i < 2 ^ 32.

Lemma set_flag_width i c i' : set_flag i c = Some i' -> width i' = width i.
Proof. destruct i. cbn. repeat case_match; intros [= <-]; reflexivity. Qed.

Lemma parse_flags_fine m s : good m s -> forall n i p, valid_info i -> inside p -> m p <> 0 ->
  fmt + Z.of_nat (length l) - p <= Z.of_nat n ->
  fine (fun r => forall i' p', r = Some (i', p') -> valid_info i' /\ inside p' /\ p <= p' /\ m p' <> 0)
    (parse_flags_loop n m i p).
Proof.
  intros G. induction n as [|n IH]; intros i p Hi Hp Hz Hn; cbn [parse_flags_loop];
    (destruct (set_flag i (m p)) as [i1|] eqn:F; [|cbn; intros ? ? [= <- <-]; split_and?; auto; lia]);
    pose proof (inside_next m s p G Hp Hz) as Hp1;
    (destruct (Z.eqb_spec (m (p + 1)) 0) as [E|E]; [cbn; congruence|]).
  - rewrite (fmt_char m s _ G Hp1) in E. unfold inside in *. lia.
  - eapply fine_impl; [apply IH; [|exact Hp1|exact E|lia]|].
    + unfold valid_info in *. rewrite (set_flag_width _ _ _ F). exact Hi.
    + cbn. intros r Hr i' p' Er. destruct (Hr i' p' Er) as (? & ? & ? & ?). split_and?; auto; lia.
Qed.

Lemma next_int_bound r d r' : 0 <= r -> 0 <= d -> next_int r d = Some r' -> 0 <= r' < 2 ^ 31.
Proof.
  unfold next_int, INT32_MAX. intros Hr Hd. destruct (_ && _) eqn:B; [|discriminate].
  rewrite andb_true_iff, !Z.leb_le in B. intros [= <-]. lia.
Qed.

Lemma read_int_fine m s : good m s -> forall n q p r, inside q -> inside p -> 0 <= r < 2 ^ 31 ->
  fmt + Z.of_nat (length l) - p <= Z.of_nat n -> q <= p ->
  fine (fun x => -1 <= fst x < 2 ^ 31 /\ inside (snd x) /\ q <= snd x) (read_int_loop n m q p r).
Proof.
  intros G. induction n as [|n IH]; intros q p r Hq Hp Hr Hn Hqp; cbn [read_int_loop];
    (destruct (Z.eqb_spec (m p) 0) as [E|E]; [cbn [fine fst snd]; split_and?; auto; lia|]);
    (destruct (Z.leb_spec 10 (u8 (m p - 48))); [cbn [fine fst snd]; split_and?; auto; lia|]);
    (destruct (next_int r _) as [r'|] eqn:N; [|cbn [fine fst snd]; split_and?; auto; lia]).
  - rewrite (fmt_char m s _ G Hp) in E. unfold inside in *. lia.
  - assert (Hd : 0 <= u8 (m p - 48)) by (apply wrap_bound; lia).
    apply IH; [exact Hq|eapply inside_next; eauto|exact (next_int_bound r _ r' (proj1 Hr) Hd N)|lia|lia].
Qed.

Lemma inside_fuel p : inside p -> fmt + Z.of_nat (length l) - p <= Z.of_nat fuel.
Proof. destruct (p_fmt PL) as (_ & Hf & _). unfold inside. lia. Qed.

Lemma va_fine args f : good_args args ->
  f = va_int \/ f = va_unsigned \/ f = va_long ->
  fine (fun r => good_args (snd r)) (f args).
Proof.
  intros Ha [->|[->| ->]]; destruct args as [|[] args]; cbn; try exact I; intros v Hv; apply Ha; right; exact Hv.
Qed.
Lemma va_int_fine args : good_args args -> fine (fun r => good_args (snd r) /\ - 2 ^ 31 <= fst r < 2 ^ 31) (va_int args).
Proof.
  intros Ha. destruct args as [|[] args]; cbn; try exact I. split; [intros v Hv; apply Ha; right; exact Hv|].
  pose proof (wrap_bound 32 z ltac:(lia)) as Hb. unfold is_u in Hb. unfold to_signed.
  destruct (Z.ltb_spec (u32 z) (2 ^ (32 - 1))); lia.
Qed.

Lemma parse_width_fine m s i args p : good m s -> good_args args -> valid_info i -> inside p -> m p <> 0 ->
  fine (fun r => forall i' args' p', r = Some (i', args', p') ->
    valid_info i' /\ good_args args' /\ inside p' /\ p <= p' /\ m p' <> 0) (parse_width fuel m i args p).
Proof.
  intros G Ha Hi Hp Hz. unfold parse_width.
  apply fine_bind with (P := fun r => forall i' args' p', r = Some (i', args', p') ->
    valid_info i' /\ good_args args' /\ inside p' /\ p <= p').
  - destruct (negb (m p =? 42)).
    + eapply fine_bind; [apply (read_int_fine m s G); auto; try lia; apply inside_fuel, Hp|].
      intros [w q] (Hw & Hq & Hpq). cbn [fst snd] in *. destruct (w =? -1) eqn:E; cbn; [discriminate|].
      apply Z.eqb_neq in E. intros ? ? ? [= <- <- <-]. split_and?; auto.
      unfold valid_info. cbn [width set_width]. rewrite wrap_small; unfold is_u; lia.
    + eapply fine_bind; [apply va_int_fine, Ha|]. intros [v args'] (Ha' & Hv). cbn [fst snd] in *.
      cbn. intros ? ? ? [= <- <- <-]. pose proof (inside_next m s p G Hp Hz).
      split_and?; auto; [|lia]. unfold valid_info. cbn [width set_width].
      destruct (Z.leb_spec 0 v); rewrite ?wrap_small; unfold is_u; lia.
  - intros [[[i' args'] p']|] Hr; [|cbn; discriminate].
    destruct (Z.eqb_spec (m p') 0); cbn; [discriminate|].
    intros ? ? ? [= <- <- <-]. destruct (Hr _ _ _ eq_refl) as (? & ? & ? & ?). auto.
Qed.

Lemma parse_precision_fine m s i args p : good m s -> good_args args -> valid_info i -> inside p -> m p <> 0 ->
  fine (fun r => forall i' args' p', r = Some (i', args', p') ->
    valid_info i' /\ good_args args' /\ inside p' /\ p <= p' /\ m p' <> 0) (parse_precision fuel m i args p).
Proof.
  intros G Ha Hi Hp Hz. unfold parse_precision.
  destruct (negb (m p =? 46)); [cbn; intros ? ? ? [= <- <- <-]; split_and?; auto; try lia; apply Hi|].
  pose proof (inside_next m s p G Hp Hz) as Hp1.
  destruct (Z.eqb_spec (m (p + 1)) 0) as [|Hz1]; [cbn; discriminate|].
  pose proof (inside_next m s _ G Hp1 Hz1) as Hp2.
  destruct (m (p + 1) =? 42).
  - destruct (Z.eqb_spec (m (p + 1 + 1)) 0); [cbn; discriminate|].
    eapply fine_bind; [apply va_int_fine, Ha|]. intros [v args'] (Ha' & Hv). cbn [fst snd] in *.
    cbn. intros ? ? ? [= <- <- <-]. split_and?; auto; try lia; apply Hi.
  - eapply fine_bind; [apply (read_int_fine m s G); auto; try lia; apply inside_fuel, Hp1|].
    intros [w q] (Hw & Hq & Hpq). cbn [fst snd] in *. destruct (w =? -1); [cbn; discriminate|].
    destruct (Z.eqb_spec (m q) 0); [cbn; discriminate|]. cbn. intros ? ? ? [= <- <- <-]. split_and?; auto; try lia; apply Hi.
Qed.

Lemma sv_create_length_fine p n : 0 <= p -> 0 <= n < 2 ^ 32 -> p + n < 2 ^ 64 -> sv_create_length p n = Ok (SV p n).
Proof.
  intros Hp Hn Hs. unfold sv_create_length, check_add_assert_w, check_add_w, assert_some, fits.
  destruct (Z.leb_spec 0 (p + n)), (Z.ltb_spec (p + n) (2 ^ 64)); try lia. cbn.
  unfold sv_create_nocheck. rewrite wrap_small by (unfold is_u; lia). reflexivity.
Qed.

Definition length_result (p : Z) (r : option (printf_spec_info * Z * va_list * Z * bool)) : Prop :=
  forall i' p' args' n z, r = Some (i', p', args', n, z) ->
    valid_info i' /\ good_args args' /\ inside p' /\ p <= p' /\ 0 <= n < 2 ^ 64.

(** Reading the number of a length modifier and noting the modifier. *)
Lemma length_step_fine i args f p q v n : valid_info i -> good_args args -> inside q -> p <= q ->
  fmt <= v -> 0 <= n -> v + n <= q -> n < 2 ^ 32 ->
  f = va_int \/ f = va_long ->
  fine (length_result p)
    ('(k, args) ← f args; sv ← sv_create_length v n;
     Ok (Some (set_length_sv i sv, q, args, u64 k, u64 k =? 0))).
Proof.
  intros Hi Ha Hq Hpq Hv Hn Hvq Hn2 Hf. destruct (p_fmt PL) as ((_ & _ & Hf0 & Hf1) & _).
  eapply fine_bind; [apply va_fine; [exact Ha|tauto]|]. intros [k args'] Ha'. cbn [snd] in Ha'.
  unfold inside in Hq. rewrite sv_create_length_fine by lia. cbn [mbind outcome_bind fine].
  intros ? ? ? ? ? [= <- <- <- <- <-]. split_and?; auto; unfold inside; try lia; apply wrap_bound; lia.
Qed.

Lemma va_long_u64 args (k : Z -> va_list -> outcome (option (printf_spec_info * Z * va_list * Z * bool))) :
  ('(n, args) ← va_long args; k n args) = ('(n, args) ← va_long args; k (u64 n) args).
Proof.
  destruct args as [|[] args]; try reflexivity. cbn. rewrite (wrap_small 64 (u64 z)); [reflexivity|].
  apply wrap_bound; lia.
Qed.

Lemma parse_length_fine m s i args p : good m s -> good_args args -> valid_info i -> inside p -> fmt < p ->
  fine (length_result p) (parse_length lit m i args p).
Proof.
  intros G Ha Hi Hp Hlt. assert (D : fine (length_result p)
    (Ok (Some (set_length_sv i (SV_EMPTY lit), p, args, 0, false)))).
  { intros ? ? ? ? ? [= <- <- <- <- <-]. split_and?; auto; lia. }
  assert (N : fine (length_result p) (Ok None)) by (intros ? ? ? ? ?; discriminate).
  unfold parse_length. cbn zeta.
  destruct (Z.eq_dec (m p) 0) as [E|E]; [rewrite E; exact N|].
  pose proof (inside_next m s p G Hp E) as Hp1.
  destruct (Z.eq_dec (m (p + 1)) 0) as [E1|E1].
  - rewrite E1. repeat case_match; try exact D; try exact N;
      try (rewrite va_long_u64); apply length_step_fine; auto; unfold inside in *; lia.
  - pose proof (inside_next m s _ G Hp1 E1) as Hp2.
    repeat case_match; try exact D; try exact N; try lia;
      try (rewrite va_long_u64); apply length_step_fine; auto; unfold inside in *; lia.
Qed.

Lemma parse_spec_fine m s args p : good m s -> good_args args -> inside p -> fmt < p -> m p <> 0 ->
  fine (length_result p) (parse_spec fuel lit m args p).
Proof.
  intros G Ha Hp Hlt Hz. unfold parse_spec.
  assert (N : fine (length_result p) (Ok None)) by (intros ? ? ? ? ?; discriminate).
  eapply fine_bind; [apply (parse_flags_fine m s G); [unfold valid_info; cbn; lia|exact Hp|exact Hz|apply inside_fuel, Hp]|].
  intros [[i q]|] Hr; [|exact N]. destruct (Hr i q eq_refl) as (Hi & Hq & Hpq & Hzq).
  eapply fine_bind; [apply (parse_width_fine m s); auto|].
  intros [[[i1 args1] q1]|] Hr1; [|exact N]. destruct (Hr1 _ _ _ eq_refl) as (Hi1 & Ha1 & Hq1 & Hpq1 & Hz1).
  eapply fine_bind; [apply (parse_precision_fine m s); auto|].
  intros [[[i2 args2] q2]|] Hr2; [|exact N]. destruct (Hr2 _ _ _ eq_refl) as (Hi2 & Ha2 & Hq2 & Hpq2 & Hz2).
  eapply fine_impl; [apply (parse_length_fine m s); auto; lia|].
  intros r Hl i' p' args' n z Er. destruct (Hl i' p' args' n z Er) as (? & ? & ? & ? & ?). split_and?; auto; lia.
Qed.

(** *** Converting *)

Lemma good_array m s m' : good m s -> mem_ok m' -> (forall x, ~ in_array buffer x -> m' x = m x) -> good m' s.
Proof.
  intros (Hm & Hi & Hf & Ho) Hm' E. split; [exact Hm'|]. split; [|split; [|exact Ho]].
  - eapply sink_local; [exact Hi|]. intros x Hx. apply E. intros A. apply Hx, Ho, (p_array PL), A.
  - intros x Hx. rewrite E by apply Hx. apply Hf, Hx.
Qed.
Lemma good_out m s n p v : good m s -> VOut p ∈ args0 -> (n <= 8)%nat -> good (store n m p v) s.
Proof.
  intros (Hm & Hi & Hf & Ho) Hp Hn.
  assert (E : forall x, ~ is_out args0 x -> store n m p v x = m x).
  { intros x Hx. rewrite store_spec. wcase; [|reflexivity]. exfalso. apply Hx. exists p. split; [exact Hp|lia]. }
  split; [apply store_ok, Hm|]. split; [|split; [|exact Ho]].
  - eapply sink_local; [exact Hi|]. intros x Hx. apply E. intros A. apply Hx, Ho, (p_outs PL), A.
  - intros x Hx. rewrite E by apply Hx. apply Hf, Hx.
Qed.

Definition handled (s : St) (r : handle_spec_result) : Prop :=
  match r with
  | SpecOk parsed _ _ args m => seen parsed /\ good_args args /\ good m s
  | SpecReachedEnd => True
  | SpecContinue args m => good_args args /\ good m s
  end.

Lemma array_seen sv n : sv_length sv = Z.of_nat n -> Z.of_nat n < 2 ^ 32 ->
  (forall x, sv_begin sv <= x < sv_begin sv + sv_length sv -> in_array buffer x) -> seen sv.
Proof. intros E Hn Hx. split; [lia|]. intros x Hr. right. apply Hx, Hr. Qed.

Lemma into_buffer_fine m s f base o n before : good m s -> Forall is_u8 before ->
  (forall b, Z.of_nat (length b) = MAX_CONVERT_CAP -> prints base o n before (f b) b) ->
  fine (fun r => good (fst r) s /\ seen (snd r)) (into_buffer buffer m f).
Proof.
  intros G Hb Hp. destruct (p_buffer PL) as (B0 & B1).
  destruct (into_buffer_spec buffer m f base o n before (proj1 G) B0 B1 Hb Hp) as (m' & sv & -> & Hm' & E & (_ & L1 & L2) & _ & X).
  cbn. split; [eapply good_array; eauto|eapply array_seen; eauto].
Qed.

Lemma handle_int_fine m s i number z args f g : good m s -> good_args args -> 0 <= number < 2 ^ 64 ->
  f = va_int \/ f = va_unsigned \/ f = va_long ->
  (forall n, 0 <= n < 2 ^ 64 -> exists base o k before, Forall is_u8 before /\
    forall b, Z.of_nat (length b) = MAX_CONVERT_CAP -> prints base o k before (g n b) b) ->
  fine (handled s) (handle_int buffer m i number z args f g).
Proof.
  intros G Ha Hn Hf Hg. unfold handle_int.
  eapply fine_bind with (P := fun r => 0 <= fst (fst r) < 2 ^ 64 /\ good_args (snd r)).
  - destruct (sv_length (length_sv i) =? 0); [|cbn [fine fst snd]; auto].
    eapply fine_bind; [apply va_fine; eauto|]. intros [k args'] Ha'. cbn [fine fst snd].
    split; [apply wrap_bound; lia|exact Ha'].
  - intros [[k z'] args'] (Hk & Ha'). cbn [fst snd] in *. destruct (Hg k Hk) as (base & o & v & before & Hb & Hp).
    eapply fine_bind; [eapply into_buffer_fine; eauto|]. intros [m' sv] (G' & S'). cbn. auto.
Qed.

Lemma unsigned_options_print base o n : print_base base -> include_pos_sign o = false -> include_prefix o = false ->
  0 <= n < 2 ^ 64 -> exists base' o' k before, Forall is_u8 before /\
    forall b, Z.of_nat (length b) = MAX_CONVERT_CAP ->
      prints base' o' k before (unsigned_to_string_view base o n b) b.
Proof.
  intros Hb Hs Hp Hn. exists base, o, n, (sign_chars o ++ prefix_chars base o). split.
  - unfold sign_chars, prefix_chars. rewrite Hs, Hp. constructor.
  - intros b Hl. apply unsigned_prints; auto. intros E. congruence.
Qed.
Lemma i64_range n : - 2 ^ 63 <= i64 n < 2 ^ 63.
Proof.
  pose proof (wrap_bound 64 n ltac:(lia)) as Hb. unfold is_u in Hb. unfold to_signed.
  destruct (Z.ltb_spec (u64 n) (2 ^ (64 - 1))); lia.
Qed.
Lemma signed_options_print ps n : exists base o k before, Forall is_u8 before /\
    forall b, Z.of_nat (length b) = MAX_CONVERT_CAP ->
      prints base o k before (signed_to_string_view 10 (NumToStr false ps false false false) (i64 n) b) b.
Proof.
  eexists 10, _, _, _. split; [|intros b Hl; apply signed_prints; [unfold print_base; auto|discriminate|apply i64_range|reflexivity|exact Hl]].
  unfold sign_chars, prefix_chars. cbn. destruct (i64 n <? 0), ps; repeat constructor; unfold is_u; lia.
Qed.

Lemma good_args_tail v args : good_args (v :: args) -> good_args args.
Proof. intros Ha w Hw. apply Ha. right. exact Hw. Qed.

Lemma handle_n_fine m s i w z args : good m s -> good_args args ->
  fine (handled s) (handle_n lit m i w z args).
Proof.
  intros G Ha. unfold handle_n. cbn zeta.
  assert (P : forall n, (n <= 8)%nat ->
    fine (handled s) ('(p, args) ← va_out args; Ok (SpecContinue args (store n m p w)))).
  { intros n Hn. destruct args as [|[] args]; cbn [va_out mbind outcome_bind fine]; try exact I.
    split; [eapply good_args_tail, Ha|]. apply good_out; [exact G|apply Ha; left|exact Hn]. }
  assert (K : fine (handled s) (Ok (SpecOk (SV_EMPTY lit) z false args m))).
  { cbn. split_and?; auto. split; [cbn; lia|]. cbn. intros x Hx. lia. }
  repeat match goal with |- context [if ?b then _ else _] => destruct b end;
    first [exact K|apply P; lia].
Qed.

Lemma string_seen p t n : cstr m0 p t -> (forall x, p <= x <= p + Z.of_nat (length t) -> steady x) ->
  0 <= n <= Z.of_nat (length t) -> Z.of_nat (length t) < 2 ^ 32 -> seen (SV p n).
Proof. intros C S Hn Hl. split; cbn; [lia|]. intros x Hx. left. apply S. lia. Qed.
Lemma literal_seen t : t ∈ literals -> seen (SV_STATIC lit t).
Proof.
  intros Ht. split; cbn [SV_STATIC sv_begin sv_length]; [|intros x Hx; left; eapply (p_lit PL); eauto].
  assert (Hl : Forall (fun t => Z.of_nat (String.length t) < 2 ^ 32) literals) by (repeat constructor).
  rewrite list.Forall_forall in Hl. specialize (Hl t Ht). lia.
Qed.

(** A precise length of more than 32 bits is cut, which only shortens the view. *)
Lemma handle_s_fine m s i z args : good m s -> good_args args ->
  fine (handled s) (handle_s fuel lit m i z args).
Proof.
  intros G Ha. unfold handle_s. destruct args as [|[| |p| |] args]; cbn [va_str mbind outcome_bind fine]; try exact I.
  pose proof (good_args_tail _ _ Ha) as Ha'. destruct (Z.eqb_spec p 0) as [|Hp0].
  { cbn [fine handled]. split_and?; auto. apply literal_seen. in_literals. }
  destruct (p_str PL p) as [|(t & C & Hf & S)]; [apply Ha; left|contradiction|].
  assert (C' : cstr m p t).
  { eapply cstr_ext; [exact C|]. intros x Hx. apply G, S, Hx. }
  assert (K : forall n, 0 <= n <= Z.of_nat (length t) ->
    fine (handled s) (parsed ← sv_create_length p (u32 n); Ok (SpecOk parsed z false args m))).
  { intros n Hn. destruct C as (_ & _ & Hp & He).
    assert (Hu : 0 <= u32 n <= n) by (unfold wrap; split; [apply Z.mod_pos_bound; lia|apply Z.mod_le; lia]).
    pose proof (wrap_bound 32 n ltac:(lia)) as Hw. unfold is_u in Hw.
    rewrite sv_create_length_fine by lia. cbn. split_and?; auto.
    split; cbn; [lia|]. intros x Hx. left. apply S. lia. }
  destruct (negb (precision i =? -1)).
  - cbn [mbind outcome_bind]. apply K. rewrite (strnlen_cstr m p t) by (auto; apply wrap_bound; lia).
    pose proof (wrap_bound 64 (precision i) ltac:(lia)) as Hw. unfold is_u in Hw. lia.
  - rewrite (strlen_cstr fuel m p t C' Hf). cbn [mbind outcome_bind]. apply K. lia.
Qed.

Lemma handle_p_fine m s z args : good m s -> good_args args ->
  (forall p, VStr p ∈ args0 \/ VOut p ∈ args0 \/ VPtr p ∈ args0 -> 0 <= p < 2 ^ 64) ->
  fine (handled s) (handle_p lit buffer m z args).
Proof.
  intros G Ha Hr. unfold handle_p.
  eapply fine_bind with (P := fun r => 0 <= fst r < 2 ^ 64 /\ good_args (snd r)).
  { destruct args as [|[] args]; cbn [va_ptr fine fst snd]; try exact I; (split; [|eapply good_args_tail, Ha]);
      apply Hr; specialize (Ha _ (list_elem_of_here _ _)); tauto. }
  intros [p args'] (Hp & Ha'). cbn [fst snd] in *. destruct (p =? 0).
  { cbn [fine handled]. split_and?; auto. apply literal_seen. in_literals. }
  eapply fine_bind; [eapply into_buffer_fine with (before := [48; 120]); [exact G|repeat constructor; unfold is_u; lia|]|].
  - intros b Hl. apply (unsigned_prints 16 (NumToStr true false true false false)); [unfold print_base; auto| |exact Hp|exact Hl].
    unfold prefix_good. auto.
  - intros [m' sv] (G' & S'). cbn. auto.
Qed.

Lemma array_put m s v : good m s -> good (upd m buffer (u8 v)) s.
Proof.
  intros G. apply (good_array m s); [exact G| |].
  - intros x. unfold upd. destruct (x =? buffer); [apply wrap_bound; lia|apply G].
  - intros x Hx. unfold upd. destruct (Z.eqb_spec x buffer) as [->|]; [|reflexivity].
    exfalso. apply Hx. unfold in_array, MAX_CONVERT_CAP, MAX_BINARY_CONVERT_CAP. lia.
Qed.
Lemma array_first_seen : seen (sv_create_nocheck buffer 1).
Proof.
  change (seen (SV buffer 1)). split; cbn; [lia|]. intros x Hx. right.
  unfold in_array, MAX_CONVERT_CAP, MAX_BINARY_CONVERT_CAP. lia.
Qed.

Lemma handle_spec_fine m s i number w z args : good m s -> good_args args -> 0 <= number < 2 ^ 64 ->
  (forall p, VStr p ∈ args0 \/ VOut p ∈ args0 \/ VPtr p ∈ args0 -> 0 <= p < 2 ^ 64) ->
  fine (fun r => handled s r /\ (spec i = 0 -> r = SpecReachedEnd) /\
    (forall args' m', r = SpecContinue args' m' -> spec i <> 37)) (handle_spec fuel lit buffer m i number w z args).
Proof.
  intros G Ha Hn Hr.
  assert (L : forall r, (spec i = 0 -> False) -> spec i <> 37 -> fine (handled s) r ->
    fine (fun r => handled s r /\ (spec i = 0 -> r = SpecReachedEnd) /\
      (forall args' m', r = SpecContinue args' m' -> spec i <> 37)) r).
  { intros r Hz Hp Hf. eapply fine_impl; [exact Hf|]. cbn. intuition. }
  unfold handle_spec. cbn zeta.
  assert (U : forall base o, print_base base -> include_pos_sign o = false -> include_prefix o = false ->
    fine (handled s) (handle_int buffer m i number z args va_unsigned (unsigned_to_string_view base o))).
  { intros base o Hb Ho1 Ho2. apply handle_int_fine; auto. intros n Hk. apply unsigned_options_print; auto. }
  assert (D : fine (handled s) (handle_int buffer m i number z args va_int
    (fun n => signed_to_string_view 10 (NumToStr false (add_pos_sign i) false false false) (i64 n)))).
  { apply handle_int_fine; auto. intros n _. apply signed_options_print. }
  assert (C : fine (handled s) ('(ch, args) ← va_int args;
    Ok (SpecOk (sv_create_nocheck buffer 1) z false args (upd m buffer (u8 ch))))).
  { eapply fine_bind; [apply va_int_fine, Ha|]. intros [v args'] (Ha' & _). cbn [fine handled snd] in *.
    split_and?; auto; [apply array_first_seen|apply array_put, G]. }
  assert (Q : fine (handled s) (Ok (SpecOk (sv_create_nocheck buffer 1) z false args (upd m buffer 37)))).
  { cbn. split_and?; auto; [apply array_first_seen|apply (array_put m s 37 G)]. }
  destruct (spec i) as [|q|q] eqn:E; [cbn; split_and?; auto; discriminate| |apply L; [discriminate|discriminate|cbn; auto]].
  repeat case_match;
    try (apply L; [discriminate|discriminate|]);
    first [ exact D | exact C | (split; [exact Q|split; [discriminate|intros; discriminate]]) | apply U; unfold print_base; auto
          | apply handle_s_fine; auto | apply handle_p_fine; auto | apply handle_n_fine; auto
          | cbn; auto ].
Qed.

(** *** Writing *)

Definition written_ok (r : Z * bool * mem * St) : Prop := let '(_, _, m, s) := r in good m s.

Lemma good_kept m s m' s' : good m s -> sink_inv s' m' -> mem_ok m' ->
  (forall x, outside s x -> outside s' x /\ m' x = m x) -> good m' s'.
Proof.
  intros (Hm & Hi & Hf & Ho) Hi' Hm' K. split; [exact Hm'|]. split; [exact Hi'|]. split.
  - intros x Hx. destruct (K x (Ho x (proj1 Hx))) as [_ ->]. apply Hf, Hx.
  - intros x Hx. apply K, Ho, Hx.
Qed.
Lemma write_char_fine i m s ch n c : good m s -> 0 <= ch < 256 -> 0 <= n < 2 ^ 32 ->
  fine written_ok (write_char_cb i m s ch n c).
Proof.
  intros G Hc Hn. pose proof G as (Hm & Hi & _).
  destruct (write_char_safe i s m ch n c Hi Hm Hc Hn) as (k & c' & m' & s' & -> & I' & M' & _ & K).
  cbn. eapply good_kept; eauto.
Qed.
Lemma write_sv_fine i m s sv c : good m s -> seen sv -> fine written_ok (write_sv_cb i m s sv c).
Proof.
  intros G (Hl & Hx). pose proof G as (Hm & Hi & _ & Ho).
  destruct (write_sv_safe i s m sv c Hi Hm Hl) as (k & c' & m' & s' & -> & I' & M' & _ & K).
  - intros x Hr. apply Ho, steady_outside, Hx, Hr.
  - cbn. eapply good_kept; eauto.
Qed.
Lemma call_cb_fine i sv m s c : good m s -> seen sv -> fine written_ok (call_cb i sv m s c).
Proof.
  intros G S. unfold call_cb. destruct (_ =? 0); [exact G|]. destruct (_ =? 1); [|apply write_sv_fine; auto].
  apply write_char_fine; [exact G|apply G|lia].
Qed.
Lemma write_prefix_fine i m s c : good m s -> fine written_ok (write_prefix_for_spec lit i m s c).
Proof.
  intros G. unfold write_prefix_for_spec. destruct (negb _); [exact G|].
  repeat case_match; first [ exact G | apply write_char_fine; [exact G|lia|lia]
    | apply write_sv_fine; [exact G|apply literal_seen; in_literals] ].
Qed.

Lemma drop_front_seen sv : seen sv -> seen (sv_drop_front (lit EmptyString) sv).
Proof.
  intros (Hl & Hx). unfold sv_drop_front, sv_create_nocheck. destruct (Z.eqb_spec (sv_length sv) 0); cbn [negb].
  - split; cbn; [lia|]. intros x Hr. lia.
  - rewrite wrap_small by (unfold is_u; lia). split; cbn; [lia|]. intros x Hr. apply Hx. lia.
Qed.

Lemma pad_with_lead_zeros_fine i parsed n is_null m s c : good m s -> seen parsed -> 0 <= n < 2 ^ 32 ->
  fine (fun r => let '(_, sv, _, m, s) := r in seen sv /\ good m s)
    (pad_with_lead_zeros lit i parsed n is_null m s c).
Proof.
  intros G S Hn. unfold pad_with_lead_zeros.
  apply fine_bind with (P := written_ok); [destruct (negb is_null); [apply write_prefix_fine, G|exact G]|].
  intros [[[out c1] m1] s1] G1. cbn [written_ok] in G1. destruct (n =? 0); [cbn; auto|].
  apply fine_bind with (P := fun r => let '(_, sv, _, m, s) := r in seen sv /\ good m s).
  - destruct (_ || _); [|cbn; auto].
    eapply fine_bind; [apply write_char_fine; [exact G1|apply G1|lia]|].
    intros [[[k c2] m2] s2] G2. cbn. split; [apply drop_front_seen, S|exact G2].
  - intros [[[[out2 sv] c2] m2] s2] (S2 & G2).
    eapply fine_bind; [apply write_char_fine; [exact G2|lia|exact Hn]|].
    intros [[[k c3] m3] s3] G3. cbn. auto.
Qed.

Lemma padding_bounds i m parsed b : valid_info i ->
  0 <= fst (padding i m parsed b) < 2 ^ 32 /\ 0 <= snd (padding i m parsed b) < 2 ^ 32.
Proof.
  intros Hi. unfold padding, valid_info in *. cbn zeta.
  set (pl := if b then _ else 0). assert (Hpl : 0 <= pl).
  { unfold pl. repeat case_match; try lia; apply wrap_bound; lia. }
  assert (W : forall w x, 0 <= w <= 32 -> 0 <= wrap w x < 2 ^ 32).
  { intros w x Hw. pose proof (wrap_bound w x ltac:(lia)) as Hb. unfold is_u in Hb.
    assert (2 ^ w <= 2 ^ 32) by (apply Z.pow_le_mono_r; lia). lia. }
  clearbody pl.
  assert (Ht : forall (z y : Z) b', 0 <= z < 2 ^ 32 -> 0 <= y -> forall x, x = (if b' : bool then 1 else 0) ->
    let r := if y <? width i then
        if leftpad_zeros i && is_int_specifier (spec i) && (precision i =? -1) && negb (left_justify i)
        then (width i - y, x) else (z, u32 (x + (width i - y)))
      else (z, x) in 0 <= fst r < 2 ^ 32 /\ 0 <= snd r < 2 ^ 32).
  { intros z y b' Hz Hy x ->. destruct (Z.ltb_spec y (width i)); [|destruct b'; cbn; lia].
    destruct (_ && _); cbn [fst snd]; (split; [lia|]); [destruct b'; lia|apply W; lia]. }
  destruct (is_int_specifier (spec i)) eqn:E; [|apply (Ht 0 pl false); lia].
  destruct (negb (precision i =? -1)); [|eapply Ht; [lia|lia|reflexivity]].
  destruct (_ <? precision i); eapply Ht; try reflexivity; try lia; apply W; lia.
Qed.

Lemma write_spaces_fine i n w c m s : good m s -> 0 <= n < 2 ^ 32 -> fine written_ok (write_spaces i n w c m s).
Proof.
  intros G Hn. unfold write_spaces. destruct (negb c); [exact G|]. destruct (n =? 0); [exact G|].
  eapply fine_bind; [apply write_char_fine; [exact G|lia|exact Hn]|]. intros [[[k c1] m1] s1] G1. exact G1.
Qed.
Lemma write_body_fine i parsed n is_null b w c m s : good m s -> seen parsed -> 0 <= n < 2 ^ 32 ->
  fine written_ok (write_body lit i parsed n is_null b w c m s).
Proof.
  intros G S Hn. unfold write_body. destruct (negb c); [exact G|].
  eapply fine_bind; [apply pad_with_lead_zeros_fine; eauto|]. intros [[[[k sv] c1] m1] s1] (S1 & G1).
  destruct (negb c1); [exact G1|]. destruct (negb b); [exact G1|].
  eapply fine_bind; [apply call_cb_fine; eauto|]. intros [[[k2 c2] m2] s2] G2. exact G2.
Qed.
Lemma write_field_fine i parsed z is_null w m s : good m s -> seen parsed -> valid_info i ->
  fine written_ok (write_field lit i parsed z is_null w m s).
Proof.
  intros G S Hi. unfold write_field.
  pose proof (padding_bounds i m parsed (negb (z && (precision i =? 0))) Hi) as (Hz & Hs).
  destruct (padding _ _ _ _) as [zeros spaces]. cbn [fst snd] in *. destruct (left_justify i).
  - eapply fine_bind; [apply write_body_fine; auto|]. intros [[[w1 c1] m1] s1] G1. apply write_spaces_fine; auto.
  - eapply fine_bind; [apply write_spaces_fine; auto|]. intros [[[w1 c1] m1] s1] G1. apply write_body_fine; auto.
Qed.

(** *** The loop *)

Context (PR : forall p, VStr p ∈ args0 \/ VOut p ∈ args0 \/ VPtr p ∈ args0 -> 0 <= p < 2 ^ 64).

(** Where the next round starts: a specifier that was skipped is no percent sign. *)
Definition next_ok (m : mem) (it us : Z) : Prop := inside us /\ (it = us \/ (it + 1 = us /\ m it <> 37 /\ fmt <= it)).
Definition round_ok (p : Z) (r : round_result) : Prop :=
  match r with
  | Returned _ m s | Left _ m s => good m s
  | Next it us _ args m s => good m s /\ good_args args /\ p <= it /\ next_ok m it us
  end.

Lemma format_directive_fine m s args w p : good m s -> good_args args -> inside p -> fmt < p ->
  fine (round_ok p) (format_directive fuel lit buffer m s args w p).
Proof.
  intros G Ha Hp Hlt. unfold format_directive. destruct (Z.eqb_spec (m p) 0) as [|Hz]; [exact G|].
  eapply fine_bind; [apply (parse_spec_fine m s); auto|].
  intros [[[[[i q] args1] number] z]|] Hr; [|exact G].
  destruct (Hr _ _ _ _ _ eq_refl) as (Hi & Ha1 & Hq & Hpq & Hn).
  eapply fine_bind; [apply (handle_spec_fine m s); auto|]. cbn [spec set_spec].
  intros r (Hh & Hend & H37). destruct (Z.eq_dec (m q) 0) as [E|E]; [rewrite (Hend E); exact G|].
  pose proof (inside_next m s q G Hq E) as Hq1. destruct r as [parsed z' is_null args2 m1| |args2 m1].
  - destruct Hh as (S & Ha2 & G1). eapply fine_bind; [apply write_field_fine; eauto|].
    intros [[[w1 c1] m2] s2] G2. destruct (negb c1); [exact G2|]. cbn. unfold next_ok. split_and?; auto; lia.
  - exact G.
  - destruct Hh as (Ha2 & G1). cbn. unfold next_ok. split_and?; auto. right. specialize (H37 _ _ eq_refl).
    split; [lia|]. split; [|lia]. destruct G1 as (_ & _ & F1 & _), G as (_ & _ & F & _).
    destruct (p_fmt PL) as (_ & _ & St0). rewrite (F1 q) by (apply St0, Hq). rewrite <- (F q) by (apply St0, Hq). exact H37.
Qed.

Lemma fmt_seen p q : inside p -> inside q -> p <= q -> fine seen (sv_create_end p q).
Proof.
  intros Hp Hq Hpq. unfold sv_create_end, c_assert, sv_create_nocheck, distance.
  destruct (Z.leb_spec p q); [|lia]. cbn. destruct (p_fmt PL) as ((_ & _ & F0 & F1) & _ & S). unfold inside in *.
  assert (Hu : 0 <= u32 (u64 (q - p)) <= q - p).
  { rewrite (wrap_small 64) by (unfold is_u; lia). unfold wrap. split; [apply Z.mod_pos_bound; lia|apply Z.mod_le; lia]. }
  pose proof (wrap_bound 32 (u64 (q - p)) ltac:(lia)) as Hw. unfold is_u in Hw.
  split; cbn; [lia|]. intros x Hx. left. apply S. lia.
Qed.

Lemma printf_round_fine m s args w us p : good m s -> good_args args -> inside us -> inside p -> us <= p -> m p <> 0 ->
  fine (round_ok (p + 1)) (printf_round fuel lit buffer m s args w us p).
Proof.
  intros G Ha Hus Hp Hle Hz. unfold printf_round.
  eapply fine_bind; [apply fmt_seen; eauto|]. intros sv S.
  eapply fine_bind; [apply call_cb_fine; eauto|]. intros [[[k c] m1] s1] G1. cbn [written_ok] in G1.
  destruct (negb c); [exact G1|]. apply format_directive_fine; [exact G1|exact Ha|exact (inside_next m s p G Hp Hz)|unfold inside in Hp; lia].
Qed.

Lemma printf_finish_fine m s w us c : good m s -> inside us ->
  fine (fun r => good (snd (fst r)) (snd r)) (printf_finish fuel m s w us c).
Proof.
  intros G Hus. unfold printf_finish. destruct (m us =? 0); [exact G|]. unfold inside in Hus.
  destruct (p_fmt PL) as (C & Hf & S). pose proof C as (_ & _ & F0 & F1).
  assert (C1 : cstr m us (drop (Z.to_nat (us - fmt)) l)).
  { eapply cstr_ext with (m := m0); [|intros x Hx; apply G, S; rewrite length_drop in Hx; lia].
    destruct C as (Hh & Hn & _). split; [|split; [apply Forall_drop, Hn|rewrite length_drop; lia]].
    rewrite <- (take_drop (Z.to_nat (us - fmt)) l), <- app_assoc, holds_app in Hh. destruct Hh as (_ & Hh).
    rewrite length_take in Hh. replace (fmt + Z.of_nat (Z.to_nat (us - fmt) `min` length l)) with us in Hh by lia. exact Hh. }
  rewrite (strlen_cstr _ _ _ _ C1) by (rewrite length_drop; lia). cbn [mbind outcome_bind]. rewrite length_drop.
  set (n := Z.of_nat (length l - Z.to_nat (us - fmt))). assert (Hn : 0 <= n <= fmt + Z.of_nat (length l) - us) by lia.
  assert (Hu : 0 <= u32 n <= n) by (unfold wrap; split; [apply Z.mod_pos_bound; lia|apply Z.mod_le; lia]).
  pose proof (wrap_bound 32 n ltac:(lia)) as Hw. unfold is_u in Hw.
  rewrite sv_create_length_fine by lia. cbn [mbind outcome_bind].
  eapply fine_bind; [apply call_cb_fine; [exact G|]|intros [[[k c1] m1] s1] G1; exact G1].
  split; cbn; [lia|]. intros x Hx. left. apply S. lia.
Qed.

Lemma as_char_percent b : is_u8 b -> (as_char a b =? 37) = (b =? 37).
Proof.
  intros Hb. unfold as_char, to_signed, is_u in *. rewrite wrap_small by exact Hb.
  destruct a; zcase; try reflexivity; lia.
Qed.
Lemma strchr_fine m s : good m s -> forall n p, inside p -> fmt + Z.of_nat (length l) - p <= Z.of_nat n ->
  fine (fun r => forall q, r = Some q -> p <= q /\ inside q /\ m q = 37) (strchr n a m p 37).
Proof.
  intros G. induction n as [|n IH]; intros p Hp Hn; cbn [strchr];
    (destruct (Z.eqb_spec (m p) 0) as [|E]; [cbn; discriminate|]); rewrite as_char_percent by apply G;
    (destruct (Z.eqb_spec (m p) 37) as [E37|]; [cbn; intros q [= <-]; split_and?; auto; lia|]).
  - rewrite (fmt_char m s p G Hp) in E. unfold inside in Hp. lia.
  - eapply fine_impl; [apply IH; [exact (inside_next m s p G Hp E)|lia]|].
    cbn. intros r Hr q Eq. destruct (Hr q Eq) as (? & ? & ?). split_and?; auto; lia.
Qed.

Lemma printf_loop_fine : forall n m s args w us it, good m s -> good_args args -> next_ok m it us ->
  fmt + Z.of_nat (length l) - it <= Z.of_nat n ->
  fine (fun r => good (snd (fst r)) (snd r)) (printf_loop a fuel lit buffer n m s args w us it).
Proof.
  induction n as [|n IH]; intros m s args w us it G Ha (Hus & Hit) Hn; cbn [printf_loop];
    assert (Hi : inside it) by (unfold inside in *; lia);
    (eapply fine_bind; [apply (strchr_fine m s G); [exact Hi|apply inside_fuel, Hi]|]);
    (intros [q|] Hq; [|apply printf_finish_fine; auto]);
    destruct (Hq q eq_refl) as (Hle & Hq1 & Hq37);
    assert (Hus' : us <= q) by
      (destruct Hit as [->|(Hit & Hne & _)]; [exact Hle|destruct (Z.eq_dec q it) as [->|]; [congruence|lia]]);
    (eapply fine_bind; [apply printf_round_fine; auto; congruence|]);
    (intros [w1 m1 s1|w1 m1 s1|it1 us1 w1 args1 m1 s1] Hr; cbn [round_ok] in Hr;
      [exact Hr|apply printf_finish_fine; auto|]); destruct Hr as (G1 & Ha1 & Hit1 & Hnx).
  - exfalso. assert (q <> fmt + Z.of_nat (length l)) by (rewrite <- (fmt_char m s q G Hq1); congruence).
    unfold inside in *. lia.
  - apply IH; auto. lia.
Qed.

Lemma parse_printf_fine : cbo_size = 0 \/ pow2_64 cbo_size -> mem_ok m0 -> sink_inv s0 m0 ->
  fine (fun r => good (snd (fst r)) (snd r)) (parse_printf a cbo_size fuel lit buffer m0 s0 fmt args0).
Proof.
  intros Hc Hm Hi. unfold parse_printf. destruct (p_buffer PL) as (B0 & B1).
  destruct (bzero_spec a cbo_size m0 buffer (MAX_CONVERT_CAP + 3)) as (m1 & -> & F); [unfold MAX_CONVERT_CAP, MAX_BINARY_CONVERT_CAP; lia|exact Hc|].
  cbn [mbind outcome_bind]. assert (G0 : good m0 s0) by (unfold good; auto).
  assert (G1 : good m1 s0).
  { apply (good_array m0 s0 m1 G0); [eapply filled_ok; [exact Hm| |exact F]; unfold is_u; lia|].
    intros x Hx. rewrite F. wcase; [contradiction|reflexivity]. }
  assert (Hf : inside fmt) by (unfold inside; lia).
  apply printf_loop_fine; auto; [intros v; auto|unfold next_ok; auto|apply inside_fuel, Hf].
Qed.
End Safe.

(** ** The buffer of lib/format.c *)

Definition buffer_outside (mb : mutable_buffer) (x : Z) : Prop := ~ (mb_begin mb <= x < mb_end mb).

Lemma buffer_char_safe a i mb m ch n c : mb_wf mb -> mem_ok m -> 0 <= ch < 256 -> 0 <= n < 2 ^ 32 ->
  exists k c' m' mb', buffer_char_callback a i m mb ch n c = Ok (k, c', m', mb') /\ mb_wf mb' /\ mem_ok m' /\ is_u32 k /\
    (mb_begin mb' = mb_begin mb /\ mb_end mb' = mb_end mb) /\ (forall x, buffer_outside mb x -> m' x = m x).
Proof.
  intros W Hm Hc Hn. unfold buffer_char_callback, mbuffer_append_byte.
  destruct (preprocess_for_append_spec mb n W ltac:(lia)) as (E & W' & K). rewrite E.
  destruct W as (? & ? & ? & ? & ?). set (k := Z.min _ _) in *.
  destruct (memset_spec a m (mb_begin mb + mb_index mb) ch k K Hc) as (m' & -> & F). cbn [mbind outcome_bind].
  eexists k, _, m', _. split; [reflexivity|]. split; [exact W'|]. split; [eapply filled_ok; eauto; unfold is_u; lia|]. split; [unfold is_u; lia|]. split; [auto|].
  unfold buffer_outside. intros x Hx. rewrite F. wcase; [lia|reflexivity].
Qed.
(** A view outside the buffer can be copied to its end. *)
Lemma outside_fw_safe mb sv k : mb_wf mb -> 0 <= sv_length sv ->
  (forall x, sv_begin sv <= x < sv_begin sv + sv_length sv -> buffer_outside mb x) ->
  k <= sv_length sv -> k <= mb_end mb - (mb_begin mb + mb_index mb) ->
  fw_safe (mb_begin mb + mb_index mb) (sv_begin sv) k.
Proof.
  unfold buffer_outside, fw_safe. intros (? & ? & ? & ? & ?) Hl Hx Hk1 Hk2.
  assert (D : sv_length sv = 0 \/ sv_begin sv + sv_length sv <= mb_begin mb \/ mb_end mb <= sv_begin sv \/
    mb_begin mb = mb_end mb).
  { destruct (Z.eq_dec (sv_length sv) 0); [auto|]. destruct (Z.eq_dec (mb_begin mb) (mb_end mb)); [auto|].
    destruct (Z.lt_ge_cases (sv_begin sv) (mb_begin mb)).
    - destruct (Z.le_gt_cases (sv_begin sv + sv_length sv) (mb_begin mb)); [auto|].
      exfalso. apply (Hx (mb_begin mb)); lia.
    - destruct (Z.le_gt_cases (mb_end mb) (sv_begin sv)); [auto|]. exfalso. apply (Hx (sv_begin sv)); lia. }
  lia.
Qed.
Lemma buffer_sv_safe a i mb m sv c : mb_wf mb -> mem_ok m -> 0 <= sv_length sv < 2 ^ 32 ->
  (forall x, sv_begin sv <= x < sv_begin sv + sv_length sv -> buffer_outside mb x) ->
  exists k c' m' mb', buffer_sv_callback a i m mb sv c = Ok (k, c', m', mb') /\ mb_wf mb' /\ mem_ok m' /\ is_u32 k /\
    (mb_begin mb' = mb_begin mb /\ mb_end mb' = mb_end mb) /\ (forall x, buffer_outside mb x -> m' x = m x).
Proof.
  intros W Hm Hl Hx. unfold buffer_sv_callback, mbuffer_append_sv, mbuffer_append_data.
  destruct (preprocess_for_append_spec mb (sv_length sv) W ltac:(lia)) as (E & W' & K). rewrite E.
  pose proof W as (? & ? & ? & ? & ?). set (k := Z.min _ _) in *.
  destruct (memcpy_spec a m (mb_begin mb + mb_index mb) (sv_begin sv) k Hm K) as (m' & -> & C);
    [apply (outside_fw_safe mb sv k); auto; lia|].
  cbn [mbind outcome_bind]. eexists k, _, m', _. split; [reflexivity|]. split; [exact W'|].
  split; [eapply copied_ok; eauto|]. split; [unfold is_u; lia|]. split; [auto|].
  unfold buffer_outside. intros x Hn. rewrite C. wcase; [lia|reflexivity].
Qed.
(** The buffer from [b] to [e] as a sink. *)
Definition buffer_inv (b e : Z) (mb : mutable_buffer) (_ : mem) : Prop := mb_wf mb /\ mb_begin mb = b /\ mb_end mb = e.
Definition buffer_sink_safe (a : arch) (b e : Z) : @SinkSafe mutable_buffer (buffer_sink a).
Proof.
  refine {| outside := fun _ x => ~ (b <= x < e); sink_inv := buffer_inv b e |}.
  - auto.
  - intros i mb m ch n c (W & Eb & Ee) Hm Hc Hn. destruct (buffer_char_safe a i mb m ch n c W Hm Hc Hn) as (k & c' & m' & mb' & E & W' & M' & U & B & K).
    exists k, c', m', mb'. unfold buffer_inv, buffer_outside in *. rewrite Eb, Ee in *. split_and?; auto; intuition.
  - intros i mb m sv c (W & Eb & Ee) Hm Hl Hx. destruct (buffer_sv_safe a i mb m sv c W Hm Hl) as (k & c' & m' & mb' & E & W' & M' & U & B & K).
    + unfold buffer_outside. rewrite Eb, Ee. exact Hx.
    + exists k, c', m', mb'. unfold buffer_inv, buffer_outside in *. rewrite Eb, Ee in *. split_and?; auto; intuition.
Defined.


(** *** A memory for examples: the literals from 1000 on, a string at 1100, the format at
    2000, the local array at 3000 and the buffer at 4000 *)

Definition demo_lit (t : string) : Z :=
  if String.eqb t "(null)" then 1000 else if String.eqb t "(nil)" then 1010
  else if String.eqb t "0b" then 1020 else if String.eqb t "0B" then 1030
  else if String.eqb t "0x" then 1040 else if String.eqb t "0X" then 1050 else 1060.
Definition put_string (m : mem) (p : Z) (t : string) : mem := write_bytes m p (chars_of t ++ [0]).
Definition demo_mem (fmt : string) : mem :=
  put_string (put_string (foldl (fun m t => put_string m (demo_lit t) t) (fun _ => 0) literals) 1100 "hello") 2000 fmt.
Definition demo_format (cap : Z) (fmt : string) (args : va_list) : option (Z * list Z) :=
  match vformat_to_buffer x86_64 0 300 demo_lit 3000 (demo_mem fmt) 4000 cap 2000 args with
  | Ok (n, m, mb) => Some (n, mb_contents m mb)
  | _ => None
  end.

Lemma put_string_ok m p t : mem_ok m -> mem_ok (put_string m p t).
Proof.
  intros Hm. apply write_bytes_ok; [exact Hm|]. apply Forall_app. split; [|repeat constructor; unfold is_u; lia].
  unfold chars_of. apply List.Forall_map, List.Forall_forall. intros c _. destruct c as [[] [] [] [] [] [] [] []]; vm_compute; split; congruence.
Qed.
Lemma demo_text_ok fmt : mem_ok (demo_mem fmt).
Proof. unfold demo_mem. cbn [foldl literals]. repeat apply put_string_ok. intros x. unfold is_u. lia. Qed.

Lemma demo_steady cap args x : (forall p, VOut p ∈ args -> 5000 <= p) -> 0 <= x < 3000 ->
  @steady mutable_buffer _ (buffer_sink_safe x86_64 4000 (4000 + cap)) 3000 (MB 4000 (4000 + cap) 0) args x.
Proof.
  intros Ho Hx. unfold steady, in_array, is_out, MAX_CONVERT_CAP, MAX_BINARY_CONVERT_CAP. cbn.
  split; [lia|]. split; [lia|]. intros (p & Hp & Hxp). specialize (Ho p Hp). lia.
Qed.
Lemma demo_placed cap fmt args : 0 <= cap <= 1000 -> (String.length fmt <= 200)%nat ->
  cstr (demo_mem fmt) 2000 (chars_of fmt) -> cstr (demo_mem fmt) 1100 (chars_of "hello") ->
  (forall p, VStr p ∈ args -> p = 0 \/ p = 1100) -> (forall p, VOut p ∈ args -> 5000 <= p) ->
  @placed mutable_buffer _ (buffer_sink_safe x86_64 4000 (4000 + cap)) 300 demo_lit 3000 (demo_mem fmt) (MB 4000 (4000 + cap) 0)
    args 2000 (chars_of fmt).
Proof.
  intros Hc Hf C1 C2 Hs Ho.
  pose proof (length_chars_of fmt) as Hl.
  split.
  - unfold MAX_CONVERT_CAP, MAX_BINARY_CONVERT_CAP. lia.
  - unfold in_array, MAX_CONVERT_CAP, MAX_BINARY_CONVERT_CAP. cbn. lia.
  - intros x (p & Hp & Hx). specialize (Ho p Hp). unfold in_array, MAX_CONVERT_CAP, MAX_BINARY_CONVERT_CAP. cbn. lia.
  - split; [exact C1|]. split; [lia|]. intros x Hx. apply demo_steady; [exact Ho|lia].
  - assert (L : Forall (fun t => 1000 <= demo_lit t /\ demo_lit t + Z.of_nat (String.length t) < 1100) literals)
      by (repeat constructor; vm_compute; discriminate).
    rewrite list.Forall_forall in L. intros t x Ht Hx. specialize (L t Ht). cbn beta in L. apply demo_steady; [exact Ho|lia].
  - intros p Hp. destruct (Hs p Hp) as [->| ->]; [auto|right]. exists (chars_of "hello"). split; [exact C2|].
    cbn. split; [lia|]. intros x Hx. apply demo_steady; [exact Ho|lia].
Qed.

