(* ===== verification/PrintfText.v ===== *)
(** * What the printf engine writes

    The laws [SinkText] of a sink that takes text, and the text of each write of the engine
    (lib/parse_printf.c): padding, prefix, sign and characters of a field.  A sink may stop
    the engine at any write; [stage] says what was written then. *)

From Stdlib Require Import String Ascii.
From S2P Require Import Prelude Mem Alloc Arith Range KStdlib Ctype Convert Buffers Printf PrintfSafe.
Import StringView MBuffer.

(** ** Text in a sink *)

(** How far the output is: all of [o] was written after [t0] and [w] counts it; or the
    sink stopped the engine somewhere in [o], and [w] is what was counted. *)
Definition stage_of {St : Type} (text : St -> mem -> list Z) (halted : list Z -> list Z -> St -> mem -> Z -> Prop)
    (t0 o : list Z) (c : bool) (s : St) (m : mem) (w : Z) : Prop :=
  if c then text s m = t0 ++ o /\ w = Z.of_nat (length o)
  else exists o', o' `prefix_of` o /\ halted t0 o' s m w.

Class SinkText (St : Type) `{SinkSafe St} := {
  text : St -> mem -> list Z;
  halted : list Z -> list Z -> St -> mem -> Z -> Prop;
  halted_bound : forall t0 o s m w, halted t0 o s m w -> 0 <= w < 2 ^ 32;
  text_local : forall s m m', sink_inv s m -> (forall x, ~ outside s x -> m' x = m x) -> text s m' = text s m;
  write_char_text : forall i s m ch n k c' m' s' t0 o, sink_inv s m -> mem_ok m -> 0 <= ch < 256 ->
    0 < n < 2 ^ 32 -> write_char_cb i m s ch n true = Ok (k, c', m', s') -> text s m = t0 ++ o ->
    stage_of text halted t0 (o ++ replicate (Z.to_nat n) ch) c' s' m' (Z.of_nat (length o) + k);
  write_sv_text : forall i s m sv k c' m' s' t0 o, sink_inv s m -> mem_ok m -> 0 < sv_length sv < 2 ^ 32 ->
    (forall x, sv_begin sv <= x < sv_begin sv + sv_length sv -> outside s x) ->
    write_sv_cb i m s sv true = Ok (k, c', m', s') -> text s m = t0 ++ o ->
    stage_of text halted t0 (o ++ sv_chars m sv) c' s' m' (Z.of_nat (length o) + k);
  write_char_halted : forall i s m ch n k c' m' s' t0 o w, sink_inv s m -> mem_ok m -> 0 <= ch < 256 ->
    0 < n < 2 ^ 32 -> write_char_cb i m s ch n false = Ok (k, c', m', s') -> halted t0 o s m w ->
    c' = false /\ halted t0 o s' m' (w + k);
  write_sv_halted : forall i s m sv k c' m' s' t0 o w, sink_inv s m -> mem_ok m -> 0 < sv_length sv < 2 ^ 32 ->
    (forall x, sv_begin sv <= x < sv_begin sv + sv_length sv -> outside s x) ->
    write_sv_cb i m s sv false = Ok (k, c', m', s') -> halted t0 o s m w ->
    c' = false /\ halted t0 o s' m' (w + k) }.
Abbreviation stage := (stage_of text halted).

(** The call returns a result with [P]. *)
Definition lands {A} (P : A -> Prop) (r : outcome A) : Prop := exists x, r = Ok x /\ P x.
Lemma lands_bind {A B} (P : A -> Prop) (Q : B -> Prop) (r : outcome A) (k : A -> outcome B) :
  lands P r -> (forall x, P x -> lands Q (k x)) -> lands Q (mbind k r).
Proof. intros (x & -> & Hx) Hk. apply Hk, Hx. Qed.
Lemma lands_ok {A} (P : A -> Prop) x : P x -> lands P (Ok x).
Proof. intros Hx. exists x. auto. Qed.
Lemma lands_impl {A} (P Q : A -> Prop) (r : outcome A) : lands P r -> (forall x, P x -> Q x) -> lands Q r.
Proof. intros (x & -> & Hx) Hk. exists x. auto. Qed.

Section Text.
Context {St : Type} `{SinkText St}.
Context (a : arch) (cbo_size : Z) (fuel : nat) (lit : string -> Z) (buffer : Z).
Context (m0 : mem) (s0 : St) (args0 : va_list) (fmt : Z) (l : list Z).
Context (PL : placed fuel lit buffer m0 s0 args0 fmt l).
(** The literals are in memory. *)
Context (LT : forall t, t ∈ literals -> holds m0 (lit t) (chars_of t)).
Context (t0 : list Z).
Abbreviation good := (PrintfSafe.good buffer m0 s0 args0).
Abbreviation seen := (PrintfSafe.seen buffer s0 args0).

(** The output went from [o] to [o ++ d], counted from [w] on; memory outside the sink is kept. *)
Definition wrote (m : mem) (s : St) (o d : list Z) (w : Z) (r : Z * bool * mem * St) : Prop :=
  let '(k, c, m', s') := r in
  good m' s' /\ 0 <= k /\ stage t0 (o ++ d) c s' m' (w + k) /\ (forall x, outside s x -> outside s' x /\ m' x = m x).

Lemma wrote_nothing m s o w c : good m s -> stage t0 o c s m w -> wrote m s o [] w (0, c, m, s).
Proof. intros G T. cbn. rewrite app_nil_r, Z.add_0_r. split_and?; auto. lia. Qed.

(** A stopped output stays stopped, whatever else was to be written. *)
Lemma stage_more o d s m w : stage t0 o false s m w -> stage t0 (o ++ d) false s m w.
Proof. intros (o' & Hp & Hh). exists o'. split; [apply prefix_app_r, Hp|exact Hh]. Qed.
Lemma stage_bound o c s m w : stage t0 o c s m w -> Z.of_nat (length o) < 2 ^ 32 -> 0 <= w < 2 ^ 32.
Proof.
  destruct c; cbn.
  - intros [_ ->]. lia.
  - intros (o' & _ & Hh) _. eapply halted_bound, Hh.
Qed.

Lemma write_char_lands i m s ch n c o w : good m s -> 0 <= ch < 256 -> 0 < n < 2 ^ 32 -> stage t0 o c s m w ->
  lands (wrote m s o (replicate (Z.to_nat n) ch) w) (write_char_cb i m s ch n c).
Proof.
  intros G Hc Hn T. pose proof G as (Hm & Hi & _).
  destruct (write_char_safe i s m ch n c Hi Hm Hc ltac:(lia)) as (k & c' & m' & s' & E & I' & M' & U & K).
  exists (k, c', m', s'). split; [exact E|]. split; [exact (good_kept _ _ _ _ _ _ _ _ G I' M' K)|]. split; [apply U|]. split; [|exact K].
  destruct c.
  - destruct T as (T & ->). exact (write_char_text _ _ _ _ _ _ _ _ _ _ _ Hi Hm Hc Hn E T).
  - destruct T as (o' & Hp & Hh). destruct (write_char_halted _ _ _ _ _ _ _ _ _ _ _ _ Hi Hm Hc Hn E Hh) as (-> & Hh').
    exists o'. split; [apply prefix_app_r, Hp|exact Hh'].
Qed.
Lemma write_sv_lands i m s sv c o w : good m s -> seen sv -> 0 < sv_length sv -> stage t0 o c s m w ->
  lands (wrote m s o (sv_chars m sv) w) (write_sv_cb i m s sv c).
Proof.
  intros G (Hl & Hx) Hp T. pose proof G as (Hm & Hi & _ & Ho).
  assert (Hs : forall x, sv_begin sv <= x < sv_begin sv + sv_length sv -> outside s x)
    by (intros x Hr; apply Ho, (steady_outside fuel lit _ _ _ _ _ _ PL), Hx, Hr).
  destruct (write_sv_safe i s m sv c Hi Hm Hl Hs) as (k & c' & m' & s' & E & I' & M' & U & K).
  exists (k, c', m', s'). split; [exact E|]. split; [exact (good_kept _ _ _ _ _ _ _ _ G I' M' K)|]. split; [apply U|]. split; [|exact K].
  destruct c.
  - destruct T as (T & ->). exact (write_sv_text _ _ _ _ _ _ _ _ _ _ Hi Hm (conj Hp (proj2 Hl)) Hs E T).
  - destruct T as (o' & Hpr & Hh).
    destruct (write_sv_halted _ _ _ _ _ _ _ _ _ _ _ Hi Hm (conj Hp (proj2 Hl)) Hs E Hh) as (-> & Hh').
    exists o'. split; [apply prefix_app_r, Hpr|exact Hh'].
Qed.
Lemma call_cb_lands i m s sv c o w : good m s -> seen sv -> stage t0 o c s m w ->
  lands (wrote m s o (sv_chars m sv) w) (call_cb i sv m s c).
Proof.
  intros G S T. unfold call_cb. pose proof S as (Hl & _). unfold sv_chars at 1.
  destruct (Z.eqb_spec (sv_length sv) 0) as [E|E].
  { rewrite E. apply lands_ok, wrote_nothing; auto. }
  destruct (Z.eqb_spec (sv_length sv) 1) as [E1|E1]; [|apply write_sv_lands; auto; lia].
  rewrite E1. apply (write_char_lands i m s (m (sv_begin sv)) 1); auto; [apply G|lia].
Qed.

(** A stopped sink stays as it is. *)
Lemma call_cb_halted i m s sv o w : good m s -> seen sv -> halted t0 o s m w ->
  lands (fun r => let '(k, _, m', s') := r in good m' s' /\ halted t0 o s' m' (w + k)) (call_cb i sv m s false).
Proof.
  intros G S Hh. unfold call_cb. pose proof S as (Hl & Hx). pose proof G as (Hm & Hi & _ & Ho).
  destruct (Z.eqb_spec (sv_length sv) 0); [apply lands_ok; rewrite Z.add_0_r; auto|].
  destruct (Z.eqb_spec (sv_length sv) 1).
  - destruct (write_char_safe i s m (m (sv_begin sv)) 1 false Hi Hm (Hm _) ltac:(lia)) as (k & c' & m' & s' & E & I' & M' & U & K).
    rewrite E. apply lands_ok. split; [exact (good_kept _ _ _ _ _ _ _ _ G I' M' K)|].
    apply (write_char_halted i s m (m (sv_begin sv)) 1 k c' m' s' t0 o w Hi Hm (Hm _) ltac:(lia) E Hh).
  - assert (Hs : forall x, sv_begin sv <= x < sv_begin sv + sv_length sv -> outside s x)
      by (intros x Hr; apply Ho, (steady_outside fuel lit _ _ _ _ _ _ PL), Hx, Hr).
    destruct (write_sv_safe i s m sv false Hi Hm Hl Hs) as (k & c' & m' & s' & E & I' & M' & U & K).
    rewrite E. apply lands_ok. split; [exact (good_kept _ _ _ _ _ _ _ _ G I' M' K)|].
    apply (write_sv_halted i s m sv k c' m' s' t0 o w Hi Hm ltac:(lia) Hs E Hh).
Qed.

Lemma wrote_trans m s o d1 d2 w k1 c1 m1 s1 k2 c2 m2 s2 :
  wrote m s o d1 w (k1, c1, m1, s1) -> wrote m1 s1 (o ++ d1) d2 (w + k1) (k2, c2, m2, s2) ->
  wrote m s o (d1 ++ d2) w (k1 + k2, c2, m2, s2).
Proof.
  unfold wrote. intros (G1 & N1 & T1 & K1) (G2 & N2 & T2 & K2). split; [exact G2|]. split; [lia|]. split.
  - rewrite app_assoc, Z.add_assoc. exact T2.
  - intros x Hx. destruct (K1 x Hx) as [Ho E1]. destruct (K2 x Ho) as [Ho2 E2]. split; [exact Ho2|congruence].
Qed.
(** Nothing more is written once the sink stopped the engine. *)
Lemma wrote_stop m s o d1 d2 w k m1 s1 : wrote m s o d1 w (k, false, m1, s1) ->
  wrote m s o (d1 ++ d2) w (k, false, m1, s1).
Proof.
  intros (G & N & T & K). split; [exact G|]. split; [exact N|]. split; [|exact K].
  rewrite app_assoc. apply stage_more, T.
Qed.

Lemma shows_chars m sv pc : shows m sv pc -> sv_chars m sv = pc.
Proof. intros (Hh & E & _). unfold sv_chars. rewrite E, Nat2Z.id. exact Hh. Qed.
Lemma shows_kept m s m' s' sv pc : good m s -> seen sv -> (forall x, outside s x -> outside s' x /\ m' x = m x) ->
  shows m sv pc -> shows m' sv pc.
Proof.
  intros G (Hl & Hx) K (Hh & E & Hn). split; [|auto]. eapply holds_ext; [exact Hh|]. intros x Hr.
  apply K, G, (steady_outside fuel lit _ _ _ _ _ _ PL), Hx. lia.
Qed.

Lemma literal_chars m s t : good m s -> t ∈ literals -> shows m (SV_STATIC lit t) (chars_of t).
Proof.
  intros G Ht. pose proof (literal_seen fuel lit _ _ _ _ _ _ PL t Ht) as (Hl & _). cbn in Hl.
  split; [|cbn; rewrite length_chars_of; lia]. eapply holds_ext; [apply LT, Ht|]. rewrite length_chars_of. intros x Hx.
  destruct G as (_ & _ & F & _). apply F, (p_lit _ _ _ _ _ _ _ _ PL t); [exact Ht|exact Hx].
Qed.

(** *** The text of a field *)

Definition prefix_text (i : printf_spec_info) : list Z :=
  if add_base_prefix i then
    match spec i with
    | 98 => chars_of "0b"
    | 66 => chars_of "0B"
    | 111 => chars_of "0"
    | 120 => chars_of "0x"
    | 88 => chars_of "0X"
    | _ => []
    end
  else [].
Lemma write_prefix_lands i m s c o w : good m s -> stage t0 o c s m w ->
  lands (wrote m s o (prefix_text i) w) (write_prefix_for_spec lit i m s c).
Proof.
  intros G T. unfold write_prefix_for_spec, prefix_text.
  destruct (add_base_prefix i); cbn [negb]; [|apply lands_ok, wrote_nothing; auto].
  assert (L : forall t, t ∈ literals -> lands (wrote m s o (chars_of t) w) (write_sv_cb (Some i) m s (SV_STATIC lit t) c)).
  { intros t Ht. rewrite <- (shows_chars m _ _ (literal_chars m s t G Ht)).
    apply write_sv_lands; auto; [apply (literal_seen fuel lit _ _ _ _ _ _ PL t Ht)|].
    unfold literals in Ht. repeat (apply elem_of_cons in Ht; destruct Ht as [->|Ht]; [cbn; lia|]). apply elem_of_nil in Ht. contradiction. }
  repeat case_match; first [ apply lands_ok, wrote_nothing; auto | apply L; in_literals
    | apply (write_char_lands (Some i) m s 48 1); auto; lia ].
Qed.

(** The sign in front of the characters and what follows it. *)
Definition is_sign (c : Z) : bool := (c =? 43) || (c =? 45).
Definition sign_of (pc : list Z) : list Z :=
  match pc with c :: _ => if is_sign c then [c] else [] | [] => [] end.
Definition unsign (pc : list Z) : list Z :=
  match pc with c :: r => if is_sign c then r else pc | [] => [] end.
Definition lead (pc : list Z) (n : Z) : list Z := if n =? 0 then [] else sign_of pc ++ replicate (Z.to_nat n) 48.
Definition after_lead (pc : list Z) (n : Z) : list Z := if n =? 0 then pc else unsign pc.

Lemma drop_sign_shows m s sv c r : good m s -> seen sv -> shows m sv (c :: r) ->
  seen (sv_drop_front (lit EmptyString) sv) /\ shows m (sv_drop_front (lit EmptyString) sv) r.
Proof.
  intros G S (Hh & E & Hn). split; [apply drop_front_seen, S|]. cbn [length] in *.
  unfold sv_drop_front, sv_create_nocheck. destruct (Z.eqb_spec (sv_length sv) 0); [lia|]. cbn [negb].
  rewrite wrap_small by (unfold is_u; lia). apply holds_cons in Hh. split; [apply Hh|cbn; lia].
Qed.

Lemma total_u64 w o d c (s : St) m k : stage t0 (o ++ d) c s m (w + k) -> Z.of_nat (length (o ++ d)) < 2 ^ 32 ->
  0 <= w -> 0 <= k -> u64 k = k.
Proof. intros T Hb Hw Hk. apply stage_bound in T; [|exact Hb]. apply wrap_small. unfold is_u. lia. Qed.

Lemma pad_lands i parsed pc n (is_null : bool) m s c o w : good m s -> seen parsed -> shows m parsed pc ->
  0 <= n < 2 ^ 32 -> (n <> 0 -> pc <> []) -> stage t0 o c s m w -> 0 <= w ->
  let d := (if is_null then [] else prefix_text i) ++ lead pc n in
  Z.of_nat (length (o ++ d)) < 2 ^ 32 ->
  lands (fun x : Z * string_view * bool * mem * St => let '(k, sv, c', m', s') := x in
    wrote m s o d w (k, c', m', s') /\ seen sv /\ shows m' sv (after_lead pc n))
    (pad_with_lead_zeros lit i parsed n is_null m s c).
Proof.
  intros G S V Hn Hne T Hw d Hb. unfold pad_with_lead_zeros.
  set (d1 := if is_null then [] else prefix_text i) in *.
  assert (P1 : lands (wrote m s o d1 w)
    (if negb is_null then write_prefix_for_spec lit i m s c else Ok (0, c, m, s))).
  { unfold d1. destruct is_null; cbn [negb]; [apply lands_ok, wrote_nothing|apply write_prefix_lands]; auto. }
  eapply lands_bind; [exact P1|]. intros [[[k1 c1] m1] s1] W1. pose proof W1 as (G1 & N1 & T1 & K1).
  pose proof (shows_kept _ _ _ _ _ _ G S K1 V) as V1. unfold d, lead, after_lead in *.
  destruct (Z.eqb_spec n 0) as [->|Hn0].
  { apply lands_ok. rewrite app_nil_r. auto. }
  specialize (Hne Hn0). destruct pc as [|ch r]; [contradiction|]. cbn [sign_of unsign] in *.
  pose proof (proj1 (holds_cons _ _ _ _) (proj1 V1)) as (-> & _). fold (is_sign ch).
  assert (P2 : lands (fun x : Z * string_view * bool * mem * St => let '(k, sv, c', m', s') := x in
      wrote m s o (d1 ++ if is_sign ch then [ch] else []) w (k, c', m', s') /\ seen sv /\
      shows m' sv (if is_sign ch then r else ch :: r))
    (if is_sign ch then
       '(k, c2, m2, s2) ← write_char_cb (Some i) m1 s1 ch 1 c1;
       Ok (u64 (k1 + k), sv_drop_front (lit EmptyString) parsed, c2, m2, s2)
     else Ok (k1, parsed, c1, m1, s1))).
  { destruct (is_sign ch) eqn:Es; [|apply lands_ok; rewrite app_nil_r; auto].
    assert (Hch : 0 <= ch < 256) by (unfold is_sign in Es; zcase; try discriminate; lia).
    eapply lands_bind; [apply (write_char_lands (Some i) m1 s1 ch 1 c1 _ _ G1 Hch ltac:(lia) T1)|].
    intros [[[k2 c2] m2] s2] W2. pose proof (wrote_trans _ _ _ _ _ _ _ _ _ _ _ _ _ _ W1 W2) as W12.
    pose proof W12 as (G2 & N2 & T2 & K2). apply lands_ok. rewrite (total_u64 _ _ _ _ _ _ _ T2); auto.
    - pose proof (drop_sign_shows _ _ _ _ _ G2 S (shows_kept _ _ _ _ _ _ G S K2 V)) as (S2 & V2). auto.
    - rewrite !length_app in *. cbn [length replicate Z.to_nat Pos.to_nat] in *. change (length (replicate (Z.to_nat 1) ch)) with 1%nat. lia. }
  eapply lands_bind; [exact P2|]. intros [[[[k2 sv] c2] m2] s2] (W2 & S2 & V2). pose proof W2 as (G2 & N2 & T2 & K2).
  eapply lands_bind; [apply (write_char_lands (Some i) m2 s2 48 n c2 _ _ G2 ltac:(lia) ltac:(lia) T2)|].
  intros [[[k3 c3] m3] s3] W3. pose proof (wrote_trans _ _ _ _ _ _ _ _ _ _ _ _ _ _ W2 W3) as W.
  pose proof W as (_ & N3 & T3 & _). apply lands_ok. rewrite (total_u64 _ _ _ _ _ _ _ T3); auto.
  - rewrite app_assoc. split; [exact W|]. split; [exact S2|]. eapply shows_kept; [exact G2|exact S2|apply W3|exact V2].
  - rewrite <- app_assoc. exact Hb.
Qed.

(** The same for the functions that add to the count themselves. *)
Definition wrote_to (m : mem) (s : St) (o d : list Z) (w : Z) (r : Z * bool * mem * St) : Prop :=
  let '(w', c, m', s') := r in wrote m s o d w (w' - w, c, m', s').

Lemma wrote_to_u32 m s o d w k c m' s' : wrote m s o d w (k, c, m', s') -> 0 <= w ->
  Z.of_nat (length (o ++ d)) < 2 ^ 32 -> wrote_to m s o d w (u32 (w + k), c, m', s').
Proof.
  intros W Hw Hb. pose proof W as (_ & N & T & _). apply stage_bound in T; [|exact Hb].
  rewrite wrap_small by (unfold is_u; lia). unfold wrote_to. replace (w + k - w) with k by lia. exact W.
Qed.
Lemma wrote_to_same m s o w c : good m s -> stage t0 o c s m w -> wrote_to m s o [] w (w, c, m, s).
Proof. intros G T. unfold wrote_to. rewrite Z.sub_diag. apply wrote_nothing; auto. Qed.
Lemma wrote_to_trans m s o d1 d2 w w1 c1 m1 s1 r :
  wrote_to m s o d1 w (w1, c1, m1, s1) -> wrote_to m1 s1 (o ++ d1) d2 w1 r -> wrote_to m s o (d1 ++ d2) w r.
Proof.
  destruct r as [[[w2 c2] m2] s2]. unfold wrote_to. intros W1 W2.
  replace (w2 - w) with ((w1 - w) + (w2 - w1)) by lia. eapply wrote_trans; [exact W1|].
  replace (w + (w1 - w)) with w1 by lia. exact W2.
Qed.

Lemma write_spaces_lands i n w c m s o : good m s -> 0 <= n < 2 ^ 32 -> stage t0 o c s m w -> 0 <= w ->
  Z.of_nat (length (o ++ replicate (Z.to_nat n) 32)) < 2 ^ 32 ->
  lands (wrote_to m s o (replicate (Z.to_nat n) 32) w) (write_spaces i n w c m s).
Proof.
  intros G Hn T Hw Hb. unfold write_spaces. destruct c; cbn [negb].
  - destruct (Z.eqb_spec n 0) as [->|Hn0]; [apply lands_ok, wrote_to_same; auto|].
    eapply lands_bind; [apply (write_char_lands (Some i) m s 32 n true _ _ G ltac:(lia) ltac:(lia) T)|].
    intros [[[k c] m1] s1] W. apply lands_ok, wrote_to_u32; auto.
  - apply lands_ok. unfold wrote_to. apply (wrote_stop m s o []). rewrite Z.sub_diag. apply wrote_nothing; auto.
Qed.

Definition body_text (i : printf_spec_info) (pc : list Z) (n : Z) (is_null should_write : bool) : list Z :=
  ((if is_null then [] else prefix_text i) ++ lead pc n) ++ (if should_write then after_lead pc n else []).

Lemma write_body_lands i parsed pc n is_null b w c m s o : good m s -> seen parsed -> shows m parsed pc ->
  0 <= n < 2 ^ 32 -> (n <> 0 -> pc <> []) -> stage t0 o c s m w -> 0 <= w ->
  Z.of_nat (length (o ++ body_text i pc n is_null b)) < 2 ^ 32 ->
  lands (wrote_to m s o (body_text i pc n is_null b) w) (write_body lit i parsed n is_null b w c m s).
Proof.
  intros G S V Hn Hne T Hw Hb. unfold write_body, body_text in *. destruct c; cbn [negb].
  2: { apply lands_ok. unfold wrote_to. apply (wrote_stop m s o []). rewrite Z.sub_diag. apply wrote_nothing; auto. }
  set (d := _ ++ lead pc n) in *. assert (Hb1 : Z.of_nat (length (o ++ d)) < 2 ^ 32) by (rewrite !length_app in *; lia).
  eapply lands_bind; [apply (pad_lands i parsed pc n is_null m s true o w); auto|].
  intros [[[[k sv] c1] m1] s1] (W1 & S1 & V1). pose proof (wrote_to_u32 _ _ _ _ _ _ _ _ _ W1 Hw Hb1) as W1'.
  destruct c1; cbn [negb].
  2: { apply lands_ok. unfold wrote_to in *. apply wrote_stop, W1'. }
  destruct b; cbn [negb]; [|apply lands_ok; rewrite app_nil_r; exact W1'].
  pose proof W1' as (G1 & N1 & T1 & _).
  replace (w + (u32 (w + k) - w)) with (u32 (w + k)) in T1 by lia.
  eapply lands_bind; [apply (call_cb_lands (Some i) m1 s1 sv true _ _ G1 S1 T1)|].
  intros [[[k2 c2] m2] s2] W2. rewrite (shows_chars _ _ _ V1) in W2. apply lands_ok.
  eapply wrote_to_trans; [exact W1'|].
  apply wrote_to_u32; [exact W2|apply wrap_bound; lia|rewrite <- app_assoc; exact Hb].
Qed.

Definition field_text (i : printf_spec_info) (pc : list Z) (zeros spaces : Z) (is_null b : bool) : list Z :=
  if left_justify i then body_text i pc zeros is_null b ++ replicate (Z.to_nat spaces) 32
  else replicate (Z.to_nat spaces) 32 ++ body_text i pc zeros is_null b.

Lemma write_field_lands i parsed pc is_zero is_null w m s o zeros spaces : good m s -> seen parsed ->
  shows m parsed pc -> valid_info i -> stage t0 o true s m w -> 0 <= w ->
  padding i m parsed (negb (is_zero && (precision i =? 0))) = (zeros, spaces) -> (zeros <> 0 -> pc <> []) ->
  let d := field_text i pc zeros spaces is_null (negb (is_zero && (precision i =? 0))) in
  Z.of_nat (length (o ++ d)) < 2 ^ 32 ->
  lands (wrote_to m s o d w) (write_field lit i parsed is_zero is_null w m s).
Proof.
  intros G S V Hi T Hw Ep Hne d Hb. unfold write_field. cbn zeta.
  pose proof (padding_bounds i m parsed (negb (is_zero && (precision i =? 0))) Hi) as (Bz & Bs).
  rewrite Ep in *. cbn [fst snd] in *. unfold d, field_text in *. set (b := negb _) in *. clear d.
  destruct (left_justify i).
  - assert (Hb1 : Z.of_nat (length (o ++ body_text i pc zeros is_null b)) < 2 ^ 32) by (rewrite !length_app in *; lia).
    eapply lands_bind; [apply (write_body_lands i parsed pc zeros is_null b w true m s o G S V Bz Hne T Hw Hb1)|].
    intros [[[w1 c1] m1] s1] W1. pose proof W1 as (G1 & N1 & T1 & _).
    replace (w + (w1 - w)) with w1 in T1 by lia.
    eapply lands_impl; [apply write_spaces_lands; [exact G1|exact Bs|exact T1|lia|rewrite <- app_assoc; exact Hb]|].
    intros r Hr. eapply wrote_to_trans; eauto.
  - assert (Hb1 : Z.of_nat (length (o ++ replicate (Z.to_nat spaces) 32)) < 2 ^ 32) by (rewrite !length_app in *; lia).
    eapply lands_bind; [apply (write_spaces_lands i spaces w true m s o G Bs T Hw Hb1)|].
    intros [[[w1 c1] m1] s1] W1. pose proof W1 as (G1 & N1 & T1 & K1).
    replace (w + (w1 - w)) with w1 in T1 by lia.
    eapply lands_impl; [apply (write_body_lands i parsed pc); [exact G1|exact S|exact (shows_kept _ _ _ _ _ _ G S K1 V)|exact Bz|exact Hne|exact T1|lia|rewrite <- app_assoc; exact Hb]|].
    intros r Hr. eapply wrote_to_trans; eauto.
Qed.
End Text.
