(* ===== verification/PrintfIso.v ===== *)
(** * The printf engine writes what ISO C asks for

    [directive] is the syntax of a directive, [iso_field] the text ISO C gives it, and
    [agrees] the directives and arguments for which lib/parse_printf.c follows ISO C; the
    lemmas at the end show where it does not.  The output goes to any sink with the laws of
    [SinkText]; [vformat_to_buffer] of lib/format.c is the instance. *)

From Stdlib Require Import String Ascii.
From S2P Require Import Prelude Mem Alloc Arith Range KStdlib Ctype Convert Buffers Printf PrintfSafe PrintfText.
Import StringView MBuffer.

(** ** The reference *)

Inductive length_modifier := LNone | Lhh | Lh | Ll | Lll | Lj | Lz | Lt.
(** A width or a precision: absent, digits, or taken from the arguments. *)
Inductive amount := Absent | Given (ds : list Z) | Star.
Record directive := Directive {
  d_flags : list Z; d_width : amount; d_precision : amount; d_length : length_modifier; d_conv : Z }.
(** A format: pairs of a text without percent signs and a directive, and a last text. *)
Record format := Format { f_fields : list (list Z * directive); f_tail : list Z }.

Definition amount_chars (am : amount) : list Z :=
  match am with Absent => [] | Given ds => ds | Star => [42] end.
Definition precision_chars (am : amount) : list Z :=
  match am with Absent => [] | _ => 46 :: amount_chars am end.
Definition length_chars (lm : length_modifier) : list Z :=
  match lm with
  | LNone => [] | Lhh => [104; 104] | Lh => [104] | Ll => [108] | Lll => [108; 108]
  | Lj => [106] | Lz => [122] | Lt => [116]
  end.
Definition directive_chars (d : directive) : list Z :=
  d_flags d ++ amount_chars (d_width d) ++ precision_chars (d_precision d) ++ length_chars (d_length d) ++ [d_conv d].
Definition format_chars (f : format) : list Z :=
  concat (map (fun p => fst p ++ 37 :: directive_chars (snd p)) (f_fields f)) ++ f_tail f.

Definition is_digit (c : Z) : bool := (48 <=? c) && (c <=? 57).
Definition decimal (ds : list Z) : Z := foldl (fun v c => v * 10 + (c - 48)) 0 ds.
Definition is_flag (c : Z) : bool := (c =? 32) || (c =? 45) || (c =? 43) || (c =? 35) || (c =? 48).
Definition has_flag (d : directive) (c : Z) : bool := existsb (Z.eqb c) (d_flags d).
Definition signed_conv (c : Z) : bool := (c =? 100) || (c =? 105).
Definition conversions : list Z := chars_of "bBdiuoxXcspn%".

(** The value of an amount, and the arguments left. *)
Definition iso_amount (am : amount) (args : va_list) : option (option Z * va_list) :=
  match am, args with
  | Absent, _ => Some (None, args)
  | Given ds, _ => Some (Some (decimal ds), args)
  | Star, VInt z :: args => Some (Some (i32 z), args)
  | Star, _ => None
  end.

(** The argument of an integer conversion, converted to the type of its length modifier. *)
Definition iso_int (signed : bool) (lm : length_modifier) (args : va_list) : option (Z * va_list) :=
  match lm, args with
  | LNone, VInt z :: args => Some (if signed then i32 z else u32 z, args)
  | Lhh, VInt z :: args => Some (if signed then i8 z else u8 z, args)
  | Lh, VInt z :: args => Some (if signed then to_signed 16 z else u16 z, args)
  | (Ll | Lll | Lj | Lz | Lt), VLong z :: args => Some (if signed then i64 z else u64 z, args)
  | _, _ => None
  end.

Definition conv_base (c : Z) : Z :=
  match c with 98 | 66 => 2 | 111 => 8 | 120 | 88 => 16 | _ => 10 end.
Definition conv_options (c : Z) : num_to_str_options :=
  NumToStr false false ((c =? 66) || (c =? 88)) false false.
Definition conv_prefix (c : Z) : list Z :=
  match c with
  | 98 => chars_of "0b" | 66 => chars_of "0B" | 120 => chars_of "0x" | 88 => chars_of "0X" | _ => [] end.

(** Padding with spaces to the width. *)
Definition iso_pad (minus : bool) (width : Z) (t : list Z) : list Z :=
  let spaces := replicate (Z.to_nat (width - Z.of_nat (length t))) 32 in
  if minus then t ++ spaces else spaces ++ t.

Section Reference.
(** The strings at the addresses of the string arguments. *)
Context (strs : Z -> list Z).

(** An integer [v]: sign, prefix, zeros up to the precision or the width, digits. *)
Definition iso_integer (d : directive) (minus : bool) (width : Z) (prec : option Z) (v : Z) : list Z :=
  let c := d_conv d in
  let sign := if v <? 0 then [45]
              else if signed_conv c && has_flag d 43 then [43]
              else if signed_conv c && has_flag d 32 then [32] else [] in
  let digits := if (v =? 0) && bool_decide (prec = Some 0) then []
                else digits_of (conv_base c) (conv_options c) (Z.abs v) in
  let missing := match prec with Some p => p - Z.of_nat (length digits) | None => 0 end in
  let prefix :=
    if has_flag d 35 then
      if c =? 111 then
        (if bool_decide (head (replicate (Z.to_nat missing) 48 ++ digits) = Some 48) then [] else [48])
      else if v =? 0 then [] else conv_prefix c
    else [] in
  let zeros :=
    match prec with
    | Some _ => missing
    | None => if has_flag d 48 && negb minus then width - Z.of_nat (length (sign ++ prefix ++ digits)) else 0
    end in
  iso_pad minus width (sign ++ prefix ++ replicate (Z.to_nat zeros) 48 ++ digits).

(** The text of a directive, the targets it stores the count to, and the arguments left.
    [%p] and a NULL string are implementation-defined: "0x" and upper case digits, "(nil)"
    and "(null)". *)
Definition iso_field (d : directive) (args : va_list) : option (list Z * list Z * va_list) :=
  '(w, args) ← iso_amount (d_width d) args;
  '(p, args) ← iso_amount (d_precision d) args;
  let minus := has_flag d 45 || bool_decide (default 0 w < 0) in
  let width := Z.abs (default 0 w) in
  let prec := match p with Some p => if p <? 0 then None else Some p | None => None end in
  let c := d_conv d in
  if is_int_specifier c then
    '(v, args) ← iso_int (signed_conv c) (d_length d) args;
    Some (iso_integer d minus width prec v, [], args)
  else match c, args with
       | 99, VInt z :: args => Some (iso_pad minus width [u8 z], [], args)
       | 115, VStr q :: args =>
           let t := if q =? 0 then chars_of "(null)"
                    else match prec with Some n => take (Z.to_nat n) (strs q) | None => strs q end in
           Some (iso_pad minus width t, [], args)
       | 112, (VPtr q | VStr q | VOut q) :: args =>
           let t := if q =? 0 then chars_of "(nil)" else chars_of "0x" ++ digits_of 16 upper_options q in
           Some (iso_pad minus width t, [], args)
       | 110, VOut q :: args => Some ([], [q], args)
       | 37, _ => Some ([37], [], args)
       | _, _ => None
       end.

(** The output of a format and the counts it stores; [n] characters are before it. *)
Fixpoint iso_fields (fs : list (list Z * directive)) (n : Z) (args : va_list)
    : option (list Z * list (Z * Z)) :=
  match fs with
  | [] => Some ([], [])
  | (t, d) :: fs =>
      '(text, targets, args) ← iso_field d args;
      '(rest, stores) ← iso_fields fs (n + Z.of_nat (length t + length text)) args;
      Some (t ++ text ++ rest, map (fun q => (q, n + Z.of_nat (length t))) targets ++ stores)
  end.
Definition iso_format (f : format) (args : va_list) : option (list Z * list (Z * Z)) :=
  '(out, stores) ← iso_fields (f_fields f) 0 args;
  Some (out ++ f_tail f, stores).
End Reference.

(** ** Where the engine follows the reference *)

Definition is_prefixed (c : Z) : bool := (c =? 98) || (c =? 66) || (c =? 111) || (c =? 120) || (c =? 88).
Definition is_none (lm : length_modifier) : bool := match lm with LNone => true | _ => false end.

(** The syntax the parser reads as written: a width does not begin with 0, which is a flag,
    and numbers fit [int]. *)
Definition wf_directive (d : directive) : bool :=
  forallb is_flag (d_flags d) &&
  match d_width d with
  | Given ds => negb (match ds with c :: _ => c =? 48 | [] => true end) && forallb is_digit ds && (decimal ds <=? INT32_MAX)
  | _ => true
  end &&
  match d_precision d with
  | Given ds => forallb is_digit ds && (decimal ds <=? INT32_MAX)
  | _ => true
  end &&
  existsb (Z.eqb (d_conv d)) conversions.

(** An integer: [h] and [hh] do not change the value; the space flag comes with a signed
    conversion that prints a sign, or with no width and no minus flag; a zero has no prefix and is not
    printed with precision 0 after a plus sign; a prefixed octal number has no precision;
    the precision leaves the length of the field below 256. *)
Definition int_agrees (d : directive) (width : Z) (prec : option Z) (v : Z) (args : va_list) : bool :=
  let c := d_conv d in
  let empty := (v =? 0) && bool_decide (prec = Some 0) in
  match d_length d, args with (Lhh | Lh), VInt z :: _ => v =? i32 z | _, _ => true end &&
  (negb (has_flag d 32) || (signed_conv c &&
    ((v <? 0) || has_flag d 43 || (negb (has_flag d 45) && (width =? 0) && negb empty)))) &&
  negb (empty && has_flag d 43 && signed_conv c) &&
  (negb (has_flag d 35 && is_prefixed c) ||
    (negb (v =? 0) && (negb (c =? 111) || bool_decide (prec = None)))) &&
  (default 0 prec <=? 252).

Definition agrees (strs : Z -> list Z) (d : directive) (args : va_list) : bool :=
  match iso_amount (d_width d) args with
  | None => false
  | Some (w, args) =>
      match iso_amount (d_precision d) args with
      | None => false
      | Some (p, args) =>
          let width := default 0 w in
          let prec := match p with Some p => if p <? 0 then None else Some p | None => None end in
          let c := d_conv d in
          (0 <=? width) && (-1 <=? default 0 p) &&
          if is_int_specifier c then
            match iso_int (signed_conv c) (d_length d) args with
            | None => false
            | Some (v, _) => int_agrees d width prec v args
            end
          else
            is_none (d_length d) &&
            match c, args with
            | 115, VStr q :: _ =>
                (width =? 0) || (q =? 0) ||
                (Z.of_nat (length (match prec with Some n => take (Z.to_nat n) (strs q) | None => strs q end)) <=? 255)
            | (110 | 37), _ => bool_decide (d_flags d = []) && bool_decide (w = None) && bool_decide (p = None)
            | _, _ => true
            end
      end
  end.
(** Every directive of a format, with the arguments it finds; texts have no percent sign. *)
Fixpoint fields_agree (strs : Z -> list Z) (fs : list (list Z * directive)) (args : va_list) : bool :=
  match fs with
  | [] => true
  | (t, d) :: fs =>
      forallb (fun c => negb (c =? 37)) t && wf_directive d && agrees strs d args &&
      match iso_field strs d args with
      | Some (_, _, args) => fields_agree strs fs args
      | None => false
      end
  end.
Definition format_agrees (strs : Z -> list Z) (f : format) (args : va_list) : bool :=
  fields_agree strs (f_fields f) args && forallb (fun c => negb (c =? 37)) (f_tail f).

(** ** Parsing a directive *)

Lemma set_flag_none i c : is_flag c = false -> set_flag i c = None.
Proof. destruct i. unfold set_flag. repeat case_match; auto; discriminate. Qed.

(** The flags set by a list of characters. *)
Definition flag_in (fl : list Z) (c : Z) : bool := existsb (Z.eqb c) fl.
Lemma parse_flags_reads m : forall fl n p c r b1 b2 b3 b4 b5 s w pr sv,
  forallb is_flag fl = true -> is_flag c = false -> c <> 0 -> holds m p (fl ++ c :: r) -> (length fl <= n)%nat ->
  parse_flags_loop n m (SpecInfo b1 b2 b3 b4 b5 s w pr sv) p =
  Ok (Some (SpecInfo (b1 || flag_in fl 32) (b2 || flag_in fl 45) (b3 || flag_in fl 43) (b4 || flag_in fl 35)
    (b5 || flag_in fl 48) s w pr sv, p + Z.of_nat (length fl))).
Proof.
  induction fl as [|x fl IH]; intros n p c r b1 b2 b3 b4 b5 s w pr sv Hf Hc Hz Hh Hn.
  - apply holds_cons in Hh. destruct Hh as (E & _). destruct n; cbn [parse_flags_loop];
      rewrite E, (set_flag_none _ _ Hc); cbn; rewrite !orb_false_r, Z.add_0_r; reflexivity.
  - cbn [app forallb length] in *. apply andb_true_iff in Hf. destruct Hf as [Hx Hf].
    apply holds_cons in Hh. destruct Hh as (E & Hh). destruct n as [|n]; [lia|]. cbn [parse_flags_loop]. rewrite E.
    assert (Hz1 : m (p + 1) <> 0).
    { destruct fl as [|y fl]; apply holds_cons in Hh; destruct Hh as (-> & _); [exact Hz|].
      cbn in Hf. intros ->. discriminate. }
    unfold is_flag in Hx. rewrite !orb_true_iff, !Z.eqb_eq in Hx.
    replace (p + Z.of_nat (S (length fl))) with (p + 1 + Z.of_nat (length fl)) by lia.
    destruct Hx as [[[[->| ->]| ->]| ->]| ->]; cbn [set_flag];
      (destruct (Z.eqb_spec (m (p + 1)) 0); [contradiction|]); rewrite (IH n (p + 1) c r) by (auto; lia);
      cbn; rewrite ?orb_true_r, ?orb_true_l; reflexivity.
Qed.

Lemma is_digit_u8 c : is_digit c = true -> u8 (c - 48) = c - 48 /\ 0 <= c - 48 < 10.
Proof.
  unfold is_digit. rewrite andb_true_iff, !Z.leb_le. intros Hc. split; [apply wrap_small; unfold is_u; lia|lia].
Qed.
Lemma not_digit_u8 c : is_digit c = false -> is_u8 c -> 10 <= u8 (c - 48).
Proof.
  unfold is_digit, is_u, wrap. intros Hd Hc. destruct (Z.leb_spec 48 c), (Z.leb_spec c 57); cbn in Hd; try discriminate; dlia.
Qed.
Lemma decimal_from_ge ds : forall v, forallb is_digit ds = true -> 0 <= v ->
  v <= foldl (fun v c => v * 10 + (c - 48)) v ds.
Proof.
  induction ds as [|c ds IH]; intros v Hd Hv; cbn; [lia|]. cbn in Hd. apply andb_true_iff in Hd. destruct Hd as [Hc Hd].
  pose proof (is_digit_u8 c Hc). etransitivity; [|apply IH; auto; lia]. lia.
Qed.
Lemma read_int_reads m q : mem_ok m -> forall ds n p c r v, forallb is_digit ds = true -> is_digit c = false -> c <> 0 ->
  holds m p (ds ++ c :: r) -> (length ds <= n)%nat -> 0 <= v ->
  foldl (fun v c => v * 10 + (c - 48)) v ds <= INT32_MAX ->
  read_int_loop n m q p v = Ok (foldl (fun v c => v * 10 + (c - 48)) v ds, p + Z.of_nat (length ds)).
Proof.
  intros Hm. induction ds as [|x ds IH]; intros n p c r v Hd Hc Hz Hh Hn Hv Hb.
  - apply holds_cons in Hh. destruct Hh as (E & _). pose proof (not_digit_u8 c Hc ltac:(rewrite <- E; apply Hm)).
    destruct n; cbn [read_int_loop]; rewrite E; destruct (Z.eqb_spec c 0); try contradiction;
      (destruct (Z.leb_spec 10 (u8 (c - 48))); [|lia]); cbn; rewrite Z.add_0_r; reflexivity.
  - cbn [app forallb length foldl] in *. apply andb_true_iff in Hd. destruct Hd as [Hx Hd].
    apply holds_cons in Hh. destruct Hh as (E & Hh). destruct n as [|n]; [lia|]. cbn [read_int_loop]. rewrite E.
    pose proof (is_digit_u8 x Hx) as (-> & Hx'). destruct (Z.eqb_spec x 0); [lia|].
    destruct (Z.leb_spec 10 (x - 48)); [lia|]. pose proof (decimal_from_ge ds (v * 10 + (x - 48)) Hd ltac:(lia)).
    unfold next_int. destruct (Z.leb_spec (v * 10) INT32_MAX), (Z.leb_spec (v * 10 + (x - 48)) INT32_MAX); try lia.
    cbn [andb]. rewrite (IH n (p + 1) c r) by (auto; lia). do 2 f_equal. lia.
Qed.

(** A character that ends a number and the flags. *)
Definition follows (c : Z) : Prop := is_digit c = false /\ is_flag c = false /\ c <> 0 /\ c <> 42.

Lemma digits_head ds c r : ds = c :: r -> forallb is_digit ds = true -> c <> 0 /\ c <> 42 /\ c <> 46.
Proof.
  intros -> Hd. cbn in Hd. apply andb_true_iff in Hd. destruct Hd as [Hc _].
  apply is_digit_u8 in Hc. lia.
Qed.
Lemma decimal_bounds ds : forallb is_digit ds = true -> 0 <= decimal ds.
Proof. intros Hd. apply decimal_from_ge; auto. lia. Qed.

Lemma parse_width_reads fuel m i args p am c r w args' : mem_ok m ->
  match am with Given ds => forallb is_digit ds = true /\ decimal ds <= INT32_MAX | _ => True end ->
  iso_amount am args = Some (w, args') -> 0 <= default 0 w -> follows c ->
  holds m p (amount_chars am ++ c :: r) -> (length (amount_chars am) <= fuel)%nat ->
  parse_width fuel m i args p =
  Ok (Some (set_width i (default 0 w), args', p + Z.of_nat (length (amount_chars am)))).
Proof.
  intros Hm Hwf Ha Hw (Hc1 & _ & Hc2 & Hc3) Hh Hf. unfold parse_width.
  assert (D : forall ds, forallb is_digit ds = true -> decimal ds <= INT32_MAX -> holds m p (ds ++ c :: r) ->
    (length ds <= fuel)%nat ->
    (r ← (if negb (m p =? 42) then
            '(w, iter) ← read_int_from_fmt_string fuel m p;
            if w =? -1 then Ok None else Ok (Some (set_width i (u32 w), args, iter))
          else '(value, args) ← va_int args;
               Ok (Some (set_width i (if 0 <=? value then u32 value else 0), args, p + 1)));
     match r with
     | None => Ok None
     | Some (i, args, iter) => if m iter =? 0 then Ok None else Ok (Some (i, args, iter))
     end) = Ok (Some (set_width i (decimal ds), args, p + Z.of_nat (length ds)))).
  { intros ds Hd Hb Hh' Hf'. pose proof (decimal_bounds ds Hd) as Hd0.
    assert (m p <> 42) as H42.
    { destruct ds as [|x ds]; apply holds_cons in Hh'; destruct Hh' as (-> & _); [auto|].
      eapply digits_head in Hd; [|reflexivity]. lia. }
    destruct (Z.eqb_spec (m p) 42); [contradiction|]. cbn [negb]. unfold read_int_from_fmt_string.
    rewrite (read_int_reads m p Hm ds fuel p c r 0) by (auto; lia). fold (decimal ds). cbn [mbind outcome_bind].
    destruct (Z.eqb_spec (decimal ds) (-1)); [lia|]. cbn [mbind outcome_bind].
    apply holds_app in Hh'. destruct Hh' as (_ & Hh'). apply holds_cons in Hh'. destruct Hh' as (-> & _).
    destruct (Z.eqb_spec c 0); [contradiction|]. rewrite wrap_small by (unfold is_u, INT32_MAX in *; lia). reflexivity. }
  destruct am as [|ds|]; cbn [amount_chars iso_amount] in *.
  - injection Ha as <- <-. apply (D []); auto. unfold INT32_MAX, decimal. cbn. lia.
  - injection Ha as <- <-. destruct Hwf. apply D; auto.
  - destruct args as [|[z| | | |] args]; try discriminate. injection Ha as <- <-. cbn [default] in Hw.
    apply holds_cons in Hh. destruct Hh as (E & Hh). apply holds_cons in Hh. destruct Hh as (E1 & _).
    rewrite E. cbn [Z.eqb Pos.eqb negb va_int mbind outcome_bind]. rewrite E1. destruct (Z.eqb_spec c 0); [contradiction|].
    cbn [default length]. destruct (Z.leb_spec 0 (i32 z)); [|cbn in Hw; unfold default in Hw; cbn in *; lia].
    assert (Hi : i32 z < 2 ^ 31).
    { pose proof (wrap_bound 32 z ltac:(lia)) as Hb. unfold is_u in Hb. unfold to_signed. destruct (Z.ltb_spec (u32 z) (2 ^ (32 - 1))); lia. }
    rewrite wrap_small by (unfold is_u; lia). reflexivity.
Qed.

Lemma parse_precision_reads fuel m i args p am c r w args' : mem_ok m ->
  match am with Given ds => forallb is_digit ds = true /\ decimal ds <= INT32_MAX | _ => True end ->
  iso_amount am args = Some (w, args') -> follows c -> c <> 46 ->
  holds m p (precision_chars am ++ c :: r) -> (length (amount_chars am) <= fuel)%nat ->
  parse_precision fuel m i args p =
  Ok (Some (set_precision i (default (-1) w), args', p + Z.of_nat (length (precision_chars am)))).
Proof.
  intros Hm Hwf Ha (Hc1 & _ & Hc2 & Hc3) H46 Hh Hf. unfold parse_precision.
  destruct am as [|ds|]; cbn [precision_chars iso_amount amount_chars app] in *; apply holds_cons in Hh; destruct Hh as (-> & Hh).
  - injection Ha as <- <-. destruct (Z.eqb_spec c 46); [contradiction|]. cbn. rewrite Z.add_0_r. reflexivity.
  - injection Ha as <- <-. destruct Hwf as (Hd & Hb). cbn [Z.eqb Pos.eqb negb default].
    assert (m (p + 1) <> 0 /\ m (p + 1) <> 42) as (Hz & H42).
    { destruct ds as [|x ds]; apply holds_cons in Hh; destruct Hh as (-> & _); [auto|].
      eapply digits_head in Hd; [|reflexivity]. lia. }
    destruct (Z.eqb_spec (m (p + 1)) 0); [contradiction|]. destruct (Z.eqb_spec (m (p + 1)) 42); [contradiction|].
    unfold read_int_from_fmt_string. rewrite (read_int_reads m (p + 1) Hm ds fuel (p + 1) c r 0) by (auto; lia).
    fold (decimal ds). cbn [mbind outcome_bind]. pose proof (decimal_bounds ds Hd).
    destruct (Z.eqb_spec (decimal ds) (-1)); [lia|].
    apply holds_app in Hh. destruct Hh as (_ & Hh). apply holds_cons in Hh. destruct Hh as (-> & _).
    destruct (Z.eqb_spec c 0); [contradiction|]. cbn. do 3 f_equal. lia.
  - destruct args as [|[z| | | |] args]; try discriminate. injection Ha as <- <-. apply holds_cons in Hh.
    destruct Hh as (-> & Hh). apply holds_cons in Hh. destruct Hh as (-> & _). cbn [Z.eqb Pos.eqb negb va_int mbind outcome_bind].
    destruct (Z.eqb_spec c 0); [contradiction|]. cbn. do 3 f_equal. lia.
Qed.

Lemma conv_cases c : existsb (Z.eqb c) conversions = true ->
  c = 98 \/ c = 66 \/ c = 100 \/ c = 105 \/ c = 117 \/ c = 111 \/ c = 120 \/ c = 88 \/ c = 99 \/ c = 115 \/
  c = 112 \/ c = 110 \/ c = 37.
Proof. cbn. rewrite !orb_true_iff, !Z.eqb_eq. intuition discriminate. Qed.
Ltac each_conv H := apply conv_cases in H; repeat (destruct H as [H|H]); try subst.

(** The number a length modifier reads, as the engine passes it on. *)
Definition length_number (lm : length_modifier) (args : va_list) : option (Z * va_list) :=
  match lm, args with
  | (Lhh | Lh), VInt z :: args => Some (u64 (i32 z), args)
  | (Ll | Lll | Lj | Lz | Lt), VLong z :: args => Some (u64 z, args)
  | _, _ => None
  end.

Lemma parse_length_none lit m i args p c r : existsb (Z.eqb c) conversions = true -> holds m p (c :: r) ->
  parse_length lit m i args p = Ok (Some (set_length_sv i (SV_EMPTY lit), p, args, 0, false)).
Proof.
  intros Hc Hh. apply holds_cons in Hh. destruct Hh as (E & _). unfold parse_length. rewrite E. each_conv Hc; reflexivity.
Qed.
Lemma parse_length_reads lit m i args p lm c r n args' : existsb (Z.eqb c) conversions = true ->
  length_number lm args = Some (n, args') -> holds m p (length_chars lm ++ c :: r) -> 1 <= p -> p + 2 < 2 ^ 64 ->
  exists sv, sv_length sv <> 0 /\
    parse_length lit m i args p =
    Ok (Some (set_length_sv i sv, p + Z.of_nat (length (length_chars lm)), args', n, n =? 0)).
Proof.
  intros Hc Hn Hh Hp Hp3.
  destruct lm; try discriminate; destruct args as [|[z|z| | |] args]; try discriminate; injection Hn as <- <-;
    cbn [length_chars app length] in *; rewrite ?holds_cons in Hh; decompose [and] Hh; unfold parse_length;
    repeat match goal with E : m _ = _ |- _ => rewrite E; clear E end; cbn [va_int va_long mbind outcome_bind];
    rewrite ?sv_create_length_fine by lia; cbn [mbind outcome_bind];
    repeat match goal with |- context [match c with _ => _ end] => each_conv Hc end;
    cbn [mbind outcome_bind]; rewrite ?sv_create_length_fine by lia; cbn [mbind outcome_bind];
    (eexists; split; [|tuple_eq]); cbn; lia.
Qed.

Definition info_of (d : directive) (w p : Z) (sv : string_view) : printf_spec_info :=
  SpecInfo (has_flag d 32) (has_flag d 45) (has_flag d 43) (has_flag d 35) (has_flag d 48) 0 w p sv.

Lemma wf_directive_parts d : wf_directive d = true ->
  forallb is_flag (d_flags d) = true /\
  match d_width d with
  | Given ds => match ds with c :: _ => c <> 48 | [] => False end /\ forallb is_digit ds = true /\ decimal ds <= INT32_MAX
  | _ => True
  end /\
  match d_precision d with Given ds => forallb is_digit ds = true /\ decimal ds <= INT32_MAX | _ => True end /\
  existsb (Z.eqb (d_conv d)) conversions = true.
Proof.
  unfold wf_directive. rewrite !andb_true_iff. intros (((Hf & Hw) & Hp) & Hc). split; [exact Hf|]. split; [|split; [|exact Hc]].
  - destruct (d_width d) as [|ds|]; auto. rewrite !andb_true_iff, negb_true_iff, Z.leb_le in Hw.
    destruct Hw as ((Hh & Hd) & Hb). split; [|auto]. destruct ds; [discriminate|]. apply Z.eqb_neq, Hh.
  - destruct (d_precision d) as [|ds|]; auto. rewrite andb_true_iff, Z.leb_le in Hp. exact Hp.
Qed.
Lemma conv_follows c : existsb (Z.eqb c) conversions = true -> follows c /\ c <> 46.
Proof. intros Hc. unfold follows. each_conv Hc; cbn; split_and?; congruence. Qed.

(** What follows the precision begins with a letter, and what follows the width with a
    letter or a dot. *)
Lemma tail_follows d : existsb (Z.eqb (d_conv d)) conversions = true ->
  exists c r, length_chars (d_length d) ++ [d_conv d] = c :: r /\ follows c /\ c <> 46.
Proof.
  intros Hc. destruct (d_length d); cbn [length_chars app];
    [exists (d_conv d), []; split; [reflexivity|apply conv_follows, Hc]|..];
    eexists _, _; (split; [reflexivity|]); unfold follows; cbn; split_and?; congruence.
Qed.
Lemma width_follows d : existsb (Z.eqb (d_conv d)) conversions = true ->
  exists c r, precision_chars (d_precision d) ++ length_chars (d_length d) ++ [d_conv d] = c :: r /\ follows c.
Proof.
  intros Hc. destruct (tail_follows d Hc) as (c & r & E & Hf & _). destruct (d_precision d); cbn [precision_chars app];
    [exists c, r; auto|..]; eexists _, _; (split; [reflexivity|]); unfold follows; cbn; split_and?; congruence.
Qed.
(** The first character after the flags is no flag. *)
Lemma flags_follow d : wf_directive d = true ->
  exists c r, amount_chars (d_width d) ++ precision_chars (d_precision d) ++ length_chars (d_length d) ++ [d_conv d] = c :: r /\
    is_flag c = false /\ c <> 0.
Proof.
  intros Hwf. apply wf_directive_parts in Hwf. destruct Hwf as (_ & Hw & _ & Hc).
  destruct (width_follows d Hc) as (c & r & E & (_ & Hf & Hz & _)).
  destruct (d_width d) as [|[|x ds]|]; cbn [amount_chars app]; [exists c, r; auto|destruct Hw; contradiction| |];
    eexists _, _; (split; [reflexivity|]); [|split; [reflexivity|discriminate]].
  destruct Hw as (Hx & Hd & _). cbn in Hd. apply andb_true_iff in Hd. destruct Hd as [Hd _].
  unfold is_digit in Hd. rewrite andb_true_iff, !Z.leb_le in Hd. split; [|lia].
  unfold is_flag. zcase; try reflexivity; lia.
Qed.

Lemma parse_spec_reads fuel lit m d args p r w args1 pr args2 : mem_ok m -> wf_directive d = true ->
  iso_amount (d_width d) args = Some (w, args1) -> iso_amount (d_precision d) args1 = Some (pr, args2) ->
  0 <= default 0 w -> holds m p (directive_chars d ++ r) -> (length (directive_chars d) <= fuel)%nat ->
  1 <= p -> p + Z.of_nat (length (directive_chars d)) < 2 ^ 64 ->
  let q := p + Z.of_nat (length (directive_chars d)) - 1 in
  m q = d_conv d /\
  (d_length d = LNone ->
   parse_spec fuel lit m args p =
   Ok (Some (info_of d (default 0 w) (default (-1) pr) (SV_EMPTY lit), q, args2, 0, false))) /\
  (forall n args3, length_number (d_length d) args2 = Some (n, args3) -> exists sv, sv_length sv <> 0 /\
   parse_spec fuel lit m args p =
   Ok (Some (info_of d (default 0 w) (default (-1) pr) sv, q, args3, n, n =? 0))).
Proof.
  intros Hm Hwf Hw Hp Hw0 Hh Hf Hp1 Hp2. cbn zeta. pose proof (wf_directive_parts d Hwf) as (Hfl & Hwd & Hpd & Hc).
  unfold directive_chars in *. rewrite <- !app_assoc in Hh. rewrite !length_app in *. cbn [length] in *.
  set (fl := d_flags d) in *. set (wc := amount_chars (d_width d)) in *. set (pc := precision_chars (d_precision d)) in *.
  set (lc := length_chars (d_length d)) in *.
  match goal with |- m ?x = _ /\ _ => set (q := x) end.
  pose proof Hh as H1. apply holds_app in H1. destruct H1 as (_ & H1).
  pose proof H1 as H2. apply holds_app in H2. destruct H2 as (_ & H2).
  pose proof H2 as H3. apply holds_app in H3. destruct H3 as (_ & H3).
  pose proof H3 as H4. apply holds_app in H4. destruct H4 as (_ & H4). apply holds_cons in H4. destruct H4 as (Eq & _).
  replace (p + Z.of_nat (length fl) + Z.of_nat (length wc) + Z.of_nat (length pc) + Z.of_nat (length lc)) with q in Eq by lia.
  split; [exact Eq|].
  destruct (flags_follow d Hwf) as (c1 & r1 & E1 & F1 & Z1). destruct (width_follows d Hc) as (c2 & r2 & E2 & F2).
  destruct (tail_follows d Hc) as (c3 & r3 & E3 & F3 & N3). fold wc pc lc in E1, E2, E3.
  assert (S : parse_spec fuel lit m args p =
    parse_length lit m (info_of d (default 0 w) (default (-1) pr) (SV_EMPTY lit)) args2
      (p + Z.of_nat (length fl) + Z.of_nat (length wc) + Z.of_nat (length pc))).
  { unfold parse_spec, parse_flags, PRINTF_SPEC_INFO_INIT.
    rewrite (parse_flags_reads m fl fuel p c1 (r1 ++ r)); auto; [| |lia].
    2: { replace (fl ++ c1 :: r1 ++ r) with (fl ++ (c1 :: r1) ++ r) by reflexivity. rewrite <- E1, <- !app_assoc. exact Hh. }
    cbn [mbind outcome_bind orb].
    rewrite (parse_width_reads fuel m _ args _ (d_width d) c2 (r2 ++ r) w args1); auto; [|destruct (d_width d); tauto| |fold wc; lia].
    2: { fold wc. replace (wc ++ c2 :: r2 ++ r) with (wc ++ (c2 :: r2) ++ r) by reflexivity. rewrite <- E2, <- !app_assoc. exact H1. }
    cbn [mbind outcome_bind].
    rewrite (parse_precision_reads fuel m _ args1 _ (d_precision d) c3 (r3 ++ r) pr args2); auto.
    - fold pc. replace (pc ++ c3 :: r3 ++ r) with (pc ++ (c3 :: r3) ++ r) by reflexivity. rewrite <- E3, <- !app_assoc. exact H2.
    - unfold pc in Hf. destruct (d_precision d); cbn [precision_chars amount_chars length] in *; lia. }
  split.
  - intros El. rewrite S. unfold lc in *. rewrite El in *. cbn [length_chars app length] in *.
    rewrite (parse_length_none lit m _ args2 _ (d_conv d) r Hc H3).
    assert (Hq : q = p + Z.of_nat (length fl) + Z.of_nat (length wc) + Z.of_nat (length pc))
      by (unfold q; rewrite ?El; cbn [length_chars length]; lia).
    rewrite Hq. reflexivity.
  - intros n args3 Hn.
    assert (1 <= length lc)%nat as Hl1 by (unfold lc; destruct (d_length d); cbn; try lia; discriminate).
    destruct (parse_length_reads lit m (info_of d (default 0 w) (default (-1) pr) (SV_EMPTY lit)) args2
      (p + Z.of_nat (length fl) + Z.of_nat (length wc) + Z.of_nat (length pc)) (d_length d) (d_conv d) r n args3) as (sv & Hsv & E); auto; try lia.
    exists sv. split; [exact Hsv|]. rewrite S, E. unfold q. fold lc. tuple_eq.
Qed.

(** ** The padding of an integer *)

Definition the_sign (sgn : list Z) : Prop := sgn = [] \/ sgn = [43] \/ sgn = [45].
Definition plain_digits (ds : list Z) : Prop :=
  match ds with c :: _ => is_sign c = false | [] => False end /\ Z.of_nat (length ds) <= 71.

Lemma first_char m parsed pc : shows m parsed pc -> pc <> [] -> m (sv_begin parsed) = default 0 (head pc).
Proof. destruct pc as [|c pc]; [contradiction|]. intros (Hh & _) _. apply holds_cons in Hh. apply Hh. Qed.
Lemma sign_begins sgn ds : the_sign sgn -> plain_digits ds ->
  default 0 (head (sgn ++ ds)) = 45 \/ default 0 (head (sgn ++ ds)) = 43 <-> sgn <> [].
Proof.
  intros Hs (Hd & _). destruct ds as [|c ds]; [contradiction|]. unfold is_sign in Hd.
  destruct Hs as [->|[->| ->]]; cbn; zcase; try discriminate; split; intuition (try lia; try discriminate).
Qed.
Lemma begins_with_sign m parsed sgn ds : shows m parsed (sgn ++ ds) -> the_sign sgn -> plain_digits ds ->
  ((m (sv_begin parsed) =? 45) || (m (sv_begin parsed) =? 43)) = negb (bool_decide (sgn = [])).
Proof.
  intros V Hs Hd. rewrite (first_char _ _ _ V).
  2: { destruct Hd as (Hd & _). destruct ds; [contradiction|]. destruct sgn; discriminate. }
  pose proof (sign_begins sgn ds Hs Hd) as B. destruct (bool_decide_reflect (sgn = [])); zcase; cbn; try reflexivity; tauto.
Qed.

Definition int_prefix_length (i : printf_spec_info) : Z :=
  if add_base_prefix i then
    match spec i with 98 | 66 | 120 | 88 => 2 | 111 => 1 | _ => 0 end
  else 0.
Lemma prefix_text_length i : Z.of_nat (length (prefix_text i)) = int_prefix_length i /\ 0 <= int_prefix_length i <= 2.
Proof. unfold prefix_text, int_prefix_length. destruct (add_base_prefix i); [|cbn; lia]. repeat case_match; cbn; lia. Qed.

(** The length of the number with its prefix and the zeros of the precision, and the counts. *)
Definition missing_digits (p : Z) (ds : list Z) : Z := if p =? -1 then 0 else Z.max 0 (p - Z.of_nat (length ds)).
Definition core_length (i : printf_spec_info) (sgn ds : list Z) (sw : bool) : Z :=
  if sw then Z.of_nat (length sgn) + Z.of_nat (length ds) + int_prefix_length i + missing_digits (precision i) ds else 0.

Lemma padding_int i m parsed sgn ds sw : is_int_specifier (spec i) = true -> shows m parsed (sgn ++ ds) ->
  the_sign sgn -> plain_digits ds -> 0 <= width i < 2 ^ 31 -> -1 <= precision i <= 252 ->
  (sw = false -> precision i = 0) ->
  let core := core_length i sgn ds sw in
  let space := if negb (core =? 0) && add_one_space_for_sign i && bool_decide (sgn = []) then 1 else 0 in
  let missing := missing_digits (precision i) ds in
  padding i m parsed sw =
  if core <? width i then
    if leftpad_zeros i && (precision i =? -1) && negb (left_justify i) then (width i - core, space)
    else (missing, space + (width i - core))
  else (missing, space).
Proof.
  intros Hi V Hs Hd Hw Hp Hsw core space missing. unfold padding. cbn zeta. rewrite Hi.
  pose proof (begins_with_sign _ _ _ _ V Hs Hd) as B. pose proof V as (_ & El & _). rewrite length_app in El.
  destruct Hd as (Hd1 & Hd2). assert (1 <= length ds)%nat as Hd3 by (destruct ds; [contradiction|cbn; lia]).
  assert (Hsl : Z.of_nat (length sgn) = if bool_decide (sgn = []) then 0 else 1).
  { destruct Hs as [->|[->| ->]]; reflexivity. }
  assert (B' : negb (m (sv_begin parsed) =? 43) && negb (m (sv_begin parsed) =? 45) = bool_decide (sgn = [])).
  { rewrite <- negb_orb, orb_comm, B, negb_involutive. reflexivity. }
  assert (B2 : forall x, x && negb (m (sv_begin parsed) =? 43) && negb (m (sv_begin parsed) =? 45) = x && bool_decide (sgn = []))
    by (intros x; rewrite <- andb_assoc, B'; reflexivity).
  rewrite El. rewrite !(wrap_small 8 (Z.of_nat (length sgn + length ds))) by (unfold is_u; destruct (bool_decide _); lia).
  set (pl := if sw then _ else 0).
  assert (Hpl : pl = if sw then Z.of_nat (length sgn + length ds) + int_prefix_length i else 0).
  { unfold pl, int_prefix_length. destruct sw, (add_base_prefix i); try lia;
    repeat case_match; rewrite ?wrap_small; unfold is_u; try lia; destruct (bool_decide _); lia. }
  pose proof (prefix_text_length i) as (_ & HP). clearbody pl.
  set (total := if _ || _ then _ else _). assert (Ht : total = Z.of_nat (length ds)).
  { unfold total. rewrite B. destruct (bool_decide (sgn = [])); cbn [negb]; rewrite ?wrap_small; unfold is_u; lia. }
  rewrite Ht. clear total Ht.
  match goal with |- (match ?t with pair _ _ => _ end) = _ => assert (T : t = (missing, core, space)) end.
  { unfold space, core, core_length, missing, missing_digits. destruct (Z.eqb_spec (precision i) (-1)) as [E|E]; cbn [negb].
    - replace (if sw then Z.of_nat (length sgn) + Z.of_nat (length ds) + int_prefix_length i + 0 else 0) with pl
        by (rewrite Hpl; destruct sw; lia). rewrite B2. reflexivity.
    - destruct (Z.ltb_spec (Z.of_nat (length ds)) (precision i)).
      + assert (Hsw1 : sw = true) by (destruct sw; [reflexivity|specialize (Hsw eq_refl); lia]). rewrite Hsw1 in *.
        rewrite (wrap_small 32) by (unfold is_u; lia).
        rewrite (wrap_small 8) by (unfold is_u; destruct (bool_decide _); lia). rewrite Hpl.
        replace (Z.max 0 (precision i - Z.of_nat (length ds))) with (precision i - Z.of_nat (length ds)) by lia.
        replace (Z.of_nat (length sgn + length ds)) with (Z.of_nat (length sgn) + Z.of_nat (length ds)) by lia. rewrite B2. reflexivity.
      + replace (Z.max 0 (precision i - Z.of_nat (length ds))) with 0 by lia.
        replace (if sw then Z.of_nat (length sgn) + Z.of_nat (length ds) + int_prefix_length i + 0 else 0) with pl
          by (rewrite Hpl; destruct sw; lia). rewrite B2. reflexivity. }
  rewrite T. clear T. assert (Hsp : 0 <= space <= 1) by (unfold space; destruct (_ && _); lia).
  destruct (Z.ltb_spec core (width i)); [|reflexivity]. rewrite andb_true_r.
  assert (0 <= core) by (unfold core, core_length, missing_digits; destruct sw; [|lia]; destruct (_ =? -1); lia).
  rewrite (wrap_small 32) by (unfold is_u; lia). reflexivity.
Qed.

(** ** The field of an integer *)

Lemma lead_text sgn ds n : the_sign sgn -> plain_digits ds ->
  lead (sgn ++ ds) n ++ after_lead (sgn ++ ds) n = sgn ++ replicate (Z.to_nat n) 48 ++ ds.
Proof.
  intros Hs (Hd & _). unfold lead, after_lead. destruct (Z.eqb_spec n 0) as [->|]; [reflexivity|].
  destruct ds as [|c ds]; [contradiction|].
  destruct Hs as [->|[->| ->]]; cbn [app sign_of unsign is_sign]; [rewrite Hd|..]; cbn; rewrite <- ?app_assoc; reflexivity.
Qed.

(** The sign the engine prints, and the one ISO C asks for. *)
Definition code_sign (d : directive) (v : Z) : list Z :=
  if v <? 0 then [45] else if signed_conv (d_conv d) && has_flag d 43 then [43] else [].
Definition iso_sign (d : directive) (v : Z) : list Z :=
  if v <? 0 then [45]
  else if signed_conv (d_conv d) && has_flag d 43 then [43]
  else if signed_conv (d_conv d) && has_flag d 32 then [32] else [].
Lemma code_sign_sign d v : the_sign (code_sign d v).
Proof. unfold code_sign, the_sign. repeat case_match; auto. Qed.

Lemma prefix_signed d w p sv : signed_conv (d_conv d) = true ->
  prefix_text (set_spec (info_of d w p sv) (d_conv d)) = [].
Proof.
  unfold signed_conv, prefix_text. cbn [add_base_prefix spec set_spec info_of].
  rewrite orb_true_iff, !Z.eqb_eq. intros [-> | ->]; destruct (has_flag d 35); reflexivity.
Qed.

(** The prefix of ISO C is the one the engine writes. *)
Lemma prefix_agrees d w p sv v (ds : list Z) missing (prec : option Z) :
  is_int_specifier (d_conv d) = true ->
  negb (has_flag d 35 && is_prefixed (d_conv d)) || (negb (v =? 0) && (negb (d_conv d =? 111) || bool_decide (prec = None))) = true ->
  (v <> 0 -> head ds <> Some 48) -> (prec = None -> missing = 0) ->
  (if has_flag d 35 then
     if d_conv d =? 111 then
       (if bool_decide (head (replicate (Z.to_nat missing) 48 ++ ds) = Some 48) then [] else [48])
     else if v =? 0 then [] else conv_prefix (d_conv d)
   else []) = prefix_text (set_spec (info_of d w p sv) (d_conv d)).
Proof.
  intros Hi Ha Hd Hm. unfold prefix_text. cbn [add_base_prefix spec set_spec info_of]. destruct (has_flag d 35); [|reflexivity].
  cbn [andb] in Ha. unfold is_int_specifier in Hi. rewrite !orb_true_iff, !Z.eqb_eq in Hi.
  destruct (Z.eqb_spec v 0) as [->|Hv]; cbn [negb andb] in Ha.
  - rewrite orb_false_r, negb_true_iff in Ha. unfold is_prefixed in Ha. rewrite !orb_false_iff, !Z.eqb_neq in Ha.
    destruct Hi as [[[[[[[E|E]|E]|E]|E]|E]|E]|E]; rewrite E in *; try lia; reflexivity.
  - destruct Hi as [[[[[[[E|E]|E]|E]|E]|E]|E]|E]; rewrite E in *; try reflexivity.
    cbn in Ha. rewrite bool_decide_eq_true in Ha. rewrite (Hm Ha). cbn [Z.to_nat replicate app Z.eqb Pos.eqb].
    rewrite bool_decide_eq_false_2; [reflexivity|auto].
Qed.

Definition int_info (d : directive) (w p : Z) (sv : string_view) := set_spec (info_of d w p sv) (d_conv d).
Definition code_precision (prec : option Z) : Z := default (-1) prec.

(** Nothing is printed for a zero with precision 0. *)
Lemma empty_field_iso d w sv v args zeros spaces : is_int_specifier (d_conv d) = true -> 0 <= w ->
  int_agrees d w (Some 0) v args = true -> v = 0 ->
  (zeros, spaces) = (if 0 <? w then (0, w) else (0, 0)) ->
  forall pc, field_text (int_info d w 0 sv) pc zeros spaces false false = iso_integer d (has_flag d 45) w (Some 0) v.
Proof.
  intros Hi Hw Ha -> Hz pc. unfold int_agrees in Ha. rewrite !andb_true_iff in Ha. destruct Ha as ((((_ & Hsp) & Hpl) & Hpr) & _).
  cbn [Z.eqb andb] in *. rewrite bool_decide_eq_true_2 in * by reflexivity. cbn [andb negb Z.ltb Z.compare orb] in *.
  rewrite orb_false_r in Hpr. unfold iso_integer. cbn [Z.ltb Z.compare Z.eqb].
  rewrite !(bool_decide_eq_true_2 (Some 0 = Some 0)) by reflexivity. cbn [andb].
  assert (Hsign : (if signed_conv (d_conv d) && has_flag d 43 then [43]
    else if signed_conv (d_conv d) && has_flag d 32 then [32] else []) = ([] : list Z)).
  { destruct (signed_conv (d_conv d)), (has_flag d 43), (has_flag d 32); cbn in *; rewrite ?andb_false_r in *;
      try discriminate; reflexivity. }
  rewrite Hsign. clear Hsign.
  rewrite (prefix_agrees d w 0 sv 0 [] _ (Some 0) Hi) by (auto; try discriminate; rewrite Hpr; reflexivity).
  assert (Hp : prefix_text (set_spec (info_of d w 0 sv) (d_conv d)) = []).
  { unfold prefix_text. cbn [add_base_prefix spec set_spec info_of]. destruct (has_flag d 35); [|reflexivity].
    cbn in Hpr. unfold is_prefixed in Hpr. rewrite negb_true_iff, !orb_false_iff, !Z.eqb_neq in Hpr. repeat case_match; try reflexivity; lia. }
  unfold field_text, body_text.
  change (left_justify (int_info d w 0 sv)) with (has_flag d 45). unfold int_info. rewrite Hp.
  cbn [app length replicate Z.to_nat]. unfold iso_pad. cbn [length]. rewrite Z.sub_0_r.
  assert (E : zeros = 0 /\ Z.to_nat spaces = Z.to_nat w) by (destruct (Z.ltb_spec 0 w); injection Hz as -> ->; lia).
  destruct E as (-> & ->). unfold lead. cbn [Z.eqb].
  change (Z.to_nat 0) with 0%nat. cbn [replicate length app Z.of_nat]. rewrite ?Z.sub_0_r, ?app_nil_r.
  destruct (has_flag d 45); reflexivity.
Qed.

Lemma iso_integer_full d minus w prec v : (v =? 0) && bool_decide (prec = Some 0) = false ->
  is_int_specifier (d_conv d) = true ->
  let ds := digits_of (conv_base (d_conv d)) (conv_options (d_conv d)) (Z.abs v) in
  (v <> 0 -> head ds <> Some 48) ->
  negb (has_flag d 35 && is_prefixed (d_conv d)) || (negb (v =? 0) && (negb (d_conv d =? 111) || bool_decide (prec = None))) = true ->
  forall p sv, let pre := prefix_text (int_info d w p sv) in
  iso_integer d minus w prec v =
  iso_pad minus w (iso_sign d v ++ pre ++ replicate (Z.to_nat
    (match prec with
     | Some n => n - Z.of_nat (length ds)
     | None => if has_flag d 48 && negb minus then w - Z.of_nat (length (iso_sign d v ++ pre ++ ds)) else 0
     end)) 48 ++ ds).
Proof.
  intros He Hi ds Hd Ha p sv pre. unfold iso_integer. cbn zeta. fold (iso_sign d v). rewrite He. fold ds.
  rewrite (prefix_agrees d w p sv v ds (match prec with Some p => p - Z.of_nat (length ds) | None => 0 end) prec Hi Ha Hd)
    by (intros ->; reflexivity).
  fold (int_info d w p sv). destruct prec; reflexivity.
Qed.

Lemma replicate_neg (z c : Z) : z <= 0 -> replicate (Z.to_nat z) c = [].
Proof. intros Hz. replace (Z.to_nat z) with 0%nat by lia. reflexivity. Qed.

Section IntField.
Context (d : directive) (w : Z) (prec : option Z) (sv : string_view) (v : Z) (args : va_list).
Context (Hi : is_int_specifier (d_conv d) = true) (Hw : 0 <= w) (Ha : int_agrees d w prec v args = true).
Context (He : (v =? 0) && bool_decide (prec = Some 0) = false).
Context (Hp : match prec with Some p => 0 <= p | None => True end) (Hun : signed_conv (d_conv d) = false -> 0 <= v).
Let ds := digits_of (conv_base (d_conv d)) (conv_options (d_conv d)) (Z.abs v).
Context (Hpd : plain_digits ds) (Hd : v <> 0 -> head ds <> Some 48).
Let i := int_info d w (code_precision prec) sv.
Let sgn := code_sign d v.
Let missing := missing_digits (code_precision prec) ds.
Let core := core_length i sgn ds true.
Let iso_zeros sign := match prec with
  | Some n => n - Z.of_nat (length ds)
  | None => if has_flag d 48 && negb (has_flag d 45)
            then w - Z.of_nat (length (sign ++ prefix_text i ++ ds)) else 0
  end.

Lemma int_iso : iso_integer d (has_flag d 45) w prec v =
  iso_pad (has_flag d 45) w (iso_sign d v ++ prefix_text i ++ replicate (Z.to_nat (iso_zeros (iso_sign d v))) 48 ++ ds).
Proof.
  unfold int_agrees in Ha. rewrite !andb_true_iff in Ha. destruct Ha as ((_ & Hpr) & _).
  apply (iso_integer_full d (has_flag d 45) w prec v He Hi Hd Hpr (code_precision prec) sv).
Qed.
Lemma int_text zeros spaces : field_text i (sgn ++ ds) zeros spaces false true =
  let t := prefix_text i ++ sgn ++ replicate (Z.to_nat zeros) 48 ++ ds in
  let sp := replicate (Z.to_nat spaces) 32 in if has_flag d 45 then t ++ sp else sp ++ t.
Proof.
  unfold field_text. replace (body_text i (sgn ++ ds) zeros false true) with
    (prefix_text i ++ sgn ++ replicate (Z.to_nat zeros) 48 ++ ds); [reflexivity|].
  unfold body_text. rewrite <- app_assoc, lead_text by (auto; apply code_sign_sign). reflexivity.
Qed.
Lemma int_missing : match prec with Some n => Z.to_nat (n - Z.of_nat (length ds)) = Z.to_nat missing | None => missing = 0 end
  /\ 0 <= missing.
Proof.
  unfold missing, missing_digits, code_precision. destruct prec as [n|]; cbn; [|lia].
  destruct (Z.eqb_spec n (-1)); lia.
Qed.
Lemma int_core : core = Z.of_nat (length (prefix_text i ++ sgn ++ ds)) + missing /\ (1 <= length ds)%nat.
Proof.
  pose proof (prefix_text_length i) as (HP & HP2). split.
  - unfold core, core_length. rewrite !length_app. change (precision i) with (code_precision prec). fold missing. lia.
  - destruct Hpd as (Hpd' & _). destruct ds; [contradiction|cbn; lia].
Qed.

(** A space in the place of the sign. *)
Lemma spaced_field : has_flag d 32 = true -> sgn = [] ->
  w = 0 /\ 0 < core /\ field_text i (sgn ++ ds) missing 1 false true = iso_integer d (has_flag d 45) w prec v.
Proof.
  intros H32 Hcs. rewrite int_iso, int_text. cbn zeta. pose proof int_core as (Hcore & Hd1). pose proof int_missing as Hm.
  unfold int_agrees in Ha. rewrite !andb_true_iff in Ha. destruct Ha as ((((_ & Hsp) & _) & _) & _).
  rewrite He, H32 in Hsp. cbn [negb orb] in Hsp. rewrite andb_true_r in Hsp. pose proof Hcs as Hcs'. unfold sgn, code_sign in Hcs'.
  destruct (v <? 0) eqn:Ev; [discriminate|]. destruct (signed_conv (d_conv d)) eqn:Esg; [|discriminate].
  destruct (has_flag d 43) eqn:E43; [discriminate|]. cbn [orb andb] in *. rewrite andb_true_iff, negb_true_iff, Z.eqb_eq in Hsp.
  destruct Hsp as (E45 & Hw0). split; [exact Hw0|].
  assert (Epre : prefix_text i = []) by (apply prefix_signed, Esg). rewrite Epre, Hcs in *. cbn [app length] in *.
  split; [lia|]. rewrite E45. unfold iso_sign, iso_zeros. rewrite Ev, Esg, E43, H32, Epre, Hw0. cbn [andb app negb].
  match goal with |- context [replicate (Z.to_nat (match prec with Some _ => _ | None => ?z end)) 48] =>
    assert (E : Z.to_nat (match prec with Some n => n - Z.of_nat (length ds) | None => z end) = Z.to_nat missing) end.
  { destruct prec as [n|]; [apply Hm|]. destruct Hm as (-> & _). rewrite ?E45. destruct (has_flag d 48); cbn [andb negb length]; lia. }
  rewrite E. unfold iso_pad. rewrite (replicate_neg (0 - _)) by (cbn [length]; lia). reflexivity.
Qed.

(** Otherwise the sign is the one of ISO C, and the number is padded to the width. *)
Lemma unspaced_field zeros spaces : ~ (has_flag d 32 = true /\ sgn = []) ->
  (zeros, spaces) =
  (if core <? w then
     if has_flag d 48 && (code_precision prec =? -1) && negb (has_flag d 45) then (w - core, 0)
     else (missing, w - core)
   else (missing, 0)) ->
  field_text i (sgn ++ ds) zeros spaces false true = iso_integer d (has_flag d 45) w prec v.
Proof.
  intros Hns Hz. rewrite int_iso, int_text. cbn zeta. pose proof int_core as (Hcore & Hd1). pose proof int_missing as Hm.
  assert (His : iso_sign d v = sgn).
  { unfold iso_sign, sgn, code_sign in *. destruct (v <? 0); [reflexivity|]. destruct (signed_conv _ && has_flag d 43); [reflexivity|].
    destruct (has_flag d 32); [tauto|]. rewrite andb_false_r. reflexivity. }
  assert (Hcomm : forall t, sgn ++ prefix_text i ++ t = prefix_text i ++ sgn ++ t).
  { intros t. destruct (signed_conv (d_conv d)) eqn:Esg.
    - assert (Epre : prefix_text i = []) by (apply prefix_signed, Esg). rewrite Epre. reflexivity.
    - specialize (Hun eq_refl). unfold sgn, code_sign. rewrite Esg. destruct (Z.ltb_spec v 0); [lia|reflexivity]. }
  unfold iso_zeros. rewrite His, !Hcomm. unfold iso_pad.
  assert (Hlen : forall n, Z.of_nat (length (prefix_text i ++ sgn ++ replicate n 48 ++ ds)) = core - missing + Z.of_nat n).
  { intros n. rewrite Hcore, !length_app, length_replicate. lia. }
  rewrite Hlen. replace (Z.of_nat (length (prefix_text i ++ sgn ++ ds))) with (core - missing) by lia.
  assert (E : Z.to_nat zeros = Z.to_nat (match prec with
      | Some n => n - Z.of_nat (length ds)
      | None => if has_flag d 48 && negb (has_flag d 45) then w - (core - missing) else 0
      end) /\ Z.to_nat spaces = Z.to_nat (w - (core - missing + Z.of_nat (Z.to_nat zeros)))).
  { destruct prec as [n|].
    - change (code_precision (Some n)) with n in Hz. destruct (Z.eqb_spec n (-1)); [lia|]. rewrite andb_false_r in Hz. cbn [andb] in Hz.
      destruct Hm as (Hm & Hm0). destruct (Z.ltb_spec core w); injection Hz as -> ->; lia.
    - destruct Hm as (Hm & _). change (code_precision None) with (-1) in Hz. cbn [Z.eqb Pos.eqb] in Hz. rewrite andb_true_r in Hz.
      destruct (has_flag d 48 && negb (has_flag d 45)), (Z.ltb_spec core w); injection Hz as -> ->; lia. }
  destruct E as (E1 & E2). rewrite <- E1, E2. reflexivity.
Qed.
End IntField.

(** ** The number of an integer conversion *)

Lemma to_signed_range k z : 0 < k -> - 2 ^ (k - 1) <= to_signed k z < 2 ^ (k - 1).
Proof.
  intros Hk. pose proof (wrap_bound k z ltac:(lia)) as Hb. unfold is_u in Hb. unfold to_signed.
  replace (2 ^ k) with (2 * 2 ^ (k - 1)) in * by (rewrite <- Z.pow_succ_r by lia; f_equal; lia).
  destruct (Z.ltb_spec (wrap k z) (2 ^ (k - 1))); lia.
Qed.
Lemma u64_i64 z : u64 (i64 z) = u64 z.
Proof.
  unfold to_signed, wrap. destruct (_ <? _); [apply Z.mod_mod; lia|].
  replace (z mod 2 ^ 64 - 2 ^ 64) with (z mod 2 ^ 64 + (-1) * 2 ^ 64) by lia.
  rewrite Z.mod_add, Z.mod_mod by lia. reflexivity.
Qed.
Lemma i64_u64 v : - 2 ^ 63 <= v < 2 ^ 63 -> i64 (u64 v) = v.
Proof.
  intros Hv. unfold to_signed. rewrite (wrap_small 64 (u64 v)) by (apply wrap_bound; lia). unfold wrap.
  destruct (Z.ltb_spec (v mod 2 ^ 64) (2 ^ (64 - 1))); change (2 ^ (64 - 1)) with (2 ^ 63) in *; dlia.
Qed.

Definition narrow (lm : length_modifier) (v : Z) (args : va_list) : Prop :=
  match lm, args with (Lhh | Lh), VInt z :: _ => v = i32 z | _, _ => True end.

(** The engine reads the number as 64 bits of the value ISO C takes. *)
Lemma int_number signed lm args v args3 : iso_int signed lm args = Some (v, args3) -> narrow lm v args ->
  match lm with
  | LNone => exists k, (if signed then va_int else va_unsigned) args = Ok (k, args3) /\ u64 k = u64 v
  | _ => length_number lm args = Some (u64 v, args3)
  end /\ (if signed then - 2 ^ 63 <= v < 2 ^ 63 else 0 <= v < 2 ^ 64).
Proof.
  intros E Hn.
  pose proof (fun z => to_signed_range 32 z ltac:(lia)) as R32. pose proof (fun z => to_signed_range 64 z ltac:(lia)) as R64.
  pose proof (fun z => to_signed_range 16 z ltac:(lia)) as R16. pose proof (fun z => to_signed_range 8 z ltac:(lia)) as R8.
  assert (U : forall k z, 0 <= k <= 64 -> 0 <= wrap k z < 2 ^ 64).
  { intros k z Hk. pose proof (wrap_bound k z ltac:(lia)) as Hb. unfold is_u in Hb.
    assert (2 ^ k <= 2 ^ 64) by (apply Z.pow_le_mono_r; lia). lia. }
  destruct lm; destruct args as [|[z|z| | |] args]; try discriminate; cbn [iso_int narrow length_number] in *;
    destruct signed; injection E as <- <-;
    repeat match goal with
    | |- context [to_signed 8 ?z] => specialize (R8 z)
    | |- context [to_signed 16 ?z] => specialize (R16 z)
    | |- context [to_signed 32 ?z] => specialize (R32 z)
    | |- context [to_signed 64 ?z] => specialize (R64 z)
    end; rewrite ?u64_i64, <- ?Hn;
    (split; [|first [lia | apply U; lia | (split; [|]; lia)]]); eauto.
  all: try (rewrite (wrap_small 64 (u64 z)) by (apply wrap_bound; lia); reflexivity).
Qed.

Lemma digits_of_case base o o' n : capitalize o = capitalize o' -> digits_of base o n = digits_of base o' n.
Proof.
  intros E. unfold digits_of. assert (D : digit_chars o = digit_chars o') by (unfold digit_chars; rewrite E; reflexivity).
  generalize 64%nat. intros k. revert n. induction k as [|k IH]; intros n; cbn [digits]; rewrite D; [reflexivity|].
  rewrite IH. reflexivity.
Qed.
Lemma printed_plain_digits base n ds : printed base n ds -> Z.of_nat (length ds) <= 71 ->
  plain_digits ds /\ (n <> 0 -> head ds <> Some 48).
Proof.
  intros (_ & _ & Hne & _ & H48 & Hs) Hl. split; [split; [|exact Hl]|].
  - destruct ds as [|c ds]; [contradiction|]. destruct (Hs c eq_refl) as (? & ? & _). unfold is_sign. zcase; try reflexivity; lia.
  - intros Hn E. apply Hn, H48, E.
Qed.

(** ** The conversions of the engine *)

(** What [parse_spec] left for the conversion: the number in the arguments, or already read. *)
Definition number_ready (read : va_list -> outcome (Z * va_list)) (sv : string_view) (number : Z) (is_zero : bool)
    (args : va_list) (v : Z) (args3 : va_list) : Prop :=
  (sv_length sv = 0 /\ exists k, read args = Ok (k, args3) /\ u64 k = u64 v) \/
  (sv_length sv <> 0 /\ number = u64 v /\ is_zero = (u64 v =? 0) /\ args = args3).

Lemma handle_int_reads buffer m i number z args read f v args3 :
  number_ready read (length_sv i) number z args v args3 ->
  handle_int buffer m i number z args read f =
  ('(m, parsed) ← into_buffer buffer m (f (u64 v)); Ok (SpecOk parsed (u64 v =? 0) false args3 m)).
Proof.
  unfold handle_int. intros [(E & k & -> & Hk)|(E & -> & -> & ->)]; destruct (Z.eqb_spec (sv_length (length_sv i)) 0); try contradiction.
  - cbn [mbind outcome_bind]. rewrite Hk. reflexivity.
  - reflexivity.
Qed.

(** A conversion into the local array. *)
Definition converts (buffer : Z) (m : mem) (r : outcome handle_spec_result) (pc : list Z) (is_zero is_null : bool)
    (args3 : va_list) : Prop :=
  exists parsed m', r = Ok (SpecOk parsed is_zero is_null args3 m') /\ mem_ok m' /\
    (forall x, ~ in_array buffer x -> m' x = m x) /\ shows m' parsed pc /\
    (forall x, sv_begin parsed <= x < sv_begin parsed + sv_length parsed -> in_array buffer x).

Lemma array_length buffer parsed (pc : list Z) : sv_length parsed = Z.of_nat (length pc) ->
  (forall x, sv_begin parsed <= x < sv_begin parsed + sv_length parsed -> in_array buffer x) ->
  Z.of_nat (length pc) <= 71.
Proof.
  unfold in_array, MAX_CONVERT_CAP, MAX_BINARY_CONVERT_CAP. intros E Hx. destruct pc as [|c pc]; [cbn; lia|]. cbn [length] in *.
  pose proof (Hx (sv_begin parsed) ltac:(lia)). pose proof (Hx (sv_begin parsed + sv_length parsed - 1) ltac:(lia)). lia.
Qed.

Ltac eval_spec E := unfold handle_spec; cbn [spec int_info set_spec]; rewrite E; reflexivity.

Section IntConvert.
Context (fuel : nat) (lit : string -> Z) (buffer : Z) (m : mem).
Context (Hm : mem_ok m) (B0 : 0 <= buffer) (B1 : buffer + (MAX_CONVERT_CAP + 3) < 2 ^ 64).

Lemma buffer_converts f base o n before is_zero args3 : Forall is_u8 before ->
  (forall b, Z.of_nat (length b) = MAX_CONVERT_CAP -> prints base o n before (f b) b) ->
  converts buffer m ('(m, parsed) ← into_buffer buffer m f; Ok (SpecOk parsed is_zero false args3 m))
    (before ++ digits_of base o n) is_zero false args3 /\
  printed base n (digits_of base o n) /\ Z.of_nat (length (digits_of base o n)) <= 71.
Proof.
  intros Hb Hp. destruct (into_buffer_spec buffer m f base o n before Hm B0 B1 Hb Hp) as (m' & sv & E & Hm' & Hf & V & Hpr & Hx).
  rewrite E. cbn [mbind outcome_bind]. split; [exists sv, m'; auto|]. split; [exact Hpr|].
  pose proof (array_length buffer sv _ (proj1 (proj2 V)) Hx) as Hl. rewrite length_app in Hl. lia.
Qed.

Lemma int_converts d w p sv number z args v args3 wout : is_int_specifier (d_conv d) = true ->
  number_ready (if signed_conv (d_conv d) then va_int else va_unsigned) sv number z args v args3 ->
  (if signed_conv (d_conv d) then - 2 ^ 63 <= v < 2 ^ 63 else 0 <= v < 2 ^ 64) ->
  let ds := digits_of (conv_base (d_conv d)) (conv_options (d_conv d)) (Z.abs v) in
  converts buffer m (handle_spec fuel lit buffer m (int_info d w p sv) number wout z args) (code_sign d v ++ ds) (v =? 0) false args3 /\
  plain_digits ds /\ (v <> 0 -> head ds <> Some 48).
Proof.
  intros Hi Hr Hv ds.
  assert (Hz : (u64 v =? 0) = (v =? 0)).
  { unfold wrap. destruct (Z.eqb_spec v 0) as [->|]; [reflexivity|]. apply Z.eqb_neq. destruct (signed_conv _); dlia. }
  assert (G : forall f o before, handle_spec fuel lit buffer m (int_info d w p sv) number wout z args =
      handle_int buffer m (int_info d w p sv) number z args (if signed_conv (d_conv d) then va_int else va_unsigned) f ->
      capitalize o = capitalize (conv_options (d_conv d)) -> before = code_sign d v -> Forall is_u8 before ->
      (forall b, Z.of_nat (length b) = MAX_CONVERT_CAP -> prints (conv_base (d_conv d)) o (Z.abs v) before (f (u64 v) b) b) ->
    converts buffer m (handle_spec fuel lit buffer m (int_info d w p sv) number wout z args) (code_sign d v ++ ds) (v =? 0) false args3 /\
    plain_digits ds /\ (v <> 0 -> head ds <> Some 48)).
  { intros f o before E Ho -> Hb Hp. rewrite E, (handle_int_reads _ _ _ _ _ _ _ _ v args3), Hz by exact Hr.
    destruct (buffer_converts (f (u64 v)) _ _ _ _ (v =? 0) args3 Hb Hp) as (C & Hpr & Hl).
    rewrite (digits_of_case _ o (conv_options (d_conv d))) in * by exact Ho. fold ds in C, Hpr, Hl.
    destruct (printed_plain_digits _ _ _ Hpr Hl) as (P1 & P2). split; [exact C|]. split; [exact P1|]. intros Hnz. apply P2. lia. }
  assert (U : forall base o, signed_conv (d_conv d) = false -> print_base base -> base = conv_base (d_conv d) ->
      include_pos_sign o = false -> include_prefix o = false ->
      forall b, Z.of_nat (length b) = MAX_CONVERT_CAP ->
      prints (conv_base (d_conv d)) o (Z.abs v) (code_sign d v) (unsigned_to_string_view base o (u64 v) b) b).
  { intros base o Hs Hb Eb Ho1 Ho2 b Hl. rewrite Hs in Hv. rewrite <- Eb.
    replace (code_sign d v) with (sign_chars o ++ prefix_chars base o).
    - rewrite wrap_small by (unfold is_u; lia). rewrite Z.abs_eq by lia. apply unsigned_prints; auto. intros E. congruence.
    - unfold sign_chars, prefix_chars, code_sign. rewrite Ho1, Ho2, Hs. destruct (Z.ltb_spec v 0); [lia|reflexivity]. }
  assert (HF : Forall is_u8 (code_sign d v)).
  { unfold code_sign. repeat case_match; repeat constructor; unfold is_u; lia. }
  set (o := NumToStr false (has_flag d 43) false false false) in *.
  assert (D : signed_conv (d_conv d) = true -> forall b, Z.of_nat (length b) = MAX_CONVERT_CAP ->
    prints 10 o (Z.abs v) (code_sign d v) (signed_to_string_view 10 o (i64 (u64 v)) b) b).
  { intros Hs b Hl. rewrite Hs in Hv. rewrite i64_u64 by exact Hv.
    replace (code_sign d v) with (if v <? 0 then [45] else sign_chars o ++ prefix_chars 10 o).
    - apply signed_prints; auto; [unfold print_base; auto|discriminate].
    - unfold code_sign, sign_chars, prefix_chars, o. cbn. rewrite Hs. destruct (v <? 0), (has_flag d 43); reflexivity. }
  unfold is_int_specifier in Hi. rewrite !orb_true_iff, !Z.eqb_eq in Hi.
  destruct Hi as [[[[[[[E|E]|E]|E]|E]|E]|E]|E]; rewrite E in G, U, D; cbn [signed_conv Z.eqb Pos.eqb orb conv_base] in G, U, D.
  - apply (G (unsigned_to_string_view 2 plain_options) plain_options (code_sign d v)); try reflexivity; [eval_spec E|exact HF|].
    apply U; unfold print_base; auto.
  - apply (G (unsigned_to_string_view 2 upper_options) upper_options (code_sign d v)); try reflexivity; [eval_spec E|exact HF|].
    apply U; unfold print_base; auto.
  - apply (G (fun n => signed_to_string_view 10 o (i64 n)) o (code_sign d v)); try reflexivity; [eval_spec E|exact HF|exact (D eq_refl)].
  - apply (G (fun n => signed_to_string_view 10 o (i64 n)) o (code_sign d v)); try reflexivity; [eval_spec E|exact HF|exact (D eq_refl)].
  - apply (G (unsigned_to_string_view 8 plain_options) plain_options (code_sign d v)); try reflexivity; [eval_spec E|exact HF|].
    apply U; unfold print_base; auto.
  - apply (G (unsigned_to_string_view 10 plain_options) plain_options (code_sign d v)); try reflexivity; [eval_spec E|exact HF|].
    apply U; unfold print_base; auto.
  - apply (G (unsigned_to_string_view 16 plain_options) plain_options (code_sign d v)); try reflexivity; [eval_spec E|exact HF|].
    apply U; unfold print_base; auto.
  - apply (G (unsigned_to_string_view 16 upper_options) upper_options (code_sign d v)); try reflexivity; [eval_spec E|exact HF|].
    apply U; unfold print_base; auto.
Qed.
End IntConvert.

(** ** The field of another conversion *)

Lemma plain_field d w p sv m parsed pc is_null c : c = 99 \/ c = 115 \/ c = 112 \/ c = 37 -> shows m parsed pc ->
  0 <= w < 2 ^ 31 -> Z.of_nat (length pc) <= 255 \/ w = 0 ->
  let i := set_spec (info_of d w p sv) c in
  exists spaces, padding i m parsed true = (0, spaces) /\ field_text i pc 0 spaces is_null true = iso_pad (has_flag d 45) w pc.
Proof.
  intros Hc V Hw Hl i. assert (Hi : is_int_specifier c = false) by (destruct Hc as [->|[->|[->| ->]]]; reflexivity).
  pose proof V as (_ & El & _).
  assert (Ep : padding i m parsed true = (0, if u8 (sv_length parsed) <? w then w - u8 (sv_length parsed) else 0)).
  { unfold padding. cbn zeta. change (spec i) with c. change (width i) with w. rewrite Hi. cbn [andb].
    replace (if add_base_prefix i then _ else _) with (u8 (sv_length parsed))
      by (destruct (add_base_prefix i), Hc as [->|[->|[->| ->]]]; reflexivity).
    rewrite andb_false_r. cbn [andb]. pose proof (wrap_bound 8 (sv_length parsed) ltac:(lia)) as Hb. unfold is_u in Hb.
    destruct (Z.ltb_spec (u8 (sv_length parsed)) w); [|reflexivity]. rewrite wrap_small by (unfold is_u; lia). reflexivity. }
  eexists. split; [exact Ep|]. assert (Hp : (if is_null then [] else prefix_text i) = []).
  { destruct is_null; [reflexivity|]. unfold prefix_text. destruct (add_base_prefix i); [|reflexivity].
    change (spec i) with c. destruct Hc as [->|[->|[->| ->]]]; reflexivity. }
  unfold field_text, body_text. change (left_justify i) with (has_flag d 45). rewrite Hp. unfold lead, after_lead, iso_pad. cbn [Z.eqb app].
  assert (E : Z.to_nat (if u8 (sv_length parsed) <? w then w - u8 (sv_length parsed) else 0) = Z.to_nat (w - Z.of_nat (length pc))).
  { destruct Hl as [Hl| ->].
    - rewrite El, wrap_small by (unfold is_u; lia). destruct (Z.ltb_spec (Z.of_nat (length pc)) w); lia.
    - pose proof (wrap_bound 8 (sv_length parsed) ltac:(lia)) as Hb. unfold is_u in Hb.
      destruct (Z.ltb_spec (u8 (sv_length parsed)) 0); lia. }
  rewrite E. reflexivity.
Qed.

Section Engine.
Context {St : Type} `{SinkText St}.
Context (a : arch) (cbo_size : Z) (fuel : nat) (lit : string -> Z) (buffer : Z).
Context (m0 : mem) (s0 : St) (args0 : va_list) (fmt : Z) (l : list Z).
Context (PL : placed fuel lit buffer m0 s0 args0 fmt l).
Context (LT : forall t, t ∈ literals -> holds m0 (lit t) (chars_of t)).
Context (t0 : list Z) (strs : Z -> list Z).
Context (PS : forall p, VStr p ∈ args0 -> p <> 0 -> cstr m0 p (strs p) /\ (length (strs p) <= fuel)%nat /\
  Z.of_nat (length (strs p)) < 2 ^ 32 /\ forall x, p <= x <= p + Z.of_nat (length (strs p)) -> steady buffer s0 args0 x).
Context (PR : forall p, VStr p ∈ args0 \/ VOut p ∈ args0 \/ VPtr p ∈ args0 -> 0 <= p < 2 ^ 64).
Abbreviation good := (PrintfSafe.good buffer m0 s0 args0).
Abbreviation seen := (PrintfSafe.seen buffer s0 args0).
Abbreviation good_args := (PrintfSafe.good_args args0).

(** A directive that prints [text]: parsing and converting end with characters whose field is [text]. *)
Definition prints_field (m : mem) (s : St) (args : va_list) (p q : Z) (text : list Z) (args' : va_list) : Prop :=
  exists i args1 number z parsed z' is_null m' pc zeros spaces,
    parse_spec fuel lit m args p = Ok (Some (i, q, args1, number, z)) /\
    (forall wout, handle_spec fuel lit buffer m (set_spec i (m q)) number wout z args1 = Ok (SpecOk parsed z' is_null args' m')) /\
    good m' s /\ (forall x, ~ in_array buffer x -> m' x = m x) /\ seen parsed /\ shows m' parsed pc /\
    valid_info (set_spec i (m q)) /\ (zeros <> 0 -> pc <> []) /\
    let sw := negb (z' && (precision i =? 0)) in
    padding (set_spec i (m q)) m' parsed sw = (zeros, spaces) /\
    field_text (set_spec i (m q)) pc zeros spaces is_null sw = text.

Lemma converts_good m s r pc z n args3 : good m s -> converts buffer m r pc z n args3 ->
  exists parsed m', r = Ok (SpecOk parsed z n args3 m') /\ good m' s /\
    (forall x, ~ in_array buffer x -> m' x = m x) /\ seen parsed /\ shows m' parsed pc.
Proof.
  intros G (parsed & m' & E & Hm' & Hf & V & Hx). exists parsed, m'. split; [exact E|].
  split; [exact (good_array fuel lit buffer m0 s0 args0 fmt l PL m s m' G Hm' Hf)|]. split; [exact Hf|]. split; [|exact V].
  destruct V as (_ & El & Hn). split; [lia|]. intros x Hr. right. apply Hx, Hr.
Qed.

Definition iso_precision (pr : option Z) : option Z :=
  match pr with Some p => if p <? 0 then None else Some p | None => None end.
Lemma code_precision_iso pr : -1 <= default 0 pr -> default (-1) pr = code_precision (iso_precision pr).
Proof.
  unfold code_precision, iso_precision. destruct pr as [n|]; [|reflexivity]. cbn. intros Hn. destruct (Z.ltb_spec n 0); cbn; unfold id; lia.
Qed.
Lemma iso_precision_pos pr : match iso_precision pr with Some p => 0 <= p | None => True end.
Proof. unfold iso_precision. destruct pr as [n|]; [|exact I]. destruct (Z.ltb_spec n 0); [exact I|lia]. Qed.

Lemma amount_bound am args w args' :
  match am with Given ds => forallb is_digit ds = true /\ decimal ds <= INT32_MAX | _ => True end ->
  iso_amount am args = Some (w, args') -> default 0 w < 2 ^ 31.
Proof.
  intros Hwf. destruct am as [|ds|]; cbn [iso_amount].
  - intros [= <- <-]. cbn. lia.
  - intros [= <- <-]. cbn. unfold id, INT32_MAX in *. lia.
  - destruct args as [|[z| | | |] args]; try discriminate. intros [= <- <-]. cbn. unfold id.
    pose proof (to_signed_range 32 z ltac:(lia)). lia.
Qed.

(** The directive [d] at [p], with its width and precision read from [args]. *)
Record reads (m : mem) (d : directive) (args : va_list) (p : Z) (w pr : option Z) (args1 args2 : va_list) : Prop := {
  r_wf : wf_directive d = true;
  r_width : iso_amount (d_width d) args = Some (w, args1);
  r_precision : iso_amount (d_precision d) args1 = Some (pr, args2);
  r_pos : 0 <= default 0 w; r_prec : -1 <= default 0 pr;
  r_chars : exists r, holds m p (directive_chars d ++ r);
  r_fuel : (length (directive_chars d) <= fuel)%nat;
  r_range : 1 <= p /\ p + Z.of_nat (length (directive_chars d)) < 2 ^ 64 }.
Definition last_char (d : directive) (p : Z) : Z := p + Z.of_nat (length (directive_chars d)) - 1.

Lemma reads_width m d args p w pr args1 args2 : reads m d args p w pr args1 args2 -> 0 <= default 0 w < 2 ^ 31.
Proof.
  intros R. split; [apply R|]. destruct R as [Hwf Hw _ _ _ _ _ _]. apply wf_directive_parts in Hwf.
  eapply amount_bound; [|exact Hw]. destruct (d_width d); tauto.
Qed.
Lemma reads_precision m d args p w pr args1 args2 : reads m d args p w pr args1 args2 ->
  forall n, iso_precision pr = Some n -> n < 2 ^ 31.
Proof.
  intros [Hwf _ Hp _ _ _ _ _] n E. apply wf_directive_parts in Hwf.
  assert (Hb : default 0 pr < 2 ^ 31) by (eapply amount_bound; [|exact Hp]; tauto).
  unfold iso_precision in E. destruct pr as [k|]; [|discriminate]. destruct (k <? 0); [discriminate|]. injection E as <-. exact Hb.
Qed.
Lemma parse_reads m d args p w pr args1 args2 : mem_ok m -> reads m d args p w pr args1 args2 ->
  m (last_char d p) = d_conv d /\
  (d_length d = LNone ->
   parse_spec fuel lit m args p =
   Ok (Some (info_of d (default 0 w) (code_precision (iso_precision pr)) (SV_EMPTY lit), last_char d p, args2, 0, false))) /\
  (forall n args3, length_number (d_length d) args2 = Some (n, args3) -> exists sv, sv_length sv <> 0 /\
   parse_spec fuel lit m args p =
   Ok (Some (info_of d (default 0 w) (code_precision (iso_precision pr)) sv, last_char d p, args3, n, n =? 0))).
Proof.
  intros Hm [Hwf Hw Hp Hw0 Hp1 (r & Hh) Hf (R1 & R2)]. rewrite <- (code_precision_iso pr Hp1).
  exact (parse_spec_reads fuel lit m d args p r w args1 pr args2 Hm Hwf Hw Hp Hw0 Hh Hf R1 R2).
Qed.

(** An integer conversion: the number is where [handle_spec] looks for it. *)
Lemma int_parses m d args p w pr args1 args2 v args3 : mem_ok m -> reads m d args p w pr args1 args2 ->
  iso_int (signed_conv (d_conv d)) (d_length d) args2 = Some (v, args3) -> narrow (d_length d) v args2 ->
  exists sv argsx number z,
    parse_spec fuel lit m args p =
      Ok (Some (info_of d (default 0 w) (code_precision (iso_precision pr)) sv, last_char d p, argsx, number, z)) /\
    number_ready (if signed_conv (d_conv d) then va_int else va_unsigned) sv number z argsx v args3 /\
    (if signed_conv (d_conv d) then - 2 ^ 63 <= v < 2 ^ 63 else 0 <= v < 2 ^ 64).
Proof.
  intros Hm R Hv Hn. destruct (parse_reads _ _ _ _ _ _ _ _ Hm R) as (_ & R1 & R2).
  destruct (int_number _ _ _ _ _ Hv Hn) as (Hk & Hr).
  assert (L : d_length d <> LNone -> length_number (d_length d) args2 = Some (u64 v, args3) ->
    exists sv argsx number z,
    parse_spec fuel lit m args p =
      Ok (Some (info_of d (default 0 w) (code_precision (iso_precision pr)) sv, last_char d p, argsx, number, z)) /\
    number_ready (if signed_conv (d_conv d) then va_int else va_unsigned) sv number z argsx v args3 /\
    (if signed_conv (d_conv d) then - 2 ^ 63 <= v < 2 ^ 63 else 0 <= v < 2 ^ 64)).
  { intros _ Hl. destruct (R2 _ _ Hl) as (sv & Hsv & E). exists sv, args3, (u64 v), (u64 v =? 0).
    split; [exact E|]. split; [right; auto|exact Hr]. }
  destruct (d_length d) eqn:El; try (apply L; [discriminate|exact Hk]).
  exists (SV_EMPTY lit), args2, 0, false. split; [apply R1; reflexivity|]. split; [left; auto|exact Hr].
Qed.

(** The padding of the engine gives the field of ISO C. *)
Lemma int_field d w prec sv v args m parsed : is_int_specifier (d_conv d) = true -> 0 <= w < 2 ^ 31 ->
  int_agrees d w prec v args = true -> match prec with Some p => 0 <= p | None => True end ->
  (signed_conv (d_conv d) = false -> 0 <= v) ->
  let ds := digits_of (conv_base (d_conv d)) (conv_options (d_conv d)) (Z.abs v) in
  plain_digits ds -> (v <> 0 -> head ds <> Some 48) -> shows m parsed (code_sign d v ++ ds) ->
  let i := int_info d w (code_precision prec) sv in
  let sw := negb ((v =? 0) && (code_precision prec =? 0)) in
  exists zeros spaces, padding i m parsed sw = (zeros, spaces) /\
    field_text i (code_sign d v ++ ds) zeros spaces false sw = iso_integer d (has_flag d 45) w prec v.
Proof.
  intros Hi Hw Ha Hp Hun ds Hpd Hd V i sw.
  assert (Hsw : sw = negb ((v =? 0) && bool_decide (prec = Some 0))).
  { unfold sw, code_precision. destruct prec as [n|]; cbn; unfold id.
    - destruct (Z.eqb_spec n 0) as [->|]; [rewrite bool_decide_eq_true_2 by reflexivity; reflexivity|].
      rewrite bool_decide_eq_false_2 by congruence. reflexivity.
    - rewrite bool_decide_eq_false_2 by discriminate. reflexivity. }
  assert (Hprec : -1 <= code_precision prec <= 252).
  { unfold int_agrees in Ha. rewrite !andb_true_iff, Z.leb_le in Ha. destruct Ha as (_ & Hb).
    unfold code_precision. destruct prec as [n|]; cbn in *; unfold id in *; lia. }
  assert (P0 : sw = false -> precision i = 0).
  { unfold sw. rewrite negb_false_iff, andb_true_iff, !Z.eqb_eq. intros (_ & E). exact E. }
  pose proof (padding_int i m parsed (code_sign d v) ds sw Hi V (code_sign_sign d v) Hpd Hw Hprec P0) as P. cbn zeta in P.
  rewrite P. clear P P0. change (width i) with w. change (precision i) with (code_precision prec).
  change (leftpad_zeros i) with (has_flag d 48). change (left_justify i) with (has_flag d 45).
  change (add_one_space_for_sign i) with (has_flag d 32).
  destruct ((v =? 0) && bool_decide (prec = Some 0)) eqn:He; rewrite Hsw; cbn [negb].
  - rewrite andb_true_iff, Z.eqb_eq, bool_decide_eq_true in He. destruct He as (Ev & ->). cbn [core_length].
    change (code_precision (Some 0)) with 0. cbn [Z.eqb negb andb]. rewrite andb_false_r. cbn [andb].
    assert (Hm : missing_digits 0 ds = 0) by (unfold missing_digits; destruct (Z.eqb_spec 0 (-1)); lia). rewrite Hm, Z.sub_0_r, Z.add_0_l.
    eexists _, _. split; [apply surjective_pairing|]. apply (empty_field_iso d w sv v args); auto; [lia|].
    destruct (0 <? w); reflexivity.
  - set (core := core_length i (code_sign d v) ds true). set (missing := missing_digits (code_precision prec) ds).
    destruct (decide (has_flag d 32 = true /\ code_sign d v = [])) as [(H32 & Hcs)|Hns].
    + destruct (spaced_field d w prec sv v args Hi Ha He Hp Hun Hpd Hd H32 Hcs) as (Hw0 & Hc & Hf).
      fold i ds core in Hc, Hf. fold missing in Hf. exists missing, 1.
      split; [|exact Hf]. rewrite H32, (bool_decide_eq_true_2 _ Hcs). destruct (Z.eqb_spec core 0); [lia|]. cbn [negb andb].
      destruct (Z.ltb_spec core w); [lia|reflexivity].
    + assert (Hsp : negb (core =? 0) && has_flag d 32 && bool_decide (code_sign d v = []) = false).
      { destruct (has_flag d 32); [|rewrite andb_false_r; reflexivity].
        rewrite bool_decide_eq_false_2 by tauto. apply andb_false_r. }
      rewrite Hsp. eexists _, _. split; [apply surjective_pairing|].
      apply (unspaced_field d w prec sv v args); auto. fold i ds core missing. rewrite <- surjective_pairing, Z.add_0_l. reflexivity.
Qed.

Lemma int_prints_field m s d args p w pr args1 args2 v args3 : good m s -> reads m d args p w pr args1 args2 ->
  is_int_specifier (d_conv d) = true ->
  iso_int (signed_conv (d_conv d)) (d_length d) args2 = Some (v, args3) ->
  int_agrees d (default 0 w) (iso_precision pr) v args2 = true ->
  prints_field m s args p (last_char d p) (iso_integer d (has_flag d 45) (default 0 w) (iso_precision pr) v) args3.
Proof.
  intros G R Hi Hv Ha. pose proof (reads_width _ _ _ _ _ _ _ _ R) as Hw. pose proof (proj1 G) as Hm.
  assert (Hn : narrow (d_length d) v args2).
  { unfold int_agrees in Ha. rewrite !andb_true_iff in Ha. destruct Ha as ((((Hn & _) & _) & _) & _). unfold narrow.
    destruct (d_length d); auto; destruct args2 as [|[] args2]; auto; apply Z.eqb_eq, Hn. }
  destruct (int_parses _ _ _ _ _ _ _ _ _ _ Hm R Hv Hn) as (sv & argsx & number & z & E & Hr & Hrange).
  pose proof (proj1 (parse_reads _ _ _ _ _ _ _ _ Hm R)) as Eq. destruct (p_buffer _ _ _ _ _ _ _ _ PL) as (B0 & B1).
  destruct (int_converts fuel lit buffer m Hm B0 B1 d (default 0 w) (code_precision (iso_precision pr)) sv number z argsx v args3 0 Hi Hr Hrange)
    as (C & Hpd & Hd).
  destruct (converts_good m s _ _ _ _ _ G C) as (parsed & m' & Eh & G' & Hf & S & V).
  assert (Hun : signed_conv (d_conv d) = false -> 0 <= v) by (intros Hs; rewrite Hs in Hrange; lia).
  destruct (int_field d (default 0 w) (iso_precision pr) sv v args2 m' parsed Hi Hw Ha (iso_precision_pos pr) Hun Hpd Hd V)
    as (zeros & spaces & Epad & Ef).
  eexists _, argsx, number, z, parsed, (v =? 0), false, m', _, zeros, spaces. rewrite Eq.
  split; [exact E|]. split; [intros wout; rewrite <- Eh; unfold handle_spec; cbn [spec int_info set_spec]; unfold is_int_specifier in Hi;
    rewrite !orb_true_iff, !Z.eqb_eq in Hi; destruct Hi as [[[[[[[Ec|Ec]|Ec]|Ec]|Ec]|Ec]|Ec]|Ec]; rewrite Ec; reflexivity|].
  split; [exact G'|]. split; [exact Hf|]. split; [exact S|]. split; [exact V|].
  split; [unfold valid_info; cbn [width set_spec info_of]; lia|].
  split; [intros _; destruct Hpd as (Hne & _); intros Enil; apply app_eq_nil in Enil; destruct Enil as (_ & Enil); rewrite Enil in Hne; exact Hne|].
  split; [exact Epad|exact Ef].
Qed.

(** The other conversions that print: the characters are padded with spaces. *)
Lemma plain_prints_field m s d args p w pr args1 args2 args3 parsed is_null m' pc : good m s ->
  reads m d args p w pr args1 args2 -> d_length d = LNone ->
  d_conv d = 99 \/ d_conv d = 115 \/ d_conv d = 112 \/ d_conv d = 37 ->
  (forall wout, handle_spec fuel lit buffer m
    (set_spec (info_of d (default 0 w) (code_precision (iso_precision pr)) (SV_EMPTY lit)) (d_conv d)) 0 wout false args2 =
    Ok (SpecOk parsed false is_null args3 m')) ->
  good m' s -> (forall x, ~ in_array buffer x -> m' x = m x) -> seen parsed -> shows m' parsed pc ->
  Z.of_nat (length pc) <= 255 \/ default 0 w = 0 ->
  prints_field m s args p (last_char d p) (iso_pad (has_flag d 45) (default 0 w) pc) args3.
Proof.
  intros G R El Hc Eh G' Hf S V Hl. pose proof (reads_width _ _ _ _ _ _ _ _ R) as Hw.
  destruct (parse_reads _ _ _ _ _ _ _ _ (proj1 G) R) as (Eq & E & _).
  destruct (plain_field d (default 0 w) (code_precision (iso_precision pr)) (SV_EMPTY lit) m' parsed pc is_null (d_conv d) Hc V Hw Hl)
    as (spaces & Ep & Ef).
  eexists _, args2, 0, false, parsed, false, is_null, m', pc, 0, spaces. rewrite Eq.
  split; [apply E, El|]. split; [exact Eh|]. split; [exact G'|]. split; [exact Hf|]. split; [exact S|]. split; [exact V|].
  split; [unfold valid_info; cbn [width set_spec info_of]; lia|]. split; [lia|]. split; [exact Ep|exact Ef].
Qed.

Lemma u8_i32 z : u8 (i32 z) = u8 z.
Proof.
  unfold to_signed, wrap. destruct (_ <? _).
  - change (2 ^ 32) with (2 ^ 8 * 2 ^ 24). rewrite Z.rem_mul_r by lia. rewrite Z.mul_comm, Z.mod_add by lia. apply Z.mod_mod. lia.
  - replace (z mod 2 ^ 32 - 2 ^ 32) with (z mod 2 ^ 32 + (- 2 ^ 24) * 2 ^ 8) by lia. rewrite Z.mod_add by lia.
    change (2 ^ 32) with (2 ^ 8 * 2 ^ 24). rewrite Z.rem_mul_r by lia. rewrite Z.mul_comm, Z.mod_add by lia. apply Z.mod_mod. lia.
Qed.
(** One character in the local array. *)
Lemma one_char m s v : good m s -> good (upd m buffer (u8 v)) s /\
  (forall x, ~ in_array buffer x -> upd m buffer (u8 v) x = m x) /\ seen (sv_create_nocheck buffer 1) /\
  shows (upd m buffer (u8 v)) (sv_create_nocheck buffer 1) [u8 v].
Proof.
  intros G. split; [exact (array_put fuel lit buffer m0 s0 args0 fmt l PL m s v G)|]. split; [|split].
  - intros x Hx. unfold upd. destruct (Z.eqb_spec x buffer) as [->|]; [|reflexivity]. exfalso. apply Hx.
    unfold in_array, MAX_CONVERT_CAP, MAX_BINARY_CONVERT_CAP. lia.
  - apply array_first_seen.
  - change (shows (upd m buffer (u8 v)) (SV buffer 1) [u8 v]). split; [|cbn; lia]. apply holds_cons.
    cbn. unfold upd. rewrite Z.eqb_refl. split; reflexivity.
Qed.

Lemma char_prints_field m s d args p w pr args1 args3 z : good m s -> reads m d args p w pr args1 (VInt z :: args3) ->
  d_length d = LNone -> d_conv d = 99 ->
  prints_field m s args p (last_char d p) (iso_pad (has_flag d 45) (default 0 w) [u8 z]) args3.
Proof.
  intros G R El Ec. destruct (one_char m s (i32 z) G) as (G' & Hf & S & V). rewrite u8_i32 in *.
  eapply (plain_prints_field m s d args p w pr args1 (VInt z :: args3) args3 _ false _ [u8 z] G R El (or_introl Ec));
    [|exact G'|exact Hf|exact S|exact V|left; cbn; lia].
  intros wout. unfold handle_spec. cbn [spec set_spec info_of]. rewrite Ec. cbn [va_int mbind outcome_bind]. rewrite u8_i32. reflexivity.
Qed.
Lemma percent_prints_field m s d args p args1 args3 : good m s -> reads m d args p None None args1 args3 ->
  d_length d = LNone -> d_conv d = 37 -> d_flags d = [] ->
  prints_field m s args p (last_char d p) [37] args3.
Proof.
  intros G R El Ec Efl. destruct (one_char m s 37 G) as (G' & Hf & S & V). change (u8 37) with 37 in *.
  replace [37] with (iso_pad (has_flag d 45) (default 0 (@None Z)) [37]) by (unfold has_flag; rewrite Efl; reflexivity).
  eapply (plain_prints_field m s d args p None None args1 args3 args3 _ false _ [37] G R El ltac:(tauto));
    [|exact G'|exact Hf|exact S|exact V|left; cbn; lia].
  intros wout. unfold handle_spec. cbn [spec set_spec info_of]. rewrite Ec. reflexivity.
Qed.

Lemma str_prints_field m s d args p w pr args1 args3 q : good m s -> good_args (VStr q :: args3) ->
  reads m d args p w pr args1 (VStr q :: args3) -> d_length d = LNone -> d_conv d = 115 ->
  let t := if q =? 0 then chars_of "(null)"
           else match iso_precision pr with Some n => take (Z.to_nat n) (strs q) | None => strs q end in
  default 0 w = 0 \/ q = 0 \/ Z.of_nat (length t) <= 255 ->
  prints_field m s args p (last_char d p) (iso_pad (has_flag d 45) (default 0 w) t) args3.
Proof.
  intros G Ga R El Ec t Hl. subst t. destruct (Z.eqb_spec q 0) as [->|Hq].
  - pose proof (literal_chars fuel lit buffer m0 s0 args0 fmt l PL LT m s "(null)" G ltac:(in_literals)) as V.
    pose proof (literal_seen fuel lit buffer m0 s0 args0 fmt l PL "(null)" ltac:(in_literals)) as S.
    eapply (plain_prints_field m s d args p w pr args1 _ args3 _ true m _ G R El ltac:(tauto));
      [|exact G|reflexivity|exact S|exact V|left; cbn; lia].
    intros wout. unfold handle_spec. cbn [spec set_spec info_of]. rewrite Ec. reflexivity.
  - assert (Hin : VStr q ∈ args0) by (apply Ga; left). destruct (PS q Hin Hq) as (C & Hf & Hb & Hst).
    assert (C' : cstr m q (strs q)) by (eapply cstr_ext; [exact C|]; intros x Hx; apply G, Hst, Hx).
    set (t := match iso_precision pr with Some n => take (Z.to_nat n) (strs q) | None => strs q end) in *.
    assert (Ht : exists r, strs q = t ++ r).
    { unfold t. destruct (iso_precision pr) as [n|]; [exists (drop (Z.to_nat n) (strs q)); symmetry; apply take_drop|exists []; rewrite app_nil_r; reflexivity]. }
    destruct Ht as (r & Hr). pose proof (f_equal length Hr) as Hlen. rewrite length_app in Hlen.
    assert (V : shows m (SV q (Z.of_nat (length t))) t).
    { split; [|cbn; lia]. destruct C' as (Hh & _). rewrite Hr, <- app_assoc, holds_app in Hh. apply Hh. }
    eapply (plain_prints_field m s d args p w pr args1 _ args3 (SV q (Z.of_nat (length t))) false m t G R El ltac:(tauto));
      [|exact G|reflexivity| |exact V|tauto].
    + intros wout. unfold handle_spec. cbn [spec set_spec info_of]. rewrite Ec. unfold handle_s. cbn [va_str mbind outcome_bind].
      destruct (Z.eqb_spec q 0) as [|_]; [contradiction|]. cbn [precision set_spec info_of].
      assert (En : (if negb (code_precision (iso_precision pr) =? -1) then Ok (strnlen m q (u64 (code_precision (iso_precision pr))))
                    else strlen fuel m q) = Ok (Z.of_nat (length t))).
      { pose proof (iso_precision_pos pr) as Hp. unfold t. destruct (iso_precision pr) as [n|] eqn:Epr; [|rewrite (strlen_cstr fuel m q (strs q)); auto].
        change (code_precision (Some n)) with n. destruct (Z.eqb_spec n (-1)); [lia|]. cbn [negb]. f_equal.
        pose proof (reads_precision _ _ _ _ _ _ _ _ R n Epr) as Hn.
        rewrite wrap_small by (unfold is_u; lia). rewrite (strnlen_cstr m q (strs q)) by auto. rewrite length_take. lia. }
      rewrite En. cbn [mbind outcome_bind]. destruct C as (_ & _ & Hq0 & Hq1).
      rewrite wrap_small by (unfold is_u; lia). rewrite sv_create_length_fine by lia. reflexivity.
    + split; cbn; [lia|]. intros x Hx. left. apply Hst. lia.
Qed.

Lemma ptr_prints_field m s d args p w pr args1 args2 args3 q : good m s -> good_args args2 ->
  args2 = VPtr q :: args3 \/ args2 = VStr q :: args3 \/ args2 = VOut q :: args3 ->
  reads m d args p w pr args1 args2 -> d_length d = LNone -> d_conv d = 112 ->
  let t := if q =? 0 then chars_of "(nil)" else chars_of "0x" ++ digits_of 16 upper_options q in
  prints_field m s args p (last_char d p) (iso_pad (has_flag d 45) (default 0 w) t) args3.
Proof.
  intros G Ga Hq R El Ec t. assert (Hv : va_ptr args2 = Ok (q, args3)) by (destruct Hq as [->|[->| ->]]; reflexivity).
  assert (Hr : 0 <= q < 2 ^ 64).
  { apply PR. destruct Hq as [->|[->| ->]]; specialize (Ga _ (list_elem_of_here _ _)); tauto. }
  subst t. destruct (Z.eqb_spec q 0) as [->|Hq0].
  - pose proof (literal_chars fuel lit buffer m0 s0 args0 fmt l PL LT m s "(nil)" G ltac:(in_literals)) as V.
    pose proof (literal_seen fuel lit buffer m0 s0 args0 fmt l PL "(nil)" ltac:(in_literals)) as S.
    eapply (plain_prints_field m s d args p w pr args1 _ args3 _ true m _ G R El ltac:(tauto));
      [|exact G|reflexivity|exact S|exact V|left; cbn; lia].
    intros wout. unfold handle_spec. cbn [spec set_spec info_of]. rewrite Ec. unfold handle_p. rewrite Hv. reflexivity.
  - destruct (p_buffer _ _ _ _ _ _ _ _ PL) as (B0 & B1). set (o := NumToStr true false true false false).
    destruct (buffer_converts buffer m (proj1 G) B0 B1 (unsigned_to_string_view 16 o q) 16 o q [48; 120] false args3)
      as (C & _ & Hl); [repeat constructor; unfold is_u; lia| |].
    { intros b Hb. apply (unsigned_prints 16 o); [unfold print_base; auto|unfold prefix_good; auto|exact Hr|exact Hb]. }
    destruct (converts_good m s _ _ _ _ _ G C) as (parsed & m' & Eh & G' & Hf & S & V).
    change (chars_of "0x") with [48; 120]. rewrite (digits_of_case 16 upper_options o) by reflexivity.
    eapply (plain_prints_field m s d args p w pr args1 _ args3 _ false m' _ G R El ltac:(tauto));
      [|exact G'|exact Hf|exact S|exact V|left; rewrite length_app; cbn [length]; lia].
    intros wout. unfold handle_spec. cbn [spec set_spec info_of]. rewrite Ec. unfold handle_p. rewrite Hv. cbn [mbind outcome_bind].
    destruct (Z.eqb_spec q 0); [contradiction|]. exact Eh.
Qed.

Lemma iso_amount_args am args w args' : iso_amount am args = Some (w, args') -> good_args args -> good_args args'.
Proof.
  destruct am; cbn; [intros [= _ <-]; auto..|]. destruct args as [|[] args]; try discriminate. intros [= _ <-]. apply good_args_tail.
Qed.
Lemma iso_int_args sg lm args v args' : iso_int sg lm args = Some (v, args') -> good_args args -> good_args args'.
Proof.
  destruct lm, args as [|[] args]; cbn; try discriminate; intros [= _ <-]; apply good_args_tail.
Qed.

(** The characters of the directive are where the format says. *)
Record at_directive (m : mem) (d : directive) (p : Z) : Prop := {
  ad_chars : exists r, holds m p (directive_chars d ++ r);
  ad_fuel : (length (directive_chars d) <= fuel)%nat;
  ad_range : 1 <= p /\ p + Z.of_nat (length (directive_chars d)) < 2 ^ 64 }.

(** Every directive that agrees and is not [%n] prints the text of ISO C. *)
Lemma directive_prints m s d args p text targets args' : good m s -> good_args args -> wf_directive d = true ->
  agrees strs d args = true -> iso_field strs d args = Some (text, targets, args') -> at_directive m d p ->
  d_conv d <> 110 ->
  targets = [] /\ good_args args' /\ prints_field m s args p (last_char d p) text args'.
Proof.
  intros G Ga Hwf Ha Hi [Hch Hfu Hra] H110. unfold agrees in Ha. unfold iso_field in Hi.
  destruct (iso_amount (d_width d) args) as [[w args1]|] eqn:Ew; [|discriminate]. cbn [mbind option_bind] in Hi.
  destruct (iso_amount (d_precision d) args1) as [[pr args2]|] eqn:Ep; [|discriminate]. cbn [mbind option_bind] in Hi.
  fold (iso_precision pr) in Ha, Hi. rewrite !andb_true_iff, !Z.leb_le in Ha. destruct Ha as ((Hw & Hp) & Ha).
  assert (R : reads m d args p w pr args1 args2) by (split; auto).
  pose proof (iso_amount_args _ _ _ _ Ew Ga) as Ga1. pose proof (iso_amount_args _ _ _ _ Ep Ga1) as Ga2.
  rewrite (bool_decide_eq_false_2 (default 0 w < 0)), orb_false_r, Z.abs_eq in Hi by lia.
  destruct (is_int_specifier (d_conv d)) eqn:Ei.
  { destruct (iso_int (signed_conv (d_conv d)) (d_length d) args2) as [[v args3]|] eqn:Ev; [|discriminate].
    cbn [mbind option_bind] in Hi. injection Hi as <- <- <-. split; [reflexivity|]. split; [eapply iso_int_args; eauto|].
    eapply int_prints_field; eauto. }
  rewrite andb_true_iff in Ha. destruct Ha as (El & Ha). assert (El' : d_length d = LNone) by (destruct (d_length d); try discriminate; reflexivity).
  pose proof (wf_directive_parts d Hwf) as (_ & _ & _ & Hc). apply conv_cases in Hc.
  destruct Hc as [Ec|[Ec|[Ec|[Ec|[Ec|[Ec|[Ec|[Ec|[Ec|[Ec|[Ec|[Ec|Ec]]]]]]]]]]]]; rewrite Ec in *; try discriminate; try contradiction.
  - destruct args2 as [|[z| | | |] args2]; try discriminate. injection Hi as <- <- <-.
    split; [reflexivity|]. split; [eapply good_args_tail, Ga2|]. eapply char_prints_field; eauto.
  - destruct args2 as [|[| |q| |] args2]; try discriminate. injection Hi as <- <- <-.
    split; [reflexivity|]. split; [eapply good_args_tail, Ga2|]. eapply str_prints_field; eauto.
    rewrite !orb_true_iff, !Z.eqb_eq, Z.leb_le in Ha. destruct (Z.eqb_spec q 0); tauto.
  - assert (Hq : exists q args3, (args2 = VPtr q :: args3 \/ args2 = VStr q :: args3 \/ args2 = VOut q :: args3) /\
      Some (iso_pad (has_flag d 45) (default 0 w)
        (if q =? 0 then chars_of "(nil)" else chars_of "0x" ++ digits_of 16 upper_options q), [], args3) = Some (text, targets, args')).
    { destruct args2 as [|[z|z|q|q|q] args2]; try discriminate; exists q, args2; (split; [tauto|exact Hi]). }
    destruct Hq as (q & args3 & Hq & Hi'). injection Hi' as <- <- <-. split; [reflexivity|].
    split; [destruct Hq as [->|[->| ->]]; eapply good_args_tail, Ga2|]. eapply ptr_prints_field; eauto.
  - assert (Hi' : Some ([37], [], args2) = Some (text, targets, args')) by (destruct args2; exact Hi). injection Hi' as <- <- <-.
    assert (Hb : bool_decide (d_flags d = []) && bool_decide (w = None) && bool_decide (pr = None) = true) by (destruct args2; exact Ha).
    rewrite !andb_true_iff, !bool_decide_eq_true in Hb. destruct Hb as ((Efl & ->) & ->).
    split; [reflexivity|]. split; [exact Ga2|]. eapply percent_prints_field; eauto.
Qed.

(** ** A round of the loop *)

Definition fmt_rest (p : Z) (chars : list Z) : Prop := exists pre, l = pre ++ chars /\ p = fmt + Z.of_nat (length pre).

Lemma fmt_rest_app p t r : fmt_rest p (t ++ r) -> fmt_rest (p + Z.of_nat (length t)) r.
Proof. intros (pre & E & ->). exists (pre ++ t). rewrite <- app_assoc, length_app. split; [exact E|lia]. Qed.
Lemma fmt_rest_inside p chars : fmt_rest p chars -> inside fmt l p /\ p + Z.of_nat (length chars) = fmt + Z.of_nat (length l).
Proof. intros (pre & E & ->). apply (f_equal length) in E. rewrite length_app in E. unfold inside. lia. Qed.
Lemma fmt_rest_cstr m s p chars : good m s -> fmt_rest p chars -> cstr m p chars.
Proof.
  intros (_ & _ & F & _) (pre & El & ->). destruct (p_fmt _ _ _ _ _ _ _ _ PL) as ((Hh & Hn & F0 & F1) & _ & S).
  rewrite El, <- app_assoc, holds_app in Hh. rewrite El in Hn. apply (f_equal length) in El. destruct Hh as (_ & Hh). apply Forall_app in Hn. destruct Hn as (_ & Hn).
  rewrite length_app in El. split; [|split; [exact Hn|lia]]. eapply holds_ext; [exact Hh|]. intros x Hx. apply F, S.
  rewrite length_app in Hx. cbn [length] in Hx. lia.
Qed.
Lemma fmt_rest_directive m s p d r : good m s -> fmt_rest p (37 :: directive_chars d ++ r) ->
  at_directive m d (p + 1) /\ m p = 37.
Proof.
  intros G Hr. pose proof (fmt_rest_inside _ _ Hr) as (Hi & He). pose proof (fmt_rest_cstr m s _ _ G Hr) as C.
  destruct (p_fmt _ _ _ _ _ _ _ _ PL) as ((_ & _ & F0 & F1) & Hf & _). unfold inside in Hi. cbn [length] in He. rewrite length_app in He.
  apply cstr_cons in C. destruct C as (E & _ & (Hh & _)). split; [|exact E].
  split; [exists (r ++ [0]); rewrite app_assoc; exact Hh|lia|lia].
Qed.

(** The end of a directive: the sink stopped the engine, or the engine goes on after it. *)
Definition directive_end (m : mem) (o text targets : list Z) (p' : Z) (args' : va_list) (r : round_result) : Prop :=
  match r with
  | Returned w' m' s' => good m' s' /\ stage t0 (o ++ text) false s' m' w'
  | Left _ _ _ => False
  | Next it us w' a m' s' => a = args' /\ good m' s' /\ stage t0 (o ++ text) true s' m' w' /\ us = p' /\
      (it = us \/ (it + 1 = us /\ m' it = 110)) /\
      (forall q, q ∈ targets -> load 4 m' q = Z.of_nat (length o)) /\
      (forall x, is_out args0 x -> (forall q, q ∈ targets -> ~ (q <= x < q + 4)) -> m' x = m x)
  end.

Lemma text_kept m s m' o w : good m s -> (forall x, ~ outside s0 x -> m' x = m x) ->
  stage t0 o true s m w -> stage t0 o true s m' w.
Proof.
  intros (_ & Hi & _ & Ho) E (T & ->). split; [|reflexivity]. rewrite <- T. apply text_local; [exact Hi|].
  intros x Hx. apply E. intros Hy. apply Hx, Ho, Hy.
Qed.
Lemma text_array m s m' o w : good m s -> (forall x, ~ in_array buffer x -> m' x = m x) ->
  stage t0 o true s m w -> stage t0 o true s m' w.
Proof. intros G E. apply (text_kept m s m'); auto. intros x Hx. apply E. intros A. apply Hx, (p_array _ _ _ _ _ _ _ _ PL), A. Qed.

Lemma print_directive_lands m s d args p text args' o r : good m s -> fmt_rest p (37 :: directive_chars d ++ r) ->
  prints_field m s args (p + 1) (last_char d (p + 1)) text args' ->
  stage t0 o true s m (Z.of_nat (length o)) -> Z.of_nat (length (o ++ text)) < 2 ^ 32 -> m (p + 1) <> 0 ->
  lands (directive_end m o text [] (p + 1 + Z.of_nat (length (directive_chars d))) args')
    (format_directive fuel lit buffer m s args (Z.of_nat (length o)) (p + 1)).
Proof.
  intros G Hfr (i & argsx & number & z & parsed & z' & is_null & m1 & pc & zeros & spaces & Ep & Eh & G1 & Hf & S & V & Hvi & Hne & Epad & Ef) T Hb Hz.
  unfold format_directive. destruct (Z.eqb_spec (m (p + 1)) 0); [contradiction|]. rewrite Ep. cbn [mbind outcome_bind].
  rewrite Eh. cbn [mbind outcome_bind]. rewrite <- Ef in *.
  eapply lands_bind; [apply (write_field_lands fuel lit buffer m0 s0 args0 fmt l PL LT t0 (set_spec i (m (last_char d (p + 1)))) parsed pc z' is_null
    (Z.of_nat (length o)) m1 s o zeros spaces G1 S V Hvi (text_array m s m1 o _ G Hf T) ltac:(lia) Epad Hne Hb)|].
  intros [[[w' c] m2] s2] (G2 & _ & T2 & K2). rewrite Zplus_minus in T2.
  destruct c; cbn [negb]; apply lands_ok; cbn [directive_end]; [|auto].
  split; [reflexivity|]. split; [exact G2|]. split; [exact T2|]. unfold last_char.
  split; [lia|]. split; [left; lia|]. split; [intros q Hq; apply elem_of_nil in Hq; contradiction|].
  intros x Hx _. destruct (p_outs _ _ _ _ _ _ _ _ PL x Hx) as (Ho & Hna). rewrite <- (Hf x Hna). apply K2, G1, Ho.
Qed.

Lemma n_directive_lands m s d args p args' o q r : good m s -> good_args (VOut q :: args') ->
  fmt_rest p (37 :: directive_chars d ++ r) -> reads m d args (p + 1) None None args (VOut q :: args') ->
  d_length d = LNone -> d_conv d = 110 -> stage t0 o true s m (Z.of_nat (length o)) ->
  Z.of_nat (length o) < 2 ^ 32 -> m (p + 1) <> 0 ->
  lands (directive_end m o [] [q] (p + 1 + Z.of_nat (length (directive_chars d))) args')
    (format_directive fuel lit buffer m s args (Z.of_nat (length o)) (p + 1)).
Proof.
  intros G Ga Hfr R El Ec T Hb Hz. unfold format_directive. destruct (Z.eqb_spec (m (p + 1)) 0); [contradiction|].
  destruct (parse_reads _ _ _ _ _ _ _ _ (proj1 G) R) as (Eq & Ep & _). rewrite (Ep El). cbn [mbind outcome_bind].
  unfold handle_spec. cbn [spec set_spec info_of]. rewrite Eq, Ec. unfold handle_n. cbn [length_sv set_spec info_of SV_EMPTY sv_length Z.eqb va_out mbind outcome_bind].
  assert (Hq : VOut q ∈ args0) by (apply Ga; left).
  assert (E : forall x, ~ is_out args0 x -> store 4 m q (Z.of_nat (length o)) x = m x).
  { intros x Hx. rewrite store_spec. wcase; [|reflexivity]. exfalso. apply Hx. exists q. split; [exact Hq|lia]. }
  apply lands_ok. cbn [directive_end]. rewrite app_nil_r. split; [reflexivity|].
  split; [exact (good_out fuel lit buffer m0 s0 args0 fmt l PL m s 4 q _ G Hq ltac:(lia))|].
  split; [apply (text_kept m s); auto; intros x Hx; apply E; intros A; apply Hx, (p_outs _ _ _ _ _ _ _ _ PL), A|].
  unfold last_char. split; [lia|]. split; [right; split; [lia|]|split].
  - rewrite E; [rewrite <- Ec, <- Eq; reflexivity|]. intros A.
    destruct (p_fmt _ _ _ _ _ _ _ _ PL) as (_ & _ & S). pose proof (fmt_rest_inside _ _ Hfr) as (Hi & He). unfold inside in Hi.
    cbn [length] in He. rewrite length_app in He. destruct (S (p + 1 + Z.of_nat (length (directive_chars d)) - 1)) as (_ & _ & Hno); [|exact (Hno A)].
    unfold directive_chars in *. rewrite !length_app in *. cbn [length] in *. lia.
  - intros q' Hq'. apply list_elem_of_singleton in Hq'. subst q'. rewrite load_store. apply Z.mod_small. lia.
  - intros x _ Hx. specialize (Hx q ltac:(left)). rewrite store_spec. wcase; [lia|reflexivity].
Qed.

(** *** The texts between directives *)

Lemma strchr_reads m : mem_ok m -> forall t n p r, forallb (fun c => negb (c =? 37)) t = true -> Forall (fun c => c <> 0) t ->
  (length t <= n)%nat ->
  (holds m p (t ++ 37 :: r) -> strchr n a m p 37 = Ok (Some (p + Z.of_nat (length t)))) /\
  (holds m p (t ++ [0]) -> strchr n a m p 37 = Ok None).
Proof.
  intros Hm. induction t as [|c t IH]; intros n p r Ht Hz Hn.
  - split; intros Hh; apply holds_cons in Hh; destruct Hh as (E & _); pose proof (as_char_percent a (m p) (Hm p)) as A;
      rewrite E in A; destruct n; cbn [strchr]; rewrite E; cbn [Z.eqb Pos.eqb length]; rewrite ?A, ?Z.add_0_r; reflexivity.
  - cbn [forallb length app] in *. apply andb_true_iff in Ht. destruct Ht as (Hc & Ht). apply negb_true_iff in Hc.
    apply List.Forall_cons_iff in Hz. destruct Hz as (Hc0 & Hz). destruct n as [|n]; [lia|].
    destruct (IH n (p + 1) r Ht Hz ltac:(lia)) as (IH1 & IH2). pose proof (as_char_percent a (m p) (Hm p)) as A.
    split; intros Hh; apply holds_cons in Hh; destruct Hh as (E & Hh); rewrite E in A; cbn [strchr]; rewrite E, A, Hc;
      (destruct (Z.eqb_spec c 0); [contradiction|]); [rewrite (IH1 Hh); do 2 f_equal; lia|exact (IH2 Hh)].
Qed.

(** The scan for the next percent sign may begin at the [n] of a [%n]. *)
Definition start_ok (m : mem) (it us : Z) : Prop := it = us \/ (it + 1 = us /\ m it = 110 /\ fmt <= it).

Lemma next_percent m s it us t r : good m s -> start_ok m it us -> fmt_rest us (t ++ r) ->
  forallb (fun c => negb (c =? 37)) t = true ->
  (forall r', r = 37 :: r' -> strchr fuel a m it 37 = Ok (Some (us + Z.of_nat (length t)))) /\
  (r = [] -> strchr fuel a m it 37 = Ok None).
Proof.
  intros G Hst Hr Ht. pose proof (fmt_rest_inside _ _ Hr) as (Hi & He). unfold inside in Hi. rewrite length_app in He.
  destruct (p_fmt _ _ _ _ _ _ _ _ PL) as (_ & Hf & _). destruct (fmt_rest_cstr m s _ _ G Hr) as (Hh & Hz & _).
  apply Forall_app in Hz. destruct Hz as (Hz & _). rewrite <- app_assoc in Hh. destruct Hst as [->|(Hit & E110 & Hge)].
  - split; [intros r' ->|intros ->]; (eapply (proj1 (strchr_reads m (proj1 G) t fuel us (_ ++ [0]) Ht Hz ltac:(lia)))) ||
      (eapply (proj2 (strchr_reads m (proj1 G) t fuel us [] Ht Hz ltac:(lia)))); exact Hh.
  - assert (Hh' : holds m it ((110 :: t) ++ r ++ [0])).
    { cbn [app]. apply holds_cons. rewrite Hit. auto. }
    assert (Ht' : forallb (fun c => negb (c =? 37)) (110 :: t) = true) by exact Ht.
    assert (Hz' : Forall (fun c => c <> 0) (110 :: t)) by (constructor; [discriminate|exact Hz]).
    split; [intros r' ->|intros ->].
    + rewrite (proj1 (strchr_reads m (proj1 G) (110 :: t) fuel it (r' ++ [0]) Ht' Hz' ltac:(cbn [length] in *; lia)) Hh').
      do 2 f_equal. cbn [length]. lia.
    + apply (proj2 (strchr_reads m (proj1 G) (110 :: t) fuel it [] Ht' Hz' ltac:(cbn [length] in *; lia)) Hh').
Qed.

Lemma fmt_view us t r : fmt_rest us (t ++ r) -> Z.of_nat (length t) < 2 ^ 32 ->
  sv_create_end us (us + Z.of_nat (length t)) = Ok (SV us (Z.of_nat (length t))) /\
  seen (SV us (Z.of_nat (length t))) /\ forall m s, good m s -> sv_chars m (SV us (Z.of_nat (length t))) = t.
Proof.
  intros Hr Hl. pose proof (fmt_rest_inside _ _ Hr) as (Hi & He). unfold inside in Hi. rewrite length_app in He.
  destruct (p_fmt _ _ _ _ _ _ _ _ PL) as (_ & Hf & S). split; [|split].
  - unfold sv_create_end, c_assert, sv_create_nocheck, distance. destruct (Z.leb_spec us (us + Z.of_nat (length t))); [|lia].
    cbn [mbind outcome_bind]. rewrite !wrap_small; unfold is_u; rewrite ?wrap_small; unfold is_u; try lia. do 2 f_equal. lia.
  - split; cbn; [lia|]. intros x Hx. left. apply S. lia.
  - intros m s G. destruct (fmt_rest_cstr m s _ _ G Hr) as (Hh & _). rewrite <- app_assoc, holds_app in Hh.
    unfold sv_chars. cbn. rewrite Nat2Z.id. apply Hh.
Qed.

(** *** After the loop *)

Lemma finish_lands m s us tail o : good m s -> fmt_rest us tail -> stage t0 o true s m (Z.of_nat (length o)) ->
  Z.of_nat (length (o ++ tail)) < 2 ^ 32 ->
  lands (fun r => let '(w', m', s') := r in good m' s' /\ exists c, stage t0 (o ++ tail) c s' m' w' /\
    forall x, is_out args0 x -> m' x = m x) (printf_finish fuel m s (Z.of_nat (length o)) us true).
Proof.
  intros G Hr T Hb. unfold printf_finish. pose proof (fmt_rest_cstr m s _ _ G Hr) as C.
  pose proof (fmt_rest_inside _ _ Hr) as (Hi & He). unfold inside in Hi.
  destruct (p_fmt _ _ _ _ _ _ _ _ PL) as (_ & Hf & S). destruct tail as [|c tail].
  { rewrite (cstr_nil _ _ C). cbn [Z.eqb]. apply lands_ok. rewrite app_nil_r. split; [exact G|]. exists true. auto. }
  pose proof (cstr_cons _ _ _ _ C) as (-> & Hc & _). destruct (Z.eqb_spec c 0); [contradiction|]. set (t := c :: tail) in *.
  rewrite (strlen_cstr fuel m us t C) by lia. cbn [mbind outcome_bind]. destruct C as (_ & _ & F0 & F1).
  assert (Hl : Z.of_nat (length t) < 2 ^ 32) by (rewrite length_app in Hb; lia).
  rewrite wrap_small by (unfold is_u; lia). rewrite sv_create_length_fine by lia. cbn [mbind outcome_bind].
  rewrite <- (app_nil_r t) in Hr. destruct (fmt_view us t [] Hr Hl) as (_ & Sn & Ch).
  eapply lands_bind; [apply (call_cb_lands fuel lit buffer m0 s0 args0 fmt l PL t0 None m s _ true o _ G Sn T)|].
  intros [[[k c1] m1] s1] W. rewrite (Ch m s G) in W. pose proof W as (G1 & Nk & T1 & K1). apply lands_ok. split; [exact G1|]. exists c1.
  rewrite wrap_small by (unfold is_u; eapply stage_bound; eauto). split; [exact T1|].
  intros x Hx. apply K1, G, (p_outs _ _ _ _ _ _ _ _ PL), Hx.
Qed.
Lemma finish_halted m s us rest o w : good m s -> fmt_rest us rest -> halted t0 o s m w ->
  lands (fun r => let '(w', m', s') := r in good m' s' /\ halted t0 o s' m' w') (printf_finish fuel m s w us false).
Proof.
  intros G Hr Hh. unfold printf_finish. pose proof (fmt_rest_cstr m s _ _ G Hr) as C.
  pose proof (fmt_rest_inside _ _ Hr) as (Hi & He). unfold inside in Hi.
  destruct (p_fmt _ _ _ _ _ _ _ _ PL) as (_ & Hf & S). destruct (m us =? 0); [apply lands_ok; auto|].
  rewrite (strlen_cstr fuel m us rest C) by lia. cbn [mbind outcome_bind]. destruct C as (_ & _ & F0 & F1).
  set (n := Z.of_nat (length rest)) in *.
  assert (Hu : 0 <= u32 n <= n) by (unfold wrap; split; [apply Z.mod_pos_bound; lia|apply Z.mod_le; lia]).
  pose proof (wrap_bound 32 n ltac:(lia)) as Hw. unfold is_u in Hw. rewrite sv_create_length_fine by lia. cbn [mbind outcome_bind].
  assert (Sn : seen (SV us (u32 n))) by (split; cbn; [lia|]; intros x Hx; left; apply S; lia).
  eapply lands_bind; [apply (call_cb_halted fuel lit buffer m0 s0 args0 fmt l PL t0 None m s _ o w G Sn Hh)|].
  intros [[[k c1] m1] s1] (G1 & Hh1). apply lands_ok. split; [exact G1|].
  rewrite wrap_small by (unfold is_u; eapply halted_bound; eauto). exact Hh1.
Qed.

(** *** The loop *)

Lemma iso_amount_absent am args args' : iso_amount am args = Some (None, args') -> args' = args.
Proof. destruct am as [| |]; cbn; [intros [= <-]; reflexivity|discriminate|]. destruct args as [|[] args]; discriminate. Qed.

Lemma directive_lands m s d args p text targets args' o r : good m s -> good_args args -> wf_directive d = true ->
  agrees strs d args = true -> iso_field strs d args = Some (text, targets, args') ->
  fmt_rest p (37 :: directive_chars d ++ r) -> stage t0 o true s m (Z.of_nat (length o)) ->
  Z.of_nat (length (o ++ text)) < 2 ^ 32 ->
  good_args args' /\
  lands (directive_end m o text targets (p + 1 + Z.of_nat (length (directive_chars d))) args')
    (format_directive fuel lit buffer m s args (Z.of_nat (length o)) (p + 1)).
Proof.
  intros G Ga Hwf Ha Hi Hr T Hb. destruct (fmt_rest_directive m s p d r G Hr) as (AD & _).
  assert (Hz : m (p + 1) <> 0).
  { pose proof (fmt_rest_cstr m s _ _ G Hr) as C. apply cstr_cons in C. destruct C as (_ & _ & C).
    assert (Hd : directive_chars d <> []) by (unfold directive_chars; intros E; apply (f_equal length) in E; rewrite !length_app in E; cbn in E; lia).
    destruct (directive_chars d) as [|c r1]; [contradiction|]. cbn [app] in C. apply cstr_cons in C. destruct C as (-> & C & _). exact C. }
  destruct (Z.eq_dec (d_conv d) 110) as [Ec|Ec].
  - unfold agrees in Ha. unfold iso_field in Hi.
    destruct (iso_amount (d_width d) args) as [[w args1]|] eqn:Ew; [|discriminate]. cbn [mbind option_bind] in Hi.
    destruct (iso_amount (d_precision d) args1) as [[pr args2]|] eqn:Ep; [|discriminate]. cbn [mbind option_bind] in Hi.
    rewrite Ec in Ha, Hi. cbn [is_int_specifier Z.eqb Pos.eqb orb] in Ha, Hi. rewrite !andb_true_iff in Ha. destruct Ha as (_ & El & Ha).
    destruct args2 as [|[| | |q|] args2]; try discriminate. injection Hi as <- <- <-.
    rewrite !bool_decide_eq_true in Ha. destruct Ha as ((_ & ->) & ->).
    pose proof (iso_amount_absent _ _ _ Ew) as ->. pose proof (iso_amount_absent _ _ _ Ep) as <-.
    split; [eapply good_args_tail, Ga|]. rewrite app_nil_r in Hb. destruct AD as [Hch Hfu Hra].
    eapply n_directive_lands; eauto; [split; auto; cbn; lia|destruct (d_length d); try discriminate; reflexivity].
  - destruct (directive_prints m s d args (p + 1) text targets args' G Ga Hwf Ha Hi AD Ec) as (-> & Ga' & PF).
    split; [exact Ga'|]. eapply print_directive_lands; eauto.
Qed.

Lemma round_lands m s t d args us text targets args' o r : good m s -> good_args args -> wf_directive d = true ->
  agrees strs d args = true -> iso_field strs d args = Some (text, targets, args') ->
  fmt_rest us (t ++ 37 :: directive_chars d ++ r) -> stage t0 o true s m (Z.of_nat (length o)) ->
  Z.of_nat (length ((o ++ t) ++ text)) < 2 ^ 32 ->
  good_args args' /\
  lands (fun x => match x with
      | Left w' m' s' => good m' s' /\ stage t0 (o ++ t) false s' m' w'
      | _ => directive_end m (o ++ t) text targets (us + Z.of_nat (length t) + 1 + Z.of_nat (length (directive_chars d))) args' x
      end)
    (printf_round fuel lit buffer m s args (Z.of_nat (length o)) us (us + Z.of_nat (length t))).
Proof.
  intros G Ga Hwf Ha Hi Hr T Hb. unfold printf_round.
  assert (Hb1 : Z.of_nat (length (o ++ t)) < 2 ^ 32) by (rewrite !length_app in *; lia).
  destruct (fmt_view us t _ Hr ltac:(rewrite !length_app in Hb; lia)) as (Ev & Sn & Ch). rewrite Ev. cbn [mbind outcome_bind].
  destruct (call_cb_lands fuel lit buffer m0 s0 args0 fmt l PL t0 None m s _ true o _ G Sn T) as ([[[k c] m1] s1] & -> & W).
  rewrite (Ch m s G) in W. pose proof W as (G1 & Nk & T1 & K1). cbn [mbind outcome_bind].
  assert (Hw : u32 (Z.of_nat (length o) + k) = Z.of_nat (length o) + k) by (apply wrap_small; unfold is_u; eapply stage_bound; eauto).
  rewrite Hw. pose proof (fmt_rest_app _ _ _ Hr) as Hr1.
  assert (L : good_args args') by (destruct (directive_lands m s d args _ text targets args' o r G Ga Hwf Ha Hi Hr1 T) as (X & _); [rewrite !length_app in *; lia|exact X]).
  split; [exact L|]. destruct c; cbn [negb]; [|apply lands_ok; auto].
  pose proof T1 as (_ & El). rewrite El in *.
  destruct (directive_lands m1 s1 d args _ text targets args' (o ++ t) r G1 Ga Hwf Ha Hi Hr1 T1 Hb) as (_ & D).
  eapply lands_impl; [exact D|]. intros [w' m' s'|w' m' s'|it us' w' a' m' s']; cbn [directive_end]; auto; [tauto|].
  intros (X1 & X2 & X3 & X4 & X5 & X6 & X7). split_and?; auto. intros x Hx Hq. rewrite (X7 x Hx Hq).
  apply K1, G, (p_outs _ _ _ _ _ _ _ _ PL), Hx.
Qed.

(** The targets of [%n] do not overlap. *)
Definition apart (x y : Z * Z) : Prop := disjoint_regions (fst x) 4 (fst y) 4.
Definition stored (m m' : mem) (stores : list (Z * Z)) : Prop :=
  (forall q v, (q, v) ∈ stores -> load 4 m' q = v) /\
  (forall x, is_out args0 x -> (forall q v, (q, v) ∈ stores -> ~ (q <= x < q + 4)) -> m' x = m x).

Lemma iso_field_targets d args text targets args' q : iso_field strs d args = Some (text, targets, args') ->
  q ∈ targets -> good_args args -> VOut q ∈ args0.
Proof.
  unfold iso_field. destruct (iso_amount (d_width d) args) as [[w args1]|] eqn:Ew; [|discriminate]. cbn [mbind option_bind].
  destruct (iso_amount (d_precision d) args1) as [[pr args2]|] eqn:Ep; [|discriminate]. cbn [mbind option_bind].
  intros Hi Hq Ga. pose proof (iso_amount_args _ _ _ _ Ep (iso_amount_args _ _ _ _ Ew Ga)) as Ga2.
  destruct (is_int_specifier (d_conv d)).
  - destruct (iso_int _ _ args2) as [[v args3]|]; [|discriminate]. cbn in Hi. injection Hi as <- <- <-. apply elem_of_nil in Hq. contradiction.
  - repeat (case_match; try discriminate; simplify_eq); try (apply elem_of_nil in Hq; contradiction).
    apply list_elem_of_singleton in Hq. subst. apply Ga2. left.
Qed.

Lemma stored_step m m1 m' targets n stores : (forall q, q ∈ targets -> VOut q ∈ args0) ->
  (forall q, q ∈ targets -> load 4 m1 q = n) ->
  (forall x, is_out args0 x -> (forall q, q ∈ targets -> ~ (q <= x < q + 4)) -> m1 x = m x) ->
  ForallOrdPairs apart (map (fun q => (q, n)) targets ++ stores) ->
  stored m1 m' stores -> stored m m' (map (fun q => (q, n)) targets ++ stores).
Proof.
  intros Ht Hl Hf Ha (Hs & Hfs).
  assert (Hmap : forall q v, (q, v) ∈ map (fun q => (q, n)) targets <-> q ∈ targets /\ v = n).
  { intros q v. rewrite list_elem_of_fmap. split; [intros (y & [= -> ->] & Hy); auto|intros (Hq & ->); eauto]. }
  split.
  - intros q v Hq. apply elem_of_app in Hq. destruct Hq as [Hq|Hq]; [|exact (Hs q v Hq)].
    apply Hmap in Hq. destruct Hq as (Hq & ->). rewrite <- (Hl q Hq). apply load_ext. intros i Hi. apply Hfs.
    + exists q. split; [apply Ht, Hq|lia].
    + intros q' v' Hq' Hin.
      assert (Hd : forall ts, ForallOrdPairs apart (map (fun q => (q, n)) ts ++ stores) -> q ∈ ts -> apart (q, n) (q', v')).
      { induction ts as [|y ts IH]; intros Hop Hy; [apply elem_of_nil in Hy; contradiction|]. cbn in Hop. inversion Hop as [|? ? H1' H2']; subst.
        apply elem_of_cons in Hy. destruct Hy as [->|Hy]; [|apply IH; auto]. rewrite list.Forall_forall in H1'. apply H1', elem_of_app. auto. }
      specialize (Hd targets Ha Hq). unfold apart, disjoint_regions in Hd. cbn in Hd. lia.
  - intros x Hx Hn. rewrite Hfs; [apply Hf; [exact Hx|]|exact Hx|].
    + intros q Hq. apply (Hn q n), elem_of_app. left. apply Hmap. auto.
    + intros q v Hq. apply (Hn q v), elem_of_app. auto.
Qed.

Lemma ordpairs_app_r {A} (R : A -> A -> Prop) l1 l2 : ForallOrdPairs R (l1 ++ l2) -> ForallOrdPairs R l2.
Proof. induction l1 as [|x l1 IH]; [auto|]. cbn. intros Ho. inversion Ho; subst. auto. Qed.

Lemma format_chars_cons t d fs tail :
  format_chars (Format ((t, d) :: fs) tail) = t ++ 37 :: directive_chars d ++ format_chars (Format fs tail).
Proof. unfold format_chars. cbn. rewrite <- !app_assoc. cbn. rewrite <- ?app_assoc. reflexivity. Qed.

Lemma loop_lands : forall fs tail n m s args us it o out stores, good m s -> good_args args -> start_ok m it us ->
  fmt_rest us (format_chars (Format fs tail)) -> stage t0 o true s m (Z.of_nat (length o)) ->
  fields_agree strs fs args = true -> forallb (fun c => negb (c =? 37)) tail = true ->
  iso_fields strs fs (Z.of_nat (length o)) args = Some (out, stores) ->
  Z.of_nat (length (o ++ out ++ tail)) < 2 ^ 32 -> (length fs <= n)%nat -> ForallOrdPairs apart stores ->
  lands (fun r => let '(w', m', s') := r in good m' s' /\ exists c, stage t0 (o ++ out ++ tail) c s' m' w' /\
    (c = true -> stored m m' stores))
    (printf_loop a fuel lit buffer n m s args (Z.of_nat (length o)) us it).
Proof.
  induction fs as [|[t d] fs IH]; intros tail n m s args us it o out stores G Ga Hst Hr T Hag Htl Hi Hb Hn Hap.
  - cbn in Hi. injection Hi as <- <-. change (format_chars (Format [] tail)) with tail in Hr.
    assert (Hr' : fmt_rest us (tail ++ [])) by (rewrite app_nil_r; exact Hr).
    destruct n; cbn [printf_loop]; rewrite (proj2 (next_percent m s it us tail [] G Hst Hr' Htl) eq_refl); cbn [mbind outcome_bind];
      (eapply lands_impl; [apply (finish_lands m s us tail o G Hr T Hb)|]); intros [[w' m'] s'] (G' & c & T' & K); (split; [exact G'|]); exists c;
      (split; [exact T'|]); intros _; (split; [intros q v Hq; apply elem_of_nil in Hq; contradiction|]); intros x Hx _; exact (K x Hx).
  - cbn [fields_agree] in Hag. rewrite !andb_true_iff in Hag. destruct Hag as (((Ht & Hwf) & Ha) & Hag). cbn [iso_fields] in Hi.
    destruct (iso_field strs d args) as [[[text targets] args']|] eqn:Ef; [|discriminate]. cbn [mbind option_bind] in Hi.
    destruct (iso_fields strs fs _ args') as [[rest stores']|] eqn:Er; [|discriminate]. cbn [mbind option_bind] in Hi. injection Hi as <- <-.
    rewrite format_chars_cons in Hr. set (fc := format_chars (Format fs tail)) in *.
    assert (Hb1 : Z.of_nat (length ((o ++ t) ++ text)) < 2 ^ 32) by (rewrite !length_app in *; lia).
    destruct (round_lands m s t d args us text targets args' o fc G Ga Hwf Ha Ef Hr T Hb1) as (Ga' & x & Ex & HD).
    destruct n as [|n]; [cbn [length] in Hn; lia|]. cbn [printf_loop].
    rewrite (proj1 (next_percent m s it us t _ G Hst Hr Ht) _ eq_refl). cbn [mbind outcome_bind]. rewrite Ex. cbn [mbind outcome_bind].
    replace (o ++ (t ++ text ++ rest) ++ tail) with ((o ++ t) ++ text ++ rest ++ tail) in * by (rewrite <- !app_assoc; reflexivity).
    destruct x as [w' m' s'|w' m' s'|it1 us1 w1 a1 m1 s1].
    + destruct HD as (G' & T'). apply lands_ok. split; [exact G'|]. exists false. split; [|discriminate].
      rewrite app_assoc. apply stage_more, T'.
    + destruct HD as (G' & o' & Hp & Hh). eapply lands_impl; [apply (finish_halted m' s' us _ o' w' G' Hr Hh)|].
      intros [[w2 m2] s2] (G2 & Hh2). split; [exact G2|]. exists false. split; [|discriminate]. exists o'. split; [apply prefix_app_r, Hp|exact Hh2].
    + destruct HD as (-> & G1 & T1 & Hus & Hit & Hst1 & Hfr1). pose proof T1 as (_ & ->). subst us1.
      assert (Hr1 : fmt_rest (us + Z.of_nat (length t) + 1 + Z.of_nat (length (directive_chars d))) fc).
      { apply fmt_rest_app in Hr. change (37 :: directive_chars d ++ fc) with ([37] ++ directive_chars d ++ fc) in Hr.
        apply fmt_rest_app in Hr. apply fmt_rest_app in Hr. exact Hr. }
      assert (Hst2 : start_ok m1 it1 (us + Z.of_nat (length t) + 1 + Z.of_nat (length (directive_chars d)))).
      { destruct Hit as [->|(Hit & E110)]; [left; reflexivity|right]. split; [exact Hit|]. split; [exact E110|].
        pose proof (fmt_rest_inside _ _ Hr) as (Hin & _). unfold inside in Hin. lia. }
      replace (Z.of_nat (length o) + Z.of_nat (length t + length text)) with (Z.of_nat (length ((o ++ t) ++ text))) in Er
        by (rewrite !length_app; lia).
      replace ((o ++ t) ++ text ++ rest ++ tail) with (((o ++ t) ++ text) ++ rest ++ tail) in * by (rewrite <- !app_assoc; reflexivity).
      eapply lands_impl; [apply (IH tail n m1 s1 args' _ it1 ((o ++ t) ++ text) rest stores'); auto; [cbn [length] in Hn; lia|eapply ordpairs_app_r; exact Hap]|].
      intros [[w2 m2] s2] (G2 & c2 & T2 & K2). split; [exact G2|]. exists c2. split; [exact T2|]. intros Hc. specialize (K2 Hc).
      replace (Z.of_nat (length o) + Z.of_nat (length t)) with (Z.of_nat (length (o ++ t))) in * by (rewrite length_app; lia).
      eapply stored_step; eauto. intros q Hq. eapply iso_field_targets; eauto.
Qed.

Lemma fields_length fs tail : (length fs <= length (format_chars (Format fs tail)))%nat.
Proof.
  induction fs as [|[t d] fs IH]; [cbn; lia|]. rewrite format_chars_cons. rewrite length_app. cbn [length]. rewrite length_app. lia.
Qed.

Lemma parse_printf_lands f out stores : cbo_size = 0 \/ pow2_64 cbo_size -> mem_ok m0 -> sink_inv s0 m0 -> text s0 m0 = t0 ->
  l = format_chars f -> format_agrees strs f args0 = true -> iso_format strs f args0 = Some (out, stores) ->
  Z.of_nat (length out) < 2 ^ 32 -> ForallOrdPairs apart stores ->
  lands (fun r => let '(w, m, s) := r in good m s /\ exists c, stage t0 out c s m w /\
    (c = true -> forall q v, (q, v) ∈ stores -> load 4 m q = v))
    (parse_printf a cbo_size fuel lit buffer m0 s0 fmt args0).
Proof.
  intros Hc Hm Hi Ht El Hag Hiso Hb Hap. unfold parse_printf. destruct (p_buffer _ _ _ _ _ _ _ _ PL) as (B0 & B1).
  destruct (bzero_spec a cbo_size m0 buffer (MAX_CONVERT_CAP + 3)) as (m1 & -> & F); [unfold MAX_CONVERT_CAP, MAX_BINARY_CONVERT_CAP; lia|exact Hc|].
  cbn [mbind outcome_bind]. assert (G0 : good m0 s0) by (unfold PrintfSafe.good; auto).
  assert (Hf : forall x, ~ in_array buffer x -> m1 x = m0 x) by (intros x Hx; rewrite F; wcase; [contradiction|reflexivity]).
  assert (G1 : good m1 s0).
  { apply (good_array fuel lit buffer m0 s0 args0 fmt l PL m0 s0 m1 G0); [eapply filled_ok; [exact Hm| |exact F]; unfold is_u; lia|exact Hf]. }
  unfold iso_format in Hiso. destruct (iso_fields strs (f_fields f) 0 args0) as [[out1 st]|] eqn:Ei; [|discriminate].
  cbn in Hiso. injection Hiso as <- <-. unfold format_agrees in Hag. rewrite andb_true_iff in Hag. destruct Hag as (Hag & Htl).
  destruct f as [fs tail]. cbn [f_fields f_tail] in *.
  assert (T0 : stage t0 [] true s0 m0 (Z.of_nat (length (@nil Z)))) by (split; [rewrite app_nil_r; exact Ht|reflexivity]).
  assert (Hfs : (length fs <= fuel)%nat).
  { destruct (p_fmt _ _ _ _ _ _ _ _ PL) as (_ & Hl & _). pose proof (fields_length fs tail). apply (f_equal length) in El. lia. }
  eapply lands_impl; [apply (loop_lands fs tail fuel m1 s0 args0 fmt fmt [] out1 st); auto|].
  - intros v; auto.
  - left; reflexivity.
  - exists []. split; [exact El|cbn; lia].
  - exact (text_array m0 s0 m1 [] _ G0 Hf T0).
  - intros [[w m] s] (G & c & T & K). split; [exact G|]. exists c. split; [exact T|]. intros E. apply (K E).
Qed.
End Engine.

(** ** The buffer of lib/format.c *)

Definition buffer_halted (t0 o : list Z) (mb : mutable_buffer) (m : mem) (w : Z) : Prop :=
  let cap := mb_end mb - mb_begin mb in
  mb_index mb = cap /\ mb_contents m mb = take (Z.to_nat cap) (t0 ++ o) /\ cap < Z.of_nat (length (t0 ++ o)) /\
  w = cap - Z.of_nat (length t0) /\ 0 <= w /\ mb_wf mb.

Lemma length_contents m mb : mb_wf mb -> Z.of_nat (length (mb_contents m mb)) = mb_index mb.
Proof. intros (_ & Hi & _). unfold mb_contents. rewrite length_bytes_at. lia. Qed.

(** Appending [d], of which [k] characters fit. *)
Lemma buffer_stage t0 o d m m' mb mb' k n : mb_wf mb -> mb_wf mb' -> mb_contents m mb = t0 ++ o -> n = Z.of_nat (length d) ->
  k = Z.min n (mb_end mb - (mb_begin mb + mb_index mb)) ->
  mb_begin mb' = mb_begin mb -> mb_end mb' = mb_end mb -> mb_index mb' = mb_index mb + k ->
  mb_contents m' mb' = mb_contents m mb ++ take (Z.to_nat k) d ->
  stage_of (fun mb m => mb_contents m mb) buffer_halted t0 (o ++ d) (if negb (k =? n) then false else true) mb' m'
    (Z.of_nat (length o) + k).
Proof.
  intros W W' Et En Ek Eb Ee Ei Ec. pose proof (length_contents m mb W) as Hl. rewrite Et, length_app in Hl.
  pose proof W as (W1 & W2 & W3 & W4 & W5). destruct (Z.eqb_spec k n) as [E|E]; cbn [negb].
  - split; [|rewrite length_app; lia]. rewrite Ec, Et, take_ge by lia. rewrite app_assoc. reflexivity.
  - exists (o ++ d). split; [reflexivity|]. unfold buffer_halted. rewrite Eb, Ee, Ei. split; [lia|].
    split; [|rewrite !length_app in *; split; [lia|split; [lia|split; [lia|exact W']]]].
    rewrite Ec, Et. rewrite app_assoc, take_app. f_equal.
    + symmetry. apply take_ge. rewrite length_app. lia.
    + f_equal. rewrite length_app. lia.
Qed.

Lemma append_byte_spec a m mb ch n : mb_wf mb -> mem_ok m -> 0 <= ch < 256 -> 0 <= n ->
  exists k m' mb', mbuffer_append_byte a m mb ch n = Ok (k, m', mb') /\
    k = Z.min n (mb_end mb - (mb_begin mb + mb_index mb)) /\ mb_wf mb' /\
    mb_begin mb' = mb_begin mb /\ mb_end mb' = mb_end mb /\ mb_index mb' = mb_index mb + k /\
    mb_contents m' mb' = mb_contents m mb ++ take (Z.to_nat k) (replicate (Z.to_nat n) ch).
Proof.
  intros W Hm Hc Hn. unfold mbuffer_append_byte. destruct (preprocess_for_append_spec mb n W Hn) as (E & W' & K). rewrite E.
  destruct W as (? & ? & ? & ? & ?). set (k := Z.min _ _) in *.
  destruct (memset_spec a m (mb_begin mb + mb_index mb) ch k K Hc) as (m' & -> & F). cbn [mbind outcome_bind].
  eexists k, m', _. split; [reflexivity|]. split; [reflexivity|]. split; [exact W'|]. split; [reflexivity|]. split; [reflexivity|]. split; [reflexivity|].
  unfold mb_contents. cbn [mb_begin mb_index]. replace (Z.to_nat (mb_index mb + k)) with (Z.to_nat (mb_index mb) + Z.to_nat k)%nat by lia.
  rewrite bytes_at_app, Z2Nat.id by lia. f_equal.
  - eapply filled_frame; [exact F|]. unfold disjoint_regions. lia.
  - rewrite (filled_bytes _ _ _ _ _ K F), take_replicate. f_equal. lia.
Qed.

Lemma append_sv_spec a m mb sv : mb_wf mb -> mem_ok m -> 0 <= sv_length sv ->
  (forall x, sv_begin sv <= x < sv_begin sv + sv_length sv -> buffer_outside mb x) ->
  exists k m' mb', mbuffer_append_sv a m mb sv = Ok (k, m', mb') /\
    k = Z.min (sv_length sv) (mb_end mb - (mb_begin mb + mb_index mb)) /\ mb_wf mb' /\
    mb_begin mb' = mb_begin mb /\ mb_end mb' = mb_end mb /\ mb_index mb' = mb_index mb + k /\
    mb_contents m' mb' = mb_contents m mb ++ take (Z.to_nat k) (sv_chars m sv).
Proof.
  intros W Hm Hn Hx. unfold mbuffer_append_sv, mbuffer_append_data.
  destruct (preprocess_for_append_spec mb (sv_length sv) W Hn) as (E & W' & K). rewrite E.
  pose proof W as (? & ? & ? & ? & ?). set (k := Z.min _ _) in *.
  destruct (memcpy_spec a m (mb_begin mb + mb_index mb) (sv_begin sv) k Hm K) as (m' & -> & C);
    [apply (outside_fw_safe mb sv k); auto; lia|]. cbn [mbind outcome_bind].
  eexists k, m', _. split; [reflexivity|]. split; [reflexivity|]. split; [exact W'|]. split; [reflexivity|]. split; [reflexivity|]. split; [reflexivity|].
  unfold mb_contents, sv_chars. cbn [mb_begin mb_index]. replace (Z.to_nat (mb_index mb + k)) with (Z.to_nat (mb_index mb) + Z.to_nat k)%nat by lia.
  rewrite bytes_at_app, Z2Nat.id by lia. f_equal.
  - eapply copied_frame; [exact C|]. unfold disjoint_regions. lia.
  - rewrite (copied_bytes _ _ _ _ _ K C). replace (Z.to_nat (sv_length sv)) with (Z.to_nat k + Z.to_nat (sv_length sv - k))%nat by lia.
    rewrite bytes_at_app, take_app_le, take_ge by (rewrite length_bytes_at; lia). reflexivity.
Qed.

(** A full buffer takes nothing more. *)
Lemma buffer_stays_halted t0 o d m m' mb mb' k n w : buffer_halted t0 o mb m w -> 0 < n ->
  k = Z.min n (mb_end mb - (mb_begin mb + mb_index mb)) -> mb_wf mb' ->
  mb_begin mb' = mb_begin mb -> mb_end mb' = mb_end mb -> mb_index mb' = mb_index mb + k ->
  mb_contents m' mb' = mb_contents m mb ++ take (Z.to_nat k) d ->
  k <> n /\ buffer_halted t0 o mb' m' (w + k).
Proof.
  unfold buffer_halted. intros (Hf & Hc & Hle & Hw & Hw0 & W) Hn Hk W' Eb Ee Ei Ec. assert (k = 0) as -> by lia.
  split; [lia|]. rewrite Eb, Ee, Ei, Ec, !Z.add_0_r. cbn [Z.to_nat take]. rewrite app_nil_r.
  split_and?; auto.
Qed.

Definition buffer_sink_text (a : arch) (b e : Z) : @SinkText mutable_buffer (buffer_sink a) (buffer_sink_safe a b e).
Proof.
  refine {| text := fun mb m => mb_contents m mb; halted := buffer_halted |}.
  - intros t0 o mb m w (_ & _ & _ & -> & Hw & (_ & _ & _ & _ & Hc)). lia.
  - intros mb m m' (W & Eb & Ee) Hx. apply bytes_at_ext. intros i Hi. apply Hx. cbn. destruct W as (? & ? & ? & _).
    intros Hn. apply Hn. lia.
  - intros i mb m ch n k c' m' mb' t0 o (W & _) Hm Hc Hn E Et.
    destruct (append_byte_spec a m mb ch n W Hm Hc ltac:(lia)) as (k1 & m1 & mb1 & E1 & Hk & W1 & X1 & X2 & X3 & X4).
    cbn [write_char_cb buffer_sink] in E. unfold buffer_char_callback in E. rewrite E1 in E. injection E as <- <- <- <-.
    eapply (buffer_stage t0 o _ m m1 mb mb1 k1 n); eauto. rewrite length_replicate. lia.
  - intros i mb m sv k c' m' mb' t0 o (W & Eb & Ee) Hm Hn Hx E Et.
    destruct (append_sv_spec a m mb sv W Hm ltac:(lia)) as (k1 & m1 & mb1 & E1 & Hk & W1 & X1 & X2 & X3 & X4);
      [unfold buffer_outside; rewrite Eb, Ee; exact Hx|].
    cbn [write_sv_cb buffer_sink] in E. unfold buffer_sv_callback in E. rewrite E1 in E. injection E as <- <- <- <-.
    eapply (buffer_stage t0 o _ m m1 mb mb1 k1 (sv_length sv)); eauto. unfold sv_chars. rewrite length_bytes_at. lia.
  - intros i mb m ch n k c' m' mb' t0 o w (W & _) Hm Hc Hn E Hh.
    destruct (append_byte_spec a m mb ch n W Hm Hc ltac:(lia)) as (k1 & m1 & mb1 & E1 & Hk & W1 & X1 & X2 & X3 & X4).
    cbn [write_char_cb buffer_sink] in E. unfold buffer_char_callback in E. rewrite E1 in E. injection E as <- <- <- <-.
    destruct (buffer_stays_halted t0 o _ m m1 mb mb1 k1 n w Hh ltac:(lia) Hk W1 X1 X2 X3 X4) as (_ & Hh').
    split; [destruct (negb _); reflexivity|exact Hh'].
  - intros i mb m sv k c' m' mb' t0 o w (W & Eb & Ee) Hm Hn Hx E Hh.
    destruct (append_sv_spec a m mb sv W Hm ltac:(lia)) as (k1 & m1 & mb1 & E1 & Hk & W1 & X1 & X2 & X3 & X4);
      [unfold buffer_outside; rewrite Eb, Ee; exact Hx|].
    cbn [write_sv_cb buffer_sink] in E. unfold buffer_sv_callback in E. rewrite E1 in E. injection E as <- <- <- <-.
    destruct (buffer_stays_halted t0 o _ m m1 mb mb1 k1 (sv_length sv) w Hh ltac:(lia) Hk W1 X1 X2 X3 X4) as (_ & Hh').
    split; [destruct (negb _); reflexivity|exact Hh'].
Defined.

(** ** [vformat_to_buffer] *)

(** What a call finds in memory: the format, the literals and the string arguments, out of
    the way of what it writes to. *)
Record iso_call (a : arch) (fuel : nat) (lit : string -> Z) (stack : Z) (m : mem) (dst cap fmt : Z)
    (strs : Z -> list Z) (f : format) (args : va_list) : Prop := {
  ic_mem : mem_ok m;
  ic_dst : 0 <= dst /\ 0 <= cap < 2 ^ 32 /\ dst + cap < 2 ^ 64;
  ic_placed : @placed mutable_buffer _ (buffer_sink_safe a dst (dst + cap)) fuel lit stack m (MB dst (dst + cap) 0) args fmt (format_chars f);
  ic_literals : forall t, t ∈ literals -> holds m (lit t) (chars_of t);
  ic_strs : forall p, VStr p ∈ args -> p <> 0 -> cstr m p (strs p) /\ (length (strs p) <= fuel)%nat /\
    Z.of_nat (length (strs p)) < 2 ^ 32 /\ forall x, p <= x <= p + Z.of_nat (length (strs p)) ->
    @steady mutable_buffer _ (buffer_sink_safe a dst (dst + cap)) stack (MB dst (dst + cap) 0) args x;
  ic_pointers : forall p, VStr p ∈ args \/ VOut p ∈ args \/ VPtr p ∈ args -> 0 <= p < 2 ^ 64 }.

Lemma vformat_to_buffer_parse a cbo_size fuel lit stack m dst cap fmt args :
  0 <= dst -> 0 <= cap -> dst + cap < 2 ^ 64 ->
  vformat_to_buffer a cbo_size fuel lit stack m dst cap fmt args =
  parse_printf a cbo_size fuel lit stack (H := buffer_sink a) m (MB dst (dst + cap) 0) fmt args.
Proof.
  intros Hd Hl He. unfold vformat_to_buffer, mbuffer_open, mbuffer_open_static, c_assert.
  destruct (Z.leb_spec 0 cap); [|lia]. cbn [mbind outcome_bind].
  unfold check_add_assert_w, check_add_w, assert_some, fits.
  destruct (Z.leb_spec 0 (dst + 0)), (Z.ltb_spec (dst + 0) (2 ^ 64)); try lia. reflexivity.
Qed.

(** C13: for every format and arguments on which the engine follows ISO C, [vformat_to_buffer]
    writes the text ISO C asks for, cut at the capacity of the buffer, returns the number of
    characters written, stores the count to each [%n] argument when nothing is cut, and
    changes nothing else. *)
Theorem vformat_to_buffer_iso a cbo_size fuel lit stack m dst cap fmt strs f args out stores :
  cbo_size = 0 \/ pow2_64 cbo_size -> iso_call a fuel lit stack m dst cap fmt strs f args ->
  format_agrees strs f args = true -> iso_format strs f args = Some (out, stores) ->
  Z.of_nat (length out) < 2 ^ 32 -> ForallOrdPairs apart stores ->
  exists m' mb', vformat_to_buffer a cbo_size fuel lit stack m dst cap fmt args =
      Ok (Z.min cap (Z.of_nat (length out)), m', mb') /\
    bytes_at m' dst (Z.to_nat (Z.min cap (Z.of_nat (length out)))) = take (Z.to_nat cap) out /\
    (Z.of_nat (length out) <= cap -> forall q v, (q, v) ∈ stores -> load 4 m' q = v) /\
    (forall x, ~ (dst <= x < dst + cap) -> ~ in_array stack x -> ~ is_out args x -> m' x = m x).
Proof.
  intros Hc [Hm (D0 & D1 & D2) PL LT PS PR] Hag Hiso Hb Hap. rewrite vformat_to_buffer_parse by lia.
  assert (W : buffer_inv dst (dst + cap) (MB dst (dst + cap) 0) m) by (unfold buffer_inv, mb_wf; cbn; lia).
  pose proof (@parse_printf_lands mutable_buffer _ _ (buffer_sink_text a dst (dst + cap)) a cbo_size fuel lit stack m
    (MB dst (dst + cap) 0) args fmt (format_chars f) PL LT [] strs PS PR f out stores Hc Hm W eq_refl eq_refl Hag Hiso Hb Hap) as L.
  destruct L as ([[w m'] mb'] & -> & (_ & (W' & Eb & Ee) & F & _) & c & T & K). exists m', mb'.
  assert (X : w = Z.min cap (Z.of_nat (length out)) /\ bytes_at m' dst (Z.to_nat w) = take (Z.to_nat cap) out /\
    (Z.of_nat (length out) <= cap -> c = true)).
  { pose proof (length_contents m' mb' W') as Hl. pose proof W' as (? & ? & ? & _). unfold mb_contents in *. rewrite Eb, Ee in *.
    destruct c.
    - destruct T as (T & ->). cbn in T. unfold mb_contents in T. rewrite Eb in T. rewrite T in Hl. rewrite Hl, T, take_ge by lia.
      split_and?; [lia|reflexivity|auto].
    - destruct T as (o' & (r & ->) & Ei & Ec & Hlt & -> & _). unfold mb_contents in Ec. rewrite Eb, Ee, ?Ei in *. cbn [app length] in *.
      rewrite length_app. replace (dst + cap - dst) with cap in * by lia.
      split_and?; [lia| |lia]. rewrite take_app_le by lia. rewrite <- Ec. f_equal. lia. }
  destruct X as (E1 & E2 & E3). rewrite <- E1. split; [reflexivity|]. split; [exact E2|].
  split; [intros Hx; apply K, E3, Hx|]. intros x X1 X2 X3. apply F. split; [exact X1|]. split; assumption.
Qed.

(** The format of the example below. *)
Definition demo_iso_format : format :=
  Format [(chars_of "[", Directive (chars_of "+0") (Given (chars_of "6")) Absent LNone 100);
          (chars_of "] ", Directive (chars_of "-") (Given (chars_of "7")) Absent LNone 115);
          (chars_of "|", Directive (chars_of "#") Absent (Given (chars_of "3")) Ll 120);
          ([], Directive [] Absent Absent LNone 110)] (chars_of "!").
Definition demo_iso_args : va_list := [VInt 42; VStr 1100; VLong 31; VOut 5000].

Lemma demo_iso_call cap : 0 <= cap <= 1000 ->
  iso_call x86_64 300 demo_lit 3000 (demo_mem "[%+06d] %-7s|%#.3lx%n!") 4000 cap 2000
    (fun _ => chars_of "hello") demo_iso_format demo_iso_args.
Proof.
  intros Hc.
  assert (C1 : cstr (demo_mem "[%+06d] %-7s|%#.3lx%n!") 2000 (chars_of "[%+06d] %-7s|%#.3lx%n!"))
    by ((split; [vm_compute; reflexivity|]); (split; [vm_compute; repeat constructor; discriminate|cbn; lia])).
  assert (C2 : cstr (demo_mem "[%+06d] %-7s|%#.3lx%n!") 1100 (chars_of "hello"))
    by ((split; [vm_compute; reflexivity|]); (split; [vm_compute; repeat constructor; discriminate|cbn; lia])).
  assert (A : forall P : va_item -> Prop, Forall P demo_iso_args -> forall v, v ∈ demo_iso_args -> P v)
    by (intros P HP; apply list.Forall_forall, HP).
  assert (Ho : forall p, VOut p ∈ demo_iso_args -> 5000 <= p)
    by (intros p Hp; apply (A (fun v => match v with VOut p => 5000 <= p | _ => True end)) in Hp; [exact Hp|repeat constructor; lia]).
  assert (Hs : forall p, VStr p ∈ demo_iso_args -> p = 0 \/ p = 1100)
    by (intros p Hp; apply (A (fun v => match v with VStr p => p = 0 \/ p = 1100 | _ => True end)) in Hp; [exact Hp|repeat constructor; lia]).
  split.
  - apply demo_text_ok.
  - lia.
  - apply (demo_placed cap "[%+06d] %-7s|%#.3lx%n!"); [lia|cbn; lia|exact C1|exact C2|exact Hs|exact Ho].
  - intros t Ht. assert (L : Forall (fun t => holds (demo_mem "[%+06d] %-7s|%#.3lx%n!") (demo_lit t) (chars_of t)) literals)
      by (repeat constructor; vm_compute; reflexivity). rewrite list.Forall_forall in L. exact (L t Ht).
  - intros p Hp Hn. destruct (Hs p Hp) as [->| ->]; [contradiction|]. split; [exact C2|]. cbn. split; [lia|]. split; [lia|].
    intros x Hx. apply demo_steady; [exact Ho|lia].
  - intros p Hp. assert (L : forall v, v ∈ demo_iso_args -> match v with VStr p | VOut p | VPtr p => 0 <= p < 2 ^ 64 | _ => True end)
      by (apply A; repeat constructor; lia). destruct Hp as [Hp|[Hp|Hp]]; exact (L _ Hp).
Qed.

Lemma vformat_to_buffer_iso_witness : exists m' mb',
  vformat_to_buffer x86_64 0 300 demo_lit 3000 (demo_mem "[%+06d] %-7s|%#.3lx%n!") 4000 20 2000 demo_iso_args = Ok (20, m', mb') /\
  bytes_at m' 4000 20 = chars_of "[+00042] hello  |0x0".
Proof.
  destruct (vformat_to_buffer_iso x86_64 0 300 demo_lit 3000 (demo_mem "[%+06d] %-7s|%#.3lx%n!") 4000 20 2000
    (fun _ => chars_of "hello") demo_iso_format demo_iso_args (chars_of "[+00042] hello  |0x01f!") [(5000, 22)])
    as (m' & mb' & E & B & _);
    [auto|apply demo_iso_call; lia|vm_compute; reflexivity|vm_compute; reflexivity|cbn; lia|repeat constructor|].
  exists m', mb'. split; [exact E|exact B].
Defined.

(** ** Where the engine does not follow the reference *)

(** A directive, its characters and arguments, what the engine writes, and what ISO C asks for. *)
Definition departure : Type := directive * string * va_list * string * string.
Definition departs (x : departure) : Prop :=
  let '(d, chars, args, got, want) := x in
  directive_chars d = chars_of chars /\
  demo_format 40 (String.append "%" chars) args = Some (Z.of_nat (String.length got), chars_of got) /\
  iso_format (fun _ => chars_of "hello") (Format [([], d)] []) args = Some (chars_of want, []) /\
  got <> want.
Definition departures : list departure := [
  (Directive [] Absent Absent Lh 120, "hx", [VInt (-1)], "ffffffffffffffff", "ffff");
  (Directive [] Absent Absent Lhh 100, "hhd", [VInt 300], "300", "44");
  (Directive [32] (Given [53]) Absent LNone 100, " 5d", [VInt 42], "    42", "   42");
  (Directive [45; 32] Absent Absent LNone 100, "- d", [VInt 42], "42 ", " 42");
  (Directive [32] Absent Absent LNone 117, " u", [VInt 42], " 42", "42");
  (Directive [35] Absent Absent LNone 120, "#x", [VInt 0], "0x0", "0");
  (Directive [35] Absent (Given [48]) LNone 120, "#.0x", [VInt 0], "0x", "");
  (Directive [35] Absent Absent LNone 111, "#o", [VInt 0], "00", "0");
  (Directive [35] Absent (Given [53]) LNone 111, "#.5o", [VInt 8], "000010", "00010");
  (Directive [43] Absent (Given [48]) LNone 100, "+.0d", [VInt 0], "", "+");
  (Directive [] Star Absent LNone 100, "*d", [VInt (-5); VInt 42], "42", "42   ");
  (Directive [48] (Given [53]) Star LNone 100, "05.*d", [VInt (-2); VInt 42], "   42", "00042")]%string.

