(* ===== verification/Printk.v ===== *)
(** * The kernel log: kernel/src/dev/printk.c

    [vprintk] formats to every terminal of the list [g_first_term] under [g_print_lock].  A
    terminal is a type with the two functions of [struct terminal]; what they promise is
    [TerminalText].  The list of terminals and the state of the CPU are the sink of the printf
    engine, so the theorems of the engine apply to every terminal of the list. *)

From Stdlib Require Import String Ascii.
From S2P Require Import Prelude Mem Alloc Arith Range KStdlib Spinlock Ctype Convert Buffers Printf PrintfSafe PrintfText PrintfIso.
Import StringView.

(** ** Terminals *)

(** [struct terminal]; the functions run on a CPU, whose interrupts they may turn off. *)
Class Terminal (T : Type) := {
  emit_ch : cpu -> T -> Z -> Z -> outcome (cpu * T);
  emit_sv : mem -> cpu -> T -> string_view -> outcome (cpu * T) }.

(** [g_first_term] with the terminals it links, and the CPU. *)
Record console (T : Type) := Console { g_first_term : list T; this_cpu : cpu }.
Arguments Console {T}. Arguments g_first_term {T}. Arguments this_cpu {T}.

Section Printk.
Context (a : arch) (cbo_size : Z) (fuel : nat) (lit : string -> Z) (stack : Z).
Context {T : Type} `{Terminal T}.

Definition printk_add_terminal (con : console T) (term : T) : console T :=
  let '(flag, t) := disable_irqs_if_enabled a (this_cpu con) in
  Console (term :: g_first_term con) (enable_irqs_if_flag a flag t).

(** [for (term = g_first_term; term != NULL; term = term->next)] *)
Fixpoint for_terminals (emit : cpu -> T -> outcome (cpu * T)) (t : cpu) (terms : list T) : outcome (cpu * list T) :=
  match terms with
  | [] => Ok (t, [])
  | term :: terms =>
      '(t, term) ← emit t term;
      '(t, terms) ← for_terminals emit t terms;
      Ok (t, term :: terms)
  end.

Definition write_char (i : option printf_spec_info) (m : mem) (con : console T) (ch amount : Z) (cont : bool)
    : outcome (Z * bool * mem * console T) :=
  '(t, terms) ← for_terminals (fun t term => emit_ch t term ch amount) (this_cpu con) (g_first_term con);
  Ok (amount, cont, m, Console terms t).
Definition write_sv (i : option printf_spec_info) (m : mem) (con : console T) (sv : string_view) (cont : bool)
    : outcome (Z * bool * mem * console T) :=
  '(t, terms) ← for_terminals (fun t term => emit_sv m t term sv) (this_cpu con) (g_first_term con);
  Ok (sv_length sv, cont, m, Console terms t).
#[local] Instance console_sink : Sink (console T) := { write_char_cb := write_char; write_sv_cb := write_sv }.

(** The lock is part of the state, as the calls within a critical section use it too. *)
Definition putk_sv (g_print_lock : shared) (m : mem) (con : console T) (sv : string_view)
    : outcome (list T * shared * cpu) :=
  with_spinlock_irq_disabled a fuel g_print_lock (this_cpu con) (fun lk t =>
    '(_, _, _, con) ← write_sv None m (Console (g_first_term con) t) sv true;
    Ok (g_first_term con, lk, this_cpu con)).
Definition putk (g_print_lock : shared) (m : mem) (con : console T) (str : Z)
    : outcome (list T * shared * cpu) :=
  with_spinlock_irq_disabled a fuel g_print_lock (this_cpu con) (fun lk t =>
    length ← strlen fuel m str;
    sv ← sv_create_length str length;
    putk_sv lk m (Console (g_first_term con) t) sv).

Definition vprintk_internal (m : mem) (con : console T) (str : Z) (args : va_list)
    : outcome (mem * console T) :=
  '(_, m, con) ← parse_printf a cbo_size fuel lit stack m con str args;
  Ok (m, con).
Definition printk_internal := vprintk_internal.

(** [cpu_id] is [cpu_get_id(this_cpu())]. *)
Definition cpu_prefix : string := "[cpu %u] ".
Definition vprintk (cpu_id : Z) (g_print_lock : shared) (m : mem) (con : console T) (str : Z) (args : va_list)
    : outcome (mem * list T * shared * cpu) :=
  with_spinlock_irq_disabled a fuel g_print_lock (this_cpu con) (fun lk t =>
    '(m, con) ← printk_internal m (Console (g_first_term con) t) (lit cpu_prefix) [VInt cpu_id];
    '(_, m, con) ← parse_printf a cbo_size fuel lit stack m con str args;
    Ok ((m, g_first_term con), lk, this_cpu con)).
Definition printk := vprintk.
End Printk.

(** ** What a terminal promises: it shows the characters it is given *)

Class TerminalText (T : Type) `{Terminal T} := {
  term_inv : T -> Prop;
  shown : T -> list Z;
  emit_ch_shows : forall t term ch n, term_inv term -> 0 <= ch < 256 -> 0 <= n < 2 ^ 32 ->
    exists term', emit_ch t term ch n = Ok (t, term') /\ term_inv term' /\
      shown term' = shown term ++ replicate (Z.to_nat n) ch;
  emit_sv_shows : forall m t term sv, mem_ok m -> term_inv term -> 0 <= sv_length sv < 2 ^ 32 ->
    exists term', emit_sv m t term sv = Ok (t, term') /\ term_inv term' /\ shown term' = shown term ++ sv_chars m sv }.

(** ** The terminals as a sink *)

Section Console.
Context {T : Type} `{TerminalText T}.

(** [d] was shown on each terminal after the text of [bases]. *)
Definition all_show (bases : list (list Z)) (d : list Z) (terms : list T) : Prop :=
  Forall2 (fun b term => term_inv term /\ shown term = b ++ d) bases terms.

Lemma for_terminals_shows (emit : cpu -> T -> outcome (cpu * T)) t e :
  (forall term, term_inv term -> exists term', emit t term = Ok (t, term') /\ term_inv term' /\ shown term' = shown term ++ e) ->
  forall terms bases d, all_show bases d terms ->
  exists terms', for_terminals emit t terms = Ok (t, terms') /\ all_show bases (d ++ e) terms'.
Proof.
  intros He. induction terms as [|term terms IH]; intros bases d Ha; inversion Ha as [|b ? bs ? (Hi & Hs) Ha']; subst.
  - exists []. split; [reflexivity|constructor].
  - destruct (He term Hi) as (term' & E & Hi' & Hs'). destruct (IH bs d Ha') as (terms' & E' & Ha2).
    exists (term' :: terms'). cbn [for_terminals]. rewrite E. cbn [mbind outcome_bind]. rewrite E'. split; [reflexivity|].
    constructor; [|exact Ha2]. split; [exact Hi'|]. rewrite Hs', Hs, app_assoc. reflexivity.
Qed.

Context (t : cpu) (b0 : list Z) (bs : list (list Z)).

Definition console_inv (con : console T) (_ : mem) : Prop :=
  this_cpu con = t /\ exists d, all_show (b0 :: bs) d (g_first_term con).
(** What the first terminal shows after [b0], and with it all of them. *)
Definition console_text (con : console T) : list Z :=
  match g_first_term con with [] => [] | term :: _ => drop (length b0) (shown term) end.

Lemma console_shows con d : all_show (b0 :: bs) d (g_first_term con) -> console_text con = d.
Proof.
  intros Ha. unfold console_text. inversion Ha as [|? term ? ? (_ & E)]. rewrite E. apply drop_app_length.
Qed.
Lemma console_all_show con m : console_inv con m -> all_show (b0 :: bs) (console_text con) (g_first_term con).
Proof. intros (_ & d & Ha). rewrite (console_shows con d Ha). exact Ha. Qed.

(** A callback that shows [e] on each terminal. *)
Lemma console_step emit con m e : console_inv con m ->
  (forall term, term_inv term -> exists term', emit t term = Ok (t, term') /\ term_inv term' /\ shown term' = shown term ++ e) ->
  exists terms', for_terminals emit (this_cpu con) (g_first_term con) = Ok (t, terms') /\
    console_inv (Console terms' t) m /\ console_text (Console terms' t) = console_text con ++ e.
Proof.
  intros I He. pose proof (console_all_show con m I) as Ha. destruct I as (Et & _). rewrite Et.
  destruct (for_terminals_shows emit t e He _ _ _ Ha) as (terms' & E & Ha'). exists terms'. split; [exact E|].
  split; [split; [reflexivity|eauto]|]. exact (console_shows (Console terms' t) _ Ha').
Qed.

Lemma write_char_shows i con m ch n c : console_inv con m -> 0 <= ch < 256 -> 0 <= n < 2 ^ 32 ->
  exists con', write_char i m con ch n c = Ok (n, c, m, con') /\ console_inv con' m /\
    console_text con' = console_text con ++ replicate (Z.to_nat n) ch.
Proof.
  intros I Hc Hn. destruct (console_step (fun t term => emit_ch t term ch n) con m (replicate (Z.to_nat n) ch) I) as (terms' & E & I' & X).
  { intros term Hi. apply emit_ch_shows; auto. }
  exists (Console terms' t). unfold write_char. rewrite E. auto.
Qed.
Lemma write_sv_shows i con m sv c : console_inv con m -> mem_ok m -> 0 <= sv_length sv < 2 ^ 32 ->
  exists con', write_sv i m con sv c = Ok (sv_length sv, c, m, con') /\ console_inv con' m /\
    console_text con' = console_text con ++ sv_chars m sv.
Proof.
  intros I Hm Hn. destruct (console_step (fun t term => emit_sv m t term sv) con m (sv_chars m sv) I) as (terms' & E & I' & X).
  { intros term Hi. apply emit_sv_shows; auto. }
  exists (Console terms' t). unfold write_sv. rewrite E. auto.
Qed.

Definition console_sink_safe : @SinkSafe (console T) console_sink.
Proof.
  refine {| outside := fun _ _ => True; sink_inv := console_inv |}.
  - intros con m m' I _. exact I.
  - intros i con m ch n c I Hm Hc Hn. destruct (write_char_shows i con m ch n c I Hc Hn) as (con' & E & I' & _).
    exists n, c, m, con'. split_and?; auto.
  - intros i con m sv c I Hm Hn _. destruct (write_sv_shows i con m sv c I Hm Hn) as (con' & E & I' & _).
    exists (sv_length sv), c, m, con'. split_and?; auto.
Defined.
Definition console_sink_text : @SinkText (console T) console_sink console_sink_safe.
Proof.
  refine {| text := fun con _ => console_text con; halted := fun _ _ _ _ _ => False |}.
  - intros ? ? ? ? ? [].
  - reflexivity.
  - intros i con m ch n k c' m' con' t0 o I Hm Hc Hn E Et. destruct (write_char_shows i con m ch n true I Hc ltac:(lia)) as (con1 & E1 & _ & X).
    change (write_char i m con ch n true = Ok (k, c', m', con')) in E. rewrite E1 in E. injection E as <- <- <- <-.
    split; [rewrite X, Et, app_assoc; reflexivity|]. rewrite length_app, length_replicate. lia.
  - intros i con m sv k c' m' con' t0 o I Hm Hn _ E Et. destruct (write_sv_shows i con m sv true I Hm ltac:(lia)) as (con1 & E1 & _ & X).
    change (write_sv i m con sv true = Ok (k, c', m', con')) in E. rewrite E1 in E. injection E as <- <- <- <-.
    split; [rewrite X, Et, app_assoc; reflexivity|]. rewrite length_app. unfold sv_chars. rewrite length_bytes_at. lia.
  - intros ? ? ? ? ? ? ? ? ? ? ? ? ? ? ? ? ? [].
  - intros ? ? ? ? ? ? ? ? ? ? ? ? ? ? ? ? [].
Defined.
End Console.

(** ** Formatting to the terminals *)

Section Log.
Context (a : arch) (cbo_size : Z) (fuel : nat) (lit : string -> Z) (stack : Z).
Context {T : Type} `{TerminalText T}.

(** Memory that is neither the local array of [parse_printf] nor a target of [%n]. *)
Definition quiet (args : va_list) (x : Z) : Prop := ~ in_array stack x /\ ~ is_out args x.

(** What a call finds in memory: the format [f] at [str], the literals and the string
    arguments, out of the way of what it writes to. *)
Record log_call (m : mem) (str : Z) (strs : Z -> list Z) (f : format) (args : va_list) : Prop := {
  lc_mem : mem_ok m;
  lc_stack : 0 <= stack /\ stack + (MAX_CONVERT_CAP + 3) < 2 ^ 64;
  lc_outs : forall x, is_out args x -> ~ in_array stack x;
  lc_fmt : cstr m str (format_chars f) /\ (length (format_chars f) <= fuel)%nat /\
    forall x, str <= x <= str + Z.of_nat (length (format_chars f)) -> quiet args x;
  lc_lit : forall t, t ∈ literals -> holds m (lit t) (chars_of t) /\
    forall x, lit t <= x < lit t + Z.of_nat (String.length t) -> quiet args x;
  lc_strs : forall p, VStr p ∈ args -> p <> 0 -> cstr m p (strs p) /\ (length (strs p) <= fuel)%nat /\
    Z.of_nat (length (strs p)) < 2 ^ 32 /\ forall x, p <= x <= p + Z.of_nat (length (strs p)) -> quiet args x;
  lc_pointers : forall p, VStr p ∈ args \/ VOut p ∈ args \/ VPtr p ∈ args -> 0 <= p < 2 ^ 64 }.

(** Another call's use of the local array does not matter. *)
Lemma log_call_frame m m' str strs f args : log_call m str strs f args -> mem_ok m' ->
  (forall x, ~ in_array stack x -> m' x = m x) -> log_call m' str strs f args.
Proof.
  intros [L1 L2 L3 (C & Lf & Q) L5 L6 L7] Hm F.
  assert (K : forall x, quiet args x -> m' x = m x) by (intros x (Hx & _); apply F, Hx).
  split; auto.
  - split; [eapply cstr_ext; [exact C|]; intros x Hx; apply K, Q, Hx|auto].
  - intros t Ht. destruct (L5 t Ht) as (Hh & Hq). split; [|exact Hq]. eapply holds_ext; [exact Hh|]. intros x Hx. apply K, Hq.
    rewrite <- length_chars_of. exact Hx.
  - intros p Hp Hn. destruct (L6 p Hp Hn) as (C6 & Hl & Hb & Hq). split; [eapply cstr_ext; [exact C6|]; intros x Hx; apply K, Hq, Hx|auto].
Qed.

Section Call.
Context (t : cpu) (b0 : list Z) (bs : list (list Z)).
#[local] Existing Instances console_sink.

Lemma log_call_placed m str strs f args con : log_call m str strs f args ->
  @placed (console T) _ (console_sink_safe t b0 bs) fuel lit stack m con args str (format_chars f).
Proof.
  intros [L1 L2 L3 (C & Lf & Q) L5 L6 L7]. split; auto.
  - intros x _. exact Logic.I.
  - intros x Hx. split; [exact Logic.I|apply L3, Hx].
  - split; [exact C|]. split; [exact Lf|]. intros x Hx. split; [exact Logic.I|apply Q, Hx].
  - intros t' x Ht Hx. split; [exact Logic.I|apply (L5 t' Ht), Hx].
  - intros p Hp. destruct (Z.eq_dec p 0) as [->|Hn]; [auto|right]. destruct (L6 p Hp Hn) as (C6 & Hl & _ & Hq).
    exists (strs p). split; [exact C6|]. split; [exact Hl|]. intros x Hx. split; [exact Logic.I|apply Hq, Hx].
Qed.

(** One call of [parse_printf]: every terminal shows the text of ISO C after what it showed. *)
Lemma console_prints m con str strs f args out stores : cbo_size = 0 \/ pow2_64 cbo_size ->
  log_call m str strs f args -> console_inv t b0 bs con m ->
  format_agrees strs f args = true -> iso_format strs f args = Some (out, stores) ->
  Z.of_nat (length out) < 2 ^ 32 -> ForallOrdPairs apart stores ->
  exists m' con', parse_printf a cbo_size fuel lit stack m con str args = Ok (Z.of_nat (length out), m', con') /\
    mem_ok m' /\ console_inv t b0 bs con' m' /\ console_text b0 con' = console_text b0 con ++ out /\
    (forall q v, (q, v) ∈ stores -> load 4 m' q = v) /\ (forall x, quiet args x -> m' x = m x).
Proof.
  intros Hc L I Hag Hiso Hb Hap. pose proof L as [L1 L2 L3 L4 L5 L6 L7].
  destruct (@parse_printf_lands (console T) _ _ (console_sink_text t b0 bs) a cbo_size fuel lit stack m con args str
    (format_chars f) (log_call_placed m str strs f args con L) (fun t' Ht => proj1 (L5 t' Ht)) (console_text b0 con) strs)
    with (f := f) (out := out) (stores := stores) as ([[w m'] con'] & E & (Hm' & I' & F & _) & c & St & K); auto.
  { intros p Hp Hn. destruct (L6 p Hp Hn) as (C6 & Hl & Hx & Hq). split_and?; auto. intros x Hr. split; [exact Logic.I|apply Hq, Hr]. }
  destruct c; [|destruct St as (o' & _ & [])]. destruct St as (Tx & ->). exists m', con'.
  split; [exact E|]. split; [exact Hm'|]. split; [exact I'|]. split; [exact Tx|]. split; [exact (K eq_refl)|].
  intros x Hx. apply F. split; [exact Logic.I|exact Hx].
Qed.
End Call.

(** *** The prefix *)

Definition prefix_format : format :=
  Format [(chars_of "[cpu ", Directive [] Absent Absent LNone 117)] (chars_of "] ").
Definition cpu_prefix_text (cpu_id : Z) : list Z :=
  chars_of "[cpu " ++ digits_of 10 (conv_options 117) cpu_id ++ chars_of "] ".

Lemma length_digits base o k n : (length (digits base o k n) <= S k)%nat.
Proof.
  revert n. induction k as [|k IH]; intros n; cbn [digits]; (destruct (n <? base); [cbn; lia|]); [cbn; lia|].
  rewrite length_app. cbn [length]. specialize (IH (n / base)). lia.
Qed.
Lemma prefix_iso strs cpu_id : is_u32 cpu_id -> iso_format strs prefix_format [VInt cpu_id] = Some (cpu_prefix_text cpu_id, []).
Proof.
  intros U. assert (E : u32 cpu_id = cpu_id) by (apply wrap_small, U). unfold iso_format, prefix_format, iso_fields, iso_field, cpu_prefix_text.
  cbn [f_fields f_tail d_width d_precision d_conv d_length iso_amount mbind option_bind is_int_specifier iso_int signed_conv].
  change (is_int_specifier 117) with true. change (signed_conv 117) with false. cbn [mbind option_bind]. rewrite E.
  unfold iso_integer, iso_pad. cbn [d_conv has_flag d_flags existsb default conv_base fst snd orb andb]. cbv zeta.
  rewrite (bool_decide_eq_false_2 (None = Some 0)) by discriminate. rewrite (bool_decide_eq_false_2 (0 < 0)) by lia.
  rewrite !andb_false_r, !(Z.abs_eq cpu_id) by (unfold is_u in U; lia). destruct (Z.ltb_spec cpu_id 0); [unfold is_u in U; lia|].
  change (signed_conv 117) with false. change (replicate (Z.to_nat 0) 48) with (@nil Z). change (Z.abs 0) with 0. cbn [andb app].
  replace (Z.to_nat (0 - Z.of_nat (length (digits_of 10 (conv_options 117) cpu_id)))) with 0%nat by lia.
  cbn [replicate app map]. rewrite app_nil_r, <- app_assoc. reflexivity.
Qed.

Lemma cpu_prefix_agrees strs cpu_id : format_agrees strs prefix_format [VInt cpu_id] = true.
Proof.
  unfold format_agrees, prefix_format, fields_agree, agrees, int_agrees. cbn. rewrite andb_false_r. reflexivity.
Qed.
Lemma length_prefix cpu_id : Z.of_nat (length (cpu_prefix_text cpu_id)) < 2 ^ 32.
Proof.
  unfold cpu_prefix_text, digits_of. rewrite !length_app.
  pose proof (length_digits 10 (conv_options 117) 64 cpu_id).
  change (length (chars_of "[cpu ")) with 5%nat. change (length (chars_of "] ")) with 2%nat. lia.
Qed.
#[local] Existing Instance console_sink.

(** The body of [vprintk]: the prefix and the message, on every terminal. *)
Lemma vprintk_body cpu_id (lk : shared) (t : cpu) m (terms : list T) str strs f args out stores :
  cbo_size = 0 \/ pow2_64 cbo_size -> is_u32 cpu_id -> terms <> [] -> Forall term_inv terms ->
  log_call m (lit cpu_prefix) strs prefix_format [VInt cpu_id] -> log_call m str strs f args ->
  format_agrees strs f args = true -> iso_format strs f args = Some (out, stores) ->
  Z.of_nat (length out) < 2 ^ 32 -> ForallOrdPairs apart stores ->
  exists m' terms', ('(m, con) ← printk_internal a cbo_size fuel lit stack m (Console terms t) (lit cpu_prefix) [VInt cpu_id];
      '(_, m, con) ← parse_printf a cbo_size fuel lit stack m con str args;
      Ok ((m, g_first_term con), lk, this_cpu con)) = Ok ((m', terms'), lk, t) /\
    Forall2 (fun term term' => term_inv term' /\ shown term' = shown term ++ cpu_prefix_text cpu_id ++ out) terms terms' /\
    (forall q v, (q, v) ∈ stores -> load 4 m' q = v) /\ (forall x, quiet args x -> m' x = m x).
Proof.
  intros Hc U Hne Hi L1 L2 Hag Hiso Hb Hap. destruct terms as [|term terms]; [contradiction|].
  set (b0 := shown term). set (bs := map shown terms).
  assert (A0 : all_show (b0 :: bs) [] (term :: terms)).
  { change (b0 :: bs) with (map shown (term :: terms)). clear -Hi. induction Hi; cbn; constructor; [|assumption].
    rewrite app_nil_r. auto. }
  assert (I0 : console_inv t b0 bs (Console (term :: terms) t) m) by (split; [reflexivity|exists []; exact A0]).
  destruct (console_prints t b0 bs m _ _ strs prefix_format [VInt cpu_id] (cpu_prefix_text cpu_id) [] Hc L1 I0
    (cpu_prefix_agrees strs cpu_id) (prefix_iso strs cpu_id U) (length_prefix cpu_id)) as (m1 & con1 & E1 & M1 & I1 & X1 & _ & F1); [constructor|].
  assert (F1' : forall x, ~ in_array stack x -> m1 x = m x).
  { intros x Hx. apply F1. split; [exact Hx|]. intros (p & Hp & _). apply list_elem_of_singleton in Hp. discriminate. }
  destruct (console_prints t b0 bs m1 con1 str strs f args out stores Hc (log_call_frame m m1 _ _ _ _ L2 M1 F1') I1 Hag Hiso Hb Hap)
    as (m2 & con2 & E2 & M2 & I2 & X2 & St & F2).
  exists m2, (g_first_term con2). unfold printk_internal, vprintk_internal. rewrite E1. cbn [mbind outcome_bind]. rewrite E2.
  cbn [mbind outcome_bind]. split; [destruct I2 as (-> & _); reflexivity|]. split; [|split; [exact St|]].
  - pose proof (console_all_show t b0 bs con2 m2 I2) as A. rewrite X2, X1, (console_shows b0 bs (Console _ t) [] A0) in A.
    change (b0 :: bs) with (map shown (term :: terms)) in A. cbn [app] in A. unfold all_show in A. rewrite Forall2_fmap_l in A. exact A.
  - intros x Hx. rewrite F2 by exact Hx. apply F1', Hx.
Qed.
End Log.


(** C39: [putk] never returns: it takes the log's lock and then calls [putk_sv], which waits for
    it; whatever the fuel, no step of the wait ends it. *)
Theorem putk_deadlocks {T} `{Terminal T} a fuel lk m (con : console T) str l :
  lock_free lk -> cstr m str l -> (length l <= fuel)%nat -> Z.of_nat (length l) < 2 ^ 32 ->
  putk a fuel lk m con str = Diverge.
Proof.
  intros Hl C Hf Hb. unfold putk, with_spinlock_irq_disabled at 1.
  destruct (decide (3 <= fuel)%nat) as [H3|H3].
  - destruct (acquire_free a fuel lk (this_cpu con) Hl H3) as (lk1 & -> & Hh). cbn [mbind outcome_bind].
    rewrite (strlen_cstr fuel m str l C Hf). cbn [mbind outcome_bind]. destruct C as (_ & _ & C1 & C2).
    unfold sv_create_length, check_add_assert_w, check_add_w, assert_some, fits.
    destruct (Z.leb_spec 0 (str + Z.of_nat (length l))), (Z.ltb_spec (str + Z.of_nat (length l)) (2 ^ 64)); try lia.
    cbn [andb mbind outcome_bind]. unfold putk_sv. rewrite with_spinlock_held by exact Hh. reflexivity.
  - destruct fuel as [|[|[|fuel]]]; [reflexivity..|lia].
Qed.

(** *** An example: a terminal that keeps what it is given *)

Definition screen : Type := list Z.
#[export] Instance screen_terminal : Terminal screen := {
  emit_ch t s ch n := Ok (t, s ++ replicate (Z.to_nat n) ch);
  emit_sv m t s sv := Ok (t, s ++ sv_chars m sv) }.
#[export] Instance screen_text : TerminalText screen.
Proof. refine {| term_inv := fun _ => True; shown := fun s => s |}; intros; eexists; split; eauto. Defined.

Definition demo_log : mem := put_string (demo_mem "up %d") 1060 cpu_prefix.
Lemma demo_log_ok : mem_ok demo_log.
Proof. apply put_string_ok, demo_text_ok. Qed.
Lemma demo_log_call str f z : str = 1060 \/ str = 2000 -> cstr demo_log str (format_chars f) -> (length (format_chars f) <= 20)%nat ->
  log_call 300 demo_lit 3000 demo_log str (fun _ => []) f [VInt z].
Proof.
  intros Hs C Hl.
  assert (O : forall x, ~ is_out [VInt z] x) by (intros x (p & Hp & _); apply list_elem_of_singleton in Hp; discriminate).
  assert (Q : forall x, 0 <= x < 3000 -> quiet 3000 [VInt z] x)
    by (intros x Hx; split; [unfold in_array; lia|apply O]).
  split.
  - apply demo_log_ok.
  - unfold MAX_CONVERT_CAP, MAX_BINARY_CONVERT_CAP. lia.
  - intros x Hx. destruct (O x Hx).
  - split; [exact C|]. split; [lia|]. intros x Hx. apply Q. lia.
  - assert (L : Forall (fun t => holds demo_log (demo_lit t) (chars_of t) /\ 1000 <= demo_lit t /\
      demo_lit t + Z.of_nat (String.length t) < 1100) literals)
      by (repeat constructor; try (vm_compute; reflexivity); vm_compute; discriminate).
    rewrite list.Forall_forall in L. intros t Ht. destruct (L t Ht) as (Hh & H1 & H2). split; [exact Hh|]. intros x Hx. apply Q. lia.
  - intros p Hp. apply list_elem_of_singleton in Hp. discriminate.
  - intros p Hp. rewrite !list_elem_of_singleton in Hp. destruct Hp as [Hp|[Hp|Hp]]; discriminate.
Qed.


Lemma putk_deadlocks_witness :
  putk x86_64 300 (Shared SPINLOCK_INIT 0 0) demo_log (Console [@nil Z : screen] (Cpu true 0)) 1100 = Diverge.
Proof.
  apply (putk_deadlocks (T := screen) x86_64 300 (Shared SPINLOCK_INIT 0 0) demo_log (Console [[]] (Cpu true 0)) 1100 (chars_of "hello")).
  - split; [reflexivity|unfold is_u; cbn; lia].
  - split; [vm_compute; reflexivity|]. split; [repeat constructor; discriminate|cbn; lia].
  - cbn. lia.
  - cbn. lia.
Defined.
