(* ===== verification/Uart8250.v ===== *)
(** * The 8250 serial port: kernel/src/dev/uart/8250.c

    The device behind the registers is a parameter, [Pio]; [Transmitter] states what the
    16550 documents of its transmitter.  The port is a terminal of the log ([Printk.v]): it
    sends every character, as long as the transmitter is ready within the ten polls the
    driver makes, and drops a character otherwise. *)

From Stdlib Require Import String Ascii.
From S2P Require Import Prelude Mem Alloc Arith Range KStdlib Spinlock Ctype Convert Buffers Printf PrintfSafe PrintfText PrintfIso Printk.
Import StringView.

(** [pio_read8], [pio_read16] and [pio_read32] by their width in bytes, and the writes. *)
Class Pio (D : Type) := {
  pio_read : Z -> D -> Z -> Z * D;
  pio_write : Z -> D -> Z -> Z -> D }.

Definition UART_RBR_OFFSET : Z := 0.
Definition UART_THR_OFFSET : Z := 0.
Definition UART_DLL_OFFSET : Z := 0.
Definition UART_IER_OFFSET : Z := 1.
Definition UART_DLM_OFFSET : Z := 1.
Definition UART_FCR_OFFSET : Z := 2.
Definition UART_LCR_OFFSET : Z := 3.
Definition UART_MCR_OFFSET : Z := 4.
Definition UART_LSR_OFFSET : Z := 5.
Definition UART_SCR_OFFSET : Z := 7.
Definition UART_LSR_TRANSMIT_HRE : Z := Z.shiftl 1 5.
Definition MAX_ATTEMPTS : nat := 10.

(** [struct uart8250_info] with the device behind its port. *)
Record uart8250_info (D : Type) := Uart8250 {
  u_lock : shared; u_base : Z; u_in_freq : Z; u_reg_width : Z; u_reg_shift : Z; u_dev : D }.
Arguments Uart8250 {D}. Arguments u_lock {D}. Arguments u_base {D}. Arguments u_in_freq {D}.
Arguments u_reg_width {D}. Arguments u_reg_shift {D}. Arguments u_dev {D}.

Section Driver.
Context (a : arch) (fuel : nat).
Context {D : Type} `{Pio D}.

(** [port_t] is 16 bits wide on x86-64 and a pointer elsewhere. *)
Definition port_at (base offset : Z) : Z := match a with x86_64 => u16 (base + offset) | _ => u64 (base + offset) end.

Definition get_reg (uart8250_base : Z) (info : uart8250_info D) (d : D) (num : Z) : outcome (Z * D) :=
  let offset := u32 (Z.shiftl num (u_reg_shift info)) in
  match u_reg_width info with
  | 1 | 2 | 4 => Ok (pio_read (u_reg_width info) d (port_at uart8250_base offset))
  | _ => Panic
  end.
Definition set_reg (uart8250_base : Z) (info : uart8250_info D) (d : D) (num val : Z) : outcome D :=
  let offset := u32 (Z.shiftl num (u_reg_shift info)) in
  match u_reg_width info with
  | 1 | 2 | 4 => Ok (pio_write (u_reg_width info) d (port_at uart8250_base offset) (wrap (8 * u_reg_width info) val))
  | _ => Panic
  end.

(** [for (i = 0; i != MAX_ATTEMPTS; i++)] *)
Fixpoint putc_loop (attempts : nat) (base : Z) (info : uart8250_info D) (d : D) (ch : Z) : outcome D :=
  match attempts with
  | O => Ok d
  | S attempts =>
      '(lsr, d) ← get_reg base info d UART_LSR_OFFSET;
      if negb (Z.land lsr UART_LSR_TRANSMIT_HRE =? 0) then set_reg base info d UART_THR_OFFSET (u32 (as_char a ch))
      else putc_loop attempts base info d ch
  end.
Definition uart8250_putc := putc_loop MAX_ATTEMPTS.

Fixpoint send_char_loop (amount : nat) (info : uart8250_info D) (d : D) (ch : Z) : outcome D :=
  match amount with
  | O => Ok d
  | S amount => d ← uart8250_putc (u_base info) info d ch; send_char_loop amount info d ch
  end.
Definition with_dev (info : uart8250_info D) (lk : shared) (d : D) : uart8250_info D :=
  Uart8250 lk (u_base info) (u_in_freq info) (u_reg_width info) (u_reg_shift info) d.
Definition uart8250_send_char (t : cpu) (info : uart8250_info D) (ch amount : Z) : outcome (cpu * uart8250_info D) :=
  '(d, lk, t) ← with_spinlock_irq_disabled a fuel (u_lock info) t (fun lk t =>
    d ← send_char_loop (Z.to_nat amount) info (u_dev info) ch; Ok (d, lk, t));
  Ok (t, with_dev info lk d).

(** [sv_foreach(sv, iter)] *)
Fixpoint send_sv_loop (length : nat) (m : mem) (iter : Z) (info : uart8250_info D) (d : D) : outcome D :=
  match length with
  | O => Ok d
  | S length => d ← uart8250_putc (u_base info) info d (m iter); send_sv_loop length m (iter + 1) info d
  end.
Definition uart8250_send_sv (m : mem) (t : cpu) (info : uart8250_info D) (sv : string_view)
    : outcome (cpu * uart8250_info D) :=
  '(d, lk, t) ← with_spinlock_irq_disabled a fuel (u_lock info) t (fun lk t =>
    d ← send_sv_loop (Z.to_nat (sv_length sv)) m (sv_begin sv) info (u_dev info); Ok (d, lk, t));
  Ok (t, with_dev info lk d).
#[local] Instance uart8250_terminal : Terminal (uart8250_info D) :=
  { emit_ch := uart8250_send_char; emit_sv := uart8250_send_sv }.

(** The divisor of the clock; [None] when it would be divided by zero. *)
Definition bdiv (baudrate in_freq : Z) : option Z :=
  if baudrate =? 0 then Some 0
  else if u32 (16 * baudrate) =? 0 then None
  else Some (u16 (u32 (in_freq + u32 (8 * baudrate)) / u32 (16 * baudrate))).

(** The registers written by [uart8250_init], from the interrupts to the scratchpad. *)
Definition program (base : Z) (info : uart8250_info D) (d : D) (div : Z) : outcome D :=
  d ← set_reg base info d UART_IER_OFFSET 0;
  d ← set_reg base info d UART_LCR_OFFSET 128;
  d ← (if negb (div =? 0) then
         d ← set_reg base info d UART_DLL_OFFSET (Z.land div 255);
         set_reg base info d UART_DLM_OFFSET (Z.land (Z.shiftr div 8) 255)
       else Ok d);
  d ← set_reg base info d UART_LCR_OFFSET 3;
  d ← set_reg base info d UART_FCR_OFFSET 1;
  d ← set_reg base info d UART_MCR_OFFSET 0;
  '(_, d) ← get_reg base info d UART_LSR_OFFSET;
  '(_, d) ← get_reg base info d UART_RBR_OFFSET;
  set_reg base info d UART_SCR_OFFSET 0.

(** *** [uart8250_init] *)

Section Init.
Context (cbo_size : Z) (lit : string -> Z) (stack cpu_id : Z).
(** [kmalloc_initialized()], and whether [kmalloc] returns a block. *)
Context (kmalloc_initialized kmalloc_succeeds : bool).

Definition warn (lk : shared) (m : mem) (con : console (uart8250_info D)) (msg : string)
    : outcome (mem * console (uart8250_info D) * shared) :=
  '((m, terms), lk, t) ← printk a cbo_size fuel lit stack cpu_id lk m con (lit msg) [];
  Ok (m, Console terms t, lk).
(** The result, [early_info_count] and the state of the log. *)
Definition uart8250_init (early_info_count : Z) (lk : shared) (m : mem) (con : console (uart8250_info D)) (d : D)
    (base baudrate in_freq reg_width reg_shift : Z) : outcome (bool * Z * mem * console (uart8250_info D) * shared) :=
  match bdiv baudrate in_freq with
  | None => Undef
  | Some div =>
      let finish (early_info_count : Z) :=
        let info := Uart8250 (Shared SPINLOCK_INIT 0 0) base in_freq reg_width reg_shift d in
        d ← program base info d div;
        Ok (true, early_info_count, m, printk_add_terminal a con (with_dev info (Shared SPINLOCK_INIT 0 0) d), lk) in
      if kmalloc_initialized then
        if kmalloc_succeeds then finish early_info_count
        else '(m, con, lk) ← warn lk m con "uart8250: failed to alloc info\n";
             Ok (false, early_info_count, m, con, lk)
      else if early_info_count =? 8 then
        '(m, con, lk) ← warn lk m con "uart8250: exhausted early-infos struct\n";
        Ok (false, early_info_count, m, con, lk)
      else finish (u16 (early_info_count + 1))
  end.
End Init.
End Driver.

(** ** The transmitter *)

(** The transmitter of a 16550 at [base]: it is ready after [busy] more reads of the line
    status, which then has bit 5 set, and sends a byte written to it when ready. *)
Record transmitter (a : arch) (base width shift : Z) {D : Type} `{Pio D} (sent : D -> list Z) (busy : D -> nat) : Prop := {
  tx_width : width = 1 \/ width = 2 \/ width = 4;
  tx_status : forall d, let '(v, d') := pio_read width d (port_at a base (u32 (Z.shiftl UART_LSR_OFFSET shift))) in
    sent d' = sent d /\ Z.testbit v 5 = (busy d =? 0)%nat /\ busy d' = Nat.pred (busy d);
  tx_send : forall d v, busy d = 0%nat ->
    sent (pio_write width d (port_at a base (u32 (Z.shiftl UART_THR_OFFSET shift))) v) = sent d ++ [u8 v] }.

Section Sends.
Context (a : arch) (fuel : nat) (base width shift : Z) {D : Type} `{Pio D} (sent : D -> list Z) (busy : D -> nat).
Context (TX : transmitter a base width shift sent busy).

Lemma land_bit5 v : (Z.land v UART_LSR_TRANSMIT_HRE =? 0) = negb (Z.testbit v 5).
Proof.
  change UART_LSR_TRANSMIT_HRE with (2 ^ 5). destruct (Z.testbit v 5) eqn:E; cbn [negb].
  - apply Z.eqb_neq. intros Hz. apply (f_equal (fun x => Z.testbit x 5)) in Hz. rewrite Z.land_spec, E, Z.bits_0 in Hz. discriminate.
  - apply Z.eqb_eq, Z.bits_inj'. intros i Hi. rewrite Z.land_spec, Z.bits_0, Z.pow2_bits_eqb by lia.
    destruct (Z.eqb_spec 5 i) as [<-|]; [rewrite E; reflexivity|apply andb_false_r].
Qed.
Lemma char_register ch : is_u8 ch -> (width = 1 \/ width = 2 \/ width = 4) -> u8 (wrap (8 * width) (u32 (as_char a ch))) = ch.
Proof.
  intros Hc Hw. assert (E : u8 (as_char a ch) = ch).
  { assert (C : as_char a ch = ch \/ as_char a ch = ch - 256).
    { unfold as_char, to_signed. rewrite (wrap_small 8 ch Hc). destruct a; auto; destruct (ch <? _); auto. }
    unfold wrap, is_u in *. destruct C as [-> | ->]; dlia. }
  rewrite <- E at 2. unfold wrap. destruct Hw as [->|[->| ->]]; dlia.
Qed.

Definition at_port (info : uart8250_info D) : Prop := u_base info = base /\ u_reg_width info = width /\ u_reg_shift info = shift.

Lemma get_reg_port info d num : at_port info -> get_reg a base info d num = Ok (pio_read width d (port_at a base (u32 (Z.shiftl num shift)))).
Proof. intros (_ & Ew & Es). unfold get_reg. rewrite Ew, Es. destruct (tx_width _ _ _ _ _ _ TX) as [->|[->| ->]]; reflexivity. Qed.
Lemma set_reg_port info d num v : at_port info ->
  set_reg a base info d num v = Ok (pio_write width d (port_at a base (u32 (Z.shiftl num shift))) (wrap (8 * width) v)).
Proof. intros (_ & Ew & Es). unfold set_reg. rewrite Ew, Es. destruct (tx_width _ _ _ _ _ _ TX) as [->|[->| ->]]; reflexivity. Qed.

Lemma putc_loop_spec info ch : at_port info -> is_u8 ch -> forall n d, exists d', putc_loop a n base info d ch = Ok d' /\
  sent d' = sent d ++ (if (busy d <? n)%nat then [ch] else []).
Proof.
  intros Hp Hc. induction n as [|n IH]; intros d; cbn [putc_loop].
  - exists d. rewrite app_nil_r. auto.
  - rewrite (get_reg_port _ _ _ Hp). pose proof (tx_status _ _ _ _ _ _ TX d) as St.
    destruct (pio_read _ _ _) as [v d1]. cbn [mbind outcome_bind]. destruct St as (S1 & S2 & S3). rewrite land_bit5, S2, negb_involutive.
    destruct (Nat.eqb_spec (busy d) 0) as [E|E].
    + rewrite (set_reg_port _ _ _ _ Hp). eexists. split; [reflexivity|]. rewrite (tx_send _ _ _ _ _ _ TX) by (rewrite S3, E; reflexivity).
      rewrite S1, (char_register ch Hc (tx_width _ _ _ _ _ _ TX)), E. reflexivity.
    + destruct (IH d1) as (d' & -> & X). exists d'. split; [reflexivity|]. rewrite X, S1, S3.
      destruct (Nat.ltb_spec (Nat.pred (busy d)) n), (Nat.ltb_spec (busy d) (S n)); try lia; reflexivity.
Qed.

(** A transmitter that is always ready within the polls of the driver. *)
Context (Hprompt : forall d, (busy d < MAX_ATTEMPTS)%nat).

Lemma putc_prompt info ch d : at_port info -> is_u8 ch -> exists d', uart8250_putc a (u_base info) info d ch = Ok d' /\ sent d' = sent d ++ [ch].
Proof.
  intros Hp Hc. pose proof Hp as (-> & _). destruct (putc_loop_spec info ch Hp Hc MAX_ATTEMPTS d) as (d' & E & X).
  exists d'. split; [exact E|]. rewrite X. destruct (Nat.ltb_spec (busy d) MAX_ATTEMPTS); [reflexivity|]. specialize (Hprompt d). lia.
Qed.
Lemma send_char_loop_sends info ch : at_port info -> is_u8 ch -> forall n d, exists d', send_char_loop a n info d ch = Ok d' /\
  sent d' = sent d ++ replicate n ch.
Proof.
  intros Hp Hc. induction n as [|n IH]; intros d; cbn [send_char_loop].
  - exists d. rewrite app_nil_r. auto.
  - destruct (putc_prompt info ch d Hp Hc) as (d1 & -> & X1). cbn [mbind outcome_bind]. destruct (IH d1) as (d' & -> & X).
    exists d'. split; [reflexivity|]. rewrite X, X1, <- app_assoc. reflexivity.
Qed.
Lemma send_sv_loop_sends info m : at_port info -> mem_ok m -> forall n iter d, exists d', send_sv_loop a n m iter info d = Ok d' /\
  sent d' = sent d ++ bytes_at m iter n.
Proof.
  intros Hp Hm. induction n as [|n IH]; intros iter d; cbn [send_sv_loop].
  - exists d. rewrite app_nil_r. auto.
  - destruct (putc_prompt info (m iter) d Hp (Hm iter)) as (d1 & -> & X1). cbn [mbind outcome_bind]. destruct (IH (iter + 1) d1) as (d' & -> & X).
    exists d'. split; [reflexivity|]. rewrite X, X1, <- app_assoc. reflexivity.
Qed.

(** The serial port keeps the promise of a terminal. *)
Definition uart8250_text : a <> loongarch64 -> (3 <= fuel)%nat -> @TerminalText (uart8250_info D) (uart8250_terminal a fuel).
Proof.
  intros Ha Hf. refine {| term_inv := fun info => at_port info /\ lock_free (u_lock info); shown := fun info => sent (u_dev info) |}.
  - intros t info ch n (Hp & Hl) Hc Hn.
    destruct (with_spinlock_free a fuel (u_lock info) t (fun lk t => d ← send_char_loop a (Z.to_nat n) info (u_dev info) ch; Ok (d, lk, t))
      (fun d => sent d = sent (u_dev info) ++ replicate (Z.to_nat n) ch) Ha Hl Hf) as (d & lk & E & Hl' & X).
    { intros lk Hk. destruct (send_char_loop_sends info ch Hp Hc (Z.to_nat n) (u_dev info)) as (d & -> & X). exists d, lk. auto. }
    exists (with_dev info lk d). split; [|split; [split; [exact Hp|exact Hl']|exact X]].
    cbn. unfold uart8250_send_char. rewrite E. reflexivity.
  - intros m t info sv Hm (Hp & Hl) Hn.
    destruct (with_spinlock_free a fuel (u_lock info) t (fun lk t => d ← send_sv_loop a (Z.to_nat (sv_length sv)) m (sv_begin sv) info (u_dev info); Ok (d, lk, t))
      (fun d => sent d = sent (u_dev info) ++ sv_chars m sv) Ha Hl Hf) as (d & lk & E & Hl' & X).
    { intros lk Hk. destruct (send_sv_loop_sends info m Hp Hm (Z.to_nat (sv_length sv)) (sv_begin sv) (u_dev info)) as (d & -> & X). exists d, lk. auto. }
    exists (with_dev info lk d). split; [|split; [split; [exact Hp|exact Hl']|exact X]].
    cbn. unfold uart8250_send_sv. rewrite E. reflexivity.
Defined.
End Sends.

(** C40: [uart8250_putc] sends the character when the transmitter is ready within the ten
    polls of the driver, and otherwise drops it without telling its caller. *)
Theorem uart8250_putc_sends_or_drops {D} `{Pio D} a base width shift (sent : D -> list Z) busy info d ch :
  transmitter a base width shift sent busy -> at_port base width shift info -> is_u8 ch ->
  exists d', uart8250_putc a base info d ch = Ok d' /\
    sent d' = sent d ++ (if (busy d <? 10)%nat then [ch] else []).
Proof. intros TX Hp Hc. exact (putc_loop_spec a base width shift sent busy TX info ch Hp Hc MAX_ATTEMPTS d). Qed.

(** *** An example: a transmitter at port 0x3f8 that is busy for three polls after a byte *)

Record demo_uart := DemoUart { du_busy : nat; du_sent : list Z }.
#[export] Instance demo_uart_pio : Pio demo_uart := {
  pio_read w d p := if p =? 1021 then (if (du_busy d =? 0)%nat then 32 else 0, DemoUart (Nat.pred (du_busy d)) (du_sent d)) else (0, d);
  pio_write w d p v := if p =? 1016 then DemoUart 3 (du_sent d ++ [u8 v]) else d }.
Lemma demo_transmitter : transmitter x86_64 1016 1 0 du_sent du_busy.
Proof.
  split; [auto| |reflexivity]. intros [k l]. cbn. destruct k; vm_compute; auto.
Qed.
Definition demo_port (k : nat) : uart8250_info demo_uart := Uart8250 (Shared SPINLOCK_INIT 0 0) 1016 1843200 1 0 (DemoUart k []).

Lemma uart8250_putc_sends_or_drops_witness :
  (exists d', uart8250_putc x86_64 1016 (demo_port 3) (DemoUart 3 []) 200 = Ok d' /\ du_sent d' = [200]) /\
  (exists d', uart8250_putc x86_64 1016 (demo_port 12) (DemoUart 12 []) 200 = Ok d' /\ du_sent d' = []).
Proof.
  split; (apply (uart8250_putc_sends_or_drops x86_64 1016 1 0 du_sent du_busy);
    [exact demo_transmitter|repeat split|unfold is_u; lia]).
Defined.
