(* ===== verification/AddrSpace.v ===== *)
(** * Address spaces: lib/adt/addrspace.c

    An address space keeps its nodes, ranges of addresses, in an AVL tree and in a list,
    both in the order of the addresses; each node has the largest gap below a node of its
    subtree.  A node, its [avlnode] and its [list] are named by the node's address;
    [head] is the list of the address space.  The callbacks of the tree may fire
    assertions, so the owner's state of the tree is an [outcome]: once it fails it stays
    so, and the operation fails with it. *)

From stdpp Require Import gmap list sorting.
From S2P Require Import Prelude Arith Range Lists AvlTree AvlDelete.

Record addrspace_node := AsNode { as_range : range; largest_free_to_prev : Z }.
Record owner := Owner { o_links : links; o_info : gmap Z addrspace_node }.
Abbreviation space := (avltree (outcome owner)).
Definition ADDRSPACE_INVALID_ADDR : Z := UINT64_MAX.

Inductive traversal := TRAVERSAL_DONE (result prev : Z) | TRAVERSAL_CONTINUE (node : Z).

Section Model.
Context (head PAGE_SIZE : Z).

Definition info (o : owner) (p : Z) : outcome addrspace_node :=
  match o_info o !! p with Some i => Ok i | None => Undef end.
Definition set_info (p : Z) (i : addrspace_node) (o : owner) : owner := Owner (o_links o) (<[p:=i]> (o_info o)).
Definition set_links (s : links) (o : owner) : owner := Owner s (o_info o).
Definition set_owner (o : owner) (t : space) : space := Avl (a_nodes t) (a_root t) (Ok o).

Definition addrspace_node_prev (o : owner) (node : Z) : outcome Z :=
  prev ← get_prev (o_links o) node;
  _ ← c_assert (negb (prev =? 0));
  Ok (if prev =? head then 0 else prev).
(** The code looks at [prev] here too. *)
Definition addrspace_node_next (o : owner) (node : Z) : outcome Z :=
  prev ← get_prev (o_links o) node;
  if prev =? head then Ok 0 else get_next (o_links o) node.
(** [prev != NULL ? range_get_end_assert(prev->range) : 0] *)
Definition end_of (o : owner) (prev : Z) : outcome Z :=
  if negb (prev =? 0) then i ← info o prev; range_get_end_assert (as_range i) else Ok 0.

(** The inner loop of [traverse_tree]: the parent of the first left child on the way to
    the root, or NULL. *)
Fixpoint climb (fuel : nat) (t : space) (node : Z) : outcome Z :=
  n ← node_at t node;
  if a_parent n =? 0 then Ok 0
  else p ← node_at t (a_parent n);
       if a_left p =? node then Ok (a_parent n)
       else match fuel with O => Diverge | S fuel => climb fuel t (a_parent n) end.
(** The space after the last node. *)
Definition after_last (o : owner) (in_range : range) (size align : Z) : outcome traversal :=
  rightmost ← get_prev (o_links o) head;
  i ← info o rightmost;
  aligned_result ← range_get_end_assert (as_range i);
  in_end ← range_get_end_assert in_range;
  if in_end <=? aligned_result then Ok (TRAVERSAL_DONE ADDRSPACE_INVALID_ADDR 0)
  else aligned ← align_up aligned_result align;
    match aligned with
    | None => Ok (TRAVERSAL_DONE ADDRSPACE_INVALID_ADDR 0)
    | Some aligned_result =>
        match check_add_w 64 aligned_result size with
        | None => Ok (TRAVERSAL_DONE ADDRSPACE_INVALID_ADDR 0)
        | Some _ => Ok (TRAVERSAL_DONE aligned_result rightmost)
        end
    end.

(** One round of the outer loop: the result, or the node to go on from. *)
Definition traverse_node (t : space) (in_range : range) (node size pagesize_order : Z) : outcome (traversal + Z) :=
  let align := u64 (Z.shiftl PAGE_SIZE pagesize_order) in
  o ← a_user t;
  prev ← addrspace_node_prev o node;
  prev_end ← end_of o prev;
  if range_is_loc_above in_range prev_end then Ok (inl (TRAVERSAL_DONE ADDRSPACE_INVALID_ADDR 0))
  else aligned ← align_up prev_end align;
    match aligned with
    | None => Ok (inl (TRAVERSAL_DONE ADDRSPACE_INVALID_ADDR 0))
    | Some aligned_front =>
        i ← info o node;
        hole_range ← range_create_end prev_end (front (as_range i));
        in_hole ← range_has hole_range (Range aligned_front size);
        fits ← (if in_hole : bool then range_has in_range (Range aligned_front size) else Ok false);
        if fits : bool then Ok (inl (TRAVERSAL_DONE aligned_front prev))
        else
          n ← node_at t node;
          right ← (if negb (a_right n =? 0) then r ← info o (a_right n); Ok (size <=? largest_free_to_prev r) else Ok false);
          if right : bool then Ok (inl (TRAVERSAL_CONTINUE (a_right n)))
          else
            up ← climb (depth_fuel t) t node;
            if up =? 0 then r ← after_last o in_range size align; Ok (inl r) else Ok (inr up)
    end.
Fixpoint traverse_tree (fuel : nat) (t : space) (in_range : range) (node size pagesize_order : Z) : outcome traversal :=
  s ← traverse_node t in_range node size pagesize_order;
  match s with
  | inl r => Ok r
  | inr up => match fuel with O => Diverge | S fuel => traverse_tree fuel t in_range up size pagesize_order end
  end.

(** Down the left children, as long as the node lies above the range. *)
Fixpoint leftward (fuel : nat) (t : space) (o : owner) (in_range : range) (size node : Z) : outcome Z :=
  n ← node_at t node;
  i ← info o node;
  if negb (a_left n =? 0) && range_is_loc_above in_range (front (as_range i)) then
    l ← info o (a_left n);
    if size <=? largest_free_to_prev l then
      match fuel with O => Diverge | S fuel => leftward fuel t o in_range size (a_left n) end
    else Ok node
  else Ok node.
Fixpoint find_loop (fuel : nat) (t : space) (in_range : range) (size pagesize_order node : Z) : outcome (Z * Z) :=
  o ← a_user t;
  node ← leftward (depth_fuel t) t o in_range size node;
  r ← traverse_tree (depth_fuel t) t in_range node size pagesize_order;
  match r with
  | TRAVERSAL_DONE result prev => Ok (result, prev)
  | TRAVERSAL_CONTINUE node =>
      match fuel with O => Diverge | S fuel => find_loop fuel t in_range size pagesize_order node end
  end.
Definition find_from_start (t : space) (in_range : range) (size pagesize_order : Z) : outcome (Z * Z) :=
  if a_root t =? 0 then
    aligned_front ← align_up_assert (front in_range) (u64 (Z.shiftl PAGE_SIZE pagesize_order));
    b ← range_has in_range (Range aligned_front size);
    Ok (if b : bool then aligned_front else ADDRSPACE_INVALID_ADDR, 0)
  else find_loop (depth_fuel t) t in_range size pagesize_order (a_root t).

(** ** Callbacks *)

Definition avltree_update (t : space) (node : Z) : outcome owner :=
  o ← a_user t;
  prev ← addrspace_node_prev o node;
  prev_end ← end_of o prev;
  i ← info o node;
  n ← node_at t node;
  let largest := distance prev_end (front (as_range i)) in
  largest ← (if negb (a_left n =? 0) then l ← info o (a_left n); Ok (Z.max largest (largest_free_to_prev l)) else Ok largest);
  largest ← (if negb (a_right n =? 0) then r ← info o (a_right n); Ok (Z.max largest (largest_free_to_prev r)) else Ok largest);
  Ok (set_info node (AsNode (as_range i) largest) o).
Definition range_of (o : owner) (p : Z) : range := from_option as_range RANGE_EMPTY (o_info o !! p).
Definition avltree_compare (o : owner) (our_node their_node : Z) : Z :=
  if range_overlaps (range_of o our_node) (range_of o their_node) then 0
  else if range_above (range_of o our_node) (range_of o their_node) then -1 else 1.
Definition add_node_cb (t : space) (avlnode : Z) : outcome owner :=
  o ← a_user t;
  n ← node_at t avlnode;
  let parent := a_parent n in
  after ←
    (if parent =? 0 then Ok head
     else p ← node_at t parent;
          if avlnode =? a_right p then Ok parent
          else prev ← addrspace_node_prev o parent; _ ← c_assert (negb (prev =? 0)); Ok prev);
  s ← list_add (o_links o) after avlnode;
  Ok (set_links s o).

(** ** Operations *)

Definition addrspace_find_space_and_add_node (t : space) (in_range : range) (node pagesize_order : Z) : outcome (Z * space) :=
  o ← a_user t;
  i ← info o node;
  '(addr, prev) ← find_from_start t in_range (size (as_range i)) pagesize_order;
  if addr =? ADDRSPACE_INVALID_ADDR then Ok (ADDRSPACE_INVALID_ADDR, t)
  else
    let o := set_info node (AsNode (Range addr (size (as_range i))) (largest_free_to_prev i)) o in
    if negb (prev =? 0) then
      s ← list_add (o_links o) prev node;
      t ← avltree_insert_at_loc (Some avltree_update) (set_owner (set_links s o) t) node prev (LRight prev);
      _ ← a_user t;
      Ok (addr, t)
    else
      '(result, t) ← avltree_insert (Some avltree_update) None (set_owner o t) node (avltree_compare o);
      o ← a_user t;
      _ ← c_assert result;
      s ← list_add (o_links o) head node;
      Ok (addr, set_owner (set_links s o) t).

Definition addrspace_add_node (t : space) (node : Z) : outcome (bool * space) :=
  o ← a_user t;
  '(result, t) ← avltree_insert (Some avltree_update) (Some add_node_cb) t node (avltree_compare o);
  _ ← a_user t;
  Ok (result, t).

Definition addrspace_remove_node (t : space) (node : Z) : outcome space :=
  t ← avltree_delete_node (Some avltree_update) t node;
  o ← a_user t;
  s ← list_deinit (o_links o) node;
  Ok (set_owner (set_links s o) t).
End Model.

(** ** The code at work *)

(** Nodes 1 to 4 with their links initialised; the list head is 9. *)
Definition new_space (l : list (Z * range)) : space :=
  Avl (list_to_map ((fun p => (p.1, AVLNODE_INIT)) <$> l)) 0
    (Ok (Owner (list_to_map ((9, Link 9 9) :: ((fun p => (p.1, Link p.1 p.1)) <$> l)))
      (list_to_map ((fun p => (p.1, AsNode p.2 0)) <$> l)))).
Definition listed (t : space) : outcome (list Z) := o ← a_user t; list_foreach 9 (o_links o) 9.
Definition gaps (t : space) : outcome (list Z) := o ← a_user t; Ok (map (fun p => largest_free_to_prev (default (AsNode RANGE_EMPTY 0) (o_info o !! p))) [1; 2; 3]).
Fixpoint tree_nodes (fuel : nat) (t : space) (p : Z) : list Z :=
  match fuel, a_nodes t !! p with
  | S fuel, Some n => tree_nodes fuel t (a_left n) ++ p :: tree_nodes fuel t (a_right n)
  | _, _ => []
  end.

(** ** The invariant *)

Section Spec.
Context (head : Z).

Definition rend (r : range) : Z := front r + size r.
(** The ranges of the nodes, in a map. *)
Abbreviation ranges := (Z -> option range).
Definition ranges_of (o : owner) : ranges := fun p => as_range <$> o_info o !! p.
Definition below (R : ranges) (p q : Z) : Prop := exists r r', R p = Some r /\ R q = Some r' /\ rend r <= front r'.
Record listing (s : links) (R : ranges) (L : list Z) : Prop := Listing {
  ls_list : is_list s head L;
  ls_head : head <> 0 /\ 0 ∉ L;
  ls_range : forall p, p ∈ L -> exists r, R p = Some r /\ range_wf r /\ 0 < size r;
  ls_sorted : StronglySorted (below R) L }.
(** The tree and the list have the same nodes in the same order. *)
Record space_ok (t : space) (o : owner) (L : list Z) : Prop := SpaceOk {
  sp_user : a_user t = Ok o;
  sp_tree : exists T, rep t T /\ inorder T = L;
  sp_listing : listing (o_links o) (ranges_of o) L }.

Lemma info_of o p r : ranges_of o p = Some r -> exists g, info o p = Ok (AsNode r g).
Proof. unfold ranges_of, info. destruct (o_info o !! p) as [[r' g]|]; [|discriminate]. cbn. intros [= ->]. eauto. Qed.
Lemma end_of_wf o p r : p <> 0 -> ranges_of o p = Some r -> range_wf r -> end_of o p = Ok (rend r).
Proof.
  intros Hp Hr Hw. unfold end_of. destruct (Z.eqb_spec p 0); [congruence|]. cbn [negb].
  destruct (info_of o p r Hr) as (g & ->). cbn [mbind outcome_bind as_range]. unfold range_get_end_assert.
  rewrite (range_get_end_wf r Hw). reflexivity.
Qed.

Lemma sorted_apart R l1 l2 p q : StronglySorted (below R) (l1 ++ l2) -> p ∈ l1 -> q ∈ l2 -> below R p q.
Proof. intros H Hp Hq. apply StronglySorted_app in H as (H & _). auto. Qed.
Lemma below_trans R p q r : (forall r', R q = Some r' -> range_wf r') -> below R p q -> below R q r -> below R p r.
Proof.
  intros Hw (r1 & r2 & E1 & E2 & H1) (r2' & r3 & E2' & E3 & H2). assert (r2' = r2) as -> by congruence.
  exists r1, r3. destruct (Hw r2 E2). unfold rend in *. split; [auto|]. split; [auto|]. lia.
Qed.

Lemma last_split (l : list Z) : l <> [] -> exists l' , l = l' ++ [List.last l 0].
Proof. intros H. exists (removelast l). apply app_removelast_last, H. Qed.

(** The end of the last range of a list, or 0. *)
Definition last_end (R : ranges) (l : list Z) : Z :=
  match l with [] => 0 | _ => from_option rend 0 (R (List.last l 0)) end.
Lemma last_nonempty_in (l : list Z) d : l <> [] -> List.last l d ∈ l.
Proof.
  destruct l as [|x l]; [done|intros _]. rewrite last_cons. pose proof (last_in l x) as H.
  apply elem_of_cons in H as [->|H]; [apply list_elem_of_here|apply list_elem_of_further, H].
Qed.
Lemma node_prev_spec o R l1 x l2 : listing (o_links o) R (l1 ++ x :: l2) ->
  addrspace_node_prev head o x = Ok (List.last l1 0).
Proof.
  intros H. unfold addrspace_node_prev. destruct (ls_list _ _ _ H) as [ND S].
  apply seg_app in S as [S1 _]. rewrite (get_prev_Ok _ _ _ (seg_last _ _ _ _ S1)). cbn [mbind outcome_bind].
  destruct (ls_head _ _ _ H) as [Hh H0]. destruct l1 as [|y l1].
  - cbn. destruct (Z.eqb_spec head 0); [congruence|]. cbn. rewrite Z.eqb_refl. reflexivity.
  - pose proof (last_nonempty_in (y :: l1) head ltac:(done)) as Hin. rewrite (last_default (y :: l1) 0 head) by done.
    set (q := List.last (y :: l1) head) in *. assert (Hq : q ∈ (y :: l1) ++ x :: l2) by (apply elem_of_app; auto).
    destruct (Z.eqb_spec q 0) as [E|_]; [rewrite E in Hq; contradiction|]. cbn [negb c_assert mbind outcome_bind].
    destruct (Z.eqb_spec q head) as [E|_]; [|reflexivity]. apply list.NoDup_cons in ND as [Nh _]. rewrite E in Hq. contradiction.
Qed.
(** Where a list of nodes ends. *)
Lemma last_end_spec o l1 l2 : listing (o_links o) (ranges_of o) (l1 ++ l2) ->
  end_of o (List.last l1 0) = Ok (last_end (ranges_of o) l1) /\ 0 <= last_end (ranges_of o) l1 < 2 ^ 64 /\
  (forall x r, x ∈ l2 -> ranges_of o x = Some r -> last_end (ranges_of o) l1 <= front r) /\
  (forall p r, p ∈ l1 -> ranges_of o p = Some r -> rend r <= last_end (ranges_of o) l1).
Proof.
  intros H. destruct (ls_head _ _ _ H) as [_ H0]. destruct (decide (l1 = [])) as [->|Hne].
  - cbn. split; [reflexivity|]. split; [lia|]. split; [|intros p r Hp; destruct (not_elem_of_nil _ Hp)].
    intros x r Hx Er. destruct (ls_range _ _ _ H x Hx) as (r' & Er' & [W _] & _). congruence.
  - pose proof (last_nonempty_in l1 0 Hne) as Hl. set (q := List.last l1 0) in *.
    destruct (ls_range _ _ _ H q) as (r & Er & Wr & Sr); [apply elem_of_app; auto|].
    assert (E : last_end (ranges_of o) l1 = rend r) by (unfold last_end; fold q; rewrite Er; destruct l1; done).
    rewrite E. assert (Hq0 : q <> 0) by (intros E0; apply H0; rewrite <- E0; apply elem_of_app; auto).
    split; [apply end_of_wf; auto|]. destruct Wr as (W1 & W2 & W3). split; [unfold rend; lia|].
    split.
    + intros x r' Hx Er'. destruct (sorted_apart _ _ _ q x (ls_sorted _ _ _ H) Hl Hx) as (r1 & r2 & E1 & E2 & Hle).
      congruence.
    + intros p r' Hp Er'. destruct (last_split l1 Hne) as [l' El]. fold q in El. rewrite El in Hp.
      apply elem_of_app in Hp as [Hp|Hp%list_elem_of_singleton]; [|subst p; assert (r' = r) as -> by congruence; lia].
      pose proof (ls_sorted _ _ _ H) as Hs. rewrite El in Hs. apply StronglySorted_app in Hs as (_ & Hs & _).
      destruct (sorted_apart _ _ _ p q Hs Hp ltac:(apply list_elem_of_here)) as (r1 & r2 & E1 & E2 & Hle).
      assert (r1 = r') as -> by congruence. assert (r2 = r) as -> by congruence. unfold rend in *. lia.
Qed.

(** ** The callbacks *)

(** [avltree_update] changes gaps only. *)
Definition frozen (s : links) (R : ranges) : UserInv (outcome owner) :=
  fun u => exists o, u = Ok o /\ o_links o = s /\ forall p, ranges_of o p = R p.
(** Nodes whose [prev] link leads to the head of the list or a node with a range. *)
Definition visible (s : links) (R : ranges) (xs : list Z) : Prop :=
  forall x, x ∈ xs -> is_Some (R x) /\ exists pr, prevp s x = Some pr /\ pr <> 0 /\ (pr = head \/ exists r, R pr = Some r /\ range_wf r).

Lemma child_info o (xs : list Z) y : (forall p, p ∈ xs -> is_Some (ranges_of o p)) -> (y <> 0 -> y ∈ xs) -> y <> 0 -> exists i, info o y = Ok i.
Proof. intros H Hy Hy0. destruct (H y (Hy Hy0)) as [r Hr]. destruct (info_of o y r Hr) as (g & ->). eauto. Qed.
(** A node of a tree and the path to it. *)
Lemma in_plug T x : x ∈ inorder T -> exists c l r, T = plug c (Br l x r).
Proof.
  induction T as [|l IHl p r IHr]; intros Hx; [destruct (not_elem_of_nil _ Hx)|]. cbn in Hx.
  apply elem_of_app in Hx as [Hx|[->|Hx]%elem_of_cons].
  - destruct (IHl Hx) as (c & l' & r' & ->). exists (c ++ [FL p r]), l', r'. rewrite plug_app. reflexivity.
  - exists [], l, r. reflexivity.
  - destruct (IHr Hx) as (c & l' & r' & ->). exists (c ++ [FR l p]), l', r'. rewrite plug_app. reflexivity.
Qed.
(** The children of a node of the tree are nodes of the tree. *)
Lemma rep_children {U} (t : avltree U) T x : rep t T -> x ∈ inorder T -> exists n, node_at t x = Ok n /\
  (a_left n <> 0 -> a_left n ∈ inorder T) /\ (a_right n <> 0 -> a_right n ∈ inorder T).
Proof.
  intros R Hx. destruct (in_plug T x Hx) as (c & l & r & ->).
  destruct (rep_node t c l x r R) as (h & _ & ->). eexists. split; [reflexivity|]. cbn [a_left a_right].
  rewrite inorder_plug. cbn. rewrite !elem_of_app, !elem_of_cons. split; intros H0; pose proof (root_in _ H0); tauto.
Qed.

Lemma update_respects s R xs : visible s R xs -> respects (UI := frozen s R) (Some (avltree_update head)) xs.
Proof.
  intros V t T x HT EI Hx (o & Eu & Es & Er). cbn [notify a_user]. unfold avltree_update. rewrite Eu. cbn [mbind outcome_bind].
  destruct (V x Hx) as [[r Hr] (pr & Hp & Hp0 & Hpr)]. unfold addrspace_node_prev. rewrite Es, (get_prev_Ok _ _ _ Hp). cbn [mbind outcome_bind].
  destruct (Z.eqb_spec pr 0) as [|_]; [congruence|]. cbn [negb c_assert mbind outcome_bind].
  assert (exists e, end_of o (if pr =? head then 0 else pr) = Ok e) as (e & ->).
  { destruct (Z.eqb_spec pr head) as [|Hne]; [exists 0; reflexivity|]. destruct Hpr as [|(r' & Hr' & Wr')]; [congruence|].
    exists (rend r'). apply end_of_wf; auto. rewrite Er. exact Hr'. }
  cbn [mbind outcome_bind]. rewrite <- Er in Hr. destruct (info_of o x r Hr) as (g & ->). cbn [mbind outcome_bind as_range].
  subst xs. destruct (rep_children t T x HT Hx) as (n & -> & Hl & Hrt). cbn [mbind outcome_bind].
  assert (Hi : forall y, (y <> 0 -> y ∈ inorder T) -> y <> 0 -> exists i, info o y = Ok i).
  { intros y. apply child_info. intros p Hin. rewrite Er. apply (V p Hin). }
  assert (exists g1, (if negb (a_left n =? 0) then l ← info o (a_left n); Ok (Z.max (distance e (front r)) (largest_free_to_prev l)) else Ok (distance e (front r))) = Ok g1) as (g1 & ->).
  { destruct (Z.eqb_spec (a_left n) 0) as [|H0]; cbn [negb]; [eauto|]. destruct (Hi _ Hl H0) as (i & ->). cbn. eauto. }
  cbn [mbind outcome_bind].
  assert (exists g2, (if negb (a_right n =? 0) then l ← info o (a_right n); Ok (Z.max g1 (largest_free_to_prev l)) else Ok g1) = Ok g2) as (g2 & ->).
  { destruct (Z.eqb_spec (a_right n) 0) as [|H0]; cbn [negb]; [eauto|]. destruct (Hi _ Hrt H0) as (i & ->). cbn. eauto. }
  cbn [mbind outcome_bind]. eexists. split; [reflexivity|]. split; [exact Es|]. intros p. unfold ranges_of. cbn [set_info o_info].
  destruct (decide (p = x)) as [->|Hne]; [rewrite lookup_insert_eq; cbn; rewrite <- Er; symmetry; exact Hr|].
  rewrite lookup_insert_ne by auto. apply Er.
Qed.
(** A failed callback stays failed. *)
Definition panicked : UserInv (outcome owner) := fun u => u = Panic.
Lemma update_panicked xs : respects (UI := panicked) (Some (avltree_update head)) xs.
Proof. intros t T x _ _ _ Hu. unfold uinv, panicked in *. cbn [notify a_user]. unfold avltree_update. rewrite Hu. reflexivity. Qed.

Lemma listing_visible s R L : listing s R L -> visible s R L.
Proof.
  intros H x Hx. destruct (ls_range _ _ _ H x Hx) as (r & Er & Wr & _). split; [eauto|].
  apply list_elem_of_split in Hx as (l1 & l2 & ->). destruct (ls_list _ _ _ H) as [_ S]. apply seg_app in S as [S1 _].
  exists (List.last l1 head). split; [apply (seg_last _ _ _ _ S1)|]. destruct (ls_head _ _ _ H) as [Hh H0].
  destruct (decide (l1 = [])) as [->|Hne]; [cbn; auto|].
  pose proof (last_nonempty_in l1 head Hne) as Hin. assert (Hq : List.last l1 head ∈ l1 ++ x :: l2) by (apply elem_of_app; auto).
  split; [intros E; rewrite E in Hq; contradiction|]. right. destruct (ls_range _ _ _ H _ Hq) as (r' & ? & ? & _). eauto.
Qed.

(** ** Removing a node *)

Lemma listing_ext s R R' L : (forall p, R' p = R p) -> listing s R L -> listing s R' L.
Proof.
  intros E [H1 H2 H3 H4]. split; auto.
  - intros p Hp. rewrite E. auto.
  - clear -E H4. induction H4 as [|p l _ IH Hf]; constructor; [exact IH|]. rewrite list.Forall_forall in *.
    intros q Hq. unfold below. rewrite !E. apply Hf, Hq.
Qed.
Lemma listing_drop s s' R l1 x l2 : listing s R (l1 ++ x :: l2) -> is_list s' head (l1 ++ l2) -> listing s' R (l1 ++ l2).
Proof.
  intros [_ [Hh H0] Hr Hs] H'. assert (Hin : forall p, p ∈ l1 ++ l2 -> p ∈ l1 ++ x :: l2) by (intros p; rewrite !elem_of_app, elem_of_cons; tauto).
  split; auto. apply StronglySorted_app in Hs as (H1 & H2 & H3). inversion H3; subst. apply StronglySorted_app.
  split; [|auto]. intros p q Hp Hq. apply H1; [exact Hp|apply list_elem_of_further, Hq].
Qed.

Lemma remove_node_spec t o L node : space_ok t o L -> node ∈ L ->
  exists l1 l2 t' o', L = l1 ++ node :: l2 /\ addrspace_remove_node head t node = Ok t' /\ space_ok t' o' (l1 ++ l2) /\
    o_links o' !! node = Some (Link 0 0) /\ (forall p, ranges_of o' p = ranges_of o p).
Proof.
  intros [Hu (T & HT & EI) HL] Hin. rewrite <- EI in Hin. destruct (in_plug T node Hin) as (c & l & r & ->).
  rewrite inorder_plug in EI. cbn in EI. set (l1 := before c ++ inorder l). set (l2 := inorder r ++ after c).
  assert (EL : L = l1 ++ node :: l2) by (rewrite <- EI; subst l1 l2; rewrite <- !app_assoc; reflexivity).
  assert (Ed : before c ++ (inorder l ++ inorder r) ++ after c = l1 ++ l2) by (subst l1 l2; rewrite <- !app_assoc; reflexivity).
  pose proof (listing_visible _ _ _ HL) as V. rewrite EL in V, HL.
  destruct (delete_node_rep (UI := frozen (o_links o) (ranges_of o)) (Some (avltree_update head)) t c l node r HT) as (t1 & T1 & E & R1 & K & EI1).
  { rewrite Ed. apply update_respects. intros x Hx. apply V. rewrite elem_of_app, elem_of_cons. apply elem_of_app in Hx. tauto. }
  destruct (proj2 (proj2 K)) as (o1 & Eu & Es & Er); [exists o; auto|].
  exists l1, l2. unfold addrspace_remove_node. rewrite E. cbn [mbind outcome_bind]. rewrite Eu. cbn [mbind outcome_bind].
  destruct (remove_spec (o_links o) head l1 node l2 0 (ls_list _ _ _ HL)) as (s' & Es' & L' & Hn & _).
  unfold list_deinit. rewrite Es, Es'. cbn [mbind outcome_bind]. eexists _, (set_links s' o1).
  split; [exact EL|]. split; [reflexivity|]. split; [|split; [exact Hn|exact Er]]. split; [reflexivity| |].
  - exists T1. split; [exact R1|]. rewrite EI1, Ed. reflexivity.
  - cbn [set_links o_links]. eapply listing_ext; [|eapply listing_drop; [exact HL|exact L']]. exact Er.
Qed.

(** ** Adding a node *)

Lemma compare_spec o p q r r' : ranges_of o p = Some r -> ranges_of o q = Some r' -> range_wf r -> range_wf r' -> 0 < size r -> 0 < size r' ->
  (avltree_compare o p q = 0 /\ front r < rend r' /\ front r' < rend r) \/
  (avltree_compare o p q = -1 /\ below (ranges_of o) p q) \/ (avltree_compare o p q = 1 /\ below (ranges_of o) q p).
Proof.
  intros Hp Hq Wr Wr' Sr Sr'. unfold avltree_compare.
  assert (range_of o p = r) as -> by (unfold range_of, ranges_of in *; destruct (o_info o !! p); cbn in *; congruence).
  assert (range_of o q = r') as -> by (unfold range_of, ranges_of in *; destruct (o_info o !! q); cbn in *; congruence).
  pose proof (range_overlaps_inter r r' Wr Wr' Sr Sr') as Ho. unfold in_range in Ho. unfold range_above, range_is_loc_above, rend.
  destruct Wr as (W1 & W2 & W3), Wr' as (W1' & W2' & W3'). destruct (range_overlaps r r').
  - left. split; [reflexivity|]. destruct (proj1 Ho eq_refl) as (loc & ? & ?). lia.
  - right. assert (Hno : rend r <= front r' \/ rend r' <= front r).
    { unfold rend. destruct (Z.le_gt_cases (front r + size r) (front r')); [auto|].
      destruct (Z.le_gt_cases (front r' + size r') (front r)); [auto|]. exfalso.
      assert (false = true) by (apply Ho; exists (Z.max (front r) (front r')); lia). discriminate. }
    unfold rend in Hno. destruct (Z.leb_spec (front r) (front r')); cbn [andb].
    + rewrite (wrap_small 64) by (unfold is_u; lia). destruct (Z.leb_spec (size r) (front r' - front r)).
      * left. split; [reflexivity|]. exists r, r'. unfold rend. repeat split; auto. lia.
      * right. split; [reflexivity|]. exists r', r. unfold rend. repeat split; auto. lia.
    + right. split; [reflexivity|]. exists r', r. unfold rend. repeat split; auto. lia.
Qed.

(** A node that is not in the address space, with its links and range set up. *)
Record fresh (t : space) (o : owner) (L : list Z) (node : Z) (r : range) : Prop := Fresh {
  fr_node : node <> 0 /\ is_Some (a_nodes t !! node);
  fr_list : (node ∉ head :: L) /\ is_Some (o_links o !! node);
  fr_range : ranges_of o node = Some r /\ range_wf r /\ 0 < size r }.

Lemma place_ranges o node r T : ranges_of o node = Some r -> range_wf r -> 0 < size r ->
  (forall p, p ∈ inorder T -> exists r', ranges_of o p = Some r' /\ range_wf r' /\ 0 < size r') -> StronglySorted (below (ranges_of o)) (inorder T) ->
  match place (avltree_compare o) node T with
  | None => exists p r', p ∈ inorder T /\ ranges_of o p = Some r' /\ front r < rend r' /\ front r' < rend r
  | Some (xs, ys) => (forall p, p ∈ xs -> below (ranges_of o) p node) /\ (forall p, p ∈ ys -> below (ranges_of o) node p)
  end.
Proof.
  intros Hn Wn Sn. induction T as [|l IHl p q IHq]; intros Hr Hs; cbn [place].
  { split; intros p Hp; destruct (not_elem_of_nil _ Hp). }
  cbn [inorder] in *. apply StronglySorted_app in Hs as (Hlr & Hsl & Hsr). inversion Hsr as [|? ? Hsq Hpq]; subst. rewrite list.Forall_forall in Hpq.
  destruct (Hr p) as (rp & Ep & Wp & Sp); [rewrite elem_of_app, elem_of_cons; auto|].
  assert (Htr : forall x y, below (ranges_of o) x p -> below (ranges_of o) p y -> below (ranges_of o) x y).
  { intros x y. apply below_trans. intros r' E. congruence. }
  destruct (compare_spec o node p r rp Hn Ep Wn Wp Sn Sp) as [(-> & H1 & H2)|[[-> Hb]|[-> Hb]]]; cbn.
  - exists p, rp. rewrite elem_of_app, elem_of_cons. auto.
  - specialize (IHl ltac:(intros x Hx; apply Hr; rewrite elem_of_app; auto) Hsl).
    destruct (place (avltree_compare o) node l) as [[xs ys]|] eqn:EP; cbn.
    + destruct IHl as [I1 I2]. split; [exact I1|]. intros x [Hx|[->|Hx]%elem_of_cons]%elem_of_app; [auto|exact Hb|].
      exact (Htr _ _ Hb (Hpq x Hx)).
    + destruct IHl as (x & r' & Hx & H). exists x, r'. rewrite elem_of_app. auto.
  - specialize (IHq ltac:(intros x Hx; apply Hr; rewrite elem_of_app, elem_of_cons; auto) Hsq).
    destruct (place (avltree_compare o) node q) as [[xs ys]|] eqn:EP; cbn.
    + destruct IHq as [I1 I2]. split; [|exact I2]. intros x [Hx|[->|Hx]%elem_of_cons]%elem_of_app; [|exact Hb|auto].
      exact (Htr _ _ (Hlr x p Hx ltac:(apply list_elem_of_here)) Hb).
    + destruct IHq as (x & r' & Hx & H). exists x, r'. rewrite elem_of_app, elem_of_cons. auto.
Qed.

Lemma seg_end s p xs q : seg s p xs q -> nextp s (List.last xs p) = Some q.
Proof.
  revert p. induction xs as [|x xs IH]; intros p; [intros [H _]; exact H|]. intros (_ & _ & H). rewrite last_cons. apply IH, H.
Qed.
Lemma list_add_after s l1 l2 node : is_list s head (l1 ++ l2) -> node ∉ head :: l1 ++ l2 -> is_Some (s !! node) ->
  exists s', list_add s (List.last l1 head) node = Ok s' /\ is_list s' head (l1 ++ node :: l2).
Proof.
  intros H Hn Hd. destruct (insert_spec s head l1 l2 node H Hn Hd) as (s' & E & H' & _). exists s'. split; [|exact H'].
  unfold list_add. destruct H as [_ S]. apply seg_cut in S as [S1 _]. rewrite (get_next_Ok _ _ _ (seg_end _ _ _ _ S1)). exact E.
Qed.
Lemma listing_insert s s' R l1 node l2 r : listing s R (l1 ++ l2) -> is_list s' head (l1 ++ node :: l2) -> node <> 0 ->
  R node = Some r -> range_wf r -> 0 < size r -> (forall p, p ∈ l1 -> below R p node) -> (forall p, p ∈ l2 -> below R node p) ->
  listing s' R (l1 ++ node :: l2).
Proof.
  intros [_ [Hh H0] Hr Hs] H' Hn Er Wr Sr H1 H2. rewrite elem_of_app in H0. split; auto.
  - split; [exact Hh|]. rewrite elem_of_app, elem_of_cons. intuition congruence.
  - intros p Hp. rewrite elem_of_app, elem_of_cons in Hp. destruct Hp as [Hp|[->|Hp]]; [|eauto|]; apply Hr, elem_of_app; auto.
  - apply StronglySorted_app in Hs as (H3 & H4 & H5). apply StronglySorted_app. split; [|split; [exact H4|]].
    + intros p q Hp [->|Hq]%elem_of_cons; auto.
    + constructor; [exact H5|]. apply list.Forall_forall. exact H2.
Qed.

Lemma last_default_eq (l : list Z) : l <> [] -> List.last l 0 = List.last l head.
Proof. intros H. apply last_default, H. Qed.

Section AddNode.
Context (t : space) (o : owner) (L : list Z) (node : Z) (r : range) (HS : space_ok t o L) (HF : fresh t o L node r).

(** Reading the new leaf and its parent. *)
Lemma leaf_parent t1 d : rep (U := outcome owner) t1 (plug d (Br Leaf node Leaf)) -> exists h, node_at t1 node = Ok (AvlNode (hole_par d 0) 0 0 h) /\
  match d with
  | [] => True
  | FL p q :: _ => p <> 0 /\ exists n, node_at t1 p = Ok n /\ a_right n <> node
  | FR l p :: _ => p <> 0 /\ exists n, node_at t1 p = Ok n /\ a_right n = node
  end.
Proof.
  intros R. destruct (rep_node t1 d Leaf node Leaf R) as (h & n0 & E). exists h. split; [exact E|]. destruct d as [|[p q|l p] d]; [exact I| |].
  - destruct (rep_node t1 d (Br Leaf node Leaf) p q R) as (h' & p0 & E'). split; [exact p0|]. eexists. split; [exact E'|]. cbn [a_right].
    intros Eq. destruct R as (_ & _ & ND & _). change (plug (FL p q :: d) (Br Leaf node Leaf)) with (plug d (Br (Br Leaf node Leaf) p q)) in ND.
    destruct (nodup_plug _ _ ND) as (N1 & _). cbn in N1. apply list.NoDup_cons in N1 as [N1 _]. apply N1. apply list_elem_of_further.
    rewrite <- Eq. apply root_in. congruence.
  - destruct (rep_node t1 d l p (Br Leaf node Leaf) R) as (h' & p0 & E'). split; [exact p0|]. eexists. split; [exact E'|]. reflexivity.
Qed.

Lemma add_welcomes T l1 l2 s1 : L = l1 ++ l2 -> l1 <> [] \/ L = [] -> list_add (o_links o) (List.last l1 head) node = Ok s1 ->
  forall d, plug d Leaf = T -> before d = l1 -> after d = l2 -> welcomes (UI := frozen s1 (ranges_of o)) (Some (add_node_cb head)) t d node.
Proof.
  intros EL Hne Es d Ed Eb Ea t1 R Eu. cbn [notify a_user]. unfold add_node_cb. rewrite Eu, (sp_user _ _ _ HS). cbn [mbind outcome_bind].
  destruct (leaf_parent t1 d R) as (h & -> & Hd). cbn [mbind outcome_bind a_parent].
  assert (Haft : (if hole_par d 0 =? 0 then Ok head else p ← node_at t1 (hole_par d 0);
      if node =? a_right p then Ok (hole_par d 0) else prev ← addrspace_node_prev head o (hole_par d 0); _ ← c_assert (negb (prev =? 0)); Ok prev)
      = Ok (List.last l1 head)).
  { destruct d as [|[p q|l p] d]; cbn [hole_par fptr] in *.
    - cbn in Eb. subst l1. reflexivity.
    - destruct Hd as (p0 & n & -> & Hn). destruct (Z.eqb_spec p 0); [congruence|]. cbn [mbind outcome_bind].
      destruct (Z.eqb_spec node (a_right n)); [congruence|]. cbn in Ea. pose proof (sp_listing _ _ _ HS) as HL. rewrite EL, <- Ea in HL.
      rewrite (node_prev_spec o _ l1 p _ HL). cbn [mbind outcome_bind].
      destruct Hne as [Hne|Hne]; [|rewrite Hne in EL; subst l2; destruct l1; discriminate].
      rewrite last_default_eq by exact Hne. destruct (Z.eqb_spec (List.last l1 head) 0) as [E0|_]; [|reflexivity].
      destruct (ls_head _ _ _ HL) as [_ H0]. exfalso. apply H0. rewrite <- E0. apply elem_of_app. left. apply last_nonempty_in, Hne.
    - destruct Hd as (p0 & n & -> & Hn). destruct (Z.eqb_spec p 0); [congruence|]. cbn [mbind outcome_bind].
      rewrite Hn, Z.eqb_refl. cbn in Eb. rewrite <- Eb, app_assoc, List.last_last. reflexivity. }
  rewrite Haft. cbn [mbind outcome_bind]. rewrite Es. cbn [mbind outcome_bind]. eexists. split; [reflexivity|]. split; [reflexivity|auto].
Qed.
Lemma add_panics T l2 : L = l2 -> L <> [] ->
  forall d, plug d Leaf = T -> before d = [] -> after d = l2 -> welcomes (UI := panicked) (Some (add_node_cb head)) t d node.
Proof.
  intros EL Hne d Ed Eb Ea t1 R Eu. unfold uinv, panicked. cbn [notify a_user]. unfold add_node_cb. rewrite Eu, (sp_user _ _ _ HS). cbn [mbind outcome_bind].
  destruct (leaf_parent t1 d R) as (h & -> & Hd). cbn [mbind outcome_bind a_parent]. destruct d as [|[p q|l p] d]; cbn [hole_par fptr] in *.
  - cbn in Ea. congruence.
  - destruct Hd as (p0 & n & -> & Hn). destruct (Z.eqb_spec p 0); [congruence|]. cbn [mbind outcome_bind].
    destruct (Z.eqb_spec node (a_right n)); [congruence|]. cbn in Ea. pose proof (sp_listing _ _ _ HS) as HL. rewrite EL, <- Ea in HL.
    rewrite (node_prev_spec o _ [] p _ HL). reflexivity.
  - cbn in Eb. destruct (before d); [destruct (inorder l)|]; discriminate.
Qed.

Lemma add_node_spec :
  (exists p r', p ∈ L /\ ranges_of o p = Some r' /\ front r < rend r' /\ front r' < rend r /\ addrspace_add_node head t node = Ok (false, t)) \/
  (exists l1 l2, L = l1 ++ l2 /\ (forall p, p ∈ l1 -> below (ranges_of o) p node) /\ (forall p, p ∈ l2 -> below (ranges_of o) node p) /\
    (l1 = [] /\ L <> [] /\ addrspace_add_node head t node = Panic \/
     (l1 <> [] \/ L = []) /\ exists t' o', addrspace_add_node head t node = Ok (true, t') /\ space_ok t' o' (l1 ++ node :: l2) /\
       forall p, ranges_of o' p = ranges_of o p)).
Proof.
  pose proof HS as [Hu (T & HT & EI) HL]. destruct HF as [[Hn0 Hnd] [Hnl Hns] (Er & Wr & Sr)].
  assert (NT : node ∉ inorder T) by (rewrite EI; intros H; apply Hnl, list_elem_of_further, H).
  pose proof (place_ranges o node r T Er Wr Sr) as HP. rewrite EI in HP. specialize (HP (ls_range _ _ _ HL) (ls_sorted _ _ _ HL)).
  unfold addrspace_add_node. rewrite Hu. cbn [mbind outcome_bind].
  destruct (place (avltree_compare o) node T) as [[l1 l2]|] eqn:EP.
  2: { pose proof (avl_insert_rep (UI := no_inv _) (Some (avltree_update head)) (Some (add_node_cb head)) (avltree_compare o) node t T HT Hn0 Hnd NT) as HI.
    rewrite EP in HI. rewrite HI. cbn [mbind outcome_bind]. rewrite Hu. left. destruct HP as (p & r' & ? & ? & ? & ?). exists p, r'. auto. }
  right. destruct HP as [P1 P2]. pose proof (place_inorder _ _ _ _ _ EP) as EL. rewrite EI in EL. exists l1, l2.
  split; [exact EL|]. split; [exact P1|]. split; [exact P2|]. rewrite EL in HL, Hnl.
  destruct (list_add_after _ l1 l2 node (ls_list _ _ _ HL) Hnl Hns) as (s1 & Es & L1).
  pose proof (listing_insert _ _ _ _ _ _ r HL L1 Hn0 Er Wr Sr P1 P2) as HL'.
  destruct (decide (l1 <> [] \/ L = [])) as [Hok|Hbad].
  - right. split; [exact Hok|].
    pose proof (avl_insert_rep (UI := frozen s1 (ranges_of o)) (Some (avltree_update head)) (Some (add_node_cb head)) (avltree_compare o) node t T HT Hn0 Hnd NT) as HI.
    rewrite EP in HI. destruct HI as (t1 & T1 & E & R1 & _ & (o1 & Eu & Es1 & Er1) & EI1).
    { apply update_respects, listing_visible, HL'. } { apply (add_welcomes T l1 l2 s1 EL Hok Es). }
    rewrite E. cbn [mbind outcome_bind]. rewrite Eu. cbn [mbind outcome_bind]. exists t1, o1. split; [reflexivity|]. split; [|exact Er1].
    split; [exact Eu|eauto|]. rewrite Es1. eapply listing_ext; [|exact HL']. exact Er1.
  - left. destruct (decide (l1 = [])) as [->|]; [|tauto]. split; [reflexivity|]. split; [tauto|].
    pose proof (avl_insert_rep (UI := panicked) (Some (avltree_update head)) (Some (add_node_cb head)) (avltree_compare o) node t T HT Hn0 Hnd NT) as HI.
    rewrite EP in HI. destruct HI as (t1 & T1 & E & R1 & _ & Hpan & EI1).
    { apply update_panicked. } { apply (add_panics T l2 EL). tauto. }
    rewrite E. cbn [mbind outcome_bind]. rewrite Hpan. reflexivity.
Qed.
End AddNode.

(** ** Searching a free range *)

Section Search.
Context (t : space) (o : owner) (L : list Z) (HS : space_ok t o L).
Context (in_rng : range) (Hin : range_wf in_rng) (PAGE_SIZE order size : Z).
Abbreviation align := (u64 (Z.shiftl PAGE_SIZE order)).
Context (Halign : pow2_64 align).
Abbreviation R := (ranges_of o).

(** A place for the range: after the nodes [l1], the last of which is [prev], and before
    [l2]. *)
Definition good (a prev : Z) : Prop :=
  exists l1 l2, L = l1 ++ l2 /\ prev = List.last l1 0 /\ 0 <= a /\ a + size < 2 ^ 64 /\ (align | a) /\
    (forall p r, p ∈ l1 -> R p = Some r -> rend r <= a) /\ (forall q r, q ∈ l2 -> R q = Some r -> a + size <= front r) /\
    (l2 <> [] -> front in_rng <= a /\ a + size <= rend in_rng).
(** A node and the path to it. *)
Definition at_node (c : list frame) (l : tree) (n : Z) (r : tree) : Prop :=
  rep t (plug c (Br l n r)) /\ inorder (plug c (Br l n r)) = L.

Lemma at_split c l n r : at_node c l n r -> L = (before c ++ inorder l) ++ n :: inorder r ++ after c.
Proof. intros [_ <-]. rewrite inorder_plug. cbn. rewrite <- !app_assoc. reflexivity. Qed.
Lemma inorder_fuel T : rep t T -> (length (inorder T) < depth_fuel t)%nat.
Proof.
  intros (_ & HT & ND & _). assert (list_to_set (inorder T) ⊆ dom (a_nodes t)) as H.
  { intros x Hx. rewrite elem_of_list_to_set in Hx. apply elem_of_dom. eapply tree_dom; eauto. }
  apply subseteq_size in H. rewrite size_list_to_set, size_dom in H by exact ND. unfold depth_fuel. lia.
Qed.
Lemma node_info p : p ∈ L -> exists r g, R p = Some r /\ range_wf r /\ 0 < Range.size r /\ info o p = Ok (AsNode r g).
Proof.
  intros Hp. destruct (ls_range _ _ _ (sp_listing _ _ _ HS) p Hp) as (r & Er & Wr & Sr). destruct (info_of o p r Er) as (g & E). eauto 10.
Qed.

Lemma range_has_any rg a : range_wf rg -> is_u64 a -> exists b, range_has rg (Range a size) = Ok b /\
  (b = true -> front rg <= a /\ a + size <= rend rg).
Proof.
  intros Hr Ha. unfold range_has, range_index_for_loc. cbn [front Range.size].
  pose proof (range_has_loc_spec rg a Hr Ha) as S. destruct (range_has_loc rg a); cbn [negb c_assert mbind outcome_bind]; [|exists false; split; [reflexivity|discriminate]].
  destruct (proj1 S eq_refl) as [S1 S2]. destruct Hr as (R1 & R2 & R3). rewrite (wrap_small 64 (a - front rg)) by (unfold is_u; lia).
  destruct (range_has_index rg (a - front rg)); cbn [negb]; [|exists false; split; [reflexivity|discriminate]].
  eexists. split; [reflexivity|]. rewrite wrap_small by (unfold is_u; lia). rewrite Z.leb_le. unfold rend. lia.
Qed.
Lemma align_up_any n : is_u64 n -> exists r, align_up n align = Ok r /\ forall a, r = Some a -> n <= a < 2 ^ 64 /\ (align | a).
Proof.
  intros Hn. pose proof (pow2_64_bound _ Halign) as Hb. rewrite align_up_pow2 by auto. eexists. split; [reflexivity|]. intros a.
  destruct (Z.ltb_spec (n + (align - 1)) (2 ^ 64)); [|discriminate]. intros [= <-].
  pose proof (Z.mod_pos_bound (n + (align - 1)) align ltac:(lia)). unfold is_u in Hn. split; [lia|].
  exists ((n + (align - 1)) / align). pose proof (Z.div_mod (n + (align - 1)) align ltac:(lia)). lia.
Qed.

Lemma climb_spec : forall c fuel l n r, rep t (plug c (Br l n r)) -> (length c <= fuel)%nat ->
  exists up, climb fuel t n = Ok up /\ (up = 0 /\ after c = [] \/
    up <> 0 /\ exists d l' r', plug d (Br l' up r') = plug c (Br l n r) /\ after c = up :: inorder r' ++ after d).
Proof.
  induction c as [|f c IH]; intros fuel l n r HR Hf.
  - destruct (rep_node t [] l n r HR) as (h & n0 & E). exists 0. split; [|auto]. destruct fuel; cbn [climb]; rewrite E; reflexivity.
  - destruct (rep_node t (f :: c) l n r HR) as (h & n0 & E). destruct f as [p q|l0 p].
    + destruct (rep_node t c (Br l n r) p q HR) as (h' & p0 & E'). exists p. split.
      { destruct fuel; cbn [climb]; rewrite E; cbn [mbind outcome_bind a_parent hole_par fptr]; (destruct (Z.eqb_spec p 0); [congruence|]);
          rewrite E'; cbn [mbind outcome_bind a_left root]; rewrite Z.eqb_refl; reflexivity. }
      right. split; [exact p0|]. exists c, (Br l n r), q. split; reflexivity.
    + destruct (rep_node t c l0 p (Br l n r) HR) as (h' & p0 & E'). destruct fuel as [|fuel]; [cbn in Hf; lia|].
      destruct (IH fuel l0 p (Br l n r) HR ltac:(cbn in Hf; lia)) as (up & Eu & Hup). exists up. split; [|exact Hup].
      cbn [climb]. rewrite E. cbn [mbind outcome_bind a_parent hole_par fptr]. destruct (Z.eqb_spec p 0); [congruence|].
      rewrite E'. cbn [mbind outcome_bind a_left]. destruct (Z.eqb_spec (root l0) n) as [Eq|_]; [|exact Eu]. exfalso.
      destruct HR as (_ & _ & ND & _). change (plug (FR l0 p :: c) (Br l n r)) with (plug c (Br l0 p (Br l n r))) in ND.
      destruct (nodup_plug _ _ ND) as (N1 & _). cbn in N1. apply list.NoDup_app in N1 as (_ & N1 & _).
      apply (N1 n); [rewrite <- Eq; apply root_in; congruence|]. apply list_elem_of_further, elem_of_app. right. apply list_elem_of_here.
Qed.

Lemma leftward_spec : forall T c fuel, rep t (plug c T) -> inorder (plug c T) = L -> T <> Leaf -> (depth T <= fuel)%nat ->
  exists n d l r, leftward fuel t o in_rng size (root T) = Ok n /\ at_node d l n r /\
    exists pre, inorder T ++ after c = pre ++ n :: inorder r ++ after d.
Proof.
  induction T as [|l IH n r _]; intros c fuel HR EL HT Hf; [done|]. cbn [root].
  assert (Hat : at_node c l n r) by (split; auto). destruct (rep_node t c l n r HR) as (h & n0 & E).
  destruct (node_info n) as (rg & g & _ & _ & _ & Ei); [rewrite <- EL; apply plug_root_in|].
  assert (Hhere : exists n' d l' r', Ok (A := Z) n = Ok n' /\ at_node d l' n' r' /\ exists pre, (inorder l ++ n :: inorder r) ++ after c = pre ++ n' :: inorder r' ++ after d).
  { exists n, c, l, r. split; [reflexivity|]. split; [exact Hat|]. exists (inorder l). rewrite <- app_assoc. reflexivity. }
  destruct fuel as [|fuel]; [cbn in Hf; lia|]. cbn [leftward]. rewrite E. cbn [mbind outcome_bind]. rewrite Ei. cbn [mbind outcome_bind a_left as_range].
  destruct (Z.eqb_spec (root l) 0) as [El|El]; cbn [negb andb]; [exact Hhere|]. destruct (range_is_loc_above _ _); [|exact Hhere].
  destruct (node_info (root l)) as (rl & gl & _ & _ & _ & Eil); [rewrite (at_split c l n r Hat), !elem_of_app; left; right; apply root_in, El|].
  rewrite Eil. cbn [mbind outcome_bind]. destruct (size <=? _); [|exact Hhere].
  assert (Hl : l <> Leaf) by (intros ->; cbn in El; congruence).
  destruct (IH (FL n r :: c) fuel HR EL Hl ltac:(cbn in Hf; lia)) as (n' & d & l' & r' & E' & Ha & pre & Ep).
  exists n', d, l', r'. split; [exact E'|]. split; [exact Ha|]. exists pre. rewrite <- Ep. cbn. rewrite <- app_assoc. reflexivity.
Qed.

Lemma after_last_spec : L <> [] -> exists a p, after_last head o in_rng size align = Ok (TRAVERSAL_DONE a p) /\ (a = ADDRSPACE_INVALID_ADDR \/ good a p).
Proof.
  intros Hne. pose proof (sp_listing _ _ _ HS) as HL. unfold after_last. destruct (ls_list _ _ _ HL) as [_ Sg].
  rewrite (get_prev_Ok _ _ _ (seg_last _ _ _ _ Sg)). cbn [mbind outcome_bind]. pose proof (last_nonempty_in L head Hne) as Hl.
  destruct (node_info _ Hl) as (r & g & Er & Wr & Sr & ->). cbn [mbind outcome_bind as_range].
  unfold range_get_end_assert. rewrite (range_get_end_wf r Wr), (range_get_end_wf in_rng Hin). cbn [assert_some mbind outcome_bind].
  destruct (_ <=? _); [eauto 10|]. pose proof Wr as (W1 & W2 & W3).
  destruct (align_up_any (front r + Range.size r)) as (x & -> & Hx); [unfold is_u; lia|]. cbn [mbind outcome_bind].
  destruct x as [a|]; [|eauto 10]. destruct (Hx a eq_refl) as [Ha Hd]. unfold check_add_w, fits.
  destruct (Z.leb_spec 0 (a + size)); cbn [andb]; [|eauto 10]. destruct (Z.ltb_spec (a + size) (2 ^ 64)); [|eauto 10].
  eexists _, _. split; [reflexivity|]. right. exists L, []. rewrite app_nil_r. split; [reflexivity|]. split; [symmetry; apply last_default_eq, Hne|].
  split; [lia|]. split; [lia|]. split; [exact Hd|]. split; [|split; [intros q ? Hq; destruct (not_elem_of_nil _ Hq)|done]].
  intros p r' Hp Er'. pose proof HL as HL'. rewrite <- (app_nil_r L) in HL'. destruct (last_end_spec o L [] HL') as (_ & _ & _ & Hall).
  specialize (Hall p r' Hp Er'). assert (last_end R L = rend r) as El; [|unfold rend in *; lia].
  unfold last_end. rewrite last_default_eq, Er by exact Hne. destruct L; done.
Qed.

Lemma good_hole c l n r rg a : at_node c l n r -> R n = Some rg -> last_end R (before c ++ inorder l) <= a -> (align | a) -> a + size <= front rg ->
  front in_rng <= a /\ a + size <= rend in_rng -> good a (List.last (before c ++ inorder l) 0).
Proof.
  intros Hat Er Ha Hd Hle Hi. pose proof (at_split c l n r Hat) as EL. pose proof (sp_listing _ _ _ HS) as HL. rewrite EL in HL.
  destruct (last_end_spec o _ _ HL) as (_ & He & _ & Hall). destruct (node_info n) as (rg' & g & Er' & (W1 & W2 & W3) & Sr & _); [rewrite EL, elem_of_app, elem_of_cons; auto|].
  assert (rg' = rg) as -> by congruence. exists (before c ++ inorder l), (n :: inorder r ++ after c). split; [exact EL|]. split; [reflexivity|].
  split; [lia|]. split; [lia|]. split; [exact Hd|]. split; [intros p r' Hp Ep; specialize (Hall p r' Hp Ep); lia|]. split; [|auto].
  intros q r' [->|Hq]%elem_of_cons Eq; [assert (r' = rg) as -> by congruence; lia|].
  pose proof (ls_sorted _ _ _ HL) as Hs. apply StronglySorted_app in Hs as (_ & _ & Hs). inversion Hs as [|? ? _ Hfa]; subst.
  rewrite list.Forall_forall in Hfa. destruct (Hfa q Hq) as (r1 & r2 & F1 & F2 & F3).
  assert (r1 = rg) as -> by congruence. assert (r2 = r') as -> by congruence. unfold rend in F3. lia.
Qed.

Definition traversal_ok (xs : list Z) (res : traversal) : Prop :=
  match res with
  | TRAVERSAL_DONE a p => a = ADDRSPACE_INVALID_ADDR \/ good a p
  | TRAVERSAL_CONTINUE x => exists d l n r, at_node d l n r /\ r <> Leaf /\ root r = x /\ exists pre, xs = pre ++ n :: inorder r ++ after d
  end.
Lemma traverse_node_spec c l n r : at_node c l n r -> exists s, traverse_node head PAGE_SIZE t in_rng n size order = Ok s /\
  match s with
  | inl res => traversal_ok (n :: inorder r ++ after c) res
  | inr up => exists d l' r', at_node d l' up r' /\ after c = up :: inorder r' ++ after d
  end.
Proof.
  intros Hat. pose proof (at_split c l n r Hat) as EL. pose proof (sp_listing _ _ _ HS) as HL. rewrite EL in HL.
  set (l1 := before c ++ inorder l) in *. destruct (node_info n) as (rg & g & Er & Wr & Sr & Ei); [rewrite EL, elem_of_app, elem_of_cons; auto|].
  destruct (last_end_spec o l1 _ HL) as (Ee & He & Hx & _). pose proof (Hx n rg ltac:(apply list_elem_of_here) Er) as Hfr.
  unfold traverse_node. rewrite (sp_user _ _ _ HS). cbn [mbind outcome_bind]. rewrite (node_prev_spec o _ l1 n _ HL). cbn [mbind outcome_bind].
  rewrite Ee. cbn [mbind outcome_bind]. destruct (range_is_loc_above in_rng _); [eexists; split; [reflexivity|left; reflexivity]|].
  destruct (align_up_any (last_end R l1)) as (x & -> & Ha); [unfold is_u; lia|]. cbn [mbind outcome_bind].
  destruct x as [a|]; [|eexists; split; [reflexivity|left; reflexivity]]. destruct (Ha a eq_refl) as [Hab Had].
  rewrite Ei. cbn [mbind outcome_bind as_range]. unfold range_create_end. destruct (Z.leb_spec (last_end R l1) (front rg)); [|lia].
  cbn [c_assert mbind outcome_bind]. destruct Wr as (W1 & W2 & W3). rewrite (wrap_small 64 (front rg - last_end R l1)) by (unfold is_u; lia).
  destruct (range_has_any (Range (last_end R l1) (front rg - last_end R l1)) a) as (b1 & -> & H1); [unfold range_wf; cbn; lia|unfold is_u; lia|]. cbn [mbind outcome_bind].
  destruct (range_has_any in_rng a Hin) as (b2 & E2 & H2); [unfold is_u; lia|].
  replace (if b1 then range_has in_rng (Range a size) else Ok false) with (Ok (b1 && b2)) by (destruct b1; [rewrite E2; reflexivity|reflexivity]).
  cbn [mbind outcome_bind]. destruct (b1 && b2) eqn:Eb.
  { apply andb_true_iff in Eb as [-> ->]. specialize (H1 eq_refl). unfold rend in H1. cbn [front Range.size] in H1.
    eexists. split; [reflexivity|]. right. apply (good_hole c l n r rg a Hat Er); [apply Hab|exact Had|lia|exact (H2 eq_refl)]. }
  destruct Hat as [HR EI]. destruct (rep_node t c l n r HR) as (h & n0 & ->). cbn [mbind outcome_bind a_right].
  assert (exists b, (if negb (root r =? 0) then i ← info o (root r); Ok (size <=? largest_free_to_prev i) else Ok false) = Ok b /\ (b = true -> r <> Leaf)) as (b & -> & Hb).
  { destruct (Z.eqb_spec (root r) 0) as [E0|E0]; cbn [negb]; [exists false; split; [reflexivity|discriminate]|].
    destruct (node_info (root r)) as (? & ? & _ & _ & _ & ->); [rewrite EL, !elem_of_app, elem_of_cons; right; right; apply elem_of_app; left; apply root_in, E0|].
    cbn. eexists. split; [reflexivity|]. intros _ ->. cbn in E0. congruence. }
  cbn [mbind outcome_bind]. destruct b.
  { eexists. split; [reflexivity|]. exists c, l, n, r. split; [split; auto|]. split; [auto|]. split; [reflexivity|]. exists []. reflexivity. }
  destruct (climb_spec c (depth_fuel t) l n r HR) as (up & -> & Hup); [pose proof (depth_fuel_enough t c _ HR); lia|]. cbn [mbind outcome_bind].
  destruct Hup as [[-> _]|(Hu0 & d & l' & r' & Ed & Ea)]; cbn [Z.eqb].
  - destruct after_last_spec as (a' & p' & -> & Hg); [rewrite EL; destruct l1; discriminate|]. cbn [mbind outcome_bind]. eauto.
  - destruct (Z.eqb_spec up 0); [congruence|]. eexists. split; [reflexivity|]. exists d, l', r'. split; [|exact Ea]. rewrite <- Ed in HR, EI. split; auto.
Qed.
Lemma traverse_spec : forall fuel c l n r, at_node c l n r -> (length (after c) <= fuel)%nat ->
  exists res, traverse_tree head PAGE_SIZE fuel t in_rng n size order = Ok res /\ traversal_ok (n :: inorder r ++ after c) res.
Proof.
  induction fuel as [|fuel IH]; intros c l n r Hat Hf; destruct (traverse_node_spec c l n r Hat) as (s & E & Hs); cbn [traverse_tree]; rewrite E; cbn [mbind outcome_bind];
    (destruct s as [res|up]; [eauto|]); destruct Hs as (d & l' & r' & Hd & Ea); rewrite Ea in Hf; cbn in Hf; [lia|].
  rewrite length_app in Hf. destruct (IH d l' up r' Hd ltac:(lia)) as (res & -> & Hres). exists res. split; [reflexivity|].
  destruct res as [a p|x]; [exact Hres|]. destruct Hres as (d' & l2 & n' & r2 & H1 & H2 & H3 & pre & Ep). exists d', l2, n', r2.
  split; [exact H1|]. split; [exact H2|]. split; [exact H3|]. exists (n :: inorder r ++ pre). cbn. rewrite Ea, <- app_assoc, <- Ep. reflexivity.
Qed.

Lemma find_loop_spec : forall fuel T c, rep t (plug c T) -> inorder (plug c T) = L -> T <> Leaf -> (length (inorder T ++ after c) <= fuel)%nat ->
  exists a p, find_loop head PAGE_SIZE fuel t in_rng size order (root T) = Ok (a, p) /\ (a = ADDRSPACE_INVALID_ADDR \/ good a p).
Proof.
  induction fuel as [|fuel IH]; intros T c HR EL HT Hf; pose proof (depth_fuel_enough t c T HR) as Hd;
    destruct (leftward_spec T c (depth_fuel t) HR EL HT ltac:(lia)) as (n & d & l & r & E1 & Hat & pre & Ep);
    pose proof (inorder_fuel _ (proj1 Hat)) as Hi; rewrite (proj2 Hat), (at_split d l n r Hat) in Hi; rewrite !length_app in Hi; cbn in Hi; rewrite length_app in Hi;
    destruct (traverse_spec (depth_fuel t) d l n r Hat ltac:(lia)) as (res & E2 & Hres); cbn [find_loop]; rewrite (sp_user _ _ _ HS); cbn [mbind outcome_bind];
    rewrite E1; cbn [mbind outcome_bind]; rewrite E2; cbn [mbind outcome_bind]; (destruct res as [a p|x]; [eauto|]);
    destruct Hres as (d' & l' & n' & r' & Hat' & Hr' & <- & pre' & Ep'); rewrite Ep, Ep', !length_app in Hf; cbn in Hf; rewrite length_app in Hf; [lia|].
  apply (IH r' (FR l' n' :: d')); [apply Hat'|apply Hat'|exact Hr'|]. cbn [after]. rewrite length_app. lia.
Qed.

Lemma find_spec : exists a p, find_from_start head PAGE_SIZE t in_rng size order = Ok (a, p) /\ (a = ADDRSPACE_INVALID_ADDR \/ good a p) \/
  L = [] /\ find_from_start head PAGE_SIZE t in_rng size order = Panic.
Proof.
  destruct (sp_tree _ _ _ HS) as (T & HT & EI). unfold find_from_start. pose proof HT as (Hroot & _). rewrite Hroot.
  destruct T as [|l n r].
  - cbn in EI. cbn [root Z.eqb]. destruct (align_up_any (front in_rng)) as (x & Ex & Hx); [destruct Hin as (? & ? & ?); unfold is_u; lia|].
    unfold align_up_assert. rewrite Ex. cbn [mbind outcome_bind]. destruct x as [a|]; cbn [assert_some mbind outcome_bind].
    + destruct (Hx a eq_refl) as [Ha Hd]. destruct (range_has_any in_rng a Hin) as (b & -> & Hb); [unfold is_u; destruct Hin; lia|]. cbn [mbind outcome_bind].
      eexists _, 0. left. split; [reflexivity|]. destruct b; [right|left; reflexivity]. specialize (Hb eq_refl). exists [], []. rewrite <- EI. cbn.
      destruct Hin as (? & ? & ?). unfold rend in Hb. split; [reflexivity|]. split; [reflexivity|]. split; [lia|]. split; [lia|]. split; [exact Hd|].
      split; [intros p ? Hp; destruct (not_elem_of_nil _ Hp)|]. split; [intros p ? Hp; destruct (not_elem_of_nil _ Hp)|done].
    + exists 0, 0. right. auto.
  - destruct (rep_node t [] l n r HT) as (h & n0 & _). cbn [root]. destruct (Z.eqb_spec n 0); [congruence|].
    destruct (find_loop_spec (depth_fuel t) (Br l n r) [] HT EI ltac:(discriminate)) as (a & p & E & Hg); [pose proof (inorder_fuel _ HT); cbn [after]; rewrite app_nil_r; lia|].
    exists a, p. left. split; [exact E|exact Hg].
Qed.
End Search.

(** ** Finding a range and adding the node there *)

Lemma nodup_split (a b c d : list Z) x : NoDup (a ++ x :: b) -> a ++ x :: b = c ++ x :: d -> a = c /\ b = d.
Proof.
  revert c. induction a as [|y a IH]; intros c ND E; destruct c as [|z c]; cbn in *.
  - injection E as ->. auto.
  - injection E as -> ->. apply list.NoDup_cons in ND as [N _]. exfalso. apply N, elem_of_app. right. apply list_elem_of_here.
  - injection E as -> E. apply list.NoDup_cons in ND as [N _]. exfalso. apply N, elem_of_app. right. apply list_elem_of_here.
  - injection E as -> E. apply list.NoDup_cons in ND as [_ ND]. destruct (IH c ND E) as [-> ->]. auto.
Qed.

Section FindAndAdd.
Context (t : space) (o : owner) (L : list Z) (node : Z) (i : addrspace_node) (HS : space_ok t o L).
Context (Hnode : node <> 0 /\ is_Some (a_nodes t !! node)) (Hlink : (node ∉ head :: L) /\ o_links o !! node = Some (Link node node)).
Context (Hinfo : o_info o !! node = Some i).
Abbreviation sz := (Range.size (as_range i)).
Context (Hsz : 0 < sz < 2 ^ 64) (in_rng : range) (Hin : range_wf in_rng) (PAGE_SIZE order : Z) (Halign : pow2_64 (u64 (Z.shiftl PAGE_SIZE order))).

(** The owner's state with the range of the node set. *)
Definition moved_to (a : Z) : owner := set_info node (AsNode (Range a sz) (largest_free_to_prev i)) o.
Lemma moved_node a : ranges_of (moved_to a) node = Some (Range a sz).
Proof. unfold ranges_of, moved_to. cbn. rewrite lookup_insert_eq. reflexivity. Qed.
Lemma moved_other a p : p <> node -> ranges_of (moved_to a) p = ranges_of o p.
Proof. intros H. unfold ranges_of, moved_to. cbn. rewrite lookup_insert_ne by auto. reflexivity. Qed.
Lemma moved_in a p : p ∈ L -> ranges_of (moved_to a) p = ranges_of o p.
Proof. intros H. apply moved_other. intros ->. apply (proj1 Hlink), list_elem_of_further, H. Qed.
Lemma moved_listing a : listing (o_links o) (ranges_of (moved_to a)) L.
Proof.
  destruct (sp_listing _ _ _ HS) as [H1 H2 H3 H4]. split; [exact H1|exact H2| |].
  - intros p Hp. rewrite moved_in by exact Hp. auto.
  - assert (Hm : forall p, p ∈ L -> ranges_of (moved_to a) p = ranges_of o p) by (intros p; apply moved_in).
    clear -H4 Hm. induction H4 as [|p l _ IH Hf]; constructor.
    + apply IH. intros q Hq. apply Hm, list_elem_of_further, Hq.
    + rewrite list.Forall_forall in *. intros q Hq. unfold below. rewrite !Hm by (apply list_elem_of_here || apply list_elem_of_further, Hq). apply Hf, Hq.
Qed.

(** The place found is one for the new range. *)
Lemma good_below a p l1 l2 : L = l1 ++ l2 -> 0 <= a -> a + sz < 2 ^ 64 ->
  (forall q r, q ∈ l1 -> ranges_of o q = Some r -> rend r <= a) -> (forall q r, q ∈ l2 -> ranges_of o q = Some r -> a + sz <= front r) -> p = List.last l1 0 ->
  (forall q, q ∈ l1 -> below (ranges_of (moved_to a)) q node) /\ (forall q, q ∈ l2 -> below (ranges_of (moved_to a)) node q).
Proof.
  intros EL Ha Hs H1 H2 _. pose proof (sp_listing _ _ _ HS) as HL.
  split; intros q Hq; assert (HqL : q ∈ L) by (rewrite EL; apply elem_of_app; auto); destruct (ls_range _ _ _ HL q HqL) as (r & Er & Wr & Sr).
  - exists r, (Range a sz). rewrite (moved_in a q HqL), moved_node. repeat split; auto. cbn. apply (H1 q r Hq Er).
  - exists (Range a sz), r. rewrite (moved_in a q HqL), moved_node. repeat split; auto. unfold rend. cbn. apply (H2 q r Hq Er).
Qed.

Lemma insert_after_prev a l1 l2 c l p : L = l1 ++ l2 -> l1 <> [] -> p = List.last l1 0 -> rep t (plug c (Br l p Leaf)) -> inorder (plug c (Br l p Leaf)) = L ->
  0 <= a -> a + sz < 2 ^ 64 -> (forall q, q ∈ l1 -> below (ranges_of (moved_to a)) q node) -> (forall q, q ∈ l2 -> below (ranges_of (moved_to a)) node q) ->
  exists s t' o', list_add (o_links o) p node = Ok s /\
    avltree_insert_at_loc (Some (avltree_update head)) (set_owner (set_links s (moved_to a)) t) node p (LRight p) = Ok t' /\
    a_user t' = Ok o' /\ space_ok t' o' (l1 ++ node :: l2) /\ forall q, ranges_of o' q = ranges_of (moved_to a) q.
Proof.
  intros EL Hne Ep HR EI Ha Hs P1 P2. destruct Hnode as [Hn0 Hnd], Hlink as [Hnl Hns]. pose proof (moved_listing a) as HL. rewrite EL in HL, Hnl.
  destruct (list_add_after _ l1 l2 node (ls_list _ _ _ HL) Hnl ltac:(eauto)) as (s & Es & L1).
  rewrite <- last_default_eq, <- Ep in Es by exact Hne. exists s.
  pose proof (listing_insert _ _ _ _ _ _ (Range a sz) HL L1 Hn0 (moved_node a) ltac:(unfold range_wf; cbn; lia) ltac:(cbn; lia) P1 P2) as HL'.
  destruct (last_split l1 Hne) as [l1' El1]. rewrite <- Ep in El1.
  assert (before c ++ inorder l = l1' /\ after c = l2) as [E1 E2].
  { rewrite inorder_plug in EI. cbn in EI. apply (nodup_split _ _ _ _ p).
    - destruct HR as (_ & _ & ND & _). rewrite inorder_plug in ND. cbn in ND. rewrite <- !app_assoc in *. exact ND.
    - rewrite EL, El1, <- !app_assoc in EI. rewrite <- app_assoc. exact EI. }
  assert (EX : inorder (plug (FR l p :: c) (Br Leaf node Leaf)) = l1 ++ node :: l2).
  { rewrite inorder_plug. cbn. rewrite El1, <- E1, <- E2, <- !app_assoc. reflexivity. }
  destruct (insert_at_rep (UI := frozen s (ranges_of (moved_to a))) (Some (avltree_update head)) (set_owner (set_links s (moved_to a)) t) (FR l p :: c) node None)
    as (t' & T' & E & R' & EI' & _ & (o' & Eu & Eo & Er)).
  - exact HR.
  - exact Hn0.
  - exact Hnd.
  - change (plug (FR l p :: c) Leaf) with (plug c (Br l p Leaf)). rewrite EI, EL. intros H. apply Hnl, list_elem_of_further, H.
  - rewrite EX. apply update_respects, listing_visible, HL'.
  - intros t1 _ E1'. cbn [notify]. rewrite E1'. eexists. split; [reflexivity|]. split; [reflexivity|]. reflexivity.
  - exists t', o'. split; [exact Es|]. split; [exact E|]. split; [exact Eu|]. split; [|exact Er]. split; [exact Eu|exists T'; split; [exact R'|congruence]|].
    rewrite Eo. eapply listing_ext; [|exact HL']. exact Er.
Qed.

Lemma insert_first a : 0 <= a -> a + sz < 2 ^ 64 -> (forall q, q ∈ L -> below (ranges_of (moved_to a)) node q) ->
  exists t1 o1 s t', avltree_insert (Some (avltree_update head)) None (set_owner (moved_to a) t) node (avltree_compare (moved_to a)) = Ok (true, t1) /\
    a_user t1 = Ok o1 /\ list_add (o_links o1) head node = Ok s /\ t' = set_owner (set_links s o1) t1 /\ space_ok t' (set_links s o1) (node :: L) /\
    forall q, ranges_of (set_links s o1) q = ranges_of (moved_to a) q.
Proof.
  intros Ha Hs P2. destruct Hnode as [Hn0 Hnd], Hlink as [Hnl Hns]. pose proof (moved_listing a) as HL. destruct (sp_tree _ _ _ HS) as (T & HT & EI).
  assert (Wn : range_wf (Range a sz)) by (unfold range_wf; cbn; lia).
  destruct (list_add_after _ [] L node (ls_list _ _ _ HL) Hnl ltac:(eauto)) as (s & Es & L1). cbn in Es.
  pose proof (listing_insert _ _ _ [] node L (Range a sz) HL L1 Hn0 (moved_node a) Wn ltac:(cbn; lia) ltac:(intros p Hp; destruct (not_elem_of_nil _ Hp)) P2) as HL'.
  pose proof (place_ranges (moved_to a) node (Range a sz) T (moved_node a) Wn ltac:(cbn; lia)) as HP. rewrite EI in HP. specialize (HP (ls_range _ _ _ HL) (ls_sorted _ _ _ HL)).
  assert (Hcon : forall x r, x ∈ L -> ranges_of (moved_to a) x = Some r -> a + sz <= front r).
  { intros x r Hx Ex. destruct (P2 x Hx) as (r1 & r2 & F1 & F2 & F3). rewrite moved_node in F1. injection F1 as <-. assert (r2 = r) as -> by congruence. exact F3. }
  pose proof (avl_insert_rep (UI := frozen (o_links o) (ranges_of (moved_to a))) (Some (avltree_update head)) None (avltree_compare (moved_to a)) node (set_owner (moved_to a) t) T HT Hn0 Hnd) as HI.
  rewrite EI in HI. specialize (HI ltac:(intros H; apply Hnl, list_elem_of_further, H)).
  destruct (place (avltree_compare (moved_to a)) node T) as [[xs ys]|] eqn:EP.
  2: { exfalso. destruct HP as (x & r & Hx & Ex & H1 & H2). specialize (Hcon x r Hx Ex). unfold rend in H2. cbn in H2. lia. }
  pose proof (place_inorder _ _ _ _ _ EP) as EL. rewrite EI in EL. destruct HP as [P3 _].
  assert (xs = []) as ->.
  { destruct xs as [|x xs]; [reflexivity|]. exfalso. assert (Hx : x ∈ L) by (rewrite EL; apply list_elem_of_here).
    destruct (P3 x ltac:(apply list_elem_of_here)) as (r1 & r2 & F1 & F2 & F3). rewrite moved_node in F2. injection F2 as <-.
    specialize (Hcon x r1 Hx F1). destruct (ls_range _ _ _ HL x Hx) as (r & Er & (W1 & W2 & W3) & Sr). assert (r1 = r) as -> by congruence.
    unfold rend in F3. cbn in F3. lia. }
  cbn in EL. subst ys. destruct HI as (t1 & T1 & E & R1 & _ & (o1 & Eu & Eo & Er) & EI1).
  { apply update_respects. intros x [->|Hx]%elem_of_cons; [|apply (listing_visible _ _ _ HL), Hx].
    split; [rewrite moved_node; eauto|]. exists node. unfold prevp. rewrite Hns. split; [reflexivity|]. split; [exact Hn0|]. right. rewrite moved_node. eauto. }
  { intros d _ _ _ t1 _ E1. cbn [notify]. rewrite E1. eexists. split; [reflexivity|]. split; reflexivity. }
  exists t1, o1, s, (set_owner (set_links s o1) t1). split; [exact E|]. split; [exact Eu|]. rewrite Eo. split; [exact Es|]. split; [reflexivity|].
  split; [|exact Er]. split; [reflexivity|exists T1; auto|]. cbn [set_links o_links]. eapply listing_ext; [|exact HL']. exact Er.
Qed.

Lemma find_and_add_spec :
  (forall a p n, find_from_start head PAGE_SIZE t in_rng sz order = Ok (a, p) -> a_nodes t !! p = Some n -> a_right n = 0) ->
  (L = [] /\ addrspace_find_space_and_add_node head PAGE_SIZE t in_rng node order = Panic) \/
  addrspace_find_space_and_add_node head PAGE_SIZE t in_rng node order = Ok (ADDRSPACE_INVALID_ADDR, t) \/
  exists a l1 l2 t' o', addrspace_find_space_and_add_node head PAGE_SIZE t in_rng node order = Ok (a, t') /\ L = l1 ++ l2 /\
    (u64 (Z.shiftl PAGE_SIZE order) | a) /\ space_ok t' o' (l1 ++ node :: l2) /\
    ranges_of o' node = Some (Range a sz) /\ forall q, q <> node -> ranges_of o' q = ranges_of o q.
Proof.
  intros Hright. unfold addrspace_find_space_and_add_node. rewrite (sp_user _ _ _ HS). cbn [mbind outcome_bind]. unfold info. rewrite Hinfo. cbn [mbind outcome_bind].
  destruct (find_spec t o L HS in_rng Hin PAGE_SIZE order sz Halign) as (a & p & [[E Hg]|[-> ->]]); [|left; auto].
  right. pose proof (Hright a p) as Hr. rewrite E in *. cbn [mbind outcome_bind]. destruct (Z.eqb_spec a ADDRSPACE_INVALID_ADDR) as [->|Hai]; [auto|].
  destruct Hg as [Hg|(l1 & l2 & EL & Epl & Ha & Has & Hd & G1 & G2 & _)]; [congruence|]. right.
  destruct (good_below a p l1 l2 EL Ha Has G1 G2 Epl) as [P1 P2]. destruct (ls_head _ _ _ (sp_listing _ _ _ HS)) as [_ H0].
  fold (moved_to a). destruct (decide (l1 = [])) as [->|Hne].
  - cbn in Epl, EL. subst p. cbn [Z.eqb negb]. rewrite <- EL in P2. destruct (insert_first a Ha Has P2) as (t1 & o1 & s & t' & E1 & E2 & E3 & -> & Hok & Er).
    rewrite E1. cbn [mbind outcome_bind]. rewrite E2. cbn [c_assert mbind outcome_bind]. rewrite E3. cbn [mbind outcome_bind].
    exists a, [], L. eexists _, (set_links s o1). split; [reflexivity|]. split; [reflexivity|]. split; [exact Hd|]. split; [exact Hok|].
    split; [rewrite Er; apply moved_node|]. intros q Hq. rewrite Er. apply moved_other, Hq.
  - pose proof (last_nonempty_in l1 0 Hne) as Hp1. rewrite <- Epl in Hp1. assert (HpL : p ∈ L) by (rewrite EL; apply elem_of_app; auto).
    destruct (Z.eqb_spec p 0) as [->|Hp0]; [contradiction|]. cbn [negb].
    destruct (sp_tree _ _ _ HS) as (T & HT & EI). rewrite <- EI in HpL. destruct (in_plug T p HpL) as (c & l & r & ->).
    assert (r = Leaf) as ->.
    { destruct (rep_node t c l p r HT) as (h & _ & En). unfold node_at in En. destruct (a_nodes t !! p) as [n|] eqn:Enn; [|discriminate]. injection En as ->.
      specialize (Hr _ eq_refl eq_refl). cbn in Hr. destruct r as [|l' x r']; [reflexivity|]. destruct (rep_node t (FR l p :: c) l' x r' HT) as (_ & x0 & _). cbn in Hr. congruence. }
    destruct (insert_after_prev a l1 l2 c l p EL Hne Epl HT EI Ha Has P1 P2) as (s & t' & o' & E1 & E2 & E3 & Hok & Er).
    change (o_links (moved_to a)) with (o_links o). rewrite E1. cbn [mbind outcome_bind]. rewrite E2. cbn [mbind outcome_bind]. rewrite E3. cbn [mbind outcome_bind].
    exists a, l1, l2, t', o'. split; [reflexivity|]. split; [exact EL|]. split; [exact Hd|]. split; [exact Hok|].
    split; [rewrite Er; apply moved_node|]. intros q Hq. rewrite Er. apply moved_other, Hq.
Qed.
End FindAndAdd.
End Spec.

(** ** Results *)

(** C33: adding a node to an address space and removing one.  A node whose range overlaps
    another is refused and nothing changes.  Otherwise tree and list get the node at the
    same place, in the order of the addresses and apart from all others; but an assertion
    fires if the node is to become the first of a space that has nodes.  Removing a node
    takes it out of both. *)
Theorem addrspace_add_remove head t o L : space_ok head t o L ->
  (forall node r, fresh head t o L node r ->
    (exists p r', p ∈ L /\ ranges_of o p = Some r' /\ front r < rend r' /\ front r' < rend r /\ addrspace_add_node head t node = Ok (false, t)) \/
    (exists l1 l2, L = l1 ++ l2 /\ (forall p, p ∈ l1 -> below (ranges_of o) p node) /\ (forall p, p ∈ l2 -> below (ranges_of o) node p) /\
      (l1 = [] /\ L <> [] /\ addrspace_add_node head t node = Panic \/
       (l1 <> [] \/ L = []) /\ exists t' o', addrspace_add_node head t node = Ok (true, t') /\ space_ok head t' o' (l1 ++ node :: l2) /\
         forall p, ranges_of o' p = ranges_of o p))) /\
  (forall node, node ∈ L -> exists l1 l2 t' o', L = l1 ++ node :: l2 /\ addrspace_remove_node head t node = Ok t' /\
    space_ok head t' o' (l1 ++ l2) /\ forall p, ranges_of o' p = ranges_of o p).
Proof.
  intros H. split; [intros node r Hf; apply add_node_spec; auto|]. intros node Hn.
  destruct (remove_node_spec head t o L node H Hn) as (l1 & l2 & t' & o' & E1 & E2 & E3 & _ & E4). eauto 10.
Qed.

(** C34: [addrspace_find_space_and_add_node] terminates.  A range it returns is aligned and
    apart from all others, and the node is put at its place in tree and list, as long as
    the node it is put after has no right child in the tree; otherwise it returns
    ADDRSPACE_INVALID_ADDR and changes nothing.  An assertion can only fire for an empty
    space, when the start of the range to search cannot be aligned. *)
Theorem addrspace_find_adds head t o L node i in_rng PAGE_SIZE order : space_ok head t o L ->
  node <> 0 /\ is_Some (a_nodes t !! node) -> (node ∉ head :: L) /\ o_links o !! node = Some (Link node node) ->
  o_info o !! node = Some i -> 0 < size (as_range i) < 2 ^ 64 -> range_wf in_rng -> pow2_64 (u64 (Z.shiftl PAGE_SIZE order)) ->
  (forall a p n, find_from_start head PAGE_SIZE t in_rng (size (as_range i)) order = Ok (a, p) -> a_nodes t !! p = Some n -> a_right n = 0) ->
  (L = [] /\ addrspace_find_space_and_add_node head PAGE_SIZE t in_rng node order = Panic) \/
  addrspace_find_space_and_add_node head PAGE_SIZE t in_rng node order = Ok (ADDRSPACE_INVALID_ADDR, t) \/
  exists a l1 l2 t' o', addrspace_find_space_and_add_node head PAGE_SIZE t in_rng node order = Ok (a, t') /\ L = l1 ++ l2 /\
    (u64 (Z.shiftl PAGE_SIZE order) | a) /\ space_ok head t' o' (l1 ++ node :: l2) /\
    ranges_of o' node = Some (Range a (size (as_range i))) /\ forall q, q <> node -> ranges_of o' q = ranges_of o q.
Proof. intros H1 H2 H3 H4 H5 H6 H7 H8. apply find_and_add_spec; auto. Qed.

(** ** A small address space *)

Definition small : list (Z * range) := [(1, Range 0 4096); (2, Range 40960 4096); (3, Range 0 8192)].
Definition small_owner : owner := match a_user (new_space small) with Ok o => o | _ => Owner ∅ ∅ end.
Lemma small_ok : space_ok 9 (new_space small) small_owner [].
Proof.
  split; [reflexivity| |].
  - exists Leaf. split; [|reflexivity]. split; [reflexivity|]. split; [exact I|]. split; [constructor|].
    intros x n Hx. unfold new_space, small in Hx. cbn in Hx. repeat (apply lookup_insert_Some in Hx as [[_ <-]|[_ Hx]]; [unfold is_u; cbn; lia|]).
    rewrite lookup_empty in Hx. discriminate.
  - split; [|split; [discriminate|apply not_elem_of_nil]|intros p Hp; destruct (not_elem_of_nil _ Hp)|constructor].
    split; [repeat constructor; apply not_elem_of_nil|]. split; vm_compute; reflexivity.
Qed.
Lemma small_fresh : fresh 9 (new_space small) small_owner [] 1 (Range 0 4096).
Proof.
  split; [split; [discriminate|eexists; vm_compute; reflexivity]| |].
  - split; [|eexists; vm_compute; reflexivity]. intros H. apply list_elem_of_singleton in H. discriminate.
  - split; [vm_compute; reflexivity|]. unfold range_wf. cbn. lia.
Qed.

Lemma addrspace_add_remove_witness :
  exists t' o', addrspace_add_node 9 (new_space small) 1 = Ok (true, t') /\ space_ok 9 t' o' [1].
Proof.
  destruct (addrspace_add_remove 9 (new_space small) small_owner [] small_ok) as [H _].
  destruct (H 1 (Range 0 4096) small_fresh) as [(p & r & Hp & _)|(l1 & l2 & EL & _ & _ & [(_ & Hn & _)|(_ & t' & o' & E & Hok & _)])].
  - destruct (not_elem_of_nil _ Hp).
  - destruct (Hn eq_refl).
  - destruct l1; [|discriminate]. destruct l2; [|discriminate]. exists t', o'. auto.
Defined.
Lemma addrspace_find_adds_witness : exists t' o', addrspace_find_space_and_add_node 9 4096 (new_space small) (Range 5000 100000) 3 0 = Ok (8192, t') /\
  space_ok 9 t' o' [3] /\ ranges_of o' 3 = Some (Range 8192 8192).
Proof.
  destruct (addrspace_find_adds 9 (new_space small) small_owner [] 3 (AsNode (Range 0 8192) 0) (Range 5000 100000) 4096 0 small_ok) as [[_ E]|[E|H]].
  - split; [discriminate|eexists; vm_compute; reflexivity].
  - split; [|vm_compute; reflexivity]. intros H. apply list_elem_of_singleton in H. discriminate.
  - vm_compute. reflexivity.
  - cbn. lia.
  - unfold range_wf. cbn. lia.
  - exists 12. split; [lia|reflexivity].
  - intros a p n E Hp. assert (p = 0) as -> by (vm_compute in E; congruence). vm_compute in Hp. discriminate.
  - vm_compute in E. discriminate.
  - vm_compute in E. discriminate.
  - destruct H as (a & l1 & l2 & t' & o' & E & EL & _ & Hok & Hr & _). destruct l1; [|discriminate]. destruct l2; [|discriminate].
    assert (a = 8192) as -> by (vm_compute in E; congruence). exists t', o'. auto.
Defined.

(** *** Where the code goes wrong *)

(** A node put after one that has a right child replaces that child: node 2 is in the list
    but no longer in the tree. *)
Lemma right_child_lost :
  ('(_, t) ← addrspace_add_node 9 (new_space small) 1; '(_, t) ← addrspace_add_node 9 t 2;
   '(a, t) ← addrspace_find_space_and_add_node 9 4096 t (Range 0 1000000) 3 0;
   l ← listed t; Ok (a, l, tree_nodes 9 t (a_root t))) = Ok (4096, [1; 3; 2], [1; 3]).
Proof. vm_compute. reflexivity. Qed.
(** The space after the last node is returned even if the range does not fit the range to
    search. *)
Lemma found_outside : ('(_, t) ← addrspace_add_node 9 (new_space small) 1;
   '(a, _) ← addrspace_find_space_and_add_node 9 4096 t (Range 0 5000) 3 0; Ok a) = Ok 4096.
Proof. vm_compute. reflexivity. Qed.
(** A node that becomes the first is in the tree before it is in the list, so its gap is
    computed from its own end. *)
Lemma first_gap_wraps : ('(_, t) ← addrspace_add_node 9 (new_space small) 2;
   '(a, t) ← addrspace_find_space_and_add_node 9 4096 t (Range 0 1000000) 3 0; g ← gaps t; Ok (a, g)) = Ok (0, [0; 2 ^ 64 - 8192; 2 ^ 64 - 8192]).
Proof. vm_compute. reflexivity. Qed.
(** The successor of the first node is not found. *)
Lemma next_of_first : ('(_, t) ← addrspace_add_node 9 (new_space small) 1; '(_, t) ← addrspace_add_node 9 t 2;
   o ← a_user t; addrspace_node_next 9 o 1) = Ok 0.
Proof. vm_compute. reflexivity. Qed.
