(* ===== verification/Hhdm.v ===== *)
(** * The direct map: kernel/src/mm/hhdm.c

    All physical memory is mapped from [HHDM_OFFSET] on. *)

From S2P Require Import Prelude Arith.

Definition phys_to_virt (PAGE_SIZE HHDM_OFFSET phys : Z) : outcome Z :=
  _ ← c_assert (PAGE_SIZE <=? phys); check_add_assert_w 64 HHDM_OFFSET phys.
Definition virt_to_phys (HHDM_OFFSET virt : Z) : outcome Z :=
  _ ← c_assert (HHDM_OFFSET <=? virt); Ok (virt - HHDM_OFFSET).

Lemma phys_to_virt_ok PAGE_SIZE HHDM_OFFSET phys : 0 <= HHDM_OFFSET -> 0 <= PAGE_SIZE <= phys -> HHDM_OFFSET + phys < 2 ^ 64 ->
  phys_to_virt PAGE_SIZE HHDM_OFFSET phys = Ok (HHDM_OFFSET + phys).
Proof.
  intros Hh Hp He. unfold phys_to_virt, check_add_assert_w, check_add_w, fits.
  destruct (Z.leb_spec PAGE_SIZE phys); [|lia]. cbn [c_assert mbind outcome_bind].
  destruct (Z.leb_spec 0 (HHDM_OFFSET + phys)); [|lia]. destruct (Z.ltb_spec (HHDM_OFFSET + phys) (2 ^ 64)); [reflexivity|lia].
Qed.
Lemma virt_to_phys_ok HHDM_OFFSET virt : HHDM_OFFSET <= virt -> virt_to_phys HHDM_OFFSET virt = Ok (virt - HHDM_OFFSET).
Proof. intros H. unfold virt_to_phys. destruct (Z.leb_spec HHDM_OFFSET virt); [reflexivity|lia]. Qed.
