(* ===== verification/PageAlloc.v ===== *)
(** * The page allocator: kernel/src/mm/page_alloc.c, page.c, section.c

    Physical memory is a list of sections; each has, for every order, a list of the free
    blocks of [2 ^ order] pages.  A [struct page] is named by its page frame number, its
    place in the table of pages.  The links of the free lists are the sequences of their
    members, and removing a page that is not in the list is undefined.  The sections' locks
    are free when they are tried.  Of the union in [struct page] the fields of free blocks
    and the reference count of large pages are modelled.  [used] has the blocks that are
    handed out; no operation reads it. *)

From stdpp Require Import gmap list.
From S2P Require Import Prelude Mem Alloc Arith Range KStdlib Refcount Hhdm.

Inductive page_state :=
  | PAGE_STATE_IN_FREE_LIST | PAGE_STATE_FREE_LIST_HEAD | PAGE_STATE_FREE_LIST_TAIL | PAGE_STATE_SYSTEM_CRUCIAL
  | PAGE_STATE_LRU_CACHE | PAGE_STATE_SLAB_HEAD | PAGE_STATE_SLAB_TAIL | PAGE_STATE_TABLE | PAGE_STATE_LARGE_HEAD
  | PAGE_STATE_LARGE_TAIL | PAGE_STATE_KERNEL_STACK | PAGE_STATE_USER_STACK | PAGE_STATE_USED.
#[export] Instance page_state_eq : EqDecision page_state.
Proof. solve_decision. Defined.

Record page := Page {
  pstate : page_state; psection : Z; porder : Z; phead : Z; page_refcount : Z; plevel : Z }.
Record page_freelist := Freelist { page_list : list Z; fcount : Z }.
Record page_section := Section_ {
  szone : nat; srange : range; spfn : Z; freelist_list : list page_freelist;
  min_order : Z; max_order : Z; stotal_free : Z }.
Record page_zone := Zone { section_list : list nat; fallback_zone : option nat; ztotal_free : Z }.

(** The table has [page_total] pages. *)
Record world := World {
  pages : Z -> page; page_total : Z; sections : list page_section; zones : list page_zone; used : gmap Z Z }.

Definition __ALLOC_ZERO : Z := 1.

Definition set_pages (f : Z -> page) (w : world) : world := World f (page_total w) (sections w) (zones w) (used w).
Definition set_sections (s : list page_section) (w : world) : world := World (pages w) (page_total w) s (zones w) (used w).
Definition set_zones (z : list page_zone) (w : world) : world := World (pages w) (page_total w) (sections w) z (used w).
Definition set_used (u : gmap Z Z) (w : world) : world := World (pages w) (page_total w) (sections w) (zones w) u.

Definition get_pg (p : Z) (w : world) : outcome page :=
  if (0 <=? p) && (p <? page_total w) then Ok (pages w p) else Undef.
Definition put_pg (p : Z) (pg : page) (w : world) : outcome world :=
  _ ← get_pg p w; Ok (set_pages (fun x => if x =? p then pg else pages w x) w).
Definition get_section (k : nat) (w : world) : outcome page_section :=
  match sections w !! k with Some s => Ok s | None => Undef end.
Definition put_section (k : nat) (s : page_section) (w : world) : world := set_sections (<[k:=s]> (sections w)) w.
Definition get_freelist (s : page_section) (order : Z) : outcome page_freelist :=
  match freelist_list s !! Z.to_nat order with Some f => Ok f | None => Undef end.
Definition put_freelist (s : page_section) (order : Z) (f : page_freelist) : page_section :=
  Section_ (szone s) (srange s) (spfn s) (<[Z.to_nat order:=f]> (freelist_list s)) (min_order s) (max_order s) (stotal_free s).
Definition put_orders (s : page_section) (mi ma : Z) : page_section :=
  Section_ (szone s) (srange s) (spfn s) (freelist_list s) mi ma (stotal_free s).
Definition put_total_free (s : page_section) (t : Z) : page_section :=
  Section_ (szone s) (srange s) (spfn s) (freelist_list s) (min_order s) (max_order s) t.
(** [atomic_fetch_add(&section->zone->total_free, n)] *)
Definition add_zone_free (k : nat) (n : Z) (w : world) : outcome world :=
  s ← get_section k w;
  match zones w !! szone s with
  | Some z => Ok (set_zones (<[szone s:=Zone (section_list z) (fallback_zone z) (u64 (ztotal_free z + n))]> (zones w)) w)
  | None => Undef
  end.

Definition page_set_state (p : Z) (state : page_state) (w : world) : outcome world :=
  pg ← get_pg p w;
  put_pg p (Page state (psection pg) (porder pg) (phead pg) (page_refcount pg) (plevel pg)) w.
Definition page_to_section (p : Z) (w : world) : outcome nat :=
  pg ← get_pg p w;
  _ ← c_assert (negb (psection pg =? 0));
  Ok (Z.to_nat (psection pg - 1)).

(** The page becomes the first of a free block of an order, its last page the last. *)
Definition mark_free_block (p order : Z) (w : world) : outcome world :=
  pg ← get_pg p w;
  w ← put_pg p (Page PAGE_STATE_FREE_LIST_HEAD (psection pg) order (phead pg) (page_refcount pg) (plevel pg)) w;
  if negb (order =? 0) then
    let back := p + Z.shiftl 1 order - 1 in
    bk ← get_pg back w;
    put_pg back (Page PAGE_STATE_FREE_LIST_TAIL (psection bk) (porder bk) p (page_refcount bk) (plevel bk)) w
  else Ok w.
Definition link_free_block (k : nat) (order p : Z) (w : world) : outcome world :=
  s ← get_section k w;
  f ← get_freelist s order;
  Ok (put_section k (put_freelist s order (Freelist (p :: page_list f) (u64 (fcount f + 1)))) w).

(** ** Free lists *)

Definition add_to_freelist_order_from_higher (k : nat) (order p : Z) (w : world) : outcome world :=
  w ← mark_free_block p order w;
  link_free_block k order p w.
Definition add_to_freelist_order (k : nat) (order p : Z) (w : world) : outcome world :=
  w ← mark_free_block p order w;
  w ← link_free_block k order p w;
  w ← add_zone_free k (Z.shiftl 1 order) w;
  s ← get_section k w;
  Ok (put_section k (put_total_free s (u64 (stotal_free s + Z.shiftl 1 order))) w).

(** [list_deinit] and [count--]; the page must be in the list. *)
Definition unlink_page (k : nat) (order p : Z) (w : world) : outcome world :=
  s ← get_section k w;
  f ← get_freelist s order;
  if bool_decide (p ∈ page_list f)
  then Ok (put_section k (put_freelist s order (Freelist (filter (.≠ p) (page_list f)) (u64 (fcount f - 1)))) w)
  else Undef.
(** The first list with a page, from [order] up, and one more than the last. *)
Fixpoint first_nonempty (l : list page_freelist) (order : Z) : Z :=
  match l with
  | [] => order
  | f :: l => if negb (fcount f =? 0) then order else first_nonempty l (order + 1)
  end.
Fixpoint last_nonempty (l : list page_freelist) (order : Z) : Z :=
  match l with
  | [] => 0
  | f :: l => let r := last_nonempty l (order + 1) in
              if r =? 0 then if negb (fcount f =? 0) then order + 1 else 0 else r
  end.
Definition take_off_freelist_to_add_later (k : nat) (order p : Z) (w : world) : outcome world :=
  w ← unlink_page k order p w;
  s ← get_section k w;
  f ← get_freelist s order;
  if negb (fcount f =? 0) then Ok w else
  let mi := if min_order s =? order then u8 (first_nonempty (drop (Z.to_nat order) (freelist_list s)) order) else min_order s in
  let ma := if max_order s =? order then u8 (last_nonempty (freelist_list s) 0) else max_order s in
  Ok (put_section k (put_orders s mi ma) w).

Definition take_off_freelist_order (k : nat) (order p remove_order : Z) (w : world) : outcome world :=
  w ← add_zone_free k (- Z.shiftl 1 remove_order) w;
  s ← get_section k w;
  let s := put_total_free s (u64 (stotal_free s - Z.shiftl 1 remove_order)) in
  if stotal_free s =? 0 then
    let w := put_section k (put_orders s 0 0) w in
    pg ← get_pg p w;
    if bool_decide (pstate pg = PAGE_STATE_FREE_LIST_HEAD) then unlink_page k order p w else Ok w
  else take_off_freelist_to_add_later k order p (put_section k s w).

Definition get_from_freelist_order (k : nat) (order remove_order : Z) (w : world) : outcome (option Z * world) :=
  s ← get_section k w;
  f ← get_freelist s order;
  if fcount f =? 0 then Ok (None, w) else
  match page_list f with
  | [] => Undef
  | p :: _ => w ← take_off_freelist_order k order p remove_order w; Ok (Some p, w)
  end.

(** The order of the first block to split [amount] pages into. *)
Fixpoint starting_order (n : nat) (order_i : Z) (amount order : Z) : Z :=
  match n with
  | O => order
  | S n => if amount <? Z.shiftl 1 order_i then order_i - 1 else starting_order n (order_i + 1) amount order
  end.
(** [while (avail < 1ull << order) order--] *)
Fixpoint lower_order (fuel : nat) (avail order : Z) : outcome Z :=
  if Z.shiftl 1 order <=? avail then Ok order
  else match fuel with O => Diverge | S fuel => lower_order fuel avail (order - 1) end.
Fixpoint free_range_loop (fuel : nat) (p : Z) (k : nat) (avail order : Z) (w : world) : outcome world :=
  match fuel with
  | O => Diverge
  | S fuel =>
      w ← add_to_freelist_order k order p w;
      let page_count := Z.shiftl 1 order in
      let avail := u64 (avail - page_count) in
      if avail =? 0 then
        s ← get_section k w;
        Ok (if order <? min_order s then put_section k (put_orders s order (max_order s)) w else w)
      else
        order ← lower_order (Z.to_nat order) avail order;
        free_range_loop fuel (p + page_count) k avail order w
  end.
Definition free_range_of_pages (p : Z) (k : nat) (amount max_order_ : Z) (w : world) : outcome world :=
  let order := starting_order (S (Z.to_nat max_order_)) 0 amount (max_order_ - 1) in
  s ← get_section k w;
  let w := if max_order s <=? u8 order then put_section k (put_orders s (min_order s) (u8 (u8 order + 1))) w else w in
  free_range_loop (Z.to_nat amount) p k amount order w.

Fixpoint free_buddies (fuel : nat) (p : Z) (k : nat) (higher_order order : Z) (w : world) : outcome world :=
  match fuel with
  | O => Ok w
  | S fuel =>
      if order <? higher_order then
        let higher_order := higher_order - 1 in
        w ← add_to_freelist_order_from_higher k higher_order (p + Z.shiftl 1 higher_order) w;
        free_buddies fuel p k higher_order order w
      else Ok w
  end.
Definition free_extra_pages_if_from_higher_order (p : Z) (k : nat) (higher_order order : Z) (w : world) : outcome world :=
  if higher_order <=? order then Ok w else
  s ← get_section k w;
  let w := if max_order s <=? higher_order - 1 then put_section k (put_orders s (min_order s) higher_order) w else w in
  w ← free_buddies (Z.to_nat (higher_order - order)) p k higher_order order w;
  s ← get_section k w;
  Ok (if order <? min_order s then put_section k (put_orders s order (max_order s)) w else w).

(** ** Sections and addresses: section.c *)

Section Model.
Context (a : arch) (PAGE_SHIFT cbo_size HHDM_OFFSET : Z).

Definition MAX_ORDER : Z := if is_x86 a then 21 else 31.
Definition PAGE_SIZE : Z := 2 ^ PAGE_SHIFT.
Definition PAGE_COUNT (size : Z) : Z := Z.shiftr size PAGE_SHIFT.

Definition page_section_init (zone : nat) (r : range) (pfn : Z) : page_section :=
  Section_ zone r pfn (replicate (Z.to_nat MAX_ORDER) (Freelist [] 0)) MAX_ORDER 0 0.

(** The section that has an address, from number [k] on. *)
Fixpoint phys_to_section (l : list page_section) (k : nat) (phys : Z) : outcome nat :=
  match l with
  | [] => Panic
  | s :: l => if range_has_loc (srange s) phys then Ok k else phys_to_section l (S k) phys
  end.
Fixpoint pfn_to_section (l : list page_section) (k : nat) (pfn : Z) : outcome nat :=
  match l with
  | [] => Panic
  | s :: l => if range_has_loc (Range pfn (PAGE_COUNT (front (srange s)))) pfn then Ok k else pfn_to_section l (S k) pfn
  end.
Fixpoint phys_to_pfn (l : list page_section) (phys : Z) : outcome Z :=
  match l with
  | [] => Panic
  | s :: l => if range_has_loc (srange s) phys then Ok (u64 (spfn s + PAGE_COUNT (u64 (phys - front (srange s)))))
              else phys_to_pfn l phys
  end.
Fixpoint pfn_to_phys_manual (l : list page_section) (pfn : Z) : outcome Z :=
  match l with
  | [] => Panic
  | s :: l =>
      let pfn_range := Range (spfn s) (PAGE_COUNT (Z.shiftr (size (srange s)) PAGE_SHIFT)) in
      if range_has_loc pfn_range pfn then
        index ← range_index_for_loc pfn_range pfn;
        Ok (u64 (front (srange s) + u64 (Z.shiftl index PAGE_SHIFT)))
      else pfn_to_phys_manual l pfn
  end.
Definition page_to_phys (p : Z) (w : world) : outcome Z :=
  k ← page_to_section p w;
  s ← get_section k w;
  relative_pfn ← check_sub_assert_w 64 p (spfn s);
  Ok (u64 (front (srange s) + u64 (Z.shiftl relative_pfn PAGE_SHIFT))).
Definition page_to_virt (p : Z) (w : world) : outcome Z :=
  phys ← page_to_phys p w; phys_to_virt PAGE_SIZE HHDM_OFFSET phys.

(** ** Zeroing pages: page.c *)

(** [for (iter = page; iter != end; iter += size)] over [n] bytes. *)
Fixpoint zero_loop (fuel : nat) (step : Z) (m : mem) (dst n : Z) : outcome mem :=
  if n =? 0 then Ok m
  else match fuel with
       | O => Diverge
       | S fuel => zero_loop fuel step (rep_stosb 0 (Z.to_nat step) m dst) (dst + step) (n - step)
       end.
Definition zero_bytes (m : mem) (dst n : Z) : outcome mem :=
  match a with
  | x86_64 => Ok (rep_stosb 0 (8 * Z.to_nat (n / 8)) m dst)
  | aarch64 => Ok (rep_stosb 0 (Z.to_nat n) m dst)
  | riscv64 => if negb (cbo_size =? 0) then zero_loop (Z.to_nat n) cbo_size m dst n else zero_loop (Z.to_nat n) 8 m dst n
  | loongarch64 => zero_loop (Z.to_nat n) 8 m dst n
  end.
Definition zero_page (m : mem) (dst : Z) : outcome mem := zero_bytes m dst PAGE_SIZE.
Definition zero_multiple_pages (m : mem) (dst count : Z) : outcome mem :=
  full_size ← check_mul_assert_w 64 PAGE_SIZE count; zero_bytes m dst full_size.

(** ** Allocation *)

(** The pages after the first. *)
Fixpoint setup_tails (n : nat) (iter : Z) (f : page -> page) (w : world) : outcome world :=
  match n with
  | O => Ok w
  | S n => pg ← get_pg iter w; w ← put_pg iter (f pg) w; setup_tails n (iter + 1) f w
  end.
(** The loop for used pages and stacks sets the state of the first page each time. *)
Definition setup_pages_off_freelist (p order : Z) (state : page_state) (w : world) : outcome world :=
  let tails := Z.to_nat (Z.shiftl 1 order - 1) in
  match state with
  | PAGE_STATE_KERNEL_STACK | PAGE_STATE_USER_STACK | PAGE_STATE_USED | PAGE_STATE_TABLE => page_set_state p state w
  | PAGE_STATE_SLAB_HEAD =>
      w ← page_set_state p PAGE_STATE_SLAB_HEAD w;
      setup_tails tails (p + 1) (fun pg =>
        Page PAGE_STATE_SLAB_TAIL (psection pg) (porder pg) (phead pg) (page_refcount pg) (plevel pg)) w
  | PAGE_STATE_LARGE_HEAD =>
      w ← page_set_state p PAGE_STATE_LARGE_HEAD w;
      setup_tails tails (p + 1) (fun pg =>
        Page PAGE_STATE_LARGE_TAIL (psection pg) (porder pg) (phead pg) refcount_init (plevel pg)) w
  | _ => Panic
  end.

Fixpoint try_orders (n : nat) (k : nat) (alloced_order order : Z) (w : world) : outcome (option (Z * Z) * world) :=
  match n with
  | O => Ok (None, w)
  | S n =>
      '(r, w) ← get_from_freelist_order k alloced_order order w;
      match r with
      | Some p => Ok (Some (p, alloced_order), w)
      | None => try_orders n k (alloced_order + 1) order w
      end
  end.
Fixpoint try_sections (l : list nat) (order : Z) (state : page_state) (w : world) : outcome (option Z * world) :=
  match l with
  | [] => Ok (None, w)
  | k :: l =>
      s ← get_section k w;
      let alloced_order := Z.max order (min_order s) in
      '(r, w) ← try_orders (Z.to_nat (max_order s - alloced_order)) k alloced_order order w;
      match r with
      | None => try_sections l order state w
      | Some (p, alloced_order) =>
          w ← free_extra_pages_if_from_higher_order p k alloced_order order w;
          w ← setup_pages_off_freelist p order state w;
          Ok (Some p, set_used (<[p:=order]> (used w)) w)
      end
  end.
Definition try_alloc_pages_from_zone (z : page_zone) (order : Z) (state : page_state) (w : world) : outcome (option Z * world) :=
  if ztotal_free z <? Z.shiftl 1 order then Ok (None, w)
  else match section_list z with [] => Undef | l => try_sections l order state w end.

(** The memory; list links and reference counts of the page are not read by the allocator. *)
Definition setup_alloced_page (p : Z) (state : page_state) (alloc_flags order : Z) (w : world) (m : mem) : outcome mem :=
  let zero := virt ← page_to_virt p w; zero_multiple_pages m virt (Z.shiftl 1 order) in
  match state with
  | PAGE_STATE_USED | PAGE_STATE_LARGE_HEAD => if negb (Z.land alloc_flags __ALLOC_ZERO =? 0) then zero else Ok m
  | PAGE_STATE_KERNEL_STACK | PAGE_STATE_USER_STACK | PAGE_STATE_SLAB_HEAD => zero
  | PAGE_STATE_TABLE => virt ← page_to_virt p w; zero_page m virt
  | _ => Panic
  end.

(** From a zone and the zones it falls back to; [fuel] bounds their number. *)
Fixpoint alloc_from_zones (fuel : nat) (zone : option nat) (state : page_state) (alloc_flags order : Z)
    (allow_fallback : bool) (w : world) (m : mem) : outcome (option Z * world * mem) :=
  match zone with
  | None => Ok (None, w, m)
  | Some i =>
      match fuel, zones w !! i with
      | S fuel, Some z =>
          '(r, w) ← try_alloc_pages_from_zone z order state w;
          match r with
          | Some p => m ← setup_alloced_page p state alloc_flags order w m; Ok (Some p, w, m)
          | None => if allow_fallback then alloc_from_zones fuel (fallback_zone z) state alloc_flags order true w m
                    else Ok (None, w, m)
          end
      | O, _ => Diverge
      | _, None => Undef
      end
  end.
Definition alloc_pages_from_zone (zone : nat) (state : page_state) (alloc_flags order : Z) (allow_fallback : bool)
    (w : world) (m : mem) : outcome (option Z * world * mem) :=
  if MAX_ORDER <=? order then Ok (None, w, m)
  else alloc_from_zones (S (length (zones w))) (Some zone) state alloc_flags order allow_fallback w m.
(** [page_zone_default()] is the first zone. *)
Definition alloc_pages (state : page_state) (alloc_flags order : Z) (w : world) (m : mem) : outcome (option Z * world * mem) :=
  alloc_pages_from_zone 0 state alloc_flags order true w m.

(** ** Release *)

(** The free block before the freed pages, taken off its list to be joined with them: its
    first page and the pages it adds. *)
Definition find_previous (p : Z) (k : nat) (w : world) : outcome (option (Z * Z) * world) :=
  prev ← get_pg (p - 1) w;
  match pstate prev with
  | PAGE_STATE_FREE_LIST_TAIL =>
      let free_head := phead prev in
      let extra := p - p in
      h ← get_pg free_head w;
      let order := porder h in
      if (order <? MAX_ORDER - 1) && (Z.shiftl 1 (order + 1) <=? Z.shiftl 1 order + extra) then
        w ← take_off_freelist_to_add_later k order free_head w; Ok (Some (free_head, extra), w)
      else Ok (None, w)
  | PAGE_STATE_FREE_LIST_HEAD =>
      if porder prev =? 0 then w ← take_off_freelist_to_add_later k 0 (p - 1) w; Ok (Some (p - 1, 1), w)
      else Ok (None, w)
  | _ => Ok (None, w)
  end.
(** The same for the block after them. *)
Definition find_next (next : Z) (k : nat) (amount : Z) (w : world) : outcome (option Z * world) :=
  pg ← get_pg next w;
  if bool_decide (pstate pg = PAGE_STATE_FREE_LIST_HEAD) then
    let order := porder pg in
    if Z.shiftl 1 (order + 1) <=? Z.shiftl 1 order + amount then
      w ← take_off_freelist_to_add_later k order next w; Ok (Some (Z.shiftl 1 order), w)
    else Ok (None, w)
  else Ok (None, w).

(** The first page and the number of pages to free, and whether blocks were joined. *)
Definition find_nearby_free_pages (p amount : Z) (w : world) : outcome (bool * Z * Z * world) :=
  k ← page_to_section p w;
  s ← get_section k w;
  page_pfn ← check_sub_assert_w 64 p (spfn s);
  '(prev, w) ← (if negb (page_pfn =? 0) then find_previous p k w else Ok (None, w));
  let '(free_page, page_pfn, amount) :=
    match prev with Some (q, extra) => (q, page_pfn - extra, amount + extra) | None => (p, page_pfn, amount) end in
  let end_pfn := u64 (page_pfn + amount) in
  let section_end_pfn := u64 (spfn s + PAGE_COUNT (size (srange s))) in
  '(next, w) ← (if negb (end_pfn =? section_end_pfn) then find_next (free_page + amount) k amount w else Ok (None, w));
  let amount := match next with Some n => amount + n | None => amount end in
  Ok (bool_decide (is_Some prev) || bool_decide (is_Some next), free_page, amount, w).

Definition free_amount_of_pages (p amount : Z) (w : world) : outcome world :=
  _ ← c_assert (negb (amount =? 0));
  '(_, p, amount, w) ← find_nearby_free_pages p amount w;
  k ← page_to_section p w;
  free_range_of_pages p k amount MAX_ORDER w.

(** [largepage_level_info_list[level - 1].order] *)
Context (largepage_order : Z -> Z).

Definition page_ref_down (p : Z) (w : world) : outcome (bool * world) :=
  pg ← get_pg p w;
  '(last, count) ← ref_down (page_refcount pg);
  w ← put_pg p (Page (pstate pg) (psection pg) (porder pg) (phead pg) count (plevel pg)) w;
  Ok (last, w).
(** The first page from [iter] on that is still referenced. *)
Fixpoint unreferenced_end (n : nat) (iter : Z) (w : world) : outcome (Z * world) :=
  match n with
  | O => Ok (iter, w)
  | S n => '(last, w) ← page_ref_down iter w;
           if last : bool then unreferenced_end n (iter + 1) w else Ok (iter, w)
  end.
Fixpoint free_large_loop (fuel : nat) (p end_ : Z) (w : world) : outcome world :=
  if p <? end_ then
    match fuel with
    | O => Diverge
    | S fuel =>
        '(last, w) ← page_ref_down p w;
        if negb last then free_large_loop fuel (p + 1) end_ w
        else
          '(iter, w) ← unreferenced_end (Z.to_nat (end_ - (p + 1))) (p + 1) w;
          w ← free_amount_of_pages p (iter - p) w;
          free_large_loop fuel (iter + 1) end_ w
    end
  else Ok w.
Definition free_large_page (head : Z) (w : world) : outcome world :=
  pg ← get_pg head w;
  _ ← c_assert (bool_decide (pstate pg = PAGE_STATE_LARGE_HEAD));
  let page_count := Z.shiftl 1 (largepage_order (plevel pg)) in
  free_large_loop (Z.to_nat page_count) head (head + page_count) w.

Definition free_pages (p order : Z) (w : world) : outcome world :=
  if MAX_ORDER <=? order then Ok w else
  pg ← get_pg p w;
  if bool_decide (pstate pg = PAGE_STATE_LARGE_HEAD) then
    if negb (order =? 0) then Ok w else free_large_page p w
  else
    let w := set_used (delete p (used w)) w in
    '(merged, p, amount, w) ← find_nearby_free_pages p (Z.shiftl 1 order) w;
    k ← page_to_section p w;
    if merged : bool then free_range_of_pages p k amount MAX_ORDER w
    else add_to_freelist_order k order p w.
End Model.

(** ** The invariant *)

Lemma MAX_ORDER_bound a : 21 <= MAX_ORDER a <= 31.
Proof. unfold MAX_ORDER. destruct (is_x86 a); lia. Qed.

Section Invariant.
Context (a : arch) (PAGE_SHIFT : Z).
Abbreviation MAX_ORDER := (MAX_ORDER a).

(** [p] is the first page of a free block of section [k]. *)
Definition fb (w : world) (k : nat) (p o : Z) : Prop :=
  0 <= o /\ exists s f, sections w !! k = Some s /\ freelist_list s !! Z.to_nat o = Some f /\ p ∈ page_list f.
(** The blocks: free ones by section, and those handed out. *)
Inductive kind := KFree (k : nat) | KUsed.
Definition bl (w : world) (kd : kind) (p o : Z) : Prop :=
  match kd with KFree k => fb w k p o | KUsed => used w !! p = Some o end.
(** The pages of free blocks. *)
Definition fpage (w : world) (x : Z) : Prop := exists k p o, fb w k p o /\ p <= x < p + 2 ^ o.

Definition section_pages (s : page_section) : Z := PAGE_COUNT PAGE_SHIFT (size (srange s)).
Definition in_section (w : world) (k : nat) (lo hi : Z) : Prop :=
  exists s, sections w !! k = Some s /\ spfn s <= lo /\ hi <= spfn s + section_pages s /\
    forall x, lo <= x < hi -> psection (pages w x) = Z.of_nat k + 1.

Record sec_ok (w : world) (s : page_section) : Prop := SecOk {
  sk_lists : length (freelist_list s) = Z.to_nat MAX_ORDER;
  sk_pages : 0 <= spfn s /\ spfn s + section_pages s <= page_total w;
  sk_zone : exists z, zones w !! szone s = Some z /\ section_list z <> [];
  sk_orders : 0 <= min_order s <= MAX_ORDER /\ 0 <= max_order s <= MAX_ORDER;
  sk_counts : forall o f, freelist_list s !! o = Some f -> NoDup (page_list f) /\ fcount f = Z.of_nat (length (page_list f)) }.

Definition disjoint_blocks (p o q o' : Z) : Prop := p + 2 ^ o <= q \/ q + 2 ^ o' <= p.

(** The sections are apart. *)
Definition secs_apart (w : world) : Prop := forall k s k' s', sections w !! k = Some s -> sections w !! k' = Some s' -> k <> k' ->
  spfn s + section_pages s <= spfn s' \/ spfn s' + section_pages s' <= spfn s.

(** Between operations no page is loose; inside them the pages [[lo, hi)] are in no block.
    A page in the state of a free block is in one.  The page after a section that does not
    begin at page 0 is in the table and in no block: [find_nearby_free_pages] looks at it. *)
Record winv (w : world) (lo hi : Z) : Prop := WInv {
  wi_total : 0 <= page_total w < 2 ^ 52;
  wi_sec : forall k s, sections w !! k = Some s -> sec_ok w s;
  wi_secs : secs_apart w;
  wi_block : forall kd p o, bl w kd p o -> 0 <= o < MAX_ORDER /\
    exists k, in_section w k p (p + 2 ^ o) /\ match kd with KFree k' => k' = k | KUsed => True end;
  wi_free : forall k p o, fb w k p o -> pstate (pages w p) = PAGE_STATE_FREE_LIST_HEAD /\ porder (pages w p) = o /\
    (o <> 0 -> pstate (pages w (p + 2 ^ o - 1)) = PAGE_STATE_FREE_LIST_TAIL /\ phead (pages w (p + 2 ^ o - 1)) = p);
  wi_apart : forall kd p o kd' q o', bl w kd p o -> bl w kd' q o' ->
    (kd = kd' /\ p = q /\ o = o') \/ disjoint_blocks p o q o';
  wi_loose : forall kd p o, bl w kd p o -> hi <= lo \/ p + 2 ^ o <= lo \/ hi <= p;
  wi_state : forall x, 0 <= x < page_total w -> ~ (lo <= x < hi) ->
    pstate (pages w x) = PAGE_STATE_FREE_LIST_HEAD \/ pstate (pages w x) = PAGE_STATE_FREE_LIST_TAIL -> fpage w x;
  wi_guard : forall k s, sections w !! k = Some s -> spfn s <> 0 ->
    let x := spfn s + section_pages s in
    x < page_total w /\ ~ (lo <= x < hi) /\ forall kd p o, bl w kd p o -> ~ (p <= x < p + 2 ^ o) }.

(** What no operation changes: the sections' places and the blocks handed out. *)
Record static (w w' : world) : Prop := Static {
  st_total : page_total w' = page_total w;
  st_used : used w' = used w;
  st_zlen : length (zones w') = length (zones w);
  st_zones : forall i z, zones w !! i = Some z -> exists z', zones w' !! i = Some z' /\
    section_list z' = section_list z /\ fallback_zone z' = fallback_zone z /\ (section_list z = [] -> ztotal_free z' = ztotal_free z);
  st_section : forall x, psection (pages w' x) = psection (pages w x);
  st_sections : forall k s', sections w' !! k = Some s' -> exists s, sections w !! k = Some s /\
    szone s' = szone s /\ srange s' = srange s /\ spfn s' = spfn s;
  st_sections' : forall k s, sections w !! k = Some s -> is_Some (sections w' !! k) }.

Lemma static_refl w : static w w.
Proof. split; auto; eauto 10. Qed.
Lemma static_trans w1 w2 w3 : static w1 w2 -> static w2 w3 -> static w1 w3.
Proof.
  intros A B. split.
  - rewrite (st_total _ _ B). apply A.
  - rewrite (st_used _ _ B). apply A.
  - rewrite (st_zlen _ _ B). apply A.
  - intros i z1 H1. destruct (st_zones _ _ A _ _ H1) as (z2 & H2 & E1 & E2 & E3).
    destruct (st_zones _ _ B _ _ H2) as (z3 & H3 & F1 & F2 & F3). exists z3. split; [exact H3|]. split; [congruence|]. split; [congruence|].
    intros E. rewrite F3, E3 by congruence. reflexivity.
  - intros x. rewrite (st_section _ _ B). apply A.
  - intros k s3 H3. destruct (st_sections _ _ B _ _ H3) as (s2 & H2 & E1 & E2 & E3).
    destruct (st_sections _ _ A _ _ H2) as (s1 & H1 & F1 & F2 & F3). exists s1. repeat split; congruence || auto.
  - intros k s1 H1. destruct (st_sections' _ _ A _ _ H1) as [s2 H2]. apply (st_sections' _ _ B _ _ H2).
Qed.
Lemma static_secs_apart w w' : static w w' -> secs_apart w -> secs_apart w'.
Proof.
  intros S H k s k' s' Hs Hs' Hne. destruct (st_sections _ _ S _ _ Hs) as (t & Ht & _ & E2 & E3).
  destruct (st_sections _ _ S _ _ Hs') as (t' & Ht' & _ & E2' & E3'). unfold section_pages. rewrite E2, E3, E2', E3'.
  exact (H k t k' t' Ht Ht' Hne).
Qed.
Lemma static_in_section w w' k lo hi : static w w' -> in_section w k lo hi -> in_section w' k lo hi.
Proof.
  intros A (s & Hs & H1 & H2 & H3). destruct (st_sections' _ _ A _ _ Hs) as [s' Hs'].
  destruct (st_sections _ _ A _ _ Hs') as (s0 & Hs0 & _ & E2 & E3). assert (s0 = s) as -> by congruence.
  exists s'. unfold section_pages in *. rewrite E2, E3. repeat split; auto. intros x Hx. rewrite (st_section _ _ A). auto.
Qed.
Lemma in_section_sub w k lo hi lo' hi' : in_section w k lo hi -> lo <= lo' -> hi' <= hi -> in_section w k lo' hi'.
Proof. intros (s & Hs & H1 & H2 & H3) Hl Hh. exists s. repeat split; auto; try lia. intros x Hx. apply H3. lia. Qed.

(** Steps that only change orders and counters. *)
Record same (w w' : world) : Prop := Same {
  sm_static : static w w';
  sm_pages : pages w' = pages w;
  sm_lists : forall k s s', sections w !! k = Some s -> sections w' !! k = Some s' -> freelist_list s' = freelist_list s;
  sm_orders : forall k s', sections w' !! k = Some s' ->
    (forall k s, sections w !! k = Some s -> 0 <= min_order s <= MAX_ORDER /\ 0 <= max_order s <= MAX_ORDER) ->
    0 <= min_order s' <= MAX_ORDER /\ 0 <= max_order s' <= MAX_ORDER }.

Lemma same_refl w : same w w.
Proof. split; auto using static_refl; [congruence|eauto]. Qed.
Lemma same_trans w1 w2 w3 : same w1 w2 -> same w2 w3 -> same w1 w3.
Proof.
  intros A B. split; [eapply static_trans; [apply A|apply B]|rewrite (sm_pages _ _ B); apply A| |].
  - intros k s1 s3 H1 H3. destruct (st_sections' _ _ (sm_static _ _ A) _ _ H1) as [s2 H2].
    rewrite (sm_lists _ _ B k s2 s3 H2 H3). eapply A; eauto.
  - intros k s3 H3 H. apply (sm_orders _ _ B _ _ H3). intros k2 s2 H2. apply (sm_orders _ _ A _ _ H2 H).
Qed.
Lemma same_fb w w' k p o : same w w' -> fb w' k p o <-> fb w k p o.
Proof.
  intros A. split; intros [Ho (s & f & Hs & Hf & Hp)]; split; auto.
  - destruct (st_sections _ _ (sm_static _ _ A) _ _ Hs) as (s0 & Hs0 & _). exists s0, f.
    rewrite <- (sm_lists _ _ A _ _ _ Hs0 Hs). auto.
  - destruct (st_sections' _ _ (sm_static _ _ A) _ _ Hs) as [s' Hs']. exists s', f. rewrite (sm_lists _ _ A _ _ _ Hs Hs'). auto.
Qed.
Lemma same_bl w w' kd p o : same w w' -> bl w' kd p o <-> bl w kd p o.
Proof. intros A. destruct kd; cbn; [apply same_fb, A|]. rewrite (st_used _ _ (sm_static _ _ A)). reflexivity. Qed.
Lemma same_fpage w w' x : same w w' -> fpage w' x <-> fpage w x.
Proof. intros A. unfold fpage. split; intros (k & p & o & H & Hx); exists k, p, o; (split; [apply (same_fb w w'); auto|exact Hx]). Qed.

Lemma same_sec_ok w w' k s s' : same w w' -> (forall k s, sections w !! k = Some s -> sec_ok w s) ->
  sections w !! k = Some s -> sections w' !! k = Some s' -> sec_ok w' s'.
Proof.
  intros A Hk Hs Hs'. destruct (st_sections _ _ (sm_static _ _ A) _ _ Hs') as (s0 & Hs0 & E1 & E2 & E3).
  assert (s0 = s) as -> by congruence. pose proof (sm_lists _ _ A _ _ _ Hs Hs') as EL. destruct (Hk _ _ Hs) as [H1 H2 H3 H4 H5].
  split; unfold section_pages in *; rewrite ?EL, ?E1, ?E2, ?E3, ?(st_total _ _ (sm_static _ _ A)); auto.
  { destruct H3 as (z & Hz & Hl). destruct (st_zones _ _ (sm_static _ _ A) _ _ Hz) as (z' & Hz' & E & _). exists z'. rewrite E. auto. }
  apply (sm_orders _ _ A _ _ Hs'). intros k1 s1 Hs1. apply (Hk _ _ Hs1).
Qed.
Lemma same_winv w w' lo hi : same w w' -> winv w lo hi -> winv w' lo hi.
Proof.
  intros A I. pose proof (sm_static _ _ A) as S.
  assert (Hb : forall kd p o, bl w' kd p o <-> bl w kd p o) by (intros; apply same_bl, A).
  assert (Hf : forall k p o, fb w' k p o <-> fb w k p o) by (intros; apply same_fb, A).
  split; rewrite ?(sm_pages _ _ A), ?(st_total _ _ S).
  - apply I.
  - intros k s' Hs'. destruct (st_sections _ _ S _ _ Hs') as (s & Hs & _). eapply same_sec_ok; eauto. apply I.
  - eapply static_secs_apart; [exact S|apply I].
  - intros kd p o H%Hb. destruct (wi_block _ _ _ I _ _ _ H) as [Ho (k & Hk & E)]. split; [exact Ho|].
    exists k. split; [eapply static_in_section; eauto|exact E].
  - intros k p o H%Hf. apply (wi_free _ _ _ I _ _ _ H).
  - intros kd p o kd' q o' H1%Hb H2%Hb. apply (wi_apart _ _ _ I _ _ _ _ _ _ H1 H2).
  - intros kd p o H%Hb. apply (wi_loose _ _ _ I _ _ _ H).
  - intros x Hx Hn Hst. apply (same_fpage w w'); auto. apply (wi_state _ _ _ I); auto.
  - intros k s' Hs' Hp. destruct (st_sections _ _ S _ _ Hs') as (s & Hs & _ & E2 & E3). unfold section_pages. rewrite E2, E3 in *.
    destruct (wi_guard _ _ _ I _ _ Hs Hp) as (H1 & H2 & H3). split; [exact H1|]. split; [exact H2|].
    intros kd p o H%Hb. apply (H3 _ _ _ H).
Qed.

(** Replacing a section by one that differs in orders and counters. *)
Lemma put_section_same w k s s' : sections w !! k = Some s -> szone s' = szone s -> srange s' = srange s -> spfn s' = spfn s ->
  freelist_list s' = freelist_list s ->
  (0 <= min_order s <= MAX_ORDER /\ 0 <= max_order s <= MAX_ORDER -> 0 <= min_order s' <= MAX_ORDER /\ 0 <= max_order s' <= MAX_ORDER) ->
  same w (put_section k s' w).
Proof.
  intros Hs E1 E2 E3 E4 Ho. assert (Hk : (k < length (sections w))%nat) by (eapply lookup_lt_Some, Hs).
  assert (Hl : forall j t, sections (put_section k s' w) !! j = Some t -> (j = k /\ t = s') \/ (j <> k /\ sections w !! j = Some t)).
  { intros j t. cbn. destruct (decide (j = k)) as [->|Hne]; [rewrite list_lookup_insert_eq by auto|rewrite list_lookup_insert_ne by auto; auto].
    intros [= <-]. auto. }
  split; [split; [reflexivity|reflexivity|reflexivity|intros i z Hz; exists z; auto|reflexivity| |]|reflexivity| |].
  - intros j t [[-> ->]|[Hne Ht]]%Hl; [exists s; auto|exists t; auto].
  - intros j t Ht. cbn. destruct (decide (j = k)) as [->|Hne]; [rewrite list_lookup_insert_eq by auto; eauto|].
    rewrite list_lookup_insert_ne by auto. eauto.
  - intros j t t' Ht [[-> ->]|[Hne Ht']]%Hl; [congruence|congruence].
  - intros j t [[-> ->]|[Hne Ht]]%Hl H; [apply Ho, (H k s Hs)|apply (H j t Ht)].
Qed.
Lemma add_zone_free_same w k n s : sections w !! k = Some s -> (exists z, zones w !! szone s = Some z /\ section_list z <> []) ->
  exists w', add_zone_free k n w = Ok w' /\ same w w' /\ sections w' = sections w.
Proof.
  intros Hs (z & Hz & Hl). unfold add_zone_free, get_section. rewrite Hs. cbn [mbind outcome_bind]. rewrite Hz. eexists. split; [reflexivity|]. split; [|reflexivity].
  split; [split|..]; cbn; eauto 10; [apply length_insert| |congruence]. intros i y Hy. destruct (decide (i = szone s)) as [->|Hne].
  - assert (y = z) as -> by congruence. rewrite list_lookup_insert_eq by (eapply lookup_lt_Some, Hz). eexists. split; [reflexivity|]. cbn. tauto.
  - rewrite list_lookup_insert_ne by auto. exists y. auto.
Qed.

(** ** Relinking one list *)

Record relist (w w' : world) (k : nat) (o : Z) (l : list Z) : Prop := Relist {
  rl_static : static w w';
  rl_fb : forall k' q o', fb w' k' q o' <-> (k' = k /\ o' = o /\ q ∈ l) \/ (~ (k' = k /\ o' = o) /\ fb w k' q o');
  rl_sec : NoDup l -> Z.of_nat (length l) < 2 ^ 64 -> (forall k s, sections w !! k = Some s -> sec_ok w s) ->
           forall k s, sections w' !! k = Some s -> sec_ok w' s }.

Lemma put_freelist_relist w k s o f l c : sections w !! k = Some s -> 0 <= o -> freelist_list s !! Z.to_nat o = Some f ->
  c = u64 (Z.of_nat (length l)) -> relist w (put_section k (put_freelist s o (Freelist l c)) w) k o l.
Proof.
  intros Hs Ho Hf Hc. assert (Hk : (k < length (sections w))%nat) by (eapply lookup_lt_Some, Hs).
  assert (Hol : (Z.to_nat o < length (freelist_list s))%nat) by (eapply lookup_lt_Some, Hf).
  set (s' := put_freelist s o (Freelist l c)). set (w' := put_section k s' w).
  assert (Hl : forall j t, sections w' !! j = Some t <-> (j = k /\ t = s') \/ (j <> k /\ sections w !! j = Some t)).
  { intros j t. cbn. destruct (decide (j = k)) as [->|Hne]; [rewrite list_lookup_insert_eq by auto|rewrite list_lookup_insert_ne by auto].
    - split; [intros [= <-]; auto|intros [[_ ->]|[? _]]; [reflexivity|done]].
    - tauto. }
  assert (Hfl : forall j g, freelist_list s' !! j = Some g <-> (j = Z.to_nat o /\ g = Freelist l c) \/ (j <> Z.to_nat o /\ freelist_list s !! j = Some g)).
  { intros j g. cbn. destruct (decide (j = Z.to_nat o)) as [->|Hne]; [rewrite list_lookup_insert_eq by auto|rewrite list_lookup_insert_ne by auto].
    - split; [intros [= <-]; auto|intros [[_ ->]|[? _]]; [reflexivity|done]].
    - tauto. }
  split.
  - split; [reflexivity|reflexivity|reflexivity|intros i z Hz; exists z; auto|reflexivity| |].
    + intros j t [[-> ->]|[Hne Ht]]%Hl; [exists s; auto|exists t; auto].
    + intros j t Ht. destruct (decide (j = k)) as [->|Hne]; [exists s'|exists t]; apply Hl; auto.
  - intros k' q o'. split.
    + intros [Ho' (t & g & Ht & Hg & Hq)]. apply Hl in Ht as [[-> ->]|[Hne Ht]].
      * apply Hfl in Hg as [[E ->]|[Hne Hg]].
        -- left. cbn in Hq. split; [auto|]. split; [lia|exact Hq].
        -- right. split; [intros [_ ->]; auto|]. split; [exact Ho'|]. eauto.
      * right. split; [tauto|]. split; [exact Ho'|]. eauto.
    + intros [(-> & -> & Hq)|[Hne [Ho' (t & g & Ht & Hg & Hq)]]].
      * split; [exact Ho|]. exists s', (Freelist l c). split; [apply Hl; auto|]. split; [apply Hfl; auto|exact Hq].
      * split; [exact Ho'|]. destruct (decide (k' = k)) as [->|Hk'].
        -- assert (t = s) as -> by congruence. exists s', g. split; [apply Hl; auto|]. split; [|exact Hq]. apply Hfl. right.
           split; [|exact Hg]. intros E. apply Hne. split; [reflexivity|lia].
        -- exists t, g. split; [apply Hl; auto|auto].
  - intros Hnd Hlen Hok j t [[-> ->]|[Hne Ht]]%Hl; [|destruct (Hok _ _ Ht); split; auto].
    destruct (Hok _ _ Hs) as [H1 H2 H3 H4 H5]. split; auto; cbn; [rewrite length_insert; exact H1|].
    intros o' g [[-> ->]|[Hne Hg]]%Hfl; [|apply (H5 _ _ Hg)]. cbn. split; [exact Hnd|]. rewrite Hc. apply wrap_small. unfold is_u. lia.
Qed.

(** ** Moving pages between blocks and the loose ones *)

Record moves (w : world) (lo hi : Z) (w' : world) (lo' hi' : Z) : Prop := Moves {
  mo_inv : winv w' lo' hi';
  mo_static : static w w';
  mo_pages : forall x, fpage w' x \/ lo' <= x < hi' <-> fpage w x \/ lo <= x < hi;
  mo_keep : forall x, ~ fpage w x -> ~ (lo <= x < hi) -> pages w' x = pages w x }.

Lemma moves_refl w lo hi : winv w lo hi -> moves w lo hi w lo hi.
Proof. intros I. split; auto using static_refl. Qed.
Lemma moves_same w lo hi w' : winv w lo hi -> same w w' -> moves w lo hi w' lo hi.
Proof.
  intros I A. split; [eapply same_winv; eauto|apply A| |intros; rewrite (sm_pages _ _ A); reflexivity].
  intros x. rewrite (same_fpage w w' x A). reflexivity.
Qed.
Lemma moves_trans w lo hi w1 lo1 hi1 w2 lo2 hi2 :
  moves w lo hi w1 lo1 hi1 -> moves w1 lo1 hi1 w2 lo2 hi2 -> moves w lo hi w2 lo2 hi2.
Proof.
  intros A B. split; [apply B|eapply static_trans; [apply A|apply B]| |].
  - intros x. rewrite (mo_pages _ _ _ _ _ _ B). apply A.
  - intros x H1 H2. pose proof (mo_pages _ _ _ _ _ _ A x) as HA. rewrite (mo_keep _ _ _ _ _ _ B); [apply A; auto|tauto..].
Qed.

Lemma pow2_pos o : 0 <= o -> 0 < 2 ^ o.
Proof. intros. apply Z.pow_pos_nonneg; lia. Qed.
Lemma interval_apart p q lo hi : p < q -> (forall x, p <= x < q -> ~ (lo <= x < hi)) -> hi <= lo \/ q <= lo \/ hi <= p.
Proof. intros Hpq H. pose proof (H (Z.max p lo)). lia. Qed.
Lemma block_not_loose w lo hi kd p o x : winv w lo hi -> bl w kd p o -> p <= x < p + 2 ^ o -> ~ (lo <= x < hi).
Proof. intros I H Hx. pose proof (wi_loose _ _ _ I _ _ _ H). lia. Qed.
Lemma fb_unique w lo hi k p o k' o' : winv w lo hi -> fb w k p o -> fb w k' p o' -> k' = k /\ o' = o.
Proof.
  intros I H H'. destruct (wi_apart _ _ _ I (KFree k) p o (KFree k') p o' H H') as [([= <-] & _ & <-)|D]; [auto|].
  destruct H as [H _], H' as [H' _]. pose proof (pow2_pos o). pose proof (pow2_pos o'). unfold disjoint_blocks in D. lia.
Qed.

Lemma in_section_range w lo hi k p q : winv w lo hi -> in_section w k p q -> 0 <= p /\ q <= page_total w.
Proof. intros I (s & Hs & H1 & H2 & _). destruct (sk_pages _ _ (wi_sec _ _ _ I _ _ Hs)). lia. Qed.
(** A free list is no longer than the table. *)
Lemma freelist_length w lo hi k s o f : winv w lo hi -> sections w !! k = Some s -> freelist_list s !! o = Some f ->
  Z.of_nat (length (page_list f)) <= page_total w.
Proof.
  intros I Hs Hf. destruct (sk_counts _ _ (wi_sec _ _ _ I _ _ Hs) _ _ Hf) as [Hnd _]. pose proof (wi_total _ _ _ I) as Ht.
  rewrite <- (Z2Nat.id (page_total w)) by lia. apply inj_le. rewrite <- (length_seqZ 0 (page_total w)).
  apply submseteq_length, NoDup_submseteq; [exact Hnd|]. intros p Hp. apply elem_of_seqZ.
  assert (Hb : fb w k p (Z.of_nat o)) by (split; [lia|]; exists s, f; rewrite Nat2Z.id; auto).
  destruct (wi_block _ _ _ I (KFree k) _ _ Hb) as [Ho (j & Hj & _)]. pose proof (in_section_range _ _ _ _ _ _ I Hj).
  pose proof (pow2_pos (Z.of_nat o)). lia.
Qed.
Lemma length_filter_ne (l : list Z) p : NoDup l -> p ∈ l -> S (length (filter (.≠ p) l)) = length l.
Proof.
  induction l as [|q l IH]; intros Hnd Hp; [destruct (not_elem_of_nil p Hp)|]. apply list.NoDup_cons in Hnd as [Hq Hnd].
  rewrite filter_cons. destruct (decide (q ≠ p)) as [Hne|He].
  - cbn [length]. rewrite IH; auto. apply elem_of_cons in Hp as [->|Hp]; [done|exact Hp].
  - assert (q = p) as -> by (destruct (decide (q = p)); [auto|done]). f_equal. cbn. f_equal.
    assert (E : filter (.≠ p) l = l); [|rewrite E; reflexivity]. clear - Hq. induction l as [|r l IH]; [reflexivity|].
    rewrite filter_cons. rewrite not_elem_of_cons in Hq. destruct (decide (r ≠ p)) as [_|Hn]; [f_equal; apply IH; tauto|].
    destruct Hn. intros ->. tauto.
Qed.

Section Unlink.
Context (w : world) (lo hi : Z) (I : winv w lo hi) (k : nat) (p o : Z) (Hb : fb w k p o) (lo' hi' : Z).
Context (Hlo : forall x, lo' <= x < hi' <-> lo <= x < hi \/ p <= x < p + 2 ^ o).

Lemma unlinked_inv w' l : relist w w' k o l -> pages w' = pages w -> NoDup l -> Z.of_nat (length l) < 2 ^ 64 ->
  (forall q, q ∈ l <-> q <> p /\ fb w k q o) ->
  (forall k' q o', fb w' k' q o' <-> q <> p /\ fb w k' q o') /\ moves w lo hi w' lo' hi'.
Proof.
  intros R Ep Hnd Hlen Hl. pose proof (rl_static _ _ _ _ _ R) as S.
  assert (Hf : forall k' q o', fb w' k' q o' <-> q <> p /\ fb w k' q o').
  { intros k' q o'. rewrite (rl_fb _ _ _ _ _ R), Hl. split; [intros [(-> & -> & H)|[Hne H]]; [exact H|]|].
    - split; [|exact H]. intros ->. apply Hne. eapply fb_unique; eauto.
    - intros [Hq H]. destruct (decide (k' = k)) as [->|]; [|tauto]. destruct (decide (o' = o)) as [->|]; tauto. }
  assert (Hbl : forall kd q o', bl w' kd q o' -> bl w kd q o' /\ (kd <> KFree k \/ q <> p)).
  { intros [k'|] q o'; cbn; [rewrite Hf; intros [H1 H2]; auto|rewrite (st_used _ _ S); split; auto; left; discriminate]. }
  assert (Hap : forall kd q o' x, bl w' kd q o' -> q <= x < q + 2 ^ o' -> ~ (p <= x < p + 2 ^ o)).
  { intros kd q o' x [H Hne]%Hbl Hx Hxp. destruct (wi_apart _ _ _ I kd q o' (KFree k) p o H Hb) as [(-> & -> & _)|D];
      [tauto|unfold disjoint_blocks in D; lia]. }
  split; [exact Hf|]. split.
  - split; rewrite ?Ep, ?(st_total _ _ S).
    + apply I.
    + apply (rl_sec _ _ _ _ _ R Hnd Hlen). apply I.
    + eapply static_secs_apart; [exact S|apply I].
    + intros kd q o' [H _]%Hbl. destruct (wi_block _ _ _ I _ _ _ H) as [Ho (j & Hj & E)]. split; [exact Ho|].
      exists j. split; [eapply static_in_section; eauto|exact E].
    + intros k' q o' [_ H]%Hf. apply (wi_free _ _ _ I _ _ _ H).
    + intros kd q o1 kd' r o2 [H1 _]%Hbl [H2 _]%Hbl. apply (wi_apart _ _ _ I _ _ _ _ _ _ H1 H2).
    + intros kd q o' H. destruct (wi_block _ _ _ I _ _ _ (proj1 (Hbl _ _ _ H))) as [Ho _]. pose proof (pow2_pos o').
      apply interval_apart; [lia|]. intros x Hx [Hx'|Hx']%Hlo; [|eapply Hap; eauto].
      eapply block_not_loose; [exact I|apply (proj1 (Hbl _ _ _ H))|exact Hx|exact Hx'].
    + intros x Hx Hn Hst. destruct (wi_state _ _ _ I x Hx) as (k' & q & o' & H & Hxq); [rewrite Hlo in Hn; tauto|exact Hst|].
      exists k', q, o'. split; [|exact Hxq]. apply Hf. split; [|exact H]. intros ->.
      destruct (fb_unique _ _ _ _ _ _ _ _ I Hb H) as [_ ->]. apply Hn, Hlo. auto.
    + intros k' s' Hs' Hp. destruct (st_sections _ _ S _ _ Hs') as (s & Hs & _ & E2 & E3). unfold section_pages. rewrite E2, E3 in *.
      destruct (wi_guard _ _ _ I _ _ Hs Hp) as (H1 & H2 & H3). split; [exact H1|].
      split; [rewrite Hlo; intros [H|H]; [exact (H2 H)|exact (H3 (KFree k) p o Hb H)]|]. intros kd q o' [H _]%Hbl. apply (H3 _ _ _ H).
  - exact S.
  - intros x. rewrite Hlo. split.
    + intros [(k' & q & o' & [_ H]%Hf & Hx)|[H|H]]; [left; exists k', q, o'; auto|auto|left; exists k, p, o; auto].
    + intros [(k' & q & o' & H & Hx)|H]; [|auto]. destruct (decide (q = p)) as [->|Hne].
      * destruct (fb_unique _ _ _ _ _ _ _ _ I Hb H) as [_ ->]. auto.
      * left. exists k', q, o'. split; [apply Hf; auto|exact Hx].
  - intros x _ _. rewrite Ep. reflexivity.
Qed.

Lemma unlink_page_moves : exists w', unlink_page k o p w = Ok w' /\ pages w' = pages w /\ moves w lo hi w' lo' hi'.
Proof.
  destruct Hb as [Ho (s & f & Hs & Hf & Hp)]. unfold unlink_page, get_section, get_freelist. rewrite Hs. cbn [mbind outcome_bind].
  rewrite Hf. cbn [mbind outcome_bind]. rewrite bool_decide_true by exact Hp. eexists. split; [reflexivity|]. split; [reflexivity|].
  destruct (sk_counts _ _ (wi_sec _ _ _ I _ _ Hs) _ _ Hf) as [Hnd Hc]. pose proof (freelist_length _ _ _ _ _ _ _ I Hs Hf) as Hlen.
  pose proof (wi_total _ _ _ I) as Ht. pose proof (length_filter_ne (page_list f) p Hnd Hp) as El.
  apply (unlinked_inv _ (filter (.≠ p) (page_list f))).
  - apply (put_freelist_relist w k s o f); auto. rewrite Hc, <- El. f_equal. lia.
  - reflexivity.
  - apply list.NoDup_filter, Hnd.
  - lia.
  - intros q. rewrite (list_elem_of_filter (.≠ p)). split; intros [Hq H]; (split; [exact Hq|]).
    + split; [exact Ho|eauto].
    + destruct H as [_ (s' & f' & Hs' & Hf' & Hq')]. assert (s' = s) as -> by congruence. assert (f' = f) as -> by congruence. exact Hq'.
Qed.
End Unlink.

Section Link.
Context (w : world) (lo hi : Z) (I : winv w lo hi) (k : nat) (p o : Z) (Ho : 0 <= o < MAX_ORDER) (lo' hi' : Z).
Context (Hsec : in_section w k p (p + 2 ^ o)).
Context (Hlo : forall x, lo <= x < hi <-> lo' <= x < hi' \/ p <= x < p + 2 ^ o)
  (Hout : forall x, lo' <= x < hi' -> ~ (p <= x < p + 2 ^ o)).

(** The block marked. *)
Record marked (w1 : world) : Prop := Marked {
  mk_static : static w w1;
  mk_sections : sections w1 = sections w;
  mk_head : pstate (pages w1 p) = PAGE_STATE_FREE_LIST_HEAD /\ porder (pages w1 p) = o;
  mk_tail : o <> 0 -> pstate (pages w1 (p + 2 ^ o - 1)) = PAGE_STATE_FREE_LIST_TAIL /\ phead (pages w1 (p + 2 ^ o - 1)) = p;
  mk_out : forall x, ~ (p <= x < p + 2 ^ o) -> pages w1 x = pages w x }.

Lemma mark_free_block_marked : exists w1, mark_free_block p o w = Ok w1 /\ marked w1.
Proof.
  destruct (in_section_range _ _ _ _ _ _ I Hsec) as [Hp He]. pose proof (pow2_pos o ltac:(lia)) as H2.
  unfold mark_free_block, put_pg, get_pg. destruct (Z.leb_spec 0 p); [|lia]. destruct (Z.ltb_spec p (page_total w)); [|lia].
  cbn [andb mbind outcome_bind set_pages page_total pages].
  rewrite Z.shiftl_1_l. destruct (Z.eqb_spec o 0) as [->|Hne]; cbn [negb].
  - eexists. split; [reflexivity|]. split; cbn.
    + split; cbn; auto; eauto 10. intros x. destruct (x =? p) eqn:E; [apply Z.eqb_eq in E as ->|]; reflexivity.
    + reflexivity.
    + rewrite Z.eqb_refl. auto.
    + done.
    + intros x Hx. destruct (Z.eqb_spec x p); [lia|reflexivity].
  - assert (H4 : 2 <= 2 ^ o) by (replace o with (Z.succ (o - 1)) by lia; rewrite Z.pow_succ_r by lia; pose proof (pow2_pos (o - 1)); lia).
    destruct (Z.leb_spec 0 (p + 2 ^ o - 1)); [|lia]. destruct (Z.ltb_spec (p + 2 ^ o - 1) (page_total w)); [|lia].
    cbn [andb mbind outcome_bind set_pages page_total pages]. eexists. split; [reflexivity|]. split; cbn.
    + split; cbn; auto; eauto 10. intros x. destruct (Z.eqb_spec x (p + 2 ^ o - 1)) as [->|].
      * cbn. destruct (Z.eqb_spec (p + 2 ^ o - 1) p); [lia|reflexivity].
      * destruct (Z.eqb_spec x p) as [->|]; reflexivity.
    + reflexivity.
    + destruct (Z.eqb_spec p (p + 2 ^ o - 1)); [lia|]. rewrite Z.eqb_refl. auto.
    + intros _. rewrite Z.eqb_refl. auto.
    + intros x Hx. destruct (Z.eqb_spec x (p + 2 ^ o - 1)); [lia|]. destruct (Z.eqb_spec x p); [lia|reflexivity].
Qed.

Lemma linked_inv w1 w' l : marked w1 -> relist w1 w' k o (p :: l) -> pages w' = pages w1 ->
  NoDup (p :: l) -> Z.of_nat (S (length l)) < 2 ^ 64 -> (forall q, q ∈ l <-> fb w k q o) -> moves w lo hi w' lo' hi'.
Proof.
  intros M R Ep Hnd Hlen Hl. pose proof (static_trans _ _ _ (mk_static _ M) (rl_static _ _ _ _ _ R)) as S.
  pose proof (pow2_pos o ltac:(lia)) as H2.
  assert (Hf1 : forall k' q o', fb w1 k' q o' <-> fb w k' q o').
  { intros k' q o'. unfold fb. rewrite (mk_sections _ M). reflexivity. }
  assert (Hf : forall k' q o', fb w' k' q o' <-> (k' = k /\ o' = o /\ q = p) \/ fb w k' q o').
  { intros k' q o'. rewrite (rl_fb _ _ _ _ _ R), elem_of_cons, Hl, Hf1. destruct (decide (k' = k)) as [->|]; [|tauto].
    destruct (decide (o' = o)) as [->|]; tauto. }
  assert (Hbl : forall kd q o', bl w' kd q o' <-> (kd = KFree k /\ o' = o /\ q = p) \/ bl w kd q o').
  { intros [k'|] q o'; cbn; [rewrite Hf; split; intros [(H1 & H3 & H4)|H]; auto; left; simplify_eq; auto|].
    rewrite (st_used _ _ S). split; [auto|]. intros [([=] & _)|H]; exact H. }
  assert (Hin : forall x, p <= x < p + 2 ^ o -> lo <= x < hi) by (intros x Hx; apply Hlo; auto).
  assert (Hap : forall kd q o', bl w kd q o' -> disjoint_blocks p o q o').
  { intros kd q o' H. pose proof (wi_loose _ _ _ I _ _ _ H) as HL. pose proof (Hin p). pose proof (Hin (p + 2 ^ o - 1)).
    unfold disjoint_blocks. lia. }
  assert (Hpg : forall kd q o' x, bl w kd q o' -> q <= x < q + 2 ^ o' -> pages w' x = pages w x).
  { intros kd q o' x H Hx. rewrite Ep. apply M. pose proof (Hap _ _ _ H) as D. unfold disjoint_blocks in D. lia. }
  split.
  - split; rewrite ?(st_total _ _ S).
    + apply I.
    + apply (rl_sec _ _ _ _ _ R Hnd Hlen). intros k' s Hs. rewrite (mk_sections _ M) in Hs. destruct (wi_sec _ _ _ I _ _ Hs) as [H1 H3 H4 H5 H6].
      split; auto; [rewrite (st_total _ _ (mk_static _ M)); exact H3|destruct H4 as (z & Hz & Hl'); destruct (st_zones _ _ (mk_static _ M) _ _ Hz) as (z' & Hz' & E & _); exists z'; rewrite E; auto].
    + eapply static_secs_apart; [exact S|apply I].
    + intros kd q o' [(-> & -> & ->)|H]%Hbl.
      * split; [exact Ho|]. exists k. split; [eapply static_in_section; eauto|reflexivity].
      * destruct (wi_block _ _ _ I _ _ _ H) as [Ho' (j & Hj & E)]. split; [exact Ho'|].
        exists j. split; [eapply static_in_section; eauto|exact E].
    + intros k' q o' [(-> & -> & ->)|H]%Hf.
      * rewrite Ep. destruct (mk_head _ M) as [H1 H3]. split; [exact H1|]. split; [exact H3|apply M].
      * pose proof (proj1 H) as Ho'. pose proof (pow2_pos o' Ho'). rewrite !(Hpg (KFree k') q o') by (auto || lia). apply (wi_free _ _ _ I _ _ _ H).
    + intros kd q o1 kd' r o2 [(-> & -> & ->)|H1]%Hbl [(-> & -> & ->)|H3]%Hbl; [auto| | |apply (wi_apart _ _ _ I _ _ _ _ _ _ H1 H3)].
      * right. eapply Hap; eauto.
      * right. pose proof (Hap _ _ _ H1) as D. unfold disjoint_blocks in *. lia.
    + intros kd q o' [(-> & -> & ->)|H]%Hbl.
      * apply interval_apart; [lia|]. intros x Hx Hx'. exact (Hout x Hx' Hx).
      * destruct (wi_block _ _ _ I _ _ _ H) as [Ho' _]. pose proof (pow2_pos o'). apply interval_apart; [lia|]. intros x Hx Hx'.
        eapply block_not_loose; [exact I|exact H|exact Hx|]. apply Hlo. auto.
    + intros x Hx Hn Hst. destruct (decide (p <= x < p + 2 ^ o)) as [Hxp|Hxp]; [exists k, p, o; split; [apply Hf; auto|exact Hxp]|].
      rewrite Ep, (mk_out _ M) in Hst by exact Hxp. destruct (wi_state _ _ _ I x Hx) as (k' & q & o' & H & Hxq); [rewrite Hlo; tauto|exact Hst|].
      exists k', q, o'. split; [apply Hf; auto|exact Hxq].
    + intros k' s' Hs' Hp. destruct (st_sections _ _ S _ _ Hs') as (s & Hs & _ & E2 & E3). unfold section_pages. rewrite E2, E3 in *.
      destruct (wi_guard _ _ _ I _ _ Hs Hp) as (H1 & H3 & H4). split; [exact H1|].
      split; [intros H; apply H3, Hlo; auto|]. intros kd q o' [(-> & -> & ->)|H]%Hbl; [intros Hx; apply H3, Hin, Hx|apply (H4 _ _ _ H)].
  - exact S.
  - intros x. rewrite Hlo. split.
    + intros [(k' & q & o' & [(-> & -> & ->)|H]%Hf & Hx)|H]; [auto|left; exists k', q, o'; auto|auto].
    + intros [(k' & q & o' & H & Hx)|[H|H]]; [left; exists k', q, o'; split; [apply Hf; auto|exact Hx]|auto|].
      left. exists k, p, o. split; [apply Hf; auto|exact H].
  - intros x _ Hn. rewrite Ep. apply M. intros Hx. apply Hn, Hin, Hx.
Qed.

Lemma add_from_higher_moves : exists w', add_to_freelist_order_from_higher k o p w = Ok w' /\ moves w lo hi w' lo' hi'.
Proof.
  destruct mark_free_block_marked as (w1 & E1 & M). unfold add_to_freelist_order_from_higher. rewrite E1. cbn [mbind outcome_bind].
  destruct Hsec as (s & Hs & _). pose proof (wi_sec _ _ _ I _ _ Hs) as Hok.
  assert (Hol : (Z.to_nat o < length (freelist_list s))%nat) by (rewrite (sk_lists _ _ Hok); lia).
  destruct (lookup_lt_is_Some_2 _ _ Hol) as [f Hf]. destruct (sk_counts _ _ Hok _ _ Hf) as [Hnd Hc].
  pose proof (freelist_length _ _ _ _ _ _ _ I Hs Hf) as Hlen. pose proof (wi_total _ _ _ I) as Ht.
  unfold link_free_block, get_section, get_freelist. rewrite (mk_sections _ M), Hs. cbn [mbind outcome_bind].
  rewrite Hf. cbn [mbind outcome_bind]. eexists. split; [reflexivity|].
  assert (Hl : forall q, q ∈ page_list f <-> fb w k q o).
  { intros q. split; [intros Hq; split; [lia|eauto]|]. intros [_ (s' & f' & Hs' & Hf' & Hq)].
    assert (s' = s) as -> by congruence. assert (f' = f) as -> by congruence. exact Hq. }
  apply (linked_inv w1 _ (page_list f)); auto.
  - apply (put_freelist_relist w1 k s o f); auto; [rewrite (mk_sections _ M); exact Hs|lia|]. cbn [length]. rewrite Hc. f_equal. lia.
  - apply list.NoDup_cons. split; [|exact Hnd]. intros Hp%Hl. pose proof (pow2_pos o ltac:(lia)).
    eapply (block_not_loose w lo hi (KFree k) p o p); [exact I|exact Hp|lia|]. apply Hlo. right. lia.
  - lia.
Qed.
Lemma add_to_freelist_moves : exists w', add_to_freelist_order k o p w = Ok w' /\ moves w lo hi w' lo' hi'.
Proof.
  destruct add_from_higher_moves as (w1 & E & M). unfold add_to_freelist_order, add_to_freelist_order_from_higher in *.
  destruct (mark_free_block p o w) as [w0| | |]; cbn [mbind outcome_bind] in *; try discriminate. rewrite E. cbn [mbind outcome_bind].
  pose proof (mo_inv _ _ _ _ _ _ M) as I1. destruct (static_in_section _ _ _ _ _ (mo_static _ _ _ _ _ _ M) Hsec) as (s & Hs & _).
  pose proof (wi_sec _ _ _ I1 _ _ Hs) as Hok.
  destruct (add_zone_free_same w1 k (Z.shiftl 1 o) s Hs (sk_zone _ _ Hok)) as (w2 & -> & A & Es). cbn [mbind outcome_bind].
  unfold get_section. rewrite Es, Hs. cbn [mbind outcome_bind]. eexists. split; [reflexivity|].
  eapply moves_trans; [exact M|]. apply moves_same; [exact I1|]. eapply same_trans; [exact A|].
  apply (put_section_same w2 k s); auto. rewrite Es. exact Hs.
Qed.
End Link.

(** ** Taking blocks off the lists *)

Lemma first_nonempty_bound l o : 0 <= o -> o <= first_nonempty l o <= o + Z.of_nat (length l).
Proof.
  revert o. induction l as [|f l IH]; intros o Ho; cbn [first_nonempty length]; [lia|].
  destruct (negb _); [lia|]. specialize (IH (o + 1)). lia.
Qed.
Lemma last_nonempty_bound l o : 0 <= o -> 0 <= last_nonempty l o <= o + Z.of_nat (length l).
Proof.
  revert o. induction l as [|f l IH]; intros o Ho; cbn [last_nonempty length]; [lia|].
  specialize (IH (o + 1)). destruct (_ =? 0); [destruct (negb _)|]; lia.
Qed.

Lemma take_off_later_moves w lo hi k p o lo' hi' : winv w lo hi -> fb w k p o ->
  (forall x, lo' <= x < hi' <-> lo <= x < hi \/ p <= x < p + 2 ^ o) ->
  exists w', take_off_freelist_to_add_later k o p w = Ok w' /\ pages w' = pages w /\ moves w lo hi w' lo' hi'.
Proof.
  intros I Hb Hlo. destruct (unlink_page_moves w lo hi I k p o Hb lo' hi' Hlo) as (w1 & E & Ep & M). pose proof (mo_inv _ _ _ _ _ _ M) as I1.
  unfold take_off_freelist_to_add_later. rewrite E. cbn [mbind outcome_bind].
  destruct Hb as [Ho (s0 & f0 & Hs0 & Hf0 & _)]. destruct (st_sections' _ _ (mo_static _ _ _ _ _ _ M) _ _ Hs0) as [s Hs].
  pose proof (wi_sec _ _ _ I1 _ _ Hs) as Hok. pose proof (MAX_ORDER_bound a).
  assert (Hol : (Z.to_nat o < length (freelist_list s))%nat).
  { rewrite (sk_lists _ _ Hok), <- (sk_lists _ _ (wi_sec _ _ _ I _ _ Hs0)). eapply lookup_lt_Some, Hf0. }
  destruct (lookup_lt_is_Some_2 _ _ Hol) as [f Hf]. unfold get_section, get_freelist. rewrite Hs. cbn [mbind outcome_bind].
  rewrite Hf. cbn [mbind outcome_bind]. destruct (fcount f =? 0); cbn [negb]; [|exists w1; auto].
  eexists. split; [reflexivity|]. split; [cbn; exact Ep|]. eapply moves_trans; [exact M|]. apply moves_same; [exact I1|].
  apply (put_section_same w1 k s); auto. cbn. intros [H1 H2]. rewrite (sk_lists _ _ Hok) in Hol.
  pose proof (first_nonempty_bound (drop (Z.to_nat o) (freelist_list s)) o Ho) as B1. rewrite length_drop, (sk_lists _ _ Hok) in B1.
  pose proof (last_nonempty_bound (freelist_list s) 0 ltac:(lia)) as B2. rewrite (sk_lists _ _ Hok) in B2.
  destruct (min_order s =? o), (max_order s =? o); rewrite ?wrap_small by (unfold is_u; lia); lia.
Qed.
Lemma take_off_order_moves w lo hi k p o lo' hi' r : winv w lo hi -> fb w k p o ->
  (forall x, lo' <= x < hi' <-> lo <= x < hi \/ p <= x < p + 2 ^ o) ->
  exists w', take_off_freelist_order k o p r w = Ok w' /\ moves w lo hi w' lo' hi'.
Proof.
  intros I Hb Hlo. pose proof Hb as [Ho (s & f & Hs & Hf & Hp)]. pose proof (wi_sec _ _ _ I _ _ Hs) as Hok.
  unfold take_off_freelist_order. destruct (add_zone_free_same w k (- Z.shiftl 1 r) s Hs (sk_zone _ _ Hok)) as (w1 & -> & A & Es).
  cbn [mbind outcome_bind]. unfold get_section at 1. rewrite Es, Hs. cbn [mbind outcome_bind].
  set (s' := put_total_free s _). assert (Hs1 : sections w1 !! k = Some s) by congruence.
  destruct (Z.eqb_spec (stotal_free s') 0) as [E0|E0].
  - set (w2 := put_section k (put_orders s' 0 0) w1).
    assert (A2 : same w w2).
    { eapply same_trans; [exact A|]. apply (put_section_same w1 k s); auto. cbn. pose proof (MAX_ORDER_bound a). lia. }
    pose proof (moves_same w lo hi w2 I A2) as M. assert (Hb2 : fb w2 k p o) by (apply (same_fb w w2); auto).
    unfold get_pg. rewrite (st_total _ _ (sm_static _ _ A2)). destruct (wi_block _ _ _ I (KFree k) p o Hb) as [_ (j & Hj & _)].
    pose proof (in_section_range _ _ _ _ _ _ I Hj). pose proof (pow2_pos o Ho).
    destruct (Z.leb_spec 0 p); [|lia]. destruct (Z.ltb_spec p (page_total w)); [|lia]. cbn [andb mbind outcome_bind].
    rewrite (sm_pages _ _ A2). rewrite bool_decide_true by apply (wi_free _ _ _ I _ _ _ Hb).
    destruct (unlink_page_moves w2 lo hi (mo_inv _ _ _ _ _ _ M) k p o Hb2 lo' hi' Hlo) as (w3 & -> & _ & M3).
    exists w3. split; [reflexivity|]. eapply moves_trans; eauto.
  - assert (A2 : same w (put_section k s' w1)).
    { eapply same_trans; [exact A|]. apply (put_section_same w1 k s); auto. }
    assert (Hb2 : fb (put_section k s' w1) k p o) by (apply (same_fb w); auto).
    pose proof (moves_same w lo hi _ I A2) as M.
    destruct (take_off_later_moves _ lo hi k p o lo' hi' (mo_inv _ _ _ _ _ _ M) Hb2 Hlo) as (w3 & -> & _ & M3).
    exists w3. split; [reflexivity|]. eapply moves_trans; eauto.
Qed.

(** ** Adding ranges of pages to the lists *)

Lemma put_orders_same w k s mi ma : sections w !! k = Some s ->
  (0 <= min_order s <= MAX_ORDER /\ 0 <= max_order s <= MAX_ORDER -> 0 <= mi <= MAX_ORDER /\ 0 <= ma <= MAX_ORDER) ->
  same w (put_section k (put_orders s mi ma) w).
Proof. intros Hs H. apply (put_section_same w k s); auto. Qed.

Lemma lower_order_spec avail : 1 <= avail -> forall fuel order, 0 <= order <= Z.of_nat fuel ->
  exists o, lower_order fuel avail order = Ok o /\ 0 <= o <= order /\ 2 ^ o <= avail.
Proof.
  intros Ha. induction fuel as [|fuel IH]; intros order Ho; cbn [lower_order]; rewrite Z.shiftl_1_l.
  - assert (order = 0) as -> by lia. destruct (Z.leb_spec (2 ^ 0) avail); [exists 0; auto with lia|lia].
  - destruct (Z.leb_spec (2 ^ order) avail); [exists order; auto with lia|].
    assert (order <> 0) by (intros ->; lia). destruct (IH (order - 1)) as (o & E & H1 & H2); [lia|]. exists o. auto with lia.
Qed.
Lemma starting_order_spec amount order : 0 <= order -> forall n i, 0 <= i ->
  (i <> 0 -> 2 ^ (i - 1) <= amount) -> 1 <= amount -> i + Z.of_nat n = order + 2 ->
  0 <= starting_order n i amount order <= order /\ 2 ^ starting_order n i amount order <= amount.
Proof.
  intros Ho. induction n as [|n IH]; intros i Hi Hlow Ha Hn; cbn [starting_order].
  - split; [lia|]. assert (E : i - 1 = order + 1) by lia. pose proof (Hlow ltac:(lia)) as Hl. rewrite E, Z.pow_add_r in Hl by lia.
    pose proof (pow2_pos order Ho). lia.
  - rewrite Z.shiftl_1_l. destruct (Z.ltb_spec amount (2 ^ i)) as [Hlt|Hge].
    + assert (i <> 0) by (intros ->; lia). split; [lia|auto].
    + apply IH; try lia. intros _. replace (i + 1 - 1) with i by lia. exact Hge.
Qed.

Lemma free_range_loop_moves k : forall fuel p avail order w, winv w p (p + avail) -> in_section w k p (p + avail) ->
  0 <= order < MAX_ORDER -> 2 ^ order <= avail -> avail <= Z.of_nat fuel ->
  exists w', free_range_loop fuel p k avail order w = Ok w' /\ moves w p (p + avail) w' (p + avail) (p + avail).
Proof.
  induction fuel as [|fuel IH]; intros p avail order w I Hsec Ho Ha Hf; pose proof (pow2_pos order ltac:(lia)) as H2; [lia|].
  cbn [free_range_loop]. pose proof (in_section_range _ _ _ _ _ _ I Hsec) as Hr. pose proof (wi_total _ _ _ I) as Ht.
  destruct (add_to_freelist_moves w p (p + avail) I k p order Ho (p + 2 ^ order) (p + avail)) as (w1 & -> & M).
  { eapply in_section_sub; eauto; lia. } { intros x. lia. } { intros x. lia. }
  cbn [mbind outcome_bind]. rewrite Z.shiftl_1_l, wrap_small by (unfold is_u; lia). pose proof (mo_inv _ _ _ _ _ _ M) as I1.
  pose proof (static_in_section _ _ _ _ _ (mo_static _ _ _ _ _ _ M) Hsec) as Hsec1.
  destruct (Z.eqb_spec (avail - 2 ^ order) 0) as [E0|E0].
  - destruct Hsec1 as (s & Hs & _). unfold get_section. rewrite Hs. cbn [mbind outcome_bind]. eexists. split; [reflexivity|].
    replace (p + 2 ^ order) with (p + avail) in M, I1 by lia. eapply moves_trans; [exact M|]. apply moves_same; [exact I1|].
    destruct (order <? min_order s); [|apply same_refl]. apply put_orders_same; [exact Hs|lia].
  - destruct (lower_order_spec (avail - 2 ^ order) ltac:(lia) (Z.to_nat order) order ltac:(lia)) as (o & -> & Ho' & Hle).
    cbn [mbind outcome_bind].
    destruct (IH (p + 2 ^ order) (avail - 2 ^ order) o w1) as (w2 & -> & M2).
    + replace (p + 2 ^ order + (avail - 2 ^ order)) with (p + avail) by lia. exact I1.
    + eapply in_section_sub; eauto; lia.
    + lia.
    + exact Hle.
    + lia.
    + exists w2. split; [reflexivity|]. replace (p + 2 ^ order + (avail - 2 ^ order)) with (p + avail) in M2 by lia. eapply moves_trans; eauto.
Qed.
Lemma free_range_moves k p amount w : winv w p (p + amount) -> in_section w k p (p + amount) -> 1 <= amount ->
  exists w', free_range_of_pages p k amount MAX_ORDER w = Ok w' /\ moves w p (p + amount) w' (p + amount) (p + amount).
Proof.
  intros I Hsec Ha. unfold free_range_of_pages. pose proof (MAX_ORDER_bound a) as HM.
  destruct (starting_order_spec amount (MAX_ORDER - 1) ltac:(lia) (S (Z.to_nat MAX_ORDER)) 0) as [Ho Hle]; try lia.
  set (order := starting_order _ 0 amount (MAX_ORDER - 1)) in *.
  pose proof Hsec as (s & Hs & _). unfold get_section. rewrite Hs. cbn [mbind outcome_bind].
  cbv zeta. match goal with |- context [free_range_loop _ _ _ _ _ ?x] => set (w1 := x) end. assert (A : same w w1).
  { subst w1. rewrite !(wrap_small 8) by (unfold is_u; lia). destruct (_ <=? _); [|apply same_refl]. apply put_orders_same; [exact Hs|lia]. }
  pose proof (moves_same _ _ _ _ I A) as M.
  destruct (free_range_loop_moves k (Z.to_nat amount) p amount order w1) as (w2 & -> & M2); try lia.
  { apply M. } { eapply static_in_section; [apply M|exact Hsec]. }
  exists w2. split; [reflexivity|]. eapply moves_trans; eauto.
Qed.

Lemma free_buddies_moves k p order : 0 <= order -> forall fuel higher w, higher - order = Z.of_nat fuel -> higher <= MAX_ORDER ->
  winv w p (p + 2 ^ higher) -> in_section w k p (p + 2 ^ higher) ->
  exists w', free_buddies fuel p k higher order w = Ok w' /\ moves w p (p + 2 ^ higher) w' p (p + 2 ^ order).
Proof.
  intros Ho. induction fuel as [|fuel IH]; intros higher w Hf Hm I Hsec; cbn [free_buddies].
  - assert (higher = order) as -> by lia. exists w. split; [reflexivity|]. apply moves_refl, I.
  - destruct (Z.ltb_spec order higher); [|lia]. assert (E : 2 ^ higher = 2 ^ (higher - 1) + 2 ^ (higher - 1)).
    { replace higher with (Z.succ (higher - 1)) at 1 by lia. rewrite Z.pow_succ_r by lia. lia. }
    pose proof (pow2_pos (higher - 1) ltac:(lia)) as H2. rewrite Z.shiftl_1_l.
    destruct (add_from_higher_moves w p (p + 2 ^ higher) I k (p + 2 ^ (higher - 1)) (higher - 1) ltac:(lia) p (p + 2 ^ (higher - 1)))
      as (w1 & -> & M).
    { eapply in_section_sub; eauto; lia. } { intros x. lia. } { intros x. lia. }
    cbn [mbind outcome_bind]. destruct (IH (higher - 1) w1) as (w2 & -> & M2); [lia|lia|apply M| |].
    { eapply static_in_section; [apply M|]. eapply in_section_sub; eauto; lia. }
    exists w2. split; [reflexivity|]. eapply moves_trans; eauto.
Qed.
Lemma free_extra_moves k p higher order w : 0 <= order <= higher -> higher < MAX_ORDER ->
  winv w p (p + 2 ^ higher) -> in_section w k p (p + 2 ^ higher) ->
  exists w', free_extra_pages_if_from_higher_order p k higher order w = Ok w' /\ moves w p (p + 2 ^ higher) w' p (p + 2 ^ order).
Proof.
  intros Ho Hm I Hsec. unfold free_extra_pages_if_from_higher_order. destruct (Z.leb_spec higher order).
  { assert (higher = order) as -> by lia. exists w. split; [reflexivity|]. apply moves_refl, I. }
  pose proof Hsec as (s & Hs & _). unfold get_section. rewrite Hs. cbn [mbind outcome_bind].
  cbv zeta. match goal with |- context [free_buddies _ _ _ _ _ ?x] => set (w1 := x) end. assert (A : same w w1).
  { subst w1. destruct (_ <=? _); [|apply same_refl]. apply put_orders_same; [exact Hs|lia]. }
  pose proof (moves_same _ _ _ _ I A) as M.
  destruct (free_buddies_moves k p order ltac:(lia) (Z.to_nat (higher - order)) higher w1) as (w2 & -> & M2); try lia.
  { apply M. } { eapply static_in_section; [apply M|exact Hsec]. }
  cbn [mbind outcome_bind]. pose proof (moves_trans _ _ _ _ _ _ _ _ _ M M2) as M3.
  destruct (static_in_section _ _ _ _ _ (mo_static _ _ _ _ _ _ M3) Hsec) as (s2 & Hs2 & _). rewrite Hs2.
  cbn [mbind outcome_bind]. eexists. split; [reflexivity|]. eapply moves_trans; [exact M3|]. apply moves_same; [apply M3|].
  destruct (_ <? _); [|apply same_refl]. apply put_orders_same; [exact Hs2|lia].
Qed.

(** ** Allocation *)

Lemma winv_empty w x y : winv w x x -> winv w y y.
Proof.
  intros I. destruct I as [H1 H2 H2' H3 H4 H5 H6 H7 H8]. split; auto; try lia.
  - intros x' Hx _. apply H7; [exact Hx|lia].
  - intros k s Hs Hp. destruct (H8 k s Hs Hp) as (A & B & C). split; [exact A|]. split; [lia|exact C].
Qed.

(** Section numbers in range, and zones that end. *)
Definition zones_ok (w : world) : Prop :=
  forall i z, zones w !! i = Some z -> (forall k, k ∈ section_list z -> is_Some (sections w !! k)) /\
    (section_list z = [] -> ztotal_free z = 0) /\
    (forall j, fallback_zone z = Some j -> (i < j < length (zones w))%nat).

Lemma get_from_freelist_spec w k s order r : winv w 0 0 -> sections w !! k = Some s -> 0 <= order < MAX_ORDER ->
  exists p w', get_from_freelist_order k order r w = Ok (p, w') /\
    match p with
    | None => w' = w /\ forall p, ~ fb w k p order
    | Some p => fb w k p order /\ moves w 0 0 w' p (p + 2 ^ order)
    end.
Proof.
  intros I Hs Ho. pose proof (wi_sec _ _ _ I _ _ Hs) as Hok. unfold get_from_freelist_order, get_section, get_freelist. rewrite Hs.
  cbn [mbind outcome_bind]. assert (Hol : (Z.to_nat order < length (freelist_list s))%nat) by (rewrite (sk_lists _ _ Hok); lia).
  destruct (lookup_lt_is_Some_2 _ _ Hol) as [f Hf]. rewrite Hf. cbn [mbind outcome_bind].
  destruct (sk_counts _ _ Hok _ _ Hf) as [_ Hc]. destruct (Z.eqb_spec (fcount f) 0) as [E0|E0].
  { exists None, w. split; [reflexivity|]. split; [reflexivity|]. intros p (_ & s' & f' & Hs' & Hf' & Hp).
    assert (s' = s) as -> by congruence. assert (f' = f) as -> by congruence.
    destruct (page_list f); [destruct (not_elem_of_nil _ Hp)|cbn in Hc; lia]. }
  destruct (page_list f) as [|p l] eqn:El; [cbn in Hc; lia|].
  assert (Hb : fb w k p order) by (split; [lia|]; exists s, f; rewrite El; auto using list_elem_of_here).
  destruct (take_off_order_moves w 0 0 k p order p (p + 2 ^ order) r I Hb) as (w' & -> & M); [intros x; lia|].
  cbn [mbind outcome_bind]. exists (Some p), w'. auto.
Qed.
Lemma try_orders_spec w k s order : winv w 0 0 -> sections w !! k = Some s -> 0 <= order -> forall n ao, order <= ao -> ao + Z.of_nat n <= MAX_ORDER ->
  exists r w', try_orders n k ao order w = Ok (r, w') /\
    match r with
    | None => w' = w /\ forall p h, ao <= h < ao + Z.of_nat n -> ~ fb w k p h
    | Some (p, h) => ao <= h < ao + Z.of_nat n /\ fb w k p h /\ moves w 0 0 w' p (p + 2 ^ h)
    end.
Proof.
  intros I Hs Ho. induction n as [|n IH]; intros ao Ha Hn; cbn [try_orders]; [exists None, w; split; [reflexivity|]; split; [reflexivity|]; lia|].
  destruct (get_from_freelist_spec w k s ao order I Hs ltac:(lia)) as (p & w1 & -> & H). cbn [mbind outcome_bind].
  destruct p as [p|]; [exists (Some (p, ao)), w1; split; [reflexivity|]; split; [lia|exact H]|]. destruct H as [-> Hno].
  destruct (IH (ao + 1) ltac:(lia) ltac:(lia)) as (r & w' & -> & Hr). exists r, w'. split; [reflexivity|]. destruct r as [[p h]|].
  - destruct Hr as (Hh & Hb & M). split; [lia|auto].
  - destruct Hr as [-> Hr]. split; [reflexivity|]. intros p h Hh. destruct (decide (h = ao)) as [->|]; [apply Hno|apply Hr; lia].
Qed.

(** A free block that allocation can find: its order is one its section looks at. *)
Definition reachable (w : world) (l : list nat) (order : Z) : Prop :=
  exists k s p h, k ∈ l /\ sections w !! k = Some s /\ fb w k p h /\ order <= h /\ min_order s <= h < max_order s.

(** The states whose setup marks every page of the block. *)
Definition covers (state : page_state) (order : Z) : Prop :=
  state = PAGE_STATE_SLAB_HEAD \/ state = PAGE_STATE_LARGE_HEAD \/
  (order = 0 /\ state ∈ [PAGE_STATE_USED; PAGE_STATE_TABLE; PAGE_STATE_KERNEL_STACK; PAGE_STATE_USER_STACK]).
Definition not_free_state (st : page_state) : Prop := st <> PAGE_STATE_FREE_LIST_HEAD /\ st <> PAGE_STATE_FREE_LIST_TAIL.

Record setup_done (w w' : world) (p n : Z) (state : page_state) : Prop := SetupDone {
  sd_static : static w w';
  sd_sections : sections w' = sections w;
  sd_zones : zones w' = zones w;
  sd_head : pstate (pages w' p) = state;
  sd_in : forall x, p <= x < p + n -> not_free_state (pstate (pages w' x));
  sd_out : forall x, ~ (p <= x < p + n) -> pages w' x = pages w x }.

Lemma setup_tails_spec f st : (forall pg, pstate (f pg) = st) -> (forall pg, psection (f pg) = psection pg) -> forall n iter w,
  0 <= iter -> iter + Z.of_nat n <= page_total w ->
  exists w', setup_tails n iter f w = Ok w' /\ static w w' /\ sections w' = sections w /\ zones w' = zones w /\
    forall x, pages w' x = if (iter <=? x) && (x <? iter + Z.of_nat n) then f (pages w x) else pages w x.
Proof.
  intros Hst Hsec. induction n as [|n IH]; intros iter w Hi Hn; cbn [setup_tails].
  - exists w. split; [reflexivity|]. split; [apply static_refl|]. split; [reflexivity|]. split; [reflexivity|].
    intros x. destruct (Z.leb_spec iter x), (Z.ltb_spec x (iter + Z.of_nat 0)); cbn [andb]; lia || reflexivity.
  - unfold put_pg, get_pg. destruct (Z.leb_spec 0 iter); [|lia]. destruct (Z.ltb_spec iter (page_total w)); [|lia].
    cbn [andb mbind outcome_bind]. set (w1 := set_pages _ w).
    assert (S1 : static w w1). { split; cbn; eauto 10. intros x. destruct (Z.eqb_spec x iter) as [->|]; [apply Hsec|reflexivity]. }
    destruct (IH (iter + 1) w1) as (w' & E & S2 & Es & Ez & Hx); [lia|cbn; lia|]. exists w'. split; [exact E|].
    split; [eapply static_trans; eauto|]. split; [exact Es|]. split; [exact Ez|]. intros x. rewrite Hx. cbn [w1 pages set_pages].
    destruct (Z.eqb_spec x iter) as [->|Hne].
    + destruct (Z.leb_spec (iter + 1) iter); [lia|]. cbn [andb]. destruct (Z.leb_spec iter iter); [|lia].
      destruct (Z.ltb_spec iter (iter + Z.of_nat (S n))); [reflexivity|lia].
    + destruct (Z.leb_spec (iter + 1) x), (Z.leb_spec iter x), (Z.ltb_spec x (iter + 1 + Z.of_nat n)), (Z.ltb_spec x (iter + Z.of_nat (S n)));
        cbn [andb]; lia || reflexivity.
Qed.
Lemma page_set_state_spec p st w : 0 <= p < page_total w -> exists w', page_set_state p st w = Ok w' /\ static w w' /\
  sections w' = sections w /\ zones w' = zones w /\ pstate (pages w' p) = st /\ forall x, x <> p -> pages w' x = pages w x.
Proof.
  intros Hp. unfold page_set_state, put_pg, get_pg. destruct (Z.leb_spec 0 p); [|lia]. destruct (Z.ltb_spec p (page_total w)); [|lia].
  cbn [andb mbind outcome_bind]. eexists. split; [reflexivity|]. split; [split; cbn; eauto 10|].
  - intros x. destruct (Z.eqb_spec x p) as [->|]; reflexivity.
  - cbn. rewrite Z.eqb_refl. split; [reflexivity|]. split; [reflexivity|]. split; [reflexivity|]. intros x Hx.
    destruct (Z.eqb_spec x p); [done|reflexivity].
Qed.
Lemma setup_pages_spec w p o state : covers state o -> 0 <= o -> 0 <= p -> p + 2 ^ o <= page_total w ->
  exists w', setup_pages_off_freelist p o state w = Ok w' /\ setup_done w w' p (2 ^ o) state.
Proof.
  intros Hc Ho Hp He. pose proof (pow2_pos o Ho) as H2. destruct (page_set_state_spec p state w ltac:(lia)) as (w1 & E1 & S1 & Es & Ez & Hst & Hx).
  assert (Htail : forall f st, (forall pg, pstate (f pg) = st) -> (forall pg, psection (f pg) = psection pg) -> not_free_state st ->
    not_free_state state -> exists w', setup_tails (Z.to_nat (Z.shiftl 1 o - 1)) (p + 1) f w1 = Ok w' /\ setup_done w w' p (2 ^ o) state).
  { intros f st Hf Hsec Hnf Hns. rewrite Z.shiftl_1_l.
    destruct (setup_tails_spec f st Hf Hsec (Z.to_nat (2 ^ o - 1)) (p + 1) w1) as (w2 & E2 & S2 & Es2 & Ez2 & Hx2); [lia|rewrite (st_total _ _ S1); lia|].
    exists w2. split; [exact E2|]. split; [eapply static_trans; eauto|congruence|congruence| | |].
    - rewrite Hx2. destruct (Z.leb_spec (p + 1) p); [lia|]. exact Hst.
    - intros x Hxb. rewrite Hx2. destruct (Z.leb_spec (p + 1) x), (Z.ltb_spec x (p + 1 + Z.of_nat (Z.to_nat (2 ^ o - 1)))); cbn [andb]; try lia;
        rewrite ?Hf; auto. assert (x = p) as -> by lia. rewrite Hst. exact Hns.
    - intros x Hxb. rewrite Hx2. destruct (Z.leb_spec (p + 1) x), (Z.ltb_spec x (p + 1 + Z.of_nat (Z.to_nat (2 ^ o - 1)))); cbn [andb]; try lia;
        apply Hx; lia. }
  destruct Hc as [->|[->|[-> Hin]]].
  - unfold setup_pages_off_freelist. rewrite E1. cbn [mbind outcome_bind]. apply Htail with (st := PAGE_STATE_SLAB_TAIL); try reflexivity; split; discriminate.
  - unfold setup_pages_off_freelist. rewrite E1. cbn [mbind outcome_bind]. apply Htail with (st := PAGE_STATE_LARGE_TAIL); try reflexivity; split; discriminate.
  - exists w1. split.
    + unfold setup_pages_off_freelist. repeat (apply elem_of_cons in Hin as [->|Hin]; [exact E1|]). destruct (not_elem_of_nil _ Hin).
    + split; auto.
      * intros x Hxb. cbn in Hxb. assert (x = p) as -> by lia. rewrite Hst.
        repeat (apply elem_of_cons in Hin as [->|Hin]; [split; discriminate|]). destruct (not_elem_of_nil _ Hin).
      * intros x Hxb. cbn in Hxb. apply Hx. lia.
Qed.

Lemma static_zones_ok w w' : static w w' -> zones_ok w -> zones_ok w'.
Proof.
  intros S H i z' Hz'. destruct (lookup_lt_is_Some_2 (zones w) i) as [z Hz]; [rewrite <- (st_zlen _ _ S); eapply lookup_lt_Some, Hz'|].
  destruct (st_zones _ _ S _ _ Hz) as (z'' & Hz'' & E1 & E2 & E3). assert (z'' = z') as -> by congruence.
  destruct (H i z Hz) as (H1 & H2 & H3). rewrite E1, E2, (st_zlen _ _ S). split; [|split; [|exact H3]].
  - intros k Hk. destruct (H1 k Hk) as [s Hs]. apply (st_sections' _ _ S _ _ Hs).
  - intros E. rewrite E3 by exact E. auto.
Qed.
Lemma static_set_used w u : static w (set_used u w) <-> u = used w.
Proof. split; [intros S; apply S|intros ->]. split; cbn; eauto 10. Qed.

(** What handing out the block of order [o] at [p] does. *)
Record gave (w : world) (p o : Z) (state : page_state) (w' : world) : Prop := Gave {
  gv_inv : winv w' 0 0;
  gv_static : static w (set_used (used w) w');
  gv_used : used w' = <[p:=o]> (used w);
  gv_new : used w !! p = None;
  gv_fpage : forall x, fpage w' x <-> fpage w x /\ ~ (p <= x < p + 2 ^ o);
  gv_free : forall x, p <= x < p + 2 ^ o -> fpage w x;
  gv_keep : forall x, ~ fpage w x -> pages w' x = pages w x;
  gv_head : pstate (pages w' p) = state;
  gv_order : 0 <= o < MAX_ORDER;
  gv_section : exists k, in_section w' k p (p + 2 ^ o) }.

Lemma hand_out w p o k state w1 w2 : winv w 0 0 -> 0 <= o < MAX_ORDER -> moves w 0 0 w1 p (p + 2 ^ o) -> in_section w k p (p + 2 ^ o) ->
  setup_done w1 w2 p (2 ^ o) state -> (forall x, p <= x < p + 2 ^ o -> fpage w x) ->
  gave w p o state (set_used (<[p:=o]> (used w2)) w2).
Proof.
  intros I0 Ho M Hsec D Hfree. pose proof (mo_inv _ _ _ _ _ _ M) as I. pose proof (pow2_pos o ltac:(lia)) as H2.
  pose proof (sd_static _ _ _ _ _ D) as S. set (w' := set_used _ w2).
  assert (Hf : forall k q o', fb w' k q o' <-> fb w1 k q o').
  { intros k' q o'. unfold fb. cbn. rewrite (sd_sections _ _ _ _ _ D). reflexivity. }
  assert (Hnew : used w1 !! p = None).
  { destruct (used w1 !! p) as [o'|] eqn:E; [|reflexivity]. exfalso. pose proof (wi_loose _ _ _ I KUsed p o' E).
    destruct (wi_block _ _ _ I KUsed p o' E) as [Ho' _]. pose proof (pow2_pos o' ltac:(lia)). lia. }
  assert (Hu : used w2 = used w1) by apply S. assert (Hu1 : used w1 = used w) by apply M.
  assert (Hbl : forall kd q o', bl w' kd q o' <-> (kd = KUsed /\ q = p /\ o' = o) \/ bl w1 kd q o').
  { intros [k'|] q o'; cbn; [rewrite Hf; split; [auto|intros [([=] & _)|H]; exact H]|]. rewrite Hu. destruct (decide (q = p)) as [->|Hne].
    - rewrite lookup_insert_eq, Hnew. split; [intros [= <-]; auto|intros [(_ & _ & ->)|[=]]; reflexivity].
    - rewrite lookup_insert_ne by auto. split; [auto|intros [(_ & -> & _)|H]; [done|exact H]]. }
  assert (Hap : forall kd q o', bl w1 kd q o' -> disjoint_blocks p o q o').
  { intros kd q o' H. pose proof (wi_loose _ _ _ I _ _ _ H). unfold disjoint_blocks. lia. }
  assert (Hpg : forall kd q o' x, bl w1 kd q o' -> q <= x < q + 2 ^ o' -> pages w2 x = pages w1 x).
  { intros kd q o' x H Hx. apply D. pose proof (Hap _ _ _ H) as Hd. unfold disjoint_blocks in Hd. lia. }
  assert (Hfp : forall x, fpage w' x <-> fpage w1 x).
  { intros x. unfold fpage. split; intros (k' & q & o' & H & Hx); exists k', q, o'; (split; [apply Hf; exact H|exact Hx]). }
  assert (Hin2 : in_section w' k p (p + 2 ^ o)).
  { change (in_section w2 k p (p + 2 ^ o)). eapply static_in_section; [exact S|]. eapply static_in_section; [apply M|exact Hsec]. }
  split.
  - split; cbn [page_total pages sections set_used w'].
    + rewrite (st_total _ _ S). apply I.
    + intros k' s Hs. rewrite (sd_sections _ _ _ _ _ D) in Hs. destruct (wi_sec _ _ _ I _ _ Hs) as [A1 A2 A3 A4 A5].
      split; auto; cbn; [rewrite (st_total _ _ S); exact A2|]. rewrite (sd_zones _ _ _ _ _ D). exact A3.
    + change (secs_apart w2). eapply static_secs_apart; [exact S|apply I].
    + intros kd q o' [(-> & -> & ->)|H]%Hbl; [split; [exact Ho|]; exists k; auto|].
      destruct (wi_block _ _ _ I _ _ _ H) as [Ho' (j & Hj & E)]. split; [exact Ho'|]. exists j. split; [|exact E].
      change (in_section w2 j q (q + 2 ^ o')). eapply static_in_section; eauto.
    + intros k' q o' H%Hf. pose proof (proj1 H) as Ho'. pose proof (pow2_pos o' Ho').
      rewrite !(Hpg (KFree k') q o') by (auto || lia). apply (wi_free _ _ _ I _ _ _ H).
    + intros kd q o1 kd' r o2 [(-> & -> & ->)|H1]%Hbl [(-> & -> & ->)|H3]%Hbl; [auto| | |apply (wi_apart _ _ _ I _ _ _ _ _ _ H1 H3)].
      * right. eapply Hap; eauto.
      * right. pose proof (Hap _ _ _ H1) as Hd. unfold disjoint_blocks in *. lia.
    + lia.
    + intros x Hx _ Hst. rewrite (st_total _ _ S) in Hx. apply Hfp. destruct (decide (p <= x < p + 2 ^ o)) as [Hxp|Hxp].
      * destruct (sd_in _ _ _ _ _ D x Hxp). tauto.
      * rewrite (sd_out _ _ _ _ _ D) in Hst by exact Hxp. apply (wi_state _ _ _ I); auto.
    + intros k' s Hs Hp. rewrite (sd_sections _ _ _ _ _ D) in Hs. destruct (wi_guard _ _ _ I _ _ Hs Hp) as (A1 & A2 & A3).
      rewrite (st_total _ _ S). split; [exact A1|]. split; [lia|]. intros kd q o' [(-> & -> & ->)|H]%Hbl; [exact A2|apply (A3 _ _ _ H)].
  - eapply static_trans; [apply M|]. eapply static_trans; [exact S|]. split; cbn; eauto 10; congruence.
  - cbn. congruence.
  - congruence.
  - intros x. rewrite Hfp. pose proof (mo_pages _ _ _ _ _ _ M x) as HM. split.
    + intros H. split; [destruct HM as [HM _]; destruct HM; [auto|assumption|lia]|].
      destruct H as (k' & q & o' & Hq & Hx). pose proof (Hap (KFree k') q o' Hq) as Hd. unfold disjoint_blocks in Hd. lia.
    + intros [H Hn]. destruct HM as [_ HM]. destruct HM; [auto|assumption|lia].
  - exact Hfree.
  - intros x Hx. cbn. rewrite (sd_out _ _ _ _ _ D) by (intros Hxp; apply Hx, Hfree, Hxp). apply (mo_keep _ _ _ _ _ _ M); [exact Hx|lia].
  - cbn. apply D.
  - exact Ho.
  - exists k. exact Hin2.
Qed.

Lemma try_sections_spec state order w : winv w 0 0 -> 0 <= order < MAX_ORDER -> covers state order -> forall l,
  (forall k, k ∈ l -> is_Some (sections w !! k)) ->
  exists r w', try_sections l order state w = Ok (r, w') /\
    match r with Some p => reachable w l order /\ gave w p order state w' | None => ~ reachable w l order /\ w' = w end.
Proof.
  intros I Ho Hc. induction l as [|k l IH]; intros Hl; cbn [try_sections].
  { exists None, w. split; [reflexivity|]. split; [|reflexivity]. intros (k & s & p & h & Hk & _). destruct (not_elem_of_nil _ Hk). }
  destruct (Hl k) as [s Hs]; [apply list_elem_of_here|]. unfold get_section. rewrite Hs. cbn [mbind outcome_bind].
  pose proof (wi_sec _ _ _ I _ _ Hs) as Hok. destruct (sk_orders _ _ Hok) as [Hmi Hma].
  set (ao := Z.max order (min_order s)).
  assert (Hnext : (forall p h, ao <= h < max_order s -> ~ fb w k p h) -> exists r w', try_sections l order state w = Ok (r, w') /\
    match r with Some p => reachable w (k :: l) order /\ gave w p order state w' | None => ~ reachable w (k :: l) order /\ w' = w end).
  { intros Hno. destruct IH as (r & w' & -> & Hr); [intros j Hj; apply Hl, list_elem_of_further, Hj|]. exists r, w'. split; [reflexivity|].
    destruct r; destruct Hr as [Hr Hw]; (split; [|exact Hw]).
    - destruct Hr as (k' & s' & p & h & Hk' & H). exists k', s', p, h. split; [apply list_elem_of_further, Hk'|exact H].
    - intros (k' & s' & p & h & [->|Hk']%elem_of_cons & Hs' & Hf & Hle & Hm); [|apply Hr; exists k', s', p, h; auto].
      assert (s' = s) as -> by congruence. apply (Hno p h); [lia|exact Hf]. }
  destruct (decide (max_order s <= ao)) as [Hle|Hgt].
  { replace (Z.to_nat (max_order s - ao)) with 0%nat by lia. cbn [try_orders mbind outcome_bind]. apply Hnext. lia. }
  destruct (try_orders_spec w k s order I Hs ltac:(lia) (Z.to_nat (max_order s - ao)) ao ltac:(lia) ltac:(lia)) as (r & w1 & -> & Hr).
  cbn [mbind outcome_bind]. destruct r as [[p h]|]; [|destruct Hr as [-> Hr]; apply Hnext; intros p h Hh; apply Hr; lia].
  destruct Hr as (Hh & Hb & M). destruct (wi_block _ _ _ I (KFree k) p h Hb) as [_ (k' & Hsec & <-)].
  destruct (free_extra_moves k p h order w1 ltac:(lia) ltac:(lia) (mo_inv _ _ _ _ _ _ M)) as (w2 & -> & M2).
  { eapply static_in_section; [apply M|exact Hsec]. }
  cbn [mbind outcome_bind]. pose proof (moves_trans _ _ _ _ _ _ _ _ _ M M2) as M3.
  pose proof (in_section_range _ _ _ _ _ _ I Hsec) as Hrg. pose proof (Z.pow_le_mono_r 2 order h ltac:(lia) ltac:(lia)) as Hpw.
  destruct (setup_pages_spec w2 p order state Hc) as (w3 & -> & D); [lia|lia|rewrite (st_total _ _ (mo_static _ _ _ _ _ _ M3)); lia|].
  cbn [mbind outcome_bind]. exists (Some p), (set_used (<[p:=order]> (used w3)) w3). split; [reflexivity|]. split.
  { exists k, s, p, h. split; [apply list_elem_of_here|]. split; [exact Hs|]. split; [exact Hb|]. lia. }
  apply (hand_out w p order k state w2 w3 I Ho M3); [eapply in_section_sub; eauto; lia|exact D|].
  intros x Hx. exists k, p, h. split; [exact Hb|lia].
Qed.

(** ** Release *)

(** A block of another kind cannot reach into the loose pages: next to them it ends or
    begins there. *)
Lemma loose_neighbour w lo hi x : winv w lo hi -> lo < hi -> fpage w x ->
  exists k q o, fb w k q o /\ q <= x < q + 2 ^ o /\ (q + 2 ^ o <= lo \/ hi <= q) /\ 0 <= o < MAX_ORDER /\ in_section w k q (q + 2 ^ o).
Proof.
  intros I Hlt (k & q & o & H & Hx). exists k, q, o. destruct (wi_block _ _ _ I (KFree k) q o H) as [Ho (j & Hj & <-)].
  pose proof (wi_loose _ _ _ I (KFree k) q o H). split; [exact H|]. split; [exact Hx|]. split; [lia|auto].
Qed.
(** A page in the pages of a section is in no block of another. *)
Lemma same_section w lo hi k s k' q q' x : winv w lo hi -> sections w !! k = Some s -> spfn s <= x < spfn s + section_pages s ->
  in_section w k' q q' -> q <= x < q' -> k' = k.
Proof.
  intros I Hs Hx (s' & Hs' & H1 & H2 & _) Hq. destruct (decide (k' = k)) as [|Hne]; [auto|].
  pose proof (wi_secs _ _ _ I k' s' k s Hs' Hs Hne). lia.
Qed.

Section Release.
Context (k : nat) (s : page_section).

Lemma find_previous_spec w p n : winv w p (p + n) -> 1 <= n -> sections w !! k = Some s -> in_section w k p (p + n) -> p <> spfn s ->
  exists r w', find_previous a p k w = Ok (r, w') /\
    match r with
    | None => w' = w
    | Some (q, e) => q = p - 1 /\ e = 1 /\ moves w p (p + n) w' (p - 1) (p + n) /\ in_section w' k (p - 1) (p + n)
    end.
Proof.
  intros I Hn Hs Hsec Hp. pose proof Hsec as (s0 & Hs0 & H1 & H2 & H3). assert (s0 = s) as -> by congruence.
  pose proof (wi_sec _ _ _ I _ _ Hs) as Hok. destruct (sk_pages _ _ Hok) as [HA HB].
  unfold find_previous, get_pg. destruct (Z.leb_spec 0 (p - 1)); [|lia]. destruct (Z.ltb_spec (p - 1) (page_total w)); [|lia].
  cbn [andb mbind outcome_bind].
  assert (Hlast : pstate (pages w (p - 1)) = PAGE_STATE_FREE_LIST_HEAD \/ pstate (pages w (p - 1)) = PAGE_STATE_FREE_LIST_TAIL ->
    exists o, fb w k (p - 2 ^ o) o /\ 0 <= o < MAX_ORDER /\ in_section w k (p - 2 ^ o) p).
  { intros Hst. destruct (loose_neighbour w p (p + n) (p - 1) I ltac:(lia)) as (k' & q & o & Hq & Hx & Hd & Ho & Hsq);
      [apply (wi_state _ _ _ I); [lia|lia|exact Hst]|].
    assert (k' = k) as -> by (eapply (same_section w p (p + n) k s k' q (q + 2 ^ o) (p - 1)); eauto; lia).
    assert (q = p - 2 ^ o) as -> by lia. exists o. replace (p - 2 ^ o + 2 ^ o) with p in Hsq by lia. auto. }
  destruct (pstate (pages w (p - 1))) eqn:Est; try (exists None, w; split; [reflexivity|reflexivity]).
  - destruct Hlast as (o & Hb & Ho & Hso); [auto|]. pose proof (wi_free _ _ _ I _ _ _ Hb) as (_ & Hord & Htail).
    destruct (Z.eq_dec o 0) as [->|Hne].
    2: { destruct Htail as [Htail _]; [exact Hne|]. replace (p - 2 ^ o + 2 ^ o - 1) with (p - 1) in Htail by lia. congruence. }
    change (2 ^ 0) with 1 in Hb, Hord, Hso. rewrite Hord. cbn [Z.eqb].
    destruct (take_off_later_moves w p (p + n) k (p - 1) 0 (p - 1) (p + n) I Hb) as (w' & -> & _ & M); [intros x; change (2 ^ 0) with 1; lia|].
    cbn [mbind outcome_bind]. exists (Some (p - 1, 1)), w'. split; [reflexivity|]. split; [reflexivity|]. split; [reflexivity|].
    split; [exact M|]. eapply static_in_section; [apply M|]. destruct Hso as (s0 & Hs1 & H4 & _ & H5). assert (s0 = s) as -> by congruence.
    exists s. split; [exact Hs|]. split; [exact H4|]. split; [exact H2|]. intros x Hx.
    destruct (Z.eq_dec x (p - 1)) as [->|]; [apply H5; lia|apply H3; lia].
  - destruct Hlast as (o & Hb & Ho & Hso); [auto|]. destruct (wi_free _ _ _ I _ _ _ Hb) as (Hhd & Hord & Htail).
    destruct (Z.eq_dec o 0) as [->|Hne]; [change (2 ^ 0) with 1 in *; congruence|].
    destruct Htail as [_ Hph]; [exact Hne|]. replace (p - 2 ^ o + 2 ^ o - 1) with (p - 1) in Hph by lia. rewrite Hph.
    pose proof (in_section_range _ _ _ _ _ _ I Hso). destruct (Z.leb_spec 0 (p - 2 ^ o)); [|lia].
    pose proof (pow2_pos o ltac:(lia)). destruct (Z.ltb_spec (p - 2 ^ o) (page_total w)); [|lia]. cbn [andb mbind outcome_bind].
    rewrite Hord, !Z.shiftl_1_l, Z.sub_diag, Z.pow_add_r by lia. change (2 ^ 1) with 2.
    destruct (Z.leb_spec (2 ^ o * 2) (2 ^ o + 0)); [lia|]. rewrite andb_false_r. exists None, w. auto.
Qed.

Lemma find_next_spec w f n : winv w f (f + n) -> 1 <= n -> sections w !! k = Some s -> in_section w k f (f + n) ->
  f + n <> spfn s + section_pages s \/ spfn s <> 0 ->
  exists r w', find_next (f + n) k n w = Ok (r, w') /\
    match r with
    | None => w' = w
    | Some e => 1 <= e /\ moves w f (f + n) w' f (f + n + e) /\ in_section w' k f (f + n + e)
    end.
Proof.
  intros I Hn Hs Hsec Hne. pose proof Hsec as (s0 & Hs0 & H1 & H2 & H3). assert (s0 = s) as -> by congruence.
  pose proof (wi_sec _ _ _ I _ _ Hs) as Hok. destruct (sk_pages _ _ Hok) as [HA HB].
  assert (Hg : f + n = spfn s + section_pages s -> f + n < page_total w /\ ~ fpage w (f + n)).
  { intros E. destruct Hne as [Hne|Hne]; [lia|]. destruct (wi_guard _ _ _ I _ _ Hs Hne) as (G1 & _ & G3). rewrite E. split; [exact G1|].
    intros (k' & q & o & Hq & Hx). exact (G3 (KFree k') q o Hq Hx). }
  assert (Hlt : f + n < page_total w) by (destruct (Z.eq_dec (f + n) (spfn s + section_pages s)); [apply Hg; auto|lia]).
  unfold find_next, get_pg. destruct (Z.leb_spec 0 (f + n)); [|lia]. destruct (Z.ltb_spec (f + n) (page_total w)); [|lia].
  cbn [andb mbind outcome_bind]. case_bool_decide as Est; [|exists None, w; auto].
  pose proof (wi_state _ _ _ I (f + n) ltac:(lia) ltac:(lia) ltac:(auto)) as Hfp.
  destruct (loose_neighbour w f (f + n) (f + n) I ltac:(lia) Hfp) as (k' & q & o & Hb & Hx & Hd & Ho & Hso).
  assert (q = f + n) as -> by lia. assert (f + n <> spfn s + section_pages s) by (intros E; apply (Hg E), Hfp).
  assert (k' = k) as -> by (eapply (same_section w f (f + n) k s k' (f + n) (f + n + 2 ^ o) (f + n)); eauto; lia).
  destruct (wi_free _ _ _ I _ _ _ Hb) as (_ & Hord & _). rewrite Hord, !Z.shiftl_1_l.
  destruct (Z.leb_spec (2 ^ (o + 1)) (2 ^ o + n)); [|exists None, w; auto]. pose proof (pow2_pos o ltac:(lia)).
  destruct (take_off_later_moves w f (f + n) k (f + n) o f (f + n + 2 ^ o) I Hb) as (w' & -> & _ & M); [intros x; lia|].
  cbn [mbind outcome_bind]. exists (Some (2 ^ o)), w'. split; [reflexivity|]. split; [lia|]. split; [exact M|].
  eapply static_in_section; [apply M|]. destruct Hso as (s0 & Hs1 & _ & Hq4 & Hq5). assert (s0 = s) as -> by congruence.
  exists s. split; [exact Hs|]. split; [exact H1|]. split; [exact Hq4|]. intros x Hx'.
  destruct (Z.lt_ge_cases x (f + n)); [apply H3; lia|apply Hq5; lia].
Qed.
End Release.

Lemma find_nearby_spec k w p n : winv w p (p + n) -> 1 <= n -> in_section w k p (p + n) ->
  exists merged f n' w', find_nearby_free_pages a PAGE_SHIFT p n w = Ok (merged, f, n', w') /\
    moves w p (p + n) w' f (f + n') /\ in_section w' k f (f + n') /\ 1 <= n' /\ (merged = false -> f = p /\ n' = n).
Proof.
  intros I Hn Hsec. pose proof Hsec as (s & Hs & H1 & H2 & H3). pose proof (wi_sec _ _ _ I _ _ Hs) as Hok.
  destruct (sk_pages _ _ Hok) as [HA HB]. pose proof (wi_total _ _ _ I) as Ht.
  unfold find_nearby_free_pages, page_to_section, get_pg, get_section. destruct (Z.leb_spec 0 p); [|lia].
  destruct (Z.ltb_spec p (page_total w)); [|lia]. cbn [andb mbind outcome_bind]. rewrite H3 by lia.
  destruct (Z.eqb_spec (Z.of_nat k + 1) 0); [lia|]. cbn [negb c_assert mbind outcome_bind].
  replace (Z.to_nat (Z.of_nat k + 1 - 1)) with k by lia. rewrite Hs. cbn [mbind outcome_bind].
  unfold check_sub_assert_w, check_sub_w, fits. destruct (Z.leb_spec 0 (p - spfn s)); [|lia].
  destruct (Z.ltb_spec (p - spfn s) (2 ^ 64)); [|lia]. cbn [andb assert_some mbind outcome_bind].
  assert (Hprev : exists r w1, (if negb (p - spfn s =? 0) then find_previous a p k w else Ok (None, w)) = Ok (r, w1) /\
    match r with None => w1 = w | Some (q, e) => q = p - 1 /\ e = 1 /\ moves w p (p + n) w1 (p - 1) (p + n) /\ in_section w1 k (p - 1) (p + n) end).
  { destruct (Z.eqb_spec (p - spfn s) 0); cbn [negb]; [exists None, w; auto|]. apply (find_previous_spec k s); auto. lia. }
  destruct Hprev as (r & w1 & -> & Hr). cbn [mbind outcome_bind].
  assert (Hst : exists f n1, (let '(a, b, c) := match r with Some (q, extra) => (q, p - spfn s - extra, n + extra) | None => (p, p - spfn s, n) end in (a, b, c)) = (f, f - spfn s, n1) /\
    moves w p (p + n) w1 f (f + n1) /\ in_section w1 k f (f + n1) /\ 1 <= n1 /\ (r = None -> f = p /\ n1 = n)).
  { destruct r as [[q e]|].
    - destruct Hr as (-> & -> & M & Hs1). exists (p - 1), (n + 1). replace (p - 1 + (n + 1)) with (p + n) by lia.
      split; [do 2 f_equal; lia|]. split; [exact M|]. split; [exact Hs1|]. split; [lia|discriminate].
    - subst w1. exists p, n. split; [reflexivity|]. split; [apply moves_refl, I|]. auto. }
  destruct Hst as (f & n1 & E & M & Hs1 & Hn1 & Hnone).
  assert (E' : match r with Some (q, extra) => (q, p - spfn s - extra, n + extra) | None => (p, p - spfn s, n) end = (f, f - spfn s, n1))
    by (destruct r as [[? ?]|]; exact E). rewrite E'. cbv beta iota. clear E E'.
  pose proof (mo_inv _ _ _ _ _ _ M) as I1. pose proof Hs1 as (s1 & Hk1 & G1 & G2 & _). pose proof (mo_static _ _ _ _ _ _ M) as S.
  destruct (st_sections _ _ S _ _ Hk1) as (s0 & Hs0 & _ & F2 & F3). assert (s0 = s) as -> by congruence.
  assert (Esp : section_pages s1 = section_pages s) by (unfold section_pages; rewrite F2; reflexivity).
  rewrite !wrap_small by (unfold is_u, section_pages in *; lia).
  assert (Hnext : exists r2 w2, (if negb (f - spfn s + n1 =? spfn s + PAGE_COUNT PAGE_SHIFT (size (srange s))) then find_next (f + n1) k n1 w1 else Ok (None, w1)) = Ok (r2, w2) /\
    match r2 with None => w2 = w1 | Some e => 1 <= e /\ moves w1 f (f + n1) w2 f (f + n1 + e) /\ in_section w2 k f (f + n1 + e) end).
  { destruct (Z.eqb_spec (f - spfn s + n1) (spfn s + PAGE_COUNT PAGE_SHIFT (size (srange s)))) as [Eq|Eq]; cbn [negb]; [exists None, w1; auto|].
    apply (find_next_spec k s1); auto. rewrite F3, Esp. unfold section_pages. destruct (Z.eq_dec (spfn s) 0); [left; lia|auto]. }
  destruct Hnext as (r2 & w2 & -> & Hr2). cbn [mbind outcome_bind]. destruct r2 as [e|].
  - destruct Hr2 as (He & M2 & Hs2). eexists _, f, (n1 + e), w2. split; [reflexivity|]. rewrite Z.add_assoc.
    split; [eapply moves_trans; eauto|]. split; [exact Hs2|]. split; [lia|]. destruct (bool_decide (is_Some r)); discriminate.
  - subst w2. eexists _, f, n1, w1. split; [reflexivity|]. split; [exact M|]. split; [exact Hs1|]. split; [exact Hn1|].
    destruct r; [discriminate|auto].
Qed.

(** What taking back the block of order [o] at [p] does. *)
Record took (w : world) (p o : Z) (w' : world) : Prop := Took {
  tk_inv : winv w' 0 0;
  tk_static : static w (set_used (used w) w');
  tk_used : used w' = delete p (used w);
  tk_fpage : forall x, fpage w' x <-> fpage w x \/ p <= x < p + 2 ^ o;
  tk_keep : forall x, ~ fpage w x -> ~ (p <= x < p + 2 ^ o) -> pages w' x = pages w x }.

Lemma loosen w p o : winv w 0 0 -> used w !! p = Some o -> winv (set_used (delete p (used w)) w) p (p + 2 ^ o).
Proof.
  intros I Hu. set (w0 := set_used _ w). pose proof (wi_block _ _ _ I KUsed p o Hu) as [Ho _]. pose proof (pow2_pos o ltac:(lia)) as H2.
  assert (Hbl : forall kd q o', bl w0 kd q o' -> bl w kd q o' /\ disjoint_blocks p o q o').
  { intros kd q o' H. assert (Hb : bl w kd q o' /\ (kd <> KUsed \/ q <> p)).
    { destruct kd as [k|]; cbn in *; [split; [exact H|left; discriminate]|]. apply lookup_delete_Some in H as [Hne H]. auto. }
    destruct Hb as [Hb Hne]. split; [exact Hb|]. destruct (wi_apart _ _ _ I KUsed p o kd q o' Hu Hb) as [(<- & <- & _)|D]; [tauto|exact D]. }
  split.
  - apply I.
  - intros k s Hs. destruct (wi_sec _ _ _ I k s Hs). split; auto.
  - apply I.
  - intros kd q o' [H _]%Hbl. apply (wi_block _ _ _ I _ _ _ H).
  - exact (wi_free _ _ _ I).
  - intros kd q o1 kd' r o2 [H1 _]%Hbl [H3 _]%Hbl. apply (wi_apart _ _ _ I _ _ _ _ _ _ H1 H3).
  - intros kd q o' [_ D]%Hbl. unfold disjoint_blocks in D. lia.
  - intros x Hx Hn Hst. apply (wi_state _ _ _ I x Hx); [lia|exact Hst].
  - intros k s Hs Hp. destruct (wi_guard _ _ _ I _ _ Hs Hp) as (A1 & _ & A3). split; [exact A1|]. split; [exact (A3 KUsed p o Hu)|].
    intros kd q o' [H _]%Hbl. apply (A3 _ _ _ H).
Qed.

Lemma took_moves w p o w' e : winv w 0 0 -> used w !! p = Some o ->
  moves (set_used (delete p (used w)) w) p (p + 2 ^ o) w' e e -> took w p o w'.
Proof.
  intros I Hu M. pose proof (mo_static _ _ _ _ _ _ M) as S. split.
  - eapply winv_empty, M.
  - destruct S as [S1 S2 S3 S4 S5 S6 S7]. split; cbn; auto.
  - apply S.
  - intros x. pose proof (mo_pages _ _ _ _ _ _ M x) as HM. change (fpage (set_used (delete p (used w)) w) x) with (fpage w x) in HM.
    split; [intros H; apply HM; auto|intros H; apply HM in H as [H|H]; [exact H|lia]].
  - intros x H1 H2. apply (mo_keep _ _ _ _ _ _ M x H1 H2).
Qed.

Lemma free_pages_spec lp w p o : winv w 0 0 -> used w !! p = Some o -> pstate (pages w p) <> PAGE_STATE_LARGE_HEAD ->
  exists w', free_pages a PAGE_SHIFT lp p o w = Ok w' /\ took w p o w'.
Proof.
  intros I Hu Hst. pose proof (wi_block _ _ _ I KUsed p o Hu) as [Ho (k & Hsec & _)]. pose proof (pow2_pos o ltac:(lia)) as H2.
  pose proof (in_section_range _ _ _ _ _ _ I Hsec) as Hr. unfold free_pages. destruct (Z.leb_spec MAX_ORDER o); [lia|].
  unfold get_pg. destruct (Z.leb_spec 0 p); [|lia]. destruct (Z.ltb_spec p (page_total w)); [|lia]. cbn [andb mbind outcome_bind].
  rewrite bool_decide_false by exact Hst. rewrite Z.shiftl_1_l. pose proof (loosen w p o I Hu) as I0.
  set (w0 := set_used _ w) in *. assert (Hsec0 : in_section w0 k p (p + 2 ^ o)) by exact Hsec.
  destruct (find_nearby_spec k w0 p (2 ^ o) I0 ltac:(lia) Hsec0) as (merged & f & n & w1 & -> & M & Hs1 & Hn & Hm).
  cbn [mbind outcome_bind]. pose proof (mo_inv _ _ _ _ _ _ M) as I1. pose proof (in_section_range _ _ _ _ _ _ I1 Hs1) as Hr1.
  assert (Ek : page_to_section f w1 = Ok k).
  { unfold page_to_section, get_pg. destruct (Z.leb_spec 0 f); [|lia]. destruct (Z.ltb_spec f (page_total w1)); [|lia].
    cbn [andb mbind outcome_bind]. destruct Hs1 as (s & _ & _ & _ & Hx). rewrite Hx by lia.
    destruct (Z.eqb_spec (Z.of_nat k + 1) 0); [lia|]. cbn. f_equal. lia. }
  rewrite Ek. cbn [mbind outcome_bind]. destruct merged.
  - destruct (free_range_moves k f n w1 I1 Hs1 Hn) as (w2 & -> & M2). exists w2. split; [reflexivity|].
    eapply took_moves; eauto. eapply moves_trans; eauto.
  - destruct (Hm eq_refl) as [-> ->].
    destruct (add_to_freelist_moves w1 p (p + 2 ^ o) I1 k p o Ho p p Hs1) as (w2 & -> & M2); [intros x; lia|intros x; lia|].
    exists w2. split; [reflexivity|]. eapply took_moves; eauto. eapply moves_trans; eauto.
Qed.
End Invariant.

(** ** Memory *)

Section Memory.
Context (a : arch) (PAGE_SHIFT cbo_size HHDM_OFFSET : Z).
Context (Hshift : 12 <= PAGE_SHIFT <= 16) (Hcbo : cbo_size = 0 \/ (0 < cbo_size /\ (cbo_size | PAGE_SIZE PAGE_SHIFT))).
Abbreviation psize := (PAGE_SIZE PAGE_SHIFT).
Abbreviation winv := (winv a PAGE_SHIFT).

Lemma zero_loop_spec step : 0 < step -> forall fuel m dst n, 0 <= n -> (step | n) -> n <= Z.of_nat fuel ->
  exists m', zero_loop fuel step m dst n = Ok m' /\ filled m m' dst n 0.
Proof.
  intros Hs. induction fuel as [|fuel IH]; intros m dst n Hn Hd Hf; cbn [zero_loop]; destruct (Z.eqb_spec n 0) as [->|Hne].
  - exists m. split; [reflexivity|apply filled_nil].
  - lia.
  - exists m. split; [reflexivity|apply filled_nil].
  - destruct Hd as [q Hq]. assert (1 <= q) by nia.
    destruct (IH (rep_stosb 0 (Z.to_nat step) m dst) (dst + step) (n - step)) as (m' & -> & F); [nia|exists (q - 1); lia|lia|].
    exists m'. split; [reflexivity|]. replace n with (step + (n - step)) by lia. eapply filled_app; [lia|nia| |exact F].
    apply rep_stosb_Z; [unfold is_u; lia|lia].
Qed.
Lemma page_size_8 : (8 | psize) /\ 2 ^ 12 <= psize <= 2 ^ 16.
Proof.
  unfold PAGE_SIZE. split; [|split; apply Z.pow_le_mono_r; lia]. exists (2 ^ (PAGE_SHIFT - 3)).
  change 8 with (2 ^ 3). rewrite <- Z.pow_add_r by lia. f_equal. lia.
Qed.
Lemma zero_bytes_spec m dst n : 0 <= n -> (psize | n) -> exists m', zero_bytes a cbo_size m dst n = Ok m' /\ filled m m' dst n 0.
Proof.
  intros Hn Hd. assert (H8 : (8 | n)) by (eapply Z.divide_trans; [apply page_size_8|exact Hd]).
  assert (Hw : exists m', zero_loop (Z.to_nat n) 8 m dst n = Ok m' /\ filled m m' dst n 0) by (apply zero_loop_spec; lia || auto).
  destruct a; cbn [zero_bytes].
  - eexists. split; [reflexivity|]. destruct H8 as [q ->]. rewrite Z.div_mul by lia.
    replace (8 * Z.to_nat q)%nat with (Z.to_nat (q * 8)) by lia. apply rep_stosb_Z; [unfold is_u; lia|lia].
  - eexists. split; [reflexivity|]. apply rep_stosb_Z; [unfold is_u; lia|lia].
  - destruct (Z.eqb_spec cbo_size 0); cbn [negb]; [exact Hw|]. destruct Hcbo as [?|[Hpos Hc]]; [done|].
    apply zero_loop_spec; auto; [eapply Z.divide_trans; eauto|lia].
  - exact Hw.
Qed.

(** The address of a page of a section. *)
Definition page_addr (s : page_section) (p : Z) : Z := HHDM_OFFSET + front (srange s) + (p - spfn s) * psize.
(** Sections lie in the direct map. *)
Definition sec_addr (s : page_section) : Prop :=
  psize <= front (srange s) /\ HHDM_OFFSET + front (srange s) + section_pages PAGE_SHIFT s * psize < 2 ^ 64.

Lemma page_to_virt_spec w k s p q : 0 <= HHDM_OFFSET -> winv w 0 0 -> sections w !! k = Some s -> in_section PAGE_SHIFT w k p q -> p < q -> sec_addr s ->
  page_to_virt PAGE_SHIFT HHDM_OFFSET p w = Ok (page_addr s p).
Proof.
  intros Hh I Hs Hsec Hpq [Hf He]. pose proof (in_section_range _ _ _ _ _ _ _ _ I Hsec) as Hr. destruct Hsec as (s0 & Hs0 & H1 & H2 & H3).
  assert (s0 = s) as -> by congruence. pose proof page_size_8 as [_ Hps]. pose proof (wi_total _ _ _ _ _ I) as Ht.
  destruct (sk_pages _ _ _ _ (wi_sec _ _ _ _ _ I _ _ Hs)) as [HA HB].
  unfold page_to_virt, page_to_phys, page_to_section, get_pg, get_section. destruct (Z.leb_spec 0 p); [|lia].
  destruct (Z.ltb_spec p (page_total w)); [|lia]. cbn [andb mbind outcome_bind]. rewrite H3 by lia.
  destruct (Z.eqb_spec (Z.of_nat k + 1) 0); [lia|]. cbn [negb c_assert mbind outcome_bind].
  replace (Z.to_nat (Z.of_nat k + 1 - 1)) with k by lia. rewrite Hs. cbn [mbind outcome_bind].
  unfold check_sub_assert_w, check_sub_w, fits. destruct (Z.leb_spec 0 (p - spfn s)); [|lia].
  destruct (Z.ltb_spec (p - spfn s) (2 ^ 64)); [|lia]. cbn [andb assert_some mbind outcome_bind].
  rewrite Z.shiftl_mul_pow2 by lia. fold (PAGE_SIZE PAGE_SHIFT).
  rewrite (wrap_small 64 ((p - spfn s) * psize)) by (unfold is_u; nia).
  rewrite (wrap_small 64) by (unfold is_u; nia).
  rewrite phys_to_virt_ok by nia. unfold page_addr. f_equal. lia.
Qed.


(** The zones are searched in turn: a block is handed out and zeroed, or nothing changed. *)
Definition zeroed_block (w : world) (m : mem) (order : Z) (r : option Z) (w' : world) (m' : mem) : Prop :=
  match r with
  | Some p => gave a PAGE_SHIFT w p order PAGE_STATE_SLAB_HEAD w' /\
      exists k s, in_section PAGE_SHIFT w' k p (p + 2 ^ order) /\ sections w' !! k = Some s /\ filled m m' (page_addr s p) (2 ^ order * psize) 0
  | None => w' = w /\ m' = m
  end.

Lemma zero_multiple_pages_spec m dst o : 0 <= o < MAX_ORDER a ->
  exists m', zero_multiple_pages a PAGE_SHIFT cbo_size m dst (Z.shiftl 1 o) = Ok m' /\ filled m m' dst (2 ^ o * psize) 0.
Proof.
  intros Ho. unfold zero_multiple_pages. rewrite Z.shiftl_1_l. pose proof page_size_8 as [_ Hps]. pose proof (MAX_ORDER_bound a).
  pose proof (pow2_pos o ltac:(lia)). assert (2 ^ o <= 2 ^ 31) by (apply Z.pow_le_mono_r; lia).
  unfold check_mul_assert_w, check_mul_w, fits. destruct (Z.leb_spec 0 (psize * 2 ^ o)); [|nia].
  destruct (Z.ltb_spec (psize * 2 ^ o) (2 ^ 64)); [|nia]. cbn [andb assert_some mbind outcome_bind].
  rewrite (Z.mul_comm psize). apply zero_bytes_spec; [nia|apply Z.divide_factor_r].
Qed.

Lemma alloc_from_zones_spec order flags w m : 0 <= HHDM_OFFSET -> winv w 0 0 -> zones_ok w -> 0 <= order < MAX_ORDER a ->
  (forall k s, sections w !! k = Some s -> sec_addr s) -> forall fuel i fall, (i < length (zones w))%nat -> (length (zones w) - i < fuel)%nat ->
  exists r w' m', alloc_from_zones a PAGE_SHIFT cbo_size HHDM_OFFSET fuel (Some i) PAGE_STATE_SLAB_HEAD flags order fall w m = Ok (r, w', m') /\
    zeroed_block w m order r w' m'.
Proof.
  intros Hh I Hz Ho Hsa. induction fuel as [|fuel IH]; intros i fall Hi Hf; [lia|]. cbn [alloc_from_zones].
  destruct (lookup_lt_is_Some_2 _ _ Hi) as [z Hzi]. rewrite Hzi. destruct (Hz i z Hzi) as (Z1 & Z2 & Z3).
  assert (Hnone : exists r w' m', (if fall then alloc_from_zones a PAGE_SHIFT cbo_size HHDM_OFFSET fuel (fallback_zone z) PAGE_STATE_SLAB_HEAD flags order true w m
      else Ok (None, w, m)) = Ok (r, w', m') /\ zeroed_block w m order r w' m').
  { destruct fall; [|exists None, w, m; split; [reflexivity|split; reflexivity]]. destruct (fallback_zone z) as [j|] eqn:Ef.
    - specialize (Z3 j eq_refl). apply IH; lia.
    - exists None, w, m. split; [destruct fuel; reflexivity|split; reflexivity]. }
  unfold try_alloc_pages_from_zone. rewrite Z.shiftl_1_l. destruct (Z.ltb_spec (ztotal_free z) (2 ^ order)) as [Hlt|Hge]; [exact Hnone|].
  destruct (section_list z) as [|k0 l] eqn:El; [rewrite Z2 in Hge by reflexivity; pose proof (pow2_pos order ltac:(lia)); lia|].
  destruct (try_sections_spec a PAGE_SHIFT PAGE_STATE_SLAB_HEAD order w I Ho ltac:(left; reflexivity) (k0 :: l) Z1) as (r & w' & -> & Hr).
  cbn [mbind outcome_bind]. destruct r as [p|]; destruct Hr as [_ Hr]; [|subst w'; exact Hnone].
  pose proof (gv_section _ _ _ _ _ _ _ Hr) as [k Hsec]. pose proof Hsec as (s & Hs & _). pose proof (pow2_pos order ltac:(lia)) as H2.
  assert (Hsa' : sec_addr s).
  { destruct (st_sections _ _ (gv_static _ _ _ _ _ _ _ Hr) k s Hs) as (s0 & Hs0 & _ & E2 & _). specialize (Hsa k s0 Hs0).
    unfold sec_addr, section_pages in *. rewrite E2. exact Hsa. }
  cbn [setup_alloced_page]. rewrite (page_to_virt_spec w' k s p (p + 2 ^ order) Hh (gv_inv _ _ _ _ _ _ _ Hr) Hs Hsec ltac:(lia) Hsa').
  cbn [mbind outcome_bind]. destruct (zero_multiple_pages_spec m (page_addr s p) order Ho) as (m' & -> & F). cbn [mbind outcome_bind].
  exists (Some p), w', m'. split; [reflexivity|]. split; [exact Hr|]. exists k, s. auto.
Qed.
Lemma alloc_pages_spec order w m : 0 <= HHDM_OFFSET -> winv w 0 0 -> zones_ok w -> 0 <= order < MAX_ORDER a -> zones w <> [] ->
  (forall k s, sections w !! k = Some s -> sec_addr s) ->
  exists r w' m', alloc_pages a PAGE_SHIFT cbo_size HHDM_OFFSET PAGE_STATE_SLAB_HEAD __ALLOC_ZERO order w m = Ok (r, w', m') /\
    zeroed_block w m order r w' m'.
Proof.
  intros Hh I Hz Ho Hne Hsa. unfold alloc_pages, alloc_pages_from_zone. destruct (Z.leb_spec (MAX_ORDER a) order); [lia|].
  apply alloc_from_zones_spec; auto; destruct (zones w); [done|cbn; lia|done|cbn; lia].
Qed.

(** A page of a block that is handed out is in no free block. *)
Lemma used_not_free w lo hi p o x : winv w lo hi -> used w !! p = Some o -> p <= x < p + 2 ^ o -> ~ fpage w x.
Proof.
  intros I Hp Hx (k & q & o' & Hf & Hq). destruct (wi_apart _ _ _ _ _ I KUsed p o (KFree k) q o' Hp Hf) as [([=] & _)|D].
  unfold disjoint_blocks in D. lia.
Qed.

(** What holds between requests: the invariant, zones and sections with addresses in the
    direct map, and blocks handed out as slabs. *)
Record area_ok (w : world) : Prop := AreaOk {
  ar_inv : winv w 0 0;
  ar_zones : zones_ok w /\ zones w <> [];
  ar_addr : forall k s, sections w !! k = Some s -> sec_addr s;
  ar_slab : forall p o, used w !! p = Some o -> pstate (pages w p) = PAGE_STATE_SLAB_HEAD }.

Lemma static_area w w' : static w w' -> zones_ok w /\ zones w <> [] -> (forall k s, sections w !! k = Some s -> sec_addr s) ->
  (zones_ok w' /\ zones w' <> []) /\ forall k s, sections w' !! k = Some s -> sec_addr s.
Proof.
  intros S [Hz Hn] Ha. split; [split; [exact (static_zones_ok _ _ S Hz)|]|].
  - intros E. apply Hn. pose proof (st_zlen _ _ S) as El. rewrite E in El. destruct (zones w); [reflexivity|discriminate].
  - intros k s Hs. destruct (st_sections _ _ S k s Hs) as (s0 & Hs0 & _ & E & _). specialize (Ha k s0 Hs0).
    unfold sec_addr, section_pages in *. rewrite E. exact Ha.
Qed.
Lemma used_head_not_free w p o : winv w 0 0 -> used w !! p = Some o -> p < p + 2 ^ o /\ ~ fpage w p.
Proof.
  intros I Hp. destruct (wi_block _ _ _ _ _ I KUsed p o Hp) as [Ho _]. pose proof (pow2_pos o ltac:(lia)).
  split; [lia|]. eapply used_not_free; eauto. lia.
Qed.
Lemma gave_area w p o w' : area_ok w -> gave a PAGE_SHIFT w p o PAGE_STATE_SLAB_HEAD w' -> area_ok w'.
Proof.
  intros [I Hz Ha Hsl] G. destruct (static_area w (set_used (used w) w') (gv_static _ _ _ _ _ _ _ G) Hz Ha) as [Hz' Ha'].
  split; [apply G|exact Hz'|exact Ha'|]. intros q k. rewrite (gv_used _ _ _ _ _ _ _ G).
  destruct (decide (q = p)) as [->|Hqp]; [rewrite lookup_insert_eq; intros _; apply G|].
  rewrite lookup_insert_ne by auto. intros Hq. rewrite (gv_keep _ _ _ _ _ _ _ G); [eauto|]. apply (used_head_not_free w q k I Hq).
Qed.
Lemma took_area w p o w' : area_ok w -> used w !! p = Some o -> took a PAGE_SHIFT w p o w' -> area_ok w'.
Proof.
  intros [I Hz Ha Hsl] Hp T. destruct (static_area w (set_used (used w) w') (tk_static _ _ _ _ _ _ T) Hz Ha) as [Hz' Ha'].
  split; [apply T|exact Hz'|exact Ha'|]. intros q k. rewrite (tk_used _ _ _ _ _ _ T). intros [Hqp Hq]%lookup_delete_Some.
  destruct (used_head_not_free w q k I Hq) as [Hk Hf]. rewrite (tk_keep _ _ _ _ _ _ T); [eauto|exact Hf|].
  destruct (wi_apart _ _ _ _ _ I KUsed q k KUsed p o Hq Hp) as [(_ & -> & _)|D]; [done|]. unfold disjoint_blocks in D. lia.
Qed.
Lemma area_alloc order w m : 0 <= HHDM_OFFSET -> area_ok w -> 0 <= order < MAX_ORDER a ->
  exists r w' m', alloc_pages a PAGE_SHIFT cbo_size HHDM_OFFSET PAGE_STATE_SLAB_HEAD __ALLOC_ZERO order w m = Ok (r, w', m') /\
    zeroed_block w m order r w' m' /\ area_ok w'.
Proof.
  intros Hh H Ho. destruct (alloc_pages_spec order w m Hh (ar_inv _ H) (proj1 (ar_zones _ H)) Ho (proj2 (ar_zones _ H)) (ar_addr _ H))
    as (r & w' & m' & E & Hr). exists r, w', m'. split; [exact E|]. split; [exact Hr|].
  destruct r as [p|]; [destruct Hr as [G _]; eapply gave_area; eauto|destruct Hr as [-> _]; exact H].
Qed.
Lemma area_free lp p o w : area_ok w -> used w !! p = Some o ->
  exists w', free_pages a PAGE_SHIFT lp p o w = Ok w' /\ took a PAGE_SHIFT w p o w' /\ area_ok w'.
Proof.
  intros H Hp. destruct (free_pages_spec a PAGE_SHIFT lp w p o (ar_inv _ H) Hp) as (w' & E & T); [rewrite (ar_slab _ H p o Hp); discriminate|].
  exists w'. split; [exact E|]. split; [exact T|eapply took_area; eauto].
Qed.
End Memory.

(** ** The interface of the slab allocator *)

Section Interface.
Context (a : arch) (PAGE_SHIFT cbo_size HHDM_OFFSET : Z) (largepage_order : Z -> Z).
Context (Hshift : 12 <= PAGE_SHIFT <= 16) (Hcbo : cbo_size = 0 \/ (0 < cbo_size /\ (cbo_size | PAGE_SIZE PAGE_SHIFT)))
  (Hhhdm : 0 <= HHDM_OFFSET /\ HHDM_OFFSET mod PAGE_SIZE PAGE_SHIFT = 0).
Abbreviation psize := (PAGE_SIZE PAGE_SHIFT).
Abbreviation winv := (winv a PAGE_SHIFT).

(** Pages by the address they are mapped at. *)
Definition alloc_slab_pages (w : world) (m : mem) (order : Z) : outcome (option Z * world * mem) :=
  '(r, w, m) ← alloc_pages a PAGE_SHIFT cbo_size HHDM_OFFSET PAGE_STATE_SLAB_HEAD __ALLOC_ZERO order w m;
  match r with
  | Some p => virt ← page_to_virt PAGE_SHIFT HHDM_OFFSET p w; Ok (Some virt, w, m)
  | None => Ok (None, w, m)
  end.
Definition free_slab_pages (w : world) (m : mem) (virt order : Z) : outcome (world * mem) :=
  phys ← virt_to_phys HHDM_OFFSET virt;
  pfn ← phys_to_pfn PAGE_SHIFT (sections w) phys;
  w ← free_pages a PAGE_SHIFT largepage_order pfn order w;
  Ok (w, m).

(** One section of memory, which begins at page 0 of the table. *)
Record one_section (w : world) (s : page_section) : Prop := OneSection {
  os_sections : sections w = [s];
  os_pfn : spfn s = 0;
  os_addr : sec_addr PAGE_SHIFT HHDM_OFFSET s;
  os_front : front (srange s) mod psize = 0;
  os_range : range_wf (srange s) }.
Definition base (w : world) : Z := match sections w with s :: _ => HHDM_OFFSET + front (srange s) | [] => 0 end.
Definition addr (w : world) (p : Z) : Z := base w + p * psize.

Record pages_ok (w : world) : Prop := PagesOk {
  pg_area : area_ok a PAGE_SHIFT HHDM_OFFSET w;
  pg_section : exists s, one_section w s }.

Definition page_avail (w : world) (x : Z) : Prop := exists p, fpage w p /\ addr w p <= x < addr w p + psize.
Definition page_block (w : world) (x o : Z) : Prop := exists p, x = addr w p /\ used w !! p = Some o.

Lemma psize_pos : 2 ^ 12 <= psize <= 2 ^ 16.
Proof. apply page_size_8, Hshift. Qed.
Lemma block_size o : 0 <= o -> pages_size PAGE_SHIFT o = 2 ^ o * psize.
Proof. intros Ho. unfold pages_size, PAGE_SIZE. rewrite Z.pow_add_r by lia. lia. Qed.
Lemma addr_page w p x : addr w p <= x < addr w p + psize <-> (x - base w) / psize = p.
Proof.
  pose proof psize_pos. unfold addr. split.
  - intros Hx. symmetry. apply (Z.div_unique _ _ _ (x - base w - p * psize)); lia.
  - intros <-. pose proof (Z.div_mod (x - base w) psize). pose proof (Z.mod_pos_bound (x - base w) psize). lia.
Qed.
(** The addresses of a block are those of its pages. *)
Lemma addr_block w p o x : 0 <= o -> addr w p <= x < addr w p + pages_size PAGE_SHIFT o <-> p <= (x - base w) / psize < p + 2 ^ o.
Proof.
  intros Ho. rewrite block_size by exact Ho. pose proof psize_pos. pose proof (pow2_pos o Ho). unfold addr.
  pose proof (Z.div_mod (x - base w) psize). pose proof (Z.mod_pos_bound (x - base w) psize). split; intros Hx; nia.
Qed.
Lemma avail_page w x : page_avail w x <-> fpage w ((x - base w) / psize).
Proof.
  unfold page_avail. split; [intros (p & Hp & Hx%addr_page); rewrite Hx; exact Hp|].
  intros H. exists ((x - base w) / psize). split; [exact H|]. apply addr_page. reflexivity.
Qed.

Lemma static_one w w' s : static w w' -> one_section w s -> exists s', one_section w' s' /\ srange s' = srange s.
Proof.
  intros S [H1 H2 H3 H4 H5]. destruct (st_sections' _ _ S 0 s) as [s' Hs']; [rewrite H1; reflexivity|].
  destruct (st_sections _ _ S 0 s' Hs') as (s0 & Hs0 & _ & E2 & E3). assert (s0 = s) as -> by (rewrite H1 in Hs0; cbn in Hs0; congruence).
  exists s'. split; [|exact E2]. split; unfold sec_addr, section_pages in *; rewrite ?E2, ?E3; auto.
  apply list_eq. intros [|i]; [exact Hs'|]. cbn. destruct (sections w' !! Datatypes.S i) as [t|] eqn:Et; [|reflexivity].
  destruct (st_sections _ _ S (Datatypes.S i) t Et) as (t0 & Ht0 & _). rewrite H1 in Ht0. discriminate.
Qed.
Lemma static_base w w' s : static w w' -> one_section w s -> base w' = base w.
Proof.
  intros S H. destruct (static_one w w' s S H) as (s' & H' & E). unfold base. rewrite (os_sections _ _ H), (os_sections _ _ H'), E. reflexivity.
Qed.
Lemma page_addr_one w s p : one_section w s -> page_addr PAGE_SHIFT HHDM_OFFSET s p = addr w p.
Proof. intros H. unfold page_addr, addr, base. rewrite (os_sections _ _ H), (os_pfn _ _ H). f_equal. lia. Qed.
(** Blocks are inside the direct map. *)
Lemma block_range w s kd p o : winv w 0 0 -> one_section w s -> bl w kd p o ->
  0 <= o < MAX_ORDER a /\ 0 <= p /\ p + 2 ^ o <= section_pages PAGE_SHIFT s /\ HHDM_OFFSET + psize <= addr w p /\ addr w p + pages_size PAGE_SHIFT o < 2 ^ 64.
Proof.
  intros I H Hb. destruct (wi_block _ _ _ _ _ I _ _ _ Hb) as [Ho (k & (s0 & Hs0 & H1 & H2 & _) & _)]. split; [exact Ho|].
  rewrite (os_sections _ _ H) in Hs0. destruct k as [|k]; [|discriminate]. injection Hs0 as <-. rewrite (os_pfn _ _ H) in *.
  destruct (os_addr _ _ H) as [A1 A2]. pose proof psize_pos. rewrite block_size by lia. unfold addr, base. rewrite (os_sections _ _ H).
  split; [lia|]. split; [lia|]. split; [nia|]. nia.
Qed.

Lemma pages_alloc w m o : pages_ok w -> mem_ok m -> 0 <= o <= 8 ->
  exists r w' m', alloc_slab_pages w m o = Ok (r, w', m') /\ pages_ok w' /\ mem_ok m' /\
    (forall x, ~ page_avail w x -> m' x = m x) /\ (forall x, page_avail w' x -> page_avail w x) /\
    (forall q k, page_block w q k -> page_block w' q k) /\
    match r with
    | Some p => page_block w' p o /\ (forall q k, page_block w q k -> q <> p) /\
                (forall x, p <= x < p + pages_size PAGE_SHIFT o -> page_avail w x /\ m' x = 0)
    | None => True
    end.
Proof.
  intros [Hw [s Hs]] Hm Ho. pose proof (MAX_ORDER_bound a) as HM. pose proof psize_pos as Hps.
  destruct (area_alloc a PAGE_SHIFT cbo_size HHDM_OFFSET Hshift Hcbo o w m (proj1 Hhhdm) Hw ltac:(lia)) as (r & w' & m' & E & Hr & Hw').
  unfold alloc_slab_pages. rewrite E. cbn [mbind outcome_bind]. destruct r as [p|].
  2: { destruct Hr as [-> ->]. exists None, w, m. split; [reflexivity|]. split; [split; eauto|auto]. }
  destruct Hr as [G (k & sk & Hsec & Hsk & F)]. pose proof (gv_static _ _ _ _ _ _ _ G) as S.
  destruct (static_one w _ s S Hs) as (s' & Hs' & Er). assert (Hs1 : one_section w' s') by (destruct Hs'; split; auto).
  assert (Hb : base w' = base w) by (exact (static_base w _ s S Hs)). assert (Ha : forall q, addr w' q = addr w q) by (intros q; unfold addr; rewrite Hb; reflexivity).
  rewrite (os_sections _ _ Hs1) in Hsk. destruct k as [|k]; [|discriminate]. injection Hsk as <-.
  pose proof (pow2_pos o ltac:(lia)) as H2. rewrite (page_addr_one w' s' p Hs1), Ha in F. rewrite <- (block_size o) in F by lia.
  rewrite (page_to_virt_spec a PAGE_SHIFT HHDM_OFFSET Hshift w' 0 s' p (p + 2 ^ o)); [|apply Hhhdm|apply G|rewrite (os_sections _ _ Hs1); reflexivity|exact Hsec|lia|apply Hs1].
  cbn [mbind outcome_bind]. rewrite (page_addr_one w' s' p Hs1), Ha. exists (Some (addr w p)), w', m'. split; [reflexivity|].
  assert (Hin : forall x, addr w p <= x < addr w p + pages_size PAGE_SHIFT o -> page_avail w x).
  { intros x Hx%addr_block; [|lia]. apply avail_page, (gv_free _ _ _ _ _ _ _ G), Hx. }
  assert (Hne : forall q k, used w !! q = Some k -> q <> p) by (intros q k Hq ->; rewrite (gv_new _ _ _ _ _ _ _ G) in Hq; discriminate).
  split; [|split; [|split; [|split; [|split; [|split; [|split]]]]]].
  - split; eauto.
  - eapply filled_ok; [exact Hm| |exact F]. unfold is_u. lia.
  - intros x Hx. rewrite F. wcase; [|reflexivity]. exfalso. apply Hx, Hin. lia.
  - intros x. rewrite !avail_page, Hb. intros H. apply (gv_fpage _ _ _ _ _ _ _ G) in H. tauto.
  - intros q k (q0 & -> & Hq). exists q0. rewrite Ha. split; [reflexivity|]. rewrite (gv_used _ _ _ _ _ _ _ G), lookup_insert_ne by (intros <-; eapply Hne; eauto). exact Hq.
  - exists p. rewrite Ha. split; [reflexivity|]. rewrite (gv_used _ _ _ _ _ _ _ G). apply lookup_insert_eq.
  - intros q k (q0 & -> & Hq) E0. apply (Hne q0 k Hq). unfold addr in E0. nia.
  - intros x Hx. split; [apply Hin, Hx|]. rewrite F. wcase; [reflexivity|lia].
Qed.

Lemma pages_free w m x o : pages_ok w -> mem_ok m -> page_block w x o ->
  exists w' m', free_slab_pages w m x o = Ok (w', m') /\ pages_ok w' /\ mem_ok m' /\
    (forall y, page_avail w' y <-> page_avail w y \/ x <= y < x + pages_size PAGE_SHIFT o) /\
    (forall q k, page_block w q k -> q <> x -> page_block w' q k) /\
    (forall y, ~ page_avail w' y -> m' y = m y).
Proof.
  intros [Hw [s Hs]] Hm (p & -> & Hu). pose proof psize_pos as Hps.
  destruct (block_range w s KUsed p o (ar_inv _ _ _ _ Hw) Hs Hu) as (Ho & Hp0 & Hpe & Hlo & Hhi). pose proof (pow2_pos o ltac:(lia)) as H2.
  destruct (area_free a PAGE_SHIFT HHDM_OFFSET largepage_order p o w Hw Hu) as (w' & E & T & Hw').
  assert (Epfn : phys_to_pfn PAGE_SHIFT (sections w) (addr w p - HHDM_OFFSET) = Ok p).
  { rewrite (os_sections _ _ Hs). cbn [phys_to_pfn]. unfold addr, base. rewrite (os_sections _ _ Hs).
    replace (HHDM_OFFSET + front (srange s) + p * psize - HHDM_OFFSET) with (front (srange s) + p * psize) by lia.
    assert (Hsz : p * psize < size (srange s)).
    { unfold section_pages, PAGE_COUNT in Hpe. rewrite Z.shiftr_div_pow2 in Hpe by lia. fold psize in Hpe.
      assert (p < size (srange s) / psize) as Hd by lia. pose proof (Z.mul_div_le (size (srange s)) psize ltac:(lia)). nia. }
    pose proof (os_range _ _ Hs) as [Hr1 Hr2]. unfold range_has_loc.
    destruct (Z.leb_spec (front (srange s)) (front (srange s) + p * psize)); [|nia].
    replace (front (srange s) + p * psize - front (srange s)) with (p * psize) by lia.
    rewrite !(wrap_small 64 (p * psize)) by (unfold is_u in *; lia). destruct (Z.ltb_spec (p * psize) (size (srange s))); [|lia].
    cbn [andb]. unfold PAGE_COUNT. rewrite (os_pfn _ _ Hs), Z.shiftr_div_pow2 by lia. fold psize. rewrite Z.div_mul by lia.
    rewrite wrap_small; [reflexivity|]. unfold is_u in *. nia. }
  unfold free_slab_pages. rewrite virt_to_phys_ok by lia. cbn [mbind outcome_bind]. rewrite Epfn. cbn [mbind outcome_bind].
  rewrite E. cbn [mbind outcome_bind]. exists w', m. split; [reflexivity|]. pose proof (tk_static _ _ _ _ _ _ T) as S.
  destruct (static_one w _ s S Hs) as (s' & Hs' & Er). assert (Hs1 : one_section w' s') by (destruct Hs'; split; auto).
  assert (Hb : base w' = base w) by (exact (static_base w _ s S Hs)). assert (Ha : forall q, addr w' q = addr w q) by (intros q; unfold addr; rewrite Hb; reflexivity).
  split; [|split; [exact Hm|split; [|split; [|auto]]]].
  - split; eauto.
  - intros y. rewrite !avail_page, Hb, (tk_fpage _ _ _ _ _ _ T), addr_block by lia. reflexivity.
  - intros q k (q0 & -> & Hq) Hne. exists q0. rewrite Ha. split; [reflexivity|]. rewrite (tk_used _ _ _ _ _ _ T), lookup_delete_ne; [exact Hq|].
    intros <-. apply Hne. reflexivity.
Qed.

#[export] Program Instance buddy_pages : PageAllocator := {|
  pheap := world; page_shift := PAGE_SHIFT; Alloc.alloc_pages := alloc_slab_pages; Alloc.free_pages := free_slab_pages;
  pavail := page_avail; pblock := page_block; pheap_ok w m := pages_ok w |}.
Next Obligation. exact Hshift. Qed.
Next Obligation. auto. Qed.
Next Obligation.
  intros w m x o [[I _ _ _] [s Hs]] (p & -> & Hu). destruct (block_range w s KUsed p o I Hs Hu) as (Ho & Hp0 & Hpe & Hlo & Hhi).
  pose proof psize_pos. split; [lia|]. split; [|split; [exact Hhi|]].
  - fold psize. unfold addr, base. rewrite (os_sections _ _ Hs), Z.mod_add by lia. rewrite Z.add_mod, (proj2 Hhhdm), (os_front _ _ Hs) by lia.
    apply Z.mod_0_l. lia.
  - intros y Hy%addr_block; [|lia]. rewrite avail_page. eapply used_not_free; eauto.
Qed.
Next Obligation.
  intros w m x o y o' [[I _ _ _] [s Hs]] (p & -> & Hp) (q & -> & Hq) Hne.
  destruct (block_range w s KUsed p o I Hs Hp) as (Ho & _). destruct (block_range w s KUsed q o' I Hs Hq) as (Ho' & _).
  pose proof psize_pos. rewrite !block_size by lia. unfold addr in *.
  destruct (wi_apart _ _ _ _ _ I KUsed p o KUsed q o' Hp Hq) as [(_ & -> & _)|D]; [done|]. unfold disjoint_blocks in D. nia.
Qed.
Next Obligation. intros w m o. apply pages_alloc. Qed.
Next Obligation. intros w m x o. apply pages_free. Qed.
End Interface.

(** ** Filling the lists at boot: [free_all_pages] of early.c *)

Definition early_free_pages_from_section (p : Z) (k : nat) (order : Z) (w : world) : outcome world := add_to_freelist_order k order p w.
(** [for (; jorder >= 0; jorder--)]: the block ends in the section it begins in. *)
Fixpoint order_in_section (fuel : nat) (p : Z) (k : nat) (jorder : Z) (w : world) : outcome Z :=
  back ← page_to_section (p + Z.shiftl 1 jorder - 1) w;
  if bool_decide (back = k) then Ok jorder
  else match fuel with O => Undef | S fuel => order_in_section fuel p k (jorder - 1) w end.
Fixpoint free_all_loop (fuel : nat) (p : Z) (k : nat) (avail iorder : Z) (w : world) : outcome world :=
  match fuel with
  | O => Diverge
  | S fuel =>
      iorder ← lower_order (Z.to_nat iorder) avail iorder;
      jorder ← order_in_section (Z.to_nat iorder) p k iorder w;
      s ← get_section k w;
      let w := if max_order s <=? u8 jorder then put_section k (put_orders s (min_order s) (u8 (u8 jorder + 1))) w else w in
      let free_count := Z.shiftl 1 jorder in
      w ← early_free_pages_from_section p k jorder w;
      s ← get_section k w;
      let w := if u8 jorder <? min_order s then put_section k (put_orders s (u8 jorder) (max_order s)) w else w in
      let avail := u64 (avail - free_count) in
      if avail =? 0 then Ok w
      else k ← page_to_section (p + free_count) w; free_all_loop fuel (p + free_count) k avail iorder w
  end.
(** The ranges of pages that are free at boot: first page and number of pages. *)
Fixpoint free_all_pages (a : arch) (l : list (Z * Z)) (w : world) : outcome world :=
  match l with
  | [] => Ok w
  | (p, avail) :: l =>
      k ← page_to_section p w;
      w ← free_all_loop (Z.to_nat avail) p k avail (MAX_ORDER a - 1) w;
      free_all_pages a l w
  end.

Section Boot.
Context (a : arch) (PAGE_SHIFT : Z).
Abbreviation winv := (winv a PAGE_SHIFT).
Abbreviation moves := (moves a PAGE_SHIFT).

(** Every page of the range belongs to a section. *)
Definition usable (w : world) (p n : Z) : Prop := forall x, p <= x < p + n -> exists k, in_section PAGE_SHIFT w k x (x + 1).

Lemma usable_section w lo hi p n x k : winv w lo hi -> usable w p n -> p <= x < p + n -> in_section PAGE_SHIFT w k x (x + 1) -> page_to_section x w = Ok k.
Proof.
  intros I Hu Hx Hk. pose proof (in_section_range _ _ _ _ _ _ _ _ I Hk) as Hr. destruct Hk as (s & Hs & H1 & H2 & H3).
  unfold page_to_section, get_pg. destruct (Z.leb_spec 0 x); [|lia]. destruct (Z.ltb_spec x (page_total w)); [|lia].
  cbn [andb mbind outcome_bind]. rewrite H3 by lia. destruct (Z.eqb_spec (Z.of_nat k + 1) 0); [lia|]. cbn. f_equal. lia.
Qed.
(** Sections are intervals: a range that begins and ends in one is in it. *)
Lemma usable_between w lo hi p n q k : winv w lo hi -> usable w p n -> p <= q < p + n ->
  in_section PAGE_SHIFT w k p (p + 1) -> in_section PAGE_SHIFT w k q (q + 1) -> in_section PAGE_SHIFT w k p (q + 1).
Proof.
  intros I Hu Hq (s & Hs & H1 & H2 & H3) (s' & Hs' & H4 & H5 & H6). assert (s' = s) as -> by congruence. exists s.
  split; [exact Hs|]. split; [exact H1|]. split; [exact H5|]. intros x Hx. destruct (Hu x ltac:(lia)) as (k' & Hk').
  assert (k' = k) as -> by (eapply (same_section a PAGE_SHIFT w lo hi k s k' x (x + 1) x I Hs); [lia|exact Hk'|lia]).
  destruct Hk' as (s' & _ & _ & _ & H). apply H. lia.
Qed.

Lemma order_in_section_spec w lo hi p n k : winv w lo hi -> usable w p n -> in_section PAGE_SHIFT w k p (p + 1) ->
  forall fuel j, 0 <= j <= Z.of_nat fuel -> 2 ^ j <= n ->
  exists j', order_in_section fuel p k j w = Ok j' /\ 0 <= j' <= j /\ in_section PAGE_SHIFT w k p (p + 2 ^ j').
Proof.
  intros I Hu Hp. induction fuel as [|fuel IH]; intros j Hj Hn; pose proof (pow2_pos j ltac:(lia)) as H2;
    destruct (Hu (p + 2 ^ j - 1) ltac:(lia)) as (k' & Hk'); cbn [order_in_section]; rewrite Z.shiftl_1_l;
    rewrite (usable_section w lo hi p n (p + 2 ^ j - 1) k' I Hu ltac:(lia) Hk'); cbn [mbind outcome_bind]; case_bool_decide as E.
  - subst k'. exists j. split; [reflexivity|]. split; [lia|]. pose proof (usable_between w lo hi p n (p + 2 ^ j - 1) k I Hu ltac:(lia) Hp Hk') as Hb.
    replace (p + 2 ^ j - 1 + 1) with (p + 2 ^ j) in Hb by lia. exact Hb.
  - exfalso. assert (j = 0) as -> by lia. change (2 ^ 0) with 1 in *. replace (p + 1 - 1) with p in Hk' by lia. apply E.
    pose proof (usable_section w lo hi p n p k I Hu ltac:(lia) Hp) as E1. pose proof (usable_section w lo hi p n p k' I Hu ltac:(lia) Hk') as E2. congruence.
  - subst k'. exists j. split; [reflexivity|]. split; [lia|]. pose proof (usable_between w lo hi p n (p + 2 ^ j - 1) k I Hu ltac:(lia) Hp Hk') as Hb.
    replace (p + 2 ^ j - 1 + 1) with (p + 2 ^ j) in Hb by lia. exact Hb.
  - assert (j <> 0). { intros ->. change (2 ^ 0) with 1 in *. replace (p + 1 - 1) with p in Hk' by lia. apply E.
      pose proof (usable_section w lo hi p n p k I Hu ltac:(lia) Hp) as E1. pose proof (usable_section w lo hi p n p k' I Hu ltac:(lia) Hk') as E2. congruence. }
    pose proof (Z.pow_le_mono_r 2 (j - 1) j ltac:(lia) ltac:(lia)).
    destruct (IH (j - 1) ltac:(lia) ltac:(lia)) as (j' & -> & Hj' & Hs'). exists j'. split; [reflexivity|]. split; [lia|exact Hs'].
Qed.

Lemma free_all_loop_moves : forall fuel p avail iorder k w, winv w p (p + avail) -> usable w p avail -> in_section PAGE_SHIFT w k p (p + 1) ->
  0 <= iorder < MAX_ORDER a -> 1 <= avail <= Z.of_nat fuel ->
  exists w', free_all_loop fuel p k avail iorder w = Ok w' /\ moves w p (p + avail) w' (p + avail) (p + avail).
Proof.
  induction fuel as [|fuel IH]; intros p avail iorder k w I Hu Hp Hi Ha; [lia|]. cbn [free_all_loop].
  destruct (lower_order_spec avail ltac:(lia) (Z.to_nat iorder) iorder ltac:(lia)) as (io & -> & Hio & Hle). cbn [mbind outcome_bind].
  destruct (order_in_section_spec w _ _ p avail k I Hu Hp (Z.to_nat io) io ltac:(lia) Hle) as (j & -> & Hj & Hsec). cbn [mbind outcome_bind].
  pose proof (MAX_ORDER_bound a) as HM. pose proof (pow2_pos j ltac:(lia)) as H2. pose proof (Z.pow_le_mono_r 2 j io ltac:(lia) ltac:(lia)) as Hjp.
  pose proof Hsec as (s & Hs & _). unfold get_section. rewrite Hs. cbn [mbind outcome_bind].
  rewrite !(wrap_small 8) by (unfold is_u; lia).
  cbv zeta. match goal with |- context [early_free_pages_from_section p k j ?x] => set (w1 := x) end.
  assert (A1 : same a w w1) by (subst w1; destruct (_ <=? _); [apply put_orders_same; [exact Hs|lia]|apply same_refl]).
  pose proof (moves_same _ _ _ _ _ _ I A1) as M1. unfold early_free_pages_from_section.
  destruct (add_to_freelist_moves a PAGE_SHIFT w1 p (p + avail) (mo_inv _ _ _ _ _ _ _ _ M1) k p j ltac:(lia) (p + 2 ^ j) (p + avail))
    as (w2 & -> & M2). { eapply static_in_section; [apply M1|exact Hsec]. } { intros x. lia. } { intros x. lia. }
  cbn [mbind outcome_bind]. pose proof (moves_trans _ _ _ _ _ _ _ _ _ _ _ M1 M2) as M3.
  pose proof (static_in_section _ _ _ _ _ _ (mo_static _ _ _ _ _ _ _ _ M3) Hsec) as (s2 & Hs2 & _). rewrite Hs2. cbn [mbind outcome_bind].
  pose proof (wi_total _ _ _ _ _ I) as Ht. destruct (Hu (p + avail - 1) ltac:(lia)) as (ke & Hke).
  pose proof (in_section_range _ _ _ _ _ _ _ _ I Hke). pose proof (in_section_range _ _ _ _ _ _ _ _ I Hsec).
  rewrite Z.shiftl_1_l, (wrap_small 64) by (unfold is_u; lia).
  match goal with |- context [if avail - 2 ^ j =? 0 then Ok ?x else _] => set (w3 := x) end.
  assert (A3 : same a w2 w3) by (subst w3; destruct (_ <? _); [apply put_orders_same; [exact Hs2|lia]|apply same_refl]).
  pose proof (moves_trans _ _ _ _ _ _ _ _ _ _ _ M3 (moves_same _ _ _ _ _ _ (mo_inv _ _ _ _ _ _ _ _ M3) A3)) as M4.
  destruct (Z.eqb_spec (avail - 2 ^ j) 0) as [E0|E0].
  - exists w3. split; [reflexivity|]. replace (p + 2 ^ j) with (p + avail) in M4 by lia. exact M4.
  - destruct (Hu (p + 2 ^ j) ltac:(lia)) as (k' & Hk'). pose proof (static_in_section _ _ _ _ _ _ (mo_static _ _ _ _ _ _ _ _ M4) Hk') as Hk3.
    assert (Hu3 : usable w3 (p + 2 ^ j) (avail - 2 ^ j)).
    { intros x Hx. destruct (Hu x ltac:(lia)) as (kx & Hkx). exists kx. eapply static_in_section; [apply M4|exact Hkx]. }
    rewrite (usable_section w3 _ _ (p + 2 ^ j) (avail - 2 ^ j) (p + 2 ^ j) k' (mo_inv _ _ _ _ _ _ _ _ M4) Hu3 ltac:(lia) Hk3).
    cbn [mbind outcome_bind]. replace (p + avail) with (p + 2 ^ j + (avail - 2 ^ j)) in M4 |- * by lia.
    destruct (IH (p + 2 ^ j) (avail - 2 ^ j) io k' w3 (mo_inv _ _ _ _ _ _ _ _ M4) Hu3 Hk3 ltac:(lia) ltac:(lia)) as (w4 & -> & M5).
    exists w4. split; [reflexivity|]. eapply moves_trans; eauto.
Qed.

(** Pages in no block may become loose. *)
Lemma winv_grow w p n : winv w 0 0 -> (forall x kd q o, p <= x < p + n -> bl w kd q o -> ~ (q <= x < q + 2 ^ o)) ->
  (forall k s, sections w !! k = Some s -> spfn s <> 0 -> ~ (p <= spfn s + section_pages PAGE_SHIFT s < p + n)) -> winv w p (p + n).
Proof.
  intros I Hb Hg. split; try apply I.
  - intros kd q o H. destruct (wi_block _ _ _ _ _ I _ _ _ H) as [Ho _]. pose proof (pow2_pos o ltac:(lia)).
    apply interval_apart; [lia|]. intros x Hx Hx'. exact (Hb x kd q o Hx' H Hx).
  - intros x Hx _ Hst. apply (wi_state _ _ _ _ _ I x Hx); [lia|exact Hst].
  - intros k s Hs Hp. destruct (wi_guard _ _ _ _ _ I k s Hs Hp) as (A & _ & C). split; [exact A|]. split; [apply (Hg k s Hs Hp)|exact C].
Qed.

Lemma free_all_pages_spec w l : winv w 0 0 -> used w = ∅ -> (forall x, ~ fpage w x) ->
  (forall p n, (p, n) ∈ l -> 1 <= n /\ usable w p n /\
    forall k s, sections w !! k = Some s -> spfn s <> 0 -> ~ (p <= spfn s + section_pages PAGE_SHIFT s < p + n)) ->
  ForallOrdPairs (fun b c : Z * Z => disjoint_regions b.1 b.2 c.1 c.2) l ->
  exists w', free_all_pages a l w = Ok w' /\ winv w' 0 0 /\ static w w' /\
    forall x, fpage w' x <-> exists p n, (p, n) ∈ l /\ p <= x < p + n.
Proof.
  intros I0 Hu0 Hf0 Hl0 Hd0.
  assert (Gen : forall l w1, winv w1 0 0 -> static w w1 ->
    (forall p n, (p, n) ∈ l -> 1 <= n /\ usable w p n /\
      forall k s, sections w !! k = Some s -> spfn s <> 0 -> ~ (p <= spfn s + section_pages PAGE_SHIFT s < p + n)) ->
    ForallOrdPairs (fun b c : Z * Z => disjoint_regions b.1 b.2 c.1 c.2) l ->
    (forall x p n, (p, n) ∈ l -> p <= x < p + n -> ~ fpage w1 x) ->
    exists w', free_all_pages a l w1 = Ok w' /\ winv w' 0 0 /\ static w w' /\
      forall x, fpage w' x <-> fpage w1 x \/ exists p n, (p, n) ∈ l /\ p <= x < p + n).
  { clear l Hl0 Hd0. induction l as [|[p n] l IH]; intros w1 I1 S1 Hl Hd Hfr; cbn [free_all_pages].
    - exists w1. split; [reflexivity|]. split; [exact I1|]. split; [exact S1|]. intros x. split; [auto|].
      intros [H|(p & n & H & _)]; [exact H|destruct (not_elem_of_nil _ H)].
    - destruct (Hl p n (list_elem_of_here _ _)) as (Hn & Hu & Hg). inversion Hd as [|? ? Hd1 Hd2]; subst.
      assert (Hu1 : usable w1 p n) by (intros x Hx; destruct (Hu x Hx) as (k & Hk); exists k; eapply static_in_section; eauto).
      destruct (Hu1 p ltac:(lia)) as (k & Hk). rewrite (usable_section w1 0 0 p n p k I1 Hu1 ltac:(lia) Hk). cbn [mbind outcome_bind].
      assert (I2 : winv w1 p (p + n)).
      { apply winv_grow; [exact I1| |].
        - intros x [k'|] q o Hx Hb Hxq; [apply (Hfr x p n (list_elem_of_here _ _) Hx); exists k', q, o; auto|].
          cbn in Hb. rewrite (st_used _ _ S1), Hu0, lookup_empty in Hb. discriminate.
        - intros k' s' Hs' Hp. destruct (st_sections _ _ S1 k' s' Hs') as (s & Hs & _ & E2 & E3). unfold section_pages.
          rewrite E2, E3 in *. exact (Hg k' s Hs Hp). }
      pose proof (MAX_ORDER_bound a).
      destruct (free_all_loop_moves (Z.to_nat n) p n (MAX_ORDER a - 1) k w1 I2 Hu1 Hk ltac:(lia) ltac:(lia)) as (w2 & -> & M).
      cbn [mbind outcome_bind]. pose proof (winv_empty _ _ _ _ 0 (mo_inv _ _ _ _ _ _ _ _ M)) as I3.
      assert (Hf2 : forall x, fpage w2 x <-> fpage w1 x \/ p <= x < p + n).
      { intros x. pose proof (mo_pages _ _ _ _ _ _ _ _ M x) as HM. split; [intros Hx; apply HM; auto|]. intros Hx%HM.
        destruct Hx as [Hx|Hx]; [exact Hx|lia]. }
      destruct (IH w2 I3 (static_trans _ _ _ S1 (mo_static _ _ _ _ _ _ _ _ M))) as (w' & E & I4 & S4 & H4).
      + intros p' n' Hin. apply Hl, list_elem_of_further, Hin.
      + exact Hd2.
      + intros x p' n' Hin Hx. rewrite Hf2. intros [H1|H1]; [exact (Hfr x p' n' (list_elem_of_further _ _ _ Hin) Hx H1)|].
        rewrite list.Forall_forall in Hd1. specialize (Hd1 _ Hin). unfold disjoint_regions in Hd1. cbn in Hd1. lia.
      + exists w'. split; [exact E|]. split; [exact I4|]. split; [exact S4|]. intros x. rewrite H4, Hf2. split.
        * intros [[H1|H1]|(p' & n' & Hin & Hx)]; [auto|right; exists p, n; split; [apply list_elem_of_here|exact H1]|].
          right. exists p', n'. split; [apply list_elem_of_further, Hin|exact Hx].
        * intros [H1|(p' & n' & [[= -> ->]|Hin]%elem_of_cons & Hx)]; [auto|auto|]. right. exists p', n'. auto. }
  destruct (Gen l w I0 (static_refl w) Hl0 Hd0 ltac:(auto)) as (w' & E & I1 & S1 & H). exists w'. split; [exact E|]. split; [exact I1|].
  split; [exact S1|]. intros x. rewrite H. specialize (Hf0 x). tauto.
Qed.
End Boot.

(** ** The allocator as sets of pages

    The abstract state is the set of free pages and the blocks that are out, by first page
    and order. *)

Definition block_pages (p o : Z) : gset Z := list_to_set (seqZ p (2 ^ o)).
Record area := Area { afree : gset Z; ablocks : gmap Z Z }.
Inductive page_request := AllocPages (order : Z) | FreePages (p order : Z).
Inductive area_step (A : area) : page_request -> option Z -> area -> Prop :=
  | alloc_gives o p : block_pages p o ⊆ afree A ->
      area_step A (AllocPages o) (Some p) (Area (afree A ∖ block_pages p o) (<[p:=o]> (ablocks A)))
  | alloc_fails o : area_step A (AllocPages o) None A
  | free_takes p o : ablocks A !! p = Some o ->
      area_step A (FreePages p o) None (Area (afree A ∪ block_pages p o) (delete p (ablocks A))).
Definition may_request (a : arch) (A : area) (r : page_request) : Prop :=
  match r with AllocPages o => 0 <= o < MAX_ORDER a | FreePages p o => ablocks A !! p = Some o end.

Lemma elem_of_block_pages p o x : x ∈ block_pages p o <-> p <= x < p + 2 ^ o.
Proof. unfold block_pages. rewrite elem_of_list_to_set, elem_of_seqZ. reflexivity. Qed.

Section Area.
Context (a : arch) (PAGE_SHIFT cbo_size HHDM_OFFSET : Z) (largepage_order : Z -> Z).

Definition serve_pages (w : world) (m : mem) (r : page_request) : outcome (option Z * world * mem) :=
  match r with
  | AllocPages o => alloc_pages a PAGE_SHIFT cbo_size HHDM_OFFSET PAGE_STATE_SLAB_HEAD __ALLOC_ZERO o w m
  | FreePages p o => w ← free_pages a PAGE_SHIFT largepage_order p o w; Ok (None, w, m)
  end.
Record shows (w : world) (A : area) : Prop := Shows {
  sh_area : area_ok a PAGE_SHIFT HHDM_OFFSET w;
  sh_free : forall x, fpage w x <-> x ∈ afree A;
  sh_blocks : used w = ablocks A }.


(** C11: a zone gives a block exactly when its count of free pages allows one and a free
    block, of the order asked for or above, has an order its section looks at; otherwise
    the state is as it was. *)
Theorem zone_gives w z order state : winv a PAGE_SHIFT w 0 0 -> zones_ok w -> z ∈ zones w -> 0 <= order < MAX_ORDER a -> covers state order ->
  exists r w', try_alloc_pages_from_zone z order state w = Ok (r, w') /\
    (is_Some r <-> 2 ^ order <= ztotal_free z /\ reachable w (section_list z) order) /\ (r = None -> w' = w).
Proof.
  intros I Hz [i Hi]%list_elem_of_lookup Ho Hc. destruct (Hz i z Hi) as (Z1 & Z2 & _). unfold try_alloc_pages_from_zone.
  rewrite Z.shiftl_1_l. pose proof (pow2_pos order ltac:(lia)) as H2.
  destruct (Z.ltb_spec (ztotal_free z) (2 ^ order)) as [Hlt|Hge].
  { exists None, w. split; [reflexivity|]. split; [|auto]. split; [intros [x [=]]|lia]. }
  destruct (section_list z) as [|k0 l] eqn:El; [rewrite Z2 in Hge by reflexivity; lia|]. rewrite <- El in *.
  destruct (try_sections_spec a PAGE_SHIFT state order w I Ho Hc (section_list z) Z1) as (r & w' & E & Hr). rewrite E.
  exists r, w'. split; [reflexivity|]. destruct r as [p|]; destruct Hr as [Hr Hw].
  - split; [|discriminate]. split; [auto|intros _; eauto].
  - split; [|auto]. split; [intros [x [=]]|]. intros [_ H]. destruct (Hr H).
Qed.

End Area.

(** ** A small machine *)

(** Pages of one section, one after the other from page 0, none of them free yet. *)
Definition new_page : page := Page PAGE_STATE_IN_FREE_LIST 1 0 0 0 0.
Definition new_world (a : arch) (n : Z) : world :=
  World (fun _ => new_page) n [page_section_init a 0 (Range (2 ^ 20) (n * 2 ^ 12)) 0] [Zone [0%nat] None 0] ∅.

Section New.
Context (a : arch) (n : Z) (Hn : 0 <= n < 2 ^ 31).
Lemma new_pages s : sections (new_world a n) !! 0%nat = Some s -> section_pages 12 s = n.
Proof. intros [= <-]. unfold section_pages, PAGE_COUNT. cbn [srange page_section_init size]. rewrite Z.shiftr_div_pow2, Z.div_mul by lia. reflexivity. Qed.
Lemma new_section k s : sections (new_world a n) !! k = Some s -> k = 0%nat /\ s = page_section_init a 0 (Range (2 ^ 20) (n * 2 ^ 12)) 0.
Proof. destruct k as [|k]; [intros [= <-]; auto|intros [=]]. Qed.
Lemma new_free x : ~ fpage (new_world a n) x.
Proof.
  intros (k & p & o & (_ & s & f & [_ ->]%new_section & Hf & Hp) & _). cbn in Hf.
  apply lookup_replicate in Hf as [-> _]. destruct (not_elem_of_nil _ Hp).
Qed.
Lemma new_winv : winv a 12 (new_world a n) 0 0.
Proof.
  pose proof (MAX_ORDER_bound a) as HM.
  assert (Hno : forall kd p o, ~ bl (new_world a n) kd p o).
  { intros [k|] p o H; [|cbn in H; rewrite lookup_empty in H; discriminate]. pose proof H as (Ho & _).
    apply (new_free p). exists k, p, o. split; [exact H|]. pose proof (pow2_pos o Ho). lia. }
  split.
  - cbn. lia.
  - intros k s Hs. pose proof (new_section k s Hs) as [-> E]. pose proof (new_pages s Hs) as Hp. subst s. split.
    + cbn. rewrite length_replicate. reflexivity.
    + rewrite Hp. cbn. lia.
    + exists (Zone [0%nat] None 0). split; [reflexivity|discriminate].
    + cbn. lia.
    + intros o f Hf. cbn in Hf. apply lookup_replicate in Hf as [-> _]. split; [constructor|reflexivity].
  - intros k s k' s' [-> _]%new_section [-> _]%new_section Hne. done.
  - intros kd p o H. destruct (Hno _ _ _ H).
  - intros k p o H. destruct (Hno (KFree k) p o H).
  - intros kd p o kd' q o' H. destruct (Hno _ _ _ H).
  - intros kd p o H. destruct (Hno _ _ _ H).
  - intros x _ _ [H|H]; discriminate.
  - intros k s [-> ->]%new_section H. destruct H. reflexivity.
Qed.
Lemma new_zones : zones_ok (new_world a n) /\ zones (new_world a n) <> [].
Proof.
  split; [|discriminate]. intros i z Hi. destruct i as [|i]; [injection Hi as <-|discriminate].
  split; [|split; [discriminate|intros j [=]]]. intros k Hk%list_elem_of_singleton. subst k. eauto.
Qed.
Lemma new_usable p m : 0 <= p -> p + m <= n -> usable 12 (new_world a n) p m.
Proof.
  intros Hp Hm x Hx. exists 0%nat. eexists. split; [reflexivity|]. rewrite new_pages by reflexivity. cbn. split; [lia|]. split; [lia|reflexivity].
Qed.
Lemma new_addr hhdm : 0 <= hhdm < 2 ^ 63 -> forall k s, sections (new_world a n) !! k = Some s -> sec_addr 12 hhdm s.
Proof.
  intros Hh k s Hs. pose proof (new_section k s Hs) as [-> E]. pose proof (new_pages s Hs) as Hp. unfold sec_addr. rewrite Hp.
  subst s. unfold PAGE_SIZE. cbn. lia.
Qed.
(** The machine after all its pages were freed. *)
Lemma new_boot hhdm : 1 <= n -> 0 <= hhdm < 2 ^ 63 -> exists w, free_all_pages a [(0, n)] (new_world a n) = Ok w /\ static (new_world a n) w /\
  area_ok a 12 hhdm w /\ used w = ∅ /\ forall x, fpage w x <-> 0 <= x < n.
Proof.
  intros H1 Hh. destruct (free_all_pages_spec a 12 (new_world a n) [(0, n)] new_winv eq_refl new_free) as (w & E & I & S & Hf).
  - intros p m [= -> ->]%list_elem_of_singleton. split; [lia|]. split; [apply new_usable; lia|].
    intros k s [-> ->]%new_section H. destruct H. reflexivity.
  - constructor; constructor.
  - exists w. split; [exact E|]. split; [exact S|]. destruct (static_area 12 hhdm _ _ S new_zones (new_addr hhdm Hh)) as [Hz Ha].
    pose proof (st_used _ _ S) as Eu. cbn in Eu. split; [split; auto|split; [exact Eu|]].
    { intros p o. rewrite Eu, lookup_empty. discriminate. }
    intros x. rewrite Hf. split; [intros (p & m & [= -> ->]%list_elem_of_singleton & Hx); lia|].
    intros Hx. exists 0, n. split; [apply list_elem_of_here|lia].
Qed.
End New.

Lemma zone_gives_witness : exists w z r w', free_all_pages riscv64 [(0, 8)] (new_world riscv64 8) = Ok w /\ z ∈ zones w /\
  try_alloc_pages_from_zone z 2 PAGE_STATE_SLAB_HEAD w = Ok (r, w') /\ (is_Some r <-> 2 ^ 2 <= ztotal_free z /\ reachable w (section_list z) 2).
Proof.
  destruct (new_boot riscv64 8 ltac:(lia) 0 ltac:(lia) ltac:(lia)) as (w & E & _ & Ha & _). destruct Ha as [I [Hz Hne] _ _].
  destruct (zones w) as [|z l] eqn:Ez; [destruct (Hne eq_refl)|]. assert (Hin : z ∈ zones w) by (rewrite Ez; apply list_elem_of_here).
  destruct (zone_gives riscv64 12 w z 2 PAGE_STATE_SLAB_HEAD I Hz Hin) as (r & w' & H1 & H2 & _); [pose proof (MAX_ORDER_bound riscv64); lia|left; reflexivity|].
  exists w, z, r, w'. auto.
Defined.

(** *** Counts and orders that go wrong *)

Definition boot_then {A} (l : list (Z * Z)) (w : world) (f : world -> outcome A) : outcome A := w ← free_all_pages x86_64 l w; f w.
Definition take_pages (o : Z) (w : world) : outcome (option Z * world) :=
  '(r, w, _) ← alloc_pages x86_64 12 0 (2 ^ 32) PAGE_STATE_SLAB_HEAD __ALLOC_ZERO o w (fun _ => 0); Ok (r, w).
Definition give_pages (p o : Z) (w : world) : outcome world := free_pages x86_64 12 (fun _ => 9) p o w.

(** [free_pages] of a block that joins no other does not set the orders of the section: a
    machine whose 8 pages were handed out as one block and freed has no block to give. *)
Lemma freed_block_lost : boot_then [(0, 8)] (new_world x86_64 8) (fun w =>
    '(r1, w) ← take_pages 3 w; w ← give_pages 0 3 w; '(r2, w) ← take_pages 3 w; '(r3, w) ← take_pages 0 w;
    Ok (r1, r2, r3, map ztotal_free (zones w))) = Ok (Some 0, None, None, [8]).
Proof. vm_compute. reflexivity. Qed.
(** Pages of a block that is joined are counted a second time. *)
Lemma joined_pages_counted_twice : boot_then [(0, 8)] (new_world x86_64 8) (fun w =>
    '(r, w) ← take_pages 0 w; w ← give_pages 0 0 w; Ok (r, map ztotal_free (zones w), map stotal_free (sections w))) = Ok (Some 0, [9], [9]).
Proof. vm_compute. reflexivity. Qed.
(** The order-1 block before a freed pair is not joined with it. *)
Lemma previous_pair_not_joined : boot_then [(0, 4)] (new_world x86_64 8) (fun w =>
    '(_, w) ← take_pages 1 w; '(r, w) ← take_pages 1 w; w ← give_pages 0 1 w; w ← give_pages 2 1 w;
    Ok (r, map (fun s => map page_list (take 3 (freelist_list s))) (sections w))) = Ok (Some 2, [[[]; [2; 0]; []]]).
Proof. vm_compute. reflexivity. Qed.
(** Sections of 4 pages; the block freed is the second section's: the end of the freed block within
    its section is compared with the number of the section's last page in the table, and the
    page after the section is taken for a page of it. *)
Definition three_sections : world :=
  World (fun p => Page PAGE_STATE_IN_FREE_LIST (if p <? 4 then 1 else if p <? 8 then 2 else 3) 0 0 0 0) 12
    [page_section_init x86_64 0 (Range (2 ^ 20) (4 * 2 ^ 12)) 0; page_section_init x86_64 0 (Range (2 ^ 21) (4 * 2 ^ 12)) 4;
     page_section_init x86_64 0 (Range (2 ^ 22) (4 * 2 ^ 12)) 8] [Zone [1%nat; 2%nat; 0%nat] None 0] ∅.
Lemma free_past_section : boot_then [(4, 4); (8, 1)] three_sections (fun w => '(r, w) ← take_pages 2 w; Ok r) = Ok (Some 4) /\
  boot_then [(4, 4); (8, 1)] three_sections (fun w => '(_, w) ← take_pages 2 w; give_pages 4 2 w) = Undef.
Proof. vm_compute. auto. Qed.
