(* ===== verification/Slab.v ===== *)
(** * Slab allocators: kernel/src/mm/slab.c

    A slab is a block of pages divided into objects of one size; its free objects form
    a linked list through their own memory, by index.  An allocator is named by its
    index, a slab by the address of its first page, which is where [virt_to_page] takes
    an object of it: objects of a slab of several pages begin in the first one
    ([object_page]).  The list of slabs with a free object is the sequence of its
    members; Lists.v shows that list.h keeps such sequences.  The functions run under
    the allocator's spinlock.  [sp_free_list] is the list of free indices, which no
    operation reads.  The page allocator is the
    interface of Alloc.v. *)

From stdpp Require Import gmap list.
From S2P Require Import Prelude Mem Alloc Arith KStdlib.

(** ** State *)

Definition FREE_SLAB_HEADER : Z := 0xcafefeed.
Definition FREE_SLAB_FOOTER : Z := 0xfeedcafe.
Definition UINT32_MAX : Z := 2 ^ 32 - 1.
Definition SLAB_ALIGNMENT : Z := 16.
Definition MIN_OBJ_PER_SLAB : Z := 1.

(** The [slab] part of the first [struct page] of a slab. *)
Record slab_page := SlabPage {
  first_free_index : Z; sp_free_obj_count : Z; sp_allocator : nat; sp_free_list : list Z }.
Record slab_allocator := SlabAllocator {
  free_slab_head_list : list Z; object_size : Z; object_count_per_slab : Z; slab_order : Z;
  free_obj_count : Z; slab_count : Z }.

Section Slab.
Context `{PA : PageAllocator} (a : arch) (cbo_size : Z).

Definition PAGE_SIZE : Z := 2 ^ page_shift.

Record kheap := KHeap { allocators : list slab_allocator; slab_pages : gmap Z slab_page; ph : pheap }.

Definition set_alloc (k : nat) (al : slab_allocator) (h : kheap) : kheap :=
  KHeap (<[k:=al]> (allocators h)) (slab_pages h) (ph h).
Definition set_page (p : Z) (sp : slab_page) (h : kheap) : kheap :=
  KHeap (allocators h) (<[p:=sp]> (slab_pages h)) (ph h).
Definition get_alloc (k : nat) (h : kheap) : outcome slab_allocator :=
  match allocators h !! k with Some al => Ok al | None => Undef end.
Definition get_page (p : Z) (h : kheap) : outcome slab_page :=
  match slab_pages h !! p with Some sp => Ok sp | None => Undef end.

(** ** Operations *)

(** [*free_obj = FREE_SLAB_OBJECT_INIT(next)] *)
Definition put_free_object (m : mem) (obj next : Z) : mem :=
  store 4 (store 4 (store 4 m obj FREE_SLAB_HEADER) (obj + 4) next) (obj + 8) FREE_SLAB_FOOTER.
Definition zero_free_object (m : mem) (obj : Z) : mem :=
  store 4 (store 4 (store 4 m obj 0) (obj + 4) 0) (obj + 8) 0.

Definition verify_free_object (m : mem) (obj : Z) (al : slab_allocator) : outcome unit :=
  _ ← c_assert (load 4 m obj =? FREE_SLAB_HEADER);
  _ ← c_assert (load 4 m (obj + 8) =? FREE_SLAB_FOOTER);
  if negb (load 4 m (obj + 4) =? UINT32_MAX)
  then c_assert (index_in_bounds (load 4 m (obj + 4)) (object_count_per_slab al)) else Ok tt.

Definition get_free_obj_byte_index (al : slab_allocator) (index : Z) : outcome Z :=
  check_mul_assert_w 32 index (object_size al).
(** [None] is NULL. *)
Definition get_free_ptr_from_index (page : Z) (al : slab_allocator) (index : Z) : outcome (option Z) :=
  if negb (index =? UINT32_MAX) then i ← get_free_obj_byte_index al index; Ok (Some (page + i)) else Ok None.
Definition get_free_object (m : mem) (page : Z) (sp : slab_page) (al : slab_allocator) : outcome Z :=
  result ← get_free_ptr_from_index page al (first_free_index sp);
  match result with
  | Some obj => _ ← verify_free_object m obj al; Ok obj
  | None => Undef
  end.

(** [for (; (PAGE_SIZE << order) < min_size_for_slab; order++) {}] *)
Fixpoint order_loop (fuel : nat) (min_size order : Z) : outcome Z :=
  if u64 (Z.shiftl PAGE_SIZE order) <? min_size
  then match fuel with O => Diverge | S fuel => order_loop fuel min_size (u8 (order + 1)) end
  else Ok order.

(** [slab_count] is left as it was. *)
Definition slab_allocator_init (old : slab_allocator) (object_size_arg : Z) : outcome (option slab_allocator) :=
  aligned ← align_up object_size_arg SLAB_ALIGNMENT;
  match aligned with
  | None => Ok None
  | Some object_size =>
      if UINT32_MAX <? object_size then Ok None
      else match check_mul_w 32 object_size MIN_OBJ_PER_SLAB with
      | None => Ok None
      | Some min_size_for_slab =>
          order ← order_loop 64 min_size_for_slab 0;
          if object_size =? 0 then Undef else
          Ok (Some (SlabAllocator [] object_size (u32 (u64 (Z.shiftl PAGE_SIZE order) / object_size)) order 0
                      (slab_count old)))
      end
  end.

(** The loop that links the objects: [todo] of them are left before the last. *)
Fixpoint link_objects (todo : nat) (i byte_index size head : Z) (m : mem) : mem * Z :=
  match todo with
  | O => (m, byte_index)
  | S todo => link_objects todo (u32 (i + 1)) (u64 (byte_index + size)) size head
                (put_free_object m (head + byte_index) (u32 (i + 1)))
  end.

Definition alloc_slab_page (k : nat) (h : kheap) (m : mem) : outcome (option Z * kheap * mem) :=
  al ← get_alloc k h;
  '(r, ph', m) ← alloc_pages (ph h) m (slab_order al);
  let h := KHeap (allocators h) (slab_pages h) ph' in
  match r with
  | None => Ok (None, h, m)
  | Some head =>
      let count := object_count_per_slab al in
      let al := SlabAllocator (head :: free_slab_head_list al) (object_size al) count (slab_order al)
                  (u32 (free_obj_count al + count)) (u32 (slab_count al + 1)) in
      let h := set_page head (SlabPage 0 count k (seqZ 0 count)) (set_alloc k al h) in
      let '(m, byte_index) := link_objects (Z.to_nat (u32 (count - 1))) 0 0 (object_size al) head m in
      Ok (Some head, h, put_free_object m (head + byte_index) UINT32_MAX)
  end.

(** The slab to allocate from: the first with a free object, or a new one. *)
Definition slab_with_free (k : nat) (h : kheap) (m : mem) : outcome (option Z * kheap * mem) :=
  al ← get_alloc k h;
  match free_slab_head_list al with
  | [] => alloc_slab_page k h m
  | head :: _ => Ok (Some head, h, m)
  end.

(** The counts, and taking a slab that has no free object left off the list. *)
Definition count_allocation (k : nat) (head : Z) (h : kheap) : outcome kheap :=
  al ← get_alloc k h;
  sp ← get_page head h;
  let count := u32 (sp_free_obj_count sp - 1) in
  let list := if count =? 0 then filter (.≠ head) (free_slab_head_list al) else free_slab_head_list al in
  let al := SlabAllocator list (object_size al) (object_count_per_slab al) (slab_order al)
              (u32 (free_obj_count al - 1)) (slab_count al) in
  Ok (set_page head (SlabPage (first_free_index sp) count (sp_allocator sp) (sp_free_list sp)) (set_alloc k al h)).

Definition slab_alloc (k : nat) (h : kheap) (m : mem) : outcome (option Z * kheap * mem) :=
  '(r, h, m) ← slab_with_free k h m;
  match r with
  | None => Ok (None, h, m)
  | Some head =>
      h ← count_allocation k head h;
      al ← get_alloc k h;
      sp ← get_page head h;
      result ← get_free_object m head sp al;
      let sp := SlabPage (load 4 m (result + 4)) (sp_free_obj_count sp) (sp_allocator sp) (tail (sp_free_list sp)) in
      Ok (Some result, set_page head sp h, zero_free_object m result)
  end.

(** The page and the offset in it. *)
Definition slab_alloc2 (k : nat) (h : kheap) (m : mem) : outcome (option (Z * Z) * kheap * mem) :=
  '(r, h, m) ← slab_with_free k h m;
  match r with
  | None => Ok (None, h, m)
  | Some head =>
      h ← count_allocation k head h;
      al ← get_alloc k h;
      sp ← get_page head h;
      offset ← get_free_obj_byte_index al (first_free_index sp);
      let result := head + offset in
      let sp := SlabPage (load 4 m (result + 4)) (sp_free_obj_count sp) (sp_allocator sp) (tail (sp_free_list sp)) in
      Ok (Some (head, offset), set_page head sp h, zero_free_object m result)
  end.

(** [slab_head_of]: the page of an object that begins in the first page of its slab. *)
Definition slab_head_of (mem_ : Z) : Z := mem_ - mem_ mod PAGE_SIZE.

Definition slab_free (h : kheap) (m : mem) (mem_ : Z) : outcome (kheap * mem) :=
  let head := slab_head_of mem_ in
  sp ← get_page head h;
  al ← get_alloc (sp_allocator sp) h;
  m ← bzero a cbo_size m mem_ (object_size al);
  let alloc_count := u32 (free_obj_count al + 1) in
  let count := u32 (sp_free_obj_count sp + 1) in
  let index := u32 (u64 (mem_ - head) / object_size al) in
  let link list h :=
    let al := SlabAllocator list (object_size al) (object_count_per_slab al) (slab_order al)
                alloc_count (slab_count al) in
    let sp' := SlabPage index count (sp_allocator sp) (index :: sp_free_list sp) in
    Ok (set_page head sp' (set_alloc (sp_allocator sp) al h), put_free_object m mem_ (first_free_index sp)) in
  if negb (count =? 1) then
    if count =? object_count_per_slab al then
      let al := SlabAllocator (filter (.≠ head) (free_slab_head_list al)) (object_size al)
                  (object_count_per_slab al) (slab_order al)
                  (u32 (alloc_count - object_count_per_slab al)) (u32 (slab_count al - 1)) in
      '(ph', m) ← free_pages (ph h) m head (slab_order al);
      Ok (KHeap (<[sp_allocator sp:=al]> (allocators h)) (delete head (slab_pages h)) ph', m)
    else link (free_slab_head_list al) h
  else link (head :: free_slab_head_list al) h.

Definition slab_object_size (h : kheap) (mem_ : Z) : outcome Z :=
  if mem_ =? 0 then Panic else
  sp ← get_page (slab_head_of mem_) h;
  al ← get_alloc (sp_allocator sp) h;
  Ok (object_size al).
End Slab.

(** ** The invariant *)

(** A free object that is followed by [next]; what its link does not cover is zero. *)
Definition free_object (m : mem) (obj size next : Z) : Prop :=
  load 4 m obj = FREE_SLAB_HEADER /\ load 4 m (obj + 4) = next /\ load 4 m (obj + 8) = FREE_SLAB_FOOTER /\
  forall x, obj + 12 <= x < obj + size -> m x = 0.
Definition head_index (l : list Z) : Z := match l with [] => UINT32_MAX | i :: _ => i end.
(** The list of free objects of the slab at [p]. *)
Fixpoint free_chain (m : mem) (p size : Z) (l : list Z) : Prop :=
  match l with
  | [] => True
  | i :: l => free_object m (p + i * size) size (head_index l) /\ free_chain m p size l
  end.

Lemma load4_ext m m' x y : (forall i, 0 <= i < 4 -> m' (x + i) = m (x + i)) -> load 4 m x = y -> load 4 m' x = y.
Proof. intros H <-. apply load_ext. intros i Hi. apply H. lia. Qed.

Lemma free_object_ext m m' obj size next : 12 <= size ->
  (forall x, obj <= x < obj + size -> m' x = m x) -> free_object m obj size next -> free_object m' obj size next.
Proof.
  intros Hs H (H1 & H2 & H3 & H4). unfold free_object.
  split; [|split; [|split]].
  - eapply load4_ext; [|exact H1]. intros i Hi. apply H. lia.
  - eapply load4_ext; [|exact H2]. intros i Hi. apply H. lia.
  - eapply load4_ext; [|exact H3]. intros i Hi. apply H. lia.
  - intros x Hx. rewrite H by lia. auto.
Qed.
Lemma free_chain_ext m m' p size l : 12 <= size ->
  (forall i x, i ∈ l -> p + i * size <= x < p + i * size + size -> m' x = m x) ->
  free_chain m p size l -> free_chain m' p size l.
Proof.
  intros Hs. induction l as [|i l IH]; intros H Hc; [exact Logic.I|]. destruct Hc as [Ho Hc]. split.
  - eapply free_object_ext; [exact Hs| |exact Ho]. intros x Hx. apply (H i); [apply list_elem_of_here|exact Hx].
  - apply IH; [|exact Hc]. intros j x Hj Hx. apply (H j); [apply list_elem_of_further, Hj|exact Hx].
Qed.

(** The link written and erased. *)
Lemma put_free_object_spec m obj next x :
  put_free_object m obj next x = if within obj 12 x then put_free_object (fun _ => 0) obj next x else m x.
Proof. unfold put_free_object. rewrite !store_spec. wcase; try lia; reflexivity. Qed.
Lemma put_free_object_free m obj size next : is_u32 next ->
  (forall x, obj + 12 <= x < obj + size -> m x = 0) -> free_object (put_free_object m obj next) obj size next.
Proof.
  intros Hn Hz. unfold put_free_object, free_object. split; [|split; [|split]].
  - rewrite !load_store_ne, load_store by (cbn; lia). reflexivity.
  - rewrite load_store_ne, load_store by (cbn; lia). apply Z.mod_small. exact Hn.
  - rewrite load_store. reflexivity.
  - intros x Hx. rewrite !store_spec. wcase; try lia. auto.
Qed.
Lemma put_free_object_ok m obj next : mem_ok m -> mem_ok (put_free_object m obj next).
Proof. intros H. unfold put_free_object. auto with aph. Qed.
Lemma zero_free_object_spec m obj x : zero_free_object m obj x = if within obj 12 x then 0 else m x.
Proof. unfold zero_free_object. rewrite !store_spec. wcase; try lia; rewrite ?Z.div_0_l by (apply Z.pow_nonzero; lia); reflexivity. Qed.
Lemma zero_free_object_ok m obj : mem_ok m -> mem_ok (zero_free_object m obj).
Proof. intros H. unfold zero_free_object. auto with aph. Qed.

Section Invariant.
Context `{PA : PageAllocator} (a : arch) (cbo_size : Z).

(** The sizes of an allocator: at least the link fits an object, and the objects of a
    slab fit it; a slab of several pages has one object. *)
Record sizes_ok (al : slab_allocator) : Prop := SizesOk {
  so_size : 16 <= object_size al < 2 ^ 31;
  so_count : 1 <= object_count_per_slab al < 2 ^ 31;
  so_fit : object_count_per_slab al * object_size al <= pages_size page_shift (slab_order al);
  so_order : 0 <= slab_order al <= 8;
  so_single : slab_order al <> 0 -> object_count_per_slab al = 1 }.

(** The addresses of object [i] of the slab at [p]. *)
Definition in_object (al : slab_allocator) (p i x : Z) : Prop :=
  p + i * object_size al <= x < p + i * object_size al + object_size al.
Definition in_slab (al : slab_allocator) (p x : Z) : Prop := p <= x < p + pages_size page_shift (slab_order al).

Record page_ok (h : kheap) (m : mem) (p : Z) (sp : slab_page) (al : slab_allocator) : Prop := PageOk {
  po_alloc : allocators h !! sp_allocator sp = Some al;
  po_block : pblock (ph h) p (slab_order al);
  po_nodup : NoDup (sp_free_list sp);
  po_bound : Forall (fun i => 0 <= i < object_count_per_slab al) (sp_free_list sp);
  po_first : first_free_index sp = head_index (sp_free_list sp);
  po_count : sp_free_obj_count sp = Z.of_nat (length (sp_free_list sp));
  po_chain : free_chain m p (object_size al) (sp_free_list sp);
  po_listed : p ∈ free_slab_head_list al <-> sp_free_list sp <> [] }.

Record alloc_ok (h : kheap) (k : nat) (al : slab_allocator) : Prop := AllocOk {
  ao_sizes : sizes_ok al;
  ao_nodup : NoDup (free_slab_head_list al);
  ao_listed : forall p, p ∈ free_slab_head_list al -> exists sp, slab_pages h !! p = Some sp /\ sp_allocator sp = k }.

Record kheap_ok (h : kheap) (m : mem) : Prop := KHeapOk {
  ko_pages : pheap_ok (ph h) m;
  ko_alloc : forall k al, allocators h !! k = Some al -> alloc_ok h k al;
  ko_page : forall p sp, slab_pages h !! p = Some sp -> exists al, page_ok h m p sp al }.

(** An object that is handed out, and the addresses that are not. *)
Definition live (h : kheap) (p n : Z) : Prop :=
  exists q sp al i, slab_pages h !! q = Some sp /\ allocators h !! sp_allocator sp = Some al /\
    0 <= i < object_count_per_slab al /\ (i ∉ sp_free_list sp) /\
    p = q + i * object_size al /\ n = object_size al.
Definition kavail (h : kheap) (x : Z) : Prop :=
  pavail (ph h) x \/
  exists q sp al, slab_pages h !! q = Some sp /\ allocators h !! sp_allocator sp = Some al /\ in_slab al q x /\
    forall i, 0 <= i < object_count_per_slab al -> i ∉ sp_free_list sp -> ~ in_object al q i x.

Lemma object_in_slab al p i x : sizes_ok al -> 0 <= i < object_count_per_slab al -> in_object al p i x -> in_slab al p x.
Proof. intros [Hs Hc Hf _ _] Hi Hx. unfold in_object, in_slab in *. nia. Qed.
Lemma objects_disjoint al p i j x : 0 < object_size al -> in_object al p i x -> in_object al p j x -> i = j.
Proof. unfold in_object. intros Hs Hi Hj. nia. Qed.

(** Objects begin in the first page of their slab. *)
Lemma object_page al p i : sizes_ok al -> 0 <= i < object_count_per_slab al -> p mod PAGE_SIZE = 0 ->
  slab_head_of (p + i * object_size al) = p.
Proof.
  intros [Hs Hc Hf Ho H1] Hi Hp. unfold slab_head_of, PAGE_SIZE in *. pose proof page_shift_ok as Hsh.
  assert (Hpos : 0 < 2 ^ page_shift) by (apply Z.pow_pos_nonneg; lia).
  assert (Hr : 0 <= i * object_size al < 2 ^ page_shift).
  { destruct (Z.eq_dec (slab_order al) 0) as [E|E].
    - unfold pages_size in Hf. rewrite E, Z.add_0_r in Hf. nia.
    - rewrite (H1 E) in Hi. assert (i = 0) as -> by lia. lia. }
  rewrite Z.add_mod, Hp, Z.add_0_l, Z.mod_mod, Z.mod_small by lia. lia.
Qed.

Section State.
Context (h : kheap) (m : mem) (Ok_ : kheap_ok h m).

Lemma slabs_disjoint p sp al q sq bl x : page_ok h m p sp al -> page_ok h m q sq bl -> p <> q ->
  in_slab al p x -> ~ in_slab bl q x.
Proof.
  intros Hp Hq Hne. unfold in_slab. pose proof (pblock_disjoint _ _ _ _ _ _ (ko_pages _ _ Ok_)
    (po_block _ _ _ _ _ Hp) (po_block _ _ _ _ _ Hq) Hne). lia.
Qed.
Lemma slab_not_pavail p sp al x : page_ok h m p sp al -> in_slab al p x -> ~ pavail (ph h) x.
Proof.
  intros Hp Hx. destruct (pblock_ok _ _ _ _ (ko_pages _ _ Ok_) (po_block _ _ _ _ _ Hp)) as (_ & _ & _ & H).
  apply H. exact Hx.
Qed.
Lemma page_sizes p sp al : page_ok h m p sp al -> sizes_ok al.
Proof. intros Hp. exact (ao_sizes _ _ _ (ko_alloc _ _ Ok_ _ _ (po_alloc _ _ _ _ _ Hp))). Qed.

Lemma free_bound p sp al i : page_ok h m p sp al -> i ∈ sp_free_list sp -> 0 <= i < object_count_per_slab al.
Proof. intros Hp. exact (proj1 (list.Forall_forall _ _) (po_bound _ _ _ _ _ Hp) i). Qed.
(** Free objects are available. *)
Lemma free_available p sp al i x : slab_pages h !! p = Some sp -> page_ok h m p sp al -> i ∈ sp_free_list sp ->
  in_object al p i x -> kavail h x.
Proof.
  intros Hsp Hp Hi Hx. right. exists p, sp, al. split; [exact Hsp|]. split; [apply Hp|].
  pose proof (page_sizes _ _ _ Hp) as Hs. pose proof (free_bound _ _ _ _ Hp Hi) as Hb.
  split; [eapply object_in_slab; eauto|]. intros j Hj Hnj Hxj.
  assert (j = i) by (eapply objects_disjoint; eauto; destruct Hs; lia). congruence.
Qed.

Lemma kheap_frame m' : (forall x, kavail h x -> m' x = m x) -> kheap_ok h m'.
Proof.
  intros H. split.
  - eapply pheap_frame; [apply Ok_|]. intros x Hx. apply H. left. exact Hx.
  - apply Ok_.
  - intros p sp Hsp. destruct (ko_page _ _ Ok_ _ _ Hsp) as [al Hp]. exists al. split; try apply Hp.
    eapply free_chain_ext; [pose proof (page_sizes _ _ _ Hp) as []; lia| |apply Hp].
    intros i x Hi Hx. apply H. eapply free_available; eauto.
Qed.

(** Changing one slab, its memory, and what its allocator lists and counts. *)
Section Update.
Context (p : Z) (sp sp' : slab_page) (al al' : slab_allocator) (m' : mem).
Context (Hsp : slab_pages h !! p = Some sp) (Hp : page_ok h m p sp al).
Context (same_alloc : sp_allocator sp' = sp_allocator sp) (same_size : object_size al' = object_size al)
  (same_count : object_count_per_slab al' = object_count_per_slab al) (same_order : slab_order al' = slab_order al).
Context (only_slab : forall x, ~ in_slab al p x -> m' x = m x).
Context (list_nodup : NoDup (free_slab_head_list al'))
  (list_others : forall q, q <> p -> q ∈ free_slab_head_list al' <-> q ∈ free_slab_head_list al)
  (list_this : p ∈ free_slab_head_list al' <-> sp_free_list sp' <> []).
Context (new_nodup : NoDup (sp_free_list sp'))
  (new_bound : Forall (fun i => 0 <= i < object_count_per_slab al) (sp_free_list sp'))
  (new_first : first_free_index sp' = head_index (sp_free_list sp'))
  (new_count : sp_free_obj_count sp' = Z.of_nat (length (sp_free_list sp')))
  (new_chain : free_chain m' p (object_size al) (sp_free_list sp')).

Definition updated : kheap := set_page p sp' (set_alloc (sp_allocator sp) al' h).

Lemma updated_sizes : sizes_ok al -> sizes_ok al'.
Proof. intros [H1 H2 H3 H4 H5]. split; rewrite ?same_size, ?same_count, ?same_order; auto. Qed.

Lemma updated_ok : kheap_ok updated m'.
Proof.
  assert (Hk : (sp_allocator sp < length (allocators h))%nat) by (eapply lookup_lt_Some, Hp).
  split.
  - eapply pheap_frame; [apply Ok_|]. intros x Hx. apply only_slab. intros Hin.
    eapply slab_not_pavail; eauto.
  - intros k bl Hk'. cbn in Hk'. destruct (decide (k = sp_allocator sp)) as [->|Hne].
    + rewrite list_lookup_insert_eq in Hk' by exact Hk. injection Hk' as <-.
      pose proof (ko_alloc _ _ Ok_ _ _ (po_alloc _ _ _ _ _ Hp)) as [Hs _ Hl]. split; [apply updated_sizes, Hs|exact list_nodup|].
      intros q Hq. cbn. destruct (decide (q = p)) as [->|Hqp].
      * exists sp'. rewrite lookup_insert_eq. auto.
      * rewrite lookup_insert_ne by auto. apply Hl. apply list_others; auto.
    + rewrite list_lookup_insert_ne in Hk' by auto. destruct (ko_alloc _ _ Ok_ _ _ Hk') as [Hs Hn Hl].
      split; [exact Hs|exact Hn|]. intros q Hq. cbn. destruct (Hl q Hq) as (sq & Hsq & Hal).
      destruct (decide (q = p)) as [->|Hqp]; [congruence|]. rewrite lookup_insert_ne by auto. eauto.
  - intros q sq Hq. cbn in Hq. destruct (decide (q = p)) as [->|Hqp].
    + rewrite lookup_insert_eq in Hq. injection Hq as <-. exists al'. split; auto.
      * cbn. rewrite same_alloc. apply list_lookup_insert_eq, Hk.
      * cbn. rewrite same_order. apply Hp.
      * rewrite same_count. exact new_bound.
      * rewrite same_size. exact new_chain.
    + rewrite lookup_insert_ne in Hq by auto. destruct (ko_page _ _ Ok_ _ _ Hq) as [bl Hbl].
      assert (Hext : free_chain m' q (object_size bl) (sp_free_list sq)).
      { pose proof (page_sizes _ _ _ Hbl) as Hs. eapply free_chain_ext; [destruct Hs; lia| |apply Hbl].
        intros i x Hi Hx. apply only_slab. eapply slabs_disjoint; [exact Hbl|exact Hp|exact Hqp|].
        eapply object_in_slab; [exact Hs| |exact Hx].
        eapply free_bound; eauto. }
      destruct (decide (sp_allocator sq = sp_allocator sp)) as [E|E].
      * assert (bl = al) as -> by (pose proof (po_alloc _ _ _ _ _ Hbl); pose proof (po_alloc _ _ _ _ _ Hp); congruence).
        exists al'. destruct Hbl. split; auto; cbn; rewrite ?same_size, ?same_count, ?same_order; auto.
        -- rewrite E. apply list_lookup_insert_eq, Hk.
        -- rewrite list_others by auto. exact po_listed0.
      * exists bl. destruct Hbl. split; auto. cbn. rewrite list_lookup_insert_ne by auto. exact po_alloc0.
Qed.

(** The other slabs' objects stay handed out, those of this slab by its new list. *)
Lemma updated_lookup q sq bl : slab_pages updated !! q = Some sq -> allocators updated !! sp_allocator sq = Some bl ->
  (q = p /\ sq = sp' /\ bl = al') \/
  (q <> p /\ slab_pages h !! q = Some sq /\ exists cl, allocators h !! sp_allocator sq = Some cl /\
    object_size bl = object_size cl /\ object_count_per_slab bl = object_count_per_slab cl /\ slab_order bl = slab_order cl).
Proof.
  assert (Hk : (sp_allocator sp < length (allocators h))%nat) by (eapply lookup_lt_Some, Hp).
  cbn. intros Hq Hb. destruct (decide (q = p)) as [->|Hqp].
  - left. rewrite lookup_insert_eq in Hq. injection Hq as <-. rewrite same_alloc, list_lookup_insert_eq in Hb by exact Hk.
    injection Hb as <-. auto.
  - right. rewrite lookup_insert_ne in Hq by auto. split; [exact Hqp|]. split; [exact Hq|].
    destruct (decide (sp_allocator sq = sp_allocator sp)) as [E|E].
    + rewrite E, list_lookup_insert_eq in Hb by exact Hk. injection Hb as <-. exists al. rewrite E. split; [apply Hp|auto].
    + rewrite list_lookup_insert_ne in Hb by auto. eauto.
Qed.
Lemma updated_keep q sq cl : q <> p -> slab_pages h !! q = Some sq -> allocators h !! sp_allocator sq = Some cl ->
  slab_pages updated !! q = Some sq /\ exists bl, allocators updated !! sp_allocator sq = Some bl /\
    object_size bl = object_size cl /\ object_count_per_slab bl = object_count_per_slab cl /\ slab_order bl = slab_order cl.
Proof.
  assert (Hk : (sp_allocator sp < length (allocators h))%nat) by (eapply lookup_lt_Some, Hp).
  intros Hqp Hq Hc. cbn. rewrite lookup_insert_ne by auto. split; [exact Hq|].
  destruct (decide (sp_allocator sq = sp_allocator sp)) as [E|E].
  - exists al'. rewrite E, list_lookup_insert_eq by exact Hk. pose proof (po_alloc _ _ _ _ _ Hp).
    assert (cl = al) as -> by congruence. auto.
  - exists cl. rewrite list_lookup_insert_ne by auto. auto.
Qed.
Lemma updated_this : slab_pages updated !! p = Some sp' /\ allocators updated !! sp_allocator sp' = Some al'.
Proof.
  cbn. rewrite lookup_insert_eq, same_alloc. split; [reflexivity|]. apply list_lookup_insert_eq. eapply lookup_lt_Some, Hp.
Qed.

Lemma updated_live q n :
  live updated q n <->
  (exists i, 0 <= i < object_count_per_slab al /\ (i ∉ sp_free_list sp') /\ q = p + i * object_size al /\ n = object_size al) \/
  (exists r sr bl i, r <> p /\ slab_pages h !! r = Some sr /\ allocators h !! sp_allocator sr = Some bl /\
    0 <= i < object_count_per_slab bl /\ (i ∉ sp_free_list sr) /\ q = r + i * object_size bl /\ n = object_size bl).
Proof.
  split.
  - intros (r & sr & bl & i & Hr & Hb & Hi & Hf & -> & ->).
    destruct (updated_lookup _ _ _ Hr Hb) as [(-> & -> & ->)|(Hne & Hr' & cl & Hc & E1 & E2 & E3)].
    + left. exists i. rewrite same_count in Hi. rewrite same_size. auto.
    + right. exists r, sr, cl, i. rewrite E1. rewrite E2 in Hi. auto 10.
  - intros [(i & Hi & Hf & -> & ->)|(r & sr & bl & i & Hne & Hr & Hb & Hi & Hf & -> & ->)].
    + destruct updated_this as [H1 H2]. exists p, sp', al', i. rewrite same_size, same_count. auto 10.
    + destruct (updated_keep _ _ _ Hne Hr Hb) as [H1 (cl & Hc & E1 & E2 & E3)].
      exists r, sr, cl, i. rewrite E1, E2. auto 10.
Qed.
Lemma updated_avail x :
  kavail updated x <->
  pavail (ph h) x \/
  (in_slab al p x /\ forall i, 0 <= i < object_count_per_slab al -> i ∉ sp_free_list sp' -> ~ in_object al p i x) \/
  (exists r sr bl, r <> p /\ slab_pages h !! r = Some sr /\ allocators h !! sp_allocator sr = Some bl /\ in_slab bl r x /\
    forall i, 0 <= i < object_count_per_slab bl -> i ∉ sp_free_list sr -> ~ in_object bl r i x).
Proof.
  unfold kavail, in_slab, in_object. change (ph updated) with (ph h). split.
  - intros [H|(r & sr & bl & Hr & Hb & Hx & Hf)]; [auto|]. right.
    destruct (updated_lookup _ _ _ Hr Hb) as [(-> & -> & ->)|(Hne & Hr' & cl & Hc & E1 & E2 & E3)].
    + left. rewrite same_order in Hx. rewrite same_size, same_count in Hf. auto.
    + right. exists r, sr, cl. rewrite E3 in Hx. rewrite E1, E2 in Hf. auto 10.
  - intros [H|[[Hx Hf]|(r & sr & bl & Hne & Hr & Hb & Hx & Hf)]]; [auto|right|right].
    + destruct updated_this as [H1 H2]. exists p, sp', al'. rewrite same_size, same_count, same_order. auto 10.
    + destruct (updated_keep _ _ _ Hne Hr Hb) as [H1 (cl & Hc & E1 & E2 & E3)].
      exists r, sr, cl. rewrite E1, E2, E3. auto 10.
Qed.
End Update.
End State.
End Invariant.

(** ** Allocation *)

Section Alloc.
Context `{PA : PageAllocator} (a : arch) (cbo_size : Z).

(** The object sizes of the allocators do not change. *)
Definition same_sizes (h h' : kheap) : Prop := object_size <$> allocators h' = object_size <$> allocators h.

(** What handing out the [n] bytes at [obj] does. *)
Record handed_out (h : kheap) (m : mem) (obj n : Z) (h' : kheap) (m' : mem) : Prop := HandedOut {
  ho_ok : kheap_ok h' m';
  ho_mem : mem_ok m';
  ho_sizes : same_sizes h h';
  ho_range : 0 < obj /\ obj + n < 2 ^ 64;
  ho_frame : forall x, ~ kavail h x -> m' x = m x;
  ho_zero : forall x, obj <= x < obj + n -> kavail h x /\ m' x = 0;
  ho_avail : forall x, kavail h' x -> kavail h x /\ ~ (obj <= x < obj + n);
  ho_live : live h' obj n;
  ho_keep : forall q k, live h q k -> q <> obj /\ live h' q k }.

(** The rest of [slab_alloc], from a slab with a free object. *)
Definition alloc_from (k : nat) (head : Z) (h : kheap) (m : mem) : outcome (option Z * kheap * mem) :=
  h ← count_allocation k head h;
  al ← get_alloc k h;
  sp ← get_page head h;
  result ← get_free_object m head sp al;
  let sp := SlabPage (load 4 m (result + 4)) (sp_free_obj_count sp) (sp_allocator sp) (tail (sp_free_list sp)) in
  Ok (Some result, set_page head sp h, zero_free_object m result).

(** The allocator after an object of the slab at [head] was taken, leaving [l]. *)
Definition taken_alloc (al : slab_allocator) (head : Z) (l : list Z) : slab_allocator :=
  SlabAllocator (if bool_decide (l = []) then filter (.≠ head) (free_slab_head_list al) else free_slab_head_list al)
    (object_size al) (object_count_per_slab al) (slab_order al) (u32 (free_obj_count al - 1)) (slab_count al).
Definition taken_page (sp : slab_page) (l : list Z) : slab_page :=
  SlabPage (head_index l) (Z.of_nat (length l)) (sp_allocator sp) l.

Lemma head_index_bound al l : sizes_ok al -> Forall (fun i => 0 <= i < object_count_per_slab al) l -> is_u32 (head_index l).
Proof.
  intros [_ Hc _ _ _] H. unfold is_u, head_index, UINT32_MAX. destruct l; [lia|].
  apply list.Forall_cons in H as [H _]. lia.
Qed.

Lemma get_free_object_ok m head sp al i l : sizes_ok al -> sp_free_list sp = i :: l ->
  Forall (fun i => 0 <= i < object_count_per_slab al) (i :: l) -> first_free_index sp = i ->
  free_chain m head (object_size al) (i :: l) ->
  get_free_object m head sp al = Ok (head + i * object_size al) /\
  load 4 m (head + i * object_size al + 4) = head_index l.
Proof.
  intros Hs El Hb Hf [(H1 & H2 & H3 & _) _]. apply list.Forall_cons in Hb as [Hi Hb].
  pose proof (head_index_bound al l Hs Hb) as Hh. split; [|exact H2].
  unfold get_free_object, get_free_ptr_from_index, get_free_obj_byte_index, verify_free_object. rewrite Hf.
  destruct Hs as [Hs1 Hs2 Hs3 Hs4 _]. unfold UINT32_MAX in *.
  destruct (Z.eqb_spec i (2 ^ 32 - 1)) as [?|_]; [lia|]. cbn [negb].
  assert (Hp : pages_size page_shift (slab_order al) <= 2 ^ 24).
  { unfold pages_size. apply Z.pow_le_mono_r; [lia|]. pose proof page_shift_ok. lia. }
  unfold check_mul_assert_w, check_mul_w. rewrite fits_ok by (unfold is_u; nia). cbn [assert_some mbind outcome_bind].
  rewrite H1, H2, H3, !Z.eqb_refl. cbn [c_assert mbind outcome_bind]. unfold head_index, UINT32_MAX, index_in_bounds in *.
  destruct l as [|j l]; [rewrite Z.eqb_refl; reflexivity|]. apply list.Forall_cons in Hb as [Hj _].
  destruct (Z.eqb_spec j (2 ^ 32 - 1)); [lia|]. cbn [negb]. destruct (Z.ltb_spec j (object_count_per_slab al)); [|lia]. reflexivity.
Qed.

Lemma free_list_length h m p sp al : page_ok h m p sp al -> sizes_ok al ->
  Z.of_nat (length (sp_free_list sp)) <= object_count_per_slab al.
Proof.
  intros Hp Hs. rewrite <- (Z2Nat.id (object_count_per_slab al)) by (destruct Hs; lia). apply inj_le.
  rewrite <- (length_seqZ 0 (object_count_per_slab al)).
  apply submseteq_length, NoDup_submseteq; [apply Hp|].
  intros j Hj. apply elem_of_seqZ. pose proof (proj1 (list.Forall_forall _ _) (po_bound _ _ _ _ _ Hp) j Hj) as Hj'.
  cbn in Hj'. lia.
Qed.

Lemma alloc_from_eq h m k al head sp i l : kheap_ok h m -> slab_pages h !! head = Some sp -> page_ok h m head sp al ->
  sp_allocator sp = k -> sp_free_list sp = i :: l ->
  alloc_from k head h m =
  Ok (Some (head + i * object_size al), updated h head sp (taken_page sp l) (taken_alloc al head l),
      zero_free_object m (head + i * object_size al)).
Proof.
  intros Ho Hsp Hp <- El. pose proof (page_sizes _ _ Ho _ _ _ Hp) as Hs.
  assert (Hk : (sp_allocator sp < length (allocators h))%nat) by (eapply lookup_lt_Some, Hp).
  unfold alloc_from, count_allocation, get_alloc, get_page. rewrite (po_alloc _ _ _ _ _ Hp), Hsp.
  cbn [mbind outcome_bind set_page set_alloc allocators slab_pages]. rewrite list_lookup_insert_eq by exact Hk.
  rewrite lookup_insert_eq. cbn [mbind outcome_bind sp_free_obj_count sp_allocator sp_free_list].
  pose proof (po_count _ _ _ _ _ Hp) as Hc. rewrite El in Hc. cbn [length] in Hc.
  pose proof (po_bound _ _ _ _ _ Hp) as Hb. rewrite El in Hb.
  pose proof (po_chain _ _ _ _ _ Hp) as Hch. rewrite El in Hch.
  pose proof (free_list_length _ _ _ _ _ Hp Hs) as Hlen. rewrite El in Hlen. cbn [length] in Hlen.
  rewrite Hc. replace (Z.of_nat (S (length l)) - 1) with (Z.of_nat (length l)) by lia.
  rewrite (wrap_small 32) by (unfold is_u; destruct Hs; lia).
  set (al1 := SlabAllocator _ _ _ _ _ _). set (sp1 := SlabPage _ _ _ _).
  destruct (get_free_object_ok m head sp1 al1 i l) as [E1 E2].
  { destruct Hs; split; auto. } { exact El. } { exact Hb. } { cbn. rewrite (po_first _ _ _ _ _ Hp), El. reflexivity. }
  { exact Hch. }
  rewrite E1. cbn [mbind outcome_bind]. change (object_size al1) with (object_size al) in *. rewrite E2.
  unfold updated, taken_page, taken_alloc, set_page, set_alloc. cbn [allocators slab_pages ph]. rewrite insert_insert_eq.
  assert (Ed : (Z.of_nat (length l) =? 0) = bool_decide (l = [])).
  { destruct l; [reflexivity|]. cbn [length]. destruct (Z.eqb_spec (Z.of_nat (S (length l))) 0); [lia|reflexivity]. }
  unfold al1, sp1. rewrite Ed, El. reflexivity.
Qed.

(** A live object is not where a free one is. *)
Lemma live_not_free h m p sp al i q n : kheap_ok h m -> slab_pages h !! p = Some sp -> page_ok h m p sp al ->
  i ∈ sp_free_list sp -> live h q n -> q <> p + i * object_size al.
Proof.
  intros Ho Hsp Hp Hi (r & sr & bl & j & Hr & Hb & Hj & Hnj & -> & _) E.
  pose proof (page_sizes _ _ Ho _ _ _ Hp) as Hs. pose proof (free_bound _ _ _ _ _ _ Hp Hi) as Hib.
  destruct (decide (r = p)) as [->|Hne].
  - simplify_eq. assert (bl = al) as -> by (pose proof (po_alloc _ _ _ _ _ Hp); congruence).
    assert (j = i) by (destruct Hs; nia). congruence.
  - destruct (ko_page _ _ Ho _ _ Hr) as [bl' Hbl]. pose proof (po_alloc _ _ _ _ _ Hbl).
    assert (bl' = bl) as -> by congruence. pose proof (page_sizes _ _ Ho _ _ _ Hbl) as Hsb.
    apply (slabs_disjoint _ _ Ho _ _ _ _ _ _ (r + j * object_size bl) Hbl Hp Hne).
    + eapply object_in_slab; [exact Hsb|exact Hj|]. unfold in_object. destruct Hsb; lia.
    + eapply object_in_slab; [exact Hs|exact Hib|]. unfold in_object. rewrite E. destruct Hs; lia.
Qed.

Lemma updated_same_sizes h p sp sp' al al' : allocators h !! sp_allocator sp = Some al -> object_size al' = object_size al ->
  same_sizes h (updated h p sp sp' al').
Proof.
  intros H E. unfold same_sizes, updated. cbn. rewrite list_fmap_insert, E. apply list_insert_id.
  rewrite list_lookup_fmap, H. reflexivity.
Qed.

Lemma elem_of_filter_ne (p q : Z) (l : list Z) : p ∈ filter (.≠ q) l <-> p <> q /\ p ∈ l.
Proof. exact (list_elem_of_filter (.≠ q) l p). Qed.

Lemma alloc_from_spec h m k al head sp : kheap_ok h m -> mem_ok m ->
  slab_pages h !! head = Some sp -> page_ok h m head sp al -> sp_allocator sp = k -> sp_free_list sp <> [] ->
  exists obj h' m', alloc_from k head h m = Ok (Some obj, h', m') /\ handed_out h m obj (object_size al) h' m'.
Proof.
  intros Ho Hm Hsp Hp Ek Hne. destruct (sp_free_list sp) as [|i l] eqn:El; [done|]. clear Hne.
  pose proof (page_sizes _ _ Ho _ _ _ Hp) as Hs. pose proof (ko_alloc _ _ Ho _ _ (po_alloc _ _ _ _ _ Hp)) as Hal.
  assert (Hil : i ∈ sp_free_list sp) by (rewrite El; apply list_elem_of_here).
  pose proof (free_bound _ _ _ _ _ _ Hp Hil) as Hi.
  pose proof (po_nodup _ _ _ _ _ Hp) as Hnd. rewrite El in Hnd. apply list.NoDup_cons in Hnd as [Hni Hnd].
  pose proof (po_bound _ _ _ _ _ Hp) as Hb. rewrite El in Hb. apply list.Forall_cons in Hb as [_ Hb].
  pose proof (po_chain _ _ _ _ _ Hp) as Hch. rewrite El in Hch. destruct Hch as [Hobj Hch].
  set (obj := head + i * object_size al). set (m' := zero_free_object m obj).
  assert (Hin : forall x, obj <= x < obj + object_size al -> in_object al head i x) by (unfold in_object; auto).
  assert (Hm' : forall x, ~ (obj <= x < obj + object_size al) -> m' x = m x).
  { intros x Hx. unfold m'. rewrite zero_free_object_spec. wcase; [destruct Hs; lia|reflexivity]. }
  pose proof (updated_ok h m Ho head sp (taken_page sp l) al (taken_alloc al head l) m' Hsp Hp eq_refl eq_refl eq_refl eq_refl) as Hok.
  eexists obj, _, m'. split; [eapply alloc_from_eq; eauto|]. split.
  - apply Hok; clear Hok; cbn; auto.
    + intros x Hx. apply Hm'. intros Hx'. apply Hx. eapply object_in_slab; eauto.
    + case_bool_decide; [apply list.NoDup_filter|]; apply Hal.
    + intros q Hq. case_bool_decide; [|reflexivity]. rewrite elem_of_filter_ne. tauto.
    + case_bool_decide as E; [rewrite elem_of_filter_ne; tauto|]. split; [auto|]. intros _. apply Hp. rewrite El. done.
    + eapply free_chain_ext; [destruct Hs; lia| |exact Hch]. intros j x Hj Hx. apply Hm'. intros Hx'.
      assert (j = i) as -> by (eapply objects_disjoint; [|exact Hx|exact Hx']; destruct Hs; lia). auto.
  - apply zero_free_object_ok, Hm.
  - eapply updated_same_sizes; [apply Hp|reflexivity].
  - destruct (pblock_ok _ _ _ _ (ko_pages _ _ Ho) (po_block _ _ _ _ _ Hp)) as (Hpos & _ & Hend & _).
    unfold obj. destruct Hs. nia.
  - intros x Hx. apply Hm'. intros Hx'. apply Hx. eapply free_available; eauto.
  - intros x Hx. split; [eapply free_available; eauto|]. unfold m'. rewrite zero_free_object_spec. wcase; [reflexivity|].
    apply Hobj. fold obj. lia.
  - intros x Hx. eapply updated_avail in Hx; eauto; try reflexivity. cbn [sp_free_list taken_page] in Hx.
    destruct Hx as [Hx|[[Hx Hf]|(r & sr & bl & Hne & Hr & Hbl & Hx & Hf)]].
    + split; [left; exact Hx|]. intros Hx'. eapply slab_not_pavail; [exact Ho|exact Hp| |exact Hx]. eapply object_in_slab; eauto.
    + split; [|apply Hf; auto]. right. exists head, sp, al. split; [exact Hsp|]. split; [apply Hp|]. split; [exact Hx|].
      intros j Hj Hnj. apply Hf; [exact Hj|]. intros Hjl. apply Hnj. rewrite El. apply list_elem_of_further, Hjl.
    + split; [right; eauto 10|]. intros Hx'. destruct (ko_page _ _ Ho _ _ Hr) as [bl' Hbl'].
      assert (bl' = bl) as -> by (pose proof (po_alloc _ _ _ _ _ Hbl'); congruence).
      eapply (slabs_disjoint _ _ Ho _ _ _ _ _ _ x Hbl' Hp Hne Hx). eapply object_in_slab; eauto.
  - eapply updated_live; eauto. left. exists i. auto.
  - intros q n Hl. split; [eapply live_not_free; eauto|]. eapply updated_live; eauto.
    destruct Hl as (r & sr & bl & j & Hr & Hbl & Hj & Hnj & Eq & En). destruct (decide (r = head)) as [->|Hne].
    + left. simplify_eq. assert (bl = al) as -> by (pose proof (po_alloc _ _ _ _ _ Hp); congruence).
      exists j. split; [exact Hj|]. split; [|auto]. cbn. intros Hjl. apply Hnj. rewrite El. apply list_elem_of_further, Hjl.
    + right. exists r, sr, bl, j. auto 10.
Qed.
End Alloc.

(** ** A new slab *)

Lemma link_objects_spec size head n : 16 <= size -> (n + 1) * size <= 2 ^ 32 -> forall todo i m,
  0 <= i -> i + Z.of_nat todo = n ->
  (forall x, head + i * size <= x < head + n * size -> m x = 0) ->
  exists m', link_objects todo i (i * size) size head m = (m', n * size) /\
    (mem_ok m -> mem_ok m') /\
    (forall x, ~ (head + i * size <= x < head + n * size) -> m' x = m x) /\
    forall j, i <= j < n -> free_object m' (head + j * size) size (j + 1).
Proof.
  intros Hs Hn. induction todo as [|todo IH]; intros i m Hi Ht Hz.
  - exists m. cbn. assert (i = n) as -> by lia. split; [reflexivity|]. split; [auto|]. split; [auto|lia].
  - cbn [link_objects]. assert (Hu : u32 (i + 1) = i + 1) by (apply wrap_small; unfold is_u; nia). rewrite Hu.
    assert (E : u64 (i * size + size) = (i + 1) * size) by (rewrite wrap_small; unfold is_u; nia). rewrite E. clear E.
    set (m1 := put_free_object m (head + i * size) (i + 1)).
    assert (Hm1 : forall x, ~ (head + i * size <= x < head + i * size + size) -> m1 x = m x).
    { intros x Hx. unfold m1. rewrite put_free_object_spec. wcase; [lia|reflexivity]. }
    destruct (IH (i + 1) m1) as (m' & E & Hok & Hfr & Hobj); try lia.
    { intros x Hx. rewrite Hm1 by nia. apply Hz. nia. }
    exists m'. split; [exact E|]. split; [intros Hm; apply Hok, put_free_object_ok, Hm|]. split.
    + intros x Hx. rewrite Hfr by nia. apply Hm1. nia.
    + intros j Hj. destruct (Z.eq_dec j i) as [->|Hne]; [|apply Hobj; lia].
      eapply free_object_ext with (m := m1); [lia|intros x Hx; apply Hfr; nia|].
      apply put_free_object_free; [unfold is_u; nia|]. intros x Hx. apply Hz. nia.
Qed.

(** Objects linked in order are the list of their indices. *)
Lemma chain_in_order m p size n : (forall j, 0 <= j < n ->
    free_object m (p + j * size) size (if j =? n - 1 then UINT32_MAX else j + 1)) ->
  forall d : nat, Z.of_nat d <= n -> free_chain m p size (seqZ (n - Z.of_nat d) (Z.of_nat d)).
Proof.
  intros H d.
  induction d as [|d IH]; intros Hd; [exact Logic.I|].
  rewrite seqZ_cons by lia. cbn [free_chain].
  replace (Z.succ (n - Z.of_nat (S d))) with (n - Z.of_nat d) by lia.
  replace (Z.pred (Z.of_nat (S d))) with (Z.of_nat d) by lia. split; [|apply IH; lia].
  replace (head_index (seqZ (n - Z.of_nat d) (Z.of_nat d))) with
    (if n - Z.of_nat (S d) =? n - 1 then UINT32_MAX else n - Z.of_nat (S d) + 1); [apply H; lia|].
  destruct d as [|d]; [rewrite Z.eqb_refl; reflexivity|].
  destruct (Z.eqb_spec (n - Z.of_nat (S (S d))) (n - 1)); [lia|]. rewrite (seqZ_cons _ (Z.of_nat (S d))) by lia. cbn [head_index]. lia.
Qed.

Section NewSlab.
Context `{PA : PageAllocator} (a : arch) (cbo_size : Z).

(** What every step does to the objects and addresses that are not its own. *)
Record keeps (h : kheap) (m : mem) (h' : kheap) (m' : mem) : Prop := Keeps {
  kp_ok : kheap_ok h' m';
  kp_mem : mem_ok m';
  kp_sizes : same_sizes h h';
  kp_frame : forall x, ~ kavail h x -> m' x = m x;
  kp_avail : forall x, kavail h' x -> kavail h x;
  kp_live : forall q n, live h q n -> live h' q n }.

(** Only the page allocator's state and its memory changed. *)
Lemma pages_changed h m ph' m' : kheap_ok h m -> mem_ok m' -> pheap_ok ph' m' ->
  (forall x, ~ pavail (ph h) x -> m' x = m x) -> (forall x, pavail ph' x -> pavail (ph h) x) ->
  (forall q k, pblock (ph h) q k -> pblock ph' q k) ->
  keeps h m (KHeap (allocators h) (slab_pages h) ph') m'.
Proof.
  intros Ho Hm Hph Hfr Hav Hbl. split; auto; cbn.
  - split; [exact Hph|intros k al Hk; destruct (ko_alloc _ _ Ho k al Hk); split; auto|].
    intros p sp Hsp. destruct (ko_page _ _ Ho _ _ Hsp) as [al Hp]. exists al. pose proof (page_sizes _ _ Ho _ _ _ Hp) as Hs.
    assert (Hch : free_chain m' p (object_size al) (sp_free_list sp)).
    { eapply free_chain_ext; [destruct Hs; lia| |apply Hp]. intros i x Hi Hx. apply Hfr.
      eapply slab_not_pavail; [exact Ho|exact Hp|]. eapply object_in_slab; [exact Hs| |exact Hx]. eapply free_bound; eauto. }
    destruct Hp. split; auto.
  - reflexivity.
  - intros x Hx. apply Hfr. intros Hp. apply Hx. left. exact Hp.
  - intros x [Hx|(q & sp & al & H)]; [left; apply Hav, Hx|right; exists q, sp, al; exact H].
Qed.

(** The allocator and the page of a new slab. *)
Definition grown_alloc (al : slab_allocator) (head : Z) : slab_allocator :=
  SlabAllocator (head :: free_slab_head_list al) (object_size al) (object_count_per_slab al) (slab_order al)
    (u32 (free_obj_count al + object_count_per_slab al)) (u32 (slab_count al + 1)).
Definition new_page (k : nat) (al : slab_allocator) : slab_page :=
  SlabPage 0 (object_count_per_slab al) k (seqZ 0 (object_count_per_slab al)).
Definition grown (h : kheap) (k : nat) (al : slab_allocator) (head : Z) : kheap :=
  set_page head (new_page k al) (set_alloc k (grown_alloc al head) h).

Section Grow.
Context (h : kheap) (m : mem) (Ho : kheap_ok h m) (k : nat) (al : slab_allocator) (head : Z) (m' : mem).
Context (Hk : allocators h !! k = Some al) (fresh_head : slab_pages h !! head = None)
  (Hblock : pblock (ph h) head (slab_order al)).
Context (only_slab : forall x, ~ in_slab al head x -> m' x = m x)
  (Hchain : free_chain m' head (object_size al) (seqZ 0 (object_count_per_slab al))).

Let Hs : sizes_ok al := ao_sizes _ _ _ (ko_alloc _ _ Ho _ _ Hk).
Lemma grown_lookup j : (j < length (allocators h))%nat -> allocators (grown h k al head) !! j =
  if decide (j = k) then Some (grown_alloc al head) else allocators h !! j.
Proof.
  intros Hj. cbn. destruct (decide (j = k)) as [->|]; [apply list_lookup_insert_eq, Hj|apply list_lookup_insert_ne; auto].
Qed.

Lemma grown_ok : kheap_ok (grown h k al head) m'.
Proof.
  assert (Hkl : (k < length (allocators h))%nat) by (eapply lookup_lt_Some, Hk).
  destruct (pblock_ok _ _ _ _ (ko_pages _ _ Ho) Hblock) as (_ & _ & _ & Hnav).
  assert (Hnl : head ∉ free_slab_head_list al).
  { intros Hl. destruct (ao_listed _ _ _ (ko_alloc _ _ Ho _ _ Hk) _ Hl) as (sp & Hsp & _). congruence. }
  split.
  - eapply pheap_frame; [apply Ho|]. intros x Hx. apply only_slab. intros Hin. exact (Hnav x Hin Hx).
  - intros j bl Hj. assert (Hjl : (j < length (allocators h))%nat)
      by (apply lookup_lt_Some in Hj; cbn in Hj; rewrite length_insert in Hj; exact Hj).
    rewrite grown_lookup in Hj by exact Hjl. destruct (decide (j = k)) as [->|Hne].
    + injection Hj as <-. destruct (ko_alloc _ _ Ho _ _ Hk) as [Hs' Hn Hl]. split.
      * destruct Hs'; split; auto.
      * cbn. apply list.NoDup_cons. auto.
      * intros p Hp. cbn in *. apply elem_of_cons in Hp as [->|Hp]; [exists (new_page k al); rewrite lookup_insert_eq; auto|].
        destruct (Hl p Hp) as (sp & Hsp & E). exists sp. rewrite lookup_insert_ne by congruence. auto.
    + destruct (ko_alloc _ _ Ho _ _ Hj) as [Hs' Hn Hl]. split; [exact Hs'|exact Hn|]. intros p Hp.
      destruct (Hl p Hp) as (sp & Hsp & E). exists sp. cbn. rewrite lookup_insert_ne by congruence. auto.
  - intros p sp Hp. cbn in Hp. destruct (decide (p = head)) as [->|Hne].
    + rewrite lookup_insert_eq in Hp. injection Hp as <-. exists (grown_alloc al head). split; cbn; auto.
      * apply list_lookup_insert_eq, Hkl.
      * apply NoDup_seqZ.
      * apply list.Forall_forall. intros i Hi. apply elem_of_seqZ in Hi. lia.
      * destruct Hs. rewrite seqZ_cons by lia. reflexivity.
      * rewrite length_seqZ. destruct Hs. lia.
      * rewrite seqZ_cons by (destruct Hs; lia). split; [discriminate|]. intros _. apply list_elem_of_here.
    + rewrite lookup_insert_ne in Hp by auto. destruct (ko_page _ _ Ho _ _ Hp) as [bl Hbl].
      pose proof (page_sizes _ _ Ho _ _ _ Hbl) as Hsb. pose proof (po_alloc _ _ _ _ _ Hbl) as Hal.
      assert (Hch : free_chain m' p (object_size bl) (sp_free_list sp)).
      { eapply free_chain_ext; [destruct Hsb; lia| |apply Hbl]. intros i x Hi Hx. apply only_slab. intros Hin.
        pose proof (pblock_disjoint _ _ _ _ _ _ (ko_pages _ _ Ho) (po_block _ _ _ _ _ Hbl) Hblock Hne).
        pose proof (object_in_slab _ _ _ _ Hsb (free_bound _ _ _ _ _ _ Hbl Hi) Hx). unfold in_slab in *. lia. }
      pose proof (grown_lookup (sp_allocator sp) (lookup_lt_Some _ _ _ Hal)) as Hgl.
      destruct (decide (sp_allocator sp = k)) as [E|E].
      * assert (bl = al) as -> by congruence. exists (grown_alloc al head). destruct Hbl. split; auto.
        cbn. rewrite elem_of_cons. rewrite <- po_listed0. intuition congruence.
      * exists bl. rewrite Hal in Hgl. destruct Hbl. split; auto.
Qed.

Lemma grown_avail x : kavail (grown h k al head) x -> kavail h x \/ in_slab al head x.
Proof.
  intros [Hx|(q & sq & bl & Hq & Hb & Hx & Hf)]; [left; left; exact Hx|]. cbn in Hq.
  destruct (decide (q = head)) as [->|Hne].
  - rewrite lookup_insert_eq in Hq. injection Hq as <-. cbn in Hb.
    rewrite list_lookup_insert_eq in Hb by (eapply lookup_lt_Some, Hk). injection Hb as <-. right. exact Hx.
  - rewrite lookup_insert_ne in Hq by auto. left. right. destruct (ko_page _ _ Ho _ _ Hq) as [cl Hcl].
    pose proof (po_alloc _ _ _ _ _ Hcl) as Hc. rewrite grown_lookup in Hb by (eapply lookup_lt_Some, Hc).
    exists q, sq, cl. split; [exact Hq|]. split; [exact Hc|].
    destruct (decide (sp_allocator sq = k)) as [E|E]; [|rewrite Hc in Hb; injection Hb as <-; auto].
    injection Hb as <-. assert (cl = al) as -> by congruence. auto.
Qed.
Lemma grown_live q n : live h q n -> live (grown h k al head) q n.
Proof.
  intros (r & sr & bl & i & Hr & Hb & H). assert (r <> head) by congruence.
  pose proof (grown_lookup (sp_allocator sr) (lookup_lt_Some _ _ _ Hb)) as Hg.
  destruct (decide (sp_allocator sr = k)) as [E|E].
  - assert (bl = al) as -> by congruence. exists r, sr, (grown_alloc al head), i. cbn. rewrite lookup_insert_ne by auto.
    split; [exact Hr|]. split; [exact Hg|exact H].
  - exists r, sr, bl, i. cbn. rewrite lookup_insert_ne by auto. rewrite Hb in Hg. auto.
Qed.
End Grow.
End NewSlab.

(** ** [slab_alloc] *)

Section SlabAlloc.
Context `{PA : PageAllocator} (a : arch) (cbo_size : Z).

Lemma keeps_refl h m : kheap_ok h m -> mem_ok m -> keeps h m h m.
Proof. intros Ho Hm. split; auto; reflexivity. Qed.
Lemma keeps_handed_out h m h1 m1 obj n h2 m2 : keeps h m h1 m1 -> handed_out h1 m1 obj n h2 m2 ->
  handed_out h m obj n h2 m2.
Proof.
  intros [K1 K2 K3 K4 K5 K6] [H1 H2 H3 H4 H5 H6 H7 H8 H9]. split; auto.
  - unfold same_sizes in *. congruence.
  - intros x Hx. rewrite H5, K4 by auto. reflexivity.
  - intros x Hx. destruct (H6 x Hx). auto.
  - intros x Hx. destruct (H7 x Hx). auto.
Qed.

(** A slab of allocator [k], whose objects have [n] bytes, with a free object. *)
Definition usable (h : kheap) (m : mem) (k : nat) (n head : Z) : Prop :=
  exists sp al, slab_pages h !! head = Some sp /\ page_ok h m head sp al /\ sp_allocator sp = k /\
    sp_free_list sp <> [] /\ object_size al = n.

Lemma new_slab_memory al head m : sizes_ok al -> mem_ok m ->
  (forall x, in_slab al head x -> m x = 0) ->
  exists m' bi, link_objects (Z.to_nat (u32 (object_count_per_slab al - 1))) 0 0 (object_size al) head m = (m', bi) /\
    let m2 := put_free_object m' (head + bi) UINT32_MAX in
    mem_ok m2 /\ (forall x, ~ in_slab al head x -> m2 x = m x) /\
    free_chain m2 head (object_size al) (seqZ 0 (object_count_per_slab al)).
Proof.
  intros [Hs Hc Hf Ho _] Hm Hz. set (size := object_size al) in *. set (n := object_count_per_slab al) in *.
  rewrite wrap_small by (unfold is_u; lia).
  assert (Hp : pages_size page_shift (slab_order al) <= 2 ^ 24).
  { unfold pages_size. apply Z.pow_le_mono_r; [lia|]. pose proof page_shift_ok. lia. }
  destruct (link_objects_spec size head (n - 1) ltac:(lia) ltac:(lia) (Z.to_nat (n - 1)) 0 m)
    as (m' & E & Hok & Hfr & Hobj); try lia.
  { intros x Hx. apply Hz. unfold in_slab. nia. }
  exists m', ((n - 1) * size). split; [exact E|]. set (m2 := put_free_object m' (head + (n - 1) * size) UINT32_MAX).
  assert (Hm2 : forall x, ~ (head + (n - 1) * size <= x < head + (n - 1) * size + size) -> m2 x = m' x).
  { intros x Hx. unfold m2. rewrite put_free_object_spec. wcase; [lia|reflexivity]. }
  split; [apply put_free_object_ok, Hok, Hm|]. split.
  - intros x Hx. unfold in_slab in Hx. rewrite Hm2 by nia. apply Hfr. nia.
  - replace (seqZ 0 n) with (seqZ (n - Z.of_nat (Z.to_nat n)) (Z.of_nat (Z.to_nat n))) by (f_equal; lia).
    apply chain_in_order; [|lia]. intros j Hj. destruct (Z.eqb_spec j (n - 1)) as [->|Hne].
    + apply put_free_object_free; [unfold is_u, UINT32_MAX; lia|]. intros x Hx. rewrite Hfr by nia. apply Hz. unfold in_slab. nia.
    + eapply free_object_ext with (m := m'); [lia| |apply Hobj; lia]. intros x Hx. apply Hm2. nia.
Qed.

Lemma alloc_slab_page_spec h m k al : kheap_ok h m -> mem_ok m -> allocators h !! k = Some al ->
  exists r h' m', alloc_slab_page k h m = Ok (r, h', m') /\ keeps h m h' m' /\
    match r with Some head => usable h' m' k (object_size al) head | None => True end.
Proof.
  intros Ho Hm Hk. pose proof (ao_sizes _ _ _ (ko_alloc _ _ Ho _ _ Hk)) as Hs.
  unfold alloc_slab_page, get_alloc. rewrite Hk. cbn [mbind outcome_bind].
  destruct (alloc_pages_ok (ph h) m (slab_order al)) as (r & ph' & m1 & -> & Hp1 & Hm1 & Hfr & Hav & Hbl & Hr);
    [apply Ho|exact Hm|apply Hs|]. cbn [mbind outcome_bind].
  pose proof (pages_changed h m ph' m1 Ho Hm1 Hp1 Hfr Hav Hbl) as K. set (h1 := KHeap _ _ ph') in *.
  destruct r as [head|]; [|exists None, h1, m1; auto]. destruct Hr as (Hb & Hnew & Hzero).
  destruct (new_slab_memory al head m1 Hs Hm1) as (m' & bi & E & Hm2 & Honly & Hch); [intros x Hx; apply Hzero, Hx|].
  cbn [object_size]. rewrite E. eexists (Some head), _, _. split; [reflexivity|].
  assert (Hnone : slab_pages h1 !! head = None).
  { destruct (slab_pages h1 !! head) as [sp|] eqn:Ehd; [|reflexivity]. exfalso.
    destruct (ko_page _ _ Ho _ _ Ehd) as [bl Hp]. exact (Hnew _ _ (po_block _ _ _ _ _ Hp) eq_refl). }
  assert (Hg : kheap_ok (grown h1 k al head) (put_free_object m' (head + bi) UINT32_MAX))
    by (eapply grown_ok; [apply K|exact Hk|exact Hnone|exact Hb|exact Honly|exact Hch]).
  fold (grown_alloc al head). fold (new_page k al). fold (grown h1 k al head). split.
  - split; [exact Hg|exact Hm2| | | |].
    + unfold same_sizes, grown. cbn. rewrite list_fmap_insert. apply list_insert_id. rewrite list_lookup_fmap, Hk. reflexivity.
    + intros x Hx. rewrite Honly, (kp_frame _ _ _ _ K) by (exact Hx || (intros Hin; apply Hx; left; apply Hzero, Hin)). reflexivity.
    + intros x Hx. destruct (grown_avail h1 m1 (kp_ok _ _ _ _ K) k al head Hk x Hx) as [Hx'|Hx']; [apply K, Hx'|].
      left. apply Hzero, Hx'.
    + intros q n Hl. apply grown_live; auto.
  - exists (new_page k al), (grown_alloc al head). split; [cbn; apply lookup_insert_eq|].
    destruct (ko_page _ _ Hg head (new_page k al)) as [bl Hnp]; [cbn; apply lookup_insert_eq|].
    pose proof (po_alloc _ _ _ _ _ Hnp) as Hal. cbn in Hal. rewrite list_lookup_insert_eq in Hal by (eapply lookup_lt_Some, Hk).
    injection Hal as <-. split; [exact Hnp|]. split; [reflexivity|]. split; [|reflexivity].
    cbn. rewrite seqZ_cons by (destruct Hs; lia). discriminate.
Qed.

Lemma slab_with_free_spec h m k al : kheap_ok h m -> mem_ok m -> allocators h !! k = Some al ->
  exists r h' m', slab_with_free k h m = Ok (r, h', m') /\ keeps h m h' m' /\
    match r with Some head => usable h' m' k (object_size al) head | None => True end.
Proof.
  intros Ho Hm Hk. unfold slab_with_free, get_alloc. rewrite Hk. cbn [mbind outcome_bind].
  destruct (free_slab_head_list al) as [|head l] eqn:El; [apply alloc_slab_page_spec; auto|].
  exists (Some head), h, m. split; [reflexivity|]. split; [apply keeps_refl; auto|].
  assert (Hin : head ∈ free_slab_head_list al) by (rewrite El; apply list_elem_of_here).
  destruct (ao_listed _ _ _ (ko_alloc _ _ Ho _ _ Hk) head Hin) as (sp & Hsp & Ek).
  destruct (ko_page _ _ Ho _ _ Hsp) as [bl Hp]. pose proof (po_alloc _ _ _ _ _ Hp) as Hb.
  assert (bl = al) as -> by congruence. exists sp, al. split; [exact Hsp|]. split; [exact Hp|]. split; [exact Ek|].
  split; [|reflexivity]. apply (po_listed _ _ _ _ _ Hp), Hin.
Qed.

Lemma slab_alloc_spec h m k al : kheap_ok h m -> mem_ok m -> allocators h !! k = Some al ->
  exists r h' m', slab_alloc k h m = Ok (r, h', m') /\
    match r with
    | Some obj => handed_out h m obj (object_size al) h' m'
    | None => keeps h m h' m'
    end.
Proof.
  intros Ho Hm Hk. unfold slab_alloc.
  destruct (slab_with_free_spec h m k al Ho Hm Hk) as (r & h1 & m1 & -> & K & Hr). cbn [mbind outcome_bind].
  destruct r as [head|]; [|eauto 10]. destruct Hr as (sp & bl & Hsp & Hp & Ek & Hne & Es).
  destruct (alloc_from_spec h1 m1 k bl head sp (kp_ok _ _ _ _ K) (kp_mem _ _ _ _ K) Hsp Hp Ek Hne) as (obj & h2 & m2 & E & HO).
  exists (Some obj), h2, m2. split; [exact E|]. rewrite <- Es. eapply keeps_handed_out; eauto.
Qed.
End SlabAlloc.

(** ** Live objects *)

Section Live.
Context `{PA : PageAllocator}.

Lemma live_object h m p n : kheap_ok h m -> live h p n ->
  exists q sp al i, slab_pages h !! q = Some sp /\ page_ok h m q sp al /\ 0 <= i < object_count_per_slab al /\
    (i ∉ sp_free_list sp) /\ p = q + i * object_size al /\ n = object_size al.
Proof.
  intros Ho (q & sp & al & i & Hq & Ha & H). destruct (ko_page _ _ Ho _ _ Hq) as [bl Hp].
  assert (bl = al) as -> by (pose proof (po_alloc _ _ _ _ _ Hp); congruence). exists q, sp, al, i. tauto.
Qed.
(** The size of a live object is what [slab_object_size] tells. *)
Lemma slab_object_size_spec h m p n : kheap_ok h m -> live h p n -> slab_object_size h p = Ok n.
Proof.
  intros Ho Hl. destruct (live_object h m p n Ho Hl) as (q & sp & al & i & Hq & Hp & Hi & Hni & -> & ->).
  destruct (pblock_ok _ _ _ _ (ko_pages _ _ Ho) (po_block _ _ _ _ _ Hp)) as (Hpos & Hal & _).
  pose proof (page_sizes _ _ Ho _ _ _ Hp) as Hs. unfold slab_object_size, get_page, get_alloc.
  destruct (Z.eqb_spec (q + i * object_size al) 0); [destruct Hs; nia|].
  rewrite (object_page al q i) by auto. rewrite Hq. cbn. rewrite (po_alloc _ _ _ _ _ Hp). reflexivity.
Qed.
(** A live object is not available. *)
Lemma live_not_avail h m p n x : kheap_ok h m -> live h p n -> p <= x < p + n -> ~ kavail h x.
Proof.
  intros Ho Hl Hx. destruct (live_object h m p n Ho Hl) as (q & sp & al & i & Hq & Hp & Hi & Hni & -> & ->).
  pose proof (page_sizes _ _ Ho _ _ _ Hp) as Hs. pose proof (object_in_slab _ _ _ _ Hs Hi Hx) as Hin.
  intros [Ha|(r & sr & bl & Hr & Hb & Hxr & Hf)]; [exact (slab_not_pavail _ _ Ho _ _ _ _ Hp Hin Ha)|].
  destruct (ko_page _ _ Ho _ _ Hr) as [bl' Hb']. assert (bl' = bl) as -> by (pose proof (po_alloc _ _ _ _ _ Hb'); congruence).
  destruct (decide (r = q)) as [->|Hne].
  - simplify_eq. assert (bl = al) as -> by (pose proof (po_alloc _ _ _ _ _ Hp); congruence). exact (Hf i Hi Hni Hx).
  - exact (slabs_disjoint _ _ Ho _ _ _ _ _ _ x Hb' Hp Hne Hxr Hin).
Qed.
Lemma live_range h m p n : kheap_ok h m -> live h p n -> 0 < p /\ 16 <= n < 2 ^ 31 /\ p + n < 2 ^ 64.
Proof.
  intros Ho Hl. destruct (live_object h m p n Ho Hl) as (q & sp & al & i & Hq & Hp & Hi & Hni & -> & ->).
  destruct (page_sizes _ _ Ho _ _ _ Hp) as [H1 H2 H3 _ _].
  destruct (pblock_ok _ _ _ _ (ko_pages _ _ Ho) (po_block _ _ _ _ _ Hp)) as (Hpos & _ & Hend & _). nia.
Qed.
Lemma live_disjoint h m p n q k : kheap_ok h m -> live h p n -> live h q k -> p <> q -> disjoint_regions p n q k.
Proof.
  intros Ho Hp Hq Hne. destruct (live_range _ _ _ _ Ho Hp) as (_ & Hn & _). destruct (live_range _ _ _ _ Ho Hq) as (_ & Hk & _).
  destruct (live_object _ _ _ _ Ho Hp) as (r & sr & al & i & Hr & Hpr & Hi & _ & -> & ->).
  destruct (live_object _ _ _ _ Ho Hq) as (r' & sr' & bl & j & Hr' & Hpr' & Hj & _ & -> & ->). unfold disjoint_regions.
  destruct (decide (r = r')) as [->|Hrr].
  - assert (sr' = sr) as -> by congruence.
    assert (bl = al) as -> by (pose proof (po_alloc _ _ _ _ _ Hpr); pose proof (po_alloc _ _ _ _ _ Hpr'); congruence).
    destruct (Z.lt_trichotomy i j) as [?|[->|?]]; [|done|]; nia.
  - pose proof (page_sizes _ _ Ho _ _ _ Hpr) as [? ? ? _ _]. pose proof (page_sizes _ _ Ho _ _ _ Hpr') as [? ? ? _ _].
    pose proof (pblock_disjoint _ _ _ _ _ _ (ko_pages _ _ Ho) (po_block _ _ _ _ _ Hpr) (po_block _ _ _ _ _ Hpr') Hrr). nia.
Qed.

(** [slab_alloc2] does not verify the object, and otherwise is [slab_alloc]. *)
Lemma slab_alloc2_eq h m k r h' m' : slab_alloc k h m = Ok (r, h', m') ->
  exists r2, slab_alloc2 k h m = Ok (r2, h', m') /\
    match r, r2 with
    | Some obj, Some (head, offset) => obj = head + offset
    | None, None => True
    | _, _ => False
    end.
Proof.
  unfold slab_alloc, slab_alloc2. destruct (slab_with_free k h m) as [[[[head|] h1] m1]| | |]; cbn; try discriminate.
  2: intros [= <- <- <-]; exists None; auto.
  destruct (count_allocation k head h1) as [h2| | |]; cbn; try discriminate.
  destruct (get_alloc k h2) as [al| | |]; cbn; try discriminate.
  destruct (get_page head h2) as [sp| | |]; cbn; try discriminate.
  unfold get_free_object, get_free_ptr_from_index. destruct (negb _); cbn; [|discriminate].
  destruct (get_free_obj_byte_index al (first_free_index sp)) as [off| | |]; cbn; try discriminate.
  destruct (verify_free_object m1 (head + off) al); cbn; try discriminate.
  intros [= <- <- <-]. eexists. split; reflexivity.
Qed.
End Live.

(** ** [slab_free] *)

Section SlabFree.
Context `{PA : PageAllocator} (a : arch) (cbo_size : Z) (Hcbo : cbo_size = 0 \/ pow2_64 cbo_size).

(** What taking back the [n] bytes at [obj] does. *)
Record taken_back (h : kheap) (m : mem) (obj n : Z) (h' : kheap) (m' : mem) : Prop := TakenBack {
  tb_ok : kheap_ok h' m';
  tb_mem : mem_ok m';
  tb_sizes : same_sizes h h';
  tb_avail : forall x, kavail h' x -> kavail h x \/ obj <= x < obj + n;
  tb_keep : forall q k, live h q k -> q <> obj -> live h' q k;
  tb_frame : forall x, ~ kavail h' x -> m' x = m x }.

(** One object of the slab at [p] that is handed out. *)
Section Object.
Context (h : kheap) (m : mem) (Ho : kheap_ok h m) (Hm : mem_ok m).
Context (p : Z) (sp : slab_page) (al : slab_allocator) (i : Z).
Context (Hsp : slab_pages h !! p = Some sp) (Hp : page_ok h m p sp al).
Context (Hi : 0 <= i < object_count_per_slab al) (Hni : i ∉ sp_free_list sp).

Let Hs : sizes_ok al := page_sizes h m Ho p sp al Hp.
Let obj : Z := p + i * object_size al.

Lemma room_for_one : Z.of_nat (S (length (sp_free_list sp))) <= object_count_per_slab al.
Proof.
  rewrite <- (Z2Nat.id (object_count_per_slab al)) by lia. apply inj_le.
  rewrite <- (length_seqZ 0 (object_count_per_slab al)).
  apply (submseteq_length (i :: sp_free_list sp)), NoDup_submseteq; [apply list.NoDup_cons; split; [exact Hni|apply Hp]|].
  intros j [->|Hj]%elem_of_cons; apply elem_of_seqZ; [lia|]. pose proof (free_bound _ _ _ _ _ _ Hp Hj). lia.
Qed.
(** If it is the last one, every other object is free. *)
Lemma last_object j : Z.of_nat (S (length (sp_free_list sp))) = object_count_per_slab al ->
  0 <= j < object_count_per_slab al -> j <> i -> j ∈ sp_free_list sp.
Proof.
  intros Hc Hj Hne. destruct (decide (j ∈ sp_free_list sp)) as [H|Hnj]; [exact H|]. exfalso.
  assert (Hlen : (length (j :: i :: sp_free_list sp) <= length (seqZ 0 (object_count_per_slab al)))%nat).
  { apply submseteq_length, NoDup_submseteq.
    - apply list.NoDup_cons. split; [intros [->|H]%elem_of_cons; auto|]. apply list.NoDup_cons. split; [exact Hni|apply Hp].
    - intros x [->|[->|Hx]%elem_of_cons]%elem_of_cons; apply elem_of_seqZ; try lia. pose proof (free_bound _ _ _ _ _ _ Hp Hx). lia. }
  rewrite length_seqZ in Hlen. cbn [length] in Hlen. lia.
Qed.

(** Other live objects are elsewhere. *)
Lemma live_other q n : live h q n -> q <> obj ->
  (exists j, j <> i /\ 0 <= j < object_count_per_slab al /\ (j ∉ sp_free_list sp) /\ q = p + j * object_size al /\ n = object_size al) \/
  (exists r sr bl j, r <> p /\ slab_pages h !! r = Some sr /\ allocators h !! sp_allocator sr = Some bl /\
    0 <= j < object_count_per_slab bl /\ (j ∉ sp_free_list sr) /\ q = r + j * object_size bl /\ n = object_size bl).
Proof.
  intros (r & sr & bl & j & Hr & Hb & Hj & Hnj & -> & ->) Hne. destruct (decide (r = p)) as [->|Hrp].
  - left. simplify_eq. assert (bl = al) as -> by (pose proof (po_alloc _ _ _ _ _ Hp); congruence).
    exists j. split; [intros ->; auto|auto 10].
  - right. exists r, sr, bl, j. auto 10.
Qed.

(** Linking the object to the front of the free objects of its slab. *)
Definition linked_page : slab_page :=
  SlabPage i (Z.of_nat (S (length (sp_free_list sp)))) (sp_allocator sp) (i :: sp_free_list sp).
Lemma linked_spec al' m1 : filled m m1 obj (object_size al) 0 ->
  object_size al' = object_size al -> object_count_per_slab al' = object_count_per_slab al -> slab_order al' = slab_order al ->
  NoDup (free_slab_head_list al') -> (forall q, q <> p -> q ∈ free_slab_head_list al' <-> q ∈ free_slab_head_list al) ->
  p ∈ free_slab_head_list al' ->
  taken_back h m obj (object_size al) (updated h p sp linked_page al') (put_free_object m1 obj (first_free_index sp)).
Proof.
  intros Hfill E1 E2 E3 Hnd Hoth Hthis. set (m' := put_free_object m1 obj (first_free_index sp)).
  assert (Hm' : forall x, ~ (obj <= x < obj + object_size al) -> m' x = m x).
  { intros x Hx. unfold m'. rewrite put_free_object_spec, Hfill. wcase; try reflexivity; destruct Hs; lia. }
  assert (Hslab : forall x, obj <= x < obj + object_size al -> in_slab al p x).
  { intros x Hx. eapply object_in_slab; eauto. }
  assert (Hchain : free_chain m' p (object_size al) (i :: sp_free_list sp)).
  { split.
    - fold obj. rewrite <- (po_first _ _ _ _ _ Hp). apply put_free_object_free.
      + rewrite (po_first _ _ _ _ _ Hp). eapply head_index_bound; [exact Hs|apply Hp].
      + intros x Hx. rewrite Hfill. wcase; [reflexivity|lia].
    - eapply free_chain_ext; [destruct Hs; lia| |apply Hp]. intros j x Hj Hx. apply Hm'. intros Hx'.
      assert (j = i) as -> by (eapply objects_disjoint; [|exact Hx|exact Hx']; destruct Hs; lia). auto. }
  split.
  - eapply updated_ok; eauto; cbn; auto.
    + split; [discriminate|auto].
    + apply list.NoDup_cons. split; [exact Hni|apply Hp].
    + apply list.Forall_cons. split; [exact Hi|apply Hp].
  - apply put_free_object_ok. eapply filled_ok; [exact Hm| |exact Hfill]. unfold is_u. lia.
  - eapply updated_same_sizes; [apply Hp|exact E1].
  - intros x Hx. eapply updated_avail in Hx; eauto. cbn [sp_free_list linked_page] in Hx.
    destruct Hx as [Hx|[[Hx Hf]|(r & sr & bl & Hne & Hr & Hb & Hx & Hf)]]; [left; left; exact Hx| |left; right; eauto 10].
    destruct (decide (obj <= x < obj + object_size al)) as [Hin|Hout]; [auto|]. left. right. exists p, sp, al.
    split; [exact Hsp|]. split; [apply Hp|]. split; [exact Hx|]. intros j Hj Hnj Hxj.
    destruct (decide (j = i)) as [->|Hji]; [exact (Hout Hxj)|]. apply (Hf j Hj); [|exact Hxj].
    intros [->|H]%elem_of_cons; auto.
  - intros q n Hl Hne. eapply updated_live; eauto. cbn [sp_free_list linked_page].
    destruct (live_other q n Hl Hne) as [(j & Hji & Hj & Hnj & -> & ->)|H]; [left|right; exact H].
    exists j. split; [exact Hj|]. split; [|auto]. intros [->|H]%elem_of_cons; auto.
  - intros x Hx. apply Hm'. intros Hin. apply Hx. eapply updated_avail; eauto. cbn [sp_free_list linked_page]. right. left.
    split; [auto|]. intros j Hj Hnj Hxj. apply Hnj.
    assert (j = i) as -> by (eapply objects_disjoint; [|exact Hxj|exact Hin]; destruct Hs; lia). apply list_elem_of_here.
Qed.

(** Giving the pages of the slab back. *)
Definition dropped_alloc : slab_allocator :=
  SlabAllocator (filter (.≠ p) (free_slab_head_list al)) (object_size al) (object_count_per_slab al) (slab_order al)
    (u32 (u32 (free_obj_count al + 1) - object_count_per_slab al)) (u32 (slab_count al - 1)).
Definition dropped (ph' : pheap) : kheap :=
  KHeap (<[sp_allocator sp:=dropped_alloc]> (allocators h)) (delete p (slab_pages h)) ph'.

Lemma dropped_lookup ph' j bl : allocators (dropped ph') !! j = Some bl <->
  (j = sp_allocator sp /\ bl = dropped_alloc) \/ (j <> sp_allocator sp /\ allocators h !! j = Some bl).
Proof.
  cbn. pose proof (lookup_lt_Some _ _ _ (po_alloc _ _ _ _ _ Hp)) as Hk. destruct (decide (j = sp_allocator sp)) as [->|Hne].
  - rewrite list_lookup_insert_eq by exact Hk. split; [intros [= <-]; auto|intros [[_ ->]|[? _]]; [reflexivity|done]].
  - rewrite list_lookup_insert_ne by auto. tauto.
Qed.
(** The slabs that stay, with allocators of the same sizes. *)
Lemma dropped_slab ph' q sq bl : q <> p -> slab_pages h !! q = Some sq -> page_ok h m q sq bl ->
  exists cl, allocators (dropped ph') !! sp_allocator sq = Some cl /\ object_size cl = object_size bl /\
    object_count_per_slab cl = object_count_per_slab bl /\ slab_order cl = slab_order bl /\
    (q ∈ free_slab_head_list cl <-> q ∈ free_slab_head_list bl).
Proof.
  intros Hne Hq Hb. pose proof (po_alloc _ _ _ _ _ Hb) as Hal. destruct (decide (sp_allocator sq = sp_allocator sp)) as [E|E].
  - assert (bl = al) as -> by (pose proof (po_alloc _ _ _ _ _ Hp); congruence). exists dropped_alloc.
    rewrite dropped_lookup. split; [auto|]. repeat split; cbn; rewrite elem_of_filter_ne; tauto.
  - exists bl. rewrite dropped_lookup. auto 10.
Qed.

Section Drop.
Context (all_free : forall j, 0 <= j < object_count_per_slab al -> j <> i -> j ∈ sp_free_list sp).
Context (m1 m2 : mem) (ph' : pheap) (Hfill : filled m m1 obj (object_size al) 0) (Hm2 : mem_ok m2) (Hph : pheap_ok ph' m2)
  (Hav : forall x, pavail ph' x <-> pavail (ph h) x \/ in_slab al p x)
  (Hbl : forall q k, pblock (ph h) q k -> q <> p -> pblock ph' q k)
  (Hfr : forall x, ~ pavail ph' x -> m2 x = m1 x).

Lemma dropped_keeps q sq bl x : q <> p -> page_ok h m q sq bl -> in_slab bl q x -> m2 x = m x.
Proof.
  intros Hne Hq Hx. rewrite Hfr, Hfill.
  - pose proof (slabs_disjoint _ _ Ho _ _ _ _ _ _ x Hq Hp Hne Hx) as Hd. wcase; [|reflexivity].
    exfalso. apply Hd. eapply object_in_slab; [exact Hs|exact Hi|]. unfold in_object. fold obj. lia.
  - intros [H|H]%Hav; [exact (slab_not_pavail _ _ Ho _ _ _ _ Hq Hx H)|].
    exact (slabs_disjoint _ _ Ho _ _ _ _ _ _ x Hq Hp Hne Hx H).
Qed.

Lemma dropped_ok : kheap_ok (dropped ph') m2.
Proof.
  split; [exact Hph| |].
  - intros j bl [[-> ->]|[Hne Hj]]%dropped_lookup.
    + destruct (ko_alloc _ _ Ho _ _ (po_alloc _ _ _ _ _ Hp)) as [Hs' Hn Hl].
      split; [destruct Hs'; split; auto|apply list.NoDup_filter, Hn|].
      intros q [Hqp Hq]%elem_of_filter_ne. cbn. rewrite lookup_delete_ne by auto. apply Hl, Hq.
    + destruct (ko_alloc _ _ Ho _ _ Hj) as [Hs' Hn Hl]. split; [exact Hs'|exact Hn|]. intros q Hq.
      destruct (Hl q Hq) as (sq & Hsq & E). exists sq. cbn. rewrite lookup_delete_ne by congruence. auto.
  - intros q sq Hq. cbn in Hq. apply lookup_delete_Some in Hq as [Hqp Hq]. destruct (ko_page _ _ Ho _ _ Hq) as [bl Hb].
    pose proof (page_sizes _ _ Ho _ _ _ Hb) as Hsb.
    destruct (dropped_slab ph' q sq bl) as (cl & Hc & E1 & E2 & E3 & E4); auto. exists cl.
    assert (Hch : free_chain m2 q (object_size bl) (sp_free_list sq)).
    { eapply free_chain_ext; [destruct Hsb; lia| |apply Hb]. intros j x Hj Hx.
      eapply dropped_keeps; eauto. eapply object_in_slab; [exact Hsb|eapply free_bound; eauto|exact Hx]. }
    destruct Hb. split; rewrite ?E1, ?E2, ?E3, ?E4; auto.
Qed.

Lemma dropped_spec : taken_back h m obj (object_size al) (dropped ph') m2.
Proof.
  split; [exact dropped_ok|exact Hm2| | | |].
  - unfold same_sizes, dropped. cbn. rewrite list_fmap_insert. apply list_insert_id. rewrite list_lookup_fmap.
    rewrite (po_alloc _ _ _ _ _ Hp). reflexivity.
  - intros x [[Hx|Hx]%Hav|(q & sq & cl & Hq & Hc & Hx & Hf)]; [left; left; exact Hx| |].
    + destruct (decide (obj <= x < obj + object_size al)) as [Hin|Hout]; [auto|]. left. right. exists p, sp, al.
      split; [exact Hsp|]. split; [apply Hp|]. split; [exact Hx|]. intros j Hj Hnj Hxj.
      destruct (decide (j = i)) as [->|Hne]; [exact (Hout Hxj)|]. exact (Hnj (all_free j Hj Hne)).
    + left. right. cbn in Hq. apply lookup_delete_Some in Hq as [Hqp Hq]. destruct (ko_page _ _ Ho _ _ Hq) as [bl Hb]. exists q, sq, bl.
      destruct (dropped_slab ph' q sq bl) as (cl' & Hc' & E1 & E2 & E3 & _); auto. assert (cl' = cl) as -> by congruence.
      split; [exact Hq|]. split; [apply Hb|]. unfold in_slab, in_object in *. rewrite <- E1, <- E2, <- E3. auto.
  - intros q n Hl Hne. destruct (live_other q n Hl Hne) as [(j & Hji & Hj & Hnj & _)|(r & sr & bl & j & Hrp & Hr & Hb & Hj & Hnj & -> & ->)].
    + destruct (Hnj (all_free j Hj Hji)).
    + destruct (ko_page _ _ Ho _ _ Hr) as [bl' Hb']. assert (bl' = bl) as -> by (pose proof (po_alloc _ _ _ _ _ Hb'); congruence).
      destruct (dropped_slab ph' r sr bl) as (cl & Hc & E1 & E2 & _); auto. exists r, sr, cl, j. rewrite E1, E2.
      cbn [slab_pages dropped]. rewrite lookup_delete_ne by auto. auto 10.
  - intros x Hx. rewrite Hfr, Hfill by (intros H; apply Hx; left; exact H). wcase; [|reflexivity].
    destruct Hx. left. apply Hav. right. eapply object_in_slab; [exact Hs|exact Hi|]. unfold in_object. fold obj. lia.
Qed.
End Drop.

Lemma slab_free_object : exists h' m', slab_free a cbo_size h m obj = Ok (h', m') /\
  taken_back h m obj (object_size al) h' m'.
Proof.
  destruct (pblock_ok _ _ _ _ (ko_pages _ _ Ho) (po_block _ _ _ _ _ Hp)) as (Hpos & Hal & Hend & _).
  destruct (bzero_spec a cbo_size m obj (object_size al)) as (m1 & E & Hfill); [destruct Hs; lia|exact Hcbo|].
  assert (Hm1 : mem_ok m1) by (eapply filled_ok; [exact Hm| |exact Hfill]; unfold is_u; lia).
  pose proof room_for_one as Hroom. rewrite Nat2Z.inj_succ in Hroom.
  unfold slab_free, get_page, get_alloc. replace (slab_head_of obj) with p by (symmetry; apply object_page; auto).
  rewrite Hsp. cbn [mbind outcome_bind]. rewrite (po_alloc _ _ _ _ _ Hp). cbn [mbind outcome_bind]. rewrite E. cbn [mbind outcome_bind].
  assert (Ei : u32 (u64 (obj - p) / object_size al) = i).
  { unfold obj. replace (p + i * object_size al - p) with (i * object_size al) by lia.
    rewrite (wrap_small 64), Z.div_mul, wrap_small; unfold is_u; destruct Hs; nia. }
  assert (Ec : u32 (sp_free_obj_count sp + 1) = Z.of_nat (S (length (sp_free_list sp)))).
  { rewrite (po_count _ _ _ _ _ Hp), wrap_small; [lia|]. unfold is_u. destruct Hs. lia. }
  rewrite Ei, Ec. pose proof (ko_alloc _ _ Ho _ _ (po_alloc _ _ _ _ _ Hp)) as [_ Hnd _].
  destruct (Z.eqb_spec (Z.of_nat (S (length (sp_free_list sp)))) 1) as [E1|E1]; cbn [negb].
  - assert (Hnl : p ∉ free_slab_head_list al).
    { rewrite (po_listed _ _ _ _ _ Hp). destruct (sp_free_list sp); [auto|]. cbn in E1. lia. }
    eexists _, _. split; [reflexivity|]. apply linked_spec; auto; cbn.
    + apply list.NoDup_cons. auto.
    + intros q Hq. rewrite elem_of_cons. tauto.
    + apply list_elem_of_here.
  - destruct (Z.eqb_spec (Z.of_nat (S (length (sp_free_list sp)))) (object_count_per_slab al)) as [E2|E2].
    + destruct (free_pages_ok (ph h) m1 p (slab_order al)) as (ph' & m2 & E3 & Hph & Hm2 & Hav & Hbl & Hfr); [|exact Hm1|apply Hp|].
      { eapply pheap_frame; [apply Ho|]. intros x Hx. rewrite Hfill. wcase; [|reflexivity]. exfalso.
        eapply slab_not_pavail; [exact Ho|exact Hp| |exact Hx]. eapply object_in_slab; [exact Hs|exact Hi|]. unfold in_object. fold obj. lia. }
      cbn [slab_order]. rewrite E3. cbn [mbind outcome_bind]. eexists _, _. split; [reflexivity|].
      apply (dropped_spec (fun j => last_object j E2) m1 m2 ph'); auto.
    + eexists _, _. split; [reflexivity|]. apply linked_spec; auto; cbn.
      apply (po_listed _ _ _ _ _ Hp). destruct (sp_free_list sp); [cbn in E1; lia|discriminate].
Qed.
End Object.

Lemma slab_free_spec h m p n : kheap_ok h m -> mem_ok m -> live h p n ->
  exists h' m', slab_free a cbo_size h m p = Ok (h', m') /\ taken_back h m p n h' m'.
Proof.
  intros Ho Hm Hl. destruct (live_object h m p n Ho Hl) as (q & sp & al & i & Hq & Hp & Hi & Hni & -> & ->).
  apply slab_free_object with (sp := sp); auto.
Qed.

End SlabFree.

(** ** [slab_allocator_init] *)

Section Init.
Context `{PA : PageAllocator}.

(** The least order whose pages hold [n] bytes. *)
Lemma order_loop_spec n : 0 < n <= pages_size page_shift 8 -> forall fuel order, 0 <= order <= 8 -> 8 - order <= Z.of_nat fuel ->
  exists o, order_loop fuel n order = Ok o /\ order <= o <= 8 /\ n <= pages_size page_shift o /\
    (o <> order -> pages_size page_shift (o - 1) < n).
Proof.
  intros Hn. pose proof page_shift_ok as Hsh.
  assert (Hsl : forall o, 0 <= o <= 8 -> u64 (Z.shiftl PAGE_SIZE o) = pages_size page_shift o).
  { intros o Ho. unfold PAGE_SIZE, pages_size. rewrite Z.shiftl_mul_pow2, <- Z.pow_add_r by lia. apply wrap_small. unfold is_u.
    split; [apply Z.pow_nonneg; lia|apply Z.pow_lt_mono_r; lia]. }
  induction fuel as [|fuel IH]; intros order Ho Hf; cbn [order_loop]; rewrite Hsl by lia;
    destruct (Z.ltb_spec (pages_size page_shift order) n).
  - assert (order = 8) as -> by lia. lia.
  - exists order. split; [reflexivity|]. lia.
  - assert (order <> 8) by (intros ->; lia).
    rewrite wrap_small by (unfold is_u; lia). destruct (IH (order + 1)) as (o & E & Hb & Hle & Hmin); [lia|lia|].
    exists o. split; [exact E|]. split; [lia|]. split; [exact Hle|]. intros _.
    destruct (Z.eq_dec o (order + 1)) as [->|Hne]; [|auto]. replace (order + 1 - 1) with order by lia. lia.
  - exists order. split; [reflexivity|]. lia.
Qed.

(** The allocator for objects of [n] bytes. *)
Lemma slab_allocator_init_spec old n : 0 < n <= 2 ^ 20 -> exists al, slab_allocator_init old n = Ok (Some al) /\
  sizes_ok al /\ free_slab_head_list al = [] /\ least_multiple 16 n (object_size al).
Proof.
  intros Hn. unfold slab_allocator_init, SLAB_ALIGNMENT.
  rewrite align_up_pow2 by (unfold is_u; (exists 4; lia) || lia). change (16 - 1) with 15.
  destruct (Z.ltb_spec (n + 15) (2 ^ 64)); [|lia]. cbn [mbind outcome_bind].
  pose proof (least_multiple_mod 16 n ltac:(lia)) as Hlm. change (16 - 1) with 15 in Hlm.
  set (size := n + 15 - (n + 15) mod 16) in *.
  assert (Hsize : n <= size < n + 16 /\ 16 <= size <= 2 ^ 20) by (unfold size; dlia).
  destruct (Z.ltb_spec UINT32_MAX size); [unfold UINT32_MAX in *; lia|].
  unfold check_mul_w, MIN_OBJ_PER_SLAB, fits. rewrite Z.mul_1_r.
  destruct (Z.leb_spec 0 size); [|lia]. destruct (Z.ltb_spec size (2 ^ 32)); [|lia]. cbn [andb].
  assert (Hps : forall o, 0 <= o <= 8 -> 2 ^ 12 <= pages_size page_shift o <= 2 ^ 24 /\ u64 (Z.shiftl PAGE_SIZE o) = pages_size page_shift o).
  { intros o Ho. pose proof page_shift_ok. unfold PAGE_SIZE, pages_size. rewrite Z.shiftl_mul_pow2, <- Z.pow_add_r by lia.
    assert (2 ^ 12 <= 2 ^ (page_shift + o) <= 2 ^ 24) by (split; apply Z.pow_le_mono_r; lia).
    split; [lia|]. apply wrap_small. unfold is_u. lia. }
  assert (H8 : 2 ^ 20 <= pages_size page_shift 8).
  { pose proof page_shift_ok. unfold pages_size. apply Z.pow_le_mono_r; lia. }
  destruct (order_loop_spec size ltac:(lia) 64 0) as (o & -> & Hob & Hfit & Hmin); [lia|lia|]. cbn [mbind outcome_bind].
  destruct (Z.eqb_spec size 0); [lia|]. destruct (Hps o Hob) as [Hp ->].
  assert (Hq : 1 <= pages_size page_shift o / size <= 2 ^ 24).
  { split; [apply Z.div_le_lower_bound; lia|]. apply Z.div_le_upper_bound; nia. }
  rewrite wrap_small by (unfold is_u; lia). eexists. split; [reflexivity|]. cbn. split; [|auto with lia].
  split; cbn; [lia|lia| |lia|].
  - rewrite Z.mul_comm. apply Z.mul_div_le. lia.
  - intros Hne. specialize (Hmin Hne). assert (E : pages_size page_shift o = 2 * pages_size page_shift (o - 1)).
    { unfold pages_size. pose proof page_shift_ok. rewrite <- Z.pow_succ_r by lia. f_equal. lia. }
    apply Z.le_antisymm; [|lia]. apply Z.lt_succ_r, Z.div_lt_upper_bound; lia.
Qed.
End Init.

(** ** [slab_verify], compiled in with [CHECK_SLABS] *)

Section Verify.
Context `{PA : PageAllocator}.

(** A slab has at most as many links as objects: [fuel] bounds the walk. *)
Fixpoint verify_loop (fuel : nat) (m : mem) (head : Z) (al : slab_allocator) (free_obj prev : Z) : outcome unit :=
  let next := load 4 m (free_obj + 4) in
  if next =? UINT32_MAX then Ok tt else
  match fuel with
  | O => Diverge
  | S fuel =>
      _ ← c_assert (negb (next =? prev));
      ptr ← get_free_ptr_from_index head al next;
      match ptr with
      | None => Ok tt
      | Some obj => _ ← verify_free_object m obj al; verify_loop fuel m head al obj next
      end
  end.
Definition slab_verify (k : nat) (h : kheap) (m : mem) : outcome unit :=
  al ← get_alloc k h;
  match free_slab_head_list al with
  | [] => Ok tt
  | head :: _ =>
      sp ← get_page head h;
      _ ← c_assert (index_in_bounds (first_free_index sp) (object_count_per_slab al));
      free_obj ← get_free_object m head sp al;
      verify_loop (Z.to_nat (object_count_per_slab al)) m head al free_obj UINT32_MAX
  end.

Lemma verify_free_object_ok m p al l i : sizes_ok al -> Forall (fun j => 0 <= j < object_count_per_slab al) l ->
  free_object m (p + i * object_size al) (object_size al) (head_index l) -> verify_free_object m (p + i * object_size al) al = Ok tt.
Proof.
  intros Hs Hb (H1 & H2 & H3 & _). unfold verify_free_object. rewrite H1, H2, H3. cbn [c_assert mbind outcome_bind].
  unfold c_assert. cbn. destruct l as [|j l]; [reflexivity|]. apply list.Forall_cons in Hb as [Hj _]. cbn [head_index].
  unfold UINT32_MAX, index_in_bounds. destruct Hs. destruct (Z.eqb_spec j (2 ^ 32 - 1)); [lia|]. cbn [negb].
  destruct (Z.ltb_spec j (object_count_per_slab al)); [reflexivity|lia].
Qed.
Lemma get_free_ptr_ok al p j : sizes_ok al -> 0 <= j < object_count_per_slab al ->
  get_free_ptr_from_index p al j = Ok (Some (p + j * object_size al)).
Proof.
  intros Hs Hj. unfold get_free_ptr_from_index, get_free_obj_byte_index, UINT32_MAX.
  destruct (Z.eqb_spec j (2 ^ 32 - 1)); [destruct Hs; lia|]. cbn [negb].
  assert (E : check_mul_assert_w 32 j (object_size al) = Ok (j * object_size al)); [|rewrite E; reflexivity].
  assert (pages_size page_shift (slab_order al) <= 2 ^ 24).
  { unfold pages_size. apply Z.pow_le_mono_r; [lia|]. pose proof page_shift_ok. destruct Hs. lia. }
  unfold check_mul_assert_w, check_mul_w, fits. destruct Hs.
  destruct (Z.leb_spec 0 (j * object_size al)); [|nia]. destruct (Z.ltb_spec (j * object_size al) (2 ^ 32)); [reflexivity|nia].
Qed.

Lemma verify_loop_ok m p al : sizes_ok al -> forall l fuel i prev, (length l <= fuel)%nat ->
  free_chain m p (object_size al) (i :: l) -> NoDup (i :: l) -> prev ∉ l ->
  Forall (fun j => 0 <= j < object_count_per_slab al) (i :: l) ->
  verify_loop fuel m p al (p + i * object_size al) prev = Ok tt.
Proof.
  intros Hs. induction l as [|j l IH]; intros fuel i prev Hf Hc Hnd Hprev Hb; destruct Hc as [(H1 & H2 & _) Hc].
  - destruct fuel; cbn [verify_loop]; rewrite H2; reflexivity.
  - apply list.Forall_cons in Hb as [_ Hb]. apply list.NoDup_cons in Hnd as [Hij Hnd].
    pose proof Hb as [Hj Hb']%list.Forall_cons. pose proof Hnd as [Hjl _]%list.NoDup_cons.
    destruct fuel as [|fuel]; [cbn in Hf; lia|]. cbn [verify_loop]. rewrite H2. cbn [head_index].
    unfold UINT32_MAX at 1. destruct (Z.eqb_spec j (2 ^ 32 - 1)); [destruct Hs; lia|].
    destruct (Z.eqb_spec j prev) as [->|_]; [destruct Hprev; apply list_elem_of_here|]. cbn [negb c_assert mbind outcome_bind].
    rewrite get_free_ptr_ok by auto. cbn [mbind outcome_bind].
    rewrite (verify_free_object_ok m p al l j Hs Hb') by apply Hc. cbn [mbind outcome_bind].
    apply IH; auto. cbn in Hf. lia.
Qed.

(** On a well-formed heap the check passes. *)
Lemma slab_verify_ok h m k al : kheap_ok h m -> allocators h !! k = Some al -> slab_verify k h m = Ok tt.
Proof.
  intros Ho Hk. unfold slab_verify, get_alloc. rewrite Hk. cbn [mbind outcome_bind].
  destruct (free_slab_head_list al) as [|head hs] eqn:El; [reflexivity|].
  assert (Hin : head ∈ free_slab_head_list al) by (rewrite El; apply list_elem_of_here).
  destruct (ao_listed _ _ _ (ko_alloc _ _ Ho _ _ Hk) head Hin) as (sp & Hsp & Ek).
  destruct (ko_page _ _ Ho _ _ Hsp) as [bl Hp]. pose proof (po_alloc _ _ _ _ _ Hp) as Hb. assert (bl = al) as -> by congruence.
  pose proof (page_sizes _ _ Ho _ _ _ Hp) as Hs. pose proof (free_list_length _ _ _ _ _ Hp Hs) as Hlen.
  apply (po_listed _ _ _ _ _ Hp) in Hin. pose proof Hp as [_ _ Hnd Hbd Hf _ Hch _].
  unfold get_page. rewrite Hsp. cbn [mbind outcome_bind]. rewrite Hf. destruct (sp_free_list sp) as [|i l] eqn:Ei; [done|].
  cbn [head_index length] in *. pose proof Hbd as [Hi Hbl]%list.Forall_cons.
  unfold index_in_bounds. destruct (Z.ltb_spec i (object_count_per_slab al)); [|lia]. cbn [c_assert mbind outcome_bind].
  rewrite (proj1 (get_free_object_ok m head sp al i l Hs Ei Hbd Hf Hch)). cbn [mbind outcome_bind].
  apply (verify_loop_ok m head al Hs l); auto; [lia|]. intros Hu. apply (proj1 (list.Forall_forall _ _) Hbl) in Hu.
  cbn in Hu. unfold UINT32_MAX in Hu. destruct Hs. lia.
Qed.
End Verify.
