(* ===== verification/Kmalloc.v ===== *)
(** * kmalloc and phalloc: kernel/src/mm/kmalloc.c, phalloc.c

    Both allocate from an array of slab allocators of growing object sizes.  The state
    has the two arrays one after the other: [kmalloc_slabs] are allocators 0 to 18 and
    [phalloc_slabs] 19 to 32.  kmalloc hands out virtual addresses, phalloc physical
    ones; pages are in the direct map, so that the physical address of a slab is its
    address below [HHDM_OFFSET].  The laws of the allocator interface that lib/ uses are
    proved of kmalloc, for every page allocator that keeps its own. *)

From stdpp Require Import gmap list.
From S2P Require Import Prelude Mem Alloc Arith KStdlib Hhdm Slab.

Definition KMALLOC_MAX : Z := 12288.
Definition PHALLOC_MAX : Z := 65536.
Definition INVALID_PHYS : Z := 2 ^ 64 - 1.

Definition kmalloc_sizes : list Z :=
  [16; 32; 64; 96; 128; 192; 256; 384; 512; 768; 1024; 1536; 2048; 4096; 6102; 8192; 12288; 16384; 32748].
Definition phalloc_sizes : list Z :=
  [256; 384; 512; 768; 1024; 1536; 2048; 3072; 4096; 6102; 8192; 16384; 32768; 65536].
Definition phalloc_slabs : nat := 19.

Section Kmalloc.
Context `{PA : PageAllocator} (a : arch) (cbo_size HHDM_OFFSET : Z).

Record kstate := KState { slabs : kheap; kmalloc_is_initialized : bool; phalloc_is_initialized : bool }.
Definition set_slabs (h : kheap) (s : kstate) : kstate := KState h (kmalloc_is_initialized s) (phalloc_is_initialized s).

(** ** kernel/src/mm/kmalloc.c *)

(** [SLAB_ALLOC_INIT] for each size, from allocator [k] on. *)
Fixpoint init_slabs (sizes : list Z) (k : nat) (h : kheap) : outcome kheap :=
  match sizes with
  | [] => Ok h
  | size :: sizes =>
      old ← get_alloc k h;
      al ← slab_allocator_init old size;
      match al with Some al => init_slabs sizes (S k) (set_alloc k al h) | None => Panic end
  end.
Definition kmalloc_init (s : kstate) : outcome kstate :=
  h ← init_slabs kmalloc_sizes 0 (slabs s); Ok (KState h true (phalloc_is_initialized s)).

(** [while (allocator->object_size < size) allocator++] over an array of [todo] left. *)
Fixpoint find_slab (todo k : nat) (size : Z) (h : kheap) : outcome nat :=
  match todo with
  | O => Undef
  | S todo => al ← get_alloc k h; if object_size al <? size then find_slab todo (S k) size h else Ok k
  end.

Definition kmalloc (s : kstate) (m : mem) (size : Z) : outcome (option Z * kstate * mem) :=
  _ ← c_assert (kmalloc_is_initialized s);
  if size =? 0 then Ok (None, s, m)
  else if KMALLOC_MAX <? size then Ok (None, s, m)
  else
    k ← find_slab (length kmalloc_sizes) 0 size (slabs s);
    '(r, h, m) ← slab_alloc k (slabs s) m;
    Ok (r, set_slabs h s, m).
(** The block and what is written to [size_out]. *)
Definition kmalloc_size (s : kstate) (m : mem) (size : Z) : outcome (option (Z * Z) * kstate * mem) :=
  _ ← c_assert (kmalloc_is_initialized s);
  if size =? 0 then Ok (None, s, m)
  else if KMALLOC_MAX <? size then Ok (None, s, m)
  else
    k ← find_slab (length kmalloc_sizes) 0 size (slabs s);
    '(r, h, m) ← slab_alloc k (slabs s) m;
    match r with
    | Some result => al ← get_alloc k h; Ok (Some (result, object_size al), set_slabs h s, m)
    | None => Ok (None, set_slabs h s, m)
    end.

Definition kfree (s : kstate) (m : mem) (buffer : Z) : outcome (kstate * mem) :=
  _ ← c_assert (kmalloc_is_initialized s);
  '(h, m) ← slab_free a cbo_size (slabs s) m buffer;
  Ok (set_slabs h s, m).

Definition krealloc (s : kstate) (m : mem) (buffer size : Z) : outcome (option Z * kstate * mem) :=
  _ ← c_assert (kmalloc_is_initialized s);
  if buffer =? 0 then if size =? 0 then Ok (None, s, m) else kmalloc s m size
  else if size =? 0 then '(s, m) ← kfree s m buffer; Ok (None, s, m)
  else
    buffer_size ← slab_object_size (slabs s) buffer;
    if size <=? buffer_size then Ok (Some buffer, s, m)
    else
      '(ret, s, m) ← kmalloc s m size;
      match ret with
      | None => Ok (None, s, m)
      | Some ret =>
          '(m, _) ← memcpy a m ret buffer buffer_size;
          '(s, m) ← kfree s m buffer;
          Ok (Some ret, s, m)
      end.

(** ** kernel/src/mm/phalloc.c *)

Definition phalloc_init (s : kstate) : outcome kstate :=
  h ← init_slabs phalloc_sizes phalloc_slabs (slabs s); Ok (KState h (kmalloc_is_initialized s) true).

Definition phalloc (s : kstate) (m : mem) (size : Z) : outcome (Z * kstate * mem) :=
  _ ← c_assert (phalloc_is_initialized s);
  if size =? 0 then Ok (INVALID_PHYS, s, m)
  else if PHALLOC_MAX <? size then Ok (INVALID_PHYS, s, m)
  else
    k ← find_slab (length phalloc_sizes) phalloc_slabs size (slabs s);
    '(r, h, m) ← slab_alloc2 k (slabs s) m;
    match r with
    | None => Ok (INVALID_PHYS, set_slabs h s, m)
    | Some (page, offset) => Ok (u64 (page - HHDM_OFFSET + offset), set_slabs h s, m)
    end.
(** With what is written to [size_out], if anything. *)
Definition phalloc_size (s : kstate) (m : mem) (size : Z) : outcome (Z * option Z * kstate * mem) :=
  _ ← c_assert (phalloc_is_initialized s);
  if size =? 0 then Ok (INVALID_PHYS, None, s, m)
  else if PHALLOC_MAX <? size then Ok (INVALID_PHYS, None, s, m)
  else
    k ← find_slab (length phalloc_sizes) phalloc_slabs size (slabs s);
    '(r, h, m) ← slab_alloc2 k (slabs s) m;
    match r with
    | None => Ok (INVALID_PHYS, None, set_slabs h s, m)
    | Some (page, offset) =>
        al ← get_alloc k h;
        Ok (u64 (page - HHDM_OFFSET + offset), Some (object_size al), set_slabs h s, m)
    end.

Definition phalloc_free (s : kstate) (m : mem) (phys : Z) : outcome (kstate * mem) :=
  virt ← phys_to_virt PAGE_SIZE HHDM_OFFSET phys;
  '(h, m) ← slab_free a cbo_size (slabs s) m virt;
  Ok (set_slabs h s, m).

Definition phrealloc (s : kstate) (m : mem) (buffer size : Z) : outcome (Z * kstate * mem) :=
  _ ← c_assert (phalloc_is_initialized s);
  if (buffer =? 0) || (buffer =? INVALID_PHYS) then if size =? 0 then Ok (INVALID_PHYS, s, m) else phalloc s m size
  else if size =? 0 then '(s, m) ← phalloc_free s m buffer; Ok (INVALID_PHYS, s, m)
  else
    virt ← phys_to_virt PAGE_SIZE HHDM_OFFSET buffer;
    buffer_size ← slab_object_size (slabs s) virt;
    if size <=? buffer_size then Ok (buffer, s, m)
    else
      '(ret, s, m) ← phalloc s m size;
      if ret =? INVALID_PHYS then Ok (INVALID_PHYS, s, m)
      else
        dst ← phys_to_virt PAGE_SIZE HHDM_OFFSET ret;
        src ← phys_to_virt PAGE_SIZE HHDM_OFFSET buffer;
        '(m, _) ← memcpy a m dst src buffer_size;
        '(s, m) ← phalloc_free s m buffer;
        Ok (ret, s, m).
End Kmalloc.

(** ** The size classes *)

Definition rounded (n : Z) : Z := (n + 15) / 16 * 16.
(** The least class of [sizes] that holds [n] bytes, in a list that grows. *)
Definition class_for (sizes : list Z) (n : Z) : option Z := find (fun c => n <=? c) (rounded <$> sizes).

Lemma class_for_kmalloc n : 0 < n <= KMALLOC_MAX -> exists c, class_for kmalloc_sizes n = Some c /\ n <= c <= KMALLOC_MAX.
Proof.
  unfold KMALLOC_MAX. intros Hn. unfold class_for, kmalloc_sizes. cbn [fmap list_fmap find].
  repeat (match goal with |- context [n <=? ?c] => let v := eval vm_compute in c in change c with v; destruct (Z.leb_spec n v) end;
    [eexists; split; [reflexivity|lia]|]); lia.
Qed.
Lemma class_for_phalloc n : 0 < n <= PHALLOC_MAX -> exists c, class_for phalloc_sizes n = Some c /\ n <= c <= PHALLOC_MAX.
Proof.
  unfold PHALLOC_MAX. intros Hn. unfold class_for, phalloc_sizes. cbn [fmap list_fmap find].
  repeat (match goal with |- context [n <=? ?c] => let v := eval vm_compute in c in change c with v; destruct (Z.leb_spec n v) end;
    [eexists; split; [reflexivity|lia]|]); lia.
Qed.

Section Spec.
Context `{PA : PageAllocator}.

(** The state from the end of [mm_init] on. *)
Record mm_ok (s : kstate) (m : mem) : Prop := MmOk {
  mm_heap : kheap_ok (slabs s) m;
  mm_kmalloc : kmalloc_is_initialized s = true;
  mm_phalloc : phalloc_is_initialized s = true;
  mm_sizes : object_size <$> allocators (slabs s) = rounded <$> (kmalloc_sizes ++ phalloc_sizes) }.

Lemma mm_ok_step s m h' m' : mm_ok s m -> kheap_ok h' m' -> same_sizes (slabs s) h' -> mm_ok (set_slabs h' s) m'.
Proof. intros [H1 H2 H3 H4] Ho Hs. split; auto. cbn. rewrite Hs. exact H4. Qed.

Lemma find_slab_spec h n : forall l k c, take (length l) (drop k (object_size <$> allocators h)) = l ->
  find (fun c => n <=? c) l = Some c ->
  exists j al, find_slab (length l) k n h = Ok j /\ allocators h !! j = Some al /\ object_size al = c.
Proof.
  induction l as [|d l IH]; intros k c Hl Hc; [discriminate|]. cbn [length] in Hl.
  assert (Hk : (object_size <$> allocators h) !! k = Some d).
  { destruct (drop k (object_size <$> allocators h)) as [|e r] eqn:E; [discriminate|]. injection Hl as -> _.
    rewrite <- (Nat.add_0_r k), <- lookup_drop, E. reflexivity. }
  rewrite (drop_S _ _ _ Hk) in Hl. cbn [take] in Hl. injection Hl as Hl.
  apply list_lookup_fmap_Some in Hk as (al & Ed & Hk). subst d. cbn [length find_slab]. unfold get_alloc. rewrite Hk.
  cbn [mbind outcome_bind]. cbn [find] in Hc. rewrite Z.ltb_antisym. destruct (n <=? object_size al); cbn [negb].
  - injection Hc as <-. exists k, al. auto.
  - apply IH; auto.
Qed.

Lemma find_kmalloc s m n c : mm_ok s m -> class_for kmalloc_sizes n = Some c ->
  exists j al, find_slab (length kmalloc_sizes) 0 n (slabs s) = Ok j /\ allocators (slabs s) !! j = Some al /\ object_size al = c.
Proof. intros [_ _ _ Hs] Hc. change (length kmalloc_sizes) with (length (rounded <$> kmalloc_sizes)).
  apply (find_slab_spec (slabs s) n (rounded <$> kmalloc_sizes) 0 c); [rewrite Hs; reflexivity|exact Hc]. Qed.
Lemma find_phalloc s m n c : mm_ok s m -> class_for phalloc_sizes n = Some c ->
  exists j al, find_slab (length phalloc_sizes) phalloc_slabs n (slabs s) = Ok j /\ allocators (slabs s) !! j = Some al /\ object_size al = c.
Proof.
  intros [_ _ _ Hs] Hc. change (length phalloc_sizes) with (length (rounded <$> phalloc_sizes)).
  apply (find_slab_spec (slabs s) n (rounded <$> phalloc_sizes) phalloc_slabs c); [rewrite Hs; reflexivity|exact Hc].
Qed.

(** ** kmalloc *)

Lemma kmalloc_size_spec s m n : mm_ok s m -> mem_ok m -> 0 <= n ->
  exists r s' m', kmalloc_size s m n = Ok (r, s', m') /\ mm_ok s' m' /\
    match r with
    | Some (p, c) => n <= KMALLOC_MAX /\ class_for kmalloc_sizes n = Some c /\ n <= c <= KMALLOC_MAX /\
                     handed_out (slabs s) m p c (slabs s') m'
    | None => keeps (slabs s) m (slabs s') m'
    end.
Proof.
  intros Hs Hm Hn. pose proof (keeps_refl _ _ (mm_heap _ _ Hs) Hm) as K.
  unfold kmalloc_size. rewrite (mm_kmalloc _ _ Hs). cbn [c_assert mbind outcome_bind].
  destruct (Z.eqb_spec n 0); [exists None, s, m; auto|]. destruct (Z.ltb_spec KMALLOC_MAX n); [exists None, s, m; auto|].
  destruct (class_for_kmalloc n) as (c & Hc & Hb); [lia|]. destruct (find_kmalloc s m n c Hs Hc) as (j & al & -> & Hj & Ec).
  cbn [mbind outcome_bind]. destruct (slab_alloc_spec _ m j al (mm_heap _ _ Hs) Hm Hj) as (r & h' & m' & -> & Hr). cbn [mbind outcome_bind].
  destruct r as [p|].
  - rewrite Ec in Hr. pose proof (ho_sizes _ _ _ _ _ _ Hr) as Hsz.
    assert (exists al', allocators h' !! j = Some al' /\ object_size al' = c) as (al' & Hj' & Ec').
    { assert (H' : (object_size <$> allocators h') !! j = Some c) by (rewrite Hsz, list_lookup_fmap, Hj; cbn; congruence).
      apply list_lookup_fmap_Some in H' as (al' & E & H'). eauto. }
    unfold get_alloc. rewrite Hj'. cbn [mbind outcome_bind]. exists (Some (p, c)), (set_slabs h' s), m'. rewrite Ec'.
    split; [reflexivity|]. split; [apply (mm_ok_step s m); auto; apply Hr|]. auto.
  - exists None, (set_slabs h' s), m'. split; [reflexivity|]. split; [apply (mm_ok_step s m); auto; apply Hr|]. exact Hr.
Qed.
(** [kmalloc] is [kmalloc_size] without the size. *)
Lemma kmalloc_eq s m n r s' m' : kmalloc_size s m n = Ok (r, s', m') -> kmalloc s m n = Ok (fst <$> r, s', m').
Proof.
  unfold kmalloc, kmalloc_size. destruct (c_assert _); cbn [mbind outcome_bind]; try discriminate.
  destruct (n =? 0); [intros [= <- <- <-]; reflexivity|]. destruct (KMALLOC_MAX <? n); [intros [= <- <- <-]; reflexivity|].
  destruct (find_slab _ _ _ _) as [k| | |]; cbn [mbind outcome_bind]; try discriminate.
  destruct (slab_alloc k (slabs s) m) as [[[[p|] h] m1]| | |]; cbn; try discriminate; [|intros [= <- <- <-]; reflexivity].
  destruct (get_alloc k h); cbn; try discriminate. intros [= <- <- <-]. reflexivity.
Qed.

(** Moving the [nb] bytes of a live object to a new one and taking the old one back. *)
Record moved (h : kheap) (m : mem) (b nb p c : Z) (h' : kheap) (m' : mem) : Prop := Moved {
  mv_ok : kheap_ok h' m';
  mv_mem : mem_ok m';
  mv_sizes : same_sizes h h';
  mv_live : live h' p c;
  mv_apart : disjoint_regions p c b nb;
  mv_contents : forall i, 0 <= i < nb -> m' (p + i) = m (b + i);
  mv_rest : forall i, nb <= i < c -> m' (p + i) = 0;
  mv_others : forall q k, live h q k -> q <> b -> q <> p /\ live h' q k /\ forall x, q <= x < q + k -> m' x = m x }.

Lemma copy_object a h m b nb p c h1 m1 : kheap_ok h m -> live h b nb -> nb <= c -> handed_out h m p c h1 m1 ->
  exists m2 r, memcpy a m1 p b nb = Ok (m2, r) /\ copied m1 m2 p b nb /\ mem_ok m2 /\ kheap_ok h1 m2.
Proof.
  intros Ho Hb Hle H. destruct (live_range _ _ _ _ Ho Hb) as (Hb0 & Hnb & Hbe). destruct (ho_range _ _ _ _ _ _ H) as [Hp0 Hpe].
  assert (Hdisj : forall x, b <= x < b + nb -> ~ (p <= x < p + c)).
  { intros x Hx Hp. apply (live_not_avail _ _ _ _ x Ho Hb Hx). apply (ho_zero _ _ _ _ _ _ H x Hp). }
  destruct (memcpy_spec a m1 p b nb) as (m2 & E & Hc); [apply H|lia| |].
  { unfold fw_safe. pose proof (Hdisj b ltac:(lia)). pose proof (Hdisj (b + nb - 1) ltac:(lia)).
    destruct (Z.le_gt_cases p b); [lia|]. right.
    destruct (Z.le_gt_cases (b + nb) p); [lia|]. destruct (Hdisj p ltac:(lia)). lia. }
  exists m2, (if nb =? 2 then p + 2 else p). split; [exact E|]. split; [exact Hc|].
  assert (Hm2 : mem_ok m2) by (eapply copied_ok; [|exact Hc]; apply H). split; [exact Hm2|].
  eapply kheap_frame; [apply H|]. intros x Hx. destruct (ho_avail _ _ _ _ _ _ H x Hx) as [_ Hnp].
  rewrite Hc. wcase; [lia|reflexivity].
Qed.
Lemma moved_spec h m b nb p c h1 m1 m2 h2 m3 : kheap_ok h m -> live h b nb -> nb <= c -> handed_out h m p c h1 m1 ->
  copied m1 m2 p b nb -> taken_back h1 m2 b nb h2 m3 -> moved h m b nb p c h2 m3.
Proof.
  intros Ho Hb Hle H Hc T. destruct (live_range _ _ _ _ Ho Hb) as (Hb0 & Hnb & Hbe).
  destruct (ho_keep _ _ _ _ _ _ H _ _ Hb) as [Hbp _].
  assert (Hp2 : live h2 p c) by (apply (tb_keep _ _ _ _ _ _ T); [apply H|auto]).
  assert (Hpc : forall x, p <= x < p + c -> m3 x = m2 x).
  { intros x Hx. apply (tb_frame _ _ _ _ _ _ T). eapply live_not_avail; [apply T|exact Hp2|exact Hx]. }
  assert (Hfr : forall q k x, live h q k -> q <= x < q + k -> m1 x = m x /\ ~ (p <= x < p + c)).
  { intros q k x Hq Hx. pose proof (live_not_avail _ _ _ _ x Ho Hq Hx) as Hna. split; [apply H, Hna|].
    intros Hp. apply Hna. apply (ho_zero _ _ _ _ _ _ H x Hp). }
  split.
  - apply T.
  - apply T.
  - pose proof (tb_sizes _ _ _ _ _ _ T) as S1. pose proof (ho_sizes _ _ _ _ _ _ H) as S2. unfold same_sizes in *. congruence.
  - exact Hp2.
  - eapply live_disjoint; [apply H|apply H|apply (ho_keep _ _ _ _ _ _ H _ _ Hb)|auto].
  - intros i Hi. rewrite Hpc, Hc by lia. wcase; [|lia]. replace (b + (p + i - p)) with (b + i) by lia. apply (Hfr b nb); auto. lia.
  - intros i Hi. rewrite Hpc, Hc by lia. wcase; [lia|]. apply (ho_zero _ _ _ _ _ _ H). lia.
  - intros q k Hq Hqb. destruct (ho_keep _ _ _ _ _ _ H _ _ Hq) as [Hqp Hq1]. split; [exact Hqp|].
    assert (Hq2 : live h2 q k) by (apply (tb_keep _ _ _ _ _ _ T); auto). split; [exact Hq2|]. intros x Hx.
    rewrite (tb_frame _ _ _ _ _ _ T), Hc by (eapply live_not_avail; [apply T|exact Hq2|exact Hx]).
    destruct (Hfr q k x Hq Hx) as [E Hnp]. wcase; [lia|exact E].
Qed.
End Spec.

(** ** Freeing and resizing *)

Section Resize.
Context `{PA : PageAllocator} (a : arch) (cbo_size : Z) (Hcbo : cbo_size = 0 \/ pow2_64 cbo_size).

Lemma kfree_spec s m p n : mm_ok s m -> mem_ok m -> live (slabs s) p n ->
  exists s' m', kfree a cbo_size s m p = Ok (s', m') /\ mm_ok s' m' /\ taken_back (slabs s) m p n (slabs s') m'.
Proof.
  intros Hs Hm Hl. unfold kfree. rewrite (mm_kmalloc _ _ Hs). cbn [c_assert mbind outcome_bind].
  destruct (slab_free_spec a cbo_size Hcbo _ m p n (mm_heap _ _ Hs) Hm Hl) as (h' & m' & -> & H). cbn [mbind outcome_bind].
  exists (set_slabs h' s), m'. split; [reflexivity|]. split; [|exact H]. apply (mm_ok_step s m); auto; apply H.
Qed.

Lemma krealloc_live s m b nb n : mm_ok s m -> mem_ok m -> live (slabs s) b nb -> 0 <= n ->
  exists r s' m', krealloc a cbo_size s m b n = Ok (r, s', m') /\ mm_ok s' m' /\
    match r with
    | Some p => 0 < n /\ (p = b /\ n <= nb /\ s' = s /\ m' = m \/
        nb < n /\ exists c, n <= c /\ class_for kmalloc_sizes n = Some c /\ moved (slabs s) m b nb p c (slabs s') m')
    | None => (n = 0 /\ taken_back (slabs s) m b nb (slabs s') m') \/ (nb < n /\ keeps (slabs s) m (slabs s') m')
    end.
Proof.
  intros Hs Hm Hb Hn. pose proof (mm_heap _ _ Hs) as Ho. destruct (live_range _ _ _ _ Ho Hb) as (Hb0 & Hnb & Hbe).
  unfold krealloc. rewrite (mm_kmalloc _ _ Hs). cbn [c_assert mbind outcome_bind]. destruct (Z.eqb_spec b 0); [lia|].
  destruct (Z.eqb_spec n 0).
  { destruct (kfree_spec s m b nb Hs Hm Hb) as (s' & m' & -> & Hs' & T). exists None, s', m'. auto. }
  rewrite (slab_object_size_spec _ _ _ _ Ho Hb). cbn [mbind outcome_bind].
  destruct (Z.leb_spec n nb); [exists (Some b), s, m; split; [reflexivity|]; split; [exact Hs|]; split; [lia|]; auto|].
  destruct (kmalloc_size_spec s m n Hs Hm Hn) as (r & s1 & m1 & E & Hs1 & Hr). rewrite (kmalloc_eq _ _ _ _ _ _ E).
  destruct r as [[p c]|]; cbn [mbind outcome_bind fmap option_fmap option_map fst]; [|exists None, s1, m1; auto].
  destruct Hr as (_ & Hc & Hle & HO).
  assert (Hbc : nb <= c) by lia. destruct (copy_object a _ _ _ _ _ _ _ _ Ho Hb Hbc HO) as (m2 & r2 & -> & Hcp & Hm2 & Ho2). cbn [mbind outcome_bind].
  destruct (kfree_spec s1 m2 b nb) as (s2 & m3 & -> & Hs2 & T); [split; [exact Ho2|apply Hs1..]|exact Hm2|apply (ho_keep _ _ _ _ _ _ HO _ _ Hb)|].
  cbn [mbind outcome_bind]. exists (Some p), s2, m3. split; [reflexivity|]. split; [exact Hs2|]. split; [lia|]. right. split; [lia|].
  exists c. split; [lia|]. split; [exact Hc|]. eapply moved_spec; eauto.
Qed.
End Resize.

(** ** phalloc *)

Section Phalloc.
Context `{PA : PageAllocator} (a : arch) (cbo_size HHDM_OFFSET : Z) (Hcbo : cbo_size = 0 \/ pow2_64 cbo_size).
Context (Hhhdm : 0 <= HHDM_OFFSET)
  (direct_map : forall h m p o, pheap_ok h m -> pblock h p o -> HHDM_OFFSET + PAGE_SIZE <= p).

Lemma live_direct h m p n : kheap_ok h m -> live h p n -> HHDM_OFFSET + PAGE_SIZE <= p.
Proof.
  intros Ho Hl. destruct (live_object h m p n Ho Hl) as (q & sp & al & i & Hq & Hp & Hi & _ & -> & _).
  pose proof (direct_map _ _ _ _ (ko_pages _ _ Ho) (po_block _ _ _ _ _ Hp)). destruct (page_sizes _ _ Ho _ _ _ Hp). nia.
Qed.
Lemma phys_to_virt_live h m p n : kheap_ok h m -> live h p n -> phys_to_virt PAGE_SIZE HHDM_OFFSET (p - HHDM_OFFSET) = Ok p.
Proof.
  intros Ho Hl. pose proof (live_direct _ _ _ _ Ho Hl). destruct (live_range _ _ _ _ Ho Hl) as (Hp & Hn & He).
  assert (Hps : 0 < PAGE_SIZE) by (unfold PAGE_SIZE; pose proof page_shift_ok; apply Z.pow_pos_nonneg; lia).
  rewrite phys_to_virt_ok by lia. f_equal. lia.
Qed.

(** The block at physical address [phys]. *)
Definition phys_block (h : kheap) (phys n : Z) : Prop := live h (HHDM_OFFSET + phys) n.

Lemma phalloc_size_spec s m n : mm_ok s m -> mem_ok m -> 0 <= n ->
  exists r o s' m', phalloc_size HHDM_OFFSET s m n = Ok (r, o, s', m') /\ mm_ok s' m' /\
    match o with
    | Some c => r <> INVALID_PHYS /\ class_for phalloc_sizes n = Some c /\ n <= c <= PHALLOC_MAX /\
                handed_out (slabs s) m (HHDM_OFFSET + r) c (slabs s') m'
    | None => r = INVALID_PHYS /\ keeps (slabs s) m (slabs s') m'
    end.
Proof.
  intros Hs Hm Hn. pose proof (keeps_refl _ _ (mm_heap _ _ Hs) Hm) as K.
  unfold phalloc_size. rewrite (mm_phalloc _ _ Hs). cbn [c_assert mbind outcome_bind].
  destruct (Z.eqb_spec n 0); [exists INVALID_PHYS, None, s, m; auto|].
  destruct (Z.ltb_spec PHALLOC_MAX n); [exists INVALID_PHYS, None, s, m; auto|].
  destruct (class_for_phalloc n) as (c & Hc & Hb); [lia|]. destruct (find_phalloc s m n c Hs Hc) as (j & al & -> & Hj & Ec).
  cbn [mbind outcome_bind]. destruct (slab_alloc_spec _ m j al (mm_heap _ _ Hs) Hm Hj) as (r & h' & m' & E & Hr).
  destruct (slab_alloc2_eq _ _ _ _ _ _ E) as (r2 & -> & Hr2). cbn [mbind outcome_bind].
  destruct r as [p|], r2 as [[head off]|]; try done.
  - subst p. rewrite Ec in Hr. pose proof (ho_sizes _ _ _ _ _ _ Hr) as Hsz.
    assert (H' : (object_size <$> allocators h') !! j = Some c) by (rewrite Hsz, list_lookup_fmap, Hj; cbn; congruence).
    apply list_lookup_fmap_Some in H' as (al' & -> & Hj'). unfold get_alloc. rewrite Hj'. cbn [mbind outcome_bind].
    pose proof (live_direct _ _ _ _ (ho_ok _ _ _ _ _ _ Hr) (ho_live _ _ _ _ _ _ Hr)) as Hd.
    destruct (ho_range _ _ _ _ _ _ Hr) as [H0 He].
    assert (Hps : 0 < PAGE_SIZE) by (unfold PAGE_SIZE; pose proof page_shift_ok; apply Z.pow_pos_nonneg; lia).
    rewrite wrap_small by (unfold is_u; lia). eexists _, (Some _), _, _. split; [reflexivity|].
    split; [apply (mm_ok_step s m); auto; apply Hr|]. split; [unfold INVALID_PHYS; lia|]. split; [exact Hc|]. split; [lia|].
    replace (HHDM_OFFSET + (head - HHDM_OFFSET + off)) with (head + off) by lia. exact Hr.
  - eexists _, None, _, _. split; [reflexivity|]. split; [apply (mm_ok_step s m); auto; apply Hr|]. auto.
Qed.
Lemma phalloc_eq s m n r o s' m' : phalloc_size HHDM_OFFSET s m n = Ok (r, o, s', m') -> phalloc HHDM_OFFSET s m n = Ok (r, s', m').
Proof.
  unfold phalloc, phalloc_size. destruct (c_assert _); cbn [mbind outcome_bind]; try discriminate.
  destruct (n =? 0); [intros [= <- _ <- <-]; reflexivity|]. destruct (PHALLOC_MAX <? n); [intros [= <- _ <- <-]; reflexivity|].
  destruct (find_slab _ _ _ _) as [k| | |]; cbn [mbind outcome_bind]; try discriminate.
  destruct (slab_alloc2 k (slabs s) m) as [[[[[p off]|] h] m1]| | |]; cbn; try discriminate; [|intros [= <- _ <- <-]; reflexivity].
  destruct (get_alloc k h); cbn; try discriminate. intros [= <- _ <- <-]. reflexivity.
Qed.
Lemma phalloc_free_spec s m phys n : mm_ok s m -> mem_ok m -> phys_block (slabs s) phys n ->
  exists s' m', phalloc_free a cbo_size HHDM_OFFSET s m phys = Ok (s', m') /\ mm_ok s' m' /\
    taken_back (slabs s) m (HHDM_OFFSET + phys) n (slabs s') m'.
Proof.
  intros Hs Hm Hl. pose proof (phys_to_virt_live _ _ _ _ (mm_heap _ _ Hs) Hl) as E. unfold phalloc_free.
  replace (HHDM_OFFSET + phys - HHDM_OFFSET) with phys in E by lia. rewrite E. cbn [mbind outcome_bind].
  destruct (slab_free_spec a cbo_size Hcbo _ m _ n (mm_heap _ _ Hs) Hm Hl) as (h' & m' & -> & H). cbn [mbind outcome_bind].
  exists (set_slabs h' s), m'. split; [reflexivity|]. split; [|exact H]. apply (mm_ok_step s m); auto; apply H.
Qed.

Lemma phrealloc_live s m b nb n : mm_ok s m -> mem_ok m -> phys_block (slabs s) b nb -> 0 <= n ->
  exists r s' m', phrealloc a cbo_size HHDM_OFFSET s m b n = Ok (r, s', m') /\ mm_ok s' m' /\
    (r = INVALID_PHYS /\ (n = 0 /\ taken_back (slabs s) m (HHDM_OFFSET + b) nb (slabs s') m' \/
                          nb < n /\ keeps (slabs s) m (slabs s') m') \/
     r = b /\ 0 < n <= nb /\ s' = s /\ m' = m \/
     nb < n /\ exists c, n <= c /\ class_for phalloc_sizes n = Some c /\
       moved (slabs s) m (HHDM_OFFSET + b) nb (HHDM_OFFSET + r) c (slabs s') m').
Proof.
  intros Hs Hm Hb Hn. pose proof (mm_heap _ _ Hs) as Ho. destruct (live_range _ _ _ _ Ho Hb) as (Hb0 & Hnb & Hbe).
  pose proof (live_direct _ _ _ _ Ho Hb) as Hd. pose proof (phys_to_virt_live _ _ _ _ Ho Hb) as Ev.
  replace (HHDM_OFFSET + b - HHDM_OFFSET) with b in Ev by lia.
  assert (Hps : 0 < PAGE_SIZE) by (unfold PAGE_SIZE; pose proof page_shift_ok; apply Z.pow_pos_nonneg; lia).
  unfold phrealloc. rewrite (mm_phalloc _ _ Hs). cbn [c_assert mbind outcome_bind]. destruct (Z.eqb_spec b 0); [lia|].
  unfold INVALID_PHYS at 1. destruct (Z.eqb_spec b (2 ^ 64 - 1)); [lia|]. cbn [orb].
  destruct (Z.eqb_spec n 0).
  { destruct (phalloc_free_spec s m b nb Hs Hm Hb) as (s' & m' & -> & Hs' & T). exists INVALID_PHYS, s', m'. auto 10. }
  rewrite Ev. cbn [mbind outcome_bind]. rewrite (slab_object_size_spec _ _ _ _ Ho Hb). cbn [mbind outcome_bind].
  destruct (Z.leb_spec n nb); [exists b, s, m; split; [reflexivity|]; split; [exact Hs|]; right; left; split; [reflexivity|lia || auto with lia]|].
  destruct (phalloc_size_spec s m n Hs Hm Hn) as (r & o & s1 & m1 & E & Hs1 & Hr). rewrite (phalloc_eq _ _ _ _ _ _ _ E).
  cbn [mbind outcome_bind]. destruct o as [c|].
  2: { destruct Hr as [-> K]. rewrite Z.eqb_refl. exists INVALID_PHYS, s1, m1. auto 10. }
  destruct Hr as (Hne & Hc & Hle & HO). destruct (Z.eqb_spec r INVALID_PHYS); [done|].
  pose proof (phys_to_virt_live _ _ _ _ (ho_ok _ _ _ _ _ _ HO) (ho_live _ _ _ _ _ _ HO)) as Er.
  replace (HHDM_OFFSET + r - HHDM_OFFSET) with r in Er by lia. rewrite Er. cbn [mbind outcome_bind].
  assert (Hbc : nb <= c) by lia. destruct (copy_object a _ _ _ _ _ _ _ _ Ho Hb Hbc HO) as (m2 & r2 & -> & Hcp & Hm2 & Ho2). cbn [mbind outcome_bind].
  destruct (phalloc_free_spec s1 m2 b nb) as (s2 & m3 & -> & Hs2 & T); [split; [exact Ho2|apply Hs1..]|exact Hm2|apply (ho_keep _ _ _ _ _ _ HO _ _ Hb)|].
  cbn [mbind outcome_bind]. exists r, s2, m3. split; [reflexivity|]. split; [exact Hs2|]. right. right. split; [lia|].
  exists c. split; [lia|]. split; [exact Hc|]. eapply moved_spec; eauto.
Qed.
End Phalloc.

(** ** Boot: [kmalloc_init] and [phalloc_init] at the end of [mm_init] *)

Definition zero_allocator : slab_allocator := SlabAllocator [] 0 0 0 0 0.
Section Boot.
Context `{PA : PageAllocator}.

Definition boot_state (ph : pheap) : kstate := KState (KHeap (replicate 33 zero_allocator) ∅ ph) false false.

Lemma init_slabs_spec : forall sizes k h, Forall (fun n => 0 < n <= 2 ^ 20) sizes -> (k + length sizes <= length (allocators h))%nat ->
  exists als, init_slabs sizes k h =
      Ok (KHeap (take k (allocators h) ++ als ++ drop (k + length sizes) (allocators h)) (slab_pages h) (ph h)) /\
    object_size <$> als = rounded <$> sizes /\ Forall (fun al => sizes_ok al /\ free_slab_head_list al = []) als.
Proof.
  induction sizes as [|n sizes IH]; intros k h Hf Hk; cbn [length] in *.
  - exists []. rewrite Nat.add_0_r, app_nil_l, take_drop. destruct h. auto.
  - apply list.Forall_cons in Hf as [Hn Hf]. destruct (lookup_lt_is_Some_2 (allocators h) k) as [old Hold]; [lia|].
    cbn [init_slabs]. unfold get_alloc. rewrite Hold. cbn [mbind outcome_bind].
    destruct (slab_allocator_init_spec old n Hn) as (al & -> & Hs & Hl & Hm). cbn [mbind outcome_bind].
    destruct (IH (S k) (set_alloc k al h) Hf) as (als & -> & Es & Ha); [cbn; rewrite length_insert; lia|].
    exists (al :: als). split; [|split].
    + cbn [set_alloc allocators slab_pages ph]. f_equal. f_equal.
      rewrite (take_S_r _ _ al) by (apply list_lookup_insert_eq; lia). rewrite take_insert_ge by lia.
      rewrite drop_insert_lt by lia. replace (k + S (length sizes))%nat with (S k + length sizes)%nat by lia.
      rewrite <- app_assoc. reflexivity.
    + rewrite !fmap_cons, Es. f_equal. destruct Hm as (Hm & Hle & Hleast). unfold rounded.
      assert (Hn' : n <= (n + 15) / 16 * 16) by (pose proof (Z.div_mod (n + 15) 16); pose proof (Z.mod_pos_bound (n + 15) 16); lia).
      pose proof (Hleast _ (Z.divide_factor_r _ _) Hn') as Hup. destruct Hm as [q Hq]. rewrite Hq in *.
      assert ((n + 15) / 16 <= q) by (apply Z.lt_succ_r, Z.div_lt_upper_bound; lia). lia.
    + apply list.Forall_cons. auto.
Qed.

Lemma boot_spec ph m : pheap_ok ph m ->
  exists s1 s, kmalloc_init (boot_state ph) = Ok s1 /\ phalloc_init s1 = Ok s /\ mm_ok s m /\ forall p n, ~ live (slabs s) p n.
Proof.
  intros Hp. unfold kmalloc_init, boot_state. cbn [slabs].
  destruct (init_slabs_spec kmalloc_sizes 0 (KHeap (replicate 33 zero_allocator) ∅ ph)) as (als & -> & Es & Ha);
    [repeat (apply list.Forall_cons; split; [lia|]); apply list.Forall_nil_2|cbn; lia|].
  cbn [mbind outcome_bind]. assert (Hl : length als = 19%nat) by (rewrite <- (length_fmap object_size), Es; reflexivity).
  set (h1 := KHeap (take 0 _ ++ _) _ _).
  exists (KState h1 true false). assert (Eh1 : allocators h1 = als ++ replicate 14 zero_allocator) by reflexivity.
  unfold phalloc_init. cbn [slabs]. destruct (init_slabs_spec phalloc_sizes phalloc_slabs h1) as (bls & E & Es2 & Hb);
    [repeat (apply list.Forall_cons; split; [lia|]); apply list.Forall_nil_2|rewrite Eh1, length_app, Hl; cbn; lia|].
  rewrite Eh1 in E. unfold phalloc_slabs in E. rewrite take_app_le, take_ge, drop_ge in E by (rewrite ?length_app, Hl; cbn; lia).
  rewrite app_nil_r in E. eexists. split; [reflexivity|]. cbn [slabs]. unfold phalloc_slabs. rewrite E. cbn [mbind outcome_bind]. split; [reflexivity|].
  assert (Hall : Forall (fun al => sizes_ok al /\ free_slab_head_list al = []) (als ++ bls)) by (apply list.Forall_app; auto).
  split; [|intros p n (q & sp & al & i & Hq & _); cbn in Hq; rewrite lookup_empty in Hq; discriminate].
  split; cbn; auto.
  - split; cbn; [exact Hp| |intros p sp H; rewrite lookup_empty in H; discriminate].
    intros k al Hk. destruct (Forall_lookup_1 _ _ _ _ Hall Hk) as [Hs El]. split; [exact Hs|rewrite El; constructor|].
    rewrite El. intros p Hpn. destruct (not_elem_of_nil p Hpn).
  - rewrite fmap_app, Es, Es2. reflexivity.
Qed.
End Boot.

(** ** The specification: a map of blocks

    The client sees the blocks it holds and their bytes.  [kmalloc] hands out a zeroed
    block of the least class that fits, apart from all others, or nothing; [kfree] gives
    up a block; [krealloc] keeps the bytes. *)

Abbreviation blocks := (gmap Z (list Z)).
Inductive request := Kmalloc (size : Z) | Krealloc (buffer size : Z) | Kfree (buffer : Z) | Write (buffer : Z) (i : nat) (v : Z).

(** A block of [n] bytes at [p] that shares no byte with a block of [A]. *)
Definition clear_of (A : blocks) (p n : Z) : Prop :=
  0 < p /\ p + n < 2 ^ 64 /\ forall q bs, A !! q = Some bs -> disjoint_regions p n q (Z.of_nat (length bs)).
Definition zeros (n : Z) : list Z := replicate (Z.to_nat n) 0.

Inductive blocks_step (A : blocks) : request -> option Z -> blocks -> Prop :=
  | kmalloc_gives n p c : class_for kmalloc_sizes n = Some c -> n <= c -> clear_of A p c ->
      blocks_step A (Kmalloc n) (Some p) (<[p:=zeros c]> A)
  | kmalloc_fails n : blocks_step A (Kmalloc n) None A
  | kfree_takes p bs : A !! p = Some bs -> blocks_step A (Kfree p) None (delete p A)
  | krealloc_null n r A' : blocks_step A (Kmalloc n) r A' -> blocks_step A (Krealloc 0 n) r A'
  | krealloc_zero p bs : A !! p = Some bs -> blocks_step A (Krealloc p 0) None (delete p A)
  | krealloc_fits p n bs : A !! p = Some bs -> 0 < n <= Z.of_nat (length bs) -> blocks_step A (Krealloc p n) (Some p) A
  | krealloc_grows p n bs q c : A !! p = Some bs -> Z.of_nat (length bs) < n ->
      class_for kmalloc_sizes n = Some c -> n <= c -> clear_of A q c ->
      blocks_step A (Krealloc p n) (Some q) (<[q:=bs ++ zeros (c - Z.of_nat (length bs))]> (delete p A))
  | krealloc_fails p n bs : A !! p = Some bs -> Z.of_nat (length bs) < n -> blocks_step A (Krealloc p n) None A
  | write_byte p bs i v : A !! p = Some bs -> (i < length bs)%nat -> blocks_step A (Write p i v) None (<[p:=<[i:=v]> bs]> A).

(** What a client may ask: sizes are 32 bits wide, blocks its own. *)
Definition may_ask (A : blocks) (r : request) : Prop :=
  match r with
  | Kmalloc n => is_u32 n
  | Krealloc p n => is_u32 n /\ (p = 0 \/ is_Some (A !! p))
  | Kfree p => is_Some (A !! p)
  | Write p i v => is_u8 v /\ exists bs, A !! p = Some bs /\ (i < length bs)%nat
  end.

Section Blocks.
Context `{PA : PageAllocator} (a : arch) (cbo_size : Z).

Definition serve (s : kstate) (m : mem) (r : request) : outcome (option Z * kstate * mem) :=
  match r with
  | Kmalloc n => kmalloc s m n
  | Krealloc p n => krealloc a cbo_size s m p n
  | Kfree p => '(s, m) ← kfree a cbo_size s m p; Ok (None, s, m)
  | Write p i v => Ok (None, s, store 1 m (p + Z.of_nat i) v)
  end.

Record holds (s : kstate) (m : mem) (A : blocks) : Prop := Holds {
  hd_ok : mm_ok s m;
  hd_mem : mem_ok m;
  hd_block : forall p bs, A !! p = Some bs -> live (slabs s) p (Z.of_nat (length bs)) /\ bytes_at m p (length bs) = bs }.

(** The bytes of a block whose memory did not change. *)
Lemma bytes_kept (m m' : mem) p (bs : list Z) : (forall x, p <= x < p + Z.of_nat (length bs) -> m' x = m x) ->
  bytes_at m p (length bs) = bs -> bytes_at m' p (length bs) = bs.
Proof. intros H E. rewrite <- E at 2. apply bytes_at_ext. intros i Hi. apply H. lia. Qed.
Lemma bytes_zeros (m : mem) p n : (forall x, p <= x < p + n -> m x = 0) -> bytes_at m p (length (zeros n)) = zeros n.
Proof.
  intros H. unfold zeros. rewrite length_replicate. apply list_eq. intros i. destruct (decide (i < Z.to_nat n)%nat).
  - rewrite lookup_bytes_at, lookup_replicate_2 by auto. f_equal. apply H. lia.
  - rewrite !lookup_ge_None_2 by (rewrite ?length_bytes_at, ?length_replicate; lia). reflexivity.
Qed.
Lemma clear_live s m A p c h' m' : holds s m A -> 0 < c -> handed_out (slabs s) m p c h' m' -> clear_of A p c.
Proof.
  intros H Hc HO. destruct (ho_range _ _ _ _ _ _ HO). split; [lia|]. split; [lia|]. intros q bs Hq.
  destruct (hd_block _ _ _ H q bs Hq) as [Hl _]. destruct (ho_keep _ _ _ _ _ _ HO _ _ Hl) as [Hne Hl'].
  eapply live_disjoint; [apply HO|apply HO|exact Hl'|auto].
Qed.

Lemma holds_given s m A p c s' m' : holds s m A -> mm_ok s' m' -> 0 < c -> handed_out (slabs s) m p c (slabs s') m' ->
  holds s' m' (<[p:=zeros c]> A).
Proof.
  intros H Hs' Hc HO. split; [exact Hs'|apply HO|]. intros q bs Hq. destruct (decide (q = p)) as [->|Hne].
  - rewrite lookup_insert_eq in Hq. injection Hq as <-. split; [|apply bytes_zeros; intros x Hx; apply HO, Hx].
    unfold zeros. rewrite length_replicate, Z2Nat.id by lia. apply HO.
  - rewrite lookup_insert_ne in Hq by auto. destruct (hd_block _ _ _ H q bs Hq) as [Hl Hb].
    split; [apply HO, Hl|]. eapply bytes_kept; [|exact Hb]. intros x Hx. apply HO. eapply live_not_avail; [apply H|exact Hl|exact Hx].
Qed.
Lemma holds_kept s m A s' m' : holds s m A -> mm_ok s' m' -> keeps (slabs s) m (slabs s') m' -> holds s' m' A.
Proof.
  intros H Hs' K. split; [exact Hs'|apply K|]. intros q bs Hq. destruct (hd_block _ _ _ H q bs Hq) as [Hl Hb].
  split; [apply K, Hl|]. eapply bytes_kept; [|exact Hb]. intros x Hx. apply K. eapply live_not_avail; [apply H|exact Hl|exact Hx].
Qed.
Lemma holds_freed s m A p bs s' m' : holds s m A -> mm_ok s' m' -> A !! p = Some bs ->
  taken_back (slabs s) m p (Z.of_nat (length bs)) (slabs s') m' -> holds s' m' (delete p A).
Proof.
  intros H Hs' Hp T. split; [exact Hs'|apply T|]. intros q cs [Hne Hq]%lookup_delete_Some.
  destruct (hd_block _ _ _ H q cs Hq) as [Hl Hb]. assert (Hl' : live (slabs s') q (Z.of_nat (length cs))) by (apply T; auto).
  split; [exact Hl'|]. eapply bytes_kept; [|exact Hb]. intros x Hx. apply T. eapply live_not_avail; [apply T|exact Hl'|exact Hx].
Qed.
Lemma holds_moved s m A p bs q c s' m' : holds s m A -> mm_ok s' m' -> A !! p = Some bs -> Z.of_nat (length bs) <= c ->
  moved (slabs s) m p (Z.of_nat (length bs)) q c (slabs s') m' ->
  holds s' m' (<[q:=bs ++ zeros (c - Z.of_nat (length bs))]> (delete p A)).
Proof.
  intros H Hs' Hp Hle M. split; [exact Hs'|apply M|]. intros r cs Hr. destruct (decide (r = q)) as [->|Hne].
  - rewrite lookup_insert_eq in Hr. injection Hr as <-. destruct (hd_block _ _ _ H p bs Hp) as [_ Hb]. split.
    + unfold zeros. rewrite length_app, length_replicate, Nat2Z.inj_add, Z2Nat.id by lia.
      replace (Z.of_nat (length bs) + _) with c by lia. apply M.
    + rewrite length_app, bytes_at_app. f_equal.
      * rewrite <- Hb at 2. apply bytes_at_ext. intros i Hi. apply M. exact Hi.
      * apply bytes_zeros. intros x Hx. replace x with (q + (x - q)) by lia. apply M. lia.
  - rewrite lookup_insert_ne in Hr by auto. apply lookup_delete_Some in Hr as [Hnp Hr].
    destruct (hd_block _ _ _ H r cs Hr) as [Hl Hb]. destruct (mv_others _ _ _ _ _ _ _ _ M _ _ Hl) as (_ & Hl' & Hx); [auto|].
    split; [exact Hl'|]. eapply bytes_kept; eauto.
Qed.
Lemma holds_written s m A p bs i v : holds s m A -> A !! p = Some bs -> (i < length bs)%nat -> is_u8 v ->
  holds s (store 1 m (p + Z.of_nat i) v) (<[p:=<[i:=v]> bs]> A).
Proof.
  intros H Hp Hi Hv. destruct (hd_block _ _ _ H p bs Hp) as [Hl Hb]. pose proof (mm_heap _ _ (hd_ok _ _ _ H)) as Ho.
  set (m' := store 1 m (p + Z.of_nat i) v).
  assert (Hm' : forall x, m' x = if x =? p + Z.of_nat i then v else m x).
  { intros x. unfold m'. rewrite store_spec. change (Z.of_nat 1) with 1. destruct (Z.eqb_spec x (p + Z.of_nat i)) as [->|]; wcase; try lia; try reflexivity.
    rewrite Z.sub_diag. cbn. rewrite Z.div_1_r. apply Z.mod_small. exact Hv. }
  split.
  - destruct (hd_ok _ _ _ H). split; auto. eapply kheap_frame; [exact Ho|]. intros x Hx. rewrite Hm'.
    destruct (Z.eqb_spec x (p + Z.of_nat i)) as [->|]; [|reflexivity]. destruct (live_not_avail _ _ _ _ (p + Z.of_nat i) Ho Hl); [lia|exact Hx].
  - pose proof (hd_mem _ _ _ H). unfold m'. auto with aph.
  - intros q cs Hq. destruct (decide (q = p)) as [->|Hne].
    + rewrite lookup_insert_eq in Hq. injection Hq as <-. rewrite length_insert. split; [exact Hl|].
      apply list_eq. intros j. destruct (decide (j < length bs)%nat) as [Hj|Hj].
      * rewrite lookup_bytes_at, Hm' by auto. destruct (decide (j = i)) as [->|Hji].
        -- rewrite Z.eqb_refl, list_lookup_insert_eq by auto. reflexivity.
        -- rewrite list_lookup_insert_ne by auto. destruct (Z.eqb_spec (p + Z.of_nat j) (p + Z.of_nat i)); [lia|].
           rewrite <- Hb, lookup_bytes_at by auto. reflexivity.
      * rewrite !lookup_ge_None_2 by (rewrite ?length_bytes_at, ?length_insert; lia). reflexivity.
    + rewrite lookup_insert_ne in Hq by auto. destruct (hd_block _ _ _ H q cs Hq) as [Hlq Hbq]. split; [exact Hlq|].
      eapply bytes_kept; [|exact Hbq]. intros x Hx. rewrite Hm'. destruct (Z.eqb_spec x (p + Z.of_nat i)) as [->|]; [|reflexivity].
      pose proof (live_disjoint _ _ _ _ _ _ Ho Hl Hlq ltac:(auto)). unfold disjoint_regions in *. lia.
Qed.

Lemma serve_kmalloc s m A n : holds s m A -> is_u32 n ->
  exists r s' m' A', kmalloc s m n = Ok (r, s', m') /\ blocks_step A (Kmalloc n) r A' /\ holds s' m' A'.
Proof.
  intros H [Hn _]. destruct (kmalloc_size_spec s m n (hd_ok _ _ _ H) (hd_mem _ _ _ H) Hn) as (r & s' & m' & E & Hs' & Hr).
  rewrite (kmalloc_eq _ _ _ _ _ _ E). destruct r as [[p c]|].
  - destruct Hr as (_ & Hc & Hle & HO). pose proof (live_range _ _ _ _ (ho_ok _ _ _ _ _ _ HO) (ho_live _ _ _ _ _ _ HO)) as (_ & Hc0 & _).
    exists (Some p), s', m', (<[p:=zeros c]> A). split; [reflexivity|]. split.
    + constructor; [exact Hc|lia|]. eapply clear_live; eauto. lia.
    + eapply holds_given; eauto. lia.
  - exists None, s', m', A. split; [reflexivity|]. split; [constructor|]. eapply holds_kept; eauto.
Qed.
Lemma serve_krealloc s m A p bs n : cbo_size = 0 \/ pow2_64 cbo_size -> holds s m A -> is_u32 n -> A !! p = Some bs ->
  exists r s' m' A', krealloc a cbo_size s m p n = Ok (r, s', m') /\ blocks_step A (Krealloc p n) r A' /\ holds s' m' A'.
Proof.
  intros Hcbo H [Hn _] Hp. destruct (hd_block _ _ _ H p bs Hp) as [Hl _].
  destruct (krealloc_live a cbo_size Hcbo s m p _ n (hd_ok _ _ _ H) (hd_mem _ _ _ H) Hl Hn) as (r & s' & m' & E & Hs' & Hr).
  destruct r as [q|]; [destruct Hr as [Hn0 [(-> & Hle & -> & ->)|(Hlt & c & Hc & Hcl & M)]]|destruct Hr as [[-> T]|[Hlt K]]].
  - exists (Some p), s, m, A. split; [exact E|]. split; [econstructor; eauto|exact H].
  - exists (Some q), s', m', (<[q:=bs ++ zeros (c - Z.of_nat (length bs))]> (delete p A)). split; [exact E|].
    split; [|eapply holds_moved; eauto; lia]. eapply krealloc_grows; eauto.
    destruct (live_range _ _ _ _ (mv_ok _ _ _ _ _ _ _ _ M) (mv_live _ _ _ _ _ _ _ _ M)) as (H1 & _ & H2).
    split; [exact H1|]. split; [exact H2|]. intros r cs Hr. destruct (decide (r = p)) as [->|Hrp].
    + assert (cs = bs) as -> by congruence. apply M.
    + destruct (hd_block _ _ _ H r cs Hr) as [Hlr _]. destruct (mv_others _ _ _ _ _ _ _ _ M _ _ Hlr Hrp) as (Hrq & Hlr' & _).
      eapply live_disjoint; [apply M|apply M|exact Hlr'|auto].
  - exists None, s', m', (delete p A). split; [exact E|]. split; [econstructor; eauto|eapply holds_freed; eauto].
  - exists None, s', m', A. split; [exact E|]. split; [econstructor; eauto|eapply holds_kept; eauto].
Qed.
End Blocks.

(** ** A page allocator that keeps its laws

    Pages are taken from [[bnext, blimit)]; those given back are not used again. *)

Module PageBump.

Record bump := Bump { bnext : Z; blimit : Z; bblocks : list (Z * Z); bfreed : list (Z * Z) }.
Definition BASE : Z := 2 ^ 32.
Definition size (o : Z) : Z := pages_size 12 o.
Definition inside (b : Z * Z) (x : Z) : Prop := b.1 <= x < b.1 + size b.2.

Definition bump_alloc (h : bump) (m : mem) (o : Z) : outcome (option Z * bump * mem) :=
  Ok (if bnext h + size o <=? blimit h
      then (Some (bnext h), Bump (bnext h + size o) (blimit h) ((bnext h, o) :: bblocks h) (bfreed h),
            fun x => if within (bnext h) (size o) x then 0 else m x)
      else (None, h, m)).
Definition bump_free (h : bump) (m : mem) (p o : Z) : outcome (bump * mem) :=
  Ok (Bump (bnext h) (blimit h) (filter (fun b => b.1 <> p) (bblocks h)) ((p, o) :: bfreed h), m).
Definition bump_avail (h : bump) (x : Z) : Prop := bnext h <= x < blimit h \/ exists b, b ∈ bfreed h /\ inside b x.

Record bump_ok (h : bump) : Prop := BumpOk {
  bo_next : BASE <= bnext h /\ bnext h mod 2 ^ 12 = 0 /\ bnext h <= blimit h < 2 ^ 40;
  bo_below : forall b, b ∈ bblocks h ++ bfreed h ->
    BASE <= b.1 /\ b.1 mod 2 ^ 12 = 0 /\ b.1 + size b.2 <= bnext h /\ 0 <= b.2;
  bo_nodup : NoDup (map fst (bblocks h ++ bfreed h));
  bo_apart : forall b c, b ∈ bblocks h ++ bfreed h -> c ∈ bblocks h ++ bfreed h -> b.1 <> c.1 ->
    disjoint_regions b.1 (size b.2) c.1 (size c.2) }.

Lemma size_pos o : 0 <= o -> 2 ^ 12 <= size o /\ size o mod 2 ^ 12 = 0.
Proof.
  intros Ho. unfold size, pages_size. rewrite Z.pow_add_r by lia. pose proof (Z.pow_pos_nonneg 2 o). split; [nia|].
  rewrite Z.mul_comm. apply Z.mod_mul. lia.
Qed.

Lemma bump_alloc_ok h o : bump_ok h -> 0 <= o -> bnext h + size o <= blimit h ->
  bump_ok (Bump (bnext h + size o) (blimit h) ((bnext h, o) :: bblocks h) (bfreed h)).
Proof.
  intros [Hn Hb Hd Ha] Ho Hl. pose proof (size_pos o Ho) as [Hs Hm]. split; cbn.
  - split; [lia|]. split; [|lia]. rewrite Z.add_mod, Hm by lia. rewrite Z.add_0_r, Z.mod_mod by lia. apply Hn.
  - intros b [->|Hb']%elem_of_cons; [cbn; lia|]. pose proof (Hb b Hb'). lia.
  - apply list.NoDup_cons. split; [|exact Hd]. intros Hin. apply list_elem_of_In, in_map_iff in Hin as (b & E & Hin).
    apply list_elem_of_In in Hin. destruct (Hb b Hin) as (_ & _ & Hle & H0). pose proof (size_pos _ H0). lia.
  - intros b c [->|Hb']%elem_of_cons [->|Hc']%elem_of_cons Hne; cbn in *; [done|pose proof (Hb c Hc')|pose proof (Hb b Hb')|auto];
      unfold disjoint_regions; lia.
Qed.

Lemma bump_members h p o b : (p, o) ∈ bblocks h ->
  b ∈ filter (fun b => b.1 <> p) (bblocks h) ++ (p, o) :: bfreed h -> b ∈ bblocks h ++ bfreed h.
Proof.
  intros Hp. rewrite !elem_of_app, elem_of_cons. intros [[_ H]%(list_elem_of_filter (fun b : Z * Z => b.1 <> p))|[->|H]]; auto.
Qed.
Lemma bump_free_ok h p o : bump_ok h -> (p, o) ∈ bblocks h ->
  bump_ok (Bump (bnext h) (blimit h) (filter (fun b => b.1 <> p) (bblocks h)) ((p, o) :: bfreed h)).
Proof.
  intros [Hn Hb Hd Ha] Hp. split; cbn; [exact Hn| | |].
  - intros b H%bump_members; auto.
  - clear Hb Ha. revert Hd Hp. generalize (bblocks h) (bfreed h). clear. intros l f.
    rewrite !map_app. cbn [map]. intros [H1 [H2 H3]]%list.NoDup_app Hp.
    assert (Hpf : p ∉ map fst f) by (apply H2, list_elem_of_In, in_map_iff; exists (p, o); split; [reflexivity|apply list_elem_of_In, Hp]).
    assert (Hsub : forall x, x ∈ map fst (filter (fun b => b.1 <> p) l) -> x <> p /\ x ∈ map fst l).
    { intros x (b & -> & Hin)%list_elem_of_fmap. apply (list_elem_of_filter (fun b : Z * Z => b.1 <> p)) in Hin as [Hne Hin].
      split; [exact Hne|]. apply list_elem_of_fmap. eauto. }
    apply list.NoDup_app. split; [|split].
    + clear - H1. induction l as [|c l IH]; [constructor|]. cbn in H1. apply list.NoDup_cons in H1 as [Hc H1].
      rewrite filter_cons. destruct (decide _); [|auto]. cbn. apply list.NoDup_cons. split; [|auto].
      intros (b & E & Hin)%list_elem_of_fmap. apply (list_elem_of_filter (fun b : Z * Z => b.1 <> p)) in Hin as [_ Hin].
      apply Hc, list_elem_of_fmap. eauto.
    + intros x [Hne Hx]%Hsub [->|Hxf]%elem_of_cons; [done|]. exact (H2 x Hx Hxf).
    + apply list.NoDup_cons. auto.
  - intros b c H1%bump_members H2%bump_members; auto.
Qed.

Lemma bump_avail_free h p o x :
  bump_avail (Bump (bnext h) (blimit h) (filter (fun b => b.1 <> p) (bblocks h)) ((p, o) :: bfreed h)) x <->
  bump_avail h x \/ p <= x < p + size o.
Proof.
  unfold bump_avail. cbn [bnext blimit bfreed]. split.
  - intros [H|(b & [->|Hb]%elem_of_cons & Hx)]; [auto|auto|]. left. right. eauto.
  - intros [[H|(b & Hb & Hx)]|H]; [auto| |].
    + right. exists b. split; [apply list_elem_of_further, Hb|exact Hx].
    + right. exists (p, o). split; [apply list_elem_of_here|exact H].
Qed.
Lemma bump_block_avail h p o x : bump_ok h -> (p, o) ∈ bblocks h -> p <= x < p + size o -> ~ bump_avail h x.
Proof.
  intros [Hn Hb Hd Ha] Hp Hx. assert (Hp' : (p, o) ∈ bblocks h ++ bfreed h) by (apply elem_of_app; auto).
  pose proof (Hb _ Hp') as Hbp. cbn in Hbp. intros [H|(b & Hbf & Hxb)]; [lia|].
  assert (Hb' : b ∈ bblocks h ++ bfreed h) by (apply elem_of_app; auto).
  destruct (Z.eq_dec p b.1) as [E|E].
  - rewrite map_app in Hd. apply list.NoDup_app in Hd as (_ & Hd & _). apply (Hd p).
    + apply list_elem_of_fmap. exists (p, o). auto.
    + apply list_elem_of_fmap. eauto.
  - pose proof (Ha _ _ Hp' Hb' E). unfold disjoint_regions, inside in *. cbn in *. lia.
Qed.

#[global] Program Instance bump_pages : PageAllocator := {|
  pheap := bump; page_shift := 12; alloc_pages := bump_alloc; free_pages := bump_free; pavail := bump_avail;
  pblock h p o := (p, o) ∈ bblocks h; pheap_ok h m := bump_ok h |}.
Next Obligation. lia. Qed.
Next Obligation. auto. Qed.
Next Obligation.
  intros h m p o Hh Hp. pose proof Hh as [Hn Hb _ _]. destruct (Hb (p, o)) as (H1 & H2 & H3 & H4); [apply elem_of_app; auto|].
  cbn in *. unfold BASE, size in *. split; [lia|]. split; [exact H2|]. pose proof (size_pos o H4). unfold size in *.
  split; [lia|intros a Ha; eapply bump_block_avail; eauto].
Qed.
Next Obligation.
  intros h m p o q o' [_ _ _ Ha] Hp Hq Hne. exact (Ha (p, o) (q, o') (proj2 (elem_of_app _ _ _) (or_introl Hp))
    (proj2 (elem_of_app _ _ _) (or_introl Hq)) Hne).
Qed.
Next Obligation.
  intros h m o Hh Hm Ho. cbn. unfold bump_alloc. destruct (Z.leb_spec (bnext h + size o) (blimit h)).
  2: { exists None, h, m. auto 10. }
  pose proof (size_pos o ltac:(lia)) as [Hs _]. eexists _, _, _. split; [reflexivity|]. cbn.
  assert (Hav : forall x, bnext h <= x < bnext h + size o -> bump_avail h x) by (intros x Hx; left; lia).
  split; [apply bump_alloc_ok; auto; lia|]. split; [intros x; destruct (within _ _ _); [unfold is_u; lia|apply Hm]|].
  split; [intros x Hx; wcase; [destruct Hx; apply Hav; lia|reflexivity]|].
  split; [intros x [Hx|Hx]; [left; cbn in Hx; lia|right; exact Hx]|].
  split; [intros q k Hq; apply list_elem_of_further, Hq|]. split; [apply list_elem_of_here|]. split.
  - intros q k Hq ->. destruct Hh as [Hn Hb _ _]. destruct (Hb (bnext h, k)) as (_ & _ & H3 & H4); [apply elem_of_app; auto|].
    cbn in *. pose proof (size_pos k H4). lia.
  - intros x Hx. split; [apply Hav, Hx|]. wcase; [reflexivity|unfold size in *; lia].
Qed.
Next Obligation.
  intros h m p o Hh Hm Hp. cbn. eexists _, _. split; [reflexivity|]. split; [apply bump_free_ok; auto|]. split; [exact Hm|].
  split; [intros x; apply bump_avail_free|]. split; [|auto].
  intros q k Hq Hne. apply (list_elem_of_filter (fun b : Z * Z => b.1 <> p)). auto.
Qed.

(** No page handed out yet, and 1 MiB of them. *)
Definition start : bump := Bump BASE (BASE + 2 ^ 20) [] [].
Lemma start_ok : bump_ok start.
Proof.
  split; cbn; [unfold BASE; split; [lia|split; [reflexivity|lia]]| |apply NoDup_nil_2|].
  - intros b Hb. destruct (not_elem_of_nil b Hb).
  - intros b c Hb. destruct (not_elem_of_nil b Hb).
Qed.
End PageBump.

(** ** Results *)

Section Results.
Context `{PA : PageAllocator} (a : arch) (cbo_size : Z).

Lemma serve_spec s m A r : cbo_size = 0 \/ pow2_64 cbo_size -> holds s m A -> may_ask A r ->
  exists res s' m' A', serve a cbo_size s m r = Ok (res, s', m') /\ blocks_step A r res A' /\ holds s' m' A'.
Proof.
  intros Hcbo H Hr. destruct r as [n|p n|p|p i v]; cbn [serve may_ask] in *.
  - apply serve_kmalloc; auto.
  - destruct Hr as [Hn [->|[bs Hp]]]; [|eapply serve_krealloc; eauto].
    destruct (serve_kmalloc s m A n H Hn) as (r & s' & m' & A' & E & St & H').
    destruct (Z.eq_dec n 0) as [->|Hn0].
    + exists None, s, m, A. split; [|split; [apply krealloc_null; constructor|exact H]].
      unfold krealloc. rewrite (mm_kmalloc _ _ (hd_ok _ _ _ H)). reflexivity.
    + exists r, s', m', A'. split; [|split; [apply krealloc_null, St|exact H']].
      unfold krealloc. rewrite (mm_kmalloc _ _ (hd_ok _ _ _ H)). cbn [c_assert mbind outcome_bind Z.eqb].
      destruct (Z.eqb_spec n 0); [done|exact E].
  - destruct Hr as [bs Hp]. destruct (hd_block _ _ _ H p bs Hp) as [Hl _].
    destruct (kfree_spec a cbo_size Hcbo s m p _ (hd_ok _ _ _ H) (hd_mem _ _ _ H) Hl) as (s' & m' & -> & Hs' & T).
    exists None, s', m', (delete p A). split; [reflexivity|]. split; [econstructor; eauto|eapply holds_freed; eauto].
  - destruct Hr as [Hv (bs & Hp & Hi)]. exists None, s, (store 1 m (p + Z.of_nat i) v), (<[p:=<[i:=v]> bs]> A).
    split; [reflexivity|]. split; [econstructor; eauto|apply holds_written; auto].
Qed.

(** C5: [kmalloc], [krealloc], [kfree] and writes to blocks refine the map of blocks:
    from a state that holds the blocks [A], every request a client may make returns, with
    a result and a new map the specification allows, and the new state holds them. *)
Theorem kmalloc_refines_blocks s m A r : cbo_size = 0 \/ pow2_64 cbo_size -> holds s m A -> may_ask A r ->
  exists res s' m' A', serve a cbo_size s m r = Ok (res, s', m') /\ blocks_step A r res A' /\ holds s' m' A'.
Proof. apply serve_spec. Qed.

(** [kmalloc_init] and [phalloc_init] at the end of [mm_init] never fire an assertion,
    whatever the page size and the page allocator, and leave the state the other
    theorems start from: every class has the allocator for its size, and no block is out. *)
Theorem kmalloc_boot ph m : pheap_ok ph m -> mem_ok m ->
  exists s1 s, kmalloc_init (boot_state ph) = Ok s1 /\ phalloc_init s1 = Ok s /\ holds s m ∅ /\ forall p n, ~ live (slabs s) p n.
Proof.
  intros Hp Hm. destruct (boot_spec ph m Hp) as (s1 & s & E1 & E2 & Hs & Hl). exists s1, s. split; [exact E1|]. split; [exact E2|].
  split; [|exact Hl]. split; [exact Hs|exact Hm|]. intros p bs H. rewrite lookup_empty in H. discriminate.
Qed.

Lemma slab_alloc_none h m k al r h' m' : kheap_ok h m -> mem_ok m -> allocators h !! k = Some al -> slab_alloc k h m = Ok (r, h', m') ->
  r = None <-> free_slab_head_list al = [] /\ exists ph' m1, alloc_pages (ph h) m (slab_order al) = Ok (None, ph', m1).
Proof.
  intros Ho Hm Hk E. destruct (slab_with_free_spec h m k al Ho Hm Hk) as (r1 & h1 & m1 & E1 & K & Hr1). unfold slab_alloc in E.
  rewrite E1 in E. cbn [mbind outcome_bind] in E.
  unfold slab_with_free, alloc_slab_page, get_alloc in E1. rewrite Hk in E1. cbn [mbind outcome_bind] in E1.
  assert (Hr : r = None <-> r1 = None).
  { destruct r1 as [head|]; [|injection E as <- _ _; tauto]. destruct Hr1 as (sp & bl & Hsp & Hp & Ek & Hne & Es).
    destruct (alloc_from_spec h1 m1 k bl head sp (kp_ok _ _ _ _ K) (kp_mem _ _ _ _ K) Hsp Hp Ek Hne) as (obj & h2 & m2 & E2 & _).
    unfold alloc_from in E2. rewrite E2 in E. injection E as <- _ _. split; discriminate. }
  rewrite Hr. clear E Hr. destruct (free_slab_head_list al); [|injection E1 as <- _ _; split; [discriminate|intros [[=] _]]].
  destruct (alloc_pages (ph h) m (slab_order al)) as [[[[head|] ph'] m2]| | |]; cbn in E1; try discriminate.
  - destruct (link_objects _ _ _ _ _ _). injection E1 as <- _ _. split; [discriminate|intros (_ & ? & ? & [=])].
  - injection E1 as <- _ _. split; [eauto 10|reflexivity].
Qed.

(** C35: [kmalloc] returns [NULL] only for a size of 0, a size above [KMALLOC_MAX], or when
    the allocator of the class has no slab with a free object and the page allocator has
    no pages for a new one. *)
Theorem kmalloc_null s m n : mm_ok s m -> mem_ok m -> is_u32 n ->
  exists r s' m', kmalloc s m n = Ok (r, s', m') /\
    (r = None <-> n = 0 \/ KMALLOC_MAX < n \/
      exists k al, find_slab (length kmalloc_sizes) 0 n (slabs s) = Ok k /\ allocators (slabs s) !! k = Some al /\ Some (object_size al) = class_for kmalloc_sizes n /\
        free_slab_head_list al = [] /\ exists ph' m1, alloc_pages (ph (slabs s)) m (slab_order al) = Ok (None, ph', m1)).
Proof.
  intros Hs Hm Hn. unfold kmalloc. rewrite (mm_kmalloc _ _ Hs). cbn [c_assert mbind outcome_bind].
  destruct (Z.eqb_spec n 0) as [->|Hn0]; [exists None, s, m; tauto|].
  destruct (Z.ltb_spec KMALLOC_MAX n) as [Hgt|Hle]; [exists None, s, m; tauto|].
  destruct (class_for_kmalloc n) as (c & Hc & Hb); [unfold is_u in Hn; lia|].
  destruct (find_kmalloc s m n c Hs Hc) as (j & al & Ej & Hj & Ec). rewrite Ej. cbn [mbind outcome_bind].
  destruct (slab_alloc_spec _ m j al (mm_heap _ _ Hs) Hm Hj) as (r & h' & m' & E & _). rewrite E. cbn [mbind outcome_bind].
  exists r, (set_slabs h' s), m'. split; [reflexivity|].
  rewrite (slab_alloc_none _ _ _ _ _ _ _ (mm_heap _ _ Hs) Hm Hj E). split.
  - intros [H1 H2]. right. right. exists j, al. rewrite Hc, Ec. auto 10.
  - intros [?|[?|(k & bl & Ek & Hk & _ & H1 & H2)]]; [lia|lia|]. assert (k = j) as -> by congruence.
    assert (bl = al) as -> by congruence. auto.
Qed.
End Results.

(** ** The allocator interface of lib/ *)

Section Interface.
Context `{PA : PageAllocator} (a : arch) (cbo_size : Z) (Hcbo : cbo_size = 0 \/ pow2_64 cbo_size).

(** kmalloc keeps the laws that the buffers, strings, arrays and hash maps of lib/ use. *)
#[export] Program Instance kmalloc_allocator : Allocator := {|
  heap := kstate; malloc_size := kmalloc_size; free := kfree a cbo_size;
  avail s := kavail (slabs s); block s := live (slabs s); heap_ok := mm_ok |}.
Next Obligation. intros s m m' [H1 H2 H3 H4] H. split; auto. eapply kheap_frame; eauto. Qed.
Next Obligation.
  intros s m n Hs Hm [Hn _]. destruct (kmalloc_size_spec s m n Hs Hm Hn) as (r & s' & m' & E & Hs' & Hr).
  exists r, s', m'. split; [exact E|]. split; [exact Hs'|]. destruct r as [[p c]|].
  - destruct Hr as (_ & _ & Hle & HO). unfold KMALLOC_MAX in Hle. destruct (ho_range _ _ _ _ _ _ HO).
    split; [apply HO|]. split; [apply HO|]. split; [lia|]. split; [lia|]. split; [lia|].
    split; [intros x Hx; apply HO, Hx|]. split; [apply HO|]. split; apply HO.
  - split; [apply Hr|]. split; [apply Hr|]. split; apply Hr.
Qed.
Next Obligation.
  intros s m p n Hs Hm Hl. destruct (kfree_spec a cbo_size Hcbo s m p n Hs Hm Hl) as (s' & m' & E & Hs' & T).
  exists s', m'. split; [exact E|]. split; [exact Hs'|]. split; [apply T|]. split; [apply T|]. split; apply T.
Qed.
End Interface.

(** [phrealloc] of a block handed out by [phalloc]: a size of 0 frees it, a size that
    fits returns it, and otherwise the result is a new block of the least class with the
    same bytes followed by zeros, the old block is taken back and all other blocks keep
    their bytes; or [INVALID_PHYS], with every block as it was. *)
Theorem phrealloc_moves `{PA : PageAllocator} a cbo_size HHDM_OFFSET s m b nb n : cbo_size = 0 \/ pow2_64 cbo_size ->
  0 <= HHDM_OFFSET -> (forall h m p o, pheap_ok h m -> pblock h p o -> HHDM_OFFSET + PAGE_SIZE <= p) ->
  mm_ok s m -> mem_ok m -> phys_block HHDM_OFFSET (slabs s) b nb -> is_u32 n ->
  exists r s' m', phrealloc a cbo_size HHDM_OFFSET s m b n = Ok (r, s', m') /\ mm_ok s' m' /\
    (r = INVALID_PHYS /\ (n = 0 /\ taken_back (slabs s) m (HHDM_OFFSET + b) nb (slabs s') m' \/
                          nb < n /\ keeps (slabs s) m (slabs s') m') \/
     r = b /\ 0 < n <= nb /\ s' = s /\ m' = m \/
     nb < n /\ exists c, n <= c /\ class_for phalloc_sizes n = Some c /\
       moved (slabs s) m (HHDM_OFFSET + b) nb (HHDM_OFFSET + r) c (slabs s') m').
Proof. intros Hcbo Hh Hd Hs Hm Hb Hn. apply (phrealloc_live a cbo_size HHDM_OFFSET Hcbo Hh Hd); auto. apply Hn. Qed.

(** ** Examples *)

Definition booted : kstate :=
  match s ← kmalloc_init (boot_state PageBump.start); phalloc_init s with Ok s => s | _ => boot_state PageBump.start end.
Definition zero_mem : mem := fun _ => 0.
Lemma booted_ok : holds booted zero_mem ∅.
Proof.
  destruct (boot_spec (PA := PageBump.bump_pages) PageBump.start zero_mem PageBump.start_ok) as (s1 & s & E1 & E2 & Hs & _).
  unfold booted. rewrite E1. cbn [mbind outcome_bind]. rewrite E2. split; [exact Hs|intros x; unfold is_u, zero_mem; lia|].
  intros p bs H. rewrite lookup_empty in H. discriminate.
Qed.

Lemma kmalloc_boot_witness : exists s1 s, kmalloc_init (boot_state PageBump.start) = Ok s1 /\ phalloc_init s1 = Ok s /\
  holds s zero_mem ∅ /\ forall p n, ~ live (slabs s) p n.
Proof. apply (kmalloc_boot (PA := PageBump.bump_pages) PageBump.start zero_mem PageBump.start_ok). intros x. unfold is_u, zero_mem. lia. Defined.
Lemma kmalloc_refines_blocks_witness : exists res s' m' A', serve x86_64 0 booted zero_mem (Kmalloc 100) = Ok (res, s', m') /\
  blocks_step ∅ (Kmalloc 100) res A' /\ holds s' m' A'.
Proof. apply (kmalloc_refines_blocks x86_64 0 booted zero_mem ∅ (Kmalloc 100)); [lia|exact booted_ok|cbn; unfold is_u; lia]. Defined.
Lemma kmalloc_null_witness : exists r s' m', kmalloc booted zero_mem 5000 = Ok (r, s', m') /\
    (r = None <-> 5000 = 0 \/ KMALLOC_MAX < 5000 \/
      exists k al, find_slab (length kmalloc_sizes) 0 5000 (slabs booted) = Ok k /\ allocators (slabs booted) !! k = Some al /\
        Some (object_size al) = class_for kmalloc_sizes 5000 /\
        free_slab_head_list al = [] /\ exists ph' m1, alloc_pages (ph (slabs booted)) zero_mem (slab_order al) = Ok (None, ph', m1)).
Proof.
  apply (kmalloc_null booted zero_mem 5000); [apply booted_ok|intros x; unfold is_u, zero_mem; lia|unfold is_u; lia].
Defined.

(** After one [phalloc(300)]. *)
Definition one_block : kstate * mem :=
  match phalloc 0 booted zero_mem 300 with Ok (_, s, m) => (s, m) | _ => (booted, zero_mem) end.
Lemma phrealloc_moves_witness : exists r s' m',
  phrealloc x86_64 0 0 (fst one_block) (snd one_block) PageBump.BASE 1000 = Ok (r, s', m') /\ mm_ok s' m' /\
    (r = INVALID_PHYS /\ (1000 = 0 /\ taken_back (slabs (fst one_block)) (snd one_block) (0 + PageBump.BASE) 384 (slabs s') m' \/
                          384 < 1000 /\ keeps (slabs (fst one_block)) (snd one_block) (slabs s') m') \/
     r = PageBump.BASE /\ 0 < 1000 <= 384 /\ s' = fst one_block /\ m' = snd one_block \/
     384 < 1000 /\ exists c, 1000 <= c /\ class_for phalloc_sizes 1000 = Some c /\
       moved (slabs (fst one_block)) (snd one_block) (0 + PageBump.BASE) 384 (0 + r) c (slabs s') m').
Proof.
  destruct booted_ok as [Hs Hm _].
  assert (Hd : forall (h : pheap) (m : mem) p o, pheap_ok h m -> pblock h p o -> 0 + PAGE_SIZE <= p).
  { intros h m p o [_ Hb _ _] Hp. destruct (Hb (p, o)) as [H _]; [apply elem_of_app; auto|]. cbn in H.
    unfold PageBump.BASE in H. unfold PAGE_SIZE. cbn. lia. }
  destruct (phalloc_size_spec 0 ltac:(lia) Hd booted zero_mem 300 Hs Hm ltac:(lia)) as (r & o & s' & m' & E & Hs' & Ho).
  assert (Er : r = PageBump.BASE /\ o = Some 384).
  { assert (H : match phalloc_size 0 booted zero_mem 300 with Ok (r, o, _, _) => r = PageBump.BASE /\ o = Some 384 | _ => False end)
      by (vm_compute; auto). rewrite E in H. exact H. }
  destruct Er as [-> ->]. destruct Ho as (_ & _ & _ & HO).
  unfold one_block. rewrite (phalloc_eq 0 _ _ _ _ _ _ _ E). cbn [fst snd].
  apply (phrealloc_moves x86_64 0 0 s' m' PageBump.BASE 384 1000); auto; [lia|apply HO|apply HO|unfold is_u; lia].
Defined.
