(* ===== verification/Mm.v ===== *)
(** * The memory manager put together: kernel/src/mm/early.c, init of page_alloc.c, slab.c, kmalloc.c

    [free_all_pages] gives the pages of one section to the page allocator, the slab
    allocators of kmalloc and phalloc are set up over it, and a client asks for blocks:
    the state is that of all three.  The client is any function from the results it has
    seen to its next request. *)

From stdpp Require Import gmap list.
From S2P Require Import Prelude Mem Alloc Arith Range KStdlib Hhdm Slab Kmalloc PageAlloc.

(** ** Clients of kmalloc *)

Abbreviation client := (list (option Z) -> request).

(** The client asks only what it may, whatever blocks it is given. *)
Fixpoint polite (n : nat) (c : client) (hist : list (option Z)) (A : blocks) : Prop :=
  match n with
  | O => True
  | S n => may_ask A (c hist) /\ forall r A', blocks_step A (c hist) r A' -> polite n c (r :: hist) A'
  end.
(** The blocks after a history of results. *)
Inductive explains (c : client) : list (option Z) -> blocks -> Prop :=
  | explains_nil : explains c [] ∅
  | explains_step hist A r A' : explains c hist A -> blocks_step A (c hist) r A' -> explains c (r :: hist) A'.

Section Client.
Context `{PA : PageAllocator} (a : arch) (cbo_size : Z).

Fixpoint run_client (n : nat) (c : client) (hist : list (option Z)) (s : kstate) (m : mem) : outcome (list (option Z) * kstate * mem) :=
  match n with
  | O => Ok (hist, s, m)
  | S n => '(r, s, m) ← serve a cbo_size s m (c hist); run_client n c (r :: hist) s m
  end.
Lemma run_client_spec : cbo_size = 0 \/ pow2_64 cbo_size -> forall c n hist s m A, holds s m A -> polite n c hist A -> explains c hist A ->
  exists hist' s' m' A', run_client n c hist s m = Ok (hist', s', m') /\ explains c hist' A' /\ holds s' m' A' /\
    length hist' = (n + length hist)%nat.
Proof.
  intros Hcbo c. induction n as [|n IH]; intros hist s m A H Hp He; cbn [run_client]; [eauto 10|].
  destruct Hp as [Hr Hp]. destruct (serve_spec a cbo_size s m A (c hist) Hcbo H Hr) as (r & s1 & m1 & A1 & -> & St & H1).
  cbn [mbind outcome_bind]. destruct (IH (r :: hist) s1 m1 A1 H1 (Hp r A1 St)) as (hist' & s' & m' & A' & E & He' & H' & L).
  { econstructor; eauto. }
  exists hist', s', m', A'. split; [exact E|]. split; [exact He'|]. split; [exact H'|]. cbn in L. lia.
Qed.
End Client.

(** ** The machine *)

Section Machine.
Context (a : arch) (PAGE_SHIFT cbo_size HHDM_OFFSET : Z) (largepage_order : Z -> Z).
Context (Hshift : 12 <= PAGE_SHIFT <= 16) (Hcbo : cbo_size = 0 \/ (0 < cbo_size /\ (cbo_size | PAGE_SIZE PAGE_SHIFT)))
  (Hhhdm : 0 <= HHDM_OFFSET /\ HHDM_OFFSET mod PAGE_SIZE PAGE_SHIFT = 0).
Definition machine_pages : PageAllocator := buddy_pages a PAGE_SHIFT cbo_size HHDM_OFFSET largepage_order Hshift Hcbo Hhhdm.

(** The end of [mm_init]: free pages to the page allocator, then [kmalloc_init] and
    [phalloc_init]. *)
Definition mm_boot (l : list (Z * Z)) (w : world) : outcome (kstate (PA := machine_pages)) :=
  w ← free_all_pages a l w;
  s ← kmalloc_init (PA := machine_pages) (boot_state (PA := machine_pages) w);
  phalloc_init (PA := machine_pages) s.

(** A section as [page_section_init] left it, and ranges of its pages to free. *)
Record bootable (w : world) (l : list (Z * Z)) : Prop := Bootable {
  bt_inv : winv a PAGE_SHIFT w 0 0;
  bt_used : used w = ∅;
  bt_free : forall x, ~ fpage w x;
  bt_zones : zones_ok w /\ zones w <> [];
  bt_section : exists s, one_section PAGE_SHIFT HHDM_OFFSET w s;
  bt_ranges : forall p n, (p, n) ∈ l -> 1 <= n /\ usable PAGE_SHIFT w p n;
  bt_apart : ForallOrdPairs (fun b c : Z * Z => disjoint_regions b.1 b.2 c.1 c.2) l }.

Lemma free_all_pages_ok w l : bootable w l -> exists w', free_all_pages a l w = Ok w' /\ pages_ok a PAGE_SHIFT HHDM_OFFSET w'.
Proof.
  intros [I Hu Hf Hz [s Hs] Hl Hd]. assert (Hsec : forall k t, sections w !! k = Some t -> t = s).
  { intros k t Ht. rewrite (os_sections _ _ _ _ Hs) in Ht. destruct k; [injection Ht as <-; reflexivity|discriminate]. }
  destruct (free_all_pages_spec a PAGE_SHIFT w l I Hu Hf) as (w' & E & I' & S & _); [|exact Hd|].
  { intros p n Hin. destruct (Hl p n Hin). split; [auto|]. split; [auto|]. intros k t ->%Hsec. destruct 1. apply Hs. }
  exists w'. split; [exact E|]. destruct (static_area PAGE_SHIFT HHDM_OFFSET w w' S Hz) as [Hz' Ha'].
  { intros k t ->%Hsec. apply Hs. }
  destruct (static_one PAGE_SHIFT HHDM_OFFSET w w' s S Hs) as (s' & Hs' & _). split; [split; auto|eauto].
  intros p o. rewrite (st_used _ _ S), Hu, lookup_empty. discriminate.
Qed.

End Machine.

(** A client that asks for a block, writes to it and grows it. *)
Definition small_client : client := fun hist =>
  match rev hist with
  | [] => Kmalloc 100
  | [Some p] => Write p 5 42
  | [Some p; _] => Krealloc p 300
  | _ => Kmalloc 1
  end.
Lemma small_client_polite : polite 3 small_client [] ∅.
Proof.
  cbn [polite]. repeat match goal with
  | |- _ /\ _ => split
  | |- forall r A', blocks_step _ _ r A' -> _ => intros ? ? St; cbn in St; inversion St; subst; clear St
  | |- True => exact I
  end; cbn [may_ask small_client rev app]; try (unfold is_u; lia).
  - split; [unfold is_u; lia|]. eexists. split; [apply lookup_insert_eq|]. unfold zeros. rewrite length_replicate. lia.
  - split; [unfold is_u; lia|]. right. rewrite lookup_insert_eq. eauto.
Qed.
Lemma new_bootable a n hhdm : 1 <= n < 2 ^ 31 -> 0 <= hhdm < 2 ^ 63 -> bootable a 12 hhdm (new_world a n) [(0, n)].
Proof.
  intros Hn Hh. split.
  - apply new_winv. lia.
  - reflexivity.
  - apply new_free.
  - apply new_zones.
  - eexists. split; [reflexivity|reflexivity|apply (new_addr a n ltac:(lia) hhdm Hh 0); reflexivity|reflexivity|].
    unfold range_wf. cbn. lia.
  - intros p k [= -> ->]%list_elem_of_singleton. split; [lia|]. apply new_usable; lia.
  - constructor; constructor.
Qed.

(** The same run, evaluated: the block, the byte written to it, and the block it moves to. *)
Definition demo_pages : PageAllocator :=
  machine_pages x86_64 12 0 (2 ^ 40) (fun _ => 9) ltac:(lia) ltac:(auto) ltac:(split; [lia|reflexivity]).
Definition demo_run : outcome (list (option Z) * list Z) :=
  s ← mm_boot x86_64 12 0 (2 ^ 40) (fun _ => 9) ltac:(lia) ltac:(auto) ltac:(split; [lia|reflexivity]) [(0, 64)] (new_world x86_64 64);
  '(hist, _, m) ← run_client (PA := demo_pages) x86_64 0 3 small_client [] s (fun _ => 7);
  match hist with
  | Some q :: _ => Ok (map (option_map (fun p => p - 2 ^ 40 - 2 ^ 20)) hist, map m [q + 4; q + 5; q + 6; q + 299])
  | _ => Undef
  end.
Example machine_run : demo_run = Ok ([Some 4096; None; Some 0], [0; 42; 0; 0]).
Proof. vm_compute. reflexivity. Qed.
