(* ===== verification/Paging.v ===== *)
(** * Page table formats: mm/types.h and mm/types.c of the architectures

    [paging] is what the code above uses of an architecture; the arrays indexed by a level
    are functions of it.  [paging_ok] are the laws page tables rely on, which hold of x86-64,
    AArch64 with 4 KiB pages and four levels, and RISC-V; the lemmas at the end show what
    goes wrong on LoongArch and with 16 KiB pages. *)

From S2P Require Import Prelude Arith.

Record paging := Paging {
  PGT_LEVEL_COUNT : Z;
  pgt_get_top_level : Z;
  PGT_PTE_COUNT : Z -> Z;
  (** [PAGE_SHIFTS[level - 1]] and [PT_LEVEL_MASKS[level]] *)
  PAGE_SHIFTS : Z -> Z;
  PT_LEVEL_MASKS : Z -> Z;
  (** the bit [sign_extend_virt_addr] extends *)
  sign_index : Z;
  pte_is_present : Z -> bool;
  pte_level_can_have_large : Z -> bool;
  pte_is_large : Z -> bool;
  pte_is_dirty : Z -> bool;
  pte_to_phys : Z -> Z -> Z;
  phys_create_pte : Z -> Z;
  (** the bits [pte_flags_equal] compares *)
  pte_flags_mask : Z -> Z -> Z;
  PGT_FLAGS : Z;
  PTE_LARGE_FLAGS : Z -> Z;
  PTE_LEAF_FLAGS : Z;
  (** [largepage_level_info_list[level - 1].is_supported] *)
  largepage_is_supported : Z -> bool;
  (** [largepage_level_info_list[level - 1].order] *)
  largepage_order : Z -> Z;
  PAGEMAP_HAS_SPLIT_ROOT : bool }.

Definition bit (n : Z) : Z := Z.shiftl 1 n.
Definition any (pte mask : Z) : bool := negb (Z.land pte mask =? 0).
Definition page_shift_4k (level : Z) : Z :=
  match level with 1 => 12 | 2 => 21 | 3 => 30 | 4 => 39 | _ => 48 end.
Definition order_4k (level : Z) : Z := match level with 2 => 9 | 3 => 18 | 4 => 27 | _ => 0 end.

(** ** The architectures *)

Module X86_64.
Definition PTE_PRESENT := bit 0.
Definition PTE_WRITE := bit 1.
Definition PTE_USER := bit 2.
Definition PTE_PWT := bit 3.
Definition PTE_PCD := bit 4.
Definition PTE_DIRTY := bit 6.
Definition PTE_LARGE := bit 7.
Definition PTE_GLOBAL := bit 8.
Definition PTE_NOEXEC := bit 63.
Definition PTE_PHYS_MASK : Z := 0x0000fffffffff000.

(** [PAGING_MODE], and [supports_1gib_pages] of the CPU. *)
Definition is_supported (gib : bool) (level : Z) : bool :=
  match level with 1 | 2 => true | 3 => gib | _ => false end.
Definition x86_64_paging (five gib : bool) : paging := {|
  PGT_LEVEL_COUNT := 5;
  pgt_get_top_level := if five then 5 else 4;
  PGT_PTE_COUNT _ := 512;
  PAGE_SHIFTS := page_shift_4k;
  PT_LEVEL_MASKS _ := 0x1ff;
  sign_index := if five then 48 + 8 else 39 + 8;
  pte_is_present pte := any pte PTE_PRESENT;
  pte_level_can_have_large := is_supported gib;
  pte_is_large pte := any pte PTE_LARGE;
  pte_is_dirty pte := any pte PTE_DIRTY;
  pte_to_phys pte _ := Z.land pte PTE_PHYS_MASK;
  phys_create_pte phys := phys;
  pte_flags_mask _ _ := Z.lor PTE_PRESENT (Z.lor PTE_WRITE (Z.lor PTE_USER (Z.lor PTE_PWT
    (Z.lor PTE_PCD (Z.lor PTE_GLOBAL PTE_NOEXEC)))));
  PGT_FLAGS := Z.lor PTE_PRESENT PTE_WRITE;
  PTE_LARGE_FLAGS _ := Z.lor PTE_PRESENT PTE_LARGE;
  PTE_LEAF_FLAGS := PTE_PRESENT;
  largepage_is_supported := is_supported gib;
  largepage_order level := if level <=? 3 then order_4k level else 0;
  PAGEMAP_HAS_SPLIT_ROOT := false |}.
End X86_64.

Module Aarch64.
Definition PTE_VALID := bit 0.
Definition PTE_TABLE := bit 1.
Definition PTE_MMIO := Z.shiftl 3 2.
Definition PTE_USER := bit 6.
Definition PTE_RO := bit 7.
Definition PTE_INNER_SH := Z.shiftl 3 8.
Definition PTE_ACCESS := bit 10.
Definition PTE_NONGLOBAL := bit 11.
Definition PTE_DIRTY := bit 51.
Definition PTE_PXN := bit 53.
Definition PTE_UXN := bit 54.
Definition PTE_PHYS_MASK : Z := 0x0000fffffffff000.
Definition aarch64_large_level (level : Z) : bool := (level =? 2) || (level =? 3) || (level =? 4).

Definition with_layout (level_count top sign : Z) (counts shifts masks orders : Z -> Z) : paging := {|
  PGT_LEVEL_COUNT := level_count;
  pgt_get_top_level := top;
  PGT_PTE_COUNT := counts;
  PAGE_SHIFTS := shifts;
  PT_LEVEL_MASKS := masks;
  sign_index := sign;
  pte_is_present pte := any pte PTE_VALID;
  pte_level_can_have_large := aarch64_large_level;
  pte_is_large pte := Z.land pte (Z.lor PTE_VALID PTE_TABLE) =? PTE_VALID;
  pte_is_dirty pte := any pte PTE_DIRTY;
  pte_to_phys pte _ := Z.land pte PTE_PHYS_MASK;
  phys_create_pte phys := phys;
  pte_flags_mask _ _ := Z.lor PTE_VALID (Z.lor PTE_MMIO (Z.lor PTE_USER (Z.lor PTE_RO (Z.lor PTE_INNER_SH
    (Z.lor PTE_NONGLOBAL (Z.lor PTE_PXN PTE_UXN))))));
  PGT_FLAGS := Z.lor PTE_VALID PTE_TABLE;
  PTE_LARGE_FLAGS _ := Z.lor PTE_VALID PTE_ACCESS;
  PTE_LEAF_FLAGS := Z.lor PTE_VALID (Z.lor PTE_TABLE PTE_ACCESS);
  largepage_is_supported level := (level =? 1) || aarch64_large_level level;
  largepage_order := orders;
  PAGEMAP_HAS_SPLIT_ROOT := true |}.
Definition aarch64_paging (five : bool) : paging :=
  with_layout 5 (if five then 5 else 4) (if five then 48 + 3 else 39 + 8) (fun _ => 512) page_shift_4k
    (fun level => if level =? 5 then 0xf else 0x1ff) order_4k.
(** AARCH64_USE_16K_PAGES, with four levels. *)
Definition aarch64_paging_16k : paging :=
  with_layout 4 4 (47 + 8) (fun level => if negb (level =? 4) then 2048 else 2)
    (fun level => match level with 1 => 14 | 2 => 25 | 3 => 36 | _ => 47 end)
    (fun level => if level =? 4 then 0x1 else 0xb)
    (fun level => match level with 2 => 13 | 3 => 24 | 4 => 36 | _ => 0 end).
End Aarch64.

Module Riscv64.
Definition PTE_VALID := bit 0.
Definition PTE_READ := bit 1.
Definition PTE_WRITE := bit 2.
Definition PTE_EXEC := bit 3.
Definition PTE_USER := bit 4.
Definition PTE_GLOBAL := bit 5.
Definition PTE_DIRTY := bit 7.
Definition PTE_IO := Z.shiftl 2 61.
Definition PTE_PHYS_MASK : Z := 0x003ffffffffffc00.
Definition PTE_RWX := Z.lor PTE_READ (Z.lor PTE_WRITE PTE_EXEC).

Inductive mode := Sv39 | Sv48 | Sv57.
Definition riscv64_paging (md : mode) : paging := {|
  PGT_LEVEL_COUNT := 5;
  pgt_get_top_level := match md with Sv39 => 3 | Sv48 => 4 | Sv57 => 5 end;
  PGT_PTE_COUNT _ := 512;
  PAGE_SHIFTS := page_shift_4k;
  PT_LEVEL_MASKS _ := 0x1ff;
  sign_index := match md with Sv39 => 30 + 8 | Sv48 => 39 + 8 | Sv57 => 48 + 8 end;
  pte_is_present pte := any pte PTE_VALID;
  pte_level_can_have_large level := 1 <? level;
  pte_is_large pte := PTE_VALID <? Z.land pte (Z.lor PTE_VALID PTE_RWX);
  pte_is_dirty pte := any pte PTE_DIRTY;
  pte_to_phys pte _ := u64 (Z.shiftl (Z.land pte PTE_PHYS_MASK) 2);
  phys_create_pte phys := Z.shiftr phys 2;
  pte_flags_mask _ _ := Z.lor PTE_VALID (Z.lor PTE_RWX (Z.lor PTE_USER (Z.lor PTE_GLOBAL PTE_IO)));
  PGT_FLAGS := PTE_VALID;
  PTE_LARGE_FLAGS _ := PTE_VALID;
  PTE_LEAF_FLAGS := PTE_VALID;
  largepage_is_supported level := (1 <=? level) && (level <=? 4);
  largepage_order := order_4k;
  PAGEMAP_HAS_SPLIT_ROOT := false |}.
End Riscv64.

Module Loongarch64.
Definition PTE_VALID := bit 0.
Definition PTE_DIRTY := bit 1.
Definition PTE_PRIVL := Z.shiftl 3 2.
Definition PTE_MEM_ACCESS_CTRL := Z.shiftl 3 4.
Definition PTE_GLOBAL := bit 6.
Definition PTE_LARGE := bit 6.
Definition PTE_WRITE := bit 8.
Definition PTE_GLOBAL_LARGE := bit 12.
Definition PTE_NO_READ := bit 61.
Definition PTE_NO_EXEC := bit 62.
Definition PTE_PHYS_MASK : Z := 0x0000fffffffff000.
Definition PTE_PHYS_LARGE_MASK : Z := 0x0000ffffff000000.
Definition loongarch64_large_level (level : Z) : bool := (level =? 2) || (level =? 3).

Definition loongarch64_paging : paging := {|
  PGT_LEVEL_COUNT := 4;
  pgt_get_top_level := 4;
  PGT_PTE_COUNT _ := 512;
  PAGE_SHIFTS := page_shift_4k;
  PT_LEVEL_MASKS _ := 0x1ff;
  sign_index := 39 + 8;
  pte_is_present pte := any pte PTE_VALID;
  pte_level_can_have_large := loongarch64_large_level;
  pte_is_large pte := any pte PTE_LARGE;
  pte_is_dirty pte := any pte PTE_DIRTY;
  pte_to_phys pte level :=
    if loongarch64_large_level level && any pte PTE_LARGE then Z.land pte PTE_PHYS_LARGE_MASK else Z.land pte PTE_PHYS_MASK;
  phys_create_pte phys := phys;
  pte_flags_mask pte level := Z.lor PTE_VALID (Z.lor PTE_PRIVL (Z.lor PTE_MEM_ACCESS_CTRL
    (Z.lor (if loongarch64_large_level level && any pte PTE_LARGE then PTE_GLOBAL_LARGE else PTE_GLOBAL)
      (Z.lor PTE_WRITE (Z.lor PTE_NO_READ PTE_NO_EXEC)))));
  PGT_FLAGS := PTE_VALID;
  PTE_LARGE_FLAGS _ := Z.lor PTE_VALID PTE_LARGE;
  PTE_LEAF_FLAGS := PTE_VALID;
  largepage_is_supported level := (level =? 1) || loongarch64_large_level level;
  largepage_order level := if level <=? 3 then order_4k level else 0;
  PAGEMAP_HAS_SPLIT_ROOT := true |}.
End Loongarch64.

(** ** What the code derives from a format *)

Section Derived.
Context (P : paging).

Definition PAGE_SHIFT : Z := PAGE_SHIFTS P 1.
Definition PAGE_SIZE : Z := 2 ^ PAGE_SHIFT.
Definition PAGE_SIZE_AT_LEVEL (level : Z) : Z := 2 ^ PAGE_SHIFTS P level.
Definition PAGE_COUNT (size : Z) : Z := Z.shiftr size PAGE_SHIFT.
Definition virt_to_pt_index (virt level : Z) : Z :=
  Z.land (Z.shiftr virt (PAGE_SHIFTS P level)) (PT_LEVEL_MASKS P level).
Definition sign_extend_virt_addr (virt : Z) : outcome Z := sign_extend_from_index virt (sign_index P).
Definition pte_flags_equal (pte level flags : Z) : bool := Z.land pte (pte_flags_mask P pte level) =? flags.

(** *** The laws *)

Definition pt_bits (level : Z) : Z := Z.log2 (PGT_PTE_COUNT P level).
(** Virtual addresses have [va_bits] bits before they are sign extended. *)
Definition va_bits : Z := sign_index P + 1.

(** Entries keep the physical addresses below [2 ^ phys_bits] written to them, and the flags
    [leaf_ok] and [large_ok] do not change what an entry is. *)
Record paging_ok (phys_bits : Z) (leaf_ok large_ok : Z -> Prop) : Prop := {
  ok_top : 2 <= pgt_get_top_level P <= PGT_LEVEL_COUNT P;
  ok_shift_1 : 12 <= PAGE_SHIFTS P 1;
  ok_bits : forall l, 1 <= l <= pgt_get_top_level P -> 0 < pt_bits l <= 9 + PAGE_SHIFTS P 1 - 12 /\ PGT_PTE_COUNT P l = 2 ^ pt_bits l /\
    PGT_PTE_COUNT P l < 2 ^ 16 /\ PT_LEVEL_MASKS P l = 2 ^ pt_bits l - 1;
  ok_shift : forall l, 1 <= l < pgt_get_top_level P -> PAGE_SHIFTS P (l + 1) = PAGE_SHIFTS P l + pt_bits l;
  ok_va : va_bits = PAGE_SHIFTS P (pgt_get_top_level P) + pt_bits (pgt_get_top_level P) /\ va_bits < 64;
  ok_phys : 0 <= phys_bits < 64;
  ok_to_phys : forall e l, 0 <= pte_to_phys P e l < 2 ^ 56;
  ok_absent : pte_is_present P 0 = false;
  ok_large_level : forall l, 2 <= l -> largepage_is_supported P l = true -> pte_level_can_have_large P l = true /\
    0 <= PAGE_SHIFTS P l <= 62 /\ (l <= pgt_get_top_level P \/ va_bits <= PAGE_SHIFTS P l);
  ok_table : forall phys, 0 <= phys < 2 ^ phys_bits -> phys mod PAGE_SIZE = 0 ->
    let e := Z.lor (phys_create_pte P phys) (PGT_FLAGS P) in
    is_u64 e /\ pte_is_present P e = true /\ pte_is_large P e = false /\ forall l, pte_to_phys P e l = phys;
  ok_leaf : forall phys flags, 0 <= phys < 2 ^ phys_bits -> phys mod PAGE_SIZE = 0 -> leaf_ok flags ->
    let e := Z.lor (phys_create_pte P phys) (Z.lor flags (PTE_LEAF_FLAGS P)) in
    is_u64 e /\ pte_is_present P e = true /\ pte_to_phys P e 1 = phys;
  ok_large : forall phys flags l, 0 <= phys < 2 ^ phys_bits -> 2 <= l -> largepage_is_supported P l = true ->
    phys mod PAGE_SIZE_AT_LEVEL l = 0 -> large_ok flags ->
    let e := Z.lor (phys_create_pte P phys) (Z.lor flags (PTE_LARGE_FLAGS P l)) in
    is_u64 e /\ pte_is_present P e = true /\ pte_is_large P e = true /\ pte_to_phys P e l = phys }.
End Derived.

(** *** Bits of entries *)

Lemma any_testbit pte n : 0 <= n -> any pte (bit n) = Z.testbit pte n.
Proof.
  intros Hn. unfold any, bit. rewrite Z.shiftl_1_l. destruct (Z.testbit pte n) eqn:E.
  - destruct (Z.eqb_spec (Z.land pte (2 ^ n)) 0) as [H|]; [|reflexivity].
    apply (f_equal (fun x => Z.testbit x n)) in H. rewrite Z.land_spec, Z.pow2_bits_true, E, Z.bits_0 in H by lia. discriminate.
  - replace (Z.land pte (2 ^ n)) with 0; [reflexivity|]. symmetry. apply Z.bits_inj'. intros i Hi.
    rewrite Z.land_spec, Z.bits_0, Z.pow2_bits_eqb by lia. destruct (Z.eqb_spec n i) as [<-|]; [rewrite E; reflexivity|apply andb_false_r].
Qed.
Lemma pow2_divides_mod a b n : 0 <= a <= b -> n mod 2 ^ b = 0 -> n mod 2 ^ a = 0.
Proof.
  intros Hab Hn. apply Z.mod_divide in Hn; [|lia]. destruct Hn as [k ->]. replace b with (a + (b - a)) by lia.
  rewrite Z.pow_add_r, (Z.mul_comm (2 ^ a)), Z.mul_assoc by lia. apply Z.mod_mul. lia.
Qed.
Lemma land_mask_bound e mask k : 0 <= mask < 2 ^ k -> 0 <= k -> 0 <= Z.land e mask < 2 ^ k.
Proof.
  intros Hm Hk. assert (L : 0 <= Z.land e mask) by (apply Z.land_nonneg; lia). split; [exact L|].
  rewrite Z.land_comm in *. pose proof (is_u_land_l k mask e Hk Hm) as U. apply U.
Qed.
Lemma testbit_low phys n i : 0 <= n -> phys mod 2 ^ n = 0 -> i < n -> Z.testbit phys i = false.
Proof.
  intros Hn Hp Hi. destruct (Z.lt_ge_cases i 0); [apply Z.testbit_neg_r; lia|].
  rewrite <- (Z.mod_pow2_bits_low phys n i) by lia. rewrite Hp. apply Z.bits_0.
Qed.

(** A mask of the bits [lo .. hi - 1] keeps an address between them, and flags outside of
    them do not matter. *)
Lemma masked_phys lo hi phys flags mask : 0 <= lo <= hi -> mask = Z.shiftl (Z.ones (hi - lo)) lo ->
  is_u hi phys -> phys mod 2 ^ lo = 0 -> Z.land flags mask = 0 -> Z.land (Z.lor phys flags) mask = phys.
Proof.
  intros Hl -> Hp Hm Hf. apply Z.bits_inj'. intros i Hi. apply (f_equal (fun x => Z.testbit x i)) in Hf.
  rewrite Z.land_spec, Z.bits_0 in Hf. rewrite Z.land_spec, Z.lor_spec.
  assert (M : Z.testbit (Z.shiftl (Z.ones (hi - lo)) lo) i = (lo <=? i) && (i <? hi)).
  { rewrite Z.shiftl_spec by lia. destruct (Z.leb_spec lo i).
    - rewrite Z.testbit_ones_nonneg by lia. destruct (Z.ltb_spec (i - lo) (hi - lo)), (Z.ltb_spec i hi); try lia; reflexivity.
    - apply Z.testbit_neg_r. lia. }
  rewrite M in *. destruct (Z.leb_spec lo i), (Z.ltb_spec i hi); cbn [andb] in *; rewrite ?andb_true_r, ?andb_false_r in *.
  - rewrite Hf, orb_false_r. reflexivity.
  - symmetry. apply (is_u_testbit_high hi); [exact Hp|lia].
  - symmetry. apply (testbit_low phys lo); auto. lia.
  - symmetry. apply (testbit_low phys lo); auto. lia.
Qed.

(** ** The laws hold *)

Ltac each_level l := assert (l = 1 \/ l = 2 \/ l = 3 \/ l = 4 \/ l = 5) as [->|[->|[->|[->| ->]]]] by lia.

(** An address or flags that do not touch the physical address of an entry. *)
Definition plain_flags (mask flags : Z) : Prop := is_u64 flags /\ Z.land flags mask = 0.
Lemma plain_lor mask f g : plain_flags mask f -> plain_flags mask g -> plain_flags mask (Z.lor f g).
Proof.
  intros (F1 & F2) (G1 & G2). split; [apply is_u_lor; auto; lia|]. rewrite Z.land_lor_distr_l, F2, G2. reflexivity.
Qed.
Lemma plain_const mask g : is_u64 g -> (Z.land g mask =? 0) = true -> plain_flags mask g.
Proof. intros G1 G2. split; [exact G1|apply Z.eqb_eq, G2]. Qed.
Ltac plain := repeat apply plain_lor; first [assumption|apply plain_const; [unfold is_u; vm_compute; split; congruence|vm_compute; reflexivity]].

Section Entry48.
Context (mask phys flags : Z) (Hmask : mask = Z.shiftl (Z.ones (48 - 12)) 12).
Context (Hp : is_u 48 phys) (Ha : phys mod 2 ^ 12 = 0) (Hf : plain_flags mask flags).
Lemma entry_u64 : is_u64 (Z.lor phys flags).
Proof. apply is_u_lor; [lia| |apply Hf]. unfold is_u in *. lia. Qed.
Lemma entry_phys : Z.land (Z.lor phys flags) mask = phys.
Proof. apply (masked_phys 12 48); auto; try lia. apply Hf. Qed.
Lemma entry_flag n : 0 <= n < 12 -> Z.testbit (Z.lor phys flags) n = Z.testbit flags n.
Proof. intros Hn. rewrite Z.lor_spec, (testbit_low phys 12) by (auto; lia). reflexivity. Qed.
End Entry48.

Lemma x86_64_ok five gib : paging_ok (X86_64.x86_64_paging five gib) 48
  (plain_flags X86_64.PTE_PHYS_MASK) (plain_flags X86_64.PTE_PHYS_MASK).
Proof.
  assert (E : forall phys f, 0 <= phys < 2 ^ 48 -> phys mod 2 ^ 12 = 0 -> plain_flags X86_64.PTE_PHYS_MASK f ->
    is_u64 (Z.lor phys f) /\ Z.land (Z.lor phys f) X86_64.PTE_PHYS_MASK = phys /\
    (forall n, 0 <= n < 12 -> any (Z.lor phys f) (bit n) = Z.testbit f n)).
  { intros phys f Hp Ha Hf. split; [eapply entry_u64; eauto; reflexivity|]. split; [eapply entry_phys; eauto; reflexivity|].
    intros n Hn. rewrite any_testbit by lia. eapply entry_flag; eauto. }
  split.
  - destruct five; cbn; lia.
  - cbn. lia.
  - intros l Hl. unfold pt_bits. cbn. lia.
  - intros l Hl. unfold pt_bits. cbn in *. destruct five; each_level l; try lia; reflexivity.
  - destruct five; split; reflexivity.
  - lia.
  - intros e l. apply (land_mask_bound e _ 56); [split; [discriminate|reflexivity]|lia].
  - reflexivity.
  - intros l Hl Hs. cbn in *. split; [exact Hs|]. assert (l <= 3).
    { destruct (Z.le_gt_cases l 3); [assumption|]. exfalso. destruct l as [|[[p|p|]|[p|p|]|]|]; try discriminate; lia. }
    unfold page_shift_4k. destruct five; each_level l; lia.
  - intros phys Hp Ha. destruct (E phys (PGT_FLAGS (X86_64.x86_64_paging five gib)) Hp Ha ltac:(cbn; plain)) as (E1 & E2 & E3).
    cbn in *. split; [exact E1|]. unfold X86_64.PTE_PRESENT, X86_64.PTE_LARGE. rewrite !E3 by lia. auto.
  - intros phys f Hp Ha Hf. destruct (E phys (Z.lor f (PTE_LEAF_FLAGS (X86_64.x86_64_paging five gib))) Hp Ha ltac:(cbn; plain)) as (E1 & E2 & E3).
    cbn in *. split; [exact E1|]. change X86_64.PTE_PRESENT with (bit 0) in *. rewrite E3, Z.lor_spec by lia. rewrite orb_true_r. auto.
  - intros phys f l Hp Hl Hs Ha Hf. assert (Ha' : phys mod 2 ^ 12 = 0).
    { apply (pow2_divides_mod 12 (PAGE_SHIFTS (X86_64.x86_64_paging five gib) l)); [|exact Ha]. cbn. unfold page_shift_4k. repeat case_match; lia. }
    destruct (E phys (Z.lor f (PTE_LARGE_FLAGS (X86_64.x86_64_paging five gib) l)) Hp Ha' ltac:(cbn; plain)) as (E1 & E2 & E3).
    cbn in *. split; [exact E1|]. change X86_64.PTE_PRESENT with (bit 0) in *. change X86_64.PTE_LARGE with (bit 7) in *.
    rewrite !E3, !Z.lor_spec by lia. rewrite !orb_true_r. auto.
Qed.

Lemma land_3_is_1 e : (Z.land e 3 =? 1) = Z.testbit e 0 && negb (Z.testbit e 1).
Proof.
  change 3 with (2 ^ 2 - 1). rewrite land_pow2_pred by lia.
  assert (B0 : Z.testbit e 0 = (e mod 2 =? 1)) by (rewrite Z.bit0_odd; pose proof (Zmod_odd e); destruct (Z.odd e); zcase; lia || reflexivity).
  assert (B1 : Z.testbit e 1 = (e / 2 mod 2 =? 1)).
  { rewrite Z.testbit_odd. rewrite Z.shiftr_div_pow2 by lia. change (2 ^ 1) with 2.
    pose proof (Zmod_odd (e / 2)). destruct (Z.odd (e / 2)); zcase; lia || reflexivity. }
  rewrite B0, B1. zcase; try reflexivity; exfalso; dlia.
Qed.

Definition aarch64_large_flags (flags : Z) : Prop := plain_flags Aarch64.PTE_PHYS_MASK flags /\ Z.testbit flags 1 = false.
Lemma aarch64_ok : paging_ok (Aarch64.aarch64_paging false) 48 (plain_flags Aarch64.PTE_PHYS_MASK) aarch64_large_flags.
Proof.
  assert (E : forall phys f, 0 <= phys < 2 ^ 48 -> phys mod 2 ^ 12 = 0 -> plain_flags Aarch64.PTE_PHYS_MASK f ->
    is_u64 (Z.lor phys f) /\ Z.land (Z.lor phys f) Aarch64.PTE_PHYS_MASK = phys /\
    (forall n, 0 <= n < 12 -> any (Z.lor phys f) (bit n) = Z.testbit f n) /\
    (Z.land (Z.lor phys f) 3 =? 1) = Z.testbit f 0 && negb (Z.testbit f 1)).
  { intros phys f Hp Ha Hf. split; [eapply entry_u64; eauto; reflexivity|]. split; [eapply entry_phys; eauto; reflexivity|].
    split; [intros n Hn; rewrite any_testbit by lia; eapply entry_flag; eauto|].
    rewrite land_3_is_1, !(entry_flag phys f) by (auto; lia). reflexivity. }
  split.
  - cbn. lia.
  - cbn. lia.
  - intros l Hl. cbn in *. unfold pt_bits. cbn. destruct (Z.eqb_spec l 5); lia.
  - intros l Hl. unfold pt_bits. cbn in *. each_level l; try lia; reflexivity.
  - split; reflexivity.
  - lia.
  - intros e l. apply (land_mask_bound e _ 56); [split; [discriminate|reflexivity]|lia].
  - reflexivity.
  - intros l Hl Hs. cbn in *. unfold Aarch64.aarch64_large_level in *. zcase; subst; try lia; try discriminate; cbn; split_and?; auto; try lia; left; lia.
  - intros phys Hp Ha. destruct (E phys 3 Hp Ha ltac:(plain)) as (E1 & E2 & E3 & E4).
    cbn in *. change (Z.lor Aarch64.PTE_VALID Aarch64.PTE_TABLE) with 3. change Aarch64.PTE_VALID with (bit 0). rewrite E3 by lia.
    split; [exact E1|]. split; [reflexivity|]. split; [exact E4|auto].
  - intros phys f Hp Ha Hf. destruct (E phys (Z.lor f (PTE_LEAF_FLAGS (Aarch64.aarch64_paging false))) Hp Ha ltac:(cbn; plain)) as (E1 & E2 & E3 & _).
    cbn in *. split; [exact E1|]. change Aarch64.PTE_VALID with (bit 0) in *. rewrite E3 by lia. rewrite Z.lor_spec, orb_true_r. auto.
  - intros phys f l Hp Hl Hs Ha (Hf & Hb). assert (Ha' : phys mod 2 ^ 12 = 0).
    { apply (pow2_divides_mod 12 (PAGE_SHIFTS (Aarch64.aarch64_paging false) l)); [|exact Ha]. cbn. unfold page_shift_4k. repeat case_match; lia. }
    destruct (E phys (Z.lor f (PTE_LARGE_FLAGS (Aarch64.aarch64_paging false) l)) Hp Ha' ltac:(cbn; plain)) as (E1 & E2 & E3 & E4).
    rewrite !Z.lor_spec, Hb in E4. specialize (E3 0 ltac:(lia)). rewrite Z.lor_spec in E3.
    cbn -[Z.testbit] in *. change (Z.lor Aarch64.PTE_VALID Aarch64.PTE_TABLE) with 3. change Aarch64.PTE_VALID with (bit 0) in *.
    split; [exact E1|]. rewrite E3. split; [apply orb_true_r|]. split; [|exact E2]. etransitivity; [exact E4|].
    change (Z.testbit (Z.lor (bit 0) Aarch64.PTE_ACCESS) 0) with true. rewrite orb_true_r. reflexivity.
Qed.

Definition riscv64_leaf_flags : Z -> Prop := plain_flags Riscv64.PTE_PHYS_MASK.
(** A page that can be read, written or executed. *)
Definition riscv64_large_flags (flags : Z) : Prop := plain_flags Riscv64.PTE_PHYS_MASK flags /\ Z.land flags Riscv64.PTE_RWX <> 0.

Lemma riscv64_ok md : paging_ok (Riscv64.riscv64_paging md) 56 riscv64_leaf_flags riscv64_large_flags.
Proof.
  assert (E : forall phys f, 0 <= phys < 2 ^ 56 -> phys mod 2 ^ 12 = 0 -> plain_flags Riscv64.PTE_PHYS_MASK f ->
    let e := Z.lor (Z.shiftr phys 2) f in
    is_u64 e /\ u64 (Z.shiftl (Z.land e Riscv64.PTE_PHYS_MASK) 2) = phys /\ forall n, 0 <= n < 10 -> Z.testbit e n = Z.testbit f n).
  { intros phys f Hp Ha Hf e. assert (H4 : Z.shiftr phys 2 = phys / 4) by (rewrite Z.shiftr_div_pow2 by lia; reflexivity).
    assert (U : is_u 54 (phys / 4)) by (unfold is_u; dlia). assert (M : (phys / 4) mod 2 ^ 10 = 0) by dlia. unfold e. rewrite H4.
    split; [apply is_u_lor; [lia|unfold is_u in *; lia|apply Hf]|]. split.
    - rewrite (masked_phys 10 54 (phys / 4) f) by (auto; try lia; apply Hf). rewrite Z.shiftl_mul_pow2 by lia.
      rewrite wrap_small by (unfold is_u; dlia). dlia.
    - intros n Hn. rewrite Z.lor_spec, (testbit_low (phys / 4) 10) by (auto; lia). reflexivity. }
  assert (Hl : forall e f, (forall n, 0 <= n < 10 -> Z.testbit e n = Z.testbit f n) -> Z.land e 15 = Z.land f 15).
  { intros e f He. apply Z.bits_inj'. intros i Hi. rewrite !Z.land_spec. change 15 with (Z.ones 4).
    rewrite Z.testbit_ones_nonneg by lia. destruct (Z.ltb_spec i 4); [rewrite He by lia; reflexivity|rewrite !andb_false_r; reflexivity]. }
  split.
  - destruct md; cbn; lia.
  - cbn. lia.
  - intros l Hl'. unfold pt_bits. cbn. lia.
  - intros l Hl'. unfold pt_bits. cbn in *. destruct md; each_level l; try lia; reflexivity.
  - destruct md; split; reflexivity.
  - lia.
  - intros e l. cbn. rewrite Z.shiftl_mul_pow2 by lia. pose proof (land_mask_bound e Riscv64.PTE_PHYS_MASK 54 ltac:(split; [discriminate|reflexivity]) ltac:(lia)).
    rewrite wrap_small by (unfold is_u; lia). lia.
  - reflexivity.
  - intros l Hl' Hs. cbn in *. apply andb_true_iff in Hs. destruct Hs as (_ & Hs). apply Z.leb_le in Hs. split; [apply Z.ltb_lt; lia|].
    unfold va_bits. destruct md; each_level l; try lia; cbn; lia.
  - intros phys Hp Ha. destruct (E phys (bit 0) Hp Ha ltac:(plain)) as (E1 & E2 & E3). cbn -[Z.testbit Z.land] in *.
    change Riscv64.PTE_VALID with (bit 0). split; [exact E1|]. rewrite any_testbit, E3 by lia. split; [reflexivity|]. split; [|auto].
    change (Z.lor (bit 0) Riscv64.PTE_RWX) with 15. rewrite (Hl _ _ E3). reflexivity.
  - intros phys f Hp Ha Hf. destruct (E phys (Z.lor f (bit 0)) Hp Ha ltac:(plain)) as (E1 & E2 & E3). cbn -[Z.testbit Z.land] in *.
    change Riscv64.PTE_VALID with (bit 0). split; [exact E1|]. rewrite any_testbit, E3, Z.lor_spec by lia. rewrite orb_true_r. auto.
  - intros phys f l Hp Hl' Hs Ha (Hf & Hx). assert (Ha' : phys mod 2 ^ 12 = 0).
    { apply (pow2_divides_mod 12 (PAGE_SHIFTS (Riscv64.riscv64_paging md) l)); [|exact Ha]. cbn. unfold page_shift_4k. repeat case_match; lia. }
    destruct (E phys (Z.lor f (bit 0)) Hp Ha' ltac:(plain)) as (E1 & E2 & E3). cbn -[Z.testbit Z.land] in *.
    change Riscv64.PTE_VALID with (bit 0). split; [exact E1|]. rewrite any_testbit, E3, Z.lor_spec by lia. rewrite orb_true_r.
    split; [reflexivity|]. split; [|exact E2]. change (Z.lor (bit 0) Riscv64.PTE_RWX) with 15. rewrite (Hl _ _ E3).
    set (x := Z.land (Z.lor f (bit 0)) 15). assert (X : Z.land x 14 = Z.land f 14).
    { unfold x. rewrite <- Z.land_assoc, Z.land_lor_distr_l. change (Z.land 15 14) with 14. change (Z.land (bit 0) 14) with 0. apply Z.lor_0_r. }
    assert (0 <= x) by (apply Z.land_nonneg; right; lia). change (bit 0) with 1. destruct (Z.ltb_spec 1 x); [reflexivity|].
    exfalso. apply Hx. change Riscv64.PTE_RWX with 14. rewrite <- X. assert (x = 0 \/ x = 1) as [-> | ->] by lia; reflexivity.
Qed.

(** ** Where they fail *)

(** LoongArch: the address of a large page is read back without its bits below 2 ^ 24. *)
Lemma loongarch64_large_truncates :
  pte_to_phys Loongarch64.loongarch64_paging (Z.lor (2 ^ 21) (PTE_LARGE_FLAGS Loongarch64.loongarch64_paging 2)) 2 = 0.
Proof. reflexivity. Qed.
(** AArch64 with 16 KiB pages: the index in a table of 2048 entries keeps three bits only, so
    that different pages have the same entry. *)
Lemma aarch64_16k_index_collides : virt_to_pt_index Aarch64.aarch64_paging_16k (4 * 2 ^ 14) 1 = virt_to_pt_index Aarch64.aarch64_paging_16k 0 1.
Proof. reflexivity. Qed.
