(* ===== verification/Walker.v ===== *)
(** * The page table walker: kernel/src/mm/walker.c

    A walker has the tables and indices on the path from the root to an address, by level.
    Page tables are in memory; the struct pages of tables and of mapped pages are kept by the
    address of the page in the direct map, and so is the list of pages to release.  The
    allocators of tables are parameters. *)

From S2P Require Import Prelude Mem Arith Refcount Hhdm Paging.

Definition INVALID_PHYS : Z := UINT64_MAX.
Definition PTWALKER_DONE : Z := -1.

(** The callbacks of a walker; [CbNull] is [NULL]. *)
Inductive alloc_cb := CbNull | ptwalker_alloc_pgtable_cb | ptwalker_early_alloc_pgtable_cb.
(** [tables] and [indices] by level; the arrays begin at level 1. *)
Record pt_walker := Walker {
  tables : Z -> Z; indices : Z -> Z; level : Z; top_level : Z; alloc_pgtable : alloc_cb; free_pgtable : bool }.
Inductive pt_walker_result := E_PT_WALKER_OK | E_PT_WALKER_REACHED_END | E_PT_WALKER_ALLOC_FAIL | E_PT_WALKER_BAD_INCR.
(** [free_pgtable_cb_info] is the page operation tables are released to; whether there is one. *)
Record ptwalker_iterate_options := IterateOptions {
  free_pgtable_cb_info : bool; alloc_parents : bool; alloc_level : bool; should_ref : bool }.
Definition default_options : ptwalker_iterate_options := IterateOptions false true true true.

Definition set_table (w : pt_walker) (l v : Z) : pt_walker :=
  Walker (fun x => if x =? l then v else tables w x) (indices w) (level w) (top_level w) (alloc_pgtable w) (free_pgtable w).
Definition set_index (w : pt_walker) (l v : Z) : pt_walker :=
  Walker (tables w) (fun x => if x =? l then v else indices w x) (level w) (top_level w) (alloc_pgtable w) (free_pgtable w).
Definition set_level (w : pt_walker) (l : Z) : pt_walker :=
  Walker (tables w) (indices w) l (top_level w) (alloc_pgtable w) (free_pgtable w).

(** What page tables use of a struct page: whether its state is [PAGE_STATE_TABLE], the count
    [table.refcount], [used.refcount] and [largetail.refcount] share, [largehead.refcount] and
    the flag [__PAGE_IS_DIRTY], what it is of a large page, with the level of a head and the
    head of a tail, and [extra.largepage_head.flags]. *)
Inductive large_part := NotLarge | LargeHead (level : Z) | LargeTail (head : Z).
Record frame := Frame {
  f_is_table : bool; f_refcount : Z; f_large_refcount : Z; f_dirty : bool; f_large : large_part; f_head_flags : Z }.
(** Memory, the struct pages (none for an address that has none), the state of the page
    allocator, and the list [delayed_free] of the page operation. *)
Record pt_state (A : Type) := PtState { s_mem : mem; s_frames : Z -> option frame; s_alloc : A; s_delayed : list Z }.
Arguments PtState {A}. Arguments s_mem {A}. Arguments s_frames {A}. Arguments s_alloc {A}. Arguments s_delayed {A}.

Section Walk.
Context (P : paging) (HHDM_OFFSET : Z) {A : Type}.
(** The physical address of a zeroed page, or none. *)
Context (alloc_table early_alloc_page : A -> mem -> outcome (option Z * A * mem)).
#[local] Abbreviation state := (pt_state A).
#[local] Abbreviation phys_to_virt := (Hhdm.phys_to_virt (PAGE_SIZE P) HHDM_OFFSET).

Definition pte_to_virt (entry l : Z) : outcome Z := phys_to_virt (pte_to_phys P entry l).
(** [&table[index]], for a table that is not [NULL]. *)
Definition pte_ptr (table index : Z) : outcome Z := if table =? 0 then Undef else Ok (table + 8 * index).
Definition pte_read (s : state) (pte : Z) : Z := load 8 (s_mem s) pte.
Definition pte_write (s : state) (pte value : Z) : state :=
  PtState (store 8 (s_mem s) pte value) (s_frames s) (s_alloc s) (s_delayed s).
Definition set_frame (s : state) (page : Z) (f : frame) : state :=
  PtState (s_mem s) (fun x => if x =? page then Some f else s_frames s x) (s_alloc s) (s_delayed s).
Definition get_frame (s : state) (page : Z) : outcome frame :=
  match s_frames s page with Some f => Ok f | None => Undef end.
Definition set_refcount (f : frame) (n : Z) : frame := 
  Frame (f_is_table f) n (f_large_refcount f) (f_dirty f) (f_large f) (f_head_flags f).

(** The operations on [virt_to_page(page)->table.refcount]. *)
Definition table_ref_up (s : state) (page : Z) : outcome state :=
  f ← get_frame s page; n ← ref_up (f_refcount f); Ok (set_frame s page (set_refcount f n)).
Definition table_ref_down (s : state) (page : Z) : outcome (bool * state) :=
  f ← get_frame s page; '(last, n) ← ref_down (f_refcount f); Ok (last, set_frame s page (set_refcount f n)).

(** The callbacks; the result is a physical address or [INVALID_PHYS]. *)
Definition call_alloc (w : pt_walker) (s : state) : outcome (Z * state) :=
  match alloc_pgtable w with
  | CbNull => Undef
  | ptwalker_alloc_pgtable_cb =>
      '(r, al, m) ← alloc_table (s_alloc s) (s_mem s);
      match r with
      | Some phys => Ok (phys, set_frame (PtState m (s_frames s) al (s_delayed s)) (HHDM_OFFSET + phys) (Frame true 0 0 false NotLarge 0))
      | None => Ok (INVALID_PHYS, PtState m (s_frames s) al (s_delayed s))
      end
  | ptwalker_early_alloc_pgtable_cb =>
      '(r, al, m) ← early_alloc_page (s_alloc s) (s_mem s);
      match r with
      | Some phys => Ok (phys, PtState m (s_frames s) al (s_delayed s))
      | None => Panic
      end
  end.
Definition delay_free (s : state) (page : Z) : state :=
  PtState (s_mem s) (s_frames s) (s_alloc s) (page :: s_delayed s).
(** [ptwalker_free_pgtable_cb]; [pageop]: whether [cb_info] is not [NULL]. *)
Definition call_free (s : state) (table : Z) (pageop : bool) : outcome state :=
  if pageop then Ok (delay_free s table) else Undef.

(** ** Creation *)

(** The roots of a page map: one, or one for each half of the address space. *)
Record pagemap_roots := Roots { lower_root : Z; higher_root : Z }.
Definition get_root_phys (pm : pagemap_roots) (virt_addr : Z) : outcome Z :=
  if PAGEMAP_HAS_SPLIT_ROOT P then
    if Z.testbit virt_addr 63 then virt_to_phys HHDM_OFFSET (higher_root pm)
    else virt_to_phys HHDM_OFFSET (lower_root pm)
  else virt_to_phys HHDM_OFFSET (lower_root pm).

(** [for (level = top_level - 1; level >= 1; level--)], [l] is the level. *)
Fixpoint create_loop (n : nat) (s : state) (virt_addr prev_table : Z) (w : pt_walker) : outcome pt_walker :=
  match n with
  | O => Ok w
  | S n' =>
      let l := Z.of_nat n in
      '(table, w) ←
        (if prev_table =? 0 then Ok (0, w) else
         let entry := pte_read s (prev_table + 8 * indices w (l + 1)) in
         if negb (pte_is_present P entry) then Ok (0, w)
         else if negb (pte_level_can_have_large P (l + 1)) || negb (pte_is_large P entry) then
           table ← pte_to_virt entry l; Ok (table, set_level w l)
         else Ok (0, set_level w (l + 1)));
      create_loop n' s virt_addr table (set_index (set_table w l table) l (virt_to_pt_index P virt_addr l))
  end.
Definition ptwalker_create_from_root_phys (s : state) (root_phys virt_addr : Z) (alloc : alloc_cb) (free : bool)
    : outcome pt_walker :=
  ok ← has_align root_phys (PAGE_SIZE P); _ ← c_assert ok;
  ok ← has_align virt_addr (PAGE_SIZE P); _ ← c_assert ok;
  let top := pgt_get_top_level P in
  root ← phys_to_virt root_phys;
  let w := Walker (fun l => if l =? top then root else 0)
    (fun l => if l =? top then virt_to_pt_index P virt_addr top else 0) top top alloc free in
  create_loop (Z.to_nat (top - 1)) s virt_addr root w.
Definition ptwalker_create_for_pagemap (s : state) (pm : pagemap_roots) (virt_addr : Z) (alloc : alloc_cb) (free : bool)
    : outcome pt_walker :=
  root ← get_root_phys pm virt_addr;
  ptwalker_create_from_root_phys s root virt_addr alloc free.
Definition ptwalker_default_for_pagemap (s : state) (pm : pagemap_roots) (virt_addr : Z) : outcome pt_walker :=
  ptwalker_create_for_pagemap s pm virt_addr ptwalker_alloc_pgtable_cb true.
Definition ptwalker_create_from_toplevel (root_phys top root_index : Z) (alloc : alloc_cb) (free : bool) : outcome pt_walker :=
  root ← phys_to_virt root_phys;
  Ok (Walker (fun l => if l =? top then root else 0) (fun l => if l =? top then root_index else 0) top top alloc free).

(** ** Moving *)

(** [for (level--; level >= 1; level--)] clears both arrays. *)
Definition reset_levels_lower_than (w : pt_walker) (l : Z) : pt_walker :=
  Walker (fun x => if (1 <=? x) && (x <? l) then 0 else tables w x)
    (fun x => if (1 <=? x) && (x <? l) then 0 else indices w x) (level w) (top_level w) (alloc_pgtable w) (free_pgtable w).

(** The loop of [setup_levels_lower_than], [n] is the level. *)
Fixpoint setup_loop (n : nat) (s : state) (w : pt_walker) (entry : Z) : outcome pt_walker :=
  match n with
  | O => Undef
  | S n' =>
      let l := Z.of_nat n in
      table ← pte_to_virt entry l;
      let w := set_index (set_table w l table) l 0 in
      let entry := pte_read s table in
      if negb (pte_is_present P entry) || (pte_level_can_have_large P l && pte_is_large P entry) then Ok (set_level w l)
      else match n' with
           | O => Ok (set_level w 1)
           | S _ => setup_loop n' s w entry
           end
  end.
Definition setup_levels_lower_than (s : state) (w : pt_walker) (parent_level first_entry : Z) : outcome pt_walker :=
  setup_loop (Z.to_nat (parent_level - 1)) s w first_entry.

(** At an entry found by moving: below an absent entry or a large page nothing is set up. *)
Definition arrive (s : state) (w : pt_walker) (l entry : Z) : outcome pt_walker :=
  if negb (pte_is_present P entry) then Ok (set_level (reset_levels_lower_than w l) l)
  else if negb (pte_level_can_have_large P l) then setup_levels_lower_than s w l entry
  else if pte_is_large P entry then Ok (set_level (reset_levels_lower_than w l) l)
  else setup_levels_lower_than s w l entry.

(** ** Tables that are no longer used *)

(** [for (; level <= walker->top_level; level++)], [n] rounds from level [l] on. *)
Fixpoint deref_loop (n : nat) (s : state) (w : pt_walker) (table l : Z) (pageop : bool) : outcome (state * pt_walker) :=
  match n with
  | O => Ok (s, set_level w l)
  | S n =>
      '(last, s) ← table_ref_down s table;
      if negb last then Ok (s, set_level w l) else
      if negb (l =? top_level w) then
        let parent := tables w (l + 1) in
        pte ← pte_ptr parent (indices w (l + 1));
        s ← call_free (pte_write s pte 0) table pageop;
        deref_loop n s w parent (l + 1) pageop
      else s ← call_free s table pageop; deref_loop n s w table (l + 1) pageop
  end.
Definition ptwalker_deref_from_level (s : state) (w : pt_walker) (l : Z) (pageop : bool) : outcome (state * pt_walker) :=
  if (l <? level w) || (top_level w <? l) then Ok (s, w) else
  _ ← c_assert (free_pgtable w);
  deref_loop (Z.to_nat (top_level w - l + 1)) s w (tables w l) l pageop.
Definition ptwalker_drop_lowest (s : state) (w : pt_walker) (pageop : bool) : outcome (state * pt_walker) :=
  let w := set_index (set_table w (level w) 0) (level w) 0 in
  ptwalker_deref_from_level s w (level w + 1) pageop.

(** ** Tables that are missing *)

(** [None]: the allocation failed. *)
Definition alloc_table_at_pte (s : state) (w : pt_walker) (pte_in_parent l : Z) : outcome (option (state * pt_walker) * state) :=
  '(phys, s) ← call_alloc w s;
  if phys =? INVALID_PHYS then Ok (None, s) else
  table ← phys_to_virt phys;
  Ok (Some (pte_write s pte_in_parent (Z.lor (phys_create_pte P phys) (PGT_FLAGS P)), set_table w l table), s).

(** The [do] loop, from level [n] down. *)
Fixpoint alloc_levels_loop (n : nat) (s : state) (w : pt_walker) (last_level : Z) (alloc_last_level ref pageop : bool)
    : outcome (pt_walker_result * state * pt_walker) :=
  match n with
  | O => Undef
  | S n' =>
      let l := Z.of_nat n in
      let parent_table := tables w (l + 1) in
      pte_in_parent ← pte_ptr parent_table (indices w (l + 1));
      '(r, s) ← alloc_table_at_pte s w pte_in_parent l;
      match r with
      | None =>
          '(s, w) ← ptwalker_drop_lowest s (set_level w (l + 1)) pageop;
          Ok (E_PT_WALKER_ALLOC_FAIL, s, w)
      | Some (s, w) =>
          s ← (if ref then table_ref_up s parent_table else Ok s);
          let l := l - 1 in
          if ((l =? last_level) && negb alloc_last_level) || (l <? last_level)
          then Ok (E_PT_WALKER_OK, s, set_level w (l + 1))
          else alloc_levels_loop n' s w last_level alloc_last_level ref pageop
      end
  end.
Definition alloc_levels_down_to (s : state) (w : pt_walker) (parent_level last_level : Z) (alloc_last_level ref pageop : bool)
    : outcome (pt_walker_result * state * pt_walker) :=
  _ ← c_assert (match alloc_pgtable w with CbNull => false | _ => true end);
  let l := parent_level - 1 in
  if (l =? last_level) && negb alloc_last_level then Ok (E_PT_WALKER_OK, s, set_level w (l + 1))
  else alloc_levels_loop (Z.to_nat l) s w last_level alloc_last_level ref pageop.

Definition ptwalker_fill_in_to (s : state) (w : pt_walker) (l : Z) (ref pageop : bool) : outcome (pt_walker_result * state * pt_walker) :=
  if level w <=? l then Ok (E_PT_WALKER_OK, s, w)
  else alloc_levels_down_to s w (level w) l true ref pageop.

(** ** The next and the previous entry *)

(** Where the loop over the levels above ends: set up at an entry, at an absent entry of a
    level, or past the last entry of the top level. *)
Inductive climb_result := Arrived (w : pt_walker) | AtAbsent (w : pt_walker) (l : Z) | AtEnd (w : pt_walker).
Definition reached_end (w : pt_walker) (l : Z) : outcome climb_result :=
  if PGT_LEVEL_COUNT P <? l then Undef
  else Ok (AtEnd (reset_levels_lower_than (set_level (set_index w l 0) PTWALKER_DONE) l)).

Fixpoint next_climb (n : nat) (s : state) (w : pt_walker) (l : Z) : outcome climb_result :=
  match n with
  | O => Diverge
  | S n =>
      let l := l + 1 in
      if top_level w <? l then reached_end w l else
      let index := u16 (indices w l + 1) in
      let w := set_index w l index in
      if index =? PGT_PTE_COUNT P l then next_climb n s w l else
      pte ← pte_ptr (tables w l) index;
      let entry := pte_read s pte in
      if negb (pte_is_present P entry) then Ok (AtAbsent (reset_levels_lower_than w l) l)
      else w ← arrive s w l entry; Ok (Arrived w)
  end.
(** What follows the loop; [level], passed for [alloc_last_level], is not zero. *)
Definition after_climb (s : state) (orig_level : Z) (opts : ptwalker_iterate_options) (r : climb_result)
    : outcome (pt_walker_result * state * pt_walker) :=
  match r with
  | Arrived w => Ok (E_PT_WALKER_OK, s, w)
  | AtEnd w => Ok (E_PT_WALKER_REACHED_END, s, w)
  | AtAbsent w l =>
      if negb (alloc_parents opts) then Ok (E_PT_WALKER_OK, s, set_level w l)
      else alloc_levels_down_to s w l orig_level true (should_ref opts) (free_pgtable_cb_info opts)
  end.
Definition climb_fuel (w : pt_walker) (l : Z) : nat := Z.to_nat (top_level w - l + 1).

Definition ptwalker_next_with_options (s : state) (w : pt_walker) (l : Z) (opts : ptwalker_iterate_options)
    : outcome (pt_walker_result * state * pt_walker) :=
  if (l <? level w) || (top_level w <? l) then Ok (E_PT_WALKER_BAD_INCR, s, w) else
  if l <? 1 then Undef else
  let index := u16 (indices w l + 1) in
  let w := set_index w l index in
  if index <? PGT_PTE_COUNT P l then
    if l =? 1 then Ok (E_PT_WALKER_OK, s, w) else
    pte ← pte_ptr (tables w l) index;
    w ← arrive s w l (pte_read s pte);
    Ok (E_PT_WALKER_OK, s, w)
  else
    r ← next_climb (climb_fuel w l) s w l;
    after_climb s l opts r.
Definition ptwalker_next (s : state) (w : pt_walker) : outcome (pt_walker_result * state * pt_walker) :=
  ptwalker_next_with_options s w (level w) default_options.

Fixpoint prev_climb (n : nat) (s : state) (w : pt_walker) (l : Z) : outcome climb_result :=
  match n with
  | O => Diverge
  | S n =>
      let l := l + 1 in
      if top_level w <? l then reached_end w l else
      if indices w l =? 0 then prev_climb n s (set_index w l (PGT_PTE_COUNT P l - 1)) l else
      let index := indices w l - 1 in
      let w := set_index w l index in
      pte ← pte_ptr (tables w l) index;
      let entry := pte_read s pte in
      if negb (pte_level_can_have_large P l) then w ← setup_levels_lower_than s w l entry; Ok (Arrived w)
      else if negb (pte_is_present P entry) then Ok (AtAbsent (reset_levels_lower_than w l) l)
      else w ← arrive s w l entry; Ok (Arrived w)
  end.
Definition ptwalker_prev_with_options (s : state) (w : pt_walker) (l : Z) (opts : ptwalker_iterate_options)
    : outcome (pt_walker_result * state * pt_walker) :=
  if (l <? level w) || (top_level w <? l) then Ok (E_PT_WALKER_BAD_INCR, s, w) else
  if l <? 1 then Undef else
  let w := if level w <? l then reset_levels_lower_than w l else w in
  if negb (indices w l =? 0) then
    let index := indices w l - 1 in
    let w := set_index w l index in
    if l =? 1 then Ok (E_PT_WALKER_OK, s, w) else
    pte ← pte_ptr (tables w l) index;
    let entry := pte_read s pte in
    if negb (pte_is_present P entry) then Ok (E_PT_WALKER_OK, s, reset_levels_lower_than w l)
    else w ← arrive s w l entry; Ok (E_PT_WALKER_OK, s, w)
  else
    r ← prev_climb (climb_fuel w l) s (set_index w l (PGT_PTE_COUNT P l - 1)) l;
    after_climb s l opts r.
Definition ptwalker_prev (s : state) (w : pt_walker) : outcome (pt_walker_result * state * pt_walker) :=
  ptwalker_prev_with_options s w (level w) default_options.

(** ** Addresses *)

(** [for (level = walker->level; level <= walker->top_level; level++)], [n] rounds. *)
Fixpoint virt_addr_loop (n : nat) (w : pt_walker) (l result : Z) : Z :=
  match n with
  | O => result
  | S n => virt_addr_loop n w (l + 1)
      (Z.lor result (u64 (Z.shiftl (Z.land (indices w l) (PT_LEVEL_MASKS P l)) (PAGE_SHIFTS P l))))
  end.
Definition ptwalker_get_virt_addr (w : pt_walker) : outcome Z :=
  sign_extend_virt_addr P (virt_addr_loop (Z.to_nat (top_level w - level w + 1)) w (level w) 0).

Definition ptwalker_get_phys_addr (s : state) (w : pt_walker) : outcome Z :=
  let l := level w in
  if l <? 1 then Ok INVALID_PHYS
  else if (1 <? l) && negb (pte_level_can_have_large P l) then Ok INVALID_PHYS
  else
    ptr ← pte_ptr (tables w l) (indices w l);
    let pte := pte_read s ptr in
    if negb (pte_is_present P pte) then Ok INVALID_PHYS
    else if negb (l =? 1) && negb (pte_is_large P pte) then Ok INVALID_PHYS
    else Ok (pte_to_phys P pte l).
Definition ptwalker_points_to_largepage (s : state) (w : pt_walker) : outcome bool :=
  let l := level w in
  if (l <=? 1) || negb (pte_level_can_have_large P l) then Ok false
  else pte ← pte_ptr (tables w l) (indices w l); Ok (pte_is_large P (pte_read s pte)).

(** *** kernel/src/mm/pagemap.c *)

Definition pagemap_virt_get_phys (s : state) (pm : pagemap_roots) (virt : Z) : outcome Z :=
  w ← ptwalker_create_for_pagemap s pm virt CbNull false;
  phys ← ptwalker_get_phys_addr s w;
  if phys =? INVALID_PHYS then Ok phys else
  mask ← mask_for_n_bits (PAGE_SHIFTS P (level w));
  Ok (u64 (phys + Z.land virt mask)).
End Walk.
