(* ===== verification/PageTable.v ===== *)
(** * Page tables in memory, and the translation of the hardware

    [translate] walks the tables as the hardware does, with the entry formats of Paging.v.
    [tree] says that the tables form a tree: each table has a level and covers its own part
    of the address space.  The lemmas say what a change of entries does to translations. *)

From S2P Require Import Prelude Mem Arith Paging.

Section Tables.
Context (P : paging) {phys_bits : Z} {leaf_ok large_ok : Z -> Prop} (OK : paging_ok P phys_bits leaf_ok large_ok).
(** Physical memory is seen at [HHDM_OFFSET]. *)
Context (HHDM_OFFSET : Z).
#[local] Abbreviation top := (pgt_get_top_level P).
#[local] Abbreviation shift := (PAGE_SHIFTS P).
#[local] Abbreviation bits := (pt_bits P).
#[local] Abbreviation index v l := (virt_to_pt_index P v l).

(** ** Translation *)

Definition entry (m : mem) (table i : Z) : Z := load 8 m (table + 8 * i).
(** The entry is a pointer to a table of the next level. *)
Definition is_table (l e : Z) : bool := pte_is_present P e && negb (pte_level_can_have_large P l && pte_is_large P e).
Definition next_table (l e : Z) : Z := HHDM_OFFSET + pte_to_phys P e l.

(** From a table of level [n]: the level and the table where the walk for [v] ends. *)
Fixpoint mmu_walk (n : nat) (m : mem) (table v : Z) : Z * Z :=
  let l := Z.of_nat n in
  match n with
  | O => (l, table)
  | S n' => if (1 <? l) && is_table l (entry m table (index v l)) then mmu_walk n' m (next_table l (entry m table (index v l))) v
            else (l, table)
  end.
(** The page at an entry where a walk ends. *)
Definition page_at (l e v : Z) : option Z :=
  if pte_is_present P e && ((l =? 1) || (pte_level_can_have_large P l && pte_is_large P e))
  then Some (pte_to_phys P e l + v mod 2 ^ shift l) else None.
Definition translate (m : mem) (root v : Z) : option Z :=
  let '(l, table) := mmu_walk (Z.to_nat top) m root v in page_at l (entry m table (index v l)) v.

(** ** Indices *)

(** The number of the table of level [l] on the walk for [v] among all of its level. *)
Definition tbl (l v : Z) : Z := v / 2 ^ (shift l + bits l).

Lemma bits_pos l : 1 <= l <= top -> 0 < bits l /\ bits l <= shift 1 - 3.
Proof. intros Hl. destruct (ok_bits _ _ _ _ OK l Hl) as (? & _). pose proof (ok_shift_1 _ _ _ _ OK). lia. Qed.
Lemma shift_mono l : 1 <= l <= top -> shift 1 <= shift l.
Proof.
  intros Hl. replace l with (1 + Z.of_nat (Z.to_nat (l - 1))) in * by lia. revert Hl. generalize (Z.to_nat (l - 1)) as k.
  induction k as [|k IH]; intros Hl; [reflexivity|]. replace (1 + Z.of_nat (S k)) with ((1 + Z.of_nat k) + 1) in * by lia.
  rewrite (ok_shift _ _ _ _ OK) by lia. pose proof (bits_pos (1 + Z.of_nat k) ltac:(lia)). specialize (IH ltac:(lia)). lia.
Qed.
Lemma shift_pos l : 1 <= l <= top -> 12 <= shift l.
Proof. intros Hl. pose proof (shift_mono l Hl). pose proof (ok_shift_1 _ _ _ _ OK). lia. Qed.
Lemma shift_le_va l : 1 <= l <= top -> shift l + bits l <= va_bits P.
Proof.
  intros Hl. destruct (ok_va _ _ _ _ OK) as (-> & _). remember (Z.to_nat (top - l)) as k eqn:Ek. revert l Hl Ek.
  induction k as [|k IH]; intros l Hl Ek; [replace l with top by lia; lia|].
  rewrite <- (ok_shift _ _ _ _ OK) by lia. pose proof (bits_pos (l + 1) ltac:(lia)). specialize (IH (l + 1) ltac:(lia) ltac:(lia)). lia.
Qed.
Lemma index_spec l v : 1 <= l <= top -> index v l = (v / 2 ^ shift l) mod 2 ^ bits l.
Proof.
  intros Hl. unfold virt_to_pt_index. destruct (ok_bits _ _ _ _ OK l Hl) as (? & _ & _ & ->). pose proof (shift_pos l Hl).
  rewrite land_pow2_pred, Z.shiftr_div_pow2 by lia. reflexivity.
Qed.
Lemma index_bound l v : 1 <= l <= top -> 0 <= index v l < 2 ^ bits l.
Proof. intros Hl. rewrite index_spec by exact Hl. apply Z.mod_pos_bound. pose proof (bits_pos l Hl). lia. Qed.
Lemma block_split l v : 1 <= l <= top -> v / 2 ^ shift l = tbl l v * 2 ^ bits l + index v l.
Proof.
  intros Hl. pose proof (bits_pos l Hl). pose proof (shift_pos l Hl). unfold tbl. rewrite index_spec by exact Hl.
  rewrite Z.pow_add_r, <- Z.div_div by lia. rewrite Z.mul_comm. apply Z.div_mod. lia.
Qed.
Lemma tbl_above l v : 1 <= l < top -> tbl l v = v / 2 ^ shift (l + 1).
Proof. intros Hl. unfold tbl. rewrite (ok_shift _ _ _ _ OK) by lia. reflexivity. Qed.
Lemma tbl_top v : 0 <= v < 2 ^ va_bits P -> tbl top v = 0.
Proof. intros Hv. unfold tbl. destruct (ok_va _ _ _ _ OK) as (<- & _). apply Z.div_small. exact Hv. Qed.
(** Addresses with the same table at a level have the same entries above. *)
Lemma tbl_same l v v' : 1 <= l < top -> tbl l v = tbl l v' -> tbl (l + 1) v = tbl (l + 1) v' /\ index v (l + 1) = index v' (l + 1).
Proof.
  intros Hl E. rewrite !tbl_above in E by lia. pose proof (block_split (l + 1) v ltac:(lia)) as B. pose proof (block_split (l + 1) v' ltac:(lia)) as B'.
  assert (T : tbl (l + 1) v = tbl (l + 1) v').
  { pose proof (bits_pos (l + 1) ltac:(lia)). pose proof (shift_pos (l + 1) ltac:(lia)). unfold tbl.
    rewrite !Z.pow_add_r, <- !Z.div_div by lia. rewrite E. reflexivity. }
  split; [exact T|]. rewrite E, T in B. lia.
Qed.

(** ** The walk *)

(** The walk for [v] comes by [table] at level [l]. *)
Inductive reaches (m : mem) (root v : Z) : Z -> Z -> Prop :=
  | reaches_root : reaches m root v top root
  | reaches_below l table : reaches m root v (l + 1) table -> 1 <= l ->
      is_table (l + 1) (entry m table (index v (l + 1))) = true ->
      reaches m root v l (next_table (l + 1) (entry m table (index v (l + 1)))).

Lemma reaches_level m root v l t : reaches m root v l t -> 1 <= l <= top.
Proof. pose proof (ok_top _ _ _ _ OK). induction 1; lia. Qed.
Lemma reaches_down m root v l t : reaches m root v l t -> 1 < l -> is_table l (entry m t (index v l)) = true ->
  reaches m root v (l - 1) (next_table l (entry m t (index v l))).
Proof. intros R Hl E. replace l with (l - 1 + 1) in R, E |- * by lia. replace (l - 1 + 1 - 1) with (l - 1) by lia. apply reaches_below; auto. lia. Qed.
Lemma walk_step m l t v : 1 <= l -> mmu_walk (Z.to_nat l) m t v =
  if (1 <? l) && is_table l (entry m t (index v l)) then mmu_walk (Z.to_nat (l - 1)) m (next_table l (entry m t (index v l))) v else (l, t).
Proof.
  intros Hl. destruct (Z.to_nat l) as [|n] eqn:E; [lia|]. replace (Z.to_nat (l - 1)) with n by lia. cbn [mmu_walk].
  replace (Z.of_nat (S n)) with l by lia. reflexivity.
Qed.
Lemma reaches_walk m root v l t : reaches m root v l t -> mmu_walk (Z.to_nat top) m root v = mmu_walk (Z.to_nat l) m t v.
Proof.
  induction 1 as [|l t R IH Hl E]; [reflexivity|]. rewrite IH, walk_step, E by lia. replace (l + 1 - 1) with l by lia.
  destruct (Z.ltb_spec 1 (l + 1)); [reflexivity|lia].
Qed.
Lemma translate_at m root v l t : reaches m root v l t -> l = 1 \/ is_table l (entry m t (index v l)) = false ->
  translate m root v = page_at l (entry m t (index v l)) v.
Proof.
  intros R Hs. pose proof (reaches_level _ _ _ _ _ R). unfold translate. rewrite (reaches_walk _ _ _ _ _ R), walk_step by lia.
  destruct Hs as [->|E]; [reflexivity|]. rewrite E, andb_false_r. reflexivity.
Qed.
Lemma walk_ends m root v : exists l t, mmu_walk (Z.to_nat top) m root v = (l, t) /\ reaches m root v l t /\
  (l = 1 \/ is_table l (entry m t (index v l)) = false).
Proof.
  pose proof (ok_top _ _ _ _ OK).
  assert (G : forall k l t, Z.to_nat l = S k -> reaches m root v l t -> exists l' t', mmu_walk (Z.to_nat l) m t v = (l', t') /\
    reaches m root v l' t' /\ (l' = 1 \/ is_table l' (entry m t' (index v l')) = false)).
  { induction k as [|k IH]; intros l t Hk R; pose proof (reaches_level _ _ _ _ _ R); rewrite walk_step by lia.
    - exists l, t. replace l with 1 in * by lia. auto.
    - destruct (Z.ltb_spec 1 l); [|lia]. destruct (is_table l (entry m t (index v l))) eqn:E; [|exists l, t; auto].
      apply IH; [lia|]. replace l with (l - 1 + 1) in R, E |- * by lia. replace (l - 1 + 1 - 1) with (l - 1) by lia.
      apply reaches_below; auto. lia. }
  apply (G (Z.to_nat (top - 1)) top root); [lia|constructor].
Qed.
Lemma reaches_fun m root v l t t' : reaches m root v l t -> reaches m root v l t' -> t = t'.
Proof.
  intros R. revert t'. induction R as [|l t R IH Hl E]; intros t' R'; pose proof (reaches_level _ _ _ _ _ R') as Hl'.
  - inversion R' as [|? ? R2]; [reflexivity|]. apply reaches_level in R2. lia.
  - pose proof (reaches_level _ _ _ _ _ R). inversion R' as [|l2 t2 R2 H2 E2]; [subst; lia|]. subst l2. rewrite (IH t2 R2). reflexivity.
Qed.
(** It depends only on the part of the address above the level. *)
Lemma reaches_same m root v v' l t : tbl l v = tbl l v' -> reaches m root v l t -> reaches m root v' l t.
Proof.
  intros E R. revert E. induction R as [|l t R IH Hl Et]; intros E; [constructor|]. pose proof (reaches_level _ _ _ _ _ R).
  destruct (tbl_same l v v' ltac:(lia) E) as (E1 & E2). rewrite E2 in *. constructor; auto.
Qed.

(** ** The tree of tables *)

(** [own] gives the level of each table and its number among the tables of that level. *)
Definition ownership : Type := Z -> option (Z * Z).
Record tree (m : mem) (own : ownership) (root : Z) : Prop := {
  t_root : own root = Some (top, 0);
  t_page : forall t l b, own t = Some (l, b) -> 1 <= l <= top /\ t mod PAGE_SIZE P = 0 /\
    HHDM_OFFSET + PAGE_SIZE P <= t /\ t + PAGE_SIZE P + 2 ^ (va_bits P - 9) <= 2 ^ 64;
  t_child : forall t l b i, own t = Some (l, b) -> 1 < l -> 0 <= i < 2 ^ bits l -> is_table l (entry m t i) = true ->
    (forall l', pte_to_phys P (entry m t i) l' = pte_to_phys P (entry m t i) l) /\
    own (next_table l (entry m t i)) = Some (l - 1, b * 2 ^ bits l + i) }.

Lemma page_size_pos : 4096 <= PAGE_SIZE P.
Proof.
  unfold PAGE_SIZE, PAGE_SHIFT. pose proof (ok_shift_1 _ _ _ _ OK). change 4096 with (2 ^ 12). apply Z.pow_le_mono_r; lia.
Qed.
Lemma table_fits l : 1 <= l <= top -> 8 * 2 ^ bits l <= PAGE_SIZE P.
Proof.
  intros Hl. pose proof (bits_pos l Hl). unfold PAGE_SIZE, PAGE_SHIFT. change 8 with (2 ^ 3). rewrite <- Z.pow_add_r by lia.
  apply Z.pow_le_mono_r; lia.
Qed.
Lemma slot_inside l i : 1 <= l <= top -> 0 <= i < 2 ^ bits l -> 0 <= 8 * i /\ 8 * i + 8 <= PAGE_SIZE P.
Proof. intros Hl Hi. pose proof (table_fits l Hl). lia. Qed.

(** Different pages do not overlap. *)
Lemma pages_apart t t' : t mod PAGE_SIZE P = 0 -> t' mod PAGE_SIZE P = 0 -> t <> t' -> t + PAGE_SIZE P <= t' \/ t' + PAGE_SIZE P <= t.
Proof.
  intros Ht Ht' Hne. pose proof page_size_pos. apply Z.mod_divide in Ht, Ht'; try lia. destruct Ht as [a ->], Ht' as [b ->].
  assert (a <> b) by (intros ->; lia). nia.
Qed.

Section Tree.
Context (m : mem) (own : ownership) (root : Z) (TR : tree m own root).

Lemma reaches_own v l t : 0 <= v < 2 ^ va_bits P -> reaches m root v l t -> own t = Some (l, tbl l v).
Proof.
  intros Hv. induction 1 as [|l t R IH Hl E].
  - rewrite tbl_top by exact Hv. apply (t_root _ _ _ TR).
  - pose proof (reaches_level _ _ _ _ _ R) as Hl'. destruct (t_child _ _ _ TR t (l + 1) _ _ IH ltac:(lia) (index_bound (l + 1) v Hl') E) as (_ & ->).
    rewrite <- block_split, tbl_above by lia. replace (l + 1 - 1) with l by lia. reflexivity.
Qed.

(** When the entries on the walk for [v] stay, so does the walk. *)
Lemma reaches_frame m' v l t : 0 <= v < 2 ^ va_bits P ->
  (forall l' t', l < l' <= top -> own t' = Some (l', tbl l' v) -> entry m' t' (index v l') = entry m t' (index v l')) ->
  reaches m root v l t -> reaches m' root v l t.
Proof.
  intros Hv F R. revert F. induction R as [|l t R IH Hl E]; intros F; [constructor|]. pose proof (reaches_level _ _ _ _ _ R).
  assert (Ee : entry m' t (index v (l + 1)) = entry m t (index v (l + 1))) by (apply F; [lia|apply reaches_own; auto]).
  rewrite <- Ee in E |- *. apply reaches_below; auto. apply IH. intros l' t' Hl'. apply F. lia.
Qed.
Lemma translate_frame m' v : 0 <= v < 2 ^ va_bits P ->
  (forall l t, own t = Some (l, tbl l v) -> entry m' t (index v l) = entry m t (index v l)) -> translate m' root v = translate m root v.
Proof.
  intros Hv F. destruct (walk_ends m root v) as (l & t & _ & R & Hs). rewrite (translate_at m root v l t R Hs).
  assert (Ee : entry m' t (index v l) = entry m t (index v l)) by (apply F, reaches_own; auto).
  rewrite <- Ee. apply translate_at; [|rewrite Ee; exact Hs]. apply (reaches_frame m'); auto.
Qed.

(** *** Writing entries of a table *)

(** The addresses of the entries [i .. i + n - 1] of the table of level [l] with number [b]. *)
Definition covers (l b i n v : Z) : Prop := b * 2 ^ bits l + i <= v / 2 ^ shift l < b * 2 ^ bits l + i + n.

Lemma covers_index l b i n v : 1 <= l <= top -> 0 <= i -> i + n <= 2 ^ bits l -> covers l b i n v ->
  tbl l v = b /\ i <= index v l < i + n.
Proof.
  intros Hl Hi Hn Hc. unfold covers in Hc. rewrite block_split in Hc by exact Hl. pose proof (index_bound l v Hl).
  destruct (Z.lt_trichotomy (tbl l v) b) as [|[E|]]; [nia|rewrite E in Hc; split; [exact E|lia]|nia].
Qed.
Lemma index_covers l b i n v : 1 <= l <= top -> tbl l v = b -> i <= index v l < i + n -> covers l b i n v.
Proof. intros Hl E Hi. unfold covers. rewrite block_split, E by exact Hl. lia. Qed.

(** [m'] differs from [m] only in the entries [i .. i + n - 1] of a table [t0] of level [l0]. *)
Definition entries_written (m' : mem) (t0 l0 i n : Z) : Prop :=
  forall x, ~ (t0 + 8 * i <= x < t0 + 8 * (i + n)) -> m' x = m x.

Lemma entry_kept m' t0 l0 b0 i n t l b j : own t0 = Some (l0, b0) -> 0 <= i -> i + n <= 2 ^ bits l0 ->
  entries_written m' t0 l0 i n -> own t = Some (l, b) -> 0 <= j < 2 ^ bits l -> t <> t0 \/ ~ (i <= j < i + n) ->
  entry m' t j = entry m t j.
Proof.
  intros O0 Hi Hn W Ot Hj Hd. destruct (t_page _ _ _ TR _ _ _ O0) as (L0 & A0 & _). destruct (t_page _ _ _ TR _ _ _ Ot) as (L & A & _).
  pose proof (table_fits l0 L0). pose proof (slot_inside l j L Hj). apply load_ext. intros k Hk. symmetry. symmetry. apply W.
  destruct (Z.eq_dec t t0) as [->|Ht]; [destruct Hd; [contradiction|lia]|]. destruct (pages_apart t t0 A A0 Ht); lia.
Qed.
(** Addresses of other entries translate as before. *)
Lemma translate_written m' t0 l0 b0 i n v : own t0 = Some (l0, b0) -> 0 <= i -> i + n <= 2 ^ bits l0 ->
  entries_written m' t0 l0 i n -> 0 <= v < 2 ^ va_bits P -> ~ covers l0 b0 i n v -> translate m' root v = translate m root v.
Proof.
  intros O0 Hi Hn W Hv Hc. apply translate_frame; [exact Hv|]. intros l t Ot. destruct (t_page _ _ _ TR _ _ _ Ot) as (L & _).
  apply (entry_kept m' t0 l0 b0 i n t l (tbl l v)); auto; [apply index_bound, L|].
  destruct (Z.eq_dec t t0) as [->|]; [right|auto]. rewrite O0 in Ot. injection Ot as <- E. intros Hx. apply Hc.
  apply index_covers; auto.
Qed.
(** The walk above the table stays for all addresses. *)
Lemma reaches_written m' t0 l0 b0 i n v l t : own t0 = Some (l0, b0) -> 0 <= i -> i + n <= 2 ^ bits l0 ->
  entries_written m' t0 l0 i n -> 0 <= v < 2 ^ va_bits P -> l0 <= l \/ ~ covers l0 b0 i n v -> reaches m root v l t -> reaches m' root v l t.
Proof.
  intros O0 Hi Hn W Hv Hc. apply reaches_frame; [exact Hv|]. intros l' t' Hl' Ot.
  destruct (t_page _ _ _ TR _ _ _ Ot) as (L & _). apply (entry_kept m' t0 l0 b0 i n t' l' (tbl l' v)); auto; [apply index_bound, L|].
  destruct (Z.eq_dec t' t0) as [->|]; [right|auto]. rewrite O0 in Ot. injection Ot as <- E. intros Hx.
  destruct Hc as [Hc|Hc]; [lia|]. apply Hc. apply index_covers; auto.
Qed.
(** Writing entries that are not tables keeps the tree. *)
Lemma tree_written m' t0 l0 b0 i n : own t0 = Some (l0, b0) -> 0 <= i -> i + n <= 2 ^ bits l0 -> entries_written m' t0 l0 i n ->
  (1 < l0 -> forall j, i <= j < i + n -> is_table l0 (entry m' t0 j) = false) -> tree m' own root.
Proof.
  intros O0 Hi Hn W Hw. split; [apply TR|apply (t_page _ _ _ TR)|]. intros t l b j Ot Hl Hj Et.
  destruct (Z.eq_dec t t0) as [->|Ht].
  - rewrite O0 in Ot. injection Ot as <- <-. destruct (Z.le_gt_cases i j), (Z.lt_ge_cases j (i + n)).
    1: rewrite Hw in Et by (auto; lia); discriminate.
    all: rewrite (entry_kept m' t0 l0 b0 i n t0 l0 b0 j) in * by (auto; right; lia); apply (t_child _ _ _ TR t0 l0); auto.
  - rewrite (entry_kept m' t0 l0 b0 i n t l b j) in * by auto. apply (t_child _ _ _ TR t l); auto.
Qed.

(** A change that keeps the entries that are tables keeps the walks through them. *)
Lemma reaches_mono m' v l t : 0 <= v < 2 ^ va_bits P ->
  (forall t l b j, own t = Some (l, b) -> 1 < l -> 0 <= j < 2 ^ bits l -> is_table l (entry m t j) = true -> entry m' t j = entry m t j) ->
  reaches m root v l t -> reaches m' root v l t.
Proof.
  intros Hv F R. induction R as [|l t R IH Hl E]; [constructor|]. pose proof (reaches_level _ _ _ _ _ R) as L.
  assert (Ee : entry m' t (index v (l + 1)) = entry m t (index v (l + 1))).
  { eapply F; eauto; [apply reaches_own; eauto|lia|apply index_bound, L]. }
  rewrite <- Ee in E |- *. apply reaches_below; auto.
Qed.
(** Walks after entries that are not tables are written were walks before. *)
Lemma reaches_written_inv m' t0 l0 b0 i n v l t : own t0 = Some (l0, b0) -> 0 <= i -> i + n <= 2 ^ bits l0 -> entries_written m' t0 l0 i n ->
  (1 < l0 -> forall j, i <= j < i + n -> is_table l0 (entry m' t0 j) = false) -> 0 <= v < 2 ^ va_bits P ->
  reaches m' root v l t -> reaches m root v l t.
Proof.
  intros O0 Hi Hn W Hw Hv R. induction R as [|l t R IH Hl E]; [constructor|]. pose proof (reaches_level _ _ _ _ _ R) as L.
  pose proof (reaches_own v _ _ Hv IH) as Ot. pose proof (index_bound (l + 1) v L) as Hj.
  assert (Ee : entry m' t (index v (l + 1)) = entry m t (index v (l + 1))).
  { apply (entry_kept m' t0 l0 b0 i n t (l + 1) (tbl (l + 1) v)); auto. destruct (Z.eq_dec t t0) as [->|]; [right|auto]. intros Hx.
    rewrite O0 in Ot. injection Ot as -> _. rewrite Hw in E by (auto; lia). discriminate. }
  rewrite Ee in E |- *. apply reaches_below; auto.
Qed.

(** *** A new table *)

Definition with_table (own : ownership) (t l b : Z) : ownership := fun x => if x =? t then Some (l, b) else own x.

Section AddTable.
Context (t l b i phys : Z) (O : own t = Some (l, b)) (Hl : 1 < l) (Hi : 0 <= i < 2 ^ bits l).
Context (Habsent : pte_is_present P (entry m t i) = false).
#[local] Abbreviation new := (HHDM_OFFSET + phys).
Context (Hnew : own new = None) (Hphys : 0 <= phys < 2 ^ phys_bits) (Halign : phys mod PAGE_SIZE P = 0) (Hpage : new mod PAGE_SIZE P = 0)
  (Hlow : PAGE_SIZE P <= phys) (Hhigh : new + PAGE_SIZE P + 2 ^ (va_bits P - 9) <= 2 ^ 64).
#[local] Abbreviation e := (Z.lor (phys_create_pte P phys) (PGT_FLAGS P)).
Context (m' : mem) (Hentry : entry m' t i = e)
  (Hzero : forall j, 0 <= j < 2 ^ bits (l - 1) -> pte_is_present P (entry m' new j) = false)
  (Hrest : forall x, ~ (t + 8 * i <= x < t + 8 * i + 8) -> ~ (new <= x < new + PAGE_SIZE P) -> m' x = m x).
#[local] Abbreviation own' := (with_table own new (l - 1) (b * 2 ^ bits l + i)).

Lemma add_entry_kept t' l' b' j : own t' = Some (l', b') -> 0 <= j < 2 ^ bits l' -> t' <> t \/ j <> i -> entry m' t' j = entry m t' j.
Proof.
  intros Ot Hj Hd. destruct (t_page _ _ _ TR _ _ _ O) as (L0 & A0 & _). destruct (t_page _ _ _ TR _ _ _ Ot) as (L & A & _).
  pose proof (slot_inside l' j L Hj). pose proof (slot_inside l i L0 Hi). apply load_ext. intros k Hk. apply Hrest.
  - destruct (Z.eq_dec t' t) as [->|Ht]; [destruct Hd; [contradiction|lia]|]. destruct (pages_apart t' t A A0 Ht); lia.
  - assert (Hne : t' <> new) by (intros ->; congruence). destruct (pages_apart t' new A Hpage Hne); lia.
Qed.
Lemma absent_not_table l' e' : pte_is_present P e' = false -> is_table l' e' = false.
Proof. intros E. unfold is_table. rewrite E. reflexivity. Qed.
Lemma new_entry : is_table l e = true /\ next_table l e = new /\ forall l', pte_to_phys P e l' = phys.
Proof.
  destruct (ok_table _ _ _ _ OK phys Hphys Halign) as (_ & E1 & E2 & E3). unfold is_table, next_table. rewrite E1, E2, E3, andb_false_r. auto.
Qed.
Lemma add_reaches v l' t' : 0 <= v < 2 ^ va_bits P -> reaches m root v l' t' -> reaches m' root v l' t'.
Proof.
  intros Hv. apply reaches_mono; [exact Hv|]. intros t1 l1 b1 j O1 Hl1 Hj E. eapply add_entry_kept; eauto.
  destruct (Z.eq_dec t1 t) as [->|]; [right|auto]. intros ->. rewrite (absent_not_table l1 _ Habsent) in E. discriminate.
Qed.
Lemma add_reaches_new v : 0 <= v < 2 ^ va_bits P -> index v l = i -> reaches m root v l t -> reaches m' root v (l - 1) new.
Proof.
  intros Hv Hx R. apply (add_reaches v) in R; [|exact Hv]. destruct new_entry as (E1 & E2 & _).
  pose proof (reaches_down m' root v l t R Hl) as D. rewrite Hx, Hentry, E2 in D. apply D, E1.
Qed.
Lemma add_reaches_inv v l' t' : 0 <= v < 2 ^ va_bits P -> reaches m' root v l' t' ->
  reaches m root v l' t' \/ l' = l - 1 /\ t' = new /\ tbl l v = b /\ index v l = i.
Proof.
  intros Hv R. induction R as [|l' t' R IH Hl' E]; [left; constructor|]. pose proof (reaches_level _ _ _ _ _ R) as L.
  destruct IH as [IH|(El & -> & _)].
  - pose proof (reaches_own v _ _ Hv IH) as Ot. pose proof (index_bound (l' + 1) v L) as Hj.
    destruct (Z.eq_dec t' t) as [->|Ht]; [destruct (Z.eq_dec (index v (l' + 1)) i) as [Ej|Ej]|].
    + right. rewrite O in Ot. injection Ot as E1 E2. rewrite Ej, Hentry. rewrite <- E1 in *.
      split; [lia|]. split; [apply new_entry|auto].
    + left. rewrite (add_entry_kept t (l' + 1) _ _ Ot Hj) in E |- * by auto. apply reaches_below; auto.
    + left. rewrite (add_entry_kept t' (l' + 1) _ _ Ot Hj) in E |- * by auto. apply reaches_below; auto.
  - exfalso. rewrite El in E, L. rewrite (absent_not_table _ _ (Hzero _ (index_bound (l - 1) v L))) in E. discriminate.
Qed.
Lemma add_translate v : 0 <= v < 2 ^ va_bits P -> translate m' root v = translate m root v.
Proof.
  intros Hv. destruct (walk_ends m root v) as (l' & t' & _ & R & Hs). rewrite (translate_at m root v l' t' R Hs).
  pose proof (reaches_level _ _ _ _ _ R) as L. pose proof (reaches_own v _ _ Hv R) as Ot. pose proof (index_bound l' v L) as Hj.
  pose proof (add_reaches v _ _ Hv R) as R'.
  assert (Same : t' <> t \/ index v l' <> i -> translate m' root v = page_at l' (entry m t' (index v l')) v).
  { intros Hd. pose proof (add_entry_kept t' l' _ _ Ot Hj Hd) as Ee. rewrite <- Ee in Hs |- *. apply translate_at; auto. }
  destruct (Z.eq_dec t' t) as [->|]; [|auto]. destruct (Z.eq_dec (index v l') i) as [Ej|]; [|auto].
  rewrite O in Ot. injection Ot as E1 E2. rewrite <- E1 in *. rewrite Ej. unfold page_at at 1. rewrite Habsent. cbn [andb].
  pose proof (add_reaches_new v Hv Ej R) as Rn. pose proof (Hzero _ (index_bound (l - 1) v ltac:(lia))) as Ha.
  rewrite (translate_at m' root v (l - 1) new Rn (or_intror (absent_not_table _ _ Ha))). unfold page_at. rewrite Ha. reflexivity.
Qed.
Lemma add_tree : tree m' own' root.
Proof.
  pose proof (t_root _ _ _ TR) as Or. destruct (t_page _ _ _ TR _ _ _ O) as (L & _). unfold with_table. split.
  - destruct (Z.eqb_spec root new) as [E|]; [congruence|exact Or].
  - intros t' l' b' Ot. destruct (Z.eqb_spec t' new) as [->|]; [|apply (t_page _ _ _ TR _ _ _ Ot)].
    injection Ot as <- _. split; [lia|]. split; [exact Hpage|lia].
  - intros t' l' b' j Ot Hl' Hj Et. destruct (Z.eqb_spec t' new) as [->|_].
    { injection Ot as <- _. rewrite (absent_not_table _ _ (Hzero j Hj)) in Et. discriminate. }
    destruct (Z.eq_dec t' t) as [->|Ht]; [destruct (Z.eq_dec j i) as [->|Hji]|].
    + rewrite O in Ot. injection Ot as <- <-. rewrite Hentry. destruct new_entry as (_ & -> & E). rewrite Z.eqb_refl. split; [|reflexivity].
      intros l2. rewrite !E. reflexivity.
    + rewrite (add_entry_kept t l' b' j Ot Hj) in * by auto. destruct (t_child _ _ _ TR t l' b' j) as (E1 & E2); auto.
      split; [exact E1|]. destruct (Z.eqb_spec (next_table l' (entry m t j)) new); [congruence|exact E2].
    + rewrite (add_entry_kept t' l' b' j Ot Hj) in * by auto. destruct (t_child _ _ _ TR t' l' b' j) as (E1 & E2); auto.
      split; [exact E1|]. destruct (Z.eqb_spec (next_table l' (entry m t' j)) new); [congruence|exact E2].
Qed.
(** The new table is on the walks for its addresses only, and no translation changes. *)
Lemma add_table : tree m' own' root /\ forall v, 0 <= v < 2 ^ va_bits P ->
  translate m' root v = translate m root v /\ (forall l' t', reaches m root v l' t' -> reaches m' root v l' t') /\
  (index v l = i -> reaches m root v l t -> reaches m' root v (l - 1) new) /\
  (forall l' t', reaches m' root v l' t' -> reaches m root v l' t' \/ l' = l - 1 /\ tbl l v = b /\ index v l = i).
Proof.
  split; [apply add_tree|]. intros v Hv. split; [apply add_translate, Hv|]. split; [intros l' t'; apply add_reaches, Hv|].
  split; [apply add_reaches_new, Hv|]. intros l' t' R. destruct (add_reaches_inv v l' t' Hv R) as [|(? & _ & ? & ?)]; auto.
Qed.
End AddTable.
End Tree.
End Tables.
