(* ===== verification/WalkerFacts.v ===== *)
(** * Where a walker stands

    [at_pos] says that a walker has the tables and indices of an address, down to where the
    walk for it ends.  A walker that is created stands at its address; what it then reads is
    what the hardware translates. *)

From S2P Require Import Prelude Mem Arith Refcount Hhdm Paging Walker PageTable.

Section Facts.
Context (P : paging) {phys_bits : Z} {leaf_ok large_ok : Z -> Prop} (OK : paging_ok P phys_bits leaf_ok large_ok).
Context (HHDM_OFFSET : Z) (Hhhdm : 0 <= HHDM_OFFSET) (Hpage : HHDM_OFFSET mod PAGE_SIZE P = 0) {A : Type}.
#[local] Abbreviation state := (pt_state A).
#[local] Abbreviation top := (pgt_get_top_level P).
#[local] Abbreviation shift := (PAGE_SHIFTS P).
#[local] Abbreviation bits := (pt_bits P).
#[local] Abbreviation index v l := (virt_to_pt_index P v l).
#[local] Abbreviation is_table := (is_table P).
#[local] Abbreviation next_table := (next_table P HHDM_OFFSET).
#[local] Abbreviation reaches := (reaches P HHDM_OFFSET).
#[local] Abbreviation tree := (tree P HHDM_OFFSET).
#[local] Abbreviation tbl := (tbl P).

Record at_pos (m : mem) (root : Z) (w : pt_walker) (v : Z) : Prop := {
  at_top : top_level w = top;
  at_level : 1 <= level w <= top;
  at_tables : forall l, level w <= l <= top -> reaches m root v l (tables w l);
  at_indices : forall l, 1 <= l <= top -> indices w l = index v l;
  at_stop : level w = 1 \/ is_table (level w) (entry m (tables w (level w)) (index v (level w))) = false }.

(** The part of an address that selects entries. *)
Definition va (virt : Z) : Z := virt mod 2 ^ va_bits P.
Lemma va_range virt : 0 <= va virt < 2 ^ va_bits P.
Proof. apply Z.mod_pos_bound. pose proof (shift_le_va P OK 1 ltac:(pose proof (ok_top _ _ _ _ OK); lia)).
  pose proof (bits_pos P OK 1 ltac:(pose proof (ok_top _ _ _ _ OK); lia)). pose proof (ok_shift_1 _ _ _ _ OK). lia. Qed.
Lemma va_index virt l : 1 <= l <= top -> index (va virt) l = index virt l.
Proof.
  intros Hl. rewrite !(index_spec P OK) by exact Hl. pose proof (shift_le_va P OK l Hl). pose proof (shift_pos P OK l Hl).
  pose proof (bits_pos P OK l Hl). unfold va. replace (va_bits P) with (shift l + (va_bits P - shift l)) by lia.
  rewrite Z.pow_add_r, Z.rem_mul_r by lia. rewrite (Z.mul_comm (2 ^ shift l)), Z.div_add by lia.
  rewrite (Z.div_small (virt mod 2 ^ shift l)) by (apply Z.mod_pos_bound; lia). rewrite Z.add_0_l.
  replace (va_bits P - shift l) with (bits l + (va_bits P - shift l - bits l)) by lia. rewrite Z.pow_add_r by lia.
  apply Z.mod_mod_divide. exists (2 ^ (va_bits P - shift l - bits l)). ring.
Qed.
Lemma va_offset virt l : 1 <= l <= top -> va virt mod 2 ^ shift l = virt mod 2 ^ shift l.
Proof.
  intros Hl. pose proof (shift_le_va P OK l Hl). pose proof (shift_pos P OK l Hl). pose proof (bits_pos P OK l Hl). unfold va.
  apply Z.mod_mod_divide. exists (2 ^ (va_bits P - shift l)). rewrite <- Z.pow_add_r by lia. f_equal. lia.
Qed.

Lemma shift_step j l : 1 <= j < l -> l <= top -> shift j + bits j <= shift l.
Proof.
  intros Hj Hl. replace l with (j + 1 + Z.of_nat (Z.to_nat (l - j - 1))) in * by lia. generalize dependent (Z.to_nat (l - j - 1)).
  intros n. induction n as [|n IH]; intros Hj Hl; [rewrite Z.add_0_r, (ok_shift _ _ _ _ OK); lia|].
  replace (j + 1 + Z.of_nat (S n)) with (j + 1 + Z.of_nat n + 1) in * by lia. rewrite (ok_shift _ _ _ _ OK (j + 1 + Z.of_nat n)) by lia.
  pose proof (bits_pos P OK (j + 1 + Z.of_nat n) ltac:(lia)). specialize (IH ltac:(lia) ltac:(lia)). lia.
Qed.

Lemma mod_lower j l v : 1 <= j <= l -> l <= top -> v mod 2 ^ shift l = 0 -> v mod 2 ^ shift j = 0.
Proof.
  intros Hj Hl. destruct (Z.eq_dec j l) as [->|]; [auto|]. apply pow2_divides_mod. pose proof (shift_step j l ltac:(lia) Hl).
  pose proof (shift_pos P OK j ltac:(lia)). pose proof (bits_pos P OK j ltac:(lia)). lia.
Qed.

(** ** Tables in the direct map *)

Section Tree.
Context (m : mem) (own : ownership) (root : Z) (TR : tree m own root).

Lemma table_nonzero t l b : own t = Some (l, b) -> (t =? 0) = false.
Proof. intros O. destruct (t_page _ _ _ _ _ TR _ _ _ O) as (_ & _ & ? & _). pose proof (page_size_pos P OK). zcase; lia. Qed.
(** The address of a table below, as the code computes it. *)
Lemma table_below v l t l' : 0 <= v < 2 ^ va_bits P -> reaches m root v (l + 1) t -> 1 <= l ->
  is_table (l + 1) (entry m t (index v (l + 1))) = true ->
  pte_to_virt P HHDM_OFFSET (entry m t (index v (l + 1))) l' = Ok (next_table (l + 1) (entry m t (index v (l + 1)))).
Proof.
  intros Hv R Hl E. pose proof (reaches_own P OK HHDM_OFFSET _ _ _ TR _ _ _ Hv R) as O. pose proof (reaches_level P OK _ _ _ _ _ _ R) as L.
  destruct (t_child _ _ _ _ _ TR _ _ _ _ O ltac:(lia) (index_bound P OK _ v L) E) as (Ep & O').
  destruct (t_page _ _ _ _ _ TR _ _ _ O') as (_ & _ & ? & ?). pose proof (page_size_pos P OK). unfold pte_to_virt. rewrite Ep.
  pose proof (Z.pow_nonneg 2 (va_bits P - 9) ltac:(lia)). unfold PageTable.next_table in *. apply phys_to_virt_ok; lia.
Qed.
Lemma reaches_nonzero v l t : 0 <= v < 2 ^ va_bits P -> reaches m root v l t -> (t =? 0) = false.
Proof. intros Hv R. eapply table_nonzero, reaches_own; eauto. Qed.
End Tree.

Lemma page_pow2 : pow2_64 (PAGE_SIZE P).
Proof.
  exists (shift 1). split; [|reflexivity]. pose proof (ok_shift_1 _ _ _ _ OK). pose proof (ok_top _ _ _ _ OK).
  pose proof (shift_le_va P OK 1 ltac:(lia)). pose proof (bits_pos P OK 1 ltac:(lia)). destruct (ok_va _ _ _ _ OK). lia.
Qed.

(** The level of a walker is where the walk ends. *)
Lemma at_pos_walk m root w v : at_pos m root w v -> mmu_walk P HHDM_OFFSET (Z.to_nat top) m root v = (level w, tables w (level w)).
Proof.
  intros [_ Hl Ht _ Hs]. rewrite (reaches_walk P HHDM_OFFSET m root v _ _ (Ht _ (conj (Z.le_refl _) (proj2 Hl)))), walk_step by lia.
  destruct Hs as [E|E]; rewrite E; [reflexivity|]. rewrite andb_false_r. reflexivity.
Qed.
Lemma aligned_low v l j : 1 <= j < l -> l <= top -> v mod 2 ^ shift l = 0 -> index v j = 0.
Proof.
  intros Hj Hl Hm. rewrite (index_spec P OK) by lia. pose proof (shift_step j l Hj Hl). pose proof (shift_pos P OK j ltac:(lia)).
  pose proof (bits_pos P OK j ltac:(lia)). apply Z.mod_divide in Hm; [|lia]. destruct Hm as [q ->].
  replace (shift l) with (shift l - shift j - bits j + bits j + shift j) by lia. rewrite !Z.pow_add_r, !Z.mul_assoc, Z.div_mul by lia.
  apply Z.mod_mul. lia.
Qed.

(** ** Creation *)

(** The walker of [create_loop] when the levels above [n] are done. *)
Record created (s : state) (root v : Z) (n prev : Z) (w : pt_walker) : Prop := {
  c_top : top_level w = top;
  c_level : n + 1 <= level w <= top;
  c_tables : forall l, level w <= l <= top -> reaches (s_mem s) root v l (tables w l);
  c_indices : forall l, n < l <= top -> indices w l = index v l;
  c_prev : prev <> 0 -> level w = n + 1 /\ tables w (n + 1) = prev;
  c_stop : prev = 0 -> is_table (level w) (entry (s_mem s) (tables w (level w)) (index v (level w))) = false }.

Lemma create_loop_ok s own root virt n prev w : tree (s_mem s) own root -> Z.of_nat n < top ->
  created s root (va virt) (Z.of_nat n) prev w -> exists w', create_loop P HHDM_OFFSET n s virt prev w = Ok w' /\
    at_pos (s_mem s) root w' (va virt) /\ alloc_pgtable w' = alloc_pgtable w /\ free_pgtable w' = free_pgtable w.
Proof.
  intros TR. pose proof (va_range virt) as Hv. revert prev w. induction n as [|n IH]; intros prev w Hn C.
  { exists w. split; [reflexivity|]. destruct C. split_and?; auto. split; auto; try lia; [intros l Hl; apply c_indices0; lia|].
    destruct (Z.eq_dec prev 0) as [E|E]; [right; auto|left; destruct (c_prev0 E); lia]. }
  cbn [create_loop]. set (l := Z.of_nat (S n)) in *. assert (Ln : Z.of_nat n = l - 1) by lia.
  assert (Step : forall table w1, (table = 0 \/ table <> 0) -> tables w1 = tables w -> indices w1 = indices w -> top_level w1 = top ->
    alloc_pgtable w1 = alloc_pgtable w /\ free_pgtable w1 = free_pgtable w ->
    (table = 0 -> level w1 = level w /\ is_table (level w) (entry (s_mem s) (tables w (level w)) (index (va virt) (level w))) = false) ->
    (table <> 0 -> level w = l + 1 /\ level w1 = l /\ reaches (s_mem s) root (va virt) l table) ->
    exists w', create_loop P HHDM_OFFSET n s virt table (set_index (set_table w1 l table) l (index virt l)) = Ok w' /\
      at_pos (s_mem s) root w' (va virt) /\ alloc_pgtable w' = alloc_pgtable w /\ free_pgtable w' = free_pgtable w).
  { intros table w1 D Et Ei Etop (Ea & Ef) H0 H1. destruct C. rewrite <- Ea, <- Ef.
    apply (IH table (set_index (set_table w1 l table) l (index virt l))); [lia|]. rewrite Ln. split; cbn.
    - exact Etop.
    - destruct D as [D|D]; [destruct (H0 D) as (-> & _)|destruct (H1 D) as (_ & -> & _)]; lia.
    - intros l' Hl'. rewrite Et. destruct (Z.eqb_spec l' l) as [->|].
      + destruct D as [D|D]; [destruct (H0 D) as (E & _); lia|destruct (H1 D) as (_ & _ & R); exact R].
      + apply c_tables0. destruct D as [D|D]; [destruct (H0 D) as (<- & _)|destruct (H1 D) as (-> & E & _)]; lia.
    - intros l' Hl'. rewrite Ei. destruct (Z.eqb_spec l' l) as [->|]; [symmetry; apply va_index; lia|apply c_indices0; lia].
    - intros D'. destruct (H1 D') as (_ & -> & _). replace (l - 1 + 1) with l by lia. rewrite Z.eqb_refl. auto.
    - intros D'. destruct (H0 D') as (-> & E). rewrite Et. destruct (Z.eqb_spec (level w) l); [lia|exact E]. }
  destruct (Z.eqb_spec prev 0) as [E0|E0].
  { cbn [mbind outcome_bind]. apply Step; auto; try lia; [apply C|]. intros _. split; [reflexivity|apply (c_stop _ _ _ _ _ _ C E0)]. }
  destruct (c_prev _ _ _ _ _ _ C E0) as (El & Ep). pose proof (c_tables _ _ _ _ _ _ C (l + 1) ltac:(lia)) as R. rewrite Ep in R.
  unfold pte_read. rewrite (c_indices _ _ _ _ _ _ C) by lia. change (load 8 (s_mem s) (prev + 8 * ?i)) with (entry (s_mem s) prev i).
  set (e := entry (s_mem s) prev (index (va virt) (l + 1))) in *. destruct (is_table (l + 1) e) eqn:Et.
  - pose proof Et as Et'. unfold PageTable.is_table in Et'. apply andb_true_iff in Et'. destruct Et' as (E1 & E2). rewrite E1. cbn [negb].
    replace (negb (pte_level_can_have_large P (l + 1)) || negb (pte_is_large P e)) with true by (rewrite <- negb_andb; auto).
    unfold e at 1. rewrite (table_below _ _ _ TR (va virt) l prev l) by (auto; lia). fold e. cbn [mbind outcome_bind].
    assert (R' : reaches (s_mem s) root (va virt) l (next_table (l + 1) e)) by (apply reaches_below; auto; lia).
    pose proof (reaches_nonzero _ _ _ TR _ _ _ Hv R') as Z0. apply Z.eqb_neq in Z0.
    apply Step; auto; try lia; try apply C; try contradiction.
  - assert (St : is_table (level w) (entry (s_mem s) (tables w (level w)) (index (va virt) (level w))) = false) by (rewrite El, Ep; exact Et).
    unfold PageTable.is_table in Et. destruct (pte_is_present P e); cbn [negb andb] in *.
    + apply negb_false_iff, andb_true_iff in Et. destruct Et as (-> & ->). cbn [negb orb mbind outcome_bind].
      apply Step; auto; try lia; apply C.
    + cbn [mbind outcome_bind]. apply Step; auto; try lia. apply C.
Qed.

(** A walker is created at its address. *)
Lemma ptwalker_create_ok (s : state) own root virt alloc free : tree (s_mem s) own root -> virt mod PAGE_SIZE P = 0 ->
  exists w, ptwalker_create_from_root_phys P HHDM_OFFSET s (root - HHDM_OFFSET) virt alloc free = Ok w /\
    at_pos (s_mem s) root w (va virt) /\ alloc_pgtable w = alloc /\ free_pgtable w = free.
Proof.
  intros TR Ha. unfold ptwalker_create_from_root_phys. pose proof (ok_top _ _ _ _ OK) as Ht. pose proof (page_size_pos P OK).
  destruct (t_page _ _ _ _ _ TR _ _ _ (t_root _ _ _ _ _ TR)) as (_ & Hr & Hlo & Hhi). pose proof (Z.pow_nonneg 2 (va_bits P - 9) ltac:(lia)).
  rewrite !has_align_pow2 by exact page_pow2. rewrite Ha, Zminus_mod, Hr, Hpage. cbn [c_assert mbind outcome_bind Z.eqb].
  change ((0 - 0) mod PAGE_SIZE P =? 0) with (0 mod PAGE_SIZE P =? 0). rewrite Z.mod_0_l by lia. cbn [c_assert mbind outcome_bind Z.eqb].
  rewrite phys_to_virt_ok by lia. cbn [mbind outcome_bind]. replace (HHDM_OFFSET + (root - HHDM_OFFSET)) with root by lia.
  match goal with |- context [create_loop _ _ _ _ _ _ ?w0] => set (w := w0) end.
  destruct (create_loop_ok s own root virt (Z.to_nat (top - 1)) root w TR) as (w' & E & Hw & Ea & Ef); [lia| |exists w'; auto].
  replace (Z.of_nat (Z.to_nat (top - 1))) with (top - 1) by lia. split; cbn.
  - reflexivity.
  - lia.
  - intros l Hl. replace l with top by lia. rewrite Z.eqb_refl. constructor.
  - intros l Hl. replace l with top by lia. rewrite Z.eqb_refl. symmetry. apply va_index. lia.
  - intros _. replace (top - 1 + 1) with top by lia. rewrite Z.eqb_refl. auto.
  - intros ->. pose proof (table_nonzero _ _ _ TR _ _ _ (t_root _ _ _ _ _ TR)). discriminate.
Qed.

(** ** Reading *)

(** The physical address a walker finds is the one of the page its address is on. *)
Lemma ptwalker_get_phys_addr_ok (s : state) own root w v : tree (s_mem s) own root -> 0 <= v < 2 ^ va_bits P -> at_pos (s_mem s) root w v ->
  ptwalker_get_phys_addr P s w =
    Ok (match translate P HHDM_OFFSET (s_mem s) root v with Some p => p - v mod 2 ^ shift (level w) | None => INVALID_PHYS end).
Proof.
  intros TR Hv W. destruct W as [Et El Ta In St]. pose proof (Ta (level w) ltac:(lia)) as R.
  rewrite (translate_at P OK HHDM_OFFSET _ _ _ _ _ R St). unfold ptwalker_get_phys_addr, page_at, pte_ptr.
  rewrite (reaches_nonzero _ _ _ TR v _ _ Hv R), In by lia. unfold pte_read. cbn [mbind outcome_bind].
  change (load 8 (s_mem s) (tables w (level w) + 8 * ?i)) with (entry (s_mem s) (tables w (level w)) i).
  set (e := entry _ _ _). destruct (Z.ltb_spec (level w) 1); [lia|].
  destruct (Z.ltb_spec 1 (level w)), (Z.eqb_spec (level w) 1); try lia; cbn [andb negb orb];
    destruct (pte_is_present P e); cbn [negb andb]; destruct (pte_level_can_have_large P (level w)), (pte_is_large P e); cbn [negb andb];
    try reflexivity; f_equal; lia.
Qed.


(** ** Moving *)

(** The address of entry [i] of the table of level [l] with number [b]. *)
Definition entry_addr (l b i : Z) : Z := (b * 2 ^ bits l + i) * 2 ^ shift l.

Lemma tbl_same_above l j v v' : 1 <= l <= j -> j <= top -> tbl l v = tbl l v' -> tbl j v = tbl j v' /\ (l < j -> index v j = index v' j).
Proof.
  intros Hl Hj E. replace j with (l + Z.of_nat (Z.to_nat (j - l))) in * by lia. generalize dependent (Z.to_nat (j - l)). intros n.
  induction n as [|n IH]; intros H1 Hj; [rewrite Z.add_0_r; split; [exact E|lia]|].
  destruct IH as (E' & _); [lia|lia|]. destruct (tbl_same P OK (l + Z.of_nat n) v v' ltac:(lia) E') as (E1 & E2).
  replace (l + Z.of_nat (S n)) with (l + Z.of_nat n + 1) by lia. auto.
Qed.
Section EntryAddr.
Context (l b i : Z) (Hl : 1 <= l <= top) (Hi : 0 <= i < 2 ^ bits l).
#[local] Abbreviation v := (entry_addr l b i).
Lemma entry_addr_block : v / 2 ^ shift l = b * 2 ^ bits l + i.
Proof. pose proof (shift_pos P OK l Hl). apply Z.div_mul. lia. Qed.
Lemma entry_addr_tbl : tbl l v = b.
Proof.
  pose proof (shift_pos P OK l Hl). pose proof (bits_pos P OK l Hl). unfold PageTable.tbl.
  rewrite Z.pow_add_r, <- Z.div_div, entry_addr_block by lia. rewrite Z.div_add_l, Z.div_small by lia. lia.
Qed.
Lemma entry_addr_index : index v l = i.
Proof. pose proof (block_split P OK l v Hl) as B. rewrite entry_addr_block, entry_addr_tbl in B. lia. Qed.
Lemma entry_addr_low j : 1 <= j < l -> index v j = 0.
Proof.
  intros Hj. apply (aligned_low _ l); [exact Hj|lia|]. pose proof (shift_pos P OK l Hl). apply Z.mod_mul. lia.
Qed.
End EntryAddr.
(** Past the last entry of a table comes the next entry of the table above. *)
Lemma entry_addr_carry l v : 1 <= l < top -> entry_addr l (tbl l v) (2 ^ bits l) = entry_addr (l + 1) (tbl (l + 1) v) (index v (l + 1) + 1).
Proof.
  intros Hl. pose proof (bits_pos P OK l ltac:(lia)). pose proof (shift_pos P OK l ltac:(lia)). unfold entry_addr.
  rewrite (tbl_above P OK), (block_split P OK (l + 1)), (ok_shift _ _ _ _ OK l), Z.pow_add_r by lia. ring.
Qed.
Lemma entry_addr_last l b : 1 <= l <= top -> entry_addr l b (2 ^ bits l) = (b + 1) * 2 ^ (shift l + bits l).
Proof. intros Hl. pose proof (bits_pos P OK l Hl). pose proof (shift_pos P OK l Hl). unfold entry_addr. rewrite Z.pow_add_r by lia. ring. Qed.

Definition same_setup (w w' : pt_walker) : Prop :=
  top_level w' = top_level w /\ alloc_pgtable w' = alloc_pgtable w /\ free_pgtable w' = free_pgtable w.

Section Moves.
Context (s : state) (own : ownership) (root : Z) (TR : tree (s_mem s) own root).

(** Levels [n] and below are set up where the indices of [v] are 0. *)
Lemma setup_loop_ok n v t w : 0 <= v < 2 ^ va_bits P -> 1 <= Z.of_nat n -> (forall l, 1 <= l <= Z.of_nat n -> index v l = 0) ->
  reaches (s_mem s) root v (Z.of_nat n + 1) t -> is_table (Z.of_nat n + 1) (entry (s_mem s) t (index v (Z.of_nat n + 1))) = true ->
  exists w', setup_loop P HHDM_OFFSET n s w (entry (s_mem s) t (index v (Z.of_nat n + 1))) = Ok w' /\ same_setup w w' /\
    1 <= level w' <= Z.of_nat n /\
    (forall l, level w' <= l <= Z.of_nat n -> reaches (s_mem s) root v l (tables w' l) /\ indices w' l = 0) /\
    (forall l, l < level w' \/ Z.of_nat n < l -> tables w' l = tables w l /\ indices w' l = indices w l) /\
    (level w' = 1 \/ is_table (level w') (entry (s_mem s) (tables w' (level w')) (index v (level w'))) = false).
Proof.
  intros Hv. revert t w. induction n as [|n IH]; intros t w Hn Hz R E; [lia|]. set (l := Z.of_nat (S n)) in *.
  set (e := entry (s_mem s) t (index v (l + 1))) in *. set (t' := next_table (l + 1) e).
  assert (R' : reaches (s_mem s) root v l t') by (apply reaches_below; auto).
  cbn [setup_loop]. fold l. unfold e at 1. rewrite (table_below _ _ _ TR v l t l) by auto. fold e t'. cbn [mbind outcome_bind].
  replace (pte_read s t') with (entry (s_mem s) t' (index v l)) by (unfold entry, pte_read; rewrite Hz by lia; f_equal; lia).
  set (e' := entry (s_mem s) t' (index v l)) in *. set (w1 := set_index (set_table w l t') l 0).
  assert (T1 : tables w1 l = t') by (cbn; rewrite Z.eqb_refl; reflexivity).
  assert (Stop : forall w', w' = set_level w1 l -> l = 1 \/ is_table l e' = false -> same_setup w w' /\ 1 <= level w' <= l /\
    (forall j, level w' <= j <= l -> reaches (s_mem s) root v j (tables w' j) /\ indices w' j = 0) /\
    (forall j, j < level w' \/ l < j -> tables w' j = tables w j /\ indices w' j = indices w j) /\
    (level w' = 1 \/ is_table (level w') (entry (s_mem s) (tables w' (level w')) (index v (level w'))) = false)).
  { intros w' -> Hs. split; [split; auto|]. cbn [level set_level]. split; [lia|]. split; [|split].
    - intros j Hj. replace j with l by lia. cbn. rewrite Z.eqb_refl. auto.
    - intros j Hj. cbn. destruct (Z.eqb_spec j l); [lia|auto].
    - cbn [tables set_level]. rewrite T1. exact Hs. }
  assert (Ite : negb (pte_is_present P e') || (pte_level_can_have_large P l && pte_is_large P e') = negb (is_table l e')).
  { unfold PageTable.is_table. rewrite negb_andb, negb_involutive. reflexivity. }
  rewrite Ite. destruct (is_table l e') eqn:Et; cbn [negb]; [|exists (set_level w1 l); auto].
  destruct n as [|n]; [replace 1 with l by lia; exists (set_level w1 l); split; [reflexivity|]; apply Stop; auto; lia|].
  replace l with (Z.of_nat (S n) + 1) in R', Et by lia.
  destruct (IH t' w1 ltac:(lia) ltac:(intros; apply Hz; lia) R' ltac:(replace (Z.of_nat (S n) + 1) with l in * by lia; exact Et))
    as (w' & Ew & Hs & Hlev & Ht & Hf & Hst).
  replace (Z.of_nat (S n) + 1) with l in Ew by lia. exists w'. split; [exact Ew|]. split; [exact Hs|]. split; [lia|]. split; [|split; [|exact Hst]].
  - intros j Hj. destruct (Z.eq_dec j l) as [->|]; [|apply Ht; lia]. destruct (Hf l ltac:(lia)) as (-> & ->). rewrite T1. cbn. rewrite Z.eqb_refl.
    replace l with (Z.of_nat (S n) + 1) by lia. auto.
  - intros j Hj. destruct (Hf j ltac:(lia)) as (-> & ->). cbn. destruct (Z.eqb_spec j l); [lia|auto].
Qed.

(** At entry [l] of [v], below which the indices are 0. *)
Lemma arrive_ok l v w : 0 <= v < 2 ^ va_bits P -> 1 < l <= top -> (forall j, 1 <= j < l -> index v j = 0) ->
  (forall j, l <= j <= top -> reaches (s_mem s) root v j (tables w j) /\ indices w j = index v j) -> top_level w = top ->
  exists w', arrive P HHDM_OFFSET s w l (entry (s_mem s) (tables w l) (index v l)) = Ok w' /\ same_setup w w' /\ 1 <= level w' <= l /\
    (is_table l (entry (s_mem s) (tables w l) (index v l)) = false -> level w' = l) /\
    ((level w' < l -> forall j, 1 <= j < level w' -> indices w j = 0) -> at_pos (s_mem s) root w' v).
Proof.
  intros Hv Hl Hz Hu Ht. set (e := entry _ _ _). destruct (Hu l ltac:(lia)) as (R & _).
  assert (Here : is_table l e = false -> forall w', w' = set_level (reset_levels_lower_than w l) l ->
    same_setup w w' /\ 1 <= level w' <= l /\ (is_table l e = false -> level w' = l) /\
    ((level w' < l -> forall j, 1 <= j < level w' -> indices w j = 0) -> at_pos (s_mem s) root w' v)).
  { intros Ef w' ->. split; [split; auto|]. cbn [level set_level]. split; [lia|]. split; [auto|]. intros _. split; cbn.
    - exact Ht.
    - lia.
    - intros j Hj. destruct (Z.leb_spec 1 j), (Z.ltb_spec j l); try lia; apply Hu; lia.
    - intros j Hj. destruct (Z.leb_spec 1 j), (Z.ltb_spec j l); cbn; try lia; [symmetry; apply Hz; lia|apply Hu; lia].
    - right. destruct (Z.leb_spec 1 l), (Z.ltb_spec l l); try lia. exact Ef. }
  assert (Below : is_table l e = true -> exists w', setup_levels_lower_than P HHDM_OFFSET s w l e = Ok w' /\
    same_setup w w' /\ 1 <= level w' <= l /\ (is_table l e = false -> level w' = l) /\
    ((level w' < l -> forall j, 1 <= j < level w' -> indices w j = 0) -> at_pos (s_mem s) root w' v)).
  { intros Et. destruct (setup_loop_ok (Z.to_nat (l - 1)) v (tables w l) w Hv) as (w' & Ew & Hs & Hlev & Hin & Hout & Hst);
      replace (Z.of_nat (Z.to_nat (l - 1)) + 1) with l in * by lia; auto; try (intros; apply Hz); try lia.
    exists w'. split; [exact Ew|]. split; [exact Hs|]. split; [lia|]. split; [rewrite Et; discriminate|]. intros H0. split; auto; try lia.
    - destruct Hs as (-> & _). exact Ht.
    - intros j Hj. destruct (Z.lt_ge_cases j l); [apply Hin; lia|]. destruct (Hout j ltac:(lia)) as (-> & _). apply Hu. lia.
    - intros j Hj. destruct (Z.lt_ge_cases j (level w')); [|destruct (Z.lt_ge_cases j l)].
      + destruct (Hout j ltac:(lia)) as (_ & ->). rewrite H0, Hz by lia. reflexivity.
      + destruct (Hin j ltac:(lia)) as (_ & ->). rewrite Hz by lia. reflexivity.
      + destruct (Hout j ltac:(lia)) as (_ & ->). apply Hu. lia. }
  unfold arrive. unfold PageTable.is_table in *. destruct (pte_is_present P e); cbn [negb andb] in *; [|eexists; split; [reflexivity|apply Here; auto]].
  destruct (pte_level_can_have_large P l), (pte_is_large P e); cbn [negb andb] in *; auto. eexists. split; [reflexivity|]. apply Here; auto.
Qed.

(** No table of level 2 or more begins at [v]. *)
Definition no_table_begins (m : mem) (v : Z) : Prop :=
  forall l t, 3 <= l <= top -> v mod 2 ^ shift l = 0 -> ~ reaches m root v (l - 1) t.
Lemma entry_addr_mod l b i : 1 <= l <= top -> entry_addr l b i mod 2 ^ shift l = 0.
Proof. intros Hl. pose proof (shift_pos P OK l Hl). apply Z.mod_mul. lia. Qed.
Lemma not_past_top l v : 1 <= l <= top -> 0 <= v < 2 ^ va_bits P -> entry_addr l (tbl l v) (2 ^ bits l) < 2 ^ va_bits P -> l < top.
Proof.
  intros Hl Hv He. destruct (Z.eq_dec l top) as [->|]; [|lia]. rewrite entry_addr_last, (tbl_top P OK) in He by lia.
  destruct (ok_va _ _ _ _ OK) as (E & _). rewrite E in He. lia.
Qed.
Lemma entry_addr_nonneg l v i : 1 <= l <= top -> 0 <= v -> 0 <= i -> 0 <= entry_addr l (tbl l v) i.
Proof.
  intros Hl Hv Hi. pose proof (shift_pos P OK l Hl). pose proof (bits_pos P OK l Hl). unfold entry_addr, PageTable.tbl.
  pose proof (Z.div_pos v (2 ^ (shift l + bits l)) ltac:(lia) ltac:(lia)). nia.
Qed.
Lemma u16_count l : 1 <= l <= top -> PGT_PTE_COUNT P l = 2 ^ bits l /\ 2 ^ bits l < 2 ^ 16.
Proof. intros Hl. destruct (ok_bits _ _ _ _ OK l Hl) as (_ & E & ? & _). lia. Qed.

(** The walker is at [v] at level [l], and to leave it. *)
Record leaving (w : pt_walker) (v l : Z) : Prop := {
  lv_top : top_level w = top;
  lv_tables : forall j, l <= j <= top -> reaches (s_mem s) root v j (tables w j);
  lv_indices : forall j, l < j <= top -> indices w j = index v j }.
Lemma reaches_entry v j t i : 1 <= j <= top -> 0 <= i < 2 ^ bits j -> reaches (s_mem s) root v j t ->
  reaches (s_mem s) root (entry_addr j (tbl j v) i) j t.
Proof. intros Hj Hi. apply (reaches_same P OK). rewrite entry_addr_tbl; auto. Qed.
(** The walker moved to another entry of its table. *)
Lemma leaving_entry w v l i : 1 <= l <= top -> 0 <= i < 2 ^ bits l -> leaving w v l ->
  forall j, l <= j <= top -> reaches (s_mem s) root (entry_addr l (tbl l v) i) j (tables (set_index w l i) j) /\
    indices (set_index w l i) j = index (entry_addr l (tbl l v) i) j.
Proof.
  intros Hl Hi [_ Ht Hn] j Hj. destruct (tbl_same_above l j v (entry_addr l (tbl l v) i) ltac:(lia) ltac:(lia)) as (E1 & E2).
  { rewrite entry_addr_tbl; auto. }
  split; [apply (reaches_same P OK _ _ _ v); auto|]. cbn. destruct (Z.eqb_spec j l) as [->|]; [rewrite entry_addr_index; auto|].
  rewrite <- E2 by lia. apply Hn. lia.
Qed.

Definition climbed (r : climb_result) : option pt_walker :=
  match r with Arrived w => Some w | AtAbsent w l => Some (set_level w l) | AtEnd _ => None end.
Lemma next_climb_ok L n l w v : (Z.to_nat (top - l) < n)%nat -> 1 <= L <= l -> 0 <= v < 2 ^ va_bits P -> leaving w v l -> l <= top ->
  (forall j, 1 <= j < L -> indices w j = 0) -> entry_addr l (tbl l v) (2 ^ bits l) < 2 ^ va_bits P ->
  exists r w', next_climb P HHDM_OFFSET n s w l = Ok r /\ climbed r = Some w' /\ same_setup w w' /\
    (1 <= level w' <= top /\ entry_addr l (tbl l v) (2 ^ bits l) mod 2 ^ shift (level w') = 0) /\
    (no_table_begins (s_mem s) (entry_addr l (tbl l v) (2 ^ bits l)) -> at_pos (s_mem s) root w' (entry_addr l (tbl l v) (2 ^ bits l))).
Proof.
  revert l w. induction n as [|n IH]; intros l w Hn HL Hv W Hlt H0 He; [lia|]. assert (Hl : l < top) by (eapply not_past_top; eauto; lia).
  rewrite entry_addr_carry in * by lia. set (c := l + 1) in *. pose proof (index_bound P OK c v ltac:(lia)) as Hb.
  destruct (u16_count c ltac:(lia)) as (Ec & E16). cbn [next_climb]. fold c. rewrite (lv_top _ _ _ W). destruct (Z.ltb_spec top c); [lia|].
  rewrite (lv_indices _ _ _ W), wrap_small, Ec by (unfold is_u; lia). set (i := index v c + 1) in *. set (w1 := set_index w c i).
  assert (W1 : leaving w1 v c).
  { split; cbn; [apply W|intros; apply W; lia|]. intros j Hj. destruct (Z.eqb_spec j c); [lia|]. apply W. lia. }
  destruct (Z.eqb_spec i (2 ^ bits c)) as [Ei|Ei].
  { rewrite Ei in He |- *. destruct (IH c w1 ltac:(lia) ltac:(lia) Hv W1 ltac:(lia)) as (r & w' & E & ? & ? & ? & ?); [|exact He|exists r, w'; auto].
    intros j Hj. cbn. destruct (Z.eqb_spec j c); [lia|auto]. }
  set (v' := entry_addr c (tbl c v) i) in *. assert (Hv' : 0 <= v' < 2 ^ va_bits P) by (split; [apply entry_addr_nonneg; lia|exact He]).
  assert (W' : leaving w v c) by (split; [apply W|intros; apply W; lia|intros; apply W; lia]).
  pose proof (leaving_entry w v c i ltac:(lia) ltac:(lia) W') as Hu. fold v' w1 in Hu. destruct (Hu c ltac:(lia)) as (R & _).
  unfold pte_ptr. rewrite (reaches_nonzero _ _ _ TR v' c _ Hv' R). cbn [mbind outcome_bind].
  assert (Ee : pte_read s (tables w1 c + 8 * i) = entry (s_mem s) (tables w1 c) (index v' c)) by (unfold v'; rewrite entry_addr_index by lia; reflexivity).
  rewrite Ee. set (e := entry _ _ _) in *.
  destruct (arrive_ok c v' w1 Hv' ltac:(lia)) as (w' & Ea & Hs & Hlev & Hst & Hp); auto;
    [intros j Hj; apply entry_addr_low; lia|apply W1|]. fold e in Ea, Hst.
  assert (Hm : 1 <= level w' <= top /\ v' mod 2 ^ shift (level w') = 0).
  { split; [lia|]. apply (mod_lower _ c); [lia|lia|apply entry_addr_mod; lia]. }
  assert (Pos : no_table_begins (s_mem s) v' -> at_pos (s_mem s) root w' v').
  { intros Hc. apply Hp. intros Hlow j Hj. cbn. destruct (Z.eqb_spec j c); [lia|]. apply H0. split; [lia|]. destruct (Z.lt_ge_cases j L); [assumption|].
    exfalso. assert (Et : is_table c e = true) by (destruct (is_table c e); [reflexivity|specialize (Hst eq_refl); lia]).
    apply (Hc c (next_table c e)); [lia|apply entry_addr_mod; lia|]. apply reaches_down; auto. lia. }
  destruct (pte_is_present P e) eqn:Ep; cbn [negb].
  - rewrite Ea. cbn [mbind outcome_bind]. exists (Arrived w'), w'. auto.
  - unfold arrive in Ea. rewrite Ep in Ea. cbn [negb] in Ea. injection Ea as <-. eexists _, _. split; [reflexivity|]. split; [reflexivity|]. auto.
Qed.

(** Moving on at level [l] from [v] to entry [i] of the table, or past its end. *)
Lemma ptwalker_next_ok alloc early opts l v i w : alloc_parents opts = false -> 1 <= l <= top -> 1 <= level w <= l ->
  0 <= v < 2 ^ va_bits P -> leaving w v l -> (forall j, 1 <= j < l -> indices w j = 0) -> u16 (indices w l + 1) = i ->
  0 <= i <= 2 ^ bits l -> entry_addr l (tbl l v) i < 2 ^ va_bits P ->
  exists w', ptwalker_next_with_options P HHDM_OFFSET alloc early s w l opts = Ok (E_PT_WALKER_OK, s, w') /\ same_setup w w' /\
    (1 <= level w' <= top /\ entry_addr l (tbl l v) i mod 2 ^ shift (level w') = 0) /\
    (i < 2 ^ bits l \/ no_table_begins (s_mem s) (entry_addr l (tbl l v) i) -> at_pos (s_mem s) root w' (entry_addr l (tbl l v) i)).
Proof.
  intros Ho Hl Hlev Hv W H0 Hi Hb He. destruct (u16_count l Hl) as (Ec & E16). unfold ptwalker_next_with_options.
  destruct (Z.ltb_spec l (level w)); [lia|]. rewrite (lv_top _ _ _ W). destruct (Z.ltb_spec top l); [lia|]. destruct (Z.ltb_spec l 1); [lia|].
  cbn [orb]. rewrite Hi, Ec. set (w1 := set_index w l i). set (v' := entry_addr l (tbl l v) i) in *.
  assert (Hz : forall j, 1 <= j < l -> indices w1 j = 0) by (intros j Hj; cbn; destruct (Z.eqb_spec j l); [lia|auto]).
  destruct (Z.ltb_spec i (2 ^ bits l)) as [Hin|Hin].
  - pose proof (leaving_entry w v l i Hl ltac:(lia) W) as Hu. fold v' w1 in Hu. destruct (Hu l ltac:(lia)) as (R & _).
    assert (Hv' : 0 <= v' < 2 ^ va_bits P) by (split; [apply entry_addr_nonneg; lia|exact He]).
    destruct (Z.eqb_spec l 1) as [E1|E1].
    + exists w1. split; [reflexivity|]. split; [split; auto|]. split.
      { change (level w1) with (level w). split; [lia|]. replace (level w) with l by lia. apply entry_addr_mod, Hl. }
      intros _. split; try (change (level w1) with (level w)); try (intros; apply Hu); try lia; apply W.
    + unfold pte_ptr. rewrite (reaches_nonzero _ _ _ TR v' l _ Hv' R). cbn [mbind outcome_bind].
      replace (pte_read s (tables w1 l + 8 * i)) with (entry (s_mem s) (tables w1 l) (index v' l)) by (unfold v'; rewrite entry_addr_index by lia; reflexivity).
      destruct (arrive_ok l v' w1 Hv' ltac:(lia)) as (w' & Ea & Hs & Hlv & Hst & Hp); auto;
        [intros j Hj; apply entry_addr_low; lia|apply W|]. rewrite Ea. cbn [mbind outcome_bind]. exists w'. split; [reflexivity|].
      split; [exact Hs|]. split; [split; [lia|apply (mod_lower _ l); [lia|lia|apply entry_addr_mod, Hl]]|]. intros _. apply Hp. intros Hlow j Hj. apply Hz. lia.
  - assert (Ei : i = 2 ^ bits l) by lia. unfold climb_fuel.
    assert (W1 : leaving w1 v l) by (split; [apply W|intros; apply W; lia|intros j Hj; cbn; destruct (Z.eqb_spec j l); [lia|apply W; lia]]).
    destruct (next_climb_ok l (Z.to_nat (top_level w1 - l + 1)) l w1 v) as (r & w' & Er & Ec' & Hs & Hm & Hp); auto; try lia.
    { rewrite (lv_top _ _ _ W1). lia. }
    { unfold v' in He. rewrite Ei in He. exact He. }
    rewrite Er. cbn [mbind outcome_bind]. exists w'. unfold v'. rewrite Ei. destruct r as [w2|w2 l2|w2]; cbn in Ec'; try discriminate;
      injection Ec' as <-; cbn [after_climb]; try rewrite Ho;
      (split; [reflexivity|]; split; [exact Hs|]; split; [exact Hm|]; intros [?|?]; [lia|auto]).
Qed.
End Moves.
End Facts.

(** An RISC-V address space with a page of 1 GiB, for the addresses from 0x40000000 on. *)
Definition sv39 : paging := Riscv64.riscv64_paging Riscv64.Sv39.
Definition giga_root : Z := 0xffff800000100000.
Definition giga_pte : Z := Z.lor (phys_create_pte sv39 0x80000000) 0xf.
Definition giga_state : pt_state unit := PtState (store 8 (fun _ => 0) (giga_root + 8 * 1) giga_pte) (fun _ => None) tt [].

Lemma giga_entry i : entry (s_mem giga_state) giga_root i = if i =? 1 then giga_pte else 0.
Proof.
  unfold entry, giga_state. cbn [s_mem]. destruct (Z.eqb_spec i 1) as [->|Hi]; [vm_compute; reflexivity|].
  rewrite load_store_ne by lia. reflexivity.
Qed.
