(* ===== verification/Pgmap.v ===== *)
(** * Mapping and unmapping: kernel/src/mm/pgmap.c and pageop.c

    [pgmap_at] writes the entries that map a range of physical memory at a virtual address,
    with the largest pages the alignment of both allows.  The messages of the kernel log and
    the flush of the TLB are left out.  [fuel] bounds the loops whose length depends on the
    page tables; running out of it is [Diverge]. *)

From S2P Require Import Prelude Mem Arith Range Refcount Hhdm Paging Walker.

Record pgmap_options := PgmapOptions {
  leaf_pte_flags : Z; large_pte_flags : Z; supports_largepage_at_level_mask : Z;
  free_pages : bool; is_in_early : bool; is_overwrite : bool }.
Record current_split_info := SplitInfo { cs_phys_range : range; cs_virt_addr : Z; is_active : bool }.
Definition CURRENT_SPLIT_INFO_INIT : current_split_info := SplitInfo RANGE_EMPTY 0 false.
Definition iterate_options_of (options : pgmap_options) : ptwalker_iterate_options :=
  IterateOptions false false false (negb (is_in_early options)).

Section Map.
Context (P : paging) (HHDM_OFFSET : Z) {A : Type}.
Context (alloc_table early_alloc_page : A -> mem -> outcome (option Z * A * mem)).
(** [free_page] of page_alloc.c *)
Context (free_page : A -> Z -> outcome A).
#[local] Abbreviation state := (pt_state A).
#[local] Abbreviation PAGE_COUNT := (PAGE_COUNT P).
#[local] Abbreviation PAGE_SIZE := (PAGE_SIZE P).
#[local] Abbreviation PAGE_SIZE_AT_LEVEL := (PAGE_SIZE_AT_LEVEL P).
#[local] Abbreviation ptwalker_next_with_options := (ptwalker_next_with_options P HHDM_OFFSET alloc_table early_alloc_page).
#[local] Abbreviation ptwalker_fill_in_to := (ptwalker_fill_in_to P HHDM_OFFSET alloc_table early_alloc_page).

(** Struct pages go by the address of the page in the direct map. *)
Definition phys_to_page (phys : Z) : Z := HHDM_OFFSET + phys.

(** ** Page operations: pageop.c *)

(** [deref_page] of page_alloc.c; whether the page is still referenced. *)
Definition deref_page (s : state) (page : Z) : outcome (bool * state) :=
  '(last, s) ← table_ref_down s page;
  if last : bool then Ok (false, delay_free s page) else Ok (true, s).
(** [ref_down(&page->largehead.refcount)] *)
Definition large_ref_down (s : state) (page : Z) : outcome (bool * state) :=
  f ← get_frame s page; '(last, n) ← ref_down (f_large_refcount f);
  Ok (last, set_frame s page (Frame (f_is_table f) (f_refcount f) n (f_dirty f) (f_large f) (f_head_flags f))).

Fixpoint flush_loop (fuel : nat) (s : state) (w : pt_walker) (should_free_pages : bool) : outcome (state * pt_walker) :=
  match fuel with
  | O => Diverge
  | S fuel =>
      pte ← pte_ptr (tables w (level w)) (indices w (level w));
      let entry := pte_read s pte in
      let page := phys_to_page (pte_to_phys P entry (level w)) in
      '(last, s) ← (if pte_is_large P entry then large_ref_down s page else table_ref_down s page);
      let s := if last && should_free_pages then delay_free s page else s in
      '(s, w) ← ptwalker_deref_from_level s w (level w) true;
      '(result, s, w) ← ptwalker_next P HHDM_OFFSET alloc_table early_alloc_page s w;
      match result with
      | E_PT_WALKER_OK => flush_loop fuel s w should_free_pages
      | E_PT_WALKER_REACHED_END => Ok (s, w)
      | _ => Panic
      end
  end.
Definition pageop_flush_pte_in_current_range (fuel : nat) (s : state) (pte l : Z) (should_free_pages : bool) : outcome state :=
  let page := phys_to_page (pte_to_phys P pte l) in
  f ← get_frame s page;
  if negb (f_is_table f) then '(_, s) ← deref_page s page; Ok s else
  w ← ptwalker_create_from_toplevel P HHDM_OFFSET (pte_to_phys P pte l) l 0 CbNull false;
  '(s, _) ← flush_loop fuel s w should_free_pages; Ok s.

Definition pageop_init (s : state) : state := PtState (s_mem s) (s_frames s) (s_alloc s) [].
(** The pages of [delayed_free] are released. *)
Fixpoint free_all_pages (pages : list Z) (al : A) : outcome A :=
  match pages with
  | [] => Ok al
  | page :: pages => al ← free_page al page; free_all_pages pages al
  end.
(** The operation is on [flush_range], with interrupts off when there is something to flush. *)
Definition pageop_finish (s : state) (flush_range : range) (irqs : bool) : outcome (state * range) :=
  _ ← c_assert (range_empty flush_range || negb irqs);
  al ← free_all_pages (s_delayed s) (s_alloc s);
  Ok (PtState (s_mem s) (s_frames s) al (s_delayed s), RANGE_EMPTY).

(** ** Splitting large pages *)

(** [for (i = 1; i <= level; i++)] clears both arrays. *)
Definition clear_levels (w : pt_walker) (l : Z) : pt_walker := reset_levels_lower_than w (l + 1).
Definition split_large_page (fuel : nat) (s : state) (w : pt_walker) (split : current_split_info) (l : Z) (options : pgmap_options)
    : outcome (state * pt_walker * current_split_info) :=
  _ ← c_assert (negb (is_active split));
  pte ← pte_ptr (tables w (level w)) (indices w (level w));
  let entry := pte_read s pte in
  '(s, w) ← ptwalker_deref_from_level (pte_write s pte 0) w (level w) true;
  virt_addr ← ptwalker_get_virt_addr P w;
  let phys_range := Range (pte_to_phys P entry l) (PAGE_SIZE_AT_LEVEL (level w)) in
  s ← (if is_in_early options then Ok s
       else pageop_flush_pte_in_current_range fuel s entry (level w) (free_pages options));
  Ok (s, clear_levels w l, SplitInfo phys_range virt_addr true).

(** [ref_up(&page->largetail.refcount)] for [n] pages. *)
Fixpoint ref_up_pages (n : nat) (s : state) (page : Z) : outcome state :=
  match n with
  | O => Ok s
  | S n => s ← table_ref_up s page; ref_up_pages n s (page + PAGE_SIZE)
  end.

(** ** Sizes of pages *)

(** [largepage_level_info_list[l - 1].is_supported], and the options allow the level. *)
Definition usable_level (mask l : Z) : bool := largepage_is_supported P l && negb (Z.land mask (Z.shiftl 1 l) =? 0).

(** The next level from [l] on, of [n] levels, that can be used. *)
Fixpoint next_large_level (n : nat) (mask l : Z) : option Z :=
  match n with
  | O => None
  | S n => if usable_level mask l then Some l else next_large_level n mask (l + 1)
  end.
Definition get_leaf_pte_count_until_next_large (addr_range : range) (addr virt_begin : Z) (check_virt : bool) (l mask : Z) : outcome Z :=
  match next_large_level (Z.to_nat (PGT_LEVEL_COUNT P - l)) mask (l + 1) with
  | None => Ok UINT64_MAX
  | Some next =>
      let largepage_size := PAGE_SIZE_AT_LEVEL next in
      largepage_addr ← align_up_assert addr largepage_size;
      if negb (range_has_end addr_range (u64 (largepage_addr + largepage_size))) then Ok UINT64_MAX else
      ok ← (if check_virt then
              let virt_addr := u64 (virt_begin + u64 (addr - front addr_range)) in
              amount ← amount_to_boundary addr largepage_size;
              let largepage_virt_addr := u64 (virt_addr + amount) in
              aligned ← has_align largepage_virt_addr largepage_size;
              Ok (aligned && match check_add largepage_virt_addr largepage_size with Some _ => true | None => false end)
            else Ok true);
      if negb ok then Ok UINT64_MAX else Ok (PAGE_COUNT (u64 (largepage_addr - addr)))
  end.

(** The lowest of [n] levels from [l] on whose index is not zero, or 0. *)
Fixpoint lowest_nonzero (n : nat) (w : pt_walker) (l : Z) : Z :=
  match n with
  | O => 0
  | S n => if negb (indices w l =? 0) then l else lowest_nonzero n w (l + 1)
  end.
(** From level [n] down to level 2: a level whose pages are aligned and fit. *)
Fixpoint fitting_level (n : nat) (mask : Z) (addr_range : range) (offset : Z) : outcome Z :=
  let l := Z.of_nat n in
  match n with
  | O | S O => Ok 1
  | S n' =>
      if negb (usable_level mask l) then fitting_level n' mask addr_range offset else
      aligned ← has_align (u64 (front addr_range + offset)) (PAGE_SIZE_AT_LEVEL l);
      if negb aligned || (size addr_range <? u64 (offset + PAGE_SIZE_AT_LEVEL l)) then fitting_level n' mask addr_range offset
      else Ok l
  end.
Definition find_highest_possible_level (w : pt_walker) (mask : Z) (addr_range : range) (offset : Z) : outcome Z :=
  let highest := lowest_nonzero (Z.to_nat (top_level w)) w 1 in
  if highest =? 1 then Ok highest else fitting_level (Z.to_nat highest) mask addr_range offset.

(** ** Writing entries *)

Definition pte_flags_of (options : pgmap_options) (l : Z) : Z :=
  if 1 <? l then Z.lor (large_pte_flags options) (PTE_LARGE_FLAGS P l) else Z.lor (leaf_pte_flags options) (PTE_LEAF_FLAGS P).
(** [for (; pte != end; pte++)], [n] entries. *)
Fixpoint write_entries (n : nat) (s : state) (pte phys_addr page_size flags : Z) : state * Z :=
  match n with
  | O => (s, phys_addr)
  | S n => write_entries n (pte_write s pte (Z.lor (phys_create_pte P phys_addr) flags)) (pte + 8) (u64 (phys_addr + page_size)) page_size flags
  end.
(** [refcount_increment(&virt_to_table(table)->table.refcount, count)] *)
Definition table_ref_add (s : state) (table count : Z) : outcome state :=
  f ← get_frame s table; _ ← c_assert (f_is_table f);
  n ← refcount_increment (f_refcount f) count; Ok (set_frame s table (set_refcount f n)).
(** The entries of one table from the walker on: how many of [n] fit. *)
Definition entries_in_table (table index n l : Z) : outcome Z :=
  let start := table + 8 * index in
  let end_ := Z.min (u64 (start + 8 * n)) (table + 8 * PGT_PTE_COUNT P l) in
  if end_ <? start then Undef else Ok ((end_ - start) / 8).

Record written := Written { wr_phys : Z; wr_remaining : Z; wr_state : state; wr_walker : pt_walker }.
(** The [do] loop of [write_ptes_at_level]; the address is [UINT64_MAX] on a failure. *)
Fixpoint write_ptes_loop (fuel : nat) (s : state) (w : pt_walker) (l : Z) (options : pgmap_options) (phys_addr n remaining : Z)
    : outcome written :=
  match fuel with
  | O => Diverge
  | S fuel =>
      let ref := negb (is_in_early options) in
      '(result, s, w) ← ptwalker_fill_in_to s w l ref false;
      match result with
      | E_PT_WALKER_OK =>
          let table := tables w l in
          _ ← pte_ptr table (indices w l);
          count ← entries_in_table table (indices w l) n l;
          let '(s, phys_addr) := write_entries (Z.to_nat count) s (table + 8 * indices w l) phys_addr (PAGE_SIZE_AT_LEVEL l) (pte_flags_of options l) in
          let count := u16 count in
          s ← (if ref then table_ref_add s table count else Ok s);
          let w := set_index w l (u16 (indices w l + count - 1)) in
          '(result, s, w) ← ptwalker_next_with_options s w l (iterate_options_of options);
          match result with
          | E_PT_WALKER_OK =>
              let n := u64 (n - count) in
              leaves ← check_mul_assert_w 64 (PAGE_COUNT (PAGE_SIZE_AT_LEVEL l)) count;
              let remaining := u64 (remaining - leaves) in
              if n =? 0 then Ok (Written phys_addr remaining s w)
              else write_ptes_loop fuel s w l options phys_addr n remaining
          | _ => Ok (Written UINT64_MAX remaining s w)
          end
      | _ => Ok (Written UINT64_MAX remaining s w)
      end
  end.
Definition write_ptes_at_level (fuel : nat) (s : state) (w : pt_walker) (l : Z) (options : pgmap_options)
    (phys_addr write_leaf_pte_count remaining : Z) : outcome written :=
  write_ptes_loop fuel s w l options phys_addr (write_leaf_pte_count / PAGE_COUNT (PAGE_SIZE_AT_LEVEL l)) remaining.

(** [level--] until a level to use, at most [n] times. *)
Fixpoint lower_level (n : nat) (l size_remaining mask : Z) : outcome Z :=
  match n with
  | O => Undef
  | S n =>
      let l := l - 1 in
      if (l =? 1) || (usable_level mask l && (PAGE_SIZE_AT_LEVEL l <=? size_remaining)) then Ok l
      else lower_level n l size_remaining mask
  end.
Fixpoint write_down_loop (levels fuel : nat) (wr : written) (l size_remaining : Z) (options : pgmap_options) : outcome written :=
  match levels with
  | O => Undef
  | S levels =>
      l ← lower_level (Z.to_nat l) l size_remaining (supports_largepage_at_level_mask options);
      wr ← write_ptes_at_level fuel (wr_state wr) (wr_walker wr) l options (wr_phys wr) (wr_remaining wr) (wr_remaining wr);
      if (wr_phys wr =? UINT64_MAX) || (wr_remaining wr =? 0) then Ok wr
      else write_down_loop levels fuel wr l size_remaining options
  end.
Definition write_ptes_down_from_level (fuel : nat) (s : state) (w : pt_walker) (l : Z) (options : pgmap_options)
    (phys_addr remaining : Z) : outcome written :=
  wr ← write_ptes_at_level fuel s w l options phys_addr remaining remaining;
  if (wr_phys wr =? UINT64_MAX) || (wr_remaining wr =? 0) then Ok wr else
  size_remaining ← check_mul_assert_w 64 (wr_remaining wr) PAGE_SIZE;
  write_down_loop (Z.to_nat l) fuel wr l size_remaining options.

(** The [do] loop of [pgmap_with_ptwalker]: the state and the level where it breaks, or the
    failure. *)
Fixpoint pgmap_loop (fuel : nat) (wr : written) (phys_range : range) (virt_begin : Z) (options : pgmap_options)
    : outcome (option Z * written) :=
  match fuel with
  | O => Diverge
  | S fuel' =>
      let mask := supports_largepage_at_level_mask options in
      l ← find_highest_possible_level (wr_walker wr) mask phys_range (u64 (wr_phys wr - front phys_range));
      until ← get_leaf_pte_count_until_next_large phys_range (wr_phys wr) virt_begin true l mask;
      if wr_remaining wr <=? until then Ok (Some l, wr) else
      wr ← write_ptes_at_level fuel (wr_state wr) (wr_walker wr) l options (wr_phys wr) until (wr_remaining wr);
      if wr_phys wr =? UINT64_MAX then Ok (None, wr) else pgmap_loop fuel' wr phys_range virt_begin options
  end.

(** ** Mapping with a walker *)

Record mapped := Mapped { mp_result : bool; mp_state : state; mp_walker : pt_walker; mp_split : option current_split_info }.

(** [remap] is the call of [pgmap_with_ptwalker]; [None] is [NULL]. *)
Definition finish_split_info (remap : state -> pt_walker -> current_split_info -> range -> Z -> outcome mapped)
    (s : state) (w : pt_walker) (split : option current_split_info) (virt : Z) (options : pgmap_options)
    : outcome (state * pt_walker * current_split_info) :=
  match split with
  | None => Undef
  | Some split =>
      if negb (is_active split) then Ok (s, w, split) else
      let r := cs_phys_range split in
      virt_end ← check_add_assert_w 64 (cs_virt_addr split) (size r);
      walker_virt_addr ← ptwalker_get_virt_addr P w;
      if virt_end <=? walker_virt_addr then
        if free_pages options then '(_, s) ← deref_page s (phys_to_page (front r)); Ok (s, w, split) else Ok (s, w, split)
      else
        let offset := virt_end - walker_virt_addr in
        let pages := PAGE_COUNT (size r) - PAGE_COUNT offset in
        s ← (if pages <? 0 then Undef
             else ref_up_pages (Z.to_nat pages) s (phys_to_page (front r) + PAGE_COUNT offset * PAGE_SIZE));
        phys_range ← range_from_index r offset;
        m ← remap s w CURRENT_SPLIT_INFO_INIT phys_range virt;
        Ok (mp_state m, mp_walker m, SplitInfo (cs_phys_range split) (cs_virt_addr split) false)
  end.
(** [depth] bounds the recursion through [finish_split_info], whose call has nothing to
    finish: 2 is enough. *)
Fixpoint pgmap_rec (depth fuel : nat) (options : pgmap_options) (s : state) (w : pt_walker) (split : option current_split_info)
    (phys_range : range) (virt_begin : Z) : outcome mapped :=
  match depth with
  | O => Diverge
  | S depth =>
      '(l, wr) ← pgmap_loop fuel (Written (front phys_range) (PAGE_COUNT (size phys_range)) s w) phys_range virt_begin options;
      match l with
      | None => Ok (Mapped false (wr_state wr) (wr_walker wr) split)
      | Some l =>
          wr ← write_ptes_down_from_level fuel (wr_state wr) (wr_walker wr) l options (wr_phys wr) (wr_remaining wr);
          if wr_phys wr =? UINT64_MAX then Ok (Mapped false (wr_state wr) (wr_walker wr) split) else
          '(s, w, split) ← finish_split_info (fun s w split => pgmap_rec depth fuel options s w (Some split))
            (wr_state wr) (wr_walker wr) split (u64 (virt_begin + u64 (wr_phys wr - front phys_range))) options;
          Ok (Mapped true s w (Some split))
      end
  end.
Definition pgmap_with_ptwalker (fuel : nat) := pgmap_rec 2 fuel.

(** ** [pgmap_at] *)

Definition walker_for (s : state) (pm : pagemap_roots) (virt_addr : Z) (options : pgmap_options) : outcome pt_walker :=
  if is_in_early options then ptwalker_create_for_pagemap P HHDM_OFFSET s pm virt_addr ptwalker_early_alloc_pgtable_cb false
  else ptwalker_default_for_pagemap P HHDM_OFFSET s pm virt_addr.
(** The checks before anything is done. *)
Definition mappable (phys_range : range) (virt_addr : Z) : outcome bool :=
  if range_empty phys_range then Ok false else
  if range_overflows phys_range then Ok false else
  ok ← range_has_align phys_range PAGE_SIZE;
  if negb ok then Ok false else
  if range_overflows (Range virt_addr (size phys_range)) then Ok false else
  has_align virt_addr PAGE_SIZE.

(** A large page the range begins in the middle of: mapped as wanted already up to its end,
    or split.  [inl]: [pgmap_at] returns. *)
Definition map_initial_large_page (fuel : nat) (s : state) (w : pt_walker) (phys_range : range) (virt_addr : Z) (options : pgmap_options)
    : outcome ((bool * state) + (state * pt_walker * current_split_info * range * Z)) :=
  let keep := Ok (inr (s, w, CURRENT_SPLIT_INFO_INIT, phys_range, virt_addr)) in
  if negb (is_overwrite options) then keep else
  large ← ptwalker_points_to_largepage P s w;
  if negb large then keep else
  walker_virt_addr ← ptwalker_get_virt_addr P w;
  if negb (walker_virt_addr <? virt_addr) then keep else
  let offset := virt_addr - walker_virt_addr in
  pte ← pte_ptr (tables w (level w)) (indices w (level w));
  let entry := pte_read s pte in
  if (offset <=? front phys_range) && (pte_to_phys P entry (level w) =? front phys_range - offset)
    && pte_flags_equal P entry (level w) (leaf_pte_flags options) then
    let offset := u64 (walker_virt_addr + PAGE_SIZE_AT_LEVEL (level w) - virt_addr) in
    if negb (range_has_index phys_range offset) then Ok (inl (true, s)) else
    phys_range ← range_from_index phys_range offset;
    Ok (inr (s, w, CURRENT_SPLIT_INFO_INIT, phys_range, u64 (virt_addr + offset)))
  else
    '(s, w, split) ← split_large_page fuel s w CURRENT_SPLIT_INFO_INIT (level w) options;
    m ← pgmap_with_ptwalker fuel options s w None (Range (front (cs_phys_range split)) offset) walker_virt_addr;
    if negb (mp_result m) then Ok (inl (false, mp_state m)) else
    phys ← range_from_index (cs_phys_range split) offset;
    Ok (inr (mp_state m, mp_walker m, SplitInfo phys virt_addr (is_active split), phys_range, virt_addr)).

(** [irqs]: whether interrupts are enabled; they are off while entries are written. *)
Definition pgmap_at (fuel : nat) (s : state) (irqs : bool) (pm : pagemap_roots) (phys_range : range) (virt_addr : Z) (options : pgmap_options)
    : outcome (bool * state * bool) :=
  ok ← mappable phys_range virt_addr;
  if negb ok then Ok (false, s, irqs) else
  let flush_range := Range virt_addr (size phys_range) in
  let finish (result : bool) (s : state) :=
    '(s, _) ← (if is_overwrite options then pageop_finish s flush_range false else Ok (s, flush_range));
    Ok (result, s, irqs) in
  w ← walker_for s pm virt_addr options;
  let s := if is_overwrite options then pageop_init s else s in
  r ← map_initial_large_page fuel s w phys_range virt_addr options;
  match r with
  | inl (true, s) => Ok (true, s, irqs)
  | inl (false, s) => finish false s
  | inr (s, w, split, phys_range, virt_addr) =>
      m ← pgmap_with_ptwalker fuel options s w (Some split) phys_range virt_addr;
      finish (mp_result m) (mp_state m)
  end.
End Map.
