(* ===== verification/TableFill.v ===== *)
(** * Tables the walker adds

    [TableSource] is what the walker needs of an allocator of tables: zeroed pages from a
    pool.  [space] is the invariant of the tables of an address space, the pool and the
    reference counts of the tables.  Filling in the tables for an address keeps it, and
    every translation. *)

From S2P Require Import Prelude Mem Arith Refcount Hhdm Paging Walker PageTable WalkerFacts.

(** An allocation takes a page from the pool and zeroes it. *)
Class TableSource {A : Type} (PAGE_SIZE HHDM_OFFSET : Z) (alloc : A -> mem -> outcome (option Z * A * mem)) := {
  pool : A -> list Z;
  pool_alloc : forall a m, pool a <> [] -> exists phys a' m',
    alloc a m = Ok (Some phys, a', m') /\ pool a ≡ₚ phys :: pool a' /\
    (forall x, HHDM_OFFSET + phys <= x < HHDM_OFFSET + phys + PAGE_SIZE -> m' x = 0) /\
    (forall x, ~ (HHDM_OFFSET + phys <= x < HHDM_OFFSET + phys + PAGE_SIZE) -> m' x = m x) }.

Section Fill.
Context (P : paging) {phys_bits : Z} {leaf_ok large_ok : Z -> Prop} (OK : paging_ok P phys_bits leaf_ok large_ok).
Context (HHDM_OFFSET : Z) (Hhhdm : 0 <= HHDM_OFFSET) (Hpage : HHDM_OFFSET mod PAGE_SIZE P = 0) {A : Type}.
Context (alloc_table early_alloc_page : A -> mem -> outcome (option Z * A * mem)).
#[local] Abbreviation state := (pt_state A).
#[local] Abbreviation top := (pgt_get_top_level P).
#[local] Abbreviation shift := (PAGE_SHIFTS P).
#[local] Abbreviation bits := (pt_bits P).
#[local] Abbreviation index v l := (virt_to_pt_index P v l).
#[local] Abbreviation is_table := (is_table P).
#[local] Abbreviation next_table := (next_table P HHDM_OFFSET).
#[local] Abbreviation reaches := (reaches P HHDM_OFFSET).
#[local] Abbreviation tree := (tree P HHDM_OFFSET).
#[local] Abbreviation tbl := (tbl P).
#[local] Abbreviation translate := (translate P HHDM_OFFSET).
#[local] Abbreviation at_pos := (at_pos P HHDM_OFFSET).
#[local] Abbreviation call_alloc := (call_alloc HHDM_OFFSET alloc_table early_alloc_page).
Context (root : Z).

(** The walker of early mappings takes pages of the early allocator and counts no references. *)
Definition cb_of (early : bool) : alloc_cb := if early then ptwalker_early_alloc_pgtable_cb else ptwalker_alloc_pgtable_cb.
Context (early : bool) {source : A -> mem -> outcome (option Z * A * mem)} {TS : TableSource (PAGE_SIZE P) HHDM_OFFSET source}.
Context (Hsource : source = if early then early_alloc_page else alloc_table).

Definition free_table_page (own : ownership) (phys : Z) : Prop :=
  own (HHDM_OFFSET + phys) = None /\ phys mod PAGE_SIZE P = 0 /\ PAGE_SIZE P <= phys < 2 ^ phys_bits /\
  HHDM_OFFSET + phys + PAGE_SIZE P + 2 ^ (va_bits P - 9) <= 2 ^ 64.
(** Each table can be referenced [k] times more. *)
Record space (s : state) (own : ownership) (k : Z) : Prop := {
  sp_tree : tree (s_mem s) own root;
  sp_nodup : NoDup (pool (s_alloc s));
  sp_pages : Forall (free_table_page own) (pool (s_alloc s));
  sp_refs : early = false -> forall t l b, own t = Some (l, b) ->
    exists f, s_frames s t = Some f /\ f_is_table f = true /\ 0 <= f_refcount f < REFCOUNT_MAX - k }.
(** New tables are on the walk for [v], and change no translation. *)
Record grown (m m' : mem) (v : Z) : Prop := {
  gr_translate : forall x, 0 <= x < 2 ^ va_bits P -> translate m' root x = translate m root x;
  gr_reaches : forall x l t, 0 <= x < 2 ^ va_bits P -> reaches m root x l t -> reaches m' root x l t;
  gr_inv : forall x l t, 0 <= x < 2 ^ va_bits P -> reaches m' root x l t -> reaches m root x l t \/ tbl l x = tbl l v }.

Lemma grown_refl m v : grown m m v.
Proof. split; auto. Qed.
Lemma grown_trans m1 m2 m3 v : grown m1 m2 v -> grown m2 m3 v -> grown m1 m3 v.
Proof.
  intros [T1 R1 I1] [T2 R2 I2]. split; auto; [intros x Hx; rewrite T2 by exact Hx; auto|].
  intros x l t Hx R. destruct (I2 x l t Hx R) as [R'|]; auto.
Qed.

Lemma zero_absent m t j : (forall x, t <= x < t + PAGE_SIZE P -> m x = 0) -> 0 <= 8 * j -> 8 * j + 8 <= PAGE_SIZE P ->
  pte_is_present P (entry m t j) = false.
Proof.
  intros Hz H0 H1. assert (E : entry m t j = 0).
  { unfold entry. rewrite (load_ext 8 m (fun _ => 0)); [reflexivity|]. intros i Hi. apply Hz. lia. }
  rewrite E. apply (ok_absent _ _ _ _ OK).
Qed.

Definition not_null (w : pt_walker) : alloc_pgtable w = cb_of early -> match alloc_pgtable w with CbNull => false | _ => true end = true.
Proof. intros ->. destruct early; reflexivity. Qed.

(** The callback. *)
Lemma call_alloc_ok s own k w : alloc_pgtable w = cb_of early -> space s own k -> pool (s_alloc s) <> [] ->
  exists phys s', call_alloc w s = Ok (phys, s') /\ free_table_page own phys /\ pool (s_alloc s) ≡ₚ phys :: pool (s_alloc s') /\
    (forall x, HHDM_OFFSET + phys <= x < HHDM_OFFSET + phys + PAGE_SIZE P -> s_mem s' x = 0) /\
    (forall x, ~ (HHDM_OFFSET + phys <= x < HHDM_OFFSET + phys + PAGE_SIZE P) -> s_mem s' x = s_mem s x) /\
    (early = false -> s_frames s' (HHDM_OFFSET + phys) = Some (Frame true 0 0 false NotLarge 0)) /\
    (forall x, x <> HHDM_OFFSET + phys -> s_frames s' x = s_frames s x).
Proof.
  intros Ew Sp Hp. destruct (pool_alloc (s_alloc s) (s_mem s) Hp) as (phys & a' & m' & Ea & Hperm & Hz & Hr).
  assert (Hf : free_table_page own phys).
  { pose proof (sp_pages _ _ _ Sp) as F. rewrite Hperm in F. apply List.Forall_cons_iff in F. apply F. }
  rewrite Hsource in Ea. unfold Walker.call_alloc. rewrite Ew. clear Sp Ew. destruct early; cbn [cb_of]; rewrite Ea; cbn [mbind outcome_bind].
  - exists phys, (PtState m' (s_frames s) a' (s_delayed s)). split_and?; auto; discriminate.
  - eexists phys, _. split; [reflexivity|]. cbn. split_and?; auto.
    + intros _. rewrite Z.eqb_refl. reflexivity.
    + intros x Hx. destruct (Z.eqb_spec x (HHDM_OFFSET + phys)); [contradiction|reflexivity].
Qed.

(** ** One table *)

Lemma space_weaken s own k k' : k' <= k -> space s own k -> space s own k'.
Proof.
  intros Hk [T N F R]. split; auto. intros He t l b O. destruct (R He t l b O) as (f & Hf & Hi & Hb). exists f. split_and?; auto; lia.
Qed.
(** The page taken is no longer in the pool, and is a table. *)
Lemma pages_without own phys pool1 pool2 l b : pool1 ≡ₚ phys :: pool2 -> NoDup pool1 -> Forall (free_table_page own) pool1 ->
  NoDup pool2 /\ Forall (free_table_page (with_table own (HHDM_OFFSET + phys) l b)) pool2.
Proof.
  intros Hp Hn Hf. rewrite Hp in Hn, Hf. apply list.NoDup_cons in Hn as (Hnot & Hn). apply List.Forall_cons_iff in Hf as (_ & Hf).
  split; [exact Hn|]. rewrite list.Forall_forall in *. intros q Hq. destruct (Hf q Hq) as (O & Hr). split; [|exact Hr].
  unfold with_table. destruct (Z.eqb_spec (HHDM_OFFSET + q) (HHDM_OFFSET + phys)); [|exact O]. exfalso. apply Hnot. replace phys with q by lia. exact Hq.
Qed.
Lemma table_ref_up_ok s own k t l b : early = false -> space s own (k + 1) -> own t = Some (l, b) -> 0 <= k ->
  exists f, s_frames s t = Some f /\ table_ref_up s t = Ok (set_frame s t (set_refcount f (f_refcount f + 1))) /\ f_is_table f = true /\
    0 <= f_refcount f + 1 < REFCOUNT_MAX - k.
Proof.
  intros He Sp O Hk. destruct (sp_refs _ _ _ Sp He t l b O) as (f & Hf & Hi & Hb). exists f. split; [exact Hf|].
  unfold table_ref_up, get_frame. rewrite Hf. cbn [mbind outcome_bind]. rewrite ref_up_ok by lia. split_and?; auto; lia.
Qed.

(** A page is zeroed, and an entry written in another one. *)
Lemma added_memory m m0 t i new e : 0 <= 8 * i -> 8 * i + 8 <= PAGE_SIZE P -> t + PAGE_SIZE P <= new \/ new + PAGE_SIZE P <= t -> is_u64 e ->
  (forall x, new <= x < new + PAGE_SIZE P -> m0 x = 0) -> (forall x, ~ (new <= x < new + PAGE_SIZE P) -> m0 x = m x) ->
  let m1 := store 8 m0 (t + 8 * i) e in
  entry m1 t i = e /\ (forall x, new <= x < new + PAGE_SIZE P -> m1 x = 0) /\
  (forall x, ~ (t + 8 * i <= x < t + 8 * i + 8) -> ~ (new <= x < new + PAGE_SIZE P) -> m1 x = m x).
Proof.
  intros H0 H8 Hap Ue Hz Hr m1.
  assert (M1 : forall x, m1 x = if within (t + 8 * i) 8 x then (e / 256 ^ (x - (t + 8 * i))) mod 256 else m0 x).
  { intros x. unfold m1. rewrite store_spec. reflexivity. }
  split; [|split].
  - unfold entry, m1. rewrite load_store. apply Z.mod_small. exact Ue.
  - intros x Hx. rewrite M1. destruct (within_reflect (t + 8 * i) 8 x); [lia|auto].
  - intros x H1 H2. rewrite M1. destruct (within_reflect (t + 8 * i) 8 x); [lia|auto].
Qed.

Section Step.
Context (s : state) (own : ownership) (k v l : Z) (w : pt_walker) (Hcb : alloc_pgtable w = cb_of early) (Sp : space s own (k + 1)).
Context (Hk : 0 <= k) (Hv : 0 <= v < 2 ^ va_bits P) (Hl : 1 <= l) (Hpool : pool (s_alloc s) <> []).
#[local] Abbreviation t := (tables w (l + 1)).
#[local] Abbreviation i := (index v (l + 1)).
Context (R : reaches (s_mem s) root v (l + 1) t) (Hi : indices w (l + 1) = i).
Context (Habsent : pte_is_present P (entry (s_mem s) t i) = false).

Lemma alloc_one : exists phys s0 s1 s2 own',
  alloc_table_at_pte P HHDM_OFFSET alloc_table early_alloc_page s w (t + 8 * i) l = Ok (Some (s1, set_table w l (HHDM_OFFSET + phys)), s0) /\
  (if negb early then table_ref_up s1 t else Ok s1) = Ok s2 /\ space s2 own' k /\ grown (s_mem s) (s_mem s2) v /\
  reaches (s_mem s2) root v l (HHDM_OFFSET + phys) /\ pte_is_present P (entry (s_mem s2) (HHDM_OFFSET + phys) (index v l)) = false /\
  length (pool (s_alloc s)) = S (length (pool (s_alloc s2))).
Proof.
  pose proof (sp_tree _ _ _ Sp) as TR. pose proof (reaches_level P OK _ _ _ _ _ _ R) as L. pose proof (reaches_own P OK _ _ _ _ TR _ _ _ Hv R) as O.
  destruct (call_alloc_ok s own (k + 1) w Hcb Sp Hpool) as (phys & s0 & Ea & (Hnew & Hal & Hlo & Hhi) & Hperm & Hz & Hr & Hfr & Hframes).
  set (new := HHDM_OFFSET + phys) in *. set (e := Z.lor (phys_create_pte P phys) (PGT_FLAGS P)). set (s1 := pte_write s0 (t + 8 * i) e).
  pose proof (page_size_pos P OK) as Hps. destruct (t_page _ _ _ _ _ TR _ _ _ O) as (_ & At & Ht & Hthi).
  assert (An : new mod PAGE_SIZE P = 0) by (unfold new; rewrite Z.add_mod, Hpage, Hal by lia; apply Z.mod_0_l; lia).
  assert (Hne : t <> new) by (intros E; rewrite E in O; congruence). pose proof (index_bound P OK (l + 1) v L) as Hib.
  pose proof (slot_inside P OK (l + 1) i L Hib) as Hs. pose proof (pages_apart P OK t new At An Hne) as Hap.
  destruct (ok_table _ _ _ _ OK phys ltac:(lia) Hal) as (Ue & _). fold e in Ue.
  destruct (added_memory (s_mem s) (s_mem s0) t i new e) as (Hentry & Hzero & Hrest); auto; try lia. fold (s_mem s1) in *.
  change (store 8 (s_mem s0) (t + 8 * i) e) with (s_mem s1) in *.
  assert (Habs : forall j, 0 <= j < 2 ^ bits (l + 1 - 1) -> pte_is_present P (entry (s_mem s1) new j) = false).
  { replace (l + 1 - 1) with l by lia. intros j Hj. destruct (slot_inside P OK l j ltac:(lia) Hj). apply zero_absent; auto. }
  destruct (add_table P OK HHDM_OFFSET _ _ _ TR t (l + 1) _ i phys O ltac:(lia) Hib Habsent Hnew ltac:(lia) Hal An ltac:(lia) ltac:(lia)
    (s_mem s1) Hentry Habs Hrest) as (T1 & G). replace (l + 1 - 1) with l in * by lia.
  assert (Hg : grown (s_mem s) (s_mem s1) v).
  { split; [intros x Hx; apply G, Hx|intros x l' t' Hx; apply G, Hx|].
    intros x l' t' Hx Rx. destruct (G x Hx) as (_ & _ & _ & Inv). destruct (Inv l' t' Rx) as [|(-> & E1 & E2)]; [auto|right].
    rewrite !(tbl_above P OK), !(block_split P OK (l + 1)) by lia. congruence. }
  destruct (pages_without own phys _ _ l (tbl (l + 1) v * 2 ^ bits (l + 1) + i) Hperm (sp_nodup _ _ _ Sp) (sp_pages _ _ _ Sp)) as (N1 & F1).
  assert (Lp : length (pool (s_alloc s)) = S (length (pool (s_alloc s0)))) by (rewrite Hperm; reflexivity).
  assert (Al : alloc_table_at_pte P HHDM_OFFSET alloc_table early_alloc_page s w (t + 8 * i) l = Ok (Some (s1, set_table w l new), s0)).
  { unfold alloc_table_at_pte. rewrite Ea. cbn [mbind outcome_bind]. pose proof (ok_phys _ _ _ _ OK) as Hpb.
    assert (2 ^ phys_bits <= 2 ^ 63) by (apply Z.pow_le_mono_r; lia). pose proof (Z.pow_nonneg 2 (va_bits P - 9) ltac:(lia)).
    destruct (Z.eqb_spec phys INVALID_PHYS) as [E|_]; [unfold INVALID_PHYS, UINT64_MAX in E; lia|]. rewrite phys_to_virt_ok by lia. reflexivity. }
  set (own' := with_table own new l (tbl (l + 1) v * 2 ^ bits (l + 1) + i)) in *.
  assert (Rn : reaches (s_mem s1) root v l new) by (apply G; auto). pose proof (Habs _ (index_bound P OK l v ltac:(lia))) as Ab.
  destruct early eqn:Eearly; cbn [negb].
  - exists phys, s0, s1, s1, own'. split_and?; auto. split; auto. congruence.
  - destruct (sp_refs _ _ _ Sp Eearly t _ _ O) as (f & Hf & Hft & Hfr0).
    exists phys, s0, s1, (set_frame s1 t (set_refcount f (f_refcount f + 1))), own'. split; [exact Al|]. split; [|split_and?; auto; split; auto].
    + unfold table_ref_up, get_frame. cbn [s1 pte_write s_frames]. rewrite Hframes, Hf by exact Hne. cbn [mbind outcome_bind].
      rewrite ref_up_ok by lia. reflexivity.
    + intros _ t' l' b' Ot'. cbn. unfold own', with_table in Ot'. destruct (Z.eqb_spec t' t) as [->|Ht'].
      * exists (set_refcount f (f_refcount f + 1)). cbn. split_and?; auto; lia.
      * destruct (Z.eqb_spec t' new) as [->|Hn']; [exists (Frame true 0 0 false NotLarge 0); rewrite Hfr by reflexivity; cbn; split_and?; auto; lia|].
        rewrite Hframes by exact Hn'. destruct (sp_refs _ _ _ Sp Eearly t' _ _ Ot') as (f' & ? & ? & ?). exists f'. split_and?; auto; lia.
Qed.
End Step.

(** ** The tables for an address *)

Lemma alloc_levels_ok pageop L n s own k v w : alloc_pgtable w = cb_of early -> top_level w = top -> 0 <= k -> 1 <= L <= Z.of_nat n -> Z.of_nat n < top ->
  space s own (k + (Z.of_nat n - L + 1)) -> 0 <= v < 2 ^ va_bits P ->
  (forall j, Z.of_nat n < j <= top -> reaches (s_mem s) root v j (tables w j)) -> (forall j, 1 <= j <= top -> indices w j = index v j) ->
  pte_is_present P (entry (s_mem s) (tables w (Z.of_nat n + 1)) (index v (Z.of_nat n + 1))) = false ->
  Z.of_nat n - L + 1 <= Z.of_nat (length (pool (s_alloc s))) ->
  exists s' own' w', alloc_levels_loop P HHDM_OFFSET alloc_table early_alloc_page n s w L true (negb early) pageop = Ok (E_PT_WALKER_OK, s', w') /\
    space s' own' k /\ grown (s_mem s) (s_mem s') v /\ at_pos (s_mem s') root w' v /\ level w' = L /\ same_setup w w' /\
    Z.of_nat (length (pool (s_alloc s))) = Z.of_nat (length (pool (s_alloc s'))) + (Z.of_nat n - L + 1).
Proof.
  revert s own w. induction n as [|n IH]; intros s own w Hcb Ht Hk HL Hn Sp Hv Hr Hx Ha Hp; [lia|]. set (l := Z.of_nat (S n)) in *.
  pose proof (Hr (l + 1) ltac:(lia)) as R. pose proof (Hx (l + 1) ltac:(lia)) as Ex.
  destruct (alloc_one s own (k + (l - L)) v l w Hcb) as (phys & s0 & s1 & s2 & own' & Al & Eref & Sp2 & G & Rn & Ab & Lp); auto; try lia.
  { replace (k + (l - L) + 1) with (k + (l - L + 1)) by lia. exact Sp. }
  { intros E. rewrite E in Hp. cbn in Hp. lia. }
  cbn [alloc_levels_loop]. fold l. rewrite Ex. unfold pte_ptr at 1. rewrite (reaches_nonzero P OK HHDM_OFFSET Hhhdm _ _ _ (sp_tree _ _ _ Sp) v _ _ Hv R).
  cbn [mbind outcome_bind]. rewrite Al. cbn [mbind outcome_bind]. rewrite Eref. cbn [mbind outcome_bind andb]. rewrite andb_false_r. cbn [orb].
  set (w1 := set_table w l (HHDM_OFFSET + phys)) in *.
  assert (R1 : forall j, Z.of_nat n < j <= top -> reaches (s_mem s2) root v j (tables w1 j)).
  { intros j Hj. cbn. destruct (Z.eqb_spec j l) as [->|]; [exact Rn|]. apply (gr_reaches _ _ _ G); [exact Hv|]. apply Hr. lia. }
  destruct (Z.ltb_spec (l - 1) L) as [Hlast|Hmore].
  - exists s2, own', (set_level w1 (l - 1 + 1)). split; [reflexivity|]. replace (k + (l - L)) with k in Sp2 by lia. split_and?; auto; try lia; cbn; try lia.
    split; cbn; auto; try lia.
    + intros j Hj. apply R1. lia.
    + right. replace (l - 1 + 1) with l by lia. rewrite Z.eqb_refl. apply absent_not_table, Ab.
    + split; auto.
  - destruct (IH s2 own' w1) as (s3 & own3 & w3 & E3 & Sp3 & G3 & At3 & Lv3 & (S31 & S32 & S33) & Lp3); auto; try lia.
    { replace (k + (Z.of_nat n - L + 1)) with (k + (l - L)) by lia. exact Sp2. }
    { replace (Z.of_nat n + 1) with l by lia. cbn. rewrite Z.eqb_refl. exact Ab. }
    exists s3, own3, w3. split; [exact E3|]. split_and?; auto; try lia; [eapply grown_trans; eauto|split; auto].
Qed.

(** An address that is not mapped: nothing is at the entry where its walk ends. *)
Lemma stop_absent m w v : at_pos m root w v -> 1 < level w -> translate m root v = None ->
  pte_is_present P (entry m (tables w (level w)) (index v (level w))) = false.
Proof.
  intros W Hl Et. rewrite (translate_at P OK HHDM_OFFSET _ _ _ _ _ (at_tables _ _ _ _ _ _ W _ (conj (Z.le_refl _) (proj2 (at_level _ _ _ _ _ _ W))))
    (at_stop _ _ _ _ _ _ W)) in Et. destruct (at_stop _ _ _ _ _ _ W) as [|St]; [lia|]. unfold page_at, PageTable.is_table in *.
  destruct (pte_is_present P _); [|reflexivity]. destruct (Z.eqb_spec (level w) 1); [lia|].
  destruct (pte_level_can_have_large P (level w) && pte_is_large P _); discriminate.
Qed.
Lemma ptwalker_fill_in_to_ok pageop l s own k v w : alloc_pgtable w = cb_of early -> 0 <= k -> 1 <= l <= top ->
  space s own (k + Z.max 0 (level w - l)) -> 0 <= v < 2 ^ va_bits P -> at_pos (s_mem s) root w v -> translate (s_mem s) root v = None ->
  level w - l <= Z.of_nat (length (pool (s_alloc s))) ->
  exists s' own' w', ptwalker_fill_in_to P HHDM_OFFSET alloc_table early_alloc_page s w l (negb early) pageop = Ok (E_PT_WALKER_OK, s', w') /\
    space s' own' k /\ grown (s_mem s) (s_mem s') v /\ at_pos (s_mem s') root w' v /\ level w' = Z.min (level w) l /\ same_setup w w' /\
    Z.of_nat (length (pool (s_alloc s))) = Z.of_nat (length (pool (s_alloc s'))) + Z.max 0 (level w - l).
Proof.
  intros Hcb Hk Hl Sp Hv W Et Hp. pose proof (at_level _ _ _ _ _ _ W) as Hlev. unfold ptwalker_fill_in_to. destruct (Z.leb_spec (level w) l) as [Hle|Hgt].
  { exists s, own, w. split; [reflexivity|]. split; [apply (space_weaken s own (k + Z.max 0 (level w - l))); [lia|exact Sp]|].
    split; [apply grown_refl|]. split_and?; auto; try lia. split; auto. }
  unfold alloc_levels_down_to. rewrite (not_null w Hcb). cbn [c_assert mbind outcome_bind]. rewrite andb_false_r.
  destruct (alloc_levels_ok pageop l (Z.to_nat (level w - 1)) s own k v w) as (s' & own' & w' & E & ? & ? & ? & ? & ? & ?); auto; try lia; try apply W.
  - replace (k + (Z.of_nat (Z.to_nat (level w - 1)) - l + 1)) with (k + Z.max 0 (level w - l)) by lia. exact Sp.
  - intros j Hj. apply W. lia.
  - replace (Z.of_nat (Z.to_nat (level w - 1)) + 1) with (level w) by lia. apply stop_absent; auto; lia.
  - exists s', own', w'. split_and?; auto; lia.
Qed.
End Fill.
