(* ===== verification/PgmapLevels.v ===== *)
(** * The size of page [pgmap_at] takes next

    [find_highest_possible_level] takes the largest pages that are aligned and fit;
    [get_leaf_pte_count_until_next_large] ends where larger ones can be taken. *)

From S2P Require Import Prelude Mem Arith Range Refcount Hhdm Paging Walker PageTable WalkerFacts Pgmap.

Section Levels.
Context (P : paging) {phys_bits : Z} {leaf_ok large_ok : Z -> Prop} (OK : paging_ok P phys_bits leaf_ok large_ok).
#[local] Abbreviation top := (pgt_get_top_level P).
#[local] Abbreviation shift := (PAGE_SHIFTS P).
#[local] Abbreviation bits := (pt_bits P).
#[local] Abbreviation index v l := (virt_to_pt_index P v l).
Context (mask : Z).

(** Pages of level [l] may be used. *)
Definition level_ok (l : Z) : Prop := l = 1 \/ 1 < l /\ usable_level P mask l = true.

(** ** Alignment and indices *)

Lemma aligned_step v l : 1 <= l < top -> v mod 2 ^ shift l = 0 -> index v l = 0 -> v mod 2 ^ shift (l + 1) = 0.
Proof.
  intros Hl Hm Hx. pose proof (shift_pos P OK l ltac:(lia)). pose proof (bits_pos P OK l ltac:(lia)). rewrite (index_spec P OK) in Hx by lia.
  rewrite (ok_shift _ _ _ _ OK), Z.pow_add_r, Z.rem_mul_r by lia. rewrite Hm, Hx. lia.
Qed.
Lemma aligned_below n v : Z.of_nat n < top -> v mod 2 ^ shift 1 = 0 -> (forall j, 1 <= j <= Z.of_nat n -> index v j = 0) ->
  v mod 2 ^ shift (Z.of_nat n + 1) = 0.
Proof.
  intros Hn Hm. induction n as [|n IH]; intros Hx; [exact Hm|]. rewrite Nat2Z.inj_succ in *. unfold Z.succ in *.
  apply aligned_step; [lia| |apply Hx; lia]. apply IH; [lia|]. intros j Hj. apply Hx. lia.
Qed.
(** Only 0 has no index. *)
Lemma some_index v : 0 < v < 2 ^ va_bits P -> v mod 2 ^ shift 1 = 0 -> ~ (forall j, 1 <= j <= top -> index v j = 0).
Proof.
  intros Hv Hm Hx. pose proof (ok_top _ _ _ _ OK). pose proof (aligned_below (Z.to_nat (top - 1)) v ltac:(lia) Hm) as Ha.
  replace (Z.of_nat (Z.to_nat (top - 1)) + 1) with top in Ha by lia. specialize (Ha ltac:(intros; apply Hx; lia)).
  pose proof (shift_pos P OK top ltac:(lia)). pose proof (block_split P OK top v ltac:(lia)) as B. rewrite (tbl_top P OK), (Hx top) in B by lia.
  pose proof (Z.div_mod v (2 ^ shift top) ltac:(lia)). lia.
Qed.

Lemma lowest_nonzero_spec n w l : (forall j, l <= j < l + Z.of_nat n -> indices w j = 0) /\ lowest_nonzero n w l = 0 \/
  l <= lowest_nonzero n w l < l + Z.of_nat n /\ indices w (lowest_nonzero n w l) <> 0 /\ (forall j, l <= j < lowest_nonzero n w l -> indices w j = 0).
Proof.
  revert l. induction n as [|n IH]; intros l; [left; split; [lia|reflexivity]|]. cbn [lowest_nonzero].
  destruct (Z.eqb_spec (indices w l) 0) as [E|E]; cbn [negb]; [|right; split_and?; auto; lia].
  destruct (IH (l + 1)) as [(Hz & ->)|(Hr & Hne & Hz)]; [left|right]; split_and?; auto; try lia;
    intros j Hj; (destruct (Z.eq_dec j l) as [->|]; [exact E|apply Hz; lia]).
Qed.

Lemma level_pow2 l : 1 <= l <= top \/ 2 <= l /\ largepage_is_supported P l = true -> pow2_64 (2 ^ shift l) /\ 2 ^ shift l <= 2 ^ 62.
Proof.
  intros Hl. assert (0 <= shift l <= 62).
  { destruct Hl as [Hl|(Hl & Hs)]; [|apply (ok_large_level _ _ _ _ OK l Hl Hs)].
    pose proof (shift_pos P OK l Hl). pose proof (shift_le_va P OK l Hl). pose proof (bits_pos P OK l Hl). destruct (ok_va _ _ _ _ OK). lia. }
  split; [exists (shift l); lia|]. apply Z.pow_le_mono_r; lia.
Qed.
Lemma usable_supported l : usable_level P mask l = true -> largepage_is_supported P l = true.
Proof. intros Hu. apply andb_true_iff in Hu. apply Hu. Qed.

(** ** The highest level *)

Section Range.
Context (p0 size0 offset : Z) (Hp : 0 <= p0) (Ho : 0 <= offset < size0) (Hs : p0 + size0 <= 2 ^ 63).
(** Pages of level [l] at [offset] are aligned and fit. *)
Definition fits_at (l : Z) : Prop := usable_level P mask l = true /\ (p0 + offset) mod 2 ^ shift l = 0 /\ offset + 2 ^ shift l <= size0.

Lemma fitting_level_step n r o : fitting_level P (S (S n)) mask r o =
  if negb (usable_level P mask (Z.of_nat (S (S n)))) then fitting_level P (S n) mask r o else
  aligned ← has_align (u64 (front r + o)) (PAGE_SIZE_AT_LEVEL P (Z.of_nat (S (S n))));
  if negb aligned || (size r <? u64 (o + PAGE_SIZE_AT_LEVEL P (Z.of_nat (S (S n))))) then fitting_level P (S n) mask r o
  else Ok (Z.of_nat (S (S n))).
Proof. reflexivity. Qed.
Lemma fitting_level_ok n : Z.of_nat n <= top -> exists l, fitting_level P n mask (Range p0 size0) offset = Ok l /\
  (l = 1 \/ 1 < l <= Z.of_nat n /\ fits_at l) /\ forall l', l < l' <= Z.of_nat n -> ~ fits_at l'.
Proof.
  intros Hn. induction n as [|n IH]; [exists 1; split; [reflexivity|]; split; [auto|lia]|].
  destruct n as [|n]; [exists 1; split; [reflexivity|]; split; [auto|lia]|]. destruct (IH ltac:(lia)) as (l & El & Hl & Hmax).
  assert (Next : ~ fits_at (Z.of_nat (S (S n))) -> exists l, fitting_level P (S n) mask (Range p0 size0) offset = Ok l /\
    (l = 1 \/ 1 < l <= Z.of_nat (S (S n)) /\ fits_at l) /\ forall l', l < l' <= Z.of_nat (S (S n)) -> ~ fits_at l').
  { intros Hno. exists l. split; [exact El|]. split; [destruct Hl as [|(? & ?)]; auto; right; split; [lia|auto]|].
    intros l' Hl'. destruct (Z.eq_dec l' (Z.of_nat (S (S n)))) as [->|]; [exact Hno|apply Hmax; lia]. }
  set (k := Z.of_nat (S (S n))) in *. rewrite fitting_level_step. fold k. unfold PAGE_SIZE_AT_LEVEL. cbn [front size].
  destruct (usable_level P mask k) eqn:Hu; cbn [negb]; [|apply Next; intros (? & _); congruence].
  destruct (level_pow2 k ltac:(lia)) as (Hpow & Hle). rewrite (wrap_small 64 (p0 + offset)) by (unfold is_u; lia). rewrite has_align_pow2 by exact Hpow. cbn [mbind outcome_bind].
  destruct (Z.eqb_spec ((p0 + offset) mod 2 ^ shift k) 0) as [Ea|Ea]; cbn [negb orb]; [|apply Next; intros (_ & ? & _); contradiction].
  pose proof (pow2_64_bound _ Hpow). rewrite (wrap_small 64 (offset + 2 ^ shift k)) by (unfold is_u; lia).
  destruct (Z.ltb_spec size0 (offset + 2 ^ shift k)); [apply Next; intros (_ & _ & ?); lia|]. exists k. split; [reflexivity|].
  split; [right; split; [lia|repeat split; auto]|lia].
Qed.
Lemma find_highest_ok w v : top_level w = top -> 0 < v < 2 ^ va_bits P -> v mod 2 ^ shift 1 = 0 -> (p0 + offset) mod 2 ^ shift 1 = 0 ->
  (forall j, 1 <= j <= top -> indices w j = index v j) ->
  exists l, find_highest_possible_level P w mask (Range p0 size0) offset = Ok l /\ level_ok l /\ 1 <= l <= top /\
    v mod 2 ^ shift l = 0 /\ (p0 + offset) mod 2 ^ shift l = 0 /\ (l = 1 \/ offset + 2 ^ shift l <= size0) /\
    forall l', l < l' <= top -> v mod 2 ^ shift l' = 0 -> ~ fits_at l'.
Proof.
  intros Ht Hv Hm Hpm Hx. pose proof (ok_top _ _ _ _ OK) as Htop. unfold find_highest_possible_level. rewrite Ht.
  destruct (lowest_nonzero_spec (Z.to_nat top) w 1) as [(Hz & _)|(Hr & Hne & Hz)].
  { exfalso. apply (some_index v Hv Hm). intros j Hj. rewrite <- Hx by exact Hj. apply Hz. lia. }
  set (h := lowest_nonzero (Z.to_nat top) w 1) in *. rewrite Hx in Hne by lia.
  assert (Hh : v mod 2 ^ shift h = 0).
  { replace h with (Z.of_nat (Z.to_nat (h - 1)) + 1) by lia. apply aligned_below; [lia|exact Hm|]. intros j Hj. rewrite <- Hx by lia. apply Hz. lia. }
  assert (Above : forall l', h < l' <= top -> v mod 2 ^ shift l' <> 0).
  { intros l' Hl' E. apply Hne. apply (aligned_low P OK v l'); auto; lia. }
  destruct (Z.eqb_spec h 1) as [E1|E1].
  { exists 1. rewrite E1 in *. split; [reflexivity|]. split; [left; reflexivity|]. split_and?; auto; try lia.
    intros l' Hl' E. exfalso. apply (Above l'); auto. }
  destruct (fitting_level_ok (Z.to_nat h) ltac:(lia)) as (l & -> & Hl & Hmax). exists l. split; [reflexivity|].
  rewrite Z2Nat.id in * by lia.
  assert (Hl1 : 1 <= l <= h) by lia. split; [destruct Hl as [|(? & (? & _))]; [left|right]; auto; split; auto; lia|]. split; [lia|].
  split; [apply (mod_lower P OK l h); auto; lia|]. split; [destruct Hl as [->|(_ & (_ & ? & _))]; auto|].
  split; [destruct Hl as [|(_ & (_ & _ & ?))]; auto|]. intros l' Hl' E. destruct (Z.le_gt_cases l' h); [apply Hmax; lia|exfalso; apply (Above l'); auto; lia].
Qed.

(** ** The next larger page *)

Lemma next_large_level_spec n l N : next_large_level P n mask l = Some N -> l <= N /\ usable_level P mask N = true.
Proof.
  revert l. induction n as [|n IH]; intros l E; [discriminate|]. cbn [next_large_level] in E.
  destruct (usable_level P mask l) eqn:Hu; [injection E as <-; split; [lia|exact Hu]|]. destruct (IH _ E). split; [lia|auto].
Qed.
Lemma mod_u64 x k : 0 <= k <= 64 -> u64 x mod 2 ^ k = x mod 2 ^ k.
Proof.
  intros Hk. unfold wrap. apply Z.mod_mod_divide. exists (2 ^ (64 - k)). rewrite <- Z.pow_add_r by lia. f_equal. lia.
Qed.
Lemma range_has_end_le r e : 0 <= front r -> e < 2 ^ 64 -> range_has_end r e = true -> e - front r <= size r.
Proof.
  intros Hf He Hr. apply andb_true_iff in Hr as (H1 & H2). apply Z.ltb_lt in H1. apply Z.leb_le in H2.
  rewrite wrap_small in H2 by (unfold is_u; lia). exact H2.
Qed.

Context (virt : Z) (Hvirt : 0 <= virt) (Hvs : virt + size0 < 2 ^ 64) (Hva : size0 < 2 ^ va_bits P).
(** The count ends where a larger page is aligned in both address spaces and fits, or is not limited. *)
Lemma until_next_large_ok l : 1 <= l <= top -> exists until,
  get_leaf_pte_count_until_next_large P (Range p0 size0) (p0 + offset) virt true l mask = Ok until /\
  (until = UINT64_MAX \/ exists N d, l < N <= top /\ usable_level P mask N = true /\ 0 <= d /\ until = PAGE_COUNT P d /\
    (p0 + offset + d) mod 2 ^ shift N = 0 /\ (virt + offset + d) mod 2 ^ shift N = 0 /\ offset + d + 2 ^ shift N <= size0).
Proof.
  intros Hl. unfold get_leaf_pte_count_until_next_large. destruct (next_large_level _ _ _ _) as [N|] eqn:EN; [|exists UINT64_MAX; auto].
  destruct (next_large_level_spec _ _ _ EN) as (HN & Hu). destruct (level_pow2 N ltac:(right; split; [lia|eapply usable_supported; eauto])) as (Hpow & Hle).
  pose proof (pow2_64_bound _ Hpow) as Hb. unfold PAGE_SIZE_AT_LEVEL. set (b := 2 ^ shift N) in *. unfold align_up_assert.
  rewrite align_up_pow2 by (auto; unfold is_u; lia). destruct (Z.ltb_spec (p0 + offset + (b - 1)) (2 ^ 64)); [|lia]. cbn [mbind outcome_bind assert_some].
  set (a := p0 + offset + (b - 1)). set (B := a - a mod b). pose proof (Z.mod_pos_bound a b ltac:(lia)) as Hmod.
  assert (HB : B mod b = 0) by (unfold B; rewrite Zminus_mod, Zmod_mod, Z.sub_diag; apply Z.mod_0_l; lia).
  rewrite (wrap_small 64 (B + b)) by (unfold is_u; lia). destruct (range_has_end _ _) eqn:Hend; cbn [negb]; [|exists UINT64_MAX; auto].
  apply range_has_end_le in Hend; cbn [front size] in *; try lia. unfold amount_to_boundary. rewrite offset_from_boundary_pow2 by exact Hpow.
  destruct (Z.eqb_spec b 0); [lia|]. cbn [c_assert negb mbind outcome_bind]. rewrite has_align_pow2 by exact Hpow. cbn [mbind outcome_bind].
  replace (p0 + offset - p0) with offset by lia. rewrite (wrap_small 64 offset) by (unfold is_u; lia).
  set (vl := u64 _). destruct (Z.eqb_spec (vl mod b) 0) as [Ev|Ev]; cbn [andb negb mbind outcome_bind]; [|exists UINT64_MAX; auto].
  destruct (check_add_w 64 vl b); cbn [negb]; [|exists UINT64_MAX; auto]. rewrite (wrap_small 64 (B - (p0 + offset))) by (unfold is_u; lia).
  eexists. split; [reflexivity|]. right. exists N, (B - (p0 + offset)). destruct (ok_large_level _ _ _ _ OK N ltac:(lia) (usable_supported _ Hu)) as (_ & Hsh & Htop).
  assert (HNt : N <= top) by (destruct Htop as [|Hva']; [assumption|]; pose proof (Z.pow_le_mono_r 2 (va_bits P) (shift N) ltac:(lia) Hva') as X; change (2 ^ shift N) with b in X; lia).
  fold b. split_and?; auto; try lia; [replace (p0 + offset + (B - (p0 + offset))) with B by lia; exact HB|].
  set (x := p0 + offset) in *.
  unfold vl, b in Ev. rewrite mod_u64, <- Zplus_mod_idemp_l, mod_u64, Zplus_mod_idemp_l, <- Zplus_mod_idemp_r, mod_u64, Zplus_mod_idemp_r in Ev by lia.
  fold b in Ev. pose proof (Z.div_mod B b ltac:(lia)) as DB. rewrite HB in DB. pose proof (Z.div_mod x b ltac:(lia)) as Dx.
  replace (virt + offset + (B - x)) with (virt + offset + (b - x mod b) + (B / b - 1 - x / b) * b) by lia. rewrite Z.mod_add by lia. exact Ev.
Qed.
End Range.
End Levels.
