(* ===== verification/PgmapFacts.v ===== *)
(** * What [pgmap_at] maps

    Writing entries of one table maps a block of addresses; the loops map block after block,
    filling in tables, until the range is mapped. *)

From S2P Require Import Prelude Mem Arith Range Refcount Hhdm Paging Walker PageTable WalkerFacts TableFill Pgmap PgmapLevels.

Section Blocks.
Context (P : paging) {phys_bits : Z} {leaf_ok large_ok : Z -> Prop} (OK : paging_ok P phys_bits leaf_ok large_ok).
Context (HHDM_OFFSET : Z) {A : Type}.
#[local] Abbreviation state := (pt_state A).
#[local] Abbreviation top := (pgt_get_top_level P).
#[local] Abbreviation shift := (PAGE_SHIFTS P).
#[local] Abbreviation bits := (pt_bits P).
#[local] Abbreviation index v l := (virt_to_pt_index P v l).
#[local] Abbreviation is_table := (is_table P).
#[local] Abbreviation reaches := (reaches P HHDM_OFFSET).
#[local] Abbreviation tree := (tree P HHDM_OFFSET).
#[local] Abbreviation tbl := (tbl P).
#[local] Abbreviation translate := (translate P HHDM_OFFSET).

(** ** The entries *)

Definition pte_for (options : pgmap_options) (l phys : Z) : Z := Z.lor (phys_create_pte P phys) (pte_flags_of P options l).

(** The flags are ones entries can have, for the sizes of pages that are used. *)
Definition flags_ok (options : pgmap_options) : Prop :=
  leaf_ok (leaf_pte_flags options) /\ large_ok (large_pte_flags options).
#[local] Abbreviation level_ok options l := (level_ok P (supports_largepage_at_level_mask options) l).

Lemma pte_for_ok options l phys : flags_ok options -> level_ok options l -> 0 <= phys < 2 ^ phys_bits -> phys mod 2 ^ shift l = 0 ->
  is_u64 (pte_for options l phys) /\ (1 < l -> is_table l (pte_for options l phys) = false) /\
  forall x, page_at P l (pte_for options l phys) x = Some (phys + x mod 2 ^ shift l).
Proof.
  intros (Hleaf & Hlarge) Hl Hp Ha. unfold pte_for, pte_flags_of, page_at, PageTable.is_table. destruct Hl as [->|(Hl & Hu)].
  - cbn [Z.ltb Z.compare Pos.compare Pos.compare_cont]. destruct (ok_leaf _ _ _ _ OK phys _ Hp Ha Hleaf) as (U & -> & ->). split; [exact U|].
    split; [lia|reflexivity].
  - destruct (Z.ltb_spec 1 l); [|lia]. unfold usable_level in Hu. apply andb_true_iff in Hu as (Hs & _).
    destruct (ok_large_level _ _ _ _ OK l ltac:(lia) Hs) as (Hc & _).
    destruct (ok_large _ _ _ _ OK phys _ l Hp ltac:(lia) Hs Ha Hlarge) as (U & -> & -> & ->). rewrite Hc. cbn [andb negb orb].
    rewrite orb_true_r. auto.
Qed.

(** Entries written one after the other. *)
Lemma write_entries_spec options l n (s : state) pte phys : 0 <= phys -> phys + Z.of_nat n * 2 ^ shift l < 2 ^ 64 -> 1 <= l <= top ->
  (forall j, 0 <= j < Z.of_nat n -> is_u64 (pte_for options l (phys + j * 2 ^ shift l))) ->
  exists m', write_entries P n s pte phys (PAGE_SIZE_AT_LEVEL P l) (pte_flags_of P options l) =
      (PtState m' (s_frames s) (s_alloc s) (s_delayed s), phys + Z.of_nat n * 2 ^ shift l) /\
    (forall j, 0 <= j < Z.of_nat n -> load 8 m' (pte + 8 * j) = pte_for options l (phys + j * 2 ^ shift l)) /\
    (forall x, ~ (pte <= x < pte + 8 * Z.of_nat n) -> m' x = s_mem s x).
Proof.
  intros Hp Hend Hl. pose proof (shift_pos P OK l Hl) as Hsh. assert (0 < 2 ^ shift l) by lia. revert s pte phys Hp Hend.
  induction n as [|n IH]; intros s pte phys Hp Hend Hu.
  { exists (s_mem s). split; [destruct s; cbn; f_equal; lia|]. split; intros; [lia|reflexivity]. }
  cbn [write_entries]. fold (pte_for options l phys). unfold PAGE_SIZE_AT_LEVEL at 1. rewrite wrap_small by (unfold is_u; nia).
  destruct (IH (pte_write s pte (pte_for options l phys)) (pte + 8) (phys + 2 ^ shift l)) as (m' & E & Hin & Hout); [lia|nia| |].
  { intros j Hj. replace (phys + 2 ^ shift l + j * 2 ^ shift l) with (phys + (j + 1) * 2 ^ shift l) by ring. apply Hu. lia. }
  exists m'. cbn [pte_write s_frames s_alloc s_delayed s_mem] in *. split; [|split].
  - rewrite E. f_equal. rewrite Nat2Z.inj_succ. ring.
  - intros j Hj. destruct (Z.eq_dec j 0) as [->|].
    + rewrite Z.add_0_r, Z.mul_0_l, Z.add_0_r. rewrite (load_ext 8 m' (store 8 (s_mem s) pte (pte_for options l phys))) by (intros i Hi; apply Hout; lia).
      rewrite load_store. apply Z.mod_small. specialize (Hu 0 ltac:(lia)). rewrite Z.mul_0_l, Z.add_0_r in Hu. exact Hu.
    + replace (pte + 8 * j) with (pte + 8 + 8 * (j - 1)) by ring. rewrite Hin by lia. f_equal. ring.
  - intros x Hx. rewrite Hout by lia. rewrite store_spec. destruct (within_reflect pte (Z.of_nat 8) x); [lia|reflexivity].
Qed.

(** ** A block *)

(** Addresses of one table are all addresses, or none are. *)
Lemma tbl_range l x v : 1 <= l <= top -> 0 <= x -> 0 <= v < 2 ^ va_bits P -> tbl l x = tbl l v -> x < 2 ^ va_bits P.
Proof.
  intros Hl Hx Hv E. pose proof (shift_le_va P OK l Hl). pose proof (shift_pos P OK l Hl). pose proof (bits_pos P OK l Hl).
  destruct (Z.lt_ge_cases x (2 ^ va_bits P)) as [|Hge]; [assumption|exfalso]. unfold PageTable.tbl in E.
  replace (va_bits P) with (va_bits P - (shift l + bits l) + (shift l + bits l)) in Hv, Hge by lia. rewrite Z.pow_add_r in Hv, Hge by lia.
  assert (2 ^ (va_bits P - (shift l + bits l)) <= x / 2 ^ (shift l + bits l)) by (apply Z.div_le_lower_bound; lia).
  assert (v / 2 ^ (shift l + bits l) < 2 ^ (va_bits P - (shift l + bits l))) by (apply Z.div_lt_upper_bound; lia). lia.
Qed.

Section Block.
Context (options : pgmap_options) (l v n phys : Z) (Hf : flags_ok options) (Hlev : level_ok options l) (Hl : 1 <= l <= top).
Context (Hv : 0 <= v < 2 ^ va_bits P) (Hva : v mod 2 ^ shift l = 0) (Hpa : phys mod 2 ^ shift l = 0).
Context (Hn : 0 <= n) (Hin : index v l + n <= 2 ^ bits l) (Hp : 0 <= phys) (Hpe : phys + n * 2 ^ shift l <= 2 ^ phys_bits).
Context (m m' : mem) (own : ownership) (root t : Z) (TR : tree m own root) (R : reaches m root v l t).
Context (Hw : forall j, 0 <= j < n -> entry m' t (index v l + j) = pte_for options l (phys + j * 2 ^ shift l)).
Context (Hout : forall x, ~ (t + 8 * index v l <= x < t + 8 * (index v l + n)) -> m' x = m x).

Lemma block_covers x : covers P l (tbl l v) (index v l) n x <-> v <= x < v + n * 2 ^ shift l.
Proof.
  unfold covers. rewrite <- (block_split P OK) by exact Hl. pose proof (shift_pos P OK l Hl) as Hs. assert (B : 0 < 2 ^ shift l) by lia.
  pose proof (Z.div_mod v (2 ^ shift l) ltac:(lia)) as Ev. rewrite Hva in Ev. pose proof (Z.div_mod x (2 ^ shift l) ltac:(lia)) as Ex.
  pose proof (Z.mod_pos_bound x (2 ^ shift l) B). revert Ev Ex. generalize (v / 2 ^ shift l), (x / 2 ^ shift l). intros a b Ev Ex. split; nia.
Qed.
Lemma block_pages j : 0 <= j < n -> 0 <= phys + j * 2 ^ shift l < 2 ^ phys_bits /\ (phys + j * 2 ^ shift l) mod 2 ^ shift l = 0.
Proof.
  intros Hj. pose proof (shift_pos P OK l Hl). assert (0 < 2 ^ shift l) by lia. split; [nia|]. rewrite Z.mod_add by lia. exact Hpa.
Qed.
Lemma block_own : own t = Some (l, tbl l v).
Proof. eapply (reaches_own P OK HHDM_OFFSET); eauto. Qed.
Lemma block_not_table : 1 < l -> forall j, index v l <= j < index v l + n -> is_table l (entry m' t j) = false.
Proof.
  intros H1 j Hj. replace j with (index v l + (j - index v l)) by lia. rewrite Hw by lia. destruct (block_pages (j - index v l) ltac:(lia)) as (B1 & B2).
  apply (pte_for_ok options l _ Hf Hlev B1 B2). exact H1.
Qed.
(** The block is mapped, and nothing else changes. *)
Lemma block_written : tree m' own root /\
  (forall x, v <= x < v + n * 2 ^ shift l -> translate m' root x = Some (phys + (x - v))) /\
  (forall x, 0 <= x < 2 ^ va_bits P -> ~ (v <= x < v + n * 2 ^ shift l) -> translate m' root x = translate m root x) /\
  (forall x j t', 0 <= x < 2 ^ va_bits P -> l <= j -> reaches m root x j t' -> reaches m' root x j t') /\
  (forall x j t', 0 <= x < 2 ^ va_bits P -> reaches m' root x j t' -> reaches m root x j t').
Proof.
  pose proof block_own as O. pose proof (index_bound P OK l v Hl) as Hi. pose proof block_not_table as Hnt.
  assert (W : entries_written m m' t l (index v l) n) by exact Hout.
  split; [apply (tree_written P OK HHDM_OFFSET m own root TR m' t l (tbl l v) (index v l) n); auto; lia|]. split; [|split; [|split]].
  - intros x Hx. pose proof (proj2 (block_covers x) Hx) as C. destruct (covers_index P OK l (tbl l v) (index v l) n x Hl ltac:(lia) Hin C) as (Et & Ei).
    assert (Hvx : 0 <= x < 2 ^ va_bits P).
    { split; [lia|]. apply (tbl_range l x v); auto. lia. }
    pose proof (reaches_same P OK HHDM_OFFSET m root v x l t (eq_sym Et) R) as Rx.
    apply (reaches_written P OK HHDM_OFFSET m own root TR m' t l (tbl l v) (index v l) n x) in Rx; auto; try lia.
    set (j := index x l - index v l). destruct (block_pages j ltac:(lia)) as (B1 & B2).
    destruct (pte_for_ok options l _ Hf Hlev B1 B2) as (_ & N1 & Pg).
    assert (Ee : entry m' t (index x l) = pte_for options l (phys + j * 2 ^ shift l)) by (rewrite <- Hw by lia; f_equal; lia).
    rewrite (translate_at P OK HHDM_OFFSET m' root x l t Rx), Ee, Pg; [f_equal|].
    + pose proof (block_split P OK l x Hl) as Bx. pose proof (block_split P OK l v Hl) as Bv. rewrite Et in Bx.
      pose proof (shift_pos P OK l Hl). pose proof (Z.div_mod x (2 ^ shift l) ltac:(lia)) as Dx. pose proof (Z.div_mod v (2 ^ shift l) ltac:(lia)) as Dv.
      rewrite Hva in Dv. rewrite Bx in Dx. rewrite Bv in Dv. unfold j. nia.
    + rewrite Ee. destruct (Z.eq_dec l 1); [auto|right; apply N1; lia].
  - intros x Hx Hc. apply (translate_written P OK HHDM_OFFSET m own root TR m' t l (tbl l v) (index v l) n); auto; try lia. rewrite block_covers. exact Hc.
  - intros x j t' Hx Hj. apply (reaches_written P OK HHDM_OFFSET m own root TR m' t l (tbl l v) (index v l) n); auto; lia.
  - intros x j t' Hx. apply (reaches_written_inv P OK HHDM_OFFSET m own root TR m' t l (tbl l v) (index v l) n); auto; lia.
Qed.
End Block.
End Blocks.

Section Mapping.
Context (P : paging) {phys_bits : Z} {leaf_ok large_ok : Z -> Prop} (OK : paging_ok P phys_bits leaf_ok large_ok).
Context (HHDM_OFFSET : Z) (Hhhdm : 0 <= HHDM_OFFSET) (Hpage : HHDM_OFFSET mod PAGE_SIZE P = 0) {A : Type}.
Context (alloc_table early_alloc_page : A -> mem -> outcome (option Z * A * mem)).
#[local] Abbreviation state := (pt_state A).
#[local] Abbreviation top := (pgt_get_top_level P).
#[local] Abbreviation shift := (PAGE_SHIFTS P).
#[local] Abbreviation bits := (pt_bits P).
#[local] Abbreviation index v l := (virt_to_pt_index P v l).
#[local] Abbreviation is_table := (is_table P).
#[local] Abbreviation reaches := (reaches P HHDM_OFFSET).
#[local] Abbreviation tree := (tree P HHDM_OFFSET).
#[local] Abbreviation tbl := (tbl P).
#[local] Abbreviation translate := (translate P HHDM_OFFSET).
#[local] Abbreviation at_pos := (at_pos P HHDM_OFFSET).
Context (root : Z) (options : pgmap_options).
#[local] Abbreviation early := (is_in_early options).
Context {source : A -> mem -> outcome (option Z * A * mem)} {TS : TableSource (PAGE_SIZE P) HHDM_OFFSET source}.
Context (Hsource : source = if early then early_alloc_page else alloc_table).
#[local] Abbreviation space := (space P HHDM_OFFSET root early (phys_bits := phys_bits)).
#[local] Abbreviation grown := (grown P HHDM_OFFSET root).

(** The addresses from [v0] to [vend] are to be mapped to the memory from [p0] on. *)
Context (v0 vend p0 : Z) (m0 : mem) (Hf : flags_ok (leaf_ok := leaf_ok) (large_ok := large_ok) options).
Context (Hv0 : 0 < v0 < vend) (Hvend : vend < 2 ^ va_bits P) (Hv0a : v0 mod PAGE_SIZE P = 0) (Hvea : vend mod PAGE_SIZE P = 0).
Context (Hp0 : 0 <= p0) (Hp0a : p0 mod PAGE_SIZE P = 0) (Hpend : p0 + (vend - v0) <= 2 ^ phys_bits).
Context (Hfree : forall x, v0 <= x < vend -> translate m0 root x = None).

(** ** Tables still to be added *)

(** The tables of levels [1 .. n] between those for [v] and those for the last address. *)
Fixpoint tables_between (n : nat) (v last : Z) : Z :=
  match n with O => 0 | S n' => tbl (Z.of_nat n) last - tbl (Z.of_nat n) v + tables_between n' v last end.
Definition tables_left (v : Z) : Z := tables_between (Z.to_nat (top - 1)) v (vend - 1).

Lemma tbl_mono l v v' : 1 <= l <= top -> v <= v' -> tbl l v <= tbl l v'.
Proof. intros Hl H. pose proof (shift_pos P OK l Hl). pose proof (bits_pos P OK l Hl). apply Z.div_le_mono; lia. Qed.
(** Moving on to an address aligned for level [c] leaves the tables below [c] behind. *)
Lemma tables_between_move n c v v' last : Z.of_nat n < top -> 1 <= c <= top -> 0 <= v < v' -> v' mod 2 ^ shift c = 0 ->
  tables_between n v' last + Z.min (c - 1) (Z.of_nat n) <= tables_between n v last.
Proof.
  intros Hn Hc Hv Hm. induction n as [|n IH]; [cbn; lia|]. specialize (IH ltac:(lia)). cbn [tables_between]. set (l := Z.of_nat (S n)) in *.
  pose proof (tbl_mono l v v' ltac:(lia) ltac:(lia)) as M. destruct (Z.lt_ge_cases l c) as [Hlc|]; [|lia].
  assert (tbl l v < tbl l v'); [|lia]. rewrite !(tbl_above P OK) by lia. pose proof (mod_lower P OK (l + 1) c v' ltac:(lia) ltac:(lia) Hm) as Hm'.
  pose proof (shift_pos P OK (l + 1) ltac:(lia)). apply Z.div_lt_upper_bound; [lia|].
  pose proof (Z.div_mod v' (2 ^ shift (l + 1)) ltac:(lia)) as D. rewrite Hm' in D. lia.
Qed.
Lemma tables_between_nonneg n v last : Z.of_nat n < top -> v <= last -> 0 <= tables_between n v last.
Proof.
  intros Hn Hv. induction n as [|n IH]; [reflexivity|]. cbn [tables_between]. specialize (IH ltac:(lia)).
  pose proof (tbl_mono (Z.of_nat (S n)) v last ltac:(lia) Hv). lia.
Qed.
Lemma tables_left_move c v v' : 1 <= c <= top -> 0 <= v < v' -> v' mod 2 ^ shift c = 0 -> tables_left v' + (c - 1) <= tables_left v.
Proof.
  intros Hc Hv Hm. pose proof (ok_top _ _ _ _ OK). pose proof (tables_between_move (Z.to_nat (top - 1)) c v v' (vend - 1) ltac:(lia) Hc Hv Hm).
  unfold tables_left. lia.
Qed.
Lemma tables_left_nonneg v : v < vend -> 0 <= tables_left v.
Proof. intros Hv. pose proof (ok_top _ _ _ _ OK). apply tables_between_nonneg; lia. Qed.

(** ** The invariant *)

Definition pages_left (v : Z) : Z := (vend - v) / PAGE_SIZE P.
(** Tables the walker may still need at [v]. *)
Definition need (v : Z) (w : pt_walker) : Z := tables_left v + (level w - 1).
Definition headroom (v : Z) (w : pt_walker) : Z := pages_left v + need v w.

(** Everything up to [v] is mapped, and nothing else has changed. *)
Record upto (s : state) (own : ownership) (v k : Z) : Prop := {
  up_space : space s own k;
  up_range : v0 <= v <= vend;
  up_done : forall x, v0 <= x < v -> translate (s_mem s) root x = Some (p0 + (x - v0));
  up_rest : forall x, 0 <= x < 2 ^ va_bits P -> ~ (v0 <= x < v) -> translate (s_mem s) root x = translate m0 root x }.
(** The walker stands at [v]. *)
Record standing (s : state) (w : pt_walker) (v : Z) : Prop := {
  st_range : v0 <= v < vend;
  st_align : v mod PAGE_SIZE P = 0;
  st_at : at_pos (s_mem s) root w v;
  st_cb : alloc_pgtable w = cb_of early;
  st_clean : forall g, v < g < vend -> no_table_begins P HHDM_OFFSET root (s_mem s) g;
  st_pool : need v w <= Z.of_nat (length (pool (s_alloc s))) }.
(** Either the walker stands at [v], or all is done. *)
Definition progress (s : state) (own : ownership) (w : pt_walker) (v : Z) : Prop :=
  (v < vend /\ upto s own v (headroom v w) /\ standing s w v) \/ (v = vend /\ upto s own v 0).

Lemma range_va v : v0 <= v <= vend -> 0 <= v < 2 ^ va_bits P.
Proof. lia. Qed.
Lemma upto_free s own v k x : upto s own v k -> v <= x < vend -> translate (s_mem s) root x = None.
Proof. intros U Hx. rewrite (up_rest _ _ _ _ U); [apply Hfree|apply range_va|]; pose proof (up_range _ _ _ _ U); lia. Qed.
(** No table begins after [v] when tables for [v] have been added. *)
Lemma grown_clean m m' v : grown m m' v -> v0 <= v -> (forall g, v < g < vend -> no_table_begins P HHDM_OFFSET root m g) ->
  forall g, v < g < vend -> no_table_begins P HHDM_OFFSET root m' g.
Proof.
  intros G Hv Hc g Hg l t Hl Hm R. destruct (gr_inv _ _ _ _ _ _ G g _ _ ltac:(lia) R) as [R'|E]; [eapply (Hc g Hg); eauto|].
  rewrite !(tbl_above P OK) in E by lia. replace (l - 1 + 1) with l in E by lia. pose proof (shift_pos P OK l ltac:(lia)).
  pose proof (Z.div_mod g (2 ^ shift l) ltac:(lia)) as D. pose proof (Z.mul_div_le v (2 ^ shift l) ltac:(lia)). rewrite Hm, E in D. lia.
Qed.

(** ** One round of the loop *)

Lemma ref_add_ok s own k t l b c : space s own (k + c) -> own t = Some (l, b) -> 0 <= c -> 0 <= k ->
  exists s', (if negb early then table_ref_add s t c else Ok s) = Ok s' /\ space s' own k /\ s_mem s' = s_mem s /\ s_alloc s' = s_alloc s.
Proof.
  intros Sp O Hc Hk. destruct early eqn:E; cbn [negb].
  { exists s. split_and?; auto. apply (space_weaken P HHDM_OFFSET root true s own (k + c)); [lia|]. exact Sp. }
  destruct Sp as [T N F Rf]. destruct (Rf eq_refl t l b O) as (f & Hfr & Hi & Hb).
  exists (set_frame s t (set_refcount f (f_refcount f + c))). unfold table_ref_add, get_frame. rewrite Hfr. cbn [mbind outcome_bind]. rewrite Hi.
  unfold refcount_increment, REFCOUNT_MAX in *. rewrite i32_id by lia. cbn [c_assert mbind outcome_bind].
  destruct (Z.leb_spec 0 (f_refcount f)); [|lia]. destruct (Z.eqb_spec (f_refcount f) (2 ^ 31 - 1)); [lia|]. cbn [c_assert negb mbind outcome_bind].
  split_and?; auto. split; auto. intros _ t' l' b' Ot. cbn. destruct (Z.eqb_spec t' t) as [->|].
  - exists (set_refcount f (f_refcount f + c)). cbn. unfold REFCOUNT_MAX. split_and?; auto; lia.
  - destruct (Rf eq_refl t' l' b' Ot) as (f' & ? & ? & ?). exists f'. unfold REFCOUNT_MAX. split_and?; auto; lia.
Qed.
Lemma phys_small : 2 ^ phys_bits <= 2 ^ 63.
Proof. pose proof (ok_phys _ _ _ _ OK). apply Z.pow_le_mono_r; lia. Qed.

Section Round.
Context (l v : Z) (Hlo : level_ok P (supports_largepage_at_level_mask options) l) (Hl : 1 <= l <= top) (Hva : v mod 2 ^ shift l = 0) (Hpa : (p0 + (v - v0)) mod 2 ^ shift l = 0).

Lemma block_step s own w k count : upto s own v (k + count) -> standing s w v -> level w <= l -> 0 <= count -> 0 <= k ->
  index v l + count <= 2 ^ bits l -> v + count * 2 ^ shift l <= vend ->
  exists s1 s2, write_entries P (Z.to_nat count) s (tables w l + 8 * indices w l) (p0 + (v - v0)) (PAGE_SIZE_AT_LEVEL P l) (pte_flags_of P options l) =
      (s1, p0 + (v + count * 2 ^ shift l - v0)) /\
    (if negb early then table_ref_add s1 (tables w l) count else Ok s1) = Ok s2 /\
    upto s2 own (v + count * 2 ^ shift l) k /\ s_alloc s2 = s_alloc s /\
    (forall x j t, 0 <= x < 2 ^ va_bits P -> l <= j -> reaches (s_mem s) root x j t -> reaches (s_mem s2) root x j t) /\
    (forall x j t, 0 <= x < 2 ^ va_bits P -> reaches (s_mem s2) root x j t -> reaches (s_mem s) root x j t) /\
    (count = 0 -> s_mem s2 = s_mem s).
Proof.
  intros U St Hlev Hc Hk Hin Hend. pose proof (st_at _ _ _ St) as W. pose proof (st_range _ _ _ St) as Hr. pose proof (range_va v ltac:(lia)) as Hv.
  pose proof (at_tables _ _ _ _ _ _ W l ltac:(lia)) as R. rewrite (at_indices _ _ _ _ _ _ W l Hl). pose proof (index_bound P OK l v Hl) as Hi.
  pose proof (sp_tree _ _ _ _ _ _ _ (up_space _ _ _ _ U)) as TR. set (phys := p0 + (v - v0)) in *. pose proof phys_small. pose proof (shift_pos P OK l Hl).
  destruct (write_entries_spec P OK options l (Z.to_nat count) s (tables w l + 8 * index v l) phys) as (m' & Ew & Hw & Hout);
    rewrite ?Z2Nat.id in * by lia; auto; try lia.
  { intros j Hj. apply (pte_for_ok P OK options l _ Hf Hlo); [|rewrite Z.mod_add by lia; exact Hpa]. assert (0 < 2 ^ shift l) by lia. nia. }
  destruct (block_written P OK HHDM_OFFSET options l v count phys Hf Hlo Hl Hv Hva Hpa Hc Hin ltac:(lia) ltac:(lia) (s_mem s) m' own root (tables w l) TR R)
    as (TR' & Bdone & Brest & Bup & Binv).
  { intros j Hj. unfold entry. rewrite <- Hw by lia. f_equal. lia. }
  { intros x Hx. apply Hout. lia. }
  set (s1 := PtState m' (s_frames s) (s_alloc s) (s_delayed s)) in *. destruct (up_space _ _ _ _ U) as [_ N F Rf].
  assert (Sp1 : space s1 own (k + count)) by (split; auto).
  pose proof (reaches_own P OK HHDM_OFFSET _ _ _ TR _ _ _ Hv R) as O.
  destruct (ref_add_ok s1 own k (tables w l) l (tbl l v) count Sp1 O Hc Hk) as (s2 & Eref & Sp2 & Em & Ea).
  exists s1, s2. split; [rewrite Ew; f_equal; lia|]. split; [exact Eref|]. rewrite Em.
  split; [|split_and?; auto; intros E0; rewrite E0 in Ew; exact (f_equal s_mem (eq_sym (f_equal fst Ew)))].
  pose proof (up_range _ _ _ _ U). split; auto; [nia| |]; rewrite Em; cbn [s_mem s1].
  - intros x Hx. destruct (Z.lt_ge_cases x v) as [Hlt|Hge]; [|rewrite Bdone by lia; f_equal; lia].
    rewrite Brest by lia. apply (up_done _ _ _ _ U). lia.
  - intros x Hx Hno. rewrite Brest by (auto; lia). apply (up_rest _ _ _ _ U); [exact Hx|]. assert (0 < 2 ^ shift l) by lia. nia.
Qed.

Lemma same_level m w w' : at_pos m root w v -> at_pos m root w' v -> level w = level w'.
Proof. intros W W'. pose proof (at_pos_walk P HHDM_OFFSET _ _ _ _ W) as E. rewrite (at_pos_walk P HHDM_OFFSET _ _ _ _ W') in E. congruence. Qed.
Lemma block_addr i : v + i * 2 ^ shift l = entry_addr P l (tbl l v) (index v l + i).
Proof.
  unfold entry_addr. rewrite Z.add_assoc, <- (block_split P OK) by exact Hl. pose proof (shift_pos P OK l Hl).
  pose proof (Z.div_mod v (2 ^ shift l) ltac:(lia)) as D. rewrite Hva in D. lia.
Qed.
Lemma pages_left_block count : 0 <= count -> v + count * 2 ^ shift l <= vend -> 0 <= pages_left (v + count * 2 ^ shift l) <= pages_left v - count.
Proof.
  intros Hc He. pose proof (page_size_pos P OK). unfold pages_left. split; [apply Z.div_pos; lia|].
  pose proof (shift_mono P OK l Hl). pose proof (ok_shift_1 _ _ _ _ OK).
  assert (E : 2 ^ shift l = 2 ^ (shift l - shift 1) * PAGE_SIZE P) by (unfold PAGE_SIZE, PAGE_SHIFT; rewrite <- Z.pow_add_r by lia; f_equal; lia).
  assert (1 <= 2 ^ (shift l - shift 1)) by (pose proof (Z.pow_pos_nonneg 2 (shift l - shift 1) ltac:(lia) ltac:(lia)); lia).
  replace (vend - (v + count * 2 ^ shift l)) with ((vend - v) + (- (count * 2 ^ (shift l - shift 1))) * PAGE_SIZE P) by (rewrite E; ring).
  rewrite Z.div_add by lia. nia.
Qed.
(** Missing tables are filled in down to level [l]. *)
Lemma fill_step s own w : upto s own v (headroom v w) -> standing s w v ->
  exists s1 own1 w1, ptwalker_fill_in_to P HHDM_OFFSET alloc_table early_alloc_page s w l (negb early) false = Ok (E_PT_WALKER_OK, s1, w1) /\
    upto s1 own1 v (headroom v w1) /\ standing s1 w1 v /\ level w1 <= l.
Proof.
  intros U St. pose proof (st_range _ _ _ St) as Hr. pose proof (range_va v ltac:(lia)) as Hv. pose proof (st_pool _ _ _ St) as Hp.
  pose proof (tables_left_nonneg v ltac:(lia)). pose proof (at_level _ _ _ _ _ _ (st_at _ _ _ St)) as Hlv.
  assert (0 <= pages_left v) by (apply Z.div_pos; pose proof (page_size_pos P OK); lia). unfold need in Hp.
  destruct (ptwalker_fill_in_to_ok P OK HHDM_OFFSET Hhhdm Hpage alloc_table early_alloc_page root early Hsource false l s own
    (headroom v w - Z.max 0 (level w - l)) v w) as (s1 & own1 & w1 & E & Sp1 & G & At1 & Lv1 & (_ & Cb1 & _) & Lp1); auto; unfold headroom, need in *; try lia.
  { apply St. }
  { replace (pages_left v + (tables_left v + (level w - 1)) - Z.max 0 (level w - l) + Z.max 0 (level w - l))
      with (pages_left v + (tables_left v + (level w - 1))) by lia. apply U. }
  { apply St. }
  { apply (upto_free s own v _ v U). lia. }
  exists s1, own1, w1. split; [exact E|]. split; [|split; [|lia]].
  - replace (pages_left v + (tables_left v + (level w1 - 1))) with (pages_left v + (tables_left v + (level w - 1)) - Z.max 0 (level w - l)) by lia.
    split; [exact Sp1|apply U| |].
    + intros x Hx. rewrite (gr_translate _ _ _ _ _ _ G) by (apply range_va; lia). apply (up_done _ _ _ _ U x Hx).
    + intros x Hx Hno. rewrite (gr_translate _ _ _ _ _ _ G) by exact Hx. apply (up_rest _ _ _ _ U x Hx Hno).
  - split; auto; [apply St|rewrite Cb1; apply St| |unfold need; lia]. eapply grown_clean; eauto; [lia|apply St].
Qed.

(** The walker moves on past the block. *)
Lemma move_step s s2 own w count : standing s w v -> level w <= l -> 0 <= count -> index v l + count <= 2 ^ bits l ->
  v + count * 2 ^ shift l <= vend -> upto s2 own (v + count * 2 ^ shift l) (headroom v w - count) -> s_alloc s2 = s_alloc s ->
  (forall x j t, 0 <= x < 2 ^ va_bits P -> l <= j -> reaches (s_mem s) root x j t -> reaches (s_mem s2) root x j t) ->
  (forall x j t, 0 <= x < 2 ^ va_bits P -> reaches (s_mem s2) root x j t -> reaches (s_mem s) root x j t) ->
  (count = 0 -> s_mem s2 = s_mem s) ->
  exists w', ptwalker_next_with_options P HHDM_OFFSET alloc_table early_alloc_page s2 (set_index w l (u16 (indices w l + count - 1))) l
      (iterate_options_of options) = Ok (E_PT_WALKER_OK, s2, w') /\
    progress s2 own w' (v + count * 2 ^ shift l).
Proof.
  intros St Hlev Hc Hin Hend U2 Ea Rup Rinv Em. pose proof (st_at _ _ _ St) as W. pose proof (st_range _ _ _ St) as Hr.
  pose proof (range_va v ltac:(lia)) as Hv. pose proof (at_level _ _ _ _ _ _ W) as Hlv. pose proof (index_bound P OK l v Hl) as Hi.
  destruct (u16_count P OK l Hl) as (_ & E16). pose proof (shift_pos P OK l Hl) as Hs. pose proof (pages_left_block count Hc Hend) as Hpl.
  set (v' := v + count * 2 ^ shift l) in *. set (w1 := set_index w l _).
  assert (Ei : u16 (indices w1 l + 1) = index v l + count).
  { cbn. rewrite Z.eqb_refl, (at_indices _ _ _ _ _ _ W l Hl). unfold wrap. rewrite Zplus_mod_idemp_l. rewrite Z.mod_small; lia. }
  assert (Hlv1 : 1 <= level w1 <= l) by (cbn; lia).
  assert (Lw : leaving P HHDM_OFFSET s2 root w1 v l).
  { split; [apply W|intros j Hj; cbn; apply Rup; auto; [lia|apply W; lia]|]. intros j Hj. cbn. destruct (Z.eqb_spec j l); [lia|]. apply W. lia. }
  destruct (ptwalker_next_ok P OK HHDM_OFFSET Hhhdm s2 own root (sp_tree _ _ _ _ _ _ _ (up_space _ _ _ _ U2)) alloc_table early_alloc_page
    (iterate_options_of options) l v (index v l + count) w1) as (w' & En & (Ht & Hcb & _) & (Hl' & Hm) & Hat); auto; try lia.
  { intros j Hj. cbn. destruct (Z.eqb_spec j l); [lia|]. rewrite (at_indices _ _ _ _ _ _ W) by lia. apply (aligned_low P OK v l); auto. lia. }
  { rewrite <- block_addr. fold v'. lia. }
  rewrite <- block_addr in Hm, Hat. fold v' in Hm, Hat. exists w'. split; [exact En|].
  destruct (Z.eq_dec v' vend) as [Ev|Ev].
  { right. split; [exact Ev|]. destruct U2 as [Sp ? ? ?]. split; auto. eapply space_weaken; [|exact Sp].
    unfold headroom, need. pose proof (tables_left_nonneg v ltac:(lia)). lia. }
  assert (At' : at_pos (s_mem s2) root w' v').
  { apply Hat. destruct (Z.eq_dec count 0); [left; lia|right]. intros j t Hj Hmj Rx. apply Rinv in Rx; [|lia].
    eapply (st_clean _ _ _ St v'); eauto. unfold v'. assert (0 < 2 ^ shift l) by lia. nia. }
  assert (Hneed : need v' w' <= need v w).
  { unfold need. destruct (Z.eq_dec count 0) as [E0|E0].
    - assert (Evv : v' = v) by (unfold v'; rewrite E0; lia). rewrite Evv in *. rewrite (Em E0) in At'. rewrite (same_level _ _ _ W At'). lia.
    - pose proof (tables_left_move (level w') v v' Hl' ltac:(unfold v'; assert (0 < 2 ^ shift l) by lia; nia) Hm). lia. }
  left. split; [lia|]. split.
  - destruct U2 as [Sp ? ? ?]. split; auto. eapply space_weaken; [|exact Sp]. unfold headroom. lia.
  - split; auto.
    + unfold v'. assert (0 < 2 ^ shift l) by lia. nia.
    + apply (mod_lower P OK 1 l v'); [lia|lia|]. unfold v'. rewrite Z.mod_add by lia. exact Hva.
    + rewrite Hcb. apply St.
    + intros g Hg j t Hj Hmj Rx. apply Rinv in Rx; [|lia]. eapply (st_clean _ _ _ St g); eauto. unfold v' in Hg. assert (0 < 2 ^ shift l) by lia. nia.
    + rewrite Ea. pose proof (st_pool _ _ _ St). lia.
Qed.
End Round.

(** ** The loops *)

Definition leaves (l : Z) : Z := 2 ^ (shift l - shift 1).
Lemma leaves_pages l : 1 <= l <= top -> PAGE_COUNT P (PAGE_SIZE_AT_LEVEL P l) = leaves l /\ 1 <= leaves l /\ 2 ^ shift l = leaves l * PAGE_SIZE P.
Proof.
  intros Hl. pose proof (shift_mono P OK l Hl). pose proof (ok_shift_1 _ _ _ _ OK). unfold PAGE_COUNT, PAGE_SIZE_AT_LEVEL, PAGE_SIZE, PAGE_SHIFT, leaves.
  pose proof (Z.pow_pos_nonneg 2 (shift l - shift 1) ltac:(lia) ltac:(lia)).
  assert (E : 2 ^ shift l = 2 ^ (shift l - shift 1) * 2 ^ shift 1) by (rewrite <- Z.pow_add_r by lia; f_equal; lia).
  split; [|split; [lia|exact E]]. rewrite Z.shiftr_div_pow2, E by lia. apply Z.div_mul. lia.
Qed.
Lemma va_small : 2 ^ va_bits P <= 2 ^ 63.
Proof. destruct (ok_va _ _ _ _ OK). apply Z.pow_le_mono_r; lia. Qed.
Lemma entries_in_table_ok m own t l b i n : tree m own root -> own t = Some (l, b) -> 0 <= i < 2 ^ bits l -> 0 <= n -> n * PAGE_SIZE P <= 2 ^ va_bits P ->
  entries_in_table P t i n l = Ok (Z.min n (2 ^ bits l - i)).
Proof.
  intros TR O Hi Hn Hb. destruct (t_page _ _ _ _ _ TR _ _ _ O) as (Hl & _ & Hlo & Hhi). destruct (u16_count P OK l Hl) as (Ecount & _).
  pose proof (slot_inside P OK l i Hl Hi). pose proof (page_size_pos P OK). pose proof (shift_le_va P OK l Hl). pose proof (shift_pos P OK l Hl).
  pose proof (bits_pos P OK l Hl). assert (E : 2 ^ va_bits P = 2 ^ (va_bits P - 9) * 512) by (change 512 with (2 ^ 9); rewrite <- Z.pow_add_r by lia; f_equal; lia).
  assert (8 * n <= 2 ^ (va_bits P - 9)) by nia. unfold entries_in_table. rewrite Ecount, wrap_small by (unfold is_u; lia).
  destruct (Z.min_spec n (2 ^ bits l - i)) as [(? & ->)|(? & ->)].
  - rewrite Z.min_l by lia. destruct (Z.ltb_spec (t + 8 * i + 8 * n) (t + 8 * i)); [lia|]. f_equal.
    replace (t + 8 * i + 8 * n - (t + 8 * i)) with (n * 8) by lia. apply Z.div_mul. lia.
  - rewrite Z.min_r by lia. destruct (Z.ltb_spec (t + 8 * 2 ^ bits l) (t + 8 * i)); [lia|]. f_equal.
    replace (t + 8 * 2 ^ bits l - (t + 8 * i)) with ((2 ^ bits l - i) * 8) by lia. apply Z.div_mul. lia.
Qed.

Lemma write_ptes_loop_ok l fuel s own w v n remaining : level_ok P (supports_largepage_at_level_mask options) l -> 1 <= l <= top -> v mod 2 ^ shift l = 0 ->
  (p0 + (v - v0)) mod 2 ^ shift l = 0 -> (Z.to_nat n < fuel)%nat -> upto s own v (headroom v w) -> standing s w v -> 0 <= n ->
  v + n * 2 ^ shift l <= vend -> n * leaves l <= remaining < 2 ^ 64 ->
  exists s' own' w', write_ptes_loop P HHDM_OFFSET alloc_table early_alloc_page fuel s w l options (p0 + (v - v0)) n remaining =
      Ok (Written (p0 + (v + n * 2 ^ shift l - v0)) (remaining - n * leaves l) s' w') /\
    progress s' own' w' (v + n * 2 ^ shift l).
Proof.
  intros Hlo Hl. destruct (leaves_pages l Hl) as (Ec & Hc1 & Epg). pose proof (page_size_pos P OK) as Hps. pose proof va_small as Hvs.
  assert (Hpg : PAGE_SIZE P <= 2 ^ shift l) by (rewrite Epg; nia). revert s own w v n remaining.
  induction fuel as [|fuel IH]; intros s own w v n remaining Hva Hpa Hfuel U St Hn Hend Hrem; [lia|].
  destruct (fill_step l v Hl s own w U St) as (s1 & own1 & w1 & Ef & U1 & St1 & Hl1). pose proof (st_at _ _ _ St1) as W1.
  pose proof (st_range _ _ _ St1) as Hr. pose proof (range_va v ltac:(lia)) as Hv. pose proof (sp_tree _ _ _ _ _ _ _ (up_space _ _ _ _ U1)) as TR1.
  pose proof (at_tables _ _ _ _ _ _ W1 l ltac:(lia)) as R1. pose proof (reaches_own P OK HHDM_OFFSET _ _ _ TR1 _ _ _ Hv R1) as O1.
  pose proof (index_bound P OK l v Hl) as Hi. pose proof (at_indices _ _ _ _ _ _ W1 l Hl) as Ei. destruct (u16_count P OK l Hl) as (_ & E16).
  set (count := Z.min n (2 ^ bits l - index v l)). assert (Hcnt : 0 <= count <= n) by lia. assert (Hb : v + count * 2 ^ shift l <= vend) by nia.
  assert (Hh : count <= headroom v w1).
  { pose proof (pages_left_block l v Hl count ltac:(lia) Hb). pose proof (tables_left_nonneg v ltac:(lia)). pose proof (at_level _ _ _ _ _ _ W1).
    unfold headroom, need. lia. }
  replace (headroom v w1) with (headroom v w1 - count + count) in U1 by lia.
  destruct (block_step l v Hlo Hl Hva Hpa s1 own1 w1 (headroom v w1 - count) count U1 St1 Hl1) as (s2 & s3 & Ew & Er & U3 & Ea & Rup & Rinv & Em);
    try lia.
  destruct (move_step l v Hl Hva s1 s3 own1 w1 count St1 Hl1) as (w3 & En & Pr); auto; try lia.
  cbn [write_ptes_loop]. rewrite Ef. cbn [mbind outcome_bind]. unfold pte_ptr. rewrite (reaches_nonzero P OK HHDM_OFFSET Hhhdm _ _ _ TR1 v _ _ Hv R1).
  cbn [mbind outcome_bind]. rewrite Ei in *. rewrite (entries_in_table_ok _ _ _ _ _ _ _ TR1 O1 Hi Hn ltac:(nia)). cbn [mbind outcome_bind]. fold count.
  rewrite Ew. rewrite (wrap_small 16 count) by (unfold is_u; lia). rewrite Er. cbn [mbind outcome_bind]. rewrite En. cbn [mbind outcome_bind].
  rewrite Ec. unfold check_mul_assert_w, check_mul_w. rewrite fits_ok by (unfold is_u; nia). cbn [assert_some mbind outcome_bind].
  assert (Hlc : 0 <= leaves l * count <= n * leaves l) by (clear - Hcnt Hc1; nia). assert (Hn64 : n < 2 ^ 64) by (clear - Hrem Hc1 Hn; nia).
  rewrite (wrap_small 64 (n - count)) by (unfold is_u; lia). rewrite (wrap_small 64 (remaining - leaves l * count)) by (unfold is_u; lia).
  destruct (Z.eqb_spec (n - count) 0) as [E0|E0].
  - replace count with n in * by lia. exists s3, own1, w3. split; [|exact Pr]. do 2 f_equal. lia.
  - assert (Hmul : n * 2 ^ shift l = count * 2 ^ shift l + (n - count) * 2 ^ shift l) by ring.
    assert (0 < (n - count) * 2 ^ shift l) by (apply Z.mul_pos_pos; lia). destruct Pr as [(Hv' & U' & St')|(Ev & _)]; [|lia].
    assert (count <> 0) by lia.
    destruct (IH s3 own1 w3 (v + count * 2 ^ shift l) (n - count) (remaining - leaves l * count)) as (s' & own' & w' & E & Pr'); auto; try lia.
    { rewrite Z.mod_add by lia. exact Hva. }
    { replace (p0 + (v + count * 2 ^ shift l - v0)) with (p0 + (v - v0) + count * 2 ^ shift l) by lia. rewrite Z.mod_add by lia. exact Hpa. }
    exists s', own', w'. replace (v + n * 2 ^ shift l) with (v + count * 2 ^ shift l + (n - count) * 2 ^ shift l) by lia.
    split; [|exact Pr']. rewrite E. do 2 f_equal. ring.
Qed.

(** ** The pages left *)

Lemma pages_left_exact v : v mod PAGE_SIZE P = 0 -> 0 <= v <= vend -> vend - v = pages_left v * PAGE_SIZE P /\ 0 <= pages_left v < 2 ^ 52.
Proof.
  intros Hm Hv. pose proof (page_size_pos P OK) as Hps. pose proof va_small as Hvs. unfold pages_left.
  assert (E : (vend - v) mod PAGE_SIZE P = 0) by (rewrite Zminus_mod, Hm, Hvea; apply Z.mod_0_l; lia).
  pose proof (Z.div_mod (vend - v) (PAGE_SIZE P) ltac:(lia)) as D. rewrite E in D. split; [lia|].
  split; [apply Z.div_pos; lia|]. apply Z.div_lt_upper_bound; [lia|]. clear - Hps Hvs Hv Hvend. nia.
Qed.
Lemma progress_align s own w v : progress s own w v -> v mod PAGE_SIZE P = 0 /\ v0 <= v <= vend.
Proof. intros [(_ & U & St)|(-> & U)]; split; auto; try apply St; try apply U; lia. Qed.
Lemma progress_left s own w v : progress s own w v -> pages_left v <> 0 -> upto s own v (headroom v w) /\ standing s w v.
Proof.
  intros [(_ & U & St)|(-> & U)] Hne; [auto|]. exfalso. apply Hne. unfold pages_left. rewrite Z.sub_diag. reflexivity.
Qed.
Lemma progress_done s own w v : progress s own w v -> pages_left v = 0 -> v = vend /\ upto s own vend 0.
Proof.
  intros [(Hv & U & St)|(-> & U)] E; [|auto]. exfalso. pose proof (st_range _ _ _ St).
  destruct (pages_left_exact v (st_align _ _ _ St) ltac:(lia)) as (D & _). rewrite E in D. lia.
Qed.

Section Fuel.
Context (fuel : nat).
Abbreviation write_at s w l phys cnt rem := (write_ptes_at_level P HHDM_OFFSET alloc_table early_alloc_page fuel s w l options phys cnt rem).
Abbreviation lok l := (level_ok P (supports_largepage_at_level_mask options) l).

Lemma write_at_ok l s own w v cnt : lok l -> 1 <= l <= top -> v mod 2 ^ shift l = 0 -> (p0 + (v - v0)) mod 2 ^ shift l = 0 ->
  pages_left v < Z.of_nat fuel -> upto s own v (headroom v w) -> standing s w v -> 0 <= cnt <= pages_left v ->
  exists s' own' w' v', write_at s w l (p0 + (v - v0)) cnt (pages_left v) = Ok (Written (p0 + (v' - v0)) (pages_left v') s' w') /\
    progress s' own' w' v' /\ v' = v + cnt / leaves l * 2 ^ shift l /\ pages_left v' = pages_left v - cnt / leaves l * leaves l /\
    v' mod 2 ^ shift l = 0 /\ (p0 + (v' - v0)) mod 2 ^ shift l = 0.
Proof.
  intros Hlo Hl Hva Hpa Hfuel U St Hc. destruct (leaves_pages l Hl) as (Ec & Hc1 & Epg). pose proof (page_size_pos P OK) as Hps.
  pose proof (st_range _ _ _ St). destruct (pages_left_exact v (st_align _ _ _ St) ltac:(lia)) as (D & Hpl).
  set (n := cnt / leaves l). assert (Hn : 0 <= n /\ n * leaves l <= cnt).
  { unfold n. pose proof (Z.mul_div_le cnt (leaves l) ltac:(lia)). split; [apply Z.div_pos; lia|lia]. }
  assert (Hend : v + n * 2 ^ shift l <= vend).
  { rewrite Epg, Z.mul_assoc. assert (n * leaves l * PAGE_SIZE P <= pages_left v * PAGE_SIZE P) by (apply Z.mul_le_mono_nonneg_r; lia). lia. }
  destruct (write_ptes_loop_ok l fuel s own w v n (pages_left v)) as (s' & own' & w' & E & Pr); auto; try lia; [clear - Hn Hc1 Hc Hfuel; nia|].
  assert (El : pages_left (v + n * 2 ^ shift l) = pages_left v - n * leaves l).
  { unfold pages_left at 1. replace (vend - (v + n * 2 ^ shift l)) with ((pages_left v - n * leaves l) * PAGE_SIZE P) by (rewrite Epg; lia).
    apply Z.div_mul. lia. }
  exists s', own', w', (v + n * 2 ^ shift l). unfold write_ptes_at_level. rewrite Ec. fold n. rewrite E, El. pose proof (shift_pos P OK l Hl).
  replace (p0 + (v + n * 2 ^ shift l - v0)) with (p0 + (v - v0) + n * 2 ^ shift l) by lia. rewrite !Z.mod_add by lia. split_and?; auto.
Qed.

(** ** Smaller pages for the rest *)

Lemma lower_level_ok n l size_remaining : 2 <= l -> l <= Z.of_nat n ->
  exists l', lower_level P n l size_remaining (supports_largepage_at_level_mask options) = Ok l' /\ 1 <= l' < l /\ lok l'.
Proof.
  revert l. induction n as [|n IH]; intros l Hl Hn; [lia|]. cbn [lower_level]. destruct (Z.eqb_spec (l - 1) 1) as [E|E]; cbn [orb].
  { exists (l - 1). split; [reflexivity|]. split; [lia|left; exact E]. }
  destruct (usable_level P _ (l - 1)) eqn:Hu; cbn [andb].
  - destruct (PAGE_SIZE_AT_LEVEL P (l - 1) <=? size_remaining).
    + exists (l - 1). split; [reflexivity|]. split; [lia|right; split; [lia|exact Hu]].
    + destruct (IH (l - 1)) as (l' & -> & ? & ?); [lia|lia|]. exists l'. split_and?; auto; lia.
  - destruct (IH (l - 1)) as (l' & -> & ? & ?); [lia|lia|]. exists l'. split_and?; auto; lia.
Qed.
Lemma not_failed v : v0 <= v <= vend -> (p0 + (v - v0) =? UINT64_MAX) = false.
Proof. intros Hv. pose proof phys_small. apply Z.eqb_neq. unfold UINT64_MAX. lia. Qed.
Lemma leaves_1 : leaves 1 = 1.
Proof. unfold leaves. rewrite Z.sub_diag. reflexivity. Qed.

Lemma write_down_ok levels l s own w v size_remaining : l <= Z.of_nat levels -> 2 <= l <= top -> v mod 2 ^ shift l = 0 ->
  (p0 + (v - v0)) mod 2 ^ shift l = 0 -> pages_left v < Z.of_nat fuel -> upto s own v (headroom v w) -> standing s w v ->
  exists s' own' w', write_down_loop P HHDM_OFFSET alloc_table early_alloc_page levels fuel (Written (p0 + (v - v0)) (pages_left v) s w)
      l size_remaining options = Ok (Written (p0 + (vend - v0)) 0 s' w') /\ upto s' own' vend 0.
Proof.
  revert l s own w v. induction levels as [|levels IH]; intros l s own w v Hlv Hl Hva Hpa Hfuel U St; [lia|]. cbn [write_down_loop].
  destruct (lower_level_ok (Z.to_nat l) l size_remaining ltac:(lia) ltac:(lia)) as (l' & -> & Hl' & Hlo). cbn [mbind outcome_bind wr_state wr_walker wr_phys wr_remaining].
  pose proof (st_range _ _ _ St). destruct (pages_left_exact v (st_align _ _ _ St) ltac:(lia)) as (_ & Hpl).
  pose proof (mod_lower P OK l' l v ltac:(lia) ltac:(lia) Hva) as Hva'. pose proof (mod_lower P OK l' l _ ltac:(lia) ltac:(lia) Hpa) as Hpa'.
  destruct (write_at_ok l' s own w v (pages_left v)) as (s1 & own1 & w1 & v1 & -> & Pr & Ev1 & El1 & Av & Ap); auto; try lia. cbn [mbind outcome_bind wr_phys wr_remaining].
  destruct (progress_align _ _ _ _ Pr) as (_ & Hv1). rewrite not_failed by exact Hv1. cbn [orb].
  pose proof (leaves_pages l' ltac:(lia)) as (_ & Hlc & _). destruct (Z.eqb_spec (pages_left v1) 0) as [E0|E0].
  - destruct (progress_done _ _ _ _ Pr E0) as (Ev & U'). exists s1, own1, w1. rewrite E0, Ev. auto.
  - destruct (progress_left _ _ _ _ Pr E0) as (U1 & St1).
    assert (2 <= l') by (destruct (Z.eq_dec l' 1) as [E1|]; [exfalso; apply E0; rewrite El1, E1, leaves_1, Z.div_1_r; lia|lia]).
    apply (IH l' s1 own1 w1 v1); auto; try lia.
    pose proof (Z.div_pos (pages_left v) (leaves l') ltac:(lia) ltac:(lia)). assert (0 <= pages_left v / leaves l' * leaves l') by nia. lia.
Qed.
Lemma write_down_from_ok l s own w v : lok l -> 1 <= l <= top -> v mod 2 ^ shift l = 0 -> (p0 + (v - v0)) mod 2 ^ shift l = 0 ->
  pages_left v < Z.of_nat fuel -> upto s own v (headroom v w) -> standing s w v ->
  exists s' own' w', write_ptes_down_from_level P HHDM_OFFSET alloc_table early_alloc_page fuel s w l options (p0 + (v - v0)) (pages_left v) =
      Ok (Written (p0 + (vend - v0)) 0 s' w') /\ upto s' own' vend 0.
Proof.
  intros Hlo Hl Hva Hpa Hfuel U St. pose proof (st_range _ _ _ St). destruct (pages_left_exact v (st_align _ _ _ St) ltac:(lia)) as (_ & Hpl).
  unfold write_ptes_down_from_level. destruct (write_at_ok l s own w v (pages_left v)) as (s1 & own1 & w1 & v1 & -> & Pr & Ev1 & El1 & Av & Ap); auto; try lia.
  cbn [mbind outcome_bind wr_phys wr_remaining wr_state wr_walker]. destruct (progress_align _ _ _ _ Pr) as (Av1 & Hv1). rewrite not_failed by exact Hv1. cbn [orb].
  destruct (pages_left_exact v1 Av1 ltac:(lia)) as (D1 & Hp1).
  pose proof (leaves_pages l ltac:(lia)) as (_ & Hlc & _). destruct (Z.eqb_spec (pages_left v1) 0) as [E0|E0].
  - destruct (progress_done _ _ _ _ Pr E0) as (Ev & U'). exists s1, own1, w1. rewrite E0, Ev. auto.
  - destruct (progress_left _ _ _ _ Pr E0) as (U1 & St1). unfold check_mul_assert_w, check_mul_w. pose proof va_small.
    rewrite fits_ok by (unfold is_u; lia). cbn [assert_some mbind outcome_bind].
    assert (2 <= l) by (destruct (Z.eq_dec l 1) as [E1|]; [exfalso; apply E0; rewrite El1, E1, leaves_1, Z.div_1_r; lia|lia]).
    apply (write_down_ok (Z.to_nat l) l s1 own1 w1 v1); auto; try lia.
    pose proof (Z.div_pos (pages_left v) (leaves l) ltac:(lia) ltac:(lia)). assert (0 <= pages_left v / leaves l * leaves l) by nia. lia.
Qed.
End Fuel.

(** ** All of the range *)

Context (virt : Z) (Hvirt : 0 <= virt) (Hv0v : v0 = va P virt) (Hvs : virt + (vend - v0) < 2 ^ 64).
#[local] Abbreviation lok l := (level_ok P (supports_largepage_at_level_mask options) l).
#[local] Abbreviation phys_range := (Range p0 (vend - v0)).

Lemma virt_aligned l d : 1 <= l <= top -> (virt + d) mod 2 ^ shift l = 0 -> (v0 + d) mod 2 ^ shift l = 0.
Proof. intros Hl. rewrite <- Zplus_mod_idemp_l, <- (va_offset P OK virt l Hl), <- Hv0v, Zplus_mod_idemp_l. auto. Qed.

Lemma phys_aligned v : v mod PAGE_SIZE P = 0 -> (p0 + (v - v0)) mod PAGE_SIZE P = 0.
Proof. intros Hm. pose proof (page_size_pos P OK). rewrite Z.add_mod, Zminus_mod, Hm, Hv0a, Hp0a by lia. rewrite Z.mod_0_l by lia. reflexivity. Qed.
Lemma pgmap_loop_ok fuel s own w v : pages_left v < Z.of_nat fuel -> upto s own v (headroom v w) -> standing s w v ->
  exists l s' own' w' v', pgmap_loop P HHDM_OFFSET alloc_table early_alloc_page fuel (Written (p0 + (v - v0)) (pages_left v) s w) phys_range virt options =
      Ok (Some l, Written (p0 + (v' - v0)) (pages_left v') s' w') /\
    upto s' own' v' (headroom v' w') /\ standing s' w' v' /\ pages_left v' <= pages_left v /\
    lok l /\ 1 <= l <= top /\ v' mod 2 ^ shift l = 0 /\ (p0 + (v' - v0)) mod 2 ^ shift l = 0.
Proof.
  revert s own w v. induction fuel as [|fuel IH]; intros s own w v Hfuel U St;
    (pose proof (st_range _ _ _ St) as Hr; destruct (pages_left_exact v (st_align _ _ _ St) ltac:(lia)) as (D & Hpl)); [lia|].
  pose proof phys_small. pose proof va_small. pose proof (st_at _ _ _ St) as W. cbn [pgmap_loop wr_walker wr_phys wr_remaining wr_state].
  replace (u64 (p0 + (v - v0) - front phys_range)) with (v - v0) by (cbn; rewrite wrap_small by (unfold is_u; lia); lia).
  destruct (find_highest_ok P OK (supports_largepage_at_level_mask options) p0 (vend - v0) (v - v0) Hp0 ltac:(lia) ltac:(lia) w v)
    as (l & -> & Hlo & Hl & Hva & Hpa & Hfit & Hmax); auto; try lia; try apply W; [apply St|apply phys_aligned, St|].
  cbn [mbind outcome_bind].
  destruct (until_next_large_ok P OK (supports_largepage_at_level_mask options) p0 (vend - v0) (v - v0) Hp0 ltac:(lia) ltac:(lia) virt Hvirt Hvs ltac:(lia) l Hl)
    as (until & -> & Hu). cbn [mbind outcome_bind].
  destruct (Z.leb_spec (pages_left v) until) as [Hle|Hgt].
  { exists l, s, own, w, v. split_and?; auto; lia. }
  destruct Hu as [->|(N & d & HN & HuN & Hd & -> & Hpd & Hvd & Hfd)]; [unfold UINT64_MAX in Hgt; lia|].
  rewrite <- Z.add_assoc in Hvd. apply (virt_aligned N _ ltac:(lia)) in Hvd. replace (v0 + (v - v0 + d)) with (v + d) in Hvd by lia.
  assert (Hd0 : d <> 0).
  { intros ->. rewrite Z.add_0_r in *. apply (Hmax N); auto. unfold fits_at. split_and?; auto; lia. }
  pose proof (shift_pos P OK l Hl). pose proof (shift_pos P OK N ltac:(lia)). destruct (leaves_pages l Hl) as (_ & Hlc & Epg).
  pose proof (page_size_pos P OK) as Hps. pose proof (mod_lower P OK l N (v + d) ltac:(lia) ltac:(lia) Hvd) as Hvd'.
  rewrite Z.add_mod, Hva, Z.add_0_l, Zmod_mod in Hvd' by lia. pose proof (Z.div_mod d (2 ^ shift l) ltac:(lia)) as Dd. rewrite Hvd' in Dd.
  set (q := d / 2 ^ shift l) in *. assert (Hq : 1 <= q) by (clear - Dd Hd Hd0 H1; nia).
  assert (Ed : PAGE_COUNT P d = q * leaves l).
  { unfold PAGE_COUNT. rewrite Z.shiftr_div_pow2 by (unfold PAGE_SHIFT; pose proof (ok_shift_1 _ _ _ _ OK); lia). fold (PAGE_SIZE P).
    replace d with (q * leaves l * PAGE_SIZE P) by (rewrite Dd, Epg; ring). apply Z.div_mul. lia. }
  destruct (write_at_ok (S fuel) l s own w v (PAGE_COUNT P d)) as (s1 & own1 & w1 & v1 & -> & Pr & Ev1 & El1 & Av & Ap); auto; try lia.
  rewrite Ed, Z.div_mul in * by lia. cbn [mbind outcome_bind wr_phys]. destruct (progress_align _ _ _ _ Pr) as (_ & Hv1). rewrite not_failed by exact Hv1.
  assert (Hne : pages_left v1 <> 0). { intros E0. destruct (progress_done _ _ _ _ Pr E0) as (E1 & _). lia. }
  destruct (progress_left _ _ _ _ Pr Hne) as (U1 & St1). assert (1 <= q * leaves l) by (clear - Hq Hlc; nia).
  destruct (IH s1 own1 w1 v1 ltac:(lia) U1 St1) as (l2 & s2 & own2 & w2 & v2 & -> & ? & ? & ? & ? & ? & ? & ?).
  exists l2, s2, own2, w2, v2. split_and?; auto; lia.
Qed.

Lemma pgmap_with_ptwalker_ok fuel s own w : pages_left v0 < Z.of_nat fuel -> upto s own v0 (headroom v0 w) -> standing s w v0 ->
  exists s' own' w', pgmap_with_ptwalker P HHDM_OFFSET alloc_table early_alloc_page fuel options s w (Some CURRENT_SPLIT_INFO_INIT) phys_range virt =
      Ok (Mapped true s' w' (Some CURRENT_SPLIT_INFO_INIT)) /\ upto s' own' vend 0.
Proof.
  intros Hfuel U St. unfold pgmap_with_ptwalker. cbn [pgmap_rec front size].
  replace (PAGE_COUNT P (vend - v0)) with (pages_left v0).
  2:{ unfold pages_left, PAGE_COUNT. rewrite Z.shiftr_div_pow2 by (unfold PAGE_SHIFT; pose proof (ok_shift_1 _ _ _ _ OK); lia). reflexivity. }
  destruct (pgmap_loop_ok fuel s own w v0 Hfuel U St) as (l & s1 & own1 & w1 & v1 & E1 & U1 & St1 & Hle & Hlo & Hl & Hva & Hpa).
  rewrite Z.sub_diag, Z.add_0_r in E1. rewrite E1. cbn [mbind outcome_bind wr_state wr_walker wr_phys wr_remaining].
  destruct (write_down_from_ok fuel l s1 own1 w1 v1 Hlo Hl Hva Hpa ltac:(lia) U1 St1) as (s2 & own2 & w2 & -> & U2).
  cbn [mbind outcome_bind wr_state wr_walker wr_phys]. rewrite not_failed by lia. cbn [finish_split_info is_active CURRENT_SPLIT_INFO_INIT negb mbind outcome_bind].
  exists s2, own2, w2. auto.
Qed.
End Mapping.

(** ** [pgmap_at] *)

Section At.
Context (P : paging) {phys_bits : Z} {leaf_ok large_ok : Z -> Prop} (OK : paging_ok P phys_bits leaf_ok large_ok).
Context (HHDM_OFFSET : Z) (Hhhdm : 0 <= HHDM_OFFSET) (Hpage : HHDM_OFFSET mod PAGE_SIZE P = 0) {A : Type}.
Context (alloc_table early_alloc_page : A -> mem -> outcome (option Z * A * mem)) (free_page : A -> Z -> outcome A).
Context (options : pgmap_options) {source : A -> mem -> outcome (option Z * A * mem)} {TS : TableSource (PAGE_SIZE P) HHDM_OFFSET source}.
Context (Hsource : source = if is_in_early options then early_alloc_page else alloc_table).

(** The tables a range of [size] bytes at [v] may need. *)
Definition tables_needed (v size : Z) : Z :=
  tables_between P (Z.to_nat (pgt_get_top_level P - 1)) v (v + size - 1) + (pgt_get_top_level P - 1).
(** The range is page aligned, is not at address 0 of the address space, ends before its last
    page, and is not mapped; no table of level 2 or more begins inside it; there are enough
    pages for tables, and references left. *)
Record can_map (s : pt_state A) (own : ownership) (root virt : Z) (r : range) : Prop := {
  cm_virt : 0 <= virt /\ virt mod PAGE_SIZE P = 0 /\ virt + size r < 2 ^ 64;
  cm_phys : 0 <= front r /\ front r mod PAGE_SIZE P = 0 /\ front r + size r <= 2 ^ phys_bits;
  cm_size : 0 < size r /\ size r mod PAGE_SIZE P = 0;
  cm_va : 0 < va P virt /\ va P virt + size r < 2 ^ va_bits P;
  cm_free : forall x, va P virt <= x < va P virt + size r -> translate P HHDM_OFFSET (s_mem s) root x = None;
  cm_clean : forall g, va P virt < g < va P virt + size r -> no_table_begins P HHDM_OFFSET root (s_mem s) g;
  cm_space : space P HHDM_OFFSET root (is_in_early options) (phys_bits := phys_bits) s own (size r / PAGE_SIZE P + tables_needed (va P virt) (size r));
  cm_pool : tables_needed (va P virt) (size r) <= Z.of_nat (length (pool (s_alloc s))) }.

Lemma mappable_ok s own root virt r : can_map s own root virt r -> mappable P r virt = Ok true.
Proof.
  intros [(Hv & Hva & Hve) (Hp & Hpa & Hpe) (Hs & Hsa) _ _ _ _ _]. pose proof (phys_small P OK). unfold mappable, range_empty, range_overflows.
  destruct (Z.eqb_spec (size r) 0); [lia|]. unfold check_add_w. cbn [front size]. rewrite !fits_ok by (unfold is_u; lia). unfold range_has_align.
  rewrite !has_align_pow2 by exact (page_pow2 P OK). rewrite Hpa. cbn [mbind outcome_bind Z.eqb]. rewrite Hsa. cbn [mbind outcome_bind Z.eqb negb].
  rewrite Hva. reflexivity.
Qed.

End At.
