(* ===== verification/PgmapDemo.v ===== *)
(** * Mappings that are made, and defects of mapping

    A small x86-64 machine, with tables taken from a list of pages, shows what [pgmap_at]
    does: the example of [pgmap_at_maps], and the ranges outside of its conditions that are
    mapped wrongly, not at all, or never. *)

From S2P Require Import Prelude Mem Arith Range Refcount Hhdm Paging Walker PageTable WalkerFacts TableFill Pgmap PgmapLevels PgmapFacts.

Definition demo_paging : paging := X86_64.x86_64_paging false false.
Definition demo_hhdm : Z := 0xffff800000000000.
Definition demo_root_phys : Z := 0x100000.
Definition demo_root : Z := demo_hhdm + demo_root_phys.

(** Tables are taken from a list of pages. *)
Definition list_alloc (a : list Z) (m : mem) : outcome (option Z * list Z * mem) :=
  match a with
  | [] => Ok (None, [], m)
  | phys :: a => Ok (Some phys, a, fun x => if within (demo_hhdm + phys) 4096 x then 0 else m x)
  end.
Definition list_free (a : list Z) (page : Z) : outcome (list Z) := Ok (page - demo_hhdm :: a).
Definition demo_pool (n : nat) : list Z := map (fun i => 0x200000 + 4096 * Z.of_nat i) (seq 0 n).

#[global] Instance list_source : TableSource (PAGE_SIZE demo_paging) demo_hhdm list_alloc.
Proof.
  refine {| pool := fun a : list Z => a |}. intros [|phys a] m Ha; [contradiction|].
  exists phys, a, (fun x => if within (demo_hhdm + phys) 4096 x then 0 else m x). split; [reflexivity|]. split; [reflexivity|].
  split; intros x Hx; destruct (within_reflect (demo_hhdm + phys) 4096 x) as [|H]; auto; [exfalso; apply H; exact Hx|contradiction].
Defined.

(** An address space without a table but the root, whose count is one. *)
Definition demo_state (n : nat) : pt_state (list Z) :=
  PtState (fun _ => 0) (fun x => if x =? demo_root then Some (Frame true 1 0 false NotLarge 0) else None) (demo_pool n) [].
Definition demo_own : ownership := fun t => if t =? demo_root then Some (4, 0) else None.
Definition demo_roots : pagemap_roots := Roots demo_root 0.
Definition demo_options (early overwrite : bool) : pgmap_options := PgmapOptions 0x3 0x3 0x4 false early overwrite.
Definition demo_pgmap (fuel : nat) (s : pt_state (list Z)) (r : range) (virt : Z) (early : bool) : outcome (bool * pt_state (list Z) * bool) :=
  pgmap_at demo_paging demo_hhdm list_alloc list_alloc list_free fuel s true demo_roots r virt (demo_options early false).
Definition demo_translate (s : pt_state (list Z)) (v : Z) : option Z := translate demo_paging demo_hhdm (s_mem s) demo_root v.
Definition demo_after (o : outcome (bool * pt_state (list Z) * bool)) (vs : list Z) : outcome (bool * list (option Z)) :=
  '(ok, s, _) ← o; Ok (ok, map (demo_translate s) vs).

(** A page, a large page and a page. *)
Lemma demo_mixed : demo_after (demo_pgmap 1000 (demo_state 4) (Range 0x3ff000 0x202000) 0x401ff000 false)
    [0x401fe000; 0x401ff000; 0x40200abc; 0x403fffff; 0x40400000; 0x40401000] =
  Ok (true, [None; Some 0x3ff000; Some 0x400abc; Some 0x5fffff; Some 0x600000; None]).
Proof. vm_compute. reflexivity. Qed.

(** ** The example *)

Lemma demo_entry t i : entry (fun _ => 0) t i = 0.
Proof. reflexivity. Qed.
Lemma demo_reaches m v l t : m = (fun _ => 0) -> reaches demo_paging demo_hhdm m demo_root v l t -> l = 4 /\ t = demo_root.
Proof. intros -> R. induction R as [|l t R IH Hl E]; [auto|]. rewrite demo_entry in E. discriminate. Qed.
Lemma demo_unmapped v : translate demo_paging demo_hhdm (fun _ => 0) demo_root v = None.
Proof. reflexivity. Qed.
Lemma demo_tree : tree demo_paging demo_hhdm (fun _ => 0) demo_own demo_root.
Proof.
  split.
  - reflexivity.
  - intros t l b O. unfold demo_own in O. destruct (Z.eqb_spec t demo_root) as [->|]; [|discriminate]. injection O as <- <-.
    split_and?; vm_compute; congruence.
  - intros t l b i _ _ _ E. rewrite demo_entry in E. discriminate.
Qed.
Lemma demo_space n early k : (n <= 16)%nat -> k <= 2 ^ 30 -> space demo_paging demo_hhdm demo_root early (phys_bits := 48) (demo_state n) demo_own k.
Proof.
  intros Hn Hk. split.
  - apply demo_tree.
  - apply NoDup_fmap_2; [intros i j; lia|apply NoDup_seq].
  - apply list.Forall_forall. intros phys Hp. apply list_elem_of_fmap in Hp as (i & -> & Hi). apply elem_of_seq in Hi.
    assert (Hi' : (i < 16)%nat) by lia. clear Hi. do 16 (destruct i as [|i]; [vm_compute; split_and?; congruence|]). lia.
  - intros _ t l b O. unfold demo_own in O. cbn. destruct (t =? demo_root); [|discriminate]. exists (Frame true 1 0 false NotLarge 0).
    split; [reflexivity|]. split; [reflexivity|]. cbn. unfold REFCOUNT_MAX. lia.
Qed.
Lemma demo_flags early : flags_ok (leaf_ok := plain_flags X86_64.PTE_PHYS_MASK) (large_ok := plain_flags X86_64.PTE_PHYS_MASK) (demo_options early false).
Proof. split; split; vm_compute; auto; split; congruence. Qed.


(** ** Defects *)

Definition then_map (o : outcome (bool * pt_state (list Z) * bool)) (r : range) (virt : Z) : outcome (bool * pt_state (list Z) * bool) :=
  '(_, s, _) ← o; demo_pgmap 1000 s r virt false.

(** Without the table the same range is mapped as it should. *)
Lemma pgmap_at_does_not_skip : demo_after (demo_pgmap 1000 (demo_state 9) (Range 0x10000000 0x2000) 0x3ffff000 false)
    [0x3ffff000; 0x40000000; 0x40200000] = Ok (true, [Some 0x10000000; Some 0x10001000; None]).
Proof. vm_compute. reflexivity. Qed.

(** When pages for tables run out below a table that was just added or has only one
    entry, [pgmap_at] does not fail: the table is released through the null pointer that is
    passed for the page operation. *)
Theorem pgmap_at_out_of_pages :
  demo_pgmap 1000 (demo_state 2) (Range 0x800000 0x1000) 0x40400000 false = Undef /\
  then_map (demo_pgmap 1000 (demo_state 3) (Range 0x800000 0x1000) 0x40400000 false) (Range 0x10000000 0x1000) 0x40000000 = Undef.
Proof. vm_compute. auto. Qed.
(** A failure just below the root, which has another reference, is reported. *)
Lemma pgmap_at_no_page : demo_after (demo_pgmap 1000 (demo_state 0) (Range 0x800000 0x1000) 0x40400000 false) [0x40400000] = Ok (false, [None]).
Proof. vm_compute. reflexivity. Qed.

(** *** Address 0 *)

Definition zero_range : range := Range 0x40000000 0x200000.
(** The walker at address 0, with all tables. *)
Definition at_zero (w : pt_walker) : bool :=
  (level w =? 1) && (top_level w =? 4) && (tables w 1 =? demo_hhdm + 0x202000) && forallb (fun l => indices w l =? 0) [1; 2; 3; 4].
Lemma at_zero_spec w : at_zero w = true -> level w = 1 /\ top_level w = 4 /\ tables w 1 = demo_hhdm + 0x202000 /\
  forall l, l = 1 \/ l = 2 \/ l = 3 \/ l = 4 -> indices w l = 0.
Proof.
  unfold at_zero. intros H. repeat (apply andb_true_iff in H as (H & ?)). cbn in *. repeat match goal with E : _ && _ = true |- _ => apply andb_true_iff in E as (? & ?) end.
  repeat match goal with E : (_ =? _) = true |- _ => apply Z.eqb_eq in E end. split_and?; auto. intros l [->|[->|[->| ->]]]; assumption.
Qed.
Abbreviation zero_write fuel s w :=
  (write_ptes_at_level demo_paging demo_hhdm list_alloc list_alloc fuel s w 1 (demo_options true false) 0x40000000 0 512).
(** Nothing is written, and the walker stays. *)
Lemma zero_write_stays fuel s w : at_zero w = true -> exists w', zero_write (S fuel) s w = Ok (Written 0x40000000 512 s w') /\ at_zero w' = true.
Proof.
  intros Hw. destruct (at_zero_spec w Hw) as (El & Et & Eta & Ei). unfold write_ptes_at_level. cbn [write_ptes_loop].
  unfold ptwalker_fill_in_to. rewrite El. cbn [Z.leb Z.compare Pos.compare Pos.compare_cont mbind outcome_bind]. rewrite Eta, Ei by auto.
  unfold pte_ptr. change (demo_hhdm + 2105344 =? 0) with false. cbn [mbind outcome_bind].
  change (entries_in_table demo_paging (demo_hhdm + 2105344) 0 _ 1) with (Ok 0). cbn [mbind outcome_bind Z.to_nat write_entries].
  change (u16 (0 + u16 0 - 1)) with 65535. unfold ptwalker_next_with_options. cbn [level top_level set_index indices].
  rewrite El, Et, Z.eqb_refl. change (u16 (65535 + 1)) with 0. cbn -[at_zero set_index]. eexists. split; [reflexivity|].
  unfold at_zero, forallb. cbn [level top_level tables indices set_index]. rewrite El, Et, Eta. cbn. rewrite !Ei by auto. reflexivity.
Qed.
Lemma zero_level w : top_level w = 4 -> (forall l, l = 1 \/ l = 2 \/ l = 3 \/ l = 4 -> indices w l = 0) ->
  find_highest_possible_level demo_paging w 4 zero_range 0 = Ok 1.
Proof.
  intros Et Ei. unfold find_highest_possible_level. rewrite Et. change (Z.to_nat 4) with 4%nat. cbn [lowest_nonzero].
  rewrite (Ei 1), (Ei (1 + 1)), (Ei (1 + 1 + 1)), (Ei (1 + 1 + 1 + 1)) by auto. reflexivity.
Qed.
Abbreviation zero_loop fuel s w :=
  (pgmap_loop demo_paging demo_hhdm list_alloc list_alloc fuel (Written 0x40000000 512 s w) zero_range 0 (demo_options true false)).
Lemma zero_loop_step fuel s w s' w' : top_level w = 4 -> (forall l, l = 1 \/ l = 2 \/ l = 3 \/ l = 4 -> indices w l = 0) ->
  zero_write (S fuel) s w = Ok (Written 0x40000000 512 s' w') -> zero_loop (S fuel) s w = zero_loop fuel s' w'.
Proof.
  intros Et Ei E. cbn [pgmap_loop wr_walker wr_phys wr_remaining wr_state supports_largepage_at_level_mask demo_options].
  change (u64 (1073741824 - front zero_range)) with 0. rewrite zero_level by assumption. cbn [mbind outcome_bind].
  change (get_leaf_pte_count_until_next_large demo_paging zero_range 1073741824 0 true 1 4) with (Ok 0). cbn [mbind outcome_bind].
  change (512 <=? 0) with false. cbv iota. rewrite E. reflexivity.
Qed.
Lemma zero_loop_diverges fuel s w : at_zero w = true -> zero_loop fuel s w = Diverge.
Proof.
  revert w. induction fuel as [|fuel IH]; intros w Hw; [reflexivity|]. destruct (at_zero_spec w Hw) as (_ & Et & _ & Ei).
  destruct (zero_write_stays fuel s w Hw) as (w' & E & Hw'). rewrite (zero_loop_step fuel s w s w') by assumption. apply IH, Hw'.
Qed.
(** The first round adds the tables. *)
Definition zero_round (fuel : nat) (w : pt_walker) : bool :=
  match zero_write (S fuel) (demo_state 3) w with
  | Ok wr => (wr_phys wr =? 0x40000000) && (wr_remaining wr =? 512) && at_zero (wr_walker wr)
  | _ => false
  end.
Lemma zero_first fuel : match walker_for demo_paging demo_hhdm (demo_state 3) demo_roots 0 (demo_options true false) with
  | Ok w => (top_level w =? 4) && forallb (fun l => indices w l =? 0) [1; 2; 3; 4] && zero_round fuel w = true
  | _ => False end.
Proof. vm_compute. reflexivity. Qed.
Lemma zero_round_spec fuel w : zero_round fuel w = true ->
  exists s' w', zero_write (S fuel) (demo_state 3) w = Ok (Written 0x40000000 512 s' w') /\ at_zero w' = true.
Proof.
  unfold zero_round. destruct (zero_write _ _ _) as [[phys rem s' w']| | |]; try discriminate. cbn [wr_phys wr_remaining wr_walker]. intros H.
  apply andb_true_iff in H as (H & Hw). apply andb_true_iff in H as (H1 & H2). apply Z.eqb_eq in H1, H2. subst. eauto.
Qed.

(** A round that leads to the walker at address 0 is followed by endless ones. *)
Lemma zero_loop_starts fuel s w : top_level w = 4 -> (forall l, l = 1 \/ l = 2 \/ l = 3 \/ l = 4 -> indices w l = 0) ->
  (forall n, exists s' w', zero_write (S n) s w = Ok (Written 0x40000000 512 s' w') /\ at_zero w' = true) -> zero_loop fuel s w = Diverge.
Proof.
  intros Et Ei Hr. destruct fuel as [|fuel]; [reflexivity|]. destruct (Hr fuel) as (s' & w' & E & Hw').
  rewrite (zero_loop_step fuel s w s' w') by assumption. apply zero_loop_diverges, Hw'.
Qed.


Definition is_ok {B} (o : outcome B) : bool := match o with Ok _ => true | _ => false end.

Lemma flush_table_stops P HHDM_OFFSET {A} alloc early_alloc fuel (s : pt_state A) pte l free f :
  s_frames s (HHDM_OFFSET + pte_to_phys P pte l) = Some f -> f_is_table f = true ->
  is_ok (pageop_flush_pte_in_current_range P HHDM_OFFSET alloc early_alloc fuel s pte l free) = false.
Proof.
  intros Hf Ht. unfold pageop_flush_pte_in_current_range, get_frame, phys_to_page. rewrite Hf. cbn [mbind outcome_bind]. rewrite Ht. cbn [negb].
  unfold ptwalker_create_from_toplevel. destruct (Hhdm.phys_to_virt _ _ _) as [root| | |]; cbn [mbind outcome_bind]; try reflexivity.
  destruct fuel as [|fuel]; [reflexivity|]. cbn [flush_loop level tables indices]. rewrite Z.eqb_refl.
  destruct (pte_ptr root 0); cbn [mbind outcome_bind]; try reflexivity.
  destruct (if pte_is_large P _ then _ else _) as [[last s1]| | |]; cbn [mbind outcome_bind]; try reflexivity.
  unfold ptwalker_deref_from_level. cbn [level top_level free_pgtable]. rewrite Z.ltb_irrefl. reflexivity.
Qed.
(** A table cannot be flushed: [pageop_flush_pte_in_current_range] never returns for an
    entry that points to a table, because it walks the table with a walker that cannot
    release tables and then has it release them, which an assertion stops. *)
Theorem pageop_flush_table_fails P HHDM_OFFSET {A} alloc early_alloc fuel (s : pt_state A) pte l free f :
  s_frames s (HHDM_OFFSET + pte_to_phys P pte l) = Some f -> f_is_table f = true ->
  is_ok (pageop_flush_pte_in_current_range P HHDM_OFFSET alloc early_alloc fuel s pte l free) = false.
Proof. apply flush_table_stops. Qed.
Lemma pageop_flush_table_fails_witness :
  is_ok (pageop_flush_pte_in_current_range demo_paging demo_hhdm list_alloc list_alloc 10 (demo_state 3) (demo_root_phys + 3) 2 true) = false.
Proof. apply (pageop_flush_table_fails demo_paging demo_hhdm list_alloc list_alloc 10 (demo_state 3) (demo_root_phys + 3) 2 true (Frame true 1 0 false NotLarge 0)); reflexivity. Defined.
