(* ===== verification/Unmap.v ===== *)
(** * Unmapping, and mapping of new pages: the rest of kernel/src/mm/pgmap.c and pageop.c

    [pgunmap_at] clears the entries of a range and releases the tables that become empty;
    [pgmap_alloc_at] maps a range of virtual addresses to pages it allocates.  The callbacks
    of the latter are parameters.  [fuel] bounds the loops as in Pgmap.v. *)

From S2P Require Import Prelude Mem Arith Range Refcount Hhdm Paging Walker Pgmap.

Record pgunmap_options := PgunmapOptions { unmap_free_pages : bool; dont_split_large_pages : bool }.
Inductive pgmap_alloc_result := E_PGMAP_ALLOC_OK | E_PGMAP_ALLOC_PAGE_ALLOC_FAIL | E_PGMAP_ALLOC_PGTABLE_ALLOC_FAIL.

Section Unmap.
Context (P : paging) (HHDM_OFFSET : Z) {A : Type}.
Context (alloc_table early_alloc_page : A -> mem -> outcome (option Z * A * mem)).
Context (free_page : A -> Z -> outcome A).
#[local] Abbreviation state := (pt_state A).
#[local] Abbreviation PAGE_COUNT := (PAGE_COUNT P).
#[local] Abbreviation PAGE_SIZE := (PAGE_SIZE P).
#[local] Abbreviation PAGE_SIZE_AT_LEVEL := (PAGE_SIZE_AT_LEVEL P).
#[local] Abbreviation phys_to_page := (phys_to_page HHDM_OFFSET).
#[local] Abbreviation pgmap_with_ptwalker := (pgmap_with_ptwalker P HHDM_OFFSET alloc_table early_alloc_page).
#[local] Abbreviation pageop_finish := (pageop_finish free_page).
#[local] Abbreviation pageop_flush_pte_in_current_range := (pageop_flush_pte_in_current_range P HHDM_OFFSET alloc_table early_alloc_page).

(** ** The range of a page operation: pageop.c *)

(** The new range to flush; [None]: the operation is finished first, see [pageop_setup]. *)
Definition setup_for_address (flush_range : range) (virt : Z) : option range :=
  if u64 (virt + PAGE_SIZE) =? front flush_range then Some (Range virt (size flush_range))
  else if range_has_loc flush_range virt then Some flush_range
  else match range_get_end flush_range with
       | Some end_ => if virt =? end_ then Some (Range (front flush_range) (u64 (size flush_range + PAGE_SIZE))) else None
       | None => None
       end.
Definition setup_for_range (flush_range virt : range) : outcome (option range) :=
  has ← range_has flush_range virt;
  if has : bool then Ok (Some flush_range) else Ok (
    let before := match range_get_end virt with Some virt_end => front flush_range =? virt_end | None => false end in
    if before then Some (Range (front virt) (size flush_range)) else
    match range_get_end flush_range with
    | Some flush_end => if front virt =? flush_end then Some (Range (front flush_range) (u64 (size flush_range + size virt))) else None
    | None => None
    end).
Definition pageop_setup (s : state) (flush_range : range) (irqs : bool) (r : option range) (virt : range) : outcome (state * range) :=
  match r with
  | Some flush_range => Ok (s, flush_range)
  | None => '(s, _) ← pageop_finish s flush_range irqs; Ok (s, virt)
  end.
Definition pageop_setup_for_address (s : state) (flush_range : range) (irqs : bool) (virt : Z) : outcome (state * range) :=
  pageop_setup s flush_range irqs (setup_for_address flush_range virt) (Range virt PAGE_SIZE).
Definition pageop_setup_for_range (s : state) (flush_range : range) (irqs : bool) (virt : range) : outcome (state * range) :=
  r ← setup_for_range flush_range virt; pageop_setup s flush_range irqs r virt.

(** ** Dirty pages: page.c *)

Definition PAGE_LARGEHEAD_IS_DIRTY : Z := Z.shiftl 1 0.
Definition PAGE_LARGEHEAD_HAS_DIRTY_PAGE : Z := Z.shiftl 1 1.
(** [page_set_flag(page, __PAGE_IS_DIRTY)] *)
Definition page_set_dirty (s : state) (page : Z) : outcome state :=
  f ← get_frame s page;
  Ok (set_frame s page (Frame (f_is_table f) (f_refcount f) (f_large_refcount f) true (f_large f) (f_head_flags f))).
Definition set_head_flags (s : state) (page flags : Z) : outcome state :=
  f ← get_frame s page;
  Ok (set_frame s page (Frame (f_is_table f) (f_refcount f) (f_large_refcount f) (f_dirty f) (f_large f) flags)).
Fixpoint set_tails_dirty (n : nat) (s : state) (page : Z) : outcome state :=
  match n with
  | O => Ok s
  | S n => s ← page_set_dirty s page; set_tails_dirty n s (page + PAGE_SIZE)
  end.
Fixpoint dirty_loop (fuel : nat) (s : state) (page avail : Z) : outcome state :=
  match fuel with
  | O => Diverge
  | S fuel =>
      s ← page_set_dirty s page;
      f ← get_frame s page;
      match f_large f with
      | LargeHead l =>
          let count := Z.shiftl 1 (largepage_order P l) in
          s ← set_head_flags s page PAGE_LARGEHEAD_IS_DIRTY;
          s ← set_tails_dirty (Z.to_nat (count - 1)) s (page + PAGE_SIZE);
          let avail := avail - Z.min avail count in
          if avail =? 0 then Ok s else dirty_loop fuel s (page + count * PAGE_SIZE) avail
      | LargeTail head =>
          s ← set_head_flags s head PAGE_LARGEHEAD_HAS_DIRTY_PAGE;
          let avail := u64 (avail - 1) in
          if avail =? 0 then Ok s else dirty_loop fuel s (page + PAGE_SIZE) avail
      | NotLarge =>
          let avail := u64 (avail - 1) in
          if avail =? 0 then Ok s else dirty_loop fuel s (page + PAGE_SIZE) avail
      end
  end.
(** At most one round for each page. *)
Definition set_pages_dirty (s : state) (page amount : Z) : outcome state := dirty_loop (Z.to_nat amount) s page amount.

(** ** Large pages the range begins in *)

(** The part of a large page before the range is mapped again.  [None] is [NULL], which is
    read once the entry has been cleared. *)
Definition split_initial_large_page_if_necessary (fuel : nat) (s : state) (w : pt_walker) (split : current_split_info) (virt_range : range)
    (options : option pgmap_options) (calculate_phys : bool) : outcome (bool * state * pt_walker * current_split_info * range) :=
  walker_virt_addr ← ptwalker_get_virt_addr P w;
  if front virt_range <=? walker_virt_addr then Ok (true, s, w, split, virt_range) else
  let offset := front virt_range - walker_virt_addr in
  match options with
  | None =>
      '(_, _, _) ← split_large_page P HHDM_OFFSET alloc_table early_alloc_page fuel s w split (level w)
        (PgmapOptions 0 0 0 false true false);
      Undef
  | Some options =>
      '(s, w, split) ← split_large_page P HHDM_OFFSET alloc_table early_alloc_page fuel s w split (level w) options;
      phys_front ← (if calculate_phys then
                      phys ← ptwalker_get_phys_addr P s w; _ ← c_assert (negb (phys =? INVALID_PHYS)); Ok phys
                    else Ok (front (cs_phys_range split)));
      m ← pgmap_with_ptwalker fuel options s w None (Range phys_front offset) walker_virt_addr;
      if negb (mp_result m) then Ok (false, mp_state m, mp_walker m, split, virt_range) else
      phys_range ← range_from_index (cs_phys_range split) offset;
      new_range ← range_from_index virt_range offset;
      Ok (true, mp_state m, mp_walker m, SplitInfo phys_range (front virt_range) (is_active split), new_range)
  end.

(** ** [pgmap_alloc_at] *)

Section Alloc.
(** The physical address of a page, or [INVALID_PHYS]. *)
Context (alloc_a_page : A -> mem -> outcome (Z * A * mem)) (alloc_a_large_page : Z -> A -> mem -> outcome (Z * A * mem)).

(** [for (; pte != end; pte++)], [n] entries; whether there were enough pages. *)
Fixpoint alloc_entries (n : nat) (s : state) (pte l flags : Z) : outcome (bool * state) :=
  match n with
  | O => Ok (true, s)
  | S n =>
      '(phys, al, m) ← (if 1 <? l then alloc_a_large_page l (s_alloc s) (s_mem s) else alloc_a_page (s_alloc s) (s_mem s));
      let s := PtState m (s_frames s) al (s_delayed s) in
      if phys =? INVALID_PHYS then Ok (false, s)
      else alloc_entries n (pte_write s pte (Z.lor (phys_create_pte P phys) flags)) (pte + 8) l flags
  end.

Record allocated := Allocated { al_result : pgmap_alloc_result; al_remaining : Z; al_state : state; al_walker : pt_walker }.
(** The [do] loop of [alloc_ptes_at_level]. *)
Fixpoint alloc_ptes_loop (fuel : nat) (s : state) (w : pt_walker) (l : Z) (options : pgmap_options) (n remaining : Z) : outcome allocated :=
  match fuel with
  | O => Diverge
  | S fuel =>
      let ref := negb (is_in_early options) in
      '(result, s, w) ← ptwalker_fill_in_to P HHDM_OFFSET alloc_table early_alloc_page s w l ref false;
      match result with
      | E_PT_WALKER_OK =>
          let table := tables w l in
          _ ← pte_ptr table (indices w l);
          count ← entries_in_table P table (indices w l) n l;
          '(ok, s) ← alloc_entries (Z.to_nat count) s (table + 8 * indices w l) l (pte_flags_of P options l);
          if negb ok then Ok (Allocated E_PGMAP_ALLOC_PAGE_ALLOC_FAIL remaining s w) else
          let count := u16 count in
          s ← (if ref then table_ref_add s table count else Ok s);
          let w := set_index w l (u16 (indices w l + count - 1)) in
          '(result, s, w) ← ptwalker_next_with_options P HHDM_OFFSET alloc_table early_alloc_page s w l (iterate_options_of options);
          match result with
          | E_PT_WALKER_OK =>
              let n := u64 (n - count) in
              leaves ← check_mul_assert_w 64 (PAGE_COUNT (PAGE_SIZE_AT_LEVEL l)) count;
              let remaining := u64 (remaining - leaves) in
              if n =? 0 then Ok (Allocated E_PGMAP_ALLOC_OK remaining s w)
              else alloc_ptes_loop fuel s w l options n remaining
          | _ => Ok (Allocated E_PGMAP_ALLOC_PGTABLE_ALLOC_FAIL remaining s w)
          end
      | _ => Ok (Allocated E_PGMAP_ALLOC_PGTABLE_ALLOC_FAIL remaining s w)
      end
  end.
(** On a failure the count of the caller stays. *)
Definition alloc_ptes_at_level (fuel : nat) (s : state) (w : pt_walker) (l : Z) (options : pgmap_options)
    (write_leaf_pte_count remaining : Z) : outcome allocated :=
  a ← alloc_ptes_loop fuel s w l options (write_leaf_pte_count / PAGE_COUNT (PAGE_SIZE_AT_LEVEL l)) remaining;
  match al_result a with
  | E_PGMAP_ALLOC_OK => Ok a
  | r => Ok (Allocated r remaining (al_state a) (al_walker a))
  end.

Definition alloc_ok (r : pgmap_alloc_result) : bool := match r with E_PGMAP_ALLOC_OK => true | _ => false end.
Fixpoint alloc_down_loop (levels fuel : nat) (a : allocated) (l size_remaining : Z) (options : pgmap_options) : outcome allocated :=
  match levels with
  | O => Undef
  | S levels =>
      l ← lower_level P (Z.to_nat l) l size_remaining (supports_largepage_at_level_mask options);
      a ← alloc_ptes_at_level fuel (al_state a) (al_walker a) l options (al_remaining a) (al_remaining a);
      if negb (alloc_ok (al_result a)) || (al_remaining a =? 0) then Ok a
      else alloc_down_loop levels fuel a l size_remaining options
  end.
(** The result goes through [bool]: a failure other than 0 becomes 1. *)
Definition as_bool (a : allocated) : allocated :=
  Allocated (match al_result a with E_PGMAP_ALLOC_OK => E_PGMAP_ALLOC_OK | _ => E_PGMAP_ALLOC_PAGE_ALLOC_FAIL end)
    (al_remaining a) (al_state a) (al_walker a).
Definition alloc_ptes_down_from_level (fuel : nat) (s : state) (w : pt_walker) (l : Z) (options : pgmap_options) (remaining : Z)
    : outcome allocated :=
  a ← alloc_ptes_at_level fuel s w l options remaining remaining;
  if negb (alloc_ok (al_result a)) || (al_remaining a =? 0) then Ok (as_bool a) else
  size_remaining ← check_mul_assert_w 64 (al_remaining a) PAGE_SIZE;
  a ← alloc_down_loop (Z.to_nat l) fuel a l size_remaining options;
  Ok (as_bool a).

(** The [do] loop of [pgmap_alloc_with_ptwalker]: the level where it breaks, or the failure. *)
Fixpoint pgmap_alloc_loop (fuel : nat) (a : allocated) (virt_range : range) (virt_addr : Z) (options : pgmap_options)
    : outcome (option Z * allocated) :=
  match fuel with
  | O => Diverge
  | S fuel' =>
      let mask := supports_largepage_at_level_mask options in
      l ← find_highest_possible_level P (al_walker a) mask virt_range (u64 (virt_addr - front virt_range));
      until ← get_leaf_pte_count_until_next_large P virt_range virt_addr 0 false l mask;
      if al_remaining a <=? until then Ok (Some l, a) else
      a' ← alloc_ptes_at_level fuel (al_state a) (al_walker a) l options until (al_remaining a);
      if negb (alloc_ok (al_result a')) then Ok (None, a') else
      pgmap_alloc_loop fuel' a' virt_range (u64 (virt_addr + (al_remaining a - al_remaining a') * PAGE_SIZE)) options
  end.
Definition pgmap_alloc_with_ptwalker (fuel : nat) (s : state) (w : pt_walker) (split : option current_split_info) (virt_range : range)
    (options : pgmap_options) : outcome (pgmap_alloc_result * state) :=
  '(l, a) ← pgmap_alloc_loop fuel (Allocated E_PGMAP_ALLOC_OK (PAGE_COUNT (size virt_range)) s w) virt_range (front virt_range) options;
  match l with
  | None => Ok (al_result a, al_state a)
  | Some l =>
      a ← alloc_ptes_down_from_level fuel (al_state a) (al_walker a) l options (al_remaining a);
      if negb (alloc_ok (al_result a)) then Ok (al_result a, al_state a) else
      end_ ← range_get_end_assert virt_range;
      '(s, _, _) ← finish_split_info P HHDM_OFFSET
        (fun s w split => pgmap_with_ptwalker fuel options s w (Some split)) (al_state a) (al_walker a) split end_ options;
      Ok (E_PGMAP_ALLOC_OK, s)
  end.

(** [return false] before anything is done is [E_PGMAP_ALLOC_OK]. *)
Definition pgmap_alloc_at (fuel : nat) (s : state) (irqs : bool) (pm : pagemap_roots) (virt_range : range) (options : pgmap_options)
    : outcome (pgmap_alloc_result * state * bool) :=
  if range_empty virt_range then Ok (E_PGMAP_ALLOC_OK, s, irqs) else
  if range_overflows virt_range then Ok (E_PGMAP_ALLOC_OK, s, irqs) else
  ok ← range_has_align virt_range PAGE_SIZE;
  if negb ok then Ok (E_PGMAP_ALLOC_OK, s, irqs) else
  w ← walker_for P HHDM_OFFSET s pm (front virt_range) options;
  let flush_range := virt_range in
  let finish (result : pgmap_alloc_result) (s : state) :=
    '(s, _) ← (if is_overwrite options then pageop_finish s flush_range false else Ok (s, flush_range));
    Ok (result, s, irqs) in
  let s := if is_overwrite options then pageop_init s else s in
  large ← (if is_overwrite options then ptwalker_points_to_largepage P s w else Ok false);
  '(ok, s, w, split, virt_range) ←
    (if large : bool
     then split_initial_large_page_if_necessary fuel s w CURRENT_SPLIT_INFO_INIT virt_range (Some options) false
     else Ok (true, s, w, CURRENT_SPLIT_INFO_INIT, virt_range));
  if negb ok then finish E_PGMAP_ALLOC_PGTABLE_ALLOC_FAIL s else
  '(result, s) ← pgmap_alloc_with_ptwalker fuel s w (Some split) virt_range options;
  finish result s.
End Alloc.

(** ** [pgunmap_at] *)

(** [for (iter = level + 1; iter <= walker.top_level; iter++)], [n] rounds. *)
Fixpoint unmap_level (n : nat) (l iter size : Z) : Z :=
  match n with
  | O => l
  | S n => if size <? PAGE_SIZE_AT_LEVEL iter then iter - 1 else unmap_level n l (iter + 1) size
  end.
(** [while (remaining < PAGE_SIZE_AT_LEVEL(level)) level--], from level [n]; there is no level 0. *)
Fixpoint lower_to (n : nat) (remaining : Z) : outcome Z :=
  match n with
  | O => Panic
  | S n' => if remaining <? PAGE_SIZE_AT_LEVEL (Z.of_nat n) then lower_to n' remaining else Ok (Z.of_nat n)
  end.
(** A large page that reaches out of the range: cleared, and mapped again in part. *)
Definition unmap_large (fuel : nat) (s : state) (w : pt_walker) (l remaining : Z) (virt_range : range)
    (map_options : option pgmap_options) (options : pgunmap_options) : outcome (bool * state) :=
  if dont_split_large_pages options then Ok (false, s) else
  pte ← pte_ptr (tables w l) (indices w l);
  let entry := pte_read s pte in
  if negb (pte_is_large P entry) then Ok (false, s) else
  let s := pte_write s pte 0 in
  let pte_phys := pte_to_phys P entry l in
  s ← (if pte_is_dirty P entry then set_pages_dirty s (phys_to_page pte_phys) (PAGE_COUNT (PAGE_SIZE_AT_LEVEL l)) else Ok s);
  '(s, w) ← ptwalker_deref_from_level s w l true;
  match map_options with
  | None => Undef
  | Some map_options =>
      m ← pgmap_with_ptwalker fuel map_options s w None (Range pte_phys remaining)
        (u64 (front virt_range + u64 (size virt_range - remaining)));
      Ok (mp_result m, mp_state m)
  end.
(** One entry. *)
Definition unmap_entry (fuel : nat) (s : state) (w : pt_walker) (l : Z) (should_free_pages : bool) : outcome (state * pt_walker) :=
  pte ← pte_ptr (tables w l) (indices w l);
  let entry := pte_read s pte in
  s ← (if should_free_pages then pageop_flush_pte_in_current_range fuel (pte_write s pte 0) entry l should_free_pages
       else Ok (pte_write s pte 0));
  ptwalker_deref_from_level s w (level w) true.
Fixpoint unmap_loop (fuel : nat) (s : state) (w : pt_walker) (l remaining : Z) (virt_range : range)
    (map_options : option pgmap_options) (options : pgunmap_options) : outcome (bool * state) :=
  match fuel with
  | O => Diverge
  | S fuel' =>
      if (1 <? level w) && negb (pte_level_can_have_large P (level w)) then Ok (false, s) else
      if l <? level w then unmap_large fuel s w l remaining virt_range map_options options else
      '(s, w) ← unmap_entry fuel s w l (unmap_free_pages options);
      let remaining := u64 (remaining - PAGE_SIZE_AT_LEVEL l) in
      if remaining =? 0 then Ok (true, s) else
      '(result, s, w) ← ptwalker_next P HHDM_OFFSET alloc_table early_alloc_page s (set_level w l);
      match result with
      | E_PT_WALKER_OK =>
          l ← lower_to (Z.to_nat l) remaining;
          unmap_loop fuel' s w l remaining virt_range map_options options
      | _ => Ok (false, s)
      end
  end.
Definition pgunmap_at (fuel : nat) (s : state) (irqs : bool) (pm : pagemap_roots) (virt_range : range)
    (map_options : option pgmap_options) (options : pgunmap_options) : outcome (bool * state * bool) :=
  ok ← range_has_align virt_range PAGE_SIZE;
  if negb ok then Ok (false, s, irqs) else
  w ← ptwalker_default_for_pagemap P HHDM_OFFSET s pm (front virt_range);
  let flush_range := virt_range in
  let finish (result : bool) (s : state) := '(s, _) ← pageop_finish s flush_range false; Ok (result, s, irqs) in
  let l := unmap_level (Z.to_nat (top_level w - level w)) (level w) (level w + 1) (size virt_range) in
  '(ok, s, w, _, virt_range) ←
    split_initial_large_page_if_necessary fuel (pageop_init s) w CURRENT_SPLIT_INFO_INIT virt_range map_options true;
  if negb ok then finish false s else
  '(result, s) ← unmap_loop fuel s w l (size virt_range) virt_range map_options options;
  finish result s.
End Unmap.
