(* ===== verification/UnmapFacts.v ===== *)
(** * Unmapping pages

    [counted] says that every table has at least as many references as present entries, and
    the root one more.  Releasing the references of cleared entries keeps it, releases just
    tables without entries, and changes no translation ([deref_loop_ok]); [pgunmap_at] of
    small pages of one table removes their translations and no other. *)

From S2P Require Import Prelude Mem Arith Range Refcount Hhdm Paging Walker PageTable WalkerFacts Pgmap Unmap.

(** ** Counting *)

(** How many of [0 .. n - 1] satisfy [f]. *)
Fixpoint count (n : nat) (f : Z -> bool) : Z :=
  match n with O => 0 | S n => (if f (Z.of_nat n) then 1 else 0) + count n f end.
Lemma count_bounds n f : 0 <= count n f <= Z.of_nat n.
Proof. induction n as [|n IH]; cbn [count]; [lia|]. destruct (f _); lia. Qed.
Lemma count_ext n f g : (forall i, 0 <= i < Z.of_nat n -> f i = g i) -> count n f = count n g.
Proof. induction n as [|n IH]; intros E; [reflexivity|]. cbn [count]. rewrite (E (Z.of_nat n)), IH; [reflexivity|intros; apply E; lia|lia]. Qed.
Lemma count_zero n f i : count n f = 0 -> 0 <= i < Z.of_nat n -> f i = false.
Proof.
  induction n as [|n IH]; intros E Hi; [lia|]. cbn [count] in E. pose proof (count_bounds n f). destruct (f (Z.of_nat n)) eqn:En; [lia|].
  destruct (Z.eq_dec i (Z.of_nat n)) as [->|]; [exact En|]. apply IH; lia.
Qed.
Lemma count_clear n f g i : 0 <= i < Z.of_nat n -> f i = true -> g i = false ->
  (forall j, 0 <= j < Z.of_nat n -> j <> i -> f j = g j) -> count n g = count n f - 1.
Proof.
  induction n as [|n IH]; intros Hi Hf Hg E; [lia|]. cbn [count]. destruct (Z.eq_dec i (Z.of_nat n)) as [->|].
  - rewrite Hf, Hg, (count_ext n f g); [lia|]. intros j Hj. apply E; lia.
  - rewrite (E (Z.of_nat n)) by lia. rewrite IH by (auto; try lia; intros; apply E; lia). lia.
Qed.
Lemma count_run n f i k : 0 <= i -> 0 <= k -> i + k <= Z.of_nat n -> (forall j, i <= j < i + k -> f j = true) -> k <= count n f.
Proof.
  revert k. induction n as [|n IH]; intros k Hi Hk Hn Hf; [cbn; lia|]. cbn [count]. pose proof (count_bounds n f).
  destruct (Z.le_gt_cases (i + k) (Z.of_nat n)) as [Hle|Hgt]; [pose proof (IH k Hi Hk Hle Hf); destruct (f _); lia|].
  destruct (Z.eq_dec k 0) as [->|]; [destruct (f _); lia|]. rewrite (Hf (Z.of_nat n)) by lia.
  enough (k - 1 <= count n f) by lia. apply IH; try lia. intros j Hj. apply Hf. lia.
Qed.

Section Facts.
Context (P : paging) {phys_bits : Z} {leaf_ok large_ok : Z -> Prop} (OK : paging_ok P phys_bits leaf_ok large_ok).
Context (HHDM_OFFSET : Z) (Hhhdm : 0 <= HHDM_OFFSET) (Hpage : HHDM_OFFSET mod PAGE_SIZE P = 0) {A : Type}.
#[local] Abbreviation state := (pt_state A).
#[local] Abbreviation top := (pgt_get_top_level P).
#[local] Abbreviation shift := (PAGE_SHIFTS P).
#[local] Abbreviation bits := (pt_bits P).
#[local] Abbreviation index v l := (virt_to_pt_index P v l).
#[local] Abbreviation is_table := (is_table P).
#[local] Abbreviation next_table := (next_table P HHDM_OFFSET).
#[local] Abbreviation reaches := (reaches P HHDM_OFFSET).
#[local] Abbreviation tree := (tree P HHDM_OFFSET).
#[local] Abbreviation tbl := (tbl P).
#[local] Abbreviation translate := (translate P HHDM_OFFSET).
#[local] Abbreviation at_pos := (at_pos P HHDM_OFFSET).
Context (root : Z).

(** ** References of tables *)

(** The present entries of a table of level [l]. *)
Definition present_in (m : mem) (l t : Z) : Z := count (Z.to_nat (2 ^ bits l)) (fun i => pte_is_present P (entry m t i)).
(** [extra t] references of a table [t] are not those of entries. *)
Definition counted_but (extra : Z -> Z) (s : state) (own : ownership) : Prop := forall t l b, own t = Some (l, b) ->
  exists f, s_frames s t = Some f /\ present_in (s_mem s) l t + (if l =? top then 1 else 0) + extra t <= f_refcount f < REFCOUNT_MAX.
Definition counted := counted_but (fun _ => 0).
Definition one_at (t x : Z) : Z := if x =? t then 1 else 0.

Lemma present_bound m l t : 0 <= present_in m l t.
Proof. apply count_bounds. Qed.
Lemma present_ext m m' l t : 1 <= l <= top -> (forall i, 0 <= i < 2 ^ bits l -> entry m' t i = entry m t i) -> present_in m' l t = present_in m l t.
Proof. intros Hl E. apply count_ext. intros i Hi. rewrite E; [reflexivity|]. pose proof (bits_pos P OK l Hl). lia. Qed.

(** An entry that is cleared, in memory [m]. *)
Section Clear.
Context (m : mem) (own : ownership) (TR : tree m own root) (t l b i : Z) (O : own t = Some (l, b)) (Hi : 0 <= i < 2 ^ bits l).
#[local] Abbreviation m' := (store 8 m (t + 8 * i) 0).
Lemma clear_level : 1 <= l <= top.
Proof. apply (t_page _ _ _ _ _ TR _ _ _ O). Qed.
Lemma clear_written : entries_written m m' t l i 1.
Proof. intros x Hx. rewrite store_spec. destruct (within_reflect (t + 8 * i) (Z.of_nat 8) x); [lia|reflexivity]. Qed.
Lemma clear_entry : entry m' t i = 0.
Proof. unfold entry. apply load_store. Qed.
Lemma clear_absent : pte_is_present P (entry m' t i) = false.
Proof. rewrite clear_entry. apply (ok_absent _ _ _ _ OK). Qed.
Lemma clear_kept t' l' b' j : own t' = Some (l', b') -> 0 <= j < 2 ^ bits l' -> t' <> t \/ j <> i -> entry m' t' j = entry m t' j.
Proof.
  intros O' Hj Hd. apply (entry_kept P OK HHDM_OFFSET m own root TR m' t l b i 1 t' l' b' j);
    [exact O|lia|lia|apply clear_written|exact O'|exact Hj|]. destruct Hd; [left|right]; lia.
Qed.
Lemma clear_tree : tree m' own root.
Proof.
  apply (tree_written P OK HHDM_OFFSET m own root TR m' t l b i 1); [exact O|lia|lia|apply clear_written|].
  intros _ j Hj. replace j with i by lia. apply (absent_not_table P), clear_absent.
Qed.
Lemma clear_present t' l' b' : own t' = Some (l', b') -> pte_is_present P (entry m t i) = true ->
  present_in m' l' t' = present_in m l' t' - one_at t t'.
Proof.
  intros O' Hp. destruct (t_page _ _ _ _ _ TR _ _ _ O') as (L' & _). unfold one_at. destruct (Z.eqb_spec t' t) as [->|Hne].
  - rewrite O in O'. injection O' as <- <-. apply (count_clear _ _ _ i); [lia|exact Hp|apply clear_absent|]. intros j Hj Hne. f_equal. symmetry. eapply clear_kept; eauto. lia.
  - rewrite (present_ext m m' l' t'); [lia|exact L'|]. intros j Hj. eapply clear_kept; eauto.
Qed.
(** Nothing is reached that was not. *)
Lemma clear_reaches v l' t' : 0 <= v < 2 ^ va_bits P -> reaches m' root v l' t' -> reaches m root v l' t'.
Proof.
  intros Hv. apply (reaches_written_inv P OK HHDM_OFFSET m own root TR m' t l b i 1); [exact O|lia|lia|apply clear_written| |exact Hv].
  intros _ j Hj. replace j with i by lia. apply (absent_not_table P), clear_absent.
Qed.
Lemma clear_translate v : 0 <= v < 2 ^ va_bits P -> ~ covers P l b i 1 v -> translate m' root v = translate m root v.
Proof. intros Hv. apply (translate_written P OK HHDM_OFFSET m own root TR m' t l b i 1); auto; try lia; apply clear_written. Qed.
Lemma clear_above v k t' : 0 <= v < 2 ^ va_bits P -> l <= k -> reaches m root v k t' -> reaches m' root v k t'.
Proof. intros Hv Hk. apply (reaches_written P OK HHDM_OFFSET m own root TR m' t l b i 1); auto; try lia; apply clear_written. Qed.
Lemma clear_gone v : 0 <= v < 2 ^ va_bits P -> reaches m root v l t -> index v l = i -> translate m' root v = None.
Proof.
  intros Hv R Hx. apply (clear_above v l t Hv (Z.le_refl l)) in R. pose proof clear_absent as Ha.
  rewrite (translate_at P OK HHDM_OFFSET _ root v l t R), ?Hx.
  - unfold page_at. rewrite Ha. reflexivity.
  - right. rewrite ?Hx. apply (absent_not_table P), Ha.
Qed.
End Clear.

(** Translations of [lo .. hi - 1] are removed and no others change, nothing new is reached,
    and the tables [freed] are no longer reached. *)
Record unmapped (own : ownership) (lo hi : Z) (s s' : state) (freed : list Z) : Prop := {
  un_tree : tree (s_mem s') own root;
  un_counted : counted s' own;
  un_gone : forall v, lo <= v < hi -> translate (s_mem s') root v = None;
  un_rest : forall v, 0 <= v < 2 ^ va_bits P -> ~ (lo <= v < hi) -> translate (s_mem s') root v = translate (s_mem s) root v;
  un_reaches : forall v l t, 0 <= v < 2 ^ va_bits P -> reaches (s_mem s') root v l t -> reaches (s_mem s) root v l t;
  un_alloc : s_alloc s' = s_alloc s;
  un_delayed : s_delayed s' = freed ++ s_delayed s;
  un_freed : forall t, t ∈ freed -> own t <> None /\ t <> root /\ forall v l, 0 <= v < 2 ^ va_bits P -> ~ reaches (s_mem s') root v l t }.
#[local] Abbreviation released own := (unmapped own 0 0).

Lemma ref_down_table s own extra t l b : counted_but extra s own -> own t = Some (l, b) -> 1 <= extra t ->
  exists f, s_frames s t = Some f /\ present_in (s_mem s) l t + (if l =? top then 1 else 0) + extra t <= f_refcount f /\
    table_ref_down s t = Ok (f_refcount f =? 1, set_frame s t (set_refcount f (f_refcount f - 1))).
Proof.
  intros C O He. destruct (C t l b O) as (f & Hf & Hb). pose proof (present_bound (s_mem s) l t). exists f. split; [exact Hf|]. split; [lia|].
  unfold table_ref_down, get_frame. rewrite Hf. cbn [mbind outcome_bind]. rewrite ref_down_ok by (destruct (l =? top); lia). reflexivity.
Qed.
Lemma counted_down s own t f : counted_but (one_at t) s own -> s_frames s t = Some f -> counted (set_frame s t (set_refcount f (f_refcount f - 1))) own.
Proof.
  intros C Hf t' l b O. destruct (C t' l b O) as (f' & Hf' & Hb). unfold one_at in Hb. cbn. destruct (Z.eqb_spec t' t) as [->|].
  - rewrite Hf in Hf'. injection Hf' as <-. eexists. split; [reflexivity|]. cbn. lia.
  - exists f'. split; [exact Hf'|]. lia.
Qed.

(** One round: the table [t] at [l] has lost its last reference, and its entry in [p], the
    table above it on the walk for [v], is cleared. *)
Section Round.
Context (s : state) (own : ownership) (v l t p : Z) (f : frame) (TR : tree (s_mem s) own root) (Hv : 0 <= v < 2 ^ va_bits P).
Context (C : counted_but (one_at t) s own) (Hl : l < top) (Rt : reaches (s_mem s) root v l t) (Rp : reaches (s_mem s) root v (l + 1) p).
Context (Hf : s_frames s t = Some f) (H1 : f_refcount f = 1).
#[local] Abbreviation i := (index v (l + 1)).
Definition cut : state := delay_free (pte_write (set_frame s t (set_refcount f 0)) (p + 8 * i) 0) t.
Lemma cut_own : own t = Some (l, tbl l v) /\ own p = Some (l + 1, tbl (l + 1) v) /\ 1 <= l /\ 0 <= i < 2 ^ bits (l + 1).
Proof.
  pose proof (reaches_level P OK HHDM_OFFSET _ _ _ _ _ Rt). split; [apply (reaches_own P OK HHDM_OFFSET _ own root TR v l t Hv Rt)|].
  split; [apply (reaches_own P OK HHDM_OFFSET _ own root TR v _ p Hv Rp)|]. split; [lia|]. apply (index_bound P OK). lia.
Qed.
(** The entry that leads to [t]. *)
Lemma cut_entry : is_table (l + 1) (entry (s_mem s) p i) = true /\ next_table (l + 1) (entry (s_mem s) p i) = t.
Proof.
  inversion Rt as [|l' p' R' Hl' E]; [lia|]. subst l'. rewrite (reaches_fun P OK HHDM_OFFSET _ _ _ _ _ _ R' Rp) in *. auto.
Qed.
Lemma cut_empty j : 0 <= j < 2 ^ bits l -> pte_is_present P (entry (s_mem s) t j) = false.
Proof.
  intros Hj. destruct cut_own as (Ot & _ & Hl1 & _). destruct (C t l _ Ot) as (f' & Hf' & Hb). rewrite Hf in Hf'. injection Hf' as <-.
  unfold one_at in Hb. rewrite Z.eqb_refl in Hb. pose proof (present_bound (s_mem s) l t). pose proof (bits_pos P OK l ltac:(lia)).
  apply (count_zero (Z.to_nat (2 ^ bits l)) (fun i => pte_is_present P (entry (s_mem s) t i))); [|lia]. fold (present_in (s_mem s) l t).
  destruct (l =? top); lia.
Qed.
Lemma cut_present : pte_is_present P (entry (s_mem s) p i) = true.
Proof. destruct cut_entry as (E & _). apply andb_true_iff in E. apply E. Qed.
Lemma cut_tree : tree (s_mem cut) own root.
Proof. destruct cut_own as (_ & Op & _ & Hi). apply (clear_tree (s_mem s) own TR p (l + 1) _ i Op Hi). Qed.
Lemma cut_above k t' : l + 1 <= k -> reaches (s_mem s) root v k t' -> reaches (s_mem cut) root v k t'.
Proof. destruct cut_own as (_ & Op & _ & Hi). apply (clear_above (s_mem s) own TR p (l + 1) _ i Op Hi v k t' Hv). Qed.
Lemma cut_reaches x l' t' : 0 <= x < 2 ^ va_bits P -> reaches (s_mem cut) root x l' t' -> reaches (s_mem s) root x l' t'.
Proof. destruct cut_own as (_ & Op & _ & Hi). apply (clear_reaches (s_mem s) own TR p (l + 1) _ i Op Hi). Qed.
Lemma cut_counted : counted_but (one_at p) cut own.
Proof.
  destruct cut_own as (Ot & Op & Hl1 & Hi). intros t' l' b' O'. destruct (C t' l' b' O') as (f' & Hf' & Hb).
  pose proof (clear_present (s_mem s) own TR p (l + 1) _ i Op Hi t' l' b' O' cut_present) as Ep.
  change (s_mem cut) with (store 8 (s_mem s) (p + 8 * i) 0). change (s_frames cut t') with (if t' =? t then Some (set_refcount f 0) else s_frames s t').
  rewrite Ep. unfold one_at in *. destruct (Z.eqb_spec t' t) as [->|Ht].
  - rewrite Hf in Hf'. injection Hf' as <-. eexists. split; [reflexivity|]. cbn. destruct (Z.eqb_spec t p); lia.
  - exists f'. split; [exact Hf'|]. destruct (t' =? p); lia.
Qed.
(** Every address whose walk came by [t]. *)
Lemma cut_through x : 0 <= x < 2 ^ va_bits P -> covers P (l + 1) (tbl (l + 1) v) i 1 x -> reaches (s_mem s) root x l t /\
  reaches (s_mem s) root x (l + 1) p /\ index x (l + 1) = i.
Proof.
  intros Hx Hc. destruct cut_own as (_ & _ & Hl1 & Hi). destruct (covers_index P OK (l + 1) _ i 1 x ltac:(lia) ltac:(lia) ltac:(lia) Hc) as (Et & Ei).
  assert (Et' : tbl l x = tbl l v).
  { rewrite !(tbl_above P OK) by lia. rewrite !(block_split P OK) by lia. rewrite Et. lia. }
  split; [apply (reaches_same P OK HHDM_OFFSET _ _ v x); auto|]. split; [apply (reaches_same P OK HHDM_OFFSET _ _ v x); auto|lia].
Qed.
Lemma cut_translate x : 0 <= x < 2 ^ va_bits P -> translate (s_mem cut) root x = translate (s_mem s) root x.
Proof.
  intros Hx. destruct cut_own as (Ot & Op & Hl1 & Hi).
  destruct (Z.eq_dec (x / 2 ^ shift (l + 1)) (tbl (l + 1) v * 2 ^ bits (l + 1) + i)) as [E|E].
  - destruct (cut_through x Hx ltac:(unfold covers; lia)) as (R1 & R2 & Ei).
    pose proof (clear_gone (s_mem s) own TR p (l + 1) _ i Op Hi x Hx R2 Ei) as G.
    change (s_mem cut) with (store 8 (s_mem s) (p + 8 * i) 0). rewrite G.
    pose proof (cut_empty _ (index_bound P OK l x ltac:(lia))) as Ha.
    rewrite (translate_at P OK HHDM_OFFSET _ root x l t R1 (or_intror (absent_not_table P _ _ Ha))). unfold page_at. rewrite Ha. reflexivity.
  - apply (clear_translate (s_mem s) own TR p (l + 1) _ i Op Hi x Hx). unfold covers. lia.
Qed.
Lemma cut_unreached x l' : 0 <= x < 2 ^ va_bits P -> ~ reaches (s_mem cut) root x l' t.
Proof.
  intros Hx R. destruct cut_own as (Ot & Op & Hl1 & Hi). pose proof (reaches_own P OK HHDM_OFFSET _ own root cut_tree x l' t Hx R) as O'.
  rewrite Ot in O'. injection O' as <- Et. inversion R as [|l1 p1 R1 _ E]; [lia|]. subst l1.
  destruct (tbl_same P OK l v x ltac:(lia) Et) as (E1 & E2).
  assert (Rx : reaches (s_mem cut) root x (l + 1) p).
  { apply (reaches_same P OK HHDM_OFFSET _ _ v x); [exact E1|]. apply cut_above; [lia|exact Rp]. }
  rewrite (reaches_fun P OK HHDM_OFFSET _ _ _ _ _ _ R1 Rx), <- E2 in E.
  pose proof (clear_absent (s_mem s) p i) as Ha. apply (absent_not_table P (l + 1)) in Ha. change (s_mem cut) with (store 8 (s_mem s) (p + 8 * i) 0) in E.
  rewrite Ha in E. discriminate.
Qed.
End Round.

(** [ptwalker_deref_from_level] from the table of level [l] on the walk for [v], one of whose
    entries has been cleared. *)
Lemma deref_loop_ok n : forall s own v l w, n = Z.to_nat (top - l + 1) -> 1 <= l <= top -> tree (s_mem s) own root -> 0 <= v < 2 ^ va_bits P ->
  top_level w = top -> (forall k, l <= k <= top -> reaches (s_mem s) root v k (tables w k)) ->
  (forall k, l < k <= top -> indices w k = index v k) -> counted_but (one_at (tables w l)) s own ->
  exists s' l' freed, deref_loop n s w (tables w l) l true = Ok (s', set_level w l') /\ l <= l' <= top /\ released own s s' freed /\
    (1 <= present_in (s_mem s) l (tables w l) -> l' = l /\ freed = [] /\ s_mem s' = s_mem s).
Proof.
  induction n as [|n IH]; intros s own v l w Hn Hl TR Hv Htop Ht Hi C; [lia|]. set (t := tables w l) in *. pose proof (Ht l ltac:(lia)) as Rt.
  pose proof (reaches_own P OK HHDM_OFFSET _ own root TR v l t Hv Rt) as Ot. cbn [deref_loop].
  destruct (ref_down_table s own _ t l _ C Ot ltac:(unfold one_at; rewrite Z.eqb_refl; lia)) as (f & Hf & Hb & ->). cbn [mbind outcome_bind].
  unfold one_at in Hb. rewrite Z.eqb_refl in Hb. pose proof (present_bound (s_mem s) l t). destruct (Z.eqb_spec (f_refcount f) 1) as [H1|H1]; cbn [negb].
  - rewrite Htop. destruct (Z.eqb_spec l top) as [El|Hlt]; [lia|]. cbn [negb]. rewrite H1. pose proof (Ht (l + 1) ltac:(lia)) as Rp.
    unfold pte_ptr. rewrite (reaches_nonzero P OK HHDM_OFFSET Hhhdm _ own root TR v (l + 1) _ Hv Rp). cbn [mbind outcome_bind call_free].
    rewrite (Hi (l + 1)) by lia. fold (cut s v l t (tables w (l + 1)) f). set (s1 := cut s v l t (tables w (l + 1)) f).
    assert (Hl' : l < top) by lia.
    destruct (IH s1 own v (l + 1) w) as (s' & l' & freed & E & Hl2 & Re & _); try lia.
    + apply (cut_tree s own v l t _ f TR Hv Hl' Rt Rp).
    + intros k Hk. apply (cut_above s own v l t _ f TR Hv Hl' Rt Rp); [lia|]. apply Ht. lia.
    + intros k Hk. apply Hi. lia.
    + apply (cut_counted s own v l t _ f TR Hv C Hl' Rt Rp Hf H1).
    + exists s', l', (freed ++ [t]). split; [exact E|]. split; [lia|]. split; [|lia].
      destruct Re as [T1 T2 _ T3 T4 T5 T6 T7]. split; auto; [lia| | | |].
      * intros x Hx Hn0. rewrite T3 by (exact Hx || lia). apply (cut_translate s own v l t _ f TR Hv C Hl' Rt Rp Hf H1 x Hx).
      * intros x k t' Hx R. apply (cut_reaches s own v l t _ f TR Hv Hl' Rt Rp); auto.
      * rewrite T6, <- app_assoc. reflexivity.
      * intros t' Hin. apply elem_of_app in Hin as [Hin|Hin]; [auto|]. apply list_elem_of_singleton in Hin as ->.
        split; [congruence|]. split; [intros E0; rewrite E0, (t_root _ _ _ _ _ TR) in Ot; congruence|].
        intros x k Hx R. apply (cut_unreached s own v l t _ f TR Hv Hl' Rt Rp x k Hx). apply T4; auto.
  - exists (set_frame s t (set_refcount f (f_refcount f - 1))), l, []. split; [reflexivity|]. split; [lia|].
    split; [|auto]. split; auto; [apply counted_down; auto|lia|]. intros t' Hin. apply not_elem_of_nil in Hin. contradiction.
Qed.

Lemma unmapped_trans own lo mid hi s s1 s2 freed : 0 <= lo <= mid -> mid <= hi <= 2 ^ va_bits P -> unmapped own lo mid s s1 [] -> unmapped own mid hi s1 s2 freed ->
  unmapped own lo hi s s2 freed.
Proof.
  intros Hlo Hhi [T1 C1 G1 R1 I1 A1 D1 F1] [T2 C2 G2 R2 I2 A2 D2 F2]. split; auto; try congruence.
  - intros v Hv. destruct (Z.lt_ge_cases v mid) as [Hm|Hm]; [|apply G2; lia]. rewrite R2 by lia. apply G1. lia.
  - intros v Hv Hn. rewrite R2 by lia. apply R1; lia.
  - rewrite D2, D1. reflexivity.
Qed.

(** ** Unmapping pages of one table *)

Context (alloc_table early_alloc_page : A -> mem -> outcome (option Z * A * mem)) (free_page : A -> Z -> outcome A).
#[local] Abbreviation page_addr := (entry_addr P 1).

Lemma counted_clear s own t l b i : tree (s_mem s) own root -> counted s own -> own t = Some (l, b) -> 0 <= i < 2 ^ bits l ->
  pte_is_present P (entry (s_mem s) t i) = true -> counted_but (one_at t) (pte_write s (t + 8 * i) 0) own.
Proof.
  intros TR C O Hi Hp t' l' b' O'. destruct (C t' l' b' O') as (f & Hf & Hb). exists f. split; [exact Hf|].
  change (s_mem (pte_write s (t + 8 * i) 0)) with (store 8 (s_mem s) (t + 8 * i) 0).
  rewrite (clear_present (s_mem s) own TR t l b i O Hi t' l' b' O' Hp). lia.
Qed.

Section Entry.
Context (s : state) (own : ownership) (w : pt_walker) (b i : Z).
#[local] Abbreviation v := (page_addr b i).
#[local] Abbreviation t := (tables w 1).
Context (TR : tree (s_mem s) own root) (C : counted s own) (At : at_pos (s_mem s) root w v) (H1 : level w = 1) (Hfree : free_pgtable w = true).
Context (Hi : 0 <= i < 2 ^ bits 1) (Hv : 0 <= v < 2 ^ va_bits P) (Hve : v + PAGE_SIZE P <= 2 ^ va_bits P).
Context (Hp : pte_is_present P (entry (s_mem s) t i) = true).
Lemma entry_own : own t = Some (1, b) /\ reaches (s_mem s) root v 1 t.
Proof.
  pose proof (ok_top _ _ _ _ OK). pose proof (at_tables _ _ _ _ _ _ At 1 ltac:(lia)) as R.
  pose proof (reaches_own P OK HHDM_OFFSET _ own root TR v 1 t Hv R) as O. rewrite (entry_addr_tbl P OK) in O by lia. auto.
Qed.
(** The addresses of the page. *)
Lemma entry_covers x : covers P 1 b i 1 x <-> v <= x < v + PAGE_SIZE P.
Proof.
  unfold covers, PAGE_SIZE, PAGE_SHIFT, entry_addr. pose proof (ok_shift_1 _ _ _ _ OK). assert (0 < 2 ^ shift 1) by lia.
  pose proof (Z.div_mod x (2 ^ shift 1) ltac:(lia)). pose proof (Z.mod_pos_bound x (2 ^ shift 1) ltac:(lia)).
  set (q := x / 2 ^ shift 1) in *. set (e := b * 2 ^ bits 1 + i). split; intros Hx; nia.
Qed.
Lemma unmap_entry_ok fuel : exists s' l' freed, unmap_entry P HHDM_OFFSET alloc_table early_alloc_page fuel s w 1 false = Ok (s', set_level w l') /\
  1 <= l' <= top /\ unmapped own v (v + PAGE_SIZE P) s s' freed /\
  (2 <= present_in (s_mem s) 1 t -> l' = 1 /\ freed = [] /\ s_mem s' = store 8 (s_mem s) (t + 8 * i) 0).
Proof.
  pose proof (ok_top _ _ _ _ OK). destruct entry_own as (O & R). unfold unmap_entry, pte_ptr.
  rewrite (reaches_nonzero P OK HHDM_OFFSET Hhhdm _ own root TR v 1 t Hv R). cbn [mbind outcome_bind].
  rewrite (at_indices _ _ _ _ _ _ At 1), (entry_addr_index P OK) by lia. set (s1 := pte_write s (t + 8 * i) 0).
  unfold ptwalker_deref_from_level. rewrite H1, (at_top _ _ _ _ _ _ At), Hfree. destruct (Z.ltb_spec top 1); [lia|]. cbn [Z.ltb Z.compare orb c_assert mbind outcome_bind].
  assert (TR1 : tree (s_mem s1) own root) by apply (clear_tree (s_mem s) own TR t 1 b i O Hi).
  destruct (deref_loop_ok (Z.to_nat (top - 1 + 1)) s1 own v 1 w) as (s' & l' & freed & E & Hl' & U & Hst); auto; try lia.
  - apply At.
  - intros k Hk. apply (clear_above (s_mem s) own TR t 1 b i O Hi); [exact Hv|lia|]. apply At. lia.
  - intros k Hk. apply At. lia.
  - apply (counted_clear s own t 1 b i); auto.
  - exists s', l', freed. split; [exact E|]. split; [lia|]. split.
    + destruct U as [T1 T2 _ T3 T4 T5 T6 T7]. split; auto.
      * intros x Hx. assert (Hx' : 0 <= x < 2 ^ va_bits P) by lia. rewrite T3 by (auto; lia). apply entry_covers in Hx.
        destruct (covers_index P OK 1 b i 1 x ltac:(lia) ltac:(lia) ltac:(lia) Hx) as (Et & Ei).
        apply (clear_gone (s_mem s) own TR t 1 b i O Hi x Hx'); [|lia]. apply (reaches_same P OK HHDM_OFFSET _ _ v x); [|exact R].
        rewrite (entry_addr_tbl P OK) by lia. auto.
      * intros x Hx Hn. rewrite T3 by (auto; lia). apply (clear_translate (s_mem s) own TR t 1 b i O Hi x Hx). rewrite entry_covers. exact Hn.
      * intros x l0 t0 Hx R0. apply (clear_reaches (s_mem s) own TR t 1 b i O Hi); [exact Hx|]. apply T4; auto.
    + intros H2. destruct Hst as (E1 & E2 & E3); [|auto].
      change (s_mem s1) with (store 8 (s_mem s) (t + 8 * i) 0). rewrite (clear_present (s_mem s) own TR t 1 b i O Hi t 1 b O Hp). unfold one_at. rewrite Z.eqb_refl. lia.
Qed.
End Entry.

(** The walker moves to the next page of the table. *)
Lemma next_page (s : state) w b i : at_pos (s_mem s) root w (page_addr b i) -> level w = 1 -> 0 <= i -> i + 1 < 2 ^ bits 1 ->
  exists w', ptwalker_next P HHDM_OFFSET alloc_table early_alloc_page s w = Ok (E_PT_WALKER_OK, s, w') /\ level w' = 1 /\
    free_pgtable w' = free_pgtable w /\ tables w' 1 = tables w 1 /\ at_pos (s_mem s) root w' (page_addr b (i + 1)).
Proof.
  intros At H1 Hi Hi1. pose proof (ok_top _ _ _ _ OK). destruct (u16_count P OK 1 ltac:(lia)) as (Ec & E16).
  unfold ptwalker_next, ptwalker_next_with_options. rewrite H1, (at_top _ _ _ _ _ _ At). destruct (Z.ltb_spec top 1); [lia|]. cbn [Z.ltb Z.compare orb].
  rewrite (at_indices _ _ _ _ _ _ At 1), (entry_addr_index P OK) by lia. rewrite (wrap_small 16) by (unfold is_u; lia). rewrite Ec.
  destruct (Z.ltb_spec (i + 1) (2 ^ bits 1)); [|lia]. cbn [Z.eqb Pos.eqb]. eexists. split; [reflexivity|]. split; [exact H1|]. split; [reflexivity|]. split; [reflexivity|].
  assert (Et : forall k, 1 <= k <= top -> tbl k (page_addr b i) = tbl k (page_addr b (i + 1)) /\ (1 < k -> index (page_addr b i) k = index (page_addr b (i + 1)) k)).
  { intros k Hk. apply (tbl_same_above P OK 1); try lia. rewrite !(entry_addr_tbl P OK) by lia. reflexivity. }
  split; cbn.
  - apply At.
  - apply At.
  - intros k Hk. apply (reaches_same P OK HHDM_OFFSET _ _ (page_addr b i)); [apply Et; lia|apply At; lia].
  - intros k Hk. destruct (Z.eqb_spec k 1) as [->|]; [symmetry; apply (entry_addr_index P OK); lia|]. rewrite (at_indices _ _ _ _ _ _ At) by lia. apply Et; lia.
  - left. exact H1.
Qed.
Lemma page_addr_next b i k : page_addr b (i + k) = page_addr b i + k * PAGE_SIZE P.
Proof. unfold entry_addr, PAGE_SIZE, PAGE_SHIFT. ring. Qed.

Lemma unmap_loop_ok vr mo dont n : forall fuel s own w b i, (n < fuel)%nat -> (0 < n)%nat -> tree (s_mem s) own root -> counted s own ->
  at_pos (s_mem s) root w (page_addr b i) -> level w = 1 -> free_pgtable w = true -> 0 <= i -> i + Z.of_nat n <= 2 ^ bits 1 ->
  0 <= page_addr b i -> page_addr b (i + Z.of_nat n) <= 2 ^ va_bits P ->
  (forall j, i <= j < i + Z.of_nat n -> pte_is_present P (entry (s_mem s) (tables w 1) j) = true) ->
  exists s' freed, unmap_loop P HHDM_OFFSET alloc_table early_alloc_page fuel s w 1 (Z.of_nat n * PAGE_SIZE P) vr mo (PgunmapOptions false dont) = Ok (true, s') /\
    unmapped own (page_addr b i) (page_addr b (i + Z.of_nat n)) s s' freed.
Proof.
  induction n as [|n IH]; intros fuel s own w b i Hf Hn TR C At H1 Hfr Hi Hin Hlo Hhi Hp; [lia|]. destruct fuel as [|fuel]; [lia|].
  pose proof (page_size_pos P OK) as Hps. rewrite page_addr_next in Hhi. cbn [unmap_loop]. rewrite H1. cbn [Z.ltb Z.compare Pos.compare Pos.compare_cont andb unmap_free_pages].
  destruct (unmap_entry_ok s own w b i TR C At H1 Hfr ltac:(lia) ltac:(nia) ltac:(nia) (Hp i ltac:(lia)) (S fuel)) as (s1 & l1 & freed & -> & Hl1 & U & Hst).
  cbn [mbind outcome_bind]. change (PAGE_SIZE_AT_LEVEL P 1) with (PAGE_SIZE P).
  assert (Hva : 2 ^ va_bits P < 2 ^ 64) by (apply Z.pow_lt_mono_r; [lia|lia|apply (ok_va _ _ _ _ OK)]).
  rewrite (wrap_small 64) by (unfold is_u; nia). replace (Z.of_nat (S n) * PAGE_SIZE P - PAGE_SIZE P) with (Z.of_nat n * PAGE_SIZE P) by lia.
  destruct n as [|n']; [exists s1, freed; split; [reflexivity|]; rewrite (page_addr_next b i (Z.of_nat 1)), Z.mul_1_l; exact U|].
  set (n := S n') in *. destruct (Z.eqb_spec (Z.of_nat n * PAGE_SIZE P) 0); [nia|]. pose proof (bits_pos P OK 1 ltac:(lia)).
  destruct (entry_own s own w b i TR At H1 ltac:(lia) ltac:(nia)) as (O & _).
  destruct Hst as (-> & -> & Em).
  { transitivity (Z.of_nat (S n)); [lia|]. apply (count_run _ _ i); try lia. exact Hp. }
  assert (At1 : at_pos (s_mem s1) root (set_level (set_level w 1) 1) (page_addr b i)).
  { rewrite Em. destruct At as [A1 A2 A3 A4 _]. split; cbn; auto; try lia. intros k Hk.
    apply (clear_above (s_mem s) own TR (tables w 1) 1 b i O); [lia|nia|lia|]. apply A3. lia. }
  destruct (next_page s1 _ b i At1) as (w' & -> & L' & F' & T' & At'); [reflexivity|lia|lia|]. cbn [mbind outcome_bind].
  change (lower_to P (Z.to_nat 1) (Z.of_nat n * PAGE_SIZE P)) with (if Z.of_nat n * PAGE_SIZE P <? PAGE_SIZE P then Panic else Ok 1).
  destruct (Z.ltb_spec (Z.of_nat n * PAGE_SIZE P) (PAGE_SIZE P)); [nia|]. cbn [mbind outcome_bind].
  destruct (IH fuel s1 own w' b (i + 1)) as (s2 & freed & -> & U2); auto; try lia; try (rewrite page_addr_next; nia); try apply U.
  - rewrite F'. exact Hfr.
  - replace (i + 1 + Z.of_nat n) with (i + Z.of_nat (S n)) by lia. rewrite page_addr_next. exact Hhi.
  - intros j Hj. rewrite T', Em. change (tables (set_level (set_level w 1) 1) 1) with (tables w 1). rewrite (clear_kept (s_mem s) own TR (tables w 1) 1 b i O ltac:(lia) _ 1 b j O) by lia. apply Hp. lia.
  - exists s2, freed. split; [reflexivity|]. replace (i + 1 + Z.of_nat n) with (i + Z.of_nat (S n)) in U2 by lia.
    rewrite (page_addr_next b i 1), Z.mul_1_l in U2. apply (unmapped_trans own _ (page_addr b i + PAGE_SIZE P) _ s s1); auto; try lia. rewrite page_addr_next. nia.
Qed.

(** ** The address of a walker *)

Lemma lor_disjoint n a b : 0 <= n -> is_u n a -> b mod 2 ^ n = 0 -> Z.lor a b = a + b.
Proof.
  intros Hn Ha Hb. rewrite <- Z.add_lor_land. enough (E : Z.land a b = 0) by lia. apply Z.bits_inj'. intros i Hi. rewrite Z.land_spec, Z.bits_0.
  destruct (Z.lt_ge_cases i n) as [Hl|Hl]; [rewrite (testbit_low b n i) by auto; apply andb_false_r|].
  rewrite (is_u_testbit_high n a) by (exact Ha || lia). reflexivity.
Qed.

Lemma virt_addr_loop_ok v w n : forall l acc, n = Z.to_nat (top - l + 1) -> 1 <= l <= top + 1 -> (l <= top -> 0 <= acc < 2 ^ shift l) -> 0 <= v < 2 ^ va_bits P ->
  (forall k, l <= k <= top -> indices w k = index v k) ->
  virt_addr_loop P n w l acc = acc + (if l <=? top then v / 2 ^ shift l * 2 ^ shift l else 0).
Proof.
  induction n as [|n IH]; intros l acc Hn Hl Hacc Hv Hi; cbn [virt_addr_loop]; [destruct (Z.leb_spec l top); lia|].
  destruct (Z.leb_spec l top) as [Hle|]; [|lia]. specialize (Hacc Hle). assert (L : 1 <= l <= top) by lia.
  pose proof (index_bound P OK l v L) as Hx. pose proof (bits_pos P OK l L) as Hb. pose proof (shift_pos P OK l L) as Hs.
  pose proof (shift_le_va P OK l L) as Hle2. destruct (ok_bits _ _ _ _ OK l L) as (_ & _ & _ & Em). destruct (ok_va _ _ _ _ OK) as (_ & H64).
  rewrite Hi by lia. rewrite Em, land_pow2_pred, Z.mod_small, Z.shiftl_mul_pow2 by lia.
  assert (B : 0 <= index v l * 2 ^ shift l /\ index v l * 2 ^ shift l + 2 ^ shift l <= 2 ^ (shift l + bits l)) by (rewrite Z.pow_add_r by lia; nia).
  assert (B2 : 2 ^ (shift l + bits l) <= 2 ^ 63) by (apply Z.pow_le_mono_r; lia).
  rewrite (wrap_small 64) by (unfold is_u; lia).
  assert (El : Z.lor acc (index v l * 2 ^ shift l) = acc + index v l * 2 ^ shift l).
  { apply (lor_disjoint (shift l)); [lia|exact Hacc|]. apply Z.mod_mul. lia. }
  rewrite El, IH; try lia; [|intros Hl1; rewrite (ok_shift _ _ _ _ OK) by lia; lia|intros k Hk; apply Hi; lia].
  pose proof (block_split P OK l v L) as Bs. rewrite Bs. destruct (Z.leb_spec (l + 1) top).
  - rewrite <- (tbl_above P OK) by lia. rewrite (ok_shift _ _ _ _ OK l), Z.pow_add_r by lia. ring.
  - replace l with top in * by lia. rewrite (tbl_top P OK v Hv). ring.
Qed.
Lemma get_virt_addr_ok m w virt : at_pos m root w (va P virt) -> level w = 1 -> virt mod PAGE_SIZE P = 0 ->
  sign_extend_virt_addr P (va P virt) = Ok virt -> ptwalker_get_virt_addr P w = Ok virt.
Proof.
  intros At H1 Ha Hc. pose proof (ok_top _ _ _ _ OK). pose proof (va_range P OK virt). pose proof (shift_pos P OK 1 ltac:(lia)).
  unfold ptwalker_get_virt_addr. rewrite H1, (at_top _ _ _ _ _ _ At).
  rewrite (virt_addr_loop_ok (va P virt)); try lia; [|intros k Hk; apply At; lia]. destruct (Z.leb_spec 1 top); [|lia].
  assert (Av : va P virt mod 2 ^ shift 1 = 0) by (rewrite (va_offset P OK) by lia; exact Ha).
  rewrite Z.add_0_l, (Z.mul_comm (va P virt / _)), <- (proj2 (Z.div_exact (va P virt) (2 ^ shift 1) ltac:(lia)) Av). exact Hc.
Qed.

(** ** [pgunmap_at] *)

Lemma translated_present m v l t p : reaches m root v l t -> l = 1 -> translate m root v = Some p -> pte_is_present P (entry m t (index v 1)) = true.
Proof.
  intros R -> E. rewrite (translate_at P OK HHDM_OFFSET m root v 1 t R (or_introl eq_refl)) in E. unfold page_at in E.
  destruct (pte_is_present P _); [reflexivity|discriminate].
Qed.

(** The range is page aligned and canonical, less than a page of level 2, in one table of
    level 1 and mapped by it. *)
Record can_unmap (s : state) (own : ownership) (r : range) : Prop := {
  cu_virt : front r mod PAGE_SIZE P = 0 /\ sign_extend_virt_addr P (va P (front r)) = Ok (front r);
  cu_size : 0 < size r < PAGE_SIZE_AT_LEVEL P 2 /\ size r mod PAGE_SIZE P = 0;
  cu_table : tbl 1 (va P (front r)) = tbl 1 (va P (front r) + size r - 1);
  cu_small : exists t, reaches (s_mem s) root (va P (front r)) 1 t;
  cu_mapped : forall x, va P (front r) <= x < va P (front r) + size r -> translate (s_mem s) root x <> None;
  cu_tree : tree (s_mem s) own root;
  cu_counted : counted s own }.

Lemma table_end l v : 1 <= l <= top -> 0 <= v < 2 ^ va_bits P -> (tbl l v + 1) * 2 ^ (shift l + bits l) <= 2 ^ va_bits P.
Proof.
  intros L Hv. pose proof (shift_le_va P OK l L). pose proof (bits_pos P OK l L). pose proof (shift_pos P OK l L).
  assert (E : 2 ^ va_bits P = 2 ^ (va_bits P - (shift l + bits l)) * 2 ^ (shift l + bits l)) by (rewrite <- Z.pow_add_r by lia; f_equal; lia).
  rewrite E. apply Z.mul_le_mono_nonneg_r; [lia|]. apply Z.le_succ_l. apply Z.div_lt_upper_bound; [lia|]. rewrite Z.mul_comm, <- E. lia.
Qed.
(** The pages of the range as entries of the table. *)
Lemma can_unmap_entries s own r : can_unmap s own r -> exists b i n, va P (front r) = page_addr b i /\ size r = Z.of_nat n * PAGE_SIZE P /\
  (0 < n)%nat /\ 0 <= i /\ i + Z.of_nat n <= 2 ^ bits 1 /\ page_addr b (i + Z.of_nat n) <= 2 ^ va_bits P.
Proof.
  intros [(Hv & Hc) (Hs & Hsa) Ht _ _ _ _]. set (v := va P (front r)) in *. pose proof (page_size_pos P OK) as Hps. pose proof (ok_top _ _ _ _ OK).
  pose proof (va_range P OK (front r)) as Hva. fold v in Hva. assert (L : 1 <= 1 <= top) by lia. pose proof (index_bound P OK 1 v L) as Hi.
  assert (Av : v mod PAGE_SIZE P = 0) by (unfold v; etransitivity; [apply (va_offset P OK (front r) 1); lia|exact Hv]).
  pose proof (block_split P OK 1 v L) as B. change (2 ^ shift 1) with (PAGE_SIZE P) in B.
  pose proof (Z.div_exact v (PAGE_SIZE P) ltac:(lia)) as (_ & Ev). specialize (Ev Av). pose proof (Z.div_exact (size r) (PAGE_SIZE P) ltac:(lia)) as (_ & Es). specialize (Es Hsa).
  set (n := size r / PAGE_SIZE P) in *. assert (Hn : 0 < n) by nia.
  exists (tbl 1 v), (index v 1), (Z.to_nat n). rewrite Z2Nat.id by lia. assert (Ea : v = page_addr (tbl 1 v) (index v 1)).
  { unfold entry_addr. change (2 ^ shift 1) with (PAGE_SIZE P). rewrite <- B. lia. }
  assert (Hlast : (v + size r - 1) / PAGE_SIZE P = v / PAGE_SIZE P + n - 1).
  { symmetry. apply (Z.div_unique _ _ _ (PAGE_SIZE P - 1)); [lia|]. rewrite Ev at 1. rewrite Es at 1. ring. }
  pose proof (block_split P OK 1 (v + size r - 1) L) as B2. change (2 ^ shift 1) with (PAGE_SIZE P) in B2. pose proof (index_bound P OK 1 (v + size r - 1) L) as Hi2.
  assert (Hin : index v 1 + n <= 2 ^ bits 1) by (rewrite <- Ht in B2; lia).
  split; [exact Ea|]. split; [lia|]. split; [lia|]. split; [lia|]. split; [exact Hin|].
  transitivity ((tbl 1 v + 1) * 2 ^ (shift 1 + bits 1)).
  { rewrite <- (entry_addr_last P OK 1) by lia. unfold entry_addr. nia. }
  apply table_end; [exact L|exact Hva].
Qed.

End Facts.
