(* ===== verification/UnmapDemo.v ===== *)
(** * Unmapping on the small machine

    The example of [pgunmap_at_unmaps], on tables [pgmap_at] has made, and the ranges outside
    of its conditions for which unmapping takes away too much or fails. *)

From S2P Require Import Prelude Mem Arith Range Refcount Hhdm Paging Walker PageTable WalkerFacts TableFill Pgmap PgmapLevels PgmapFacts PgmapDemo Unmap UnmapFacts.

Abbreviation demo_result := (outcome (bool * pt_state (list Z) * bool)).
Definition then_unmap (o : demo_result) (r : range) : demo_result :=
  '(_, s, _) ← o;
  pgunmap_at demo_paging demo_hhdm list_alloc list_alloc list_free 1000 s true demo_roots r (Some (demo_options false true)) (PgunmapOptions false false).

(** ** The example *)

(** Three pages at [0x5000], of one table. *)
Definition three_pages : demo_result := demo_pgmap 1000 (demo_state 5) (Range 0x800000 0x3000) 0x5000 false.
Definition mapped_state : pt_state (list Z) := match three_pages with Ok (_, s, _) => s | _ => demo_state 0 end.
Definition table_of (i : Z) : Z := demo_hhdm + 0x200000 + 4096 * i.
Definition mapped_own : ownership := fun t =>
  if t =? demo_root then Some (4, 0) else if t =? table_of 0 then Some (3, 0) else if t =? table_of 1 then Some (2, 0)
  else if t =? table_of 2 then Some (1, 0) else None.
Lemma mapped_own_inv t l b : mapped_own t = Some (l, b) -> b = 0 /\
  (t = demo_root /\ l = 4 \/ t = table_of 0 /\ l = 3 \/ t = table_of 1 /\ l = 2 \/ t = table_of 2 /\ l = 1).
Proof.
  unfold mapped_own. repeat match goal with |- context [t =? ?x] => destruct (Z.eqb_spec t x) as [->|] end; intros E; [..|discriminate];
    injection E as <- <-; auto 10.
Qed.
(** The tables below a table, by evaluation. *)
Definition child_check (m : mem) (t l : Z) : bool := forallb (fun i =>
  let e := entry m t (Z.of_nat i) in
  negb (is_table demo_paging l e) || match mapped_own (next_table demo_paging demo_hhdm l e) with Some (l', b') => (l' =? l - 1) && (b' =? Z.of_nat i) | None => false end)
  (seq 0 512).
Lemma child_check_ok : let m := s_mem mapped_state in child_check m demo_root 4 && child_check m (table_of 0) 3 && child_check m (table_of 1) 2 = true.
Proof. vm_compute. reflexivity. Qed.
Lemma child_ok m t l i : child_check m t l = true -> 0 <= i < 512 -> is_table demo_paging l (entry m t i) = true ->
  mapped_own (next_table demo_paging demo_hhdm l (entry m t i)) = Some (l - 1, i).
Proof.
  intros Hc Hi He. unfold child_check in Hc. rewrite forallb_forall in Hc. assert (Hin : In (Z.to_nat i) (seq 0 512)) by (apply in_seq; lia).
  specialize (Hc _ Hin). cbv beta zeta in Hc. rewrite Z2Nat.id, He in Hc by apply Hi. cbn [negb orb] in Hc. destruct (mapped_own _) as [[l' b']|]; [|discriminate].
  apply andb_true_iff in Hc as (E1 & E2). apply Z.eqb_eq in E1, E2. congruence.
Qed.
Lemma demo_phys e l l' : pte_to_phys demo_paging e l' = pte_to_phys demo_paging e l.
Proof. reflexivity. Qed.
Lemma mapped_tree : tree demo_paging demo_hhdm (s_mem mapped_state) mapped_own demo_root.
Proof.
  assert (K : let m := s_mem mapped_state in child_check m demo_root 4 && child_check m (table_of 0) 3 && child_check m (table_of 1) 2 = true) by exact child_check_ok.
  generalize dependent (s_mem mapped_state). intros m K. cbv zeta in K. rewrite !andb_true_iff in K. destruct K as ((K4 & K3) & K2).
  split; [reflexivity| |].
  - intros t l b O. apply mapped_own_inv in O as (_ & [(-> & ->)|[(-> & ->)|[(-> & ->)|(-> & ->)]]]); vm_compute; split_and?; congruence.
  - intros t l b i O Hl Hi Et. split; [intros l'; apply demo_phys|]. change (2 ^ pt_bits demo_paging l) with 512 in Hi. change (0 * 512 + i) with i.
    apply mapped_own_inv in O as (-> & [(-> & ->)|[(-> & ->)|[(-> & ->)|(_ & ->)]]]); cbn [Z.mul Z.add];
      [apply (child_ok m demo_root 4 i K4 Hi Et)|apply (child_ok m (table_of 0) 3 i K3 Hi Et)|apply (child_ok m (table_of 1) 2 i K2 Hi Et)|lia].
Qed.
Definition count_check (s : pt_state (list Z)) (t l : Z) : bool :=
  match s_frames s t with
  | Some f => (present_in demo_paging (s_mem s) l t + (if l =? 4 then 1 else 0) <=? f_refcount f) && (f_refcount f <? REFCOUNT_MAX)
  | None => false
  end.
Lemma count_check_ok : let c := count_check mapped_state in c demo_root 4 && c (table_of 0) 3 && c (table_of 1) 2 && c (table_of 2) 1 = true.
Proof. vm_compute. reflexivity. Qed.
Lemma mapped_counted : counted demo_paging mapped_state mapped_own.
Proof.
  pose proof count_check_ok as K. generalize dependent mapped_state. intros s K. cbv zeta in K. rewrite !andb_true_iff in K. destruct K as (((K4 & K3) & K2) & K1). intros t l b O.
  assert (K : count_check s t l = true) by (apply mapped_own_inv in O as (_ & [(-> & ->)|[(-> & ->)|[(-> & ->)|(-> & ->)]]]); assumption).
  unfold count_check in K. destruct (s_frames s t) as [f|]; [|discriminate]. exists f. split; [reflexivity|].
  apply andb_true_iff in K as (E1 & E2). apply Z.leb_le in E1. apply Z.ltb_lt in E2. change (pgt_get_top_level demo_paging) with 4. lia.
Qed.

(** The second and third page are unmapped. *)
Definition two_pages : range := Range 0x6000 0x2000.
Definition page_check (s : pt_state (list Z)) : bool := forallb (fun i =>
  let e := entry (s_mem s) (table_of 2) (Z.of_nat i) in pte_is_present demo_paging e) (seq 6 2).
Lemma page_check_ok : page_check mapped_state = true /\ mmu_walk demo_paging demo_hhdm 4 (s_mem mapped_state) demo_root 0x6000 = (1, table_of 2).
Proof. vm_compute. auto. Qed.
Lemma mapped_reaches : reaches demo_paging demo_hhdm (s_mem mapped_state) demo_root 0x6000 1 (table_of 2).
Proof.
  destruct (walk_ends demo_paging (x86_64_ok false false) demo_hhdm (s_mem mapped_state) demo_root 0x6000) as (l & t & E & R & _).
  pose proof (proj2 page_check_ok) as W. change (Z.to_nat (pgt_get_top_level demo_paging)) with 4%nat in E. rewrite W in E. injection E as <- <-. exact R.
Qed.
Lemma mapped_can_unmap : can_unmap demo_paging demo_hhdm demo_root mapped_state mapped_own two_pages.
Proof.
  pose proof mapped_reaches as R. pose proof (proj1 page_check_ok) as K. pose proof mapped_tree as T. pose proof mapped_counted as C.
  generalize dependent mapped_state. intros s R K T C. change (va demo_paging (front two_pages)) with 0x6000 in *.
  split; [split; vm_compute; reflexivity|split; [split; vm_compute; reflexivity|reflexivity]|vm_compute; reflexivity|exists (table_of 2); exact R| |exact T|exact C].
  change (size two_pages) with 0x2000. change (va demo_paging (front two_pages)) with 0x6000. intros x Hx.
  assert (I : virt_to_pt_index demo_paging x 1 = 6 \/ virt_to_pt_index demo_paging x 1 = 7).
  { rewrite (index_spec demo_paging (x86_64_ok false false)) by (cbn; lia). change (2 ^ PAGE_SHIFTS demo_paging 1) with 4096. change (2 ^ pt_bits demo_paging 1) with 512.
    pose proof (Z.div_lt_upper_bound x 4096 8 ltac:(lia) ltac:(lia)). pose proof (Z.div_le_lower_bound x 4096 6 ltac:(lia) ltac:(lia)).
    rewrite Z.mod_small by lia. lia. }
  assert (Rx : reaches demo_paging demo_hhdm (s_mem s) demo_root x 1 (table_of 2)).
  { apply (reaches_same demo_paging (x86_64_ok false false) demo_hhdm _ _ 0x6000); [|exact R]. unfold tbl.
    change (2 ^ (PAGE_SHIFTS demo_paging 1 + pt_bits demo_paging 1)) with 2097152. rewrite !Z.div_small by lia. reflexivity. }
  rewrite (translate_at demo_paging (x86_64_ok false false) demo_hhdm _ _ _ _ _ Rx (or_introl eq_refl)). unfold page_at.
  unfold page_check in K. rewrite forallb_forall in K. pose proof (K 6%nat ltac:(cbn; auto)) as K6. pose proof (K 7%nat ltac:(cbn; auto)) as K7. cbv beta zeta in K6, K7.
  destruct I as [-> | ->]; [change 6 with (Z.of_nat 6); rewrite K6|change 7 with (Z.of_nat 7); rewrite K7]; discriminate.
Qed.
(** Unmapping all three pages releases the three tables below the root. *)
Lemma unmap_releases_tables : demo_after (then_unmap three_pages (Range 0x5000 0x3000)) [0x5000; 0x6000; 0x7000] = Ok (true, [None; None; None]) /\
  ('(_, s, _) ← then_unmap three_pages (Range 0x5000 0x3000); Ok (s_delayed s)) = Ok [table_of 0; table_of 1; table_of 2].
Proof. vm_compute. auto. Qed.

(** ** Defects *)


(** A range that begins inside a large page cannot be unmapped: splitting the page clears the
    tables of the walker, or the entry, and the address of the page is read from there
    afterwards. *)
Lemma ref_down_mem {A} (s s' : pt_state A) page last : table_ref_down s page = Ok (last, s') -> s_mem s' = s_mem s.
Proof.
  unfold table_ref_down. destruct (get_frame s page) as [f| | |]; cbn [mbind outcome_bind]; try discriminate.
  destruct (ref_down (f_refcount f)) as [[l n]| | |]; cbn [mbind outcome_bind]; try discriminate. intros E. injection E as _ <-. reflexivity.
Qed.
Lemma deref_loop_shape {A} n : forall (s s' : pt_state A) w w' table l, deref_loop n s w table l true = Ok (s', w') ->
  n = Z.to_nat (top_level w - l + 1) -> l <= top_level w + 1 ->
  exists l', w' = set_level w l' /\ l <= l' <= top_level w + 1 /\ (l' = l -> s_mem s' = s_mem s) /\
    (l < l' <= top_level w -> pte_read s' (tables w l' + 8 * indices w l') = 0).
Proof.
  induction n as [|n IH]; intros s s' w w' table l E Hn Hl; cbn [deref_loop] in E.
  { injection E as <- <-. exists l. split; [reflexivity|]. split; [lia|]. split; [auto|lia]. }
  destruct (table_ref_down s table) as [[last s1]| | |] eqn:Ed; cbn [mbind outcome_bind] in E; try discriminate. apply ref_down_mem in Ed.
  destruct last; cbn [negb] in E; [|injection E as <- <-; exists l; split; [reflexivity|]; split; [lia|]; split; [auto|lia]].
  destruct (Z.eqb_spec l (top_level w)) as [El|El]; cbn [negb] in E.
  - cbn [call_free mbind outcome_bind] in E. destruct (IH _ _ _ _ _ _ E ltac:(lia) ltac:(lia)) as (l' & -> & Hl' & _). exists l'. split; [reflexivity|]. split; lia.
  - destruct (pte_ptr (tables w (l + 1)) (indices w (l + 1))) as [pte| | |] eqn:Ep; cbn [call_free mbind outcome_bind] in E; try discriminate.
    destruct (IH _ _ _ _ _ _ E ltac:(lia) ltac:(lia)) as (l' & -> & Hl' & Hm & Hr). exists l'. split; [reflexivity|]. split; [lia|]. split; [lia|]. intros Hlt.
    destruct (Z.eq_dec l' (l + 1)) as [E1|]; [|apply Hr; lia]. specialize (Hm E1). unfold pte_read. rewrite Hm, E1. unfold pte_ptr in Ep.
    destruct (_ =? 0); [discriminate|]. injection Ep as <-. apply load_store.
Qed.

Section InLargePage.
Context (P : paging) (HHDM_OFFSET : Z) {A : Type} (alloc_table early_alloc_page : A -> mem -> outcome (option Z * A * mem)).
Context (Habsent : pte_is_present P 0 = false).
Lemma flush_mem fuel (s s' : pt_state A) pte l free :
  pageop_flush_pte_in_current_range P HHDM_OFFSET alloc_table early_alloc_page fuel s pte l free = Ok s' -> s_mem s' = s_mem s.
Proof.
  intros E. destruct (s_frames s (HHDM_OFFSET + pte_to_phys P pte l)) as [f|] eqn:Hf.
  2: { unfold pageop_flush_pte_in_current_range, get_frame, phys_to_page in E. rewrite Hf in E. discriminate. }
  destruct (f_is_table f) eqn:Ht; [pose proof (flush_table_stops P HHDM_OFFSET alloc_table early_alloc_page fuel s pte l free f Hf Ht) as N; rewrite E in N; discriminate|].
  unfold pageop_flush_pte_in_current_range, get_frame, phys_to_page in E. rewrite Hf in E. cbn [mbind outcome_bind] in E. rewrite Ht in E. cbn [negb] in E.
  unfold deref_page in E. destruct (table_ref_down s _) as [[last s1]| | |] eqn:Ed; cbn [mbind outcome_bind] in E; try discriminate. apply ref_down_mem in Ed.
  destruct last; injection E as <-; exact Ed.
Qed.
(** The walker has no table above the top one. *)
Lemma split_then_no_phys fuel (s s' : pt_state A) w w' split split' options : 1 <= level w <= top_level w -> tables w (top_level w + 1) = 0 ->
  split_large_page P HHDM_OFFSET alloc_table early_alloc_page fuel s w split (level w) options = Ok (s', w', split') ->
  forall phys, ptwalker_get_phys_addr P s' w' = Ok phys -> phys = INVALID_PHYS.
Proof.
  intros Hl H0 E phys. unfold split_large_page in E. destruct (c_assert _); cbn [mbind outcome_bind] in E; try discriminate.
  destruct (pte_ptr (tables w (level w)) (indices w (level w))) as [pte| | |]; cbn [mbind outcome_bind] in E; try discriminate.
  destruct (ptwalker_deref_from_level _ w (level w) true) as [[s1 w1]| | |] eqn:Ed; cbn [mbind outcome_bind] in E; try discriminate.
  destruct (ptwalker_get_virt_addr P w1); cbn [mbind outcome_bind] in E; try discriminate.
  destruct (if is_in_early options then _ else _) as [s2| | |] eqn:Ef; cbn [mbind outcome_bind] in E; try discriminate. injection E as <- <- _.
  assert (Em : s_mem s2 = s_mem s1) by (destruct (is_in_early options); [injection Ef as <-; reflexivity|exact (flush_mem _ _ _ _ _ _ Ef)]).
  unfold ptwalker_deref_from_level in Ed. rewrite Z.ltb_irrefl in Ed. destruct (Z.ltb_spec (top_level w) (level w)); [lia|]. cbn [orb] in Ed.
  destruct (c_assert (free_pgtable w)); cbn [mbind outcome_bind] in Ed; try discriminate.
  destruct (deref_loop_shape _ _ _ _ _ _ _ Ed eq_refl ltac:(lia)) as (l' & -> & Hl' & _ & Hr). unfold ptwalker_get_phys_addr, clear_levels, reset_levels_lower_than. cbn [level tables indices set_level].
  destruct (Z.ltb_spec l' 1); [congruence|]. destruct ((1 <? l') && _); [congruence|]. destruct (Z.leb_spec 1 l'); [|lia].
  destruct (Z.ltb_spec l' (level w + 1)) as [Hlt|Hge]; cbn [andb]; [discriminate|].
  destruct (Z.eq_dec l' (top_level w + 1)) as [->|]; [rewrite H0; discriminate|].
  unfold pte_ptr. destruct (tables w l' =? 0); [discriminate|]. cbn [mbind outcome_bind]. unfold pte_read in *. rewrite Em, Hr, Habsent by lia. cbn [negb]. congruence.
Qed.
Lemma unmap_in_large_page_stops fuel (s : pt_state A) w split r options a : 1 <= level w <= top_level w -> tables w (top_level w + 1) = 0 ->
  ptwalker_get_virt_addr P w = Ok a -> a < front r ->
  is_ok (split_initial_large_page_if_necessary P HHDM_OFFSET alloc_table early_alloc_page fuel s w split r options true) = false.
Proof.
  intros Hl H0 Ha Hlt. unfold split_initial_large_page_if_necessary. rewrite Ha. cbn [mbind outcome_bind]. destruct (Z.leb_spec (front r) a); [lia|].
  destruct options as [options|].
  - destruct (split_large_page _ _ _ _ _ _ _ _ _ options) as [[[s' w'] split']| | |] eqn:E; cbn [mbind outcome_bind]; try reflexivity.
    destruct (ptwalker_get_phys_addr P s' w') as [phys| | |] eqn:Ep; cbn [mbind outcome_bind]; try reflexivity.
    rewrite (split_then_no_phys _ _ _ _ _ _ _ _ Hl H0 E phys Ep). reflexivity.
  - destruct (split_large_page _ _ _ _ _ _ _ _ _ _) as [[[s' w'] split']| | |]; reflexivity.
Qed.
End InLargePage.

(** ** Other defects *)

(** A page put in front of the range to flush takes the last page out of it. *)
Lemma setup_loses_last_page P r virt : 0 <= virt -> virt + PAGE_SIZE P = front r -> front r + size r < 2 ^ 64 -> 0 < PAGE_SIZE P <= size r ->
  setup_for_address P r virt = Some (Range virt (size r)) /\ range_has_loc r (front r + size r - 1) = true /\
  range_has_loc (Range virt (size r)) (front r + size r - 1) = false.
Proof.
  intros Hv Hf He Hp. unfold setup_for_address. rewrite (wrap_small 64) by (unfold is_u; lia). rewrite Hf, Z.eqb_refl. split; [reflexivity|].
  unfold range_has_loc. cbn [front size]. rewrite !(wrap_small 64) by (unfold is_u; lia). split.
  - apply andb_true_iff. split; [apply Z.leb_le; lia|]. apply Z.ltb_lt. lia.
  - apply andb_false_iff. right. apply Z.ltb_ge. lia.
Qed.
(** Callers of [pgmap_alloc_at] are told that a range it refuses is mapped. *)
Definition demo_alloc_page (a : list Z) (m : mem) : outcome (Z * list Z * mem) :=
  match a with [] => Ok (INVALID_PHYS, [], m) | phys :: a => Ok (phys, a, m) end.
Definition demo_alloc_at (n : nat) (r : range) : outcome (pgmap_alloc_result * list (option Z)) :=
  '(result, s, _) ← pgmap_alloc_at demo_paging demo_hhdm list_alloc list_alloc list_free demo_alloc_page (fun _ => demo_alloc_page) 1000 (demo_state n) true
    demo_roots r (PgmapOptions 0x3 0x3 0 false false false);
  Ok (result, map (demo_translate s) [front r; front r + 0x1000]).
Lemma pgmap_alloc_at_examples :
  demo_alloc_at 5 (Range 0x5000 0x2000) = Ok (E_PGMAP_ALLOC_OK, [Some 0x203000; Some 0x204000]) /\
  demo_alloc_at 4 (Range 0x5000 0x2000) = Ok (E_PGMAP_ALLOC_PAGE_ALLOC_FAIL, [Some 0x203000; None]) /\
  demo_alloc_at 5 (Range 0x5800 0x2000) = Ok (E_PGMAP_ALLOC_OK, [None; None]).
Proof. vm_compute. auto. Qed.
