(* ===== verification/Strftime.v ===== *)
(** * Formatting times: lib/parse_strftime.c and lib/strftime.c, kernel/src/time/kstrftime.c

    The format, the string literals, the local arrays that numbers are printed into and the
    output are in one memory, as in the printf engine, and each character of the format is read
    when the code reads it.  The callback is the class [TimeSink]; its three clients are the
    buffer and the length of lib/strftime.c and the growing string of kernel/src/time.

    [handle_strftime_spec] calls itself for the directives that stand for others; every call has
    an array of its own, at [conv depth].  %c calls %T and %T calls %H, so three calls nest. *)

From Stdlib Require Import String Ascii.
From S2P Require Import Prelude Mem Alloc Arith Range KStdlib Ctype Convert Buffers Time Spinlock Printf Printk.
Import StringView MBuffer.

Record strftime_modifiers := StrftimeModifiers {
  locale_alt_repr : bool; locale_alt_numeric : bool; pad_spaces_to_number : bool;
  dont_pad_number : bool; pad_zeros : bool; capitalize_letters : bool; swap_letter_case : bool }.
Definition STRFTIME_MODIFIERS_INIT : strftime_modifiers :=
  StrftimeModifiers false false false false false false false.

Record strftime_spec_info := StrftimeSpec { sf_spec : Z; sf_mods : strftime_modifiers }.

(** The modifier a character is, if it is one. *)
Definition modifier (ch : Z) : option strftime_modifiers :=
  match ch with
  | 69 (* E *) => Some (StrftimeModifiers true false false false false false false)
  | 79 (* O *) => Some (StrftimeModifiers false true false false false false false)
  | 45 (* - *) => Some (StrftimeModifiers false false true false false false false)
  | 95 (* _ *) => Some (StrftimeModifiers false false false true false false false)
  | 48 (* 0 *) => Some (StrftimeModifiers false false false false true false false)
  | 94 (* ^ *) => Some (StrftimeModifiers false false false false false true false)
  | 35 (* # *) => Some (StrftimeModifiers false false false false false false true)
  | _ => None
  end.
(** The modifiers and [*iter_out]. *)
Definition parse_strftime_mods (m : mem) (iter : Z) : strftime_modifiers * Z :=
  match modifier (m iter) with
  | Some mods => (mods, iter + 1)
  | None => (STRFTIME_MODIFIERS_INIT, iter)
  end.

(** [parse_strftime_sv_callback]: the amount written, [*should_continue_out] afterwards, the
    memory and the state behind [cb_info]. *)
Class TimeSink (St : Type) := {
  time_sv_cb : option strftime_spec_info -> mem -> St -> string_view -> bool -> outcome (Z * bool * mem * St) }.

(** [*written_out], [*should_cont_out], the memory and the state of the callback. *)
Record progress (St : Type) := Progress { pg_written : Z; pg_cont : bool; pg_mem : mem; pg_sink : St }.
Arguments Progress {St}. Arguments pg_written {St}. Arguments pg_cont {St}.
Arguments pg_mem {St}. Arguments pg_sink {St}.
Definition set_mem {St} (o : progress St) (m : mem) : progress St := Progress (pg_written o) (pg_cont o) m (pg_sink o).
Definition set_cont {St} (o : progress St) (c : bool) : progress St := Progress (pg_written o) c (pg_mem o) (pg_sink o).

Definition MAX_SECOND_NUMBER_LENGTH : Z := 2.
Definition MAX_MINUTE_NUMBER_LENGTH : Z := 2.
Definition MAX_HOUR_NUMBER_LENGTH : Z := 2.
Definition MAX_YEAR_DAY_NUMBER_LENGTH : Z := 3.
Definition MAX_DAY_OF_MONTH_NUMBER_LENGTH : Z := 2.
Definition MAX_MONTH_NUMBER_LENGTH : Z := 2.
Definition MAX_WEEK_NUMBER_LENGTH : Z := 2.
Definition MAX_WEEKDAY_NUMBER_LENGTH : Z := 1.

(** [PAD_WITH_CHAR_IF_NECESSARY]: characters before the view into [conv_buffer]. *)
Fixpoint pad_loop (n : nat) (pad_ch i : Z) (buffer : list Z) : outcome (Z * list Z) :=
  match n with
  | O => Ok (i, buffer)
  | S n => buffer ← put (i - 1) pad_ch buffer; pad_loop n pad_ch (i - 1) buffer
  end.
Definition PAD_WITH_CHAR_IF_NECESSARY (mods : strftime_modifiers) (ch expected_len : Z) (sv : Z * Z * list Z)
    : outcome (Z * Z * list Z) :=
  let '(i, final_index, buffer) := sv in
  if negb (dont_pad_number mods) then
    let pad_ch := if pad_spaces_to_number mods then 32 else if pad_zeros mods then 48 else ch in
    let sv_length := final_index - i in
    if sv_length <? expected_len then
      '(i, buffer) ← pad_loop (Z.to_nat (expected_len - sv_length)) pad_ch i buffer;
      Ok (i, final_index, buffer)
    else Ok sv
  else Ok sv.

Definition newline : string := String (ascii_of_nat 10) EmptyString.
Definition tab : string := String (ascii_of_nat 9) EmptyString.

(** [iso_8601_get_week_number] of the fields, which calls itself at most once. *)
Definition week_number_of (tm : tm) : outcome Z :=
  year ← tm_year_to_year (tm_year tm);
  iso_8601_get_week_number 1 (tm_wday tm) (tm_mon_to_month (tm_mon tm)) year (u8 (tm_mday tm)) (u16 (tm_yday tm)).
(** The year of %g and %G. *)
Definition week_year_of (tm : tm) : outcome Z :=
  let month := tm_mon_to_month (tm_mon tm) in
  year ← tm_year_to_year (tm_year tm);
  week_number ← week_number_of tm;
  Ok (if (month =? 12) && (week_number =? 1) then u64 (year + 1)
      else if (month =? 1) && (52 <=? week_number) then u64 (year - 1) else year).

Section Strftime.
Context (a : arch) (cbo_size : Z) (fuel : nat) (lit : string -> Z) (conv : nat -> Z).
Context {St : Type} `{TimeSink St}.
Abbreviation action := (progress St -> outcome (progress St)).

Definition call_sv (i : option strftime_spec_info) (o : progress St) (sv : string_view) : outcome (progress St) :=
  '(written, c, m, s) ← time_sv_cb i (pg_mem o) (pg_sink o) sv (pg_cont o);
  Ok (Progress (u64 (pg_written o + written)) c m s).

(** The steps of a case, until the callback clears [*should_cont_out]. *)
Fixpoint in_turn (l : list action) (o : progress St) : outcome (progress St) :=
  match l with
  | [] => Ok o
  | f :: l => o ← f o; if pg_cont o then in_turn l o else Ok o
  end.

Section Spec.
(** A call of [handle_strftime_spec]: the recursive call, its array, its arguments. *)
Context (rec : strftime_spec_info -> progress St -> outcome (bool * progress St)).
Context (conv_buffer : Z) (spec_info : strftime_spec_info) (tm : tm).

Definition RECURSIVE_CALL_FOR_SPEC (other_spec : Z) : action := fun o =>
  '(valid_spec, o) ← rec (StrftimeSpec other_spec (sf_mods spec_info)) o;
  _ ← c_assert valid_spec; Ok o.
Definition CALL_CALLBACK (s : string) : action := fun o => call_sv (Some spec_info) o (SV_STATIC lit s).
(** [GET_SV_FROM_FUNC], and the question mark for a value out of range. *)
Definition name (valid : bool) (func func_upper : Z -> outcome string) (value : Z) : action := fun o =>
  s ← (if valid then (if capitalize_letters (sf_mods spec_info) then func_upper value else func value)
       else Ok "?"%string);
  CALL_CALLBACK s o.
(** [unsigned_to_string_view] into [conv_buffer], padded with [ch] to [len]; [len] is 0 where
    the case does not pad. *)
Definition padded_number (number : outcome Z) (ch len : Z) : action := fun o =>
  number ← number;
  '(m, sv) ← into_buffer conv_buffer (pg_mem o) (fun buffer =>
    sv ← unsigned_to_string_view 10 plain_options number buffer;
    PAD_WITH_CHAR_IF_NECESSARY (sf_mods spec_info) ch len sv);
  call_sv (Some spec_info) (set_mem o m) sv.
Definition number (n : outcome Z) : action := padded_number n 48 0.

(** The cases of the switch, in their order.  [enum month] is unsigned where it is printed. *)
Definition cases_a_to_F : option action :=
  let month := tm_mon_to_month (tm_mon tm) in
  match sf_spec spec_info with
  | 97 (* a *) =>
      Some (name (weekday_valid (tm_wday tm)) weekday_to_sv_abbrev weekday_to_sv_abbrev_upper (tm_wday tm))
  | 65 (* A *) => Some (name (weekday_valid (tm_wday tm)) weekday_to_sv weekday_to_sv_upper (tm_wday tm))
  | 98 | 104 (* b h *) => Some (name (month_valid month) month_to_sv_abbrev month_to_sv_abbrev_upper month)
  | 66 (* B *) => Some (name (month_valid month) month_to_sv month_to_sv_upper month)
  | 99 (* c *) =>
      Some (in_turn [RECURSIVE_CALL_FOR_SPEC 97; CALL_CALLBACK " "; RECURSIVE_CALL_FOR_SPEC 98; CALL_CALLBACK " ";
                     RECURSIVE_CALL_FOR_SPEC 100; CALL_CALLBACK " "; RECURSIVE_CALL_FOR_SPEC 84; CALL_CALLBACK " ";
                     RECURSIVE_CALL_FOR_SPEC 89])
  | 67 (* C *) => Some (number (year ← tm_year_to_year (tm_year tm); Ok (year / 100)))
  | 100 (* d *) => Some (padded_number (Ok (u64 (tm_mday tm))) 48 2)
  | 68 (* D *) =>
      Some (in_turn [RECURSIVE_CALL_FOR_SPEC 109; CALL_CALLBACK "/"; RECURSIVE_CALL_FOR_SPEC 100; CALL_CALLBACK "/";
                     RECURSIVE_CALL_FOR_SPEC 121])
  | 101 (* e *) => Some (padded_number (Ok (u64 (tm_mday tm))) 32 MAX_DAY_OF_MONTH_NUMBER_LENGTH)
  | 70 (* F *) =>
      Some (in_turn [RECURSIVE_CALL_FOR_SPEC 89; CALL_CALLBACK "-"; RECURSIVE_CALL_FOR_SPEC 109; CALL_CALLBACK "-";
                     RECURSIVE_CALL_FOR_SPEC 100])
  | _ => None
  end%string.
Definition cases_g_to_p : option action :=
  match sf_spec spec_info with
  | 103 (* g *) => Some (padded_number (year ← week_year_of tm; Ok (year mod 100)) 48 2)
  | 71 (* G *) => Some (number (week_year_of tm))
  | 72 (* H *) => Some (padded_number (Ok (u8 (tm_hour tm))) 48 MAX_HOUR_NUMBER_LENGTH)
  | 73 (* I *) => Some (padded_number (Ok (hour24_to_12hour (u8 (tm_hour tm)))) 48 MAX_HOUR_NUMBER_LENGTH)
  | 106 (* j *) => Some (padded_number (Ok (u16 (tm_yday tm) + 1)) 48 MAX_YEAR_DAY_NUMBER_LENGTH)
  | 109 (* m *) => Some (padded_number (Ok (u32 (tm_mon_to_month (tm_mon tm)))) 48 MAX_MONTH_NUMBER_LENGTH)
  | 77 (* M *) => Some (padded_number (Ok (u16 (tm_min tm))) 48 MAX_MINUTE_NUMBER_LENGTH)
  | 110 (* n *) => Some (CALL_CALLBACK newline)
  | 112 (* p *) => Some (CALL_CALLBACK (if hour24_is_pm (u8 (tm_hour tm)) then "PM" else "AM"))
  | _ => None
  end%string.
Definition cases_r_to_W : option action :=
  match sf_spec spec_info with
  | 114 (* r *) =>
      Some (in_turn [RECURSIVE_CALL_FOR_SPEC 73; CALL_CALLBACK ":"; RECURSIVE_CALL_FOR_SPEC 77; CALL_CALLBACK ":";
                     RECURSIVE_CALL_FOR_SPEC 83; CALL_CALLBACK " "; RECURSIVE_CALL_FOR_SPEC 112])
  | 82 (* R *) => Some (in_turn [RECURSIVE_CALL_FOR_SPEC 72; CALL_CALLBACK ":"; RECURSIVE_CALL_FOR_SPEC 77])
  | 83 (* S *) => Some (padded_number (Ok (u64 (tm_sec tm))) 48 MAX_SECOND_NUMBER_LENGTH)
  | 116 (* t *) => Some (CALL_CALLBACK tab)
  | 84 | 88 (* T X *) =>
      Some (in_turn [RECURSIVE_CALL_FOR_SPEC 72; CALL_CALLBACK ":"; RECURSIVE_CALL_FOR_SPEC 77; CALL_CALLBACK ":";
                     RECURSIVE_CALL_FOR_SPEC 83])
  | 117 (* u *) => Some (padded_number (Ok (weekday_to_decimal_monday_one (tm_wday tm))) 48 MAX_WEEKDAY_NUMBER_LENGTH)
  | 85 (* U *) =>
      Some (padded_number (Ok (get_week_count_at_day (tm_wday tm) (u16 (tm_yday tm)) false)) 48 MAX_WEEK_NUMBER_LENGTH)
  | 86 (* V *) => Some (padded_number (week_number_of tm) 48 MAX_WEEK_NUMBER_LENGTH)
  | 119 (* w *) => Some (padded_number (Ok (u8 (tm_wday tm))) 48 MAX_WEEKDAY_NUMBER_LENGTH)
  | 87 (* W *) =>
      Some (padded_number (Ok (get_week_count_at_day (tm_wday tm) (u16 (tm_yday tm)) true)) 48 MAX_WEEK_NUMBER_LENGTH)
  | _ => None
  end%string.
Definition cases_x_to_percent : option action :=
  match sf_spec spec_info with
  | 120 (* x *) =>
      Some (in_turn [RECURSIVE_CALL_FOR_SPEC 109; CALL_CALLBACK "/"; RECURSIVE_CALL_FOR_SPEC 100; CALL_CALLBACK "/";
                     RECURSIVE_CALL_FOR_SPEC 121])
  | 121 (* y *) => Some (padded_number (year ← tm_year_to_year (tm_year tm); Ok (year mod 100)) 48 2)
  | 89 (* Y *) => Some (number (tm_year_to_year (tm_year tm)))
  | 107 (* k *) => Some (padded_number (Ok (u64 (tm_hour tm))) 32 MAX_HOUR_NUMBER_LENGTH)
  | 108 (* l *) => Some (padded_number (Ok (hour24_to_12hour (u8 (tm_hour tm)))) 32 MAX_HOUR_NUMBER_LENGTH)
  | 118 (* v *) =>
      Some (in_turn [RECURSIVE_CALL_FOR_SPEC 100; CALL_CALLBACK "-";
                     padded_number (Ok (u32 (tm_mon_to_month (tm_mon tm)))) 32 3; RECURSIVE_CALL_FOR_SPEC 89])
  | 37 (* % *) => Some (CALL_CALLBACK "%")
  | _ => None
  end%string.
Definition spec_case : option action :=
  match cases_a_to_F with
  | Some f => Some f
  | None =>
      match cases_g_to_p with
      | Some f => Some f
      | None => match cases_r_to_W with Some f => Some f | None => cases_x_to_percent end
      end
  end.
End Spec.

(** The result, with [*written_out], [*should_cont_out] and the state of the callback. *)
Fixpoint handle_strftime_spec (depth : nat) (tm : tm) (spec_info : strftime_spec_info) (o : progress St)
    : outcome (bool * progress St) :=
  match depth with
  | O => Diverge
  | S depth =>
      m ← bzero a cbo_size (pg_mem o) (conv depth) MAX_CONVERT_CAP;
      let o := set_mem o m in
      match spec_case (handle_strftime_spec depth tm) (conv depth) spec_info tm with
      | Some f => o ← f o; Ok (true, o)
      | None => Ok (false, o)
      end
  end.

(** The loop of [parse_strftime_format]: [unformat_buffer_ptr] after it. *)
Fixpoint spec_loop (n : nat) (tm : tm) (iter : option Z) (unformat_buffer_ptr : Z) (o : progress St)
    : outcome (Z * progress St) :=
  match iter with
  | None => Ok (unformat_buffer_ptr, o)
  | Some iter =>
      sv ← sv_create_end unformat_buffer_ptr iter;
      '(stop, o) ←
        (if negb (sv_length sv =? 0) then o ← call_sv None o sv; Ok (negb (pg_cont o), o) else Ok (false, o));
      if stop : bool then Ok (unformat_buffer_ptr, o) else
      let orig_iter := iter in
      let '(mods, iter) := parse_strftime_mods (pg_mem o) (iter + 1) in
      '(valid_spec, v) ← handle_strftime_spec 3 tm (StrftimeSpec (pg_mem o iter) mods) (set_cont o true);
      let o := set_cont v (pg_cont o) in
      if negb (pg_cont v) then Ok (unformat_buffer_ptr, o) else
      let iter := iter + 1 in
      next ← strchr fuel a (pg_mem o) iter 37;
      match n with
      | O => Diverge
      | S n => spec_loop n tm next (if valid_spec : bool then iter else orig_iter) o
      end
  end.
(** The characters are counted in [written_out], and 0 is returned. *)
Definition parse_strftime_format (m : mem) (s : St) (format : Z) (tm : tm) : outcome (Z * mem * St) :=
  iter ← strchr fuel a m format 37;
  '(unformat_buffer_ptr, o) ← spec_loop fuel tm iter format (Progress 0 true m s);
  o ← (if negb (pg_mem o unformat_buffer_ptr =? 0) then
         length ← strlen fuel (pg_mem o) unformat_buffer_ptr;
         sv ← sv_create_length unformat_buffer_ptr (u32 length);
         call_sv None o sv
       else Ok o);
  Ok (0, pg_mem o, pg_sink o).
End Strftime.

(** ** The clients *)

Section Clients.
Context (a : arch) (cbo_size : Z) (fuel : nat) (lit : string -> Z) (conv : nat -> Z).

(** lib/strftime.c *)
Definition time_format_to_string_sv_callback (_ : option strftime_spec_info) (m : mem) (mbuffer : mutable_buffer)
    (sv : string_view) (should_cont : bool) : outcome (Z * bool * mem * mutable_buffer) :=
  '(result, m, mbuffer) ← mbuffer_append_sv a m mbuffer sv;
  Ok (result, if negb (result =? sv_length sv) || mbuffer_full mbuffer then false else should_cont, m, mbuffer).
#[local] Instance buffer_time_sink : TimeSink mutable_buffer := { time_sv_cb := time_format_to_string_sv_callback }.

Definition time_format_to_string_buffer (m : mem) (buffer_in buffer_cap format : Z) (tm : tm) : outcome (Z * mem) :=
  if buffer_cap =? 0 then Ok (0, m) else
  mbuffer ← mbuffer_open buffer_in 0 buffer_cap;
  '(result, m, mbuffer) ← parse_strftime_format a cbo_size fuel lit conv m mbuffer format tm;
  Ok (result, upd m (mbuffer_current_ptr mbuffer) 0).

Definition time_format_get_length_sv_callback (_ : option strftime_spec_info) (m : mem) (info : unit)
    (sv : string_view) (should_cont : bool) : outcome (Z * bool * mem * unit) :=
  Ok (sv_length sv, should_cont, m, info).
#[local] Instance length_time_sink : TimeSink unit := { time_sv_cb := time_format_get_length_sv_callback }.

Definition get_length_of_time_format (m : mem) (format : Z) (tm : tm) : outcome (Z * mem) :=
  '(result, m, _) ← parse_strftime_format a cbo_size fuel lit conv m tt format tm;
  Ok (result, m).
End Clients.

Module Kernel.
Section KStrftime.
Import GBuffer KString.
Context `{AL : Allocator} (a : arch) (cbo_size : Z) (fuel : nat) (lit : string -> Z) (conv : nat -> Z).

(** kernel/src/time/kstrftime.c; the allocator is part of the state. *)
Definition string_sv_callback (_ : option strftime_spec_info) (m : mem) (st : heap * growable_buffer)
    (sv : string_view) (should_cont : bool) : outcome (Z * bool * mem * (heap * growable_buffer)) :=
  '(ok, h, m, string) ← string_append_sv a cbo_size (fst st) m (snd st) sv;
  if negb ok then Ok (0, false, m, (h, string)) else Ok (sv_length sv, should_cont, m, (h, string)).
#[local] Instance string_time_sink : TimeSink (heap * growable_buffer) := { time_sv_cb := string_sv_callback }.

Definition kstrftime (h : heap) (m : mem) (format : Z) (tm : tm) : outcome (heap * mem * growable_buffer) :=
  '(_, m, (h, string)) ← parse_strftime_format a cbo_size fuel lit conv m (h, GBUFFER_INIT) format tm;
  Ok (h, m, string).

(** The terminals, the lock and the CPU are the state; the log level is not used. *)
Definition time_print_format_callback `{Terminal T} (_ : option strftime_spec_info) (m : mem)
    (st : console T * shared) (sv : string_view) (should_cont : bool)
    : outcome (Z * bool * mem * (console T * shared)) :=
  '(terms, lk, t) ← putk_sv a fuel (snd st) m (fst st) sv;
  Ok (sv_length sv, should_cont, m, (Console terms t, lk)).
#[local] Instance print_time_sink `{Terminal T} : TimeSink (console T * shared) :=
  { time_sv_cb := time_print_format_callback }.

Definition printk_strftime `{Terminal T} (g_print_lock : shared) (m : mem) (con : console T) (format : Z) (tm : tm)
    : outcome (mem * console T * shared) :=
  '(_, m, (con, lk)) ← parse_strftime_format a cbo_size fuel lit conv m (con, g_print_lock) format tm;
  Ok (m, con, lk).
End KStrftime.
End Kernel.
