(* ===== verification/StrftimeText.v ===== *)
(** * What a time format prints

    [strftime_text] is the reference: the text of a format, directive by directive, from the
    fields of a broken-down time.  [TimeSinkText] is what a callback promises to the engine; for
    every callback with the promise the engine shows it the text of the format, and the buffer of
    [time_format_to_string_buffer] has the promise. *)

From Stdlib Require Import String Ascii.
From S2P Require Import Prelude Mem Alloc Arith Range KStdlib Ctype Convert Buffers Time Printf PrintfSafe PrintfText PrintfIso Strftime.
Import StringView MBuffer.

(** ** The reference *)

(** The fields of a time are in their ranges; the year is 1900 or later. *)
Record tm_ok (t : tm) : Prop := {
  ok_sec : 0 <= tm_sec t <= 60; ok_min : 0 <= tm_min t <= 59; ok_hour : 0 <= tm_hour t <= 23;
  ok_mday : 1 <= tm_mday t <= 31; ok_mon : 0 <= tm_mon t <= 11; ok_year : 0 <= tm_year t < 2 ^ 31 - 1900;
  ok_wday : 0 <= tm_wday t <= 6; ok_yday : 0 <= tm_yday t <= 365 }.

Section Reference.
Context (mods : strftime_modifiers) (t : tm).

Definition upper (c : Z) : Z := if (97 <=? c) && (c <=? 122) then c - 32 else c.
Definition weekday_names : list string :=
  ["Sunday"; "Monday"; "Tuesday"; "Wednesday"; "Thursday"; "Friday"; "Saturday"]%string.
Definition month_names : list string :=
  ["January"; "February"; "March"; "April"; "May"; "June"; "July"; "August"; "September"; "October"; "November";
   "December"]%string.
Definition full_name (names : list string) (k : Z) : list Z :=
  let l := chars_of (default EmptyString (names !! Z.to_nat k)) in
  if capitalize_letters mods then map upper l else l.
Definition short_name (names : list string) (k : Z) : list Z := take 3 (full_name names k).

Definition decimal (n : Z) : list Z := digits_of 10 plain_options n.
Definition pad_char (ch : Z) : Z :=
  if pad_spaces_to_number mods then 32 else if pad_zeros mods then 48 else ch.
Definition field (ch : Z) (width : nat) (n : Z) : list Z :=
  (if dont_pad_number mods then [] else replicate (width - length (decimal n)) (pad_char ch)) ++ decimal n.

Definition year_of : Z := tm_year t + 1900.
Definition hour_12 : Z := (tm_hour t + 11) mod 12 + 1.
(** The number of Sundays, and of Mondays, of the year up to the day, from the first day of the
    year that is as late as its weekday; before it, what the code counts. *)
Definition sunday_week : Z :=
  if tm_wday t <=? tm_yday t then (tm_yday t + 7 - tm_wday t) / 7
  else get_week_count_at_day (tm_wday t) (tm_yday t) false.
Definition monday_week : Z :=
  if tm_wday t <=? tm_yday t then (tm_yday t + 7 - (tm_wday t + 6) mod 7) / 7
  else get_week_count_at_day (tm_wday t) (tm_yday t) true.
(** The week and its year as [iso_8601_get_week_number] counts them. *)
Definition iso_week : Z := match week_number_of t with Ok w => w | _ => 0 end.
Definition iso_year : Z :=
  if (tm_mon t =? 11) && (iso_week =? 1) then year_of + 1
  else if (tm_mon t =? 0) && (52 <=? iso_week) then year_of - 1 else year_of.

Definition clock_text : list Z :=
  field 48 2 (tm_hour t) ++ chars_of ":" ++ field 48 2 (tm_min t) ++ chars_of ":" ++ field 48 2 (tm_sec t).
Definition date_text : list Z :=
  field 48 2 (tm_mon t + 1) ++ chars_of "/" ++ field 48 2 (tm_mday t) ++ chars_of "/" ++ field 48 2 (year_of mod 100).
Definition half_text : list Z := chars_of (if tm_hour t <? 12 then "AM" else "PM").

Definition directive_text (ch : Z) : option (list Z) :=
  match ch with
  | 97 (* a *) => Some (short_name weekday_names (tm_wday t))
  | 65 (* A *) => Some (full_name weekday_names (tm_wday t))
  | 98 | 104 (* b h *) => Some (short_name month_names (tm_mon t))
  | 66 (* B *) => Some (full_name month_names (tm_mon t))
  | 99 (* c *) =>
      Some (short_name weekday_names (tm_wday t) ++ chars_of " " ++ short_name month_names (tm_mon t) ++ chars_of " " ++
            field 48 2 (tm_mday t) ++ chars_of " " ++ clock_text ++ chars_of " " ++ decimal year_of)
  | 67 (* C *) => Some (decimal (year_of / 100))
  | 100 (* d *) => Some (field 48 2 (tm_mday t))
  | 68 | 120 (* D x *) => Some date_text
  | 101 (* e *) => Some (field 32 2 (tm_mday t))
  | 70 (* F *) =>
      Some (decimal year_of ++ chars_of "-" ++ field 48 2 (tm_mon t + 1) ++ chars_of "-" ++ field 48 2 (tm_mday t))
  | 103 (* g *) => Some (field 48 2 (iso_year mod 100))
  | 71 (* G *) => Some (decimal iso_year)
  | 72 (* H *) => Some (field 48 2 (tm_hour t))
  | 73 (* I *) => Some (field 48 2 hour_12)
  | 106 (* j *) => Some (field 48 3 (tm_yday t + 1))
  | 107 (* k *) => Some (field 32 2 (tm_hour t))
  | 108 (* l *) => Some (field 32 2 hour_12)
  | 109 (* m *) => Some (field 48 2 (tm_mon t + 1))
  | 77 (* M *) => Some (field 48 2 (tm_min t))
  | 110 (* n *) => Some [10]
  | 112 (* p *) => Some half_text
  | 114 (* r *) =>
      Some (field 48 2 hour_12 ++ chars_of ":" ++ field 48 2 (tm_min t) ++ chars_of ":" ++ field 48 2 (tm_sec t) ++
            chars_of " " ++ half_text)
  | 82 (* R *) => Some (field 48 2 (tm_hour t) ++ chars_of ":" ++ field 48 2 (tm_min t))
  | 83 (* S *) => Some (field 48 2 (tm_sec t))
  | 116 (* t *) => Some [9]
  | 84 | 88 (* T X *) => Some clock_text
  | 117 (* u *) => Some (field 48 1 (if tm_wday t =? 0 then 7 else tm_wday t))
  | 85 (* U *) => Some (field 48 2 sunday_week)
  | 118 (* v *) => Some (field 48 2 (tm_mday t) ++ chars_of "-" ++ field 32 3 (tm_mon t + 1) ++ decimal year_of)
  | 86 (* V *) => Some (field 48 2 iso_week)
  | 119 (* w *) => Some (field 48 1 (tm_wday t))
  | 87 (* W *) => Some (field 48 2 monday_week)
  | 121 (* y *) => Some (field 48 2 (year_of mod 100))
  | 89 (* Y *) => Some (decimal year_of)
  | 37 (* % *) => Some [37]
  | _ => None
  end.
End Reference.

(** A directive that is none is printed as it stands.  [None] is a format that ends within a
    directive. *)
Fixpoint strftime_text (t : tm) (l : list Z) : option (list Z) :=
  match l with
  | [] => Some []
  | 37 :: [] => None
  | 37 :: x :: r =>
      match modifier x, r with
      | None, _ => app (default [37; x] (directive_text STRFTIME_MODIFIERS_INIT t x)) <$> strftime_text t r
      | Some _, [] => None
      | Some mods, y :: r => app (default [37; x; y] (directive_text mods t y)) <$> strftime_text t r
      end
  | c :: r => cons c <$> strftime_text t r
  end.

(** ** Facts on the reference *)

Definition no_percent (l : list Z) : bool := forallb (fun c => negb (c =? 37)) l.

Lemma strftime_text_cons t c r : c <> 37 -> strftime_text t (c :: r) = cons c <$> strftime_text t r.
Proof.
  intros H. destruct c as [|p|p]; try reflexivity.
  repeat (destruct p as [p|p|]; try reflexivity). contradiction.
Qed.
Lemma strftime_text_plain t u r : no_percent u = true -> strftime_text t (u ++ r) = app u <$> strftime_text t r.
Proof.
  unfold no_percent. induction u as [|c u IH]; cbn [forallb app]; [destruct (strftime_text t r); reflexivity|].
  intros H. apply andb_true_iff in H. destruct H as (Hc & Hu). apply negb_true_iff, Z.eqb_neq in Hc.
  rewrite strftime_text_cons by exact Hc. rewrite (IH Hu). destruct (strftime_text t r); reflexivity.
Qed.
(** Up to the first percent sign. *)
Lemma percent_cases l : exists u r, l = u ++ r /\ no_percent u = true /\ (r = [] \/ exists r', r = 37 :: r').
Proof.
  induction l as [|c l (u & r & -> & Hu & Hr)]; [exists [], []; cbn; auto|].
  destruct (Z.eqb_spec c 37) as [->|Hc]; [exists [], (37 :: u ++ r); cbn; eauto|].
  exists (c :: u), r. split; [reflexivity|]. split; [|exact Hr]. unfold no_percent in *. cbn [forallb]. rewrite Hu.
  destruct (Z.eqb_spec c 37); [contradiction|reflexivity].
Qed.

(** The directive after a percent sign: its characters [used], the last of them [ch]. *)
Lemma directive_cases t r' T : strftime_text t (37 :: r') = Some T ->
  exists mods ch pre r T', r' = (pre ++ [ch]) ++ r /\ strftime_text t r = Some T' /\
    T = default (37 :: pre ++ [ch]) (directive_text mods t ch) ++ T' /\
    forall m p, holds m p (pre ++ [ch]) -> parse_strftime_mods m p = (mods, p + Z.of_nat (length pre)).
Proof.
  destruct r' as [|x r]; [discriminate|]. cbn [strftime_text]. unfold parse_strftime_mods.
  destruct (modifier x) as [mods|] eqn:Em; [destruct r as [|y r]; [discriminate|]|];
    (destruct (strftime_text t r) as [T'|] eqn:Er; [|discriminate]); intros [= <-].
  - exists mods, y, [x], r, T'. split_and!; try reflexivity; [exact Er|]. intros m p Hh. apply holds_cons in Hh.
    destruct Hh as (-> & _). rewrite Em. reflexivity.
  - exists STRFTIME_MODIFIERS_INIT, x, [], r, T'. split_and!; try reflexivity; [exact Er|]. intros m p Hh.
    apply holds_cons in Hh. destruct Hh as (-> & _). rewrite Em. f_equal. cbn. lia.
Qed.

(** ** Numbers *)

Lemma pad_loop_spec n : forall ch i hi mid b b', Z.of_nat n <= i -> i <= Z.of_nat (length b') -> (hi <= length b)%nat ->
  length b' = length b -> spliced (Z.to_nat i) hi mid b b' ->
  exists b'', pad_loop n ch i b' = Ok (i - Z.of_nat n, b'') /\ length b'' = length b /\
    spliced (Z.to_nat (i - Z.of_nat n)) hi (replicate n ch ++ mid) b b''.
Proof.
  induction n as [|n IH]; intros ch i hi mid b b' Hi Hl Hh Hlb Hs; cbn [pad_loop].
  - exists b'. rewrite Z.sub_0_r. auto.
  - rewrite put_ok by lia. cbn [mbind outcome_bind].
    destruct (IH ch (i - 1) hi (ch :: mid) b (<[Z.to_nat (i - 1):=ch]> b')) as (b'' & -> & Hl'' & Hs''); rewrite ?length_insert; try lia.
    { apply put_spliced; [|exact Hh]. replace (S (Z.to_nat (i - 1))) with (Z.to_nat i) by lia. exact Hs. }
    exists b''. replace (i - Z.of_nat (S n)) with (i - 1 - Z.of_nat n) by lia. split; [reflexivity|]. split; [exact Hl''|].
    cbn [replicate]. rewrite <- app_comm_cons, app_comm_cons, replicate_cons_app, <- app_assoc. exact Hs''.
Qed.

Lemma unsigned_ends number b r : unsigned_to_string_view 10 plain_options number b = Ok r -> snd (fst r) = 21.
Proof.
  unfold unsigned_to_string_view. destruct (loop_over_positive_int _ _ _ _ _) as [[i b']| | |]; [|discriminate..].
  intros [= <-]. reflexivity.
Qed.

(** A number of at most 64 bits and the padding before it fit the array. *)
Lemma padded_prints mods ch w n b : 0 <= n < 2 ^ 64 -> 0 <= w <= 3 -> Z.of_nat (length b) = MAX_CONVERT_CAP ->
  prints 10 plain_options n
    (if dont_pad_number mods then [] else replicate (Z.to_nat w - length (decimal n)) (pad_char mods ch))
    (sv ← unsigned_to_string_view 10 plain_options n b; PAD_WITH_CHAR_IF_NECESSARY mods ch w sv) b.
Proof.
  intros Hn Hw Hb. destruct (unsigned_prints 10 plain_options n b) as (i & fi & b' & ds & E & V & Pr & Hds & Hi & Hf & Hlb & Z0 & Sp);
    [right; right; left; reflexivity|discriminate|exact Hn|exact Hb|].
  pose proof (unsigned_ends _ _ _ E) as Efi. cbn in Efi. subst fi. rewrite E. cbn [mbind outcome_bind].
  cbn [sign_chars prefix_chars include_pos_sign include_prefix plain_options app] in Sp, V. unfold PAD_WITH_CHAR_IF_NECESSARY.
  pose proof (proj1 Sp) as Hsl. rewrite Hds in *. fold (decimal n) in *. unfold pad_char.
  set (k := (Z.to_nat w - length (decimal n))%nat).
  destruct (dont_pad_number mods); cbn [negb]; [eapply spliced_prints; eauto; lia|].
  destruct (Z.ltb_spec (21 - i) w) as [Hlt|Hge].
  2:{ replace k with 0%nat by lia. eapply spliced_prints; eauto; lia. }
  replace (Z.to_nat (w - (21 - i))) with k by lia. set (pc := if pad_spaces_to_number mods then _ else _).
  destruct (pad_loop_spec k pc i (Z.to_nat 21) (decimal n) (<[Z.to_nat 21:=0]> b) b') as (b'' & -> & Hl'' & Hs'');
    rewrite ?length_insert; try lia; [exact Sp|]. cbn [mbind outcome_bind].
  eapply spliced_prints; eauto; lia.
Qed.

(** ** Values of the fields *)

Section Values.
Context (t : tm) (OK : tm_ok t).

Lemma year_value : tm_year_to_year (tm_year t) = Ok (year_of t).
Proof.
  destruct OK. unfold tm_year_to_year, check_add_assert_w, check_add_w, year_of. rewrite (wrap_small 64) by (unfold is_u; lia).
  unfold fits. zcase; first [reflexivity|lia].
Qed.
Lemma hour_12_value : hour24_to_12hour (u8 (tm_hour t)) = hour_12 t.
Proof.
  destruct OK. unfold hour24_to_12hour, hour_12. rewrite (wrap_small 8) by (unfold is_u; lia). zcase; cbn [negb]; dlia.
Qed.
Lemma month_value : tm_mon_to_month (tm_mon t) = tm_mon t + 1.
Proof. destruct OK. apply i32_id. lia. Qed.
Lemma week_value b : get_week_count_at_day (tm_wday t) (u16 (tm_yday t)) b = (if b then monday_week t else sunday_week t).
Proof.
  destruct OK. unfold monday_week, sunday_week. rewrite (wrap_small 16) by (unfold is_u; lia).
  destruct (Z.leb_spec (tm_wday t) (tm_yday t)); [|destruct b; reflexivity].
  rewrite get_week_count_small by lia. destruct b; [|f_equal; lia].
  destruct (Z.eqb_spec (tm_wday t) 0) as [E|]; f_equal; dlia.
Qed.
End Values.

(** The week number of every date is defined: one of the first days of January counts from the
    31st of December, which counts from its own year. *)
Lemma iso_weekday wd r : 0 <= wd <= 6 -> 0 <= r <= 6 -> let j := if wd - r <? 0 then wd - r + 7 else wd - r in 0 <= j <= 6.
Proof. intros. cbv zeta. destruct (Z.ltb_spec (wd - r) 0); lia. Qed.
Lemma iso_last_days (wd md w : Z) : 0 <= wd <= 6 -> is_u8 w -> exists w',
  match wd with
  | 1 => Ok (if (29 <=? md) && (md <=? 31) then 1 else w)
  | 2 => Ok (if (30 <=? md) && (md <=? 31) then 1 else w)
  | 3 => Ok (if md =? 31 then 1 else w)
  | 4 | 5 | 6 | 0 => Ok w
  | _ => verify_not_reached
  end = Ok w' /\ is_u8 w'.
Proof.
  intros Hw Hu. weekdays wd; (eexists; split; [reflexivity|]); unfold is_u in *;
    repeat match goal with |- context [if ?b then _ else _] => destruct b end; lia.
Qed.
Lemma iso_defined n wd m y md d : 0 <= wd <= 6 -> 1 <= m <= 12 -> 0 <= d < 366 ->
  (get_week_count_at_day wd d true <> 0 \/ exists k w, n = S k /\ is_u8 w /\
    iso_8601_get_week_number k (weekday_prev wd) 12 (u64 (y - 1)) 31 (year_get_day_count (u64 (y - 1)) - 1) = Ok w) ->
  exists w, iso_8601_get_week_number n wd m y md d = Ok w /\ is_u8 w.
Proof.
  intros Hw Hm Hd Hk. assert (Hc : is_u8 (get_week_count_at_day wd d true)) by (unfold get_week_count_at_day; apply wrap_bound; lia).
  destruct n as [|n]; cbn [iso_8601_get_week_number]; unfold WEEKDAY_COUNT;
    pose proof (iso_weekday wd (d mod 7) Hw ltac:(dlia)) as Hj; cbv zeta in Hj |- *;
    generalize dependent (if wd - d mod 7 <? 0 then wd - d mod 7 + 7 else wd - d mod 7); intros j Hj;
    generalize dependent (get_week_count_at_day wd d true); intros c Hk Hc;
    unfold weekday_valid, month_valid;
    (destruct (Z.leb_spec 0 wd); [|lia]); (destruct (Z.leb_spec wd 6); [|lia]);
    (destruct (Z.leb_spec 1 m); [|lia]); (destruct (Z.leb_spec m 12); [|lia]); cbn [andb c_assert mbind outcome_bind].
  all: assert (X : forall r : outcome Z, (c <> 0 \/ exists w, r = Ok w /\ is_u8 w) -> exists w,
      match j with
      | 1 => Ok c
      | 2 | 3 | 4 => Ok (u8 (c + 1))
      | 5 | 6 | 0 => if negb (c =? 0) then Ok c else r
      | _ => verify_not_reached
      end = Ok w /\ is_u8 w).
  1,3: intros r Hr; weekdays j; try (eexists; split; [reflexivity|]; [exact Hc || (apply wrap_bound; lia)]);
    (destruct (Z.eqb_spec c 0); cbn [negb]; [destruct Hr as [Hr|Hr]; [contradiction|exact Hr]|eauto]).
  - edestruct (X Diverge) as (w & -> & Hu); [destruct Hk as [Hk|(k & w & [=] & _)]; auto|]. cbn [mbind outcome_bind].
    destruct (m =? 12); [|eauto]. apply iso_last_days; auto.
  - edestruct X as (w & -> & Hu); [|cbn [mbind outcome_bind]; destruct (m =? 12); [apply iso_last_days; auto|eauto]].
    destruct Hk as [Hk|(k & w & [= ->] & Hu & E)]; [left; exact Hk|right; eauto].
Qed.

Section Weeks.
Context (t : tm) (OK : tm_ok t).

Lemma iso_week_value : week_number_of t = Ok (iso_week t) /\ is_u8 (iso_week t).
Proof.
  assert (H : exists w, week_number_of t = Ok w /\ is_u8 w).
  { destruct OK. unfold week_number_of. rewrite year_value, month_value by exact OK. cbn [mbind outcome_bind].
    rewrite (wrap_small 8), (wrap_small 16) by (unfold is_u; lia). apply iso_defined; try lia. right. exists 0%nat.
    pose proof (year_get_day_count_pos (u64 (year_of t - 1))) as Hy.
    assert (Hp : 0 <= weekday_prev (tm_wday t) <= 6) by (unfold weekday_prev; zcase; cbn [negb]; lia).
    destruct (iso_defined 0 (weekday_prev (tm_wday t)) 12 (u64 (year_of t - 1)) 31 (year_get_day_count (u64 (year_of t - 1)) - 1))
      as (w & E & Hu); try lia; [|eauto].
    left. rewrite get_week_count_small by lia. destruct (weekday_prev (tm_wday t) =? 0); dlia. }
  destruct H as (w & E & Hu). unfold iso_week. rewrite E. auto.
Qed.

Lemma iso_year_value : week_year_of t = Ok (iso_year t) /\ 1899 <= iso_year t <= 2 ^ 31.
Proof.
  destruct iso_week_value as (E & Hu). unfold week_year_of, iso_year. rewrite year_value, month_value, E by exact OK.
  cbn [mbind outcome_bind]. destruct OK. assert (Hy : 1900 <= year_of t < 2 ^ 31) by (unfold year_of; lia).
  rewrite !(wrap_small 64) by (unfold is_u; lia).
  destruct (Z.eqb_spec (tm_mon t + 1) 12), (Z.eqb_spec (tm_mon t) 11), (Z.eqb_spec (tm_mon t + 1) 1), (Z.eqb_spec (tm_mon t) 0);
    try lia; cbn [andb]; (split; [reflexivity|]); repeat match goal with |- context [if ?b then _ else _] => destruct b end; lia.
Qed.
End Weeks.

(** ** What a callback promises *)

(** [shown s m text c]: the callback has been given [text], or has stopped ([c] is false) and
    keeps what fits of it.  Memory at the addresses [time_outside s] is not touched by it. *)
Class TimeSinkText (St : Type) `{TimeSink St} := {
  time_outside : St -> Z -> Prop;
  shown : St -> mem -> list Z -> bool -> Prop;
  shown_local : forall s m m' l c, shown s m l c -> (forall x, ~ time_outside s x -> m' x = m x) -> shown s m' l c;
  shown_stop : forall s m l u, shown s m l false -> shown s m (l ++ u) false;
  time_sv_shown : forall i s m sv l, shown s m l true -> mem_ok m -> 0 <= sv_length sv < 2 ^ 32 ->
    (forall x, sv_begin sv <= x < sv_begin sv + sv_length sv -> time_outside s x) ->
    exists k c m' s', time_sv_cb i m s sv true = Ok (k, c, m', s') /\ shown s' m' (l ++ sv_chars m sv) c /\ mem_ok m' /\
      (forall x, time_outside s x -> time_outside s' x /\ m' x = m x);
  time_sv_stopped : forall i s m sv l c, shown s m l false -> mem_ok m -> 0 <= sv_length sv < 2 ^ 32 ->
    (forall x, sv_begin sv <= x < sv_begin sv + sv_length sv -> time_outside s x) ->
    exists k c' m' s', time_sv_cb i m s sv c = Ok (k, c', m', s') /\ shown s' m' l false /\ mem_ok m' /\
      (forall x, time_outside s x -> time_outside s' x /\ m' x = m x) }.

Definition time_literals : list string :=
  ["?"; " "; "/"; "-"; ":"; "PM"; "AM"; "%"]%string ++ [newline; tab] ++
  ["Sunday"; "Monday"; "Tuesday"; "Wednesday"; "Thursday"; "Friday"; "Saturday";
   "SUNDAY"; "MONDAY"; "TUESDAY"; "WEDNESDAY"; "THURSDAY"; "FRIDAY"; "SATURDAY";
   "Sun"; "Mon"; "Tue"; "Wed"; "Thu"; "Fri"; "Sat"; "SUN"; "MON"; "TUE"; "WED"; "THU"; "FRI"; "SAT"]%string ++
  ["January"; "February"; "March"; "April"; "May"; "June"; "July"; "August"; "September"; "October"; "November";
   "December"; "JANUARY"; "FEBRUARY"; "MARCH"; "APRIL"; "MAY"; "JUNE"; "JULY"; "AUGUST"; "SEPTEMBER"; "OCTOBER";
   "NOVEMBER"; "DECEMBER"; "Jan"; "Feb"; "Mar"; "Apr"; "May"; "Jun"; "Jul"; "Aug"; "Sep"; "Oct"; "Nov"; "Dec";
   "JAN"; "FEB"; "MAR"; "APR"; "MAY"; "JUN"; "JUL"; "AUG"; "SEP"; "OCT"; "NOV"; "DEC"]%string.

Section Engine.
Context (a : arch) (cbo_size : Z) (fuel : nat) (lit : string -> Z) (conv : nat -> Z).
Context {St : Type} `{TT : TimeSinkText St}.
Context (m0 : mem) (s0 : St) (fmt : Z) (l : list Z) (t : tm).

(** The addresses that a call neither gives the callback nor prints numbers to. *)
Definition still (x : Z) : Prop := time_outside s0 x /\ forall d, (d < 3)%nat -> ~ in_array (conv d) x.

(** What a call finds in memory. *)
Record time_call : Prop := {
  tc_mem : mem_ok m0;
  tc_tm : tm_ok t;
  tc_cbo : cbo_size = 0 \/ pow2_64 cbo_size;
  tc_conv : forall d, (d < 3)%nat -> 0 <= conv d /\ conv d + (MAX_CONVERT_CAP + 3) < 2 ^ 64 /\
    forall x, in_array (conv d) x -> time_outside s0 x;
  tc_fmt : cstr m0 fmt l /\ (length l <= fuel)%nat /\ Z.of_nat (length l) < 2 ^ 32 /\
    0 <= fmt /\ fmt + Z.of_nat (length l) < 2 ^ 64;
  tc_fmt_still : forall x, fmt <= x <= fmt + Z.of_nat (length l) -> still x;
  tc_lit : forall u, u ∈ time_literals -> holds m0 (lit u) (chars_of u);
  tc_lit_still : forall u x, u ∈ time_literals -> lit u <= x < lit u + Z.of_nat (String.length u) -> still x }.
Context (TC : time_call).

(** The callback has been shown [u]; [c] is whether it wants more. *)
Record live (u : list Z) (c : bool) (o : progress St) : Prop := {
  lv_shown : shown (pg_sink o) (pg_mem o) u c;
  lv_mem : mem_ok (pg_mem o);
  lv_outside : forall x, time_outside s0 x -> time_outside (pg_sink o) x;
  lv_still : forall x, still x -> pg_mem o x = m0 x }.
(** A step that shows the text [v]. *)
Definition emits (f : progress St -> outcome (progress St)) (v : list Z) : Prop :=
  forall u o, live u true o -> pg_cont o = true -> lands (fun o' => live (u ++ v) (pg_cont o') o') (f o).

Lemma live_mem u c o m : live u c o -> mem_ok m -> (forall x, m x <> pg_mem o x -> exists d, (d < 3)%nat /\ in_array (conv d) x) ->
  live u c (set_mem o m).
Proof.
  intros L Hm Hx. destruct L. split; cbn [set_mem pg_sink pg_mem]; auto.
  - eapply shown_local; [eassumption|]. intros x Hn. destruct (Z.eq_dec (m x) (pg_mem o x)) as [E|E]; [exact E|].
    destruct (Hx x E) as (d & Hd & Ha). exfalso. apply Hn, lv_outside0, (tc_conv TC d Hd), Ha.
  - intros x Hs. rewrite <- (lv_still0 x Hs). destruct (Z.eq_dec (m x) (pg_mem o x)) as [E|E]; [exact E|].
    destruct (Hx x E) as (d & Hd & Ha). exfalso. apply (proj2 Hs d Hd), Ha.
Qed.

Lemma call_shows i u o sv v : live u true o -> pg_cont o = true -> shows (pg_mem o) sv v ->
  (forall x, sv_begin sv <= x < sv_begin sv + sv_length sv -> time_outside s0 x) ->
  lands (fun o' => live (u ++ v) (pg_cont o') o') (call_sv i o sv).
Proof.
  intros L Hc (Hh & Hl & Hb) Hx. destruct L. unfold call_sv. rewrite Hc.
  destruct (time_sv_shown i (pg_sink o) (pg_mem o) sv u) as (k & c & m' & s' & -> & Hs & Hm & Hf); auto; [lia|].
  cbn [mbind outcome_bind]. apply lands_ok. split; cbn [pg_cont pg_mem pg_sink]; auto.
  - unfold sv_chars in Hs. rewrite Hl, Nat2Z.id, Hh in Hs. exact Hs.
  - intros x Ho. apply Hf; auto.
  - intros x Hs'. rewrite <- (lv_still0 x Hs'). apply Hf, lv_outside0, Hs'.
Qed.

Lemma in_turn_emits fs vs : Forall2 emits fs vs -> emits (in_turn fs) (concat vs).
Proof.
  induction 1 as [|f v fs vs Hf _ IH]; intros u o L Hc; cbn [in_turn concat].
  - apply lands_ok. rewrite app_nil_r, Hc. exact L.
  - eapply lands_bind; [apply (Hf u o L Hc)|]. intros o' L'. cbv beta in L'. rewrite app_assoc.
    destruct (pg_cont o') eqn:Ec; [apply IH; auto|]. apply lands_ok. rewrite Ec. destruct L'. split; auto. apply shown_stop, lv_shown0.
Qed.

Section Spec.
Context (i : strftime_spec_info).
Context (rec : strftime_spec_info -> progress St -> outcome (bool * progress St)).

Definition handles (r : progress St -> outcome (bool * progress St)) (v : list Z) : Prop :=
  forall u o, live u true o -> pg_cont o = true ->
    lands (fun x => fst x = true /\ live (u ++ v) (pg_cont (snd x)) (snd x)) (r o).

Lemma recursive_emits ch v : handles (rec (StrftimeSpec ch (sf_mods i))) v -> emits (RECURSIVE_CALL_FOR_SPEC rec i ch) v.
Proof.
  intros Hr u o L Hc. unfold RECURSIVE_CALL_FOR_SPEC. eapply lands_bind; [apply (Hr u o L Hc)|].
  intros [b o'] (Eb & L'). cbn [fst snd] in *. subst b. cbn [c_assert mbind outcome_bind]. apply lands_ok, L'.
Qed.

Lemma literal_emits s : s ∈ time_literals -> emits (CALL_CALLBACK lit i s) (chars_of s).
Proof.
  intros Hs u o L Hc. apply call_shows; auto.
  - split; [|unfold SV_STATIC; cbn [sv_length sv_begin]; rewrite length_chars_of; split; [reflexivity|]].
    + eapply holds_ext; [apply (tc_lit TC s Hs)|]. intros x Hx. rewrite length_chars_of in Hx.
      apply (lv_still _ _ _ L), (tc_lit_still TC s x Hs Hx).
    + revert Hs. unfold time_literals. rewrite list_elem_of_In. cbn [app In]. intros E.
      repeat (destruct E as [<-|E]; [vm_compute; reflexivity|]). contradiction.
  - intros x Hx. apply (tc_lit_still TC s x Hs Hx).
Qed.

Lemma number_emits d n ch w : (d < 3)%nat -> 0 <= n < 2 ^ 64 -> 0 <= w <= 3 -> 0 <= ch < 256 ->
  emits (padded_number (conv d) i (Ok n) ch w) (field (sf_mods i) ch (Z.to_nat w) n).
Proof.
  intros Hd Hn Hw Hch u o L Hc. unfold padded_number. cbn [mbind outcome_bind].
  destruct (tc_conv TC d Hd) as (Hc0 & Hc1 & Hco). set (before := if dont_pad_number (sf_mods i) then [] else
    replicate (Z.to_nat w - length (decimal n)) (pad_char (sf_mods i) ch)).
  destruct (into_buffer_spec (conv d) (pg_mem o) (fun b => sv ← unsigned_to_string_view 10 plain_options n b;
    PAD_WITH_CHAR_IF_NECESSARY (sf_mods i) ch w sv) 10 plain_options n before) as (m' & sv & -> & Hm & Hf & Hs & _ & Hx); auto.
  - apply L.
  - subst before. destruct (dont_pad_number (sf_mods i)); [constructor|]. apply Forall_replicate.
    unfold pad_char, is_u. destruct (pad_spaces_to_number (sf_mods i)), (pad_zeros (sf_mods i)); lia.
  - intros b Hb. apply padded_prints; auto.
  - cbn [mbind outcome_bind]. apply call_shows; [|exact Hc|exact Hs|intros x Hi; apply Hco, Hx, Hi].
    apply live_mem; [exact L|exact Hm|]. intros x Ne. exists d. split; [exact Hd|].
    unfold in_array in *. destruct (Z_le_dec (conv d) x), (Z_lt_dec x (conv d + (MAX_CONVERT_CAP + 3))); try (split; assumption);
      exfalso; apply Ne, Hf; intros (? & ?); contradiction.
Qed.
Lemma plain_emits d n : (d < 3)%nat -> 0 <= n < 2 ^ 64 -> emits (number (conv d) i (Ok n)) (decimal n).
Proof.
  intros Hd Hn. pose proof (number_emits d n 48 0 Hd Hn ltac:(lia) ltac:(lia)) as E. unfold number. unfold field in E. cbn [Z.to_nat Nat.sub replicate] in E.
  destruct (dont_pad_number (sf_mods i)); exact E.
Qed.

Definition is_literal (s : string) : bool := existsb (String.eqb s) time_literals.
Lemma is_literal_elem s : is_literal s = true -> s ∈ time_literals.
Proof. unfold is_literal. rewrite existsb_exists. intros (x & Hx & ->%String.eqb_eq). apply list_elem_of_In, Hx. Qed.
Lemma name_emits valid f fu k s v : valid = true -> (if capitalize_letters (sf_mods i) then fu k else f k) = Ok s ->
  is_literal s = true -> chars_of s = v -> emits (name lit i valid f fu k) v.
Proof. intros -> E Hs <- u o L Hc. unfold name. rewrite E. apply literal_emits; auto using is_literal_elem. Qed.

Definition twelve (k : Z) : Prop :=
  k = 1 \/ k = 2 \/ k = 3 \/ k = 4 \/ k = 5 \/ k = 6 \/ k = 7 \/ k = 8 \/ k = 9 \/ k = 10 \/ k = 11 \/ k = 12.
Lemma weekday_emits k : 0 <= k <= 6 ->
  emits (name lit i (weekday_valid k) weekday_to_sv weekday_to_sv_upper k) (full_name (sf_mods i) weekday_names k) /\
  emits (name lit i (weekday_valid k) weekday_to_sv_abbrev weekday_to_sv_abbrev_upper k)
    (short_name (sf_mods i) weekday_names k).
Proof.
  intros Hk. unfold short_name, full_name. destruct (capitalize_letters (sf_mods i)) eqn:Ec; weekdays k;
    (split; (eapply name_emits; [reflexivity|rewrite Ec; reflexivity|reflexivity|reflexivity])).
Qed.
Lemma month_emits k : 0 <= k <= 11 ->
  emits (name lit i (month_valid (k + 1)) month_to_sv month_to_sv_upper (k + 1)) (full_name (sf_mods i) month_names k) /\
  emits (name lit i (month_valid (k + 1)) month_to_sv_abbrev month_to_sv_abbrev_upper (k + 1))
    (short_name (sf_mods i) month_names k).
Proof.
  intros Hk. assert (E : twelve (k + 1)) by (unfold twelve; lia). remember (k + 1) as j eqn:Ej. assert (k = j - 1) as -> by lia. clear Ej Hk.
  unfold short_name, full_name.
  destruct (capitalize_letters (sf_mods i)) eqn:Ec; (repeat (destruct E as [->|E]); [..|subst j]);
    (split; (eapply name_emits; [reflexivity|rewrite Ec; reflexivity|reflexivity|reflexivity])).
Qed.
End Spec.

(** *** The directives *)

Abbreviation handle d := (handle_strftime_spec a cbo_size lit conv d t).

Lemma clear_array d u c o : (d < 3)%nat -> live u c o ->
  lands (fun m => live u c (set_mem o m)) (bzero a cbo_size (pg_mem o) (conv d) MAX_CONVERT_CAP).
Proof.
  intros Hd L. destruct (bzero_spec a cbo_size (pg_mem o) (conv d) MAX_CONVERT_CAP) as (m & -> & F);
    [unfold MAX_CONVERT_CAP, MAX_BINARY_CONVERT_CAP; lia|apply (tc_cbo TC)|].
  apply lands_ok, live_mem; [exact L| |].
  - intros x. rewrite F. wcase; [unfold is_u; lia|apply L].
  - intros x Ne. exists d. split; [exact Hd|]. rewrite F in Ne. revert Ne. wcase; [|contradiction]. intros _.
    unfold in_array. lia.
Qed.

Lemma handles_case d i f v : (d < 3)%nat -> spec_case lit (handle d) (conv d) i t = Some f -> emits f v ->
  handles (handle (S d) i) v.
Proof.
  intros Hd E Hf u o L Hc. cbn [handle_strftime_spec]. eapply lands_bind; [apply (clear_array d _ _ o Hd L)|].
  intros m Lm. cbv beta in Lm. rewrite E. eapply lands_bind; [apply (Hf u (set_mem o m) Lm Hc)|].
  intros o' L'. apply lands_ok. auto.
Qed.

(** A directive is handled by calls nested to a depth of [d]. *)
Definition prints_at (d : nat) (mods : strftime_modifiers) (ch : Z) : Prop :=
  exists v, directive_text mods t ch = Some v /\ handles (handle d (StrftimeSpec ch mods)) v.

Ltac in_range := destruct (tc_tm TC); unfold is_u, year_of, hour_12; try dlia.

Ltac each tac := repeat (apply List.Forall_cons; [tac|]); apply List.Forall_nil.

Section Simple.
Context (d : nat) (Hd : (d < 3)%nat) (mods : strftime_modifiers).

Lemma prints_case ch f v : spec_case lit (handle d) (conv d) (StrftimeSpec ch mods) t = Some f -> emits f v ->
  directive_text mods t ch = Some v -> prints_at (S d) mods ch.
Proof. intros E Hf Ht. exists v. split; [exact Ht|]. eapply handles_case; eauto. Qed.

Lemma names_print : Forall (prints_at (S d) mods) [97; 65; 98; 104; 66].
Proof.
  destruct (weekday_emits (StrftimeSpec 97 mods) (tm_wday t)) as (_ & Ea); [in_range|].
  destruct (weekday_emits (StrftimeSpec 65 mods) (tm_wday t)) as (EA & _); [in_range|].
  destruct (month_emits (StrftimeSpec 98 mods) (tm_mon t)) as (_ & Eb); [in_range|].
  destruct (month_emits (StrftimeSpec 104 mods) (tm_mon t)) as (_ & Eh); [in_range|].
  destruct (month_emits (StrftimeSpec 66 mods) (tm_mon t)) as (EB & _); [in_range|].
  rewrite <- (month_value t (tc_tm TC)) in Eb, Eh, EB.
  each ltac:(eapply prints_case; [reflexivity|eassumption|reflexivity]).
Qed.

(** Both sides print the same value. *)
Lemma prints_number ch n n' c w v : spec_case lit (handle d) (conv d) (StrftimeSpec ch mods) t =
    Some (padded_number (conv d) (StrftimeSpec ch mods) n c w) -> directive_text mods t ch = Some v ->
  v = field mods c (Z.to_nat w) n' -> n = Ok n' -> (0 <=? w) && (w <=? 3) && (0 <=? c) && (c <? 256) = true -> 0 <= n' < 2 ^ 64 ->
  prints_at (S d) mods ch.
Proof.
  intros E Et -> -> Hw Hn. apply andb_true_iff in Hw. destruct Hw as (Hw & ?). apply andb_true_iff in Hw. destruct Hw as (Hw & ?).
  apply andb_true_iff in Hw. eapply prints_case; [exact E|apply number_emits; lia|exact Et].
Qed.
Lemma prints_plain ch n n' v : spec_case lit (handle d) (conv d) (StrftimeSpec ch mods) t =
    Some (number (conv d) (StrftimeSpec ch mods) n) -> directive_text mods t ch = Some v ->
  v = decimal n' -> n = Ok n' -> 0 <= n' < 2 ^ 64 -> prints_at (S d) mods ch.
Proof. intros E Et -> -> Hn. eapply prints_case; [exact E|apply plain_emits; auto|exact Et]. Qed.

Lemma years_print : Forall (prints_at (S d) mods) [67; 121; 89; 103; 71].
Proof.
  destruct (iso_year_value t (tc_tm TC)) as (Ei & Hi). pose proof (year_value t (tc_tm TC)) as Ey.
  assert (Hy : 1900 <= year_of t < 2 ^ 31) by in_range.
  each ltac:(first [eapply prints_plain; [reflexivity|..]|eapply prints_number; [reflexivity|..]];
    [reflexivity|reflexivity|rewrite ?Ey, ?Ei; reflexivity|first [reflexivity|dlia]..]).
Qed.
Lemma days_print : Forall (prints_at (S d) mods) [100; 101; 106; 109; 117; 119].
Proof.
  assert (Em : u32 (tm_mon_to_month (tm_mon t)) = tm_mon t + 1)
    by (rewrite month_value by apply TC; apply wrap_small; in_range).
  assert (Eu : weekday_to_decimal_monday_one (tm_wday t) = if tm_wday t =? 0 then 7 else tm_wday t).
  { unfold weekday_to_decimal_monday_one, WEEKDAY_COUNT. destruct (tm_wday t =? 0); [reflexivity|]. apply wrap_small. in_range. }
  each ltac:(eapply prints_number; [reflexivity|reflexivity|reflexivity| |reflexivity|]; rewrite ?Em, ?Eu;
    try (f_equal; rewrite ?(wrap_small 64), ?(wrap_small 16), ?(wrap_small 8) by in_range; reflexivity);
    try destruct (tm_wday t =? 0); in_range).
Qed.
Lemma hours_print : Forall (prints_at (S d) mods) [72; 73; 77; 83; 107; 108].
Proof.
  pose proof (hour_12_value t (tc_tm TC)) as Eh. assert (Hh : 1 <= hour_12 t <= 12) by (unfold hour_12; dlia).
  each ltac:(eapply prints_number; [reflexivity|reflexivity|reflexivity| |reflexivity|]; rewrite ?Eh;
    try (f_equal; rewrite ?(wrap_small 64), ?(wrap_small 16), ?(wrap_small 8) by in_range; reflexivity); try lia; in_range).
Qed.
Lemma weeks_print : Forall (prints_at (S d) mods) [85; 86; 87].
Proof.
  destruct (iso_week_value t (tc_tm TC)) as (Ei & Hi). pose proof (week_value t (tc_tm TC)) as Ew.
  assert (Hw : forall b : bool, is_u8 (if b then monday_week t else sunday_week t))
    by (intros b; rewrite <- Ew; unfold get_week_count_at_day; apply wrap_bound; lia).
  pose proof (Hw true) as Hm. pose proof (Hw false) as Hs. unfold is_u in *.
  each ltac:(eapply prints_number; [reflexivity|reflexivity|reflexivity| |reflexivity|]; try exact Ei; rewrite ?Ew; try reflexivity; lia).
Qed.
Lemma texts_print : Forall (prints_at (S d) mods) [110; 112; 116; 37].
Proof.
  repeat (apply List.Forall_cons; [eapply prints_case; [reflexivity| |reflexivity]|]); [..|apply List.Forall_nil].
  - apply literal_emits, is_literal_elem. reflexivity.
  - replace (half_text t) with (chars_of (if hour24_is_pm (u8 (tm_hour t)) then "PM" else "AM")).
    + apply literal_emits, is_literal_elem. destruct (hour24_is_pm _); reflexivity.
    + unfold half_text, hour24_is_pm. rewrite (wrap_small 8) by in_range. destruct (Z.leb_spec 12 (tm_hour t)), (Z.ltb_spec (tm_hour t) 12); try lia; reflexivity.
  - apply literal_emits, is_literal_elem. reflexivity.
  - apply literal_emits, is_literal_elem. reflexivity.
Qed.

Definition simple_directives : list Z :=
  [97; 65; 98; 104; 66] ++ [67; 121; 89; 103; 71] ++ [100; 101; 106; 109; 117; 119] ++ [72; 73; 77; 83; 107; 108] ++
  [85; 86; 87] ++ [110; 112; 116; 37].
Lemma simple_prints ch : existsb (Z.eqb ch) simple_directives = true -> prints_at (S d) mods ch.
Proof.
  intros (c & Hin & ->%Z.eqb_eq)%existsb_exists. revert Hin. rewrite <- list_elem_of_In.
  assert (F : Forall (prints_at (S d) mods) simple_directives)
    by (unfold simple_directives; rewrite !Forall_app; auto 10 using names_print, years_print, days_print, hours_print, weeks_print, texts_print).
  rewrite list.Forall_forall in F. apply F.
Qed.
End Simple.

Lemma call_prints n mods c ch v : prints_at n mods ch -> directive_text mods t ch = Some v ->
  emits (RECURSIVE_CALL_FOR_SPEC (handle n) (StrftimeSpec c mods) ch) v.
Proof. intros (v' & E & Hv) E'. rewrite E in E'. injection E' as <-. apply recursive_emits, Hv. Qed.
Lemma in_turn_is fs vs v : Forall2 emits fs vs -> v = concat vs -> emits (in_turn fs) v.
Proof. intros F ->. apply in_turn_emits, F. Qed.

(** A directive that stands for others, each of which is handled one call deeper. *)
Ltac parts tac := eapply prints_case; [lia|reflexivity| |reflexivity];
  eapply in_turn_is; [repeat first
    [apply List.Forall2_nil
    |apply List.Forall2_cons; [first
      [eapply call_prints; [tac|reflexivity]|apply literal_emits, is_literal_elem; reflexivity|idtac]|]]
  |try (unfold clock_text, date_text; cbn [concat]; rewrite ?app_nil_r, ?app_assoc; reflexivity)].

Section Composite.
Context (d : nat) (Hd : (S d < 3)%nat) (mods : strftime_modifiers).

Lemma composite_prints : Forall (prints_at (S (S d)) mods) [68; 70; 114; 82; 84; 88; 120].
Proof. each ltac:(parts ltac:(apply simple_prints; [lia|reflexivity])). Qed.
Lemma v_prints : prints_at (S (S d)) mods 118.
Proof.
  eapply prints_case; [lia|reflexivity| |reflexivity].
  eapply (in_turn_is _ [_; _; field mods 32 3 (tm_mon t + 1); _]).
  - apply List.Forall2_cons; [eapply call_prints; [apply simple_prints; [lia|reflexivity]|reflexivity]|].
    apply List.Forall2_cons; [apply literal_emits, is_literal_elem; reflexivity|].
    apply List.Forall2_cons; [|apply List.Forall2_cons; [|apply List.Forall2_nil]].
    + rewrite month_value, (wrap_small 32) by (apply TC || in_range).
      apply (number_emits (StrftimeSpec 118 mods) (S d) (tm_mon t + 1) 32 3); in_range; lia.
    + eapply call_prints; [apply simple_prints; [lia|reflexivity]|reflexivity].
  - cbn [concat]. rewrite app_nil_r. reflexivity.
Qed.
End Composite.

Definition composite_directives : list Z := [68; 70; 114; 82; 84; 88; 120].
Lemma composite_print d mods ch : (S d < 3)%nat -> existsb (Z.eqb ch) composite_directives = true -> prints_at (S (S d)) mods ch.
Proof.
  intros Hd (c & Hin & ->%Z.eqb_eq)%existsb_exists. revert Hin. rewrite <- list_elem_of_In.
  pose proof (composite_prints d Hd mods) as F. rewrite list.Forall_forall in F. apply F.
Qed.
Lemma c_prints mods : prints_at 3 mods 99.
Proof.
  parts ltac:(first [apply (simple_prints 1); [lia|reflexivity]|apply (composite_print 0); [lia|reflexivity]]).
Qed.

(** Every other character is not a directive, to the code and to the reference. *)
Lemma no_directive rec buf mods ch :
  existsb (Z.eqb ch) (99 :: 118 :: simple_directives ++ composite_directives) = false ->
  directive_text mods t ch = None /\ spec_case lit rec buf (StrftimeSpec ch mods) t = None (A := progress St -> _).
Proof.
  destruct ch as [|p|p]; [split; reflexivity| |split; reflexivity].
  do 7 (destruct p as [p|p|]; try (split; reflexivity); try discriminate).
Qed.

Lemma time_directive_prints mods ch u o : live u true o -> pg_cont o = true ->
  match directive_text mods t ch with
  | Some v => lands (fun x => fst x = true /\ live (u ++ v) (pg_cont (snd x)) (snd x)) (handle 3 (StrftimeSpec ch mods) o)
  | None => lands (fun x => fst x = false /\ live u true (snd x) /\ pg_cont (snd x) = true) (handle 3 (StrftimeSpec ch mods) o)
  end.
Proof.
  intros L Hc. destruct (existsb (Z.eqb ch) (99 :: 118 :: simple_directives ++ composite_directives)) eqn:E.
  - assert (P : prints_at 3 mods ch).
    { cbn [existsb] in E. apply orb_true_iff in E. destruct E as [->%Z.eqb_eq|E]; [apply c_prints|].
      apply orb_true_iff in E. destruct E as [->%Z.eqb_eq|E]; [apply v_prints; lia|].
      rewrite existsb_app in E. apply orb_true_iff in E. destruct E; [apply simple_prints; auto|apply composite_print; auto]. }
    destruct P as (v & -> & Hv). apply Hv; auto.
  - destruct (no_directive (handle 2) (conv 2) mods ch E) as (-> & Es). change (handle 3) with
      (fun i o => m ← bzero a cbo_size (pg_mem o) (conv 2) MAX_CONVERT_CAP;
        match spec_case lit (handle 2) (conv 2) i t with
        | Some f => o ← f (set_mem o m); Ok (true, o) | None => Ok (false, set_mem o m) end).
    cbv beta. eapply lands_bind; [apply (clear_array 2 _ _ o ltac:(lia) L)|]. intros m Lm. rewrite Es. apply lands_ok. auto.
Qed.

Lemma directive_result mods ch u o : live u true o -> pg_cont o = true ->
  lands (fun x => if fst x : bool
      then exists w, directive_text mods t ch = Some w /\ live (u ++ w) (pg_cont (snd x)) (snd x)
      else directive_text mods t ch = None /\ live u true (snd x) /\ pg_cont (snd x) = true)
    (handle 3 (StrftimeSpec ch mods) o).
Proof.
  intros L Hc. pose proof (time_directive_prints mods ch u o L Hc) as Dp.
  destruct (directive_text mods t ch) as [w|]; (eapply lands_impl; [exact Dp|]); intros x (-> & Hx); eauto.
Qed.

(** *** The loop over the format *)

Lemma live_set_cont u c o b : live u c o -> live u c (set_cont o b).
Proof. intros [? ? ? ?]. split; assumption. Qed.
Lemma live_stop u v o : live u false o -> live (u ++ v) false o.
Proof. intros [? ? ? ?]. split; auto. apply shown_stop. assumption. Qed.

Lemma rest_cstr u c o p chars : live u c o -> fmt_rest fmt l p chars -> cstr (pg_mem o) p chars.
Proof.
  intros L (pre & El & ->). destruct (tc_fmt TC) as ((Hh & Hn & F0 & F1) & _). pose proof (tc_fmt_still TC) as S.
  rewrite El, <- app_assoc, holds_app in Hh. rewrite El in Hn. apply (f_equal length) in El. destruct Hh as (_ & Hh).
  apply Forall_app in Hn. destruct Hn as (_ & Hn). rewrite length_app in El. split; [|split; [exact Hn|lia]].
  eapply holds_ext; [exact Hh|]. intros x Hx. apply (lv_still _ _ _ L), S. rewrite length_app in Hx. cbn [length] in Hx. lia.
Qed.
Lemma rest_length p chars : fmt_rest fmt l p chars ->
  fmt <= p /\ p + Z.of_nat (length chars) = fmt + Z.of_nat (length l) /\ (length chars <= fuel)%nat /\
  Z.of_nat (length chars) < 2 ^ 32 /\ 0 <= fmt /\ fmt + Z.of_nat (length l) < 2 ^ 64.
Proof.
  intros F. pose proof (fmt_rest_inside fmt l p chars F) as (Hi & He). unfold inside in Hi. destruct (tc_fmt TC) as (_ & ? & ? & ? & ?). lia.
Qed.

Lemma find_percent u c o p v r : live u c o -> fmt_rest fmt l p (v ++ r) -> no_percent v = true ->
  (forall r', r = 37 :: r' -> strchr fuel a (pg_mem o) p 37 = Ok (Some (p + Z.of_nat (length v)))) /\
  (r = [] -> strchr fuel a (pg_mem o) p 37 = Ok None).
Proof.
  intros L F Hv. destruct (rest_cstr u c o p _ L F) as (Hh & Hz & _). apply Forall_app in Hz. destruct Hz as (Hz & _).
  pose proof (rest_length _ _ F) as (_ & _ & Hf & _). rewrite length_app in Hf. rewrite <- app_assoc in Hh.
  destruct (strchr_reads a (pg_mem o) (lv_mem _ _ _ L) v fuel p (tail r ++ [0]) Hv Hz ltac:(lia)) as (H1 & H2).
  split; [intros r' ->|intros ->]; [apply H1|apply H2]; exact Hh.
Qed.
Lemma fmt_shows u c o p v r : live u c o -> fmt_rest fmt l p (v ++ r) ->
  sv_create_end p (p + Z.of_nat (length v)) = Ok (SV p (Z.of_nat (length v))) /\
  sv_create_length p (Z.of_nat (length v)) = Ok (SV p (Z.of_nat (length v))) /\
  shows (pg_mem o) (SV p (Z.of_nat (length v))) v /\
  forall x, p <= x < p + Z.of_nat (length v) -> time_outside s0 x.
Proof.
  intros L F. pose proof (rest_length _ _ F) as (H1 & H2 & _ & H3 & H4 & H5). rewrite length_app in *.
  unfold sv_create_end, sv_create_length, c_assert, sv_create_nocheck, distance, check_add_assert_w, check_add_w, fits.
  split; [|split; [|split]].
  - destruct (Z.leb_spec p (p + Z.of_nat (length v))); [|lia]. cbn [mbind outcome_bind].
    replace (p + Z.of_nat (length v) - p) with (Z.of_nat (length v)) by lia.
    rewrite !wrap_small; unfold is_u; rewrite ?wrap_small; unfold is_u; try lia. reflexivity.
  - destruct (Z.leb_spec 0 (p + Z.of_nat (length v))); [|lia]. destruct (Z.ltb_spec (p + Z.of_nat (length v)) (2 ^ 64)); [|lia].
    cbn [andb assert_some mbind outcome_bind]. rewrite (wrap_small 32) by (unfold is_u; lia). reflexivity.
  - destruct (rest_cstr u c o p _ L F) as (Hh & _). rewrite <- app_assoc, holds_app in Hh. split; [apply Hh|]. cbn [sv_length]. lia.
  - intros x Hx. apply (tc_fmt_still TC x). lia.
Qed.

Lemma plain_shown u o p v r : live u true o -> pg_cont o = true -> fmt_rest fmt l p (v ++ r) ->
  lands (fun x => fst x = negb (pg_cont (snd x)) /\ live (u ++ v) (pg_cont (snd x)) (snd x))
    (let sv := SV p (Z.of_nat (length v)) in
     if negb (sv_length sv =? 0) then o ← call_sv None o sv; Ok (negb (pg_cont o), o) else Ok (false, o)).
Proof.
  intros L Hc F. destruct (fmt_shows u true o p v r L F) as (_ & _ & Sh & Hx). cbn [sv_length].
  destruct (Z.eqb_spec (Z.of_nat (length v)) 0) as [E|E]; cbn [negb].
  - apply lands_ok. cbn [fst snd]. rewrite Hc. split; [reflexivity|]. destruct v; [|discriminate]. rewrite app_nil_r. exact L.
  - eapply lands_bind; [apply (call_shows None u o _ v L Hc Sh Hx)|]. intros o' L'. apply lands_ok. auto.
Qed.

Definition loop_end (T : list Z) (r : Z * progress St) : Prop :=
  let '(us, o) := r in
  exists tail, fmt_rest fmt l us tail /\
    (live T false o \/ exists u, live u true o /\ pg_cont o = true /\ u ++ tail = T).

Lemma loop_prints n : forall r us pend u o T, fmt_rest fmt l us (pend ++ r) -> strftime_text t r = Some T ->
  live u true o -> pg_cont o = true -> (length r <= n)%nat ->
  exists iter, strchr fuel a (pg_mem o) (us + Z.of_nat (length pend)) 37 = Ok iter /\
    lands (loop_end (u ++ pend ++ T)) (spec_loop a cbo_size fuel lit conv n t iter us o).
Proof.
  induction n as [n IH] using lt_wf_ind. intros r us pend u o T F HT L Hc Hn.
  destruct (percent_cases r) as (v & r2 & -> & Hv & Hr2). rewrite strftime_text_plain in HT by exact Hv.
  destruct (strftime_text t r2) as [T2|] eqn:ET; [|discriminate]. injection HT as <-.
  destruct (find_percent u true o _ v r2 L (fmt_rest_app _ _ _ _ _ F) Hv) as (Hp & Hno).
  destruct Hr2 as [->|(r' & ->)].
  - exists None. split; [apply Hno; reflexivity|]. injection ET as <-. rewrite !app_nil_r in *.
    exists (us, o). split; [destruct n; reflexivity|]. exists (pend ++ v). split; [exact F|]. right. eauto.
  - eexists. split; [eapply Hp; reflexivity|]. rewrite length_app in Hn. cbn [length] in Hn. destruct n as [|n]; [lia|].
    cbn [spec_loop]. rewrite app_assoc in F.
    replace (us + Z.of_nat (length pend) + Z.of_nat (length v)) with (us + Z.of_nat (length (pend ++ v))) by (rewrite length_app; lia).
    destruct (fmt_shows u true o us _ _ L F) as (-> & _). cbn [mbind outcome_bind].
    eapply lands_bind; [apply (plain_shown u o us _ _ L Hc F)|]. intros [stop o1] (Es & L1). cbn [fst snd] in Es, L1. subst stop.
    destruct (pg_cont o1) eqn:Ec1; cbn [negb].
    2:{ apply lands_ok. eexists. split; [exact F|]. left. rewrite (app_assoc pend), (app_assoc u). apply live_stop, L1. }
    destruct (directive_cases t r' T2 ET) as (mods & ch & pre & r & T' & -> & ET' & -> & Hmods).
    pose proof (fmt_rest_app _ _ _ _ _ F) as Fd. set (p := us + Z.of_nat (length (pend ++ v))) in *.
    destruct (rest_cstr _ _ _ _ _ L1 Fd) as (Hd & _). cbn [app] in Hd. apply holds_cons in Hd. destruct Hd as (_ & Hd).
    rewrite <- !app_assoc, (app_assoc pre), holds_app in Hd. destruct Hd as (Hd & _). rewrite (Hmods _ _ Hd).
    rewrite holds_app, holds_cons in Hd. destruct Hd as (_ & -> & _).
    eapply lands_bind; [apply (directive_result mods ch _ (set_cont o1 true) (live_set_cont _ _ _ _ L1) eq_refl)|].
    intros [valid o2] E2. cbn [fst snd] in E2. cbv beta zeta.
    set (used := 37 :: pre ++ [ch]) in *. change (fmt_rest fmt l p (used ++ r)) in Fd.
    assert (Eq : p + 1 + Z.of_nat (length pre) + 1 = p + Z.of_nat (length used))
      by (unfold used; cbn [length]; rewrite length_app; cbn [length]; lia).
    rewrite Eq. pose proof (fmt_rest_app _ _ _ _ _ Fd) as Fr. rewrite !length_app in Hn. cbn [length] in Hn.
    destruct valid.
    + destruct E2 as (w & -> & L2). destruct (pg_cont o2) eqn:Ec2; cbn [negb default].
      2:{ apply lands_ok. eexists. split; [exact F|]. left. apply live_set_cont.
          rewrite !app_assoc. rewrite app_assoc in L2. apply live_stop, L2. }
      destruct (IH n ltac:(lia) r _ [] _ (set_cont o2 true) T' Fr ET' (live_set_cont _ _ _ _ L2) eq_refl ltac:(lia)) as (it & En & Hl).
      cbn [length] in En. rewrite Z.add_0_r in En. rewrite En. cbn [mbind outcome_bind]. rewrite <- ?app_assoc in Hl; rewrite <- ?app_assoc; exact Hl.
    + destruct E2 as (-> & L2 & Ec2). rewrite Ec2. cbn [negb default].
      destruct (IH n ltac:(lia) r p used _ (set_cont o2 true) T' Fd ET' (live_set_cont _ _ _ _ L2) eq_refl ltac:(lia)) as (it & En & Hl).
      rewrite En. cbn [mbind outcome_bind]. rewrite <- ?app_assoc in Hl; rewrite <- ?app_assoc; exact Hl.
Qed.

Lemma stopped_stays u o sv v : live u false o -> shows (pg_mem o) sv v ->
  (forall x, sv_begin sv <= x < sv_begin sv + sv_length sv -> time_outside s0 x) ->
  lands (fun o' => live u false o') (call_sv None o sv).
Proof.
  intros [Ls Lm Lo Lk] (_ & Hl & Hb) Hx. unfold call_sv.
  destruct (time_sv_stopped None (pg_sink o) (pg_mem o) sv u (pg_cont o)) as (k & c & m' & s' & -> & Hs & Hm & Hf); auto; [lia|].
  cbn [mbind outcome_bind]. apply lands_ok. split; cbn [pg_cont pg_mem pg_sink]; auto.
  - intros x Ho. apply Hf; auto.
  - intros x Hs'. rewrite <- (Lk x Hs'). apply Hf, Lo, Hs'.
Qed.

(** The text after the last directive. *)
Lemma rest_shown T us o : loop_end T (us, o) ->
  lands (fun o' => exists c, live T c o')
    (if negb (pg_mem o us =? 0) then
       length ← strlen fuel (pg_mem o) us; sv ← sv_create_length us (u32 length); call_sv None o sv
     else Ok o).
Proof.
  intros (tail & F & E). assert (L : exists u c, live u c o) by (destruct E as [E|(u & E & _)]; eauto).
  destruct L as (u0 & c0 & L0). pose proof (rest_cstr _ _ _ _ _ L0 F) as C. pose proof (rest_length _ _ F) as (_ & _ & Hf & Hl & _).
  pose proof (cstr_char _ _ _ 0 C ltac:(lia)) as Z0. rewrite Z.add_0_r in Z0.
  destruct (Z.eqb_spec (pg_mem o us) 0) as [Em|Em]; cbn [negb].
  - apply Z0 in Em. destruct tail; [|discriminate]. apply lands_ok. cbv beta.
    destruct E as [E|(u & Lu & _ & <-)]; [exists false; exact E|]. rewrite app_nil_r. exists true. exact Lu.
  - rewrite (strlen_cstr fuel _ us tail C Hf). cbn [mbind outcome_bind]. rewrite (wrap_small 32) by (unfold is_u; lia).
    rewrite <- (app_nil_r tail) in F. destruct (fmt_shows _ _ o us tail [] L0 F) as (_ & -> & Sh & Hx). cbn [mbind outcome_bind].
    destruct E as [E|(u & Lu & Hc & <-)].
    + eapply lands_impl; [apply (stopped_stays T o _ tail E Sh Hx)|intros o' L'; exists false; exact L'].
    + eapply lands_impl; [apply (call_shows None u o _ tail Lu Hc Sh Hx)|intros o' L'; exists (pg_cont o'); exact L'].
Qed.

(** The engine shows every callback with the promise the text of the format. *)
Lemma format_prints T : shown s0 m0 [] true -> strftime_text t l = Some T ->
  exists m s, parse_strftime_format a cbo_size fuel lit conv m0 s0 fmt t = Ok (0, m, s) /\
    (exists c, shown s m T c) /\ (forall x, still x -> m x = m0 x).
Proof.
  intros Hs HT. assert (L : live [] true (Progress 0 true m0 s0)) by (split; cbn; auto; apply TC).
  assert (F : fmt_rest fmt l fmt ([] ++ l)) by (exists []; cbn; split; [reflexivity|lia]).
  destruct (tc_fmt TC) as (_ & Hf & _).
  destruct (loop_prints fuel l fmt [] [] _ T F HT L eq_refl Hf) as (it & Ei & ([us o] & El & Hend)).
  cbn [length pg_mem app] in Ei, Hend. rewrite Z.add_0_r in Ei. unfold parse_strftime_format. rewrite Ei. cbn [mbind outcome_bind]. rewrite El.
  cbn [mbind outcome_bind]. destruct (rest_shown T us o Hend) as (o' & -> & c & L'). cbn [mbind outcome_bind].
  exists (pg_mem o'), (pg_sink o'). split; [reflexivity|]. destruct L'. eauto.
Qed.
End Engine.

(** ** The buffer of lib/strftime.c *)

Lemma buffer_full_spec mb : mb_wf mb -> mbuffer_full mb = (mb_index mb =? mb_end mb - mb_begin mb).
Proof.
  intros (? & ? & ? & ? & ?). unfold mbuffer_full, mbuffer_used_size, mbuffer_capacity, distance.
  rewrite !wrap_small; unfold is_u; rewrite ?wrap_small; unfold is_u; lia || reflexivity.
Qed.

Section Buffer.
Context (a : arch) (b e : Z).
#[local] Existing Instance buffer_time_sink.

(** What fits of the text, from the start of the buffer. *)
Definition buffer_shown (mb : mutable_buffer) (m : mem) (u : list Z) (c : bool) : Prop :=
  mb_wf mb /\ mb_begin mb = b /\ mb_end mb = e /\ mb_contents m mb = take (Z.to_nat (e - b)) u /\
  c = (Z.of_nat (length u) <? e - b).

Lemma buffer_index mb m u c : buffer_shown mb m u c -> mb_index mb = Z.min (Z.of_nat (length u)) (e - b).
Proof.
  intros (W & Eb & Ee & Ec & _). pose proof (length_contents m mb W) as Hl. rewrite Ec, length_take in Hl.
  destruct W as (? & ? & ? & _). lia.
Qed.

Lemma buffer_appends i mb m sv u c0 c1 : buffer_shown mb m u c0 -> mem_ok m -> 0 <= sv_length sv < 2 ^ 32 ->
  (forall x, sv_begin sv <= x < sv_begin sv + sv_length sv -> ~ (b <= x < e)) ->
  exists k c' m' mb', time_format_to_string_sv_callback a i m mb sv c1 = Ok (k, c', m', mb') /\ mem_ok m' /\
    (forall x, ~ (b <= x < e) -> m' x = m x) /\
    exists c2, buffer_shown mb' m' (u ++ sv_chars m sv) c2 /\ (c1 = true -> c' = c2).
Proof.
  intros Hs Hm Hl Hx. pose proof (buffer_index _ _ _ _ Hs) as Hi. destruct Hs as (W & Eb & Ee & Ec & _).
  assert (Hxo : forall x, sv_begin sv <= x < sv_begin sv + sv_length sv -> buffer_outside mb x)
    by (unfold buffer_outside; rewrite Eb, Ee; exact Hx).
  destruct (append_sv_spec a m mb sv W Hm ltac:(lia) Hxo) as (k & m' & mb' & E & Hk & W' & Eb' & Ee' & Ei' & Ec').
  destruct (buffer_sv_safe a None mb m sv true W Hm Hl Hxo) as (k1 & c' & m1 & mb1 & E1 & _ & Hm' & _ & _ & Hf).
  unfold buffer_sv_callback in E1. rewrite E in E1. injection E1 as <- <- <- <-.
  unfold time_format_to_string_sv_callback. rewrite E. cbn [mbind outcome_bind]. rewrite (buffer_full_spec mb' W').
  eexists k, _, m', mb'. split; [reflexivity|]. split; [exact Hm'|]. unfold buffer_outside in Hf. rewrite Eb, Ee in *.
  split; [exact Hf|]. eexists. split; [split; [exact W'|split; [exact Eb'|split; [exact Ee'|split; [|reflexivity]]]]|].
  - rewrite Ec', Ec, take_app. f_equal. rewrite Hk, Hi. destruct (Z.le_gt_cases (e - b) (Z.of_nat (length u))).
    + f_equal. lia.
    + assert (Ln : length (sv_chars m sv) = Z.to_nat (sv_length sv)) by (unfold sv_chars; apply length_bytes_at).
      destruct (Z.le_gt_cases (sv_length sv) (e - (b + Z.min (Z.of_nat (length u)) (e - b)))); [rewrite !take_ge by lia; reflexivity|].
      f_equal. lia.
  - intros ->. rewrite Ei', Eb', Ee', Hi, length_app. unfold sv_chars. rewrite length_bytes_at.
    destruct W as (? & ? & ? & _).
    destruct (Z.eqb_spec k (sv_length sv)), (Z.eqb_spec (Z.min (Z.of_nat (length u)) (e - b) + k) (e - b)); cbn [negb orb];
      destruct (Z.ltb_spec (Z.of_nat (length u + Z.to_nat (sv_length sv))) (e - b)); try reflexivity; lia.
Qed.

Definition buffer_time_text : @TimeSinkText mutable_buffer (buffer_time_sink a).
Proof.
  refine {| time_outside := fun _ x => ~ (b <= x < e); shown := buffer_shown |}.
  - intros mb m m' u c (W & Eb & Ee & Ec & Hc) Hx. refine (conj W (conj Eb (conj Ee (conj _ Hc)))). rewrite <- Ec. apply bytes_at_ext. intros i Hi. apply Hx.
    destruct W as (? & ? & ? & _). intros Hn. apply Hn. lia.
  - intros mb m u v (W & Eb & Ee & Ec & Hc). symmetry in Hc. apply Z.ltb_ge in Hc. refine (conj W (conj Eb (conj Ee (conj _ _)))).
    + rewrite Ec, take_app_le by lia. reflexivity.
    + symmetry. apply Z.ltb_ge. rewrite length_app. lia.
  - intros i mb m sv u Hs Hm Hl Hx. destruct (buffer_appends i mb m sv u true true Hs Hm Hl Hx)
      as (k & c & m' & mb' & E & Hm' & Hf & c2 & Hs' & Hc). rewrite <- (Hc eq_refl) in Hs'. exists k, c, m', mb'.
    refine (conj E (conj Hs' (conj Hm' _))). auto.
  - intros i mb m sv u c Hs Hm Hl Hx. destruct (buffer_appends i mb m sv u false c Hs Hm Hl Hx)
      as (k & c' & m' & mb' & E & Hm' & Hf & c2 & (W & Eb & Ee & Ec & _) & _). exists k, c', m', mb'.
    destruct Hs as (_ & _ & _ & _ & Hc). symmetry in Hc. pose proof (proj1 (Z.ltb_ge _ _) Hc).
    refine (conj E (conj _ (conj Hm' _))); [|auto]. refine (conj W (conj Eb (conj Ee (conj _ (eq_sym Hc))))). rewrite Ec, take_app_le by lia. reflexivity.
Defined.
End Buffer.

(** What [time_format_to_string_buffer] finds in memory. *)
Definition buffer_call (a : arch) (cbo_size : Z) (fuel : nat) (lit : string -> Z) (conv : nat -> Z) (m : mem) (dst cap fmt : Z)
    (l : list Z) (t : tm) : Prop :=
  0 <= dst /\ 0 < cap < 2 ^ 32 /\ dst + cap < 2 ^ 64 /\
  @time_call cbo_size fuel lit conv mutable_buffer _ (buffer_time_text a dst (dst + cap)) m (MB dst (dst + cap) 0) fmt l t.

Lemma buffer_formats a cbo_size fuel lit conv m dst cap fmt l t T :
  buffer_call a cbo_size fuel lit conv m dst cap fmt l t -> strftime_text t l = Some T ->
  exists m', time_format_to_string_buffer a cbo_size fuel lit conv m dst cap fmt t = Ok (0, m') /\
    let n := Z.min (Z.of_nat (length T)) cap in
    holds m' dst (take (Z.to_nat n) T ++ [0]) /\
    forall x, ~ (dst <= x < dst + cap) -> x <> dst + n -> (forall d, (d < 3)%nat -> ~ in_array (conv d) x) -> m' x = m x.
Proof.
  intros (Hd & Hc & Hdc & TC) HT. unfold time_format_to_string_buffer, mbuffer_open. destruct (Z.eqb_spec cap 0) as [|_]; [lia|].
  destruct (Z.leb_spec 0 cap); [|lia]. unfold check_add_assert_w, check_add_w, fits. cbn [c_assert mbind outcome_bind].
  destruct (Z.leb_spec 0 (dst + 0)); [|lia]. destruct (Z.ltb_spec (dst + 0) (2 ^ 64)); [|lia]. cbn [andb assert_some mbind outcome_bind].
  unfold mbuffer_open_static.
  destruct (@format_prints a cbo_size fuel lit conv _ _ (buffer_time_text a dst (dst + cap)) m (MB dst (dst + cap) 0) fmt l t TC T)
    as (m1 & mb & -> & (c & Hs) & Hk); [|exact HT|].
  { cbn [shown buffer_time_text]. split; [unfold mb_wf; cbn; lia|]. split; [reflexivity|]. split; [reflexivity|]. cbn.
    split; [rewrite take_nil; reflexivity|]. symmetry. apply Z.ltb_lt. lia. }
  cbn [mbind outcome_bind]. pose proof (buffer_index _ _ _ _ _ _ Hs) as Hi. destruct Hs as (W & Eb & Ee & Ec & _).
  eexists. split; [reflexivity|]. replace (dst + cap - dst) with cap in * by lia. unfold mbuffer_current_ptr.
  rewrite Eb, Hi. cbv zeta. set (n := Z.min (Z.of_nat (length T)) cap) in *. split.
  - apply holds_app. split; [|apply holds_cons; rewrite length_take, Nat.min_l, Z2Nat.id by lia; split; [unfold upd; rewrite Z.eqb_refl; reflexivity|reflexivity]].
    eapply (holds_ext m1).
    + unfold holds. rewrite length_take, Nat.min_l by lia. unfold mb_contents in Ec. rewrite Eb, Hi in Ec.
      rewrite Ec. destruct (Z.le_gt_cases cap (Z.of_nat (length T))); [f_equal; lia|rewrite !take_ge by lia; reflexivity].
    + intros x Hx. rewrite length_take in Hx. unfold upd. zcase; [lia|reflexivity].
  - intros x Hx Hne Ha. unfold upd. zcase; [lia|]. apply Hk. split; [exact Hx|exact Ha].
Qed.


(** ** Times from timestamps *)

Lemma year_bound y d : year_start y <= d < year_start (y + 1) -> 0 <= d < 2 ^ 31 -> 1970 <= y < 2 ^ 31 - 1900.
Proof. unfold year_start, leaps. intros. dlia. Qed.

Lemma date_fields t y d ts : clock_of ts t -> 0 <= d < 2 ^ 31 -> year_start y <= d < year_start (y + 1) ->
  tm_wday t = (d + 4) mod 7 -> tm_year t + 1900 = y -> date_of_day d y (tm_mon t + 1) (tm_mday t) ->
  tm_yday t = d - year_start y -> tm_ok t.
Proof.
  intros (? & ? & ? & _) Hd Hy Hw Ey (Hm & Hmd & _) Eyd. pose proof (year_bound y d Hy Hd). pose proof (month_len_pos (year_is_leap_year y) (tm_mon t + 1)).
  rewrite year_start_step in Hy by lia. pose proof (year_get_day_count_pos y). split; try lia. dlia.
Qed.


(** The timestamp of ISO 8601, for every moment outside that day: the year in as many digits as
    it has, the other fields in two. *)
Definition iso_stamp_format : list Z := chars_of "%Y-%m-%dT%H:%M:%SZ".
Definition two (n : Z) : list Z := field STRFTIME_MODIFIERS_INIT 48 2 n.
Definition iso_stamp (y m d h mi s : Z) : list Z :=
  decimal y ++ chars_of "-" ++ two m ++ chars_of "-" ++ two d ++ chars_of "T" ++ two h ++ chars_of ":" ++ two mi ++
  chars_of ":" ++ two s ++ chars_of "Z".

Lemma decimal_length n : 0 <= n < 2 ^ 64 -> (length (decimal n) <= 21)%nat.
Proof.
  intros Hn. destruct (unsigned_prints 10 plain_options n (replicate 68 0)) as (i & fi & b' & ds & E & _ & _ & Hds & Hi & _ & _ & _ & Sp);
    [right; right; left; reflexivity|discriminate|exact Hn|reflexivity|].
  apply unsigned_ends in E. cbn in E. subst fi ds. pose proof (proj1 Sp) as Hl. rewrite length_app in Hl. unfold decimal. lia.
Qed.
Lemma two_length n : 0 <= n < 100 -> length (two n) = 2%nat.
Proof.
  intros Hn. assert (C : forallb (fun k => length (two k) =? 2)%nat (seqZ 0 100) = true) by (vm_compute; reflexivity).
  rewrite forallb_forall in C. apply Nat.eqb_eq, C, list_elem_of_In, elem_of_seqZ. lia.
Qed.

(** C17: the format %Y-%m-%dT%H:%M:%SZ of the time [tm_from_stamp] returns is the Gregorian date of
    the timestamp's day and its time of day, on every day but the 31st of December of a leap year;
    [time_format_to_string_buffer] writes it to a buffer of 40 bytes. *)
Theorem strftime_of_stamp a cbo_size fuel lit conv m dst cap fmt ts : 0 <= ts < DAY_LIMIT * 86400 ->
  (forall t, tm_ok t -> buffer_call a cbo_size fuel lit conv m dst cap fmt iso_stamp_format t) -> 40 <= cap ->
  exists t y, tm_from_stamp ts = Ok t /\ year_start y <= ts / 86400 < year_start (y + 1) /\
    (year_is_leap_year y && (ts / 86400 - year_start y =? 365) = false ->
     exists mo d h mi s m', date_of_day (ts / 86400) y mo d /\ ts mod 86400 = h * 3600 + mi * 60 + s /\
       0 <= h < 24 /\ 0 <= mi < 60 /\ 0 <= s < 60 /\
       time_format_to_string_buffer a cbo_size fuel lit conv m dst cap fmt t = Ok (0, m') /\
       holds m' dst (iso_stamp y mo d h mi s ++ [0])).
Proof.
  intros Hts Hb Hcap. destruct (stamp_date ts Hts) as (t & y & E & Hc & Hy & Hw & Hd). exists t, y.
  split; [exact E|]. split; [exact Hy|]. intros Hday. cbv zeta in Hd. rewrite Hday in Hd. destruct Hd as (Ey & Hdate & Eyd).
  assert (Hd0 : 0 <= ts / 86400 < 2 ^ 31) by (unfold DAY_LIMIT in Hts; dlia).
  assert (OK : tm_ok t) by (eapply date_fields; eauto).
  set (T := iso_stamp y (tm_mon t + 1) (tm_mday t) (tm_hour t) (tm_min t) (tm_sec t)).
  assert (HT : strftime_text t iso_stamp_format = Some T).
  { unfold T, iso_stamp, two. rewrite <- Ey. fold (year_of t). with_strategy opaque [field decimal year_of] reflexivity. }
  assert (Hl : Z.of_nat (length T) <= 40).
  { assert (Hy64 : 0 <= y < 2 ^ 64) by (pose proof (ok_year t OK); lia). destruct OK. unfold T, iso_stamp.
    rewrite !length_app, !two_length by lia. pose proof (decimal_length y Hy64). cbn [length chars_of map list_ascii_of_string]. lia. }
  destruct (buffer_formats a cbo_size fuel lit conv m dst cap fmt _ t T (Hb t OK) HT) as (m' & Ef & Hh & _).
  destruct Hc as (? & ? & ? & Hclock & _).
  exists (tm_mon t + 1), (tm_mday t), (tm_hour t), (tm_min t), (tm_sec t), m'. split_and?; auto; try lia.
  rewrite take_ge in Hh by lia. exact Hh.
Qed.
