(* ===== verification/StrftimeDemo.v ===== *)
(** * Time formats at work

    A memory with the literals of lib/parse_strftime.c, a format and a buffer; the theorem of
    [StrftimeText] at it, and what the engine does outside the theorem. *)

From Stdlib Require Import String Ascii.
From S2P Require Import Prelude Mem Alloc Arith Range KStdlib Ctype Convert Buffers Time Printf PrintfSafe PrintfText PrintfIso Strftime StrftimeText.
Import StringView MBuffer.

(** Each literal in sixteen bytes from address 4096. *)
Fixpoint index_of (s : string) (l : list string) : Z :=
  match l with
  | [] => 0
  | x :: l => if String.eqb s x then 0 else 1 + index_of s l
  end.
Definition demo_lit (s : string) : Z := 4096 + 16 * index_of s time_literals.
Definition sixteen (s : string) : list Z := chars_of s ++ replicate (16 - String.length s) 0.
Definition literal_bytes : list Z := concat (map sixteen time_literals).
(** The format is at 256, and what follows it in memory. *)
Definition demo_mem (format : list Z) : mem := write_bytes (write_bytes (fun _ => 0) 256 format) 4096 literal_bytes.
Definition demo_conv (d : nat) : Z := 1024 + 128 * Z.of_nat d.
Definition demo_fmt : list Z := chars_of "%A, %e %^b %G-W%V; %Y%j %_H:%M%Q %c".
(** Thursday the 29th of February 2024, 9:05:07. *)
Definition demo_tm : tm := Tm 7 5 9 29 1 124 4 59 0.

Definition format_demo (fmt : list Z) (cap : Z) (t : tm) : outcome (Z * mem) :=
  time_format_to_string_buffer x86_64 0 64 demo_lit demo_conv (demo_mem fmt) 16 cap 256 t.
(** The [n] bytes at the start of the buffer. *)
Definition result_bytes (n : nat) (r : outcome (Z * mem)) : list Z :=
  match r with Ok (_, m) => bytes_at m 16 n | _ => [] end.

Definition byte_list (l : list Z) : bool := forallb (fun c => (0 <=? c) && (c <? 256)) l.
Lemma byte_list_u8 l : byte_list l = true -> Forall is_u8 l.
Proof.
  unfold byte_list. rewrite forallb_forall, list.Forall_forall. intros H x Hx. apply list_elem_of_In, H, andb_true_iff in Hx.
  unfold is_u. lia.
Qed.
Lemma time_mem_ok fmt : byte_list fmt = true -> mem_ok (demo_mem fmt).
Proof.
  intros H. apply write_bytes_ok; [apply write_bytes_ok; [intros x; unfold is_u; lia|]|]; apply byte_list_u8;
    [exact H|vm_compute; reflexivity].
Qed.

(** Where the literals are, and what is there. *)
Definition literal_placed (s : string) : bool :=
  (4096 <=? demo_lit s) && (demo_lit s + Z.of_nat (String.length s) <=? 8192) &&
  bool_decide (take (String.length s) (drop (Z.to_nat (demo_lit s - 4096)) literal_bytes) = chars_of s).
Lemma literals_placed : forallb literal_placed time_literals = true.
Proof. vm_compute. reflexivity. Qed.
Lemma literal_bytes_length : Z.of_nat (length literal_bytes) < 4096.
Proof. vm_compute. reflexivity. Qed.
Lemma literal_at fmt s : s ∈ time_literals ->
  (4096 <= demo_lit s /\ demo_lit s + Z.of_nat (String.length s) <= 8192) /\ holds (demo_mem fmt) (demo_lit s) (chars_of s).
Proof.
  intros Hs. pose proof literals_placed as P. rewrite forallb_forall in P. specialize (P s (proj1 (list_elem_of_In _ _) Hs)).
  unfold literal_placed in P. rewrite !andb_true_iff, bool_decide_eq_true in P. destruct P as ((H1 & H2) & E). split; [lia|].
  assert (Hb : holds (demo_mem fmt) 4096 literal_bytes) by apply write_bytes_holds.
  rewrite <- (take_drop (Z.to_nat (demo_lit s - 4096)) literal_bytes), holds_app in Hb. destruct Hb as (_ & Hb).
  rewrite <- (take_drop (String.length s) (drop _ literal_bytes)), E, holds_app in Hb. destruct Hb as (Hb & _).
  rewrite length_take in Hb. pose proof (f_equal length E) as El. rewrite length_take, length_drop, length_chars_of in El.
  destruct (decide (String.length s = 0%nat)) as [E0|E0]; [apply (f_equal length) in E; rewrite length_chars_of, E0 in E;
    destruct s; [reflexivity|discriminate]|].
  replace (4096 + Z.of_nat (Z.to_nat (demo_lit s - 4096) `min` length literal_bytes)) with (demo_lit s) in Hb by lia. exact Hb.
Qed.

Lemma demo_call fmt cap t : byte_list (fmt ++ [0]) = true -> forallb (fun c => negb (c =? 0)) fmt = true -> (length fmt <= 64)%nat ->
  0 < cap <= 128 -> tm_ok t ->
  buffer_call x86_64 0 64 demo_lit demo_conv (demo_mem (fmt ++ [0])) 16 cap 256 fmt t.
Proof.
  intros Hu Hz Hl Hc Ht. split; [lia|]. split; [lia|]. split; [lia|].
  assert (S : forall x, 256 <= x < 512 \/ 4096 <= x -> still demo_conv (TT := buffer_time_text x86_64 16 (16 + cap)) (MB 16 (16 + cap) 0) x).
  { intros x Hx. split; [cbn; lia|]. unfold in_array, demo_conv, MAX_CONVERT_CAP, MAX_BINARY_CONVERT_CAP. intros d Hd. lia. }
  split.
  - apply time_mem_ok, Hu.
  - exact Ht.
  - left. reflexivity.
  - intros d Hd. unfold in_array, demo_conv, MAX_CONVERT_CAP, MAX_BINARY_CONVERT_CAP. cbn [time_outside buffer_time_text].
    split; [lia|]. split; [lia|]. intros x Hx. lia.
  - split; [|lia]. split; [|split; [|lia]].
    + eapply (holds_ext (write_bytes (fun _ => 0) 256 (fmt ++ [0]))); [apply write_bytes_holds|]. intros x Hx. rewrite length_app in Hx. cbn [length] in Hx.
      unfold demo_mem. rewrite write_bytes_spec. wcase; [lia|reflexivity].
    + rewrite list.Forall_forall. rewrite forallb_forall in Hz. intros c Hin. apply list_elem_of_In, Hz in Hin. lia.
  - intros x Hx. apply S. lia.
  - intros s Hs. apply literal_at, Hs.
  - intros s x Hs Hx. apply S. destruct (literal_at fmt s Hs) as (? & _). lia.
Qed.


Lemma strftime_of_stamp_witness :
  exists t y, tm_from_stamp 1709197507 = Ok t /\ year_start y <= 1709197507 / 86400 < year_start (y + 1) /\
    (year_is_leap_year y && (1709197507 / 86400 - year_start y =? 365) = false ->
     exists mo d h mi s m', date_of_day (1709197507 / 86400) y mo d /\ 1709197507 mod 86400 = h * 3600 + mi * 60 + s /\
       0 <= h < 24 /\ 0 <= mi < 60 /\ 0 <= s < 60 /\
       time_format_to_string_buffer x86_64 0 64 demo_lit demo_conv (demo_mem (iso_stamp_format ++ [0])) 16 40 256 t = Ok (0, m') /\
       holds m' 16 (iso_stamp y mo d h mi s ++ [0])).
Proof.
  apply (strftime_of_stamp x86_64 0 64 demo_lit demo_conv (demo_mem (iso_stamp_format ++ [0])) 16 40 256 1709197507);
    [unfold DAY_LIMIT; lia| |lia].
  intros t Ht. apply demo_call; [reflexivity|reflexivity|vm_compute; lia|lia|exact Ht].
Defined.
(** That moment, and the last day of the same year. *)
Definition stamp_text (ts : Z) : list Z :=
  match tm_from_stamp ts with Ok t => result_bytes 20 (format_demo (iso_stamp_format ++ [0]) 40 t) | _ => [] end.
Example stamp_texts :
  stamp_text 1709197507 = chars_of "2024-02-29T09:05:07Z" /\ stamp_text 1735603200 = chars_of "2025-01-00T00:00:00Z".
Proof. vm_compute. auto. Qed.

(** The text fills a buffer of four bytes: the terminator is written to the fifth. *)
Example terminator_past_buffer :
  result_bytes 4 (format_demo (chars_of "%Y" ++ [0]) 4 demo_tm) = chars_of "2024" /\
  match format_demo (chars_of "%Y" ++ [0]) 4 demo_tm with Ok (_, m) => m 20 | _ => -1 end = 0.
Proof. vm_compute. auto. Qed.

(** A format that ends in a percent sign: the terminator is taken for a directive that is none,
    and the format goes on with what follows it in memory. *)
Example reads_past_format :
  result_bytes 15 (format_demo (chars_of "100%" ++ [0] ++ chars_of "secret %d!" ++ [0]) 100 demo_tm) =
  chars_of "100%" ++ [0] ++ chars_of "secret 29!".
Proof. vm_compute. reflexivity. Qed.

(** On the 1st of January 2021, a Friday, the weeks of %U and %W are 36 and 37 and not 0. *)
Example first_days_of_january :
  result_bytes 6 (format_demo (chars_of "%U %W" ++ [0]) 100 (Tm 0 0 0 1 0 121 5 0 0)) = chars_of "36 37" ++ [0].
Proof. vm_compute. reflexivity. Qed.

(** The length of every text is 0. *)
Lemma length_is_zero a cbo_size fuel lit conv m fmt t r m' :
  get_length_of_time_format a cbo_size fuel lit conv m fmt t = Ok (r, m') -> r = 0.
Proof.
  unfold get_length_of_time_format, parse_strftime_format. destruct (strchr _ _ _ _ _); [|discriminate..]. cbn [mbind outcome_bind].
  destruct (spec_loop _ _ _ _ _ _ _ _ _ _) as [[us o]| | |]; [|discriminate..]. cbn [mbind outcome_bind].
  destruct (if negb _ then _ else _); [|discriminate..]. cbn. intros [= <- _]. reflexivity.
Qed.
